(* ===== verification/_CoqProject ===== *)
-Q . S2P
Prelude.v
GoStrings.v
GoBinary.v
GoCrypto.v
GoAes.v
GoEncoding.v
GoUtf16.v
GoIO.v
Resp.v
Lifecycle.v
GoNet.v
GoTexts.v
Tokens.v
ProxyEvents.v
Redis.v
ProxyRuns.v
Relay.v
MysqlWire.v
Mysql.v
MysqlSpec.v
PgWire.v
Pg.v
PgSpec.v
Mongo.v
MongoSpec.v
TdsWire.v
Mssql.v
TdsSpec.v
MssqlSpec.v
Store.v
Sessions.v
SessionsSpec.v
PgServer.v
Identity.v
RateLimiter.v
Access.v
Assets.v
Credentials.v
CredentialsSpec.v
Sftp.v
SftpSpec.v
KnownHosts.v
KnownHostsSpec.v
SshChannel.v
Ssh.v
SshSpec.v
SshClaims.v
SftpClaims.v
SshTranscript.v
SshExamples.v
Ldap.v
LdapSpec.v
Auth.v
Admin.v
Http.v
Launch.v
LaunchSpec.v
LaunchSecret.v
AuthService.v
AuthSpec.v
AuthClaims.v
AuthLogin.v
AuthAttempts.v
AdminSpec.v
AdminClaims.v
GoFormats.v
ShellText.v
Desktop.v
DesktopRun.v
DesktopSpec.v
DesktopClaims.v
DesktopLogs.v
ConnectorAuth.v
ConnectorBackend.v
ConnectorTokens.v
Connector.v
ConnectorClaims.v
ConnectorExamples.v
History.v
HistorySpec.v
