(* ===== verification/Prelude.v ===== *)
(** * AccessD: a verified model of the access gateway's core

    AccessD (apps/api) gives users launch tokens for assets and then proxies
    their connections: a client speaks Redis, MySQL, PostgreSQL, TDS, MongoDB or
    SSH to a proxy, which looks up the session's credential, logs in to the upstream and relays,
    writing every command to the audit log.  On the operator's machine the
    connector (apps/connector) starts the client a launch is for.  This
    development models that core and the services it stands on, and proves what
    makes each of them correct.

    ** Parts of the program and where they are modelled

    - The Redis proxy, apps/api/internal/redisproxy/server.go.
      Resp.v: the RESP reader and writer ([readRESPCommand],
      [readRESPFrameRaw], [buildRESPCommand]).  Redis.v: one client connection
      from [handleSessionConn] to the command loop [runProxyLoop].
    - The MySQL proxy, apps/api/internal/mysqlproxy/server.go.
      MysqlWire.v: packets, length-encoded integers, handshakes, authentication
      responses, query classification.  Mysql.v: the relay of responses, the
      command loop [forwardCommands] with its statement cache, and
      [connectUpstream].  MysqlSpec.v: their specification.
    - The PostgreSQL proxy, apps/api/internal/pgproxy/server.go.
      PgWire.v: startup packets, messages, the fields read from them, SCRAM's
      computations.  Pg.v: client startup, upstream authentication, the query
      log.  PgSpec.v: their specification.
    - The MSSQL proxy, apps/api/internal/mssqlproxy/server.go.
      TdsWire.v: packets, PRELOGIN, the rewriting of LOGIN7, the texts of batches
      and RPC requests; TdsSpec.v is its specification.  Mssql.v: the PRELOGIN
      exchanges, the login and its response, the query log.  MssqlSpec.v: their
      specification.
    - The MongoDB proxy, apps/api/internal/mongoproxy/server.go.
      Mongo.v: OP_MSG frames, the SCRAM-SHA-256 login, the copy of both
      directions under a schedule of turns.  MongoSpec.v: their specification.
    - The SSH and SFTP proxy, apps/api/internal/sshproxy/server.go.
      Sftp.v: the packets read while they are relayed, and the table from
      handles to paths; SftpSpec.v: requests and their encoding.  KnownHosts.v:
      the modes of the host key callback, the known_hosts file and its repair;
      KnownHostsSpec.v: what the file comes to hold.  SshChannel.v: a session
      channel and the loops that copy it.  Ssh.v: authentication, the upstream,
      the two bridges as turns of their goroutines, and [handleConn].
      SshSpec.v: runs of the parts and induction over the turns of a bridge;
      SshClaims.v, SftpClaims.v, SshTranscript.v: what a connection may do, what
      is recorded of SFTP and of a shell; SshExamples.v: sessions that are run.
    - What the proxies share.  ProxyEvents.v: the calls that record what
      happens on a session, as entries of a proxy's trace.  ProxyRuns.v: unread
      bytes as the measure of the loops, and what a run may add to the trace.
      Relay.v: the two goroutines of pgproxy and mssqlproxy with their [select],
      over any [protocol] of messages; class [Forwards] is what a proxy owes the
      relay, and PgSpec.v and MssqlSpec.v have its instances.
      Lifecycle.v: listeners, [RegisterSession], the log queue and [Shutdown],
      as a step relation on the server's shared state.
    - The sessions service, apps/api/internal/sessions.
      Tokens.v: launch and bootstrap tokens (token.go, bootstrap_token.go).
      Store.v: the tables and statements of service.go.  Sessions.v: launches,
      marks, connector events, audit and the sweep (service.go,
      audit_enrichment.go).  SessionsSpec.v: their specification.
    - The identity services, apps/api/internal/auth and
      apps/api/internal/access.
      PgServer.v: a database server as the code sees it, with a schedule of
      failing statements, transactions and the frame of a statement.
      Identity.v: the tables of users, roles, groups, assets, grants,
      credentials and browser sessions.  Access.v: access/service.go.
      RateLimiter.v: auth/rate_limiter.go.  Ldap.v and LdapSpec.v: what
      auth/ldap_provider.go computes of texts.  Auth.v: the local, LDAP and
      fallback providers.  AuthService.v: auth/service.go.  AuthSpec.v: the
      frame of its requests and the invariant of its sessions.  AuthClaims.v,
      AuthLogin.v and AuthAttempts.v: what requests, logins and attempts rest on.
    - The inventory, apps/api/internal/assets: Assets.v.  The vault,
      apps/api/internal/credentials: Credentials.v (crypto.go, service.go);
      CredentialsSpec.v refines it to a map.
    - The administration, apps/api/internal/admin/service.go.  Admin.v: users,
      roles, groups, grants, effective access, the archive of an asset.
      AdminSpec.v: a transition system it refines and what it keeps;
      AdminClaims.v: what deleting an asset and deactivating a user achieve.
    - The launch handler, apps/api/internal/handlers/sessions.go.  Http.v: what
      a handler does with a request, as a monad with early answers.  Launch.v:
      [Launch], over the vault, the access check, the sessions and the proxies.
      LaunchSpec.v: what it does on every branch; LaunchSecret.v: it keeps the
      secrets of the vault from the client.
    - The connector, apps/connector.  Desktop.v: the requests of
      internal/launch/launch.go, their validation, the commands it writes and
      what it logs of them; DesktopRun.v: the processes it starts.  ShellText.v
      is how the shell, GLib, AppleScript and cmd.exe read a text, and
      DesktopSpec.v, DesktopClaims.v and DesktopLogs.v what they make of the
      launcher's.  ConnectorAuth.v: the verifiers of internal/auth and the
      verdict of cmd/connector/main.go; ConnectorBackend.v: the API's handlers
      that answer them; ConnectorTokens.v puts the two together.  Connector.v:
      the local server, who may call it, the launch handlers, the tracker;
      ConnectorClaims.v: what every interleaving keeps.
      ConnectorExamples.v: launches and servers that are run.
    - What is left of a session.  History.v: the recording of data and resizes,
      replays, events, lists, details, the audit trail and the summary of
      sessions/service.go, the transcripts, and the handlers of
      handlers/sessions.go that show and export all of it.  HistorySpec.v: what
      they show, to whom, and what they leave out.
    - Go itself, as far as the source uses it.  GoStrings.v (strings, strconv),
      GoBinary.v (byte orders, slices), GoCrypto.v (SHA-1, MD5, SHA-256, HMAC,
      written out), GoAes.v (AES-256-GCM), GoEncoding.v (UTF-8, base64, JSON), GoUtf16.v (runes,
      UTF-16), GoIO.v (readers, connections, write failures), GoNet.v
      (addresses, times), GoFormats.v (URLs, RFC 3339).  Prelude.v is this file: bytes, machine integers,
      errors, the state-and-outcome monad and its framing lemmas.  GoTexts.v:
      lemmas on split, trimmed and decimal texts.

    ** How they interact

    A browser logs in (AuthService.v) and a handler behind [RequireRoles] checks
    [CanUserPerform] (Access.v), creates a launch (Sessions.v) whose token
    (Tokens.v) the user's client presents to a proxy, resolves the asset's
    credential (Credentials.v) and registers the session with the proxy
    (Launch.v, Lifecycle.v).  The proxy resolves the token ([ResolveLaunchToken]), connects,
    relays (Redis.v, Mysql.v, Pg.v, Mssql.v) and marks the session (ProxyEvents.v names
    the calls, Sessions.v is what they do).  The browser hands the answer of a
    launch to the connector on the same machine, which checks the token in it
    (ConnectorAuth.v), by itself or with the API (ConnectorBackend.v), and opens
    a terminal or a database client on the proxy (Connector.v, DesktopRun.v).

    ** How code is modelled

    A Go call is a function into [M S A]: it threads a state and returns, fails,
    panics or runs out of fuel; what was written before an error stays written.
    A proxy's state is a [duplex]: the unread bytes of both sides, the trace of
    everything written and recorded, and a schedule of short and failing writes.
    A database is a record of tables with a schedule of failing statements,
    before or after their effect; a statement is one atomic step.  Goroutines
    interleave by explicit schedules (Relay.v) or steps (Lifecycle.v).  Integers
    that can overflow are wrapped at their width ([wrap], [swrap]); allocations
    that exceed the runtime's limit panic ([makeslice]).  An error is a
    sentinel, a text or a wrap of another; a text built with a format stops at
    its first verb, since nothing depends on the rest.

    Loops over a stream take fuel, bounded by the bytes left to read, of which
    each turn takes at least one; [resp_readers_total] and the measure lemmas of
    ProxyRuns.v show that the bound is never what stops a loop.  Loops over a
    list are structural.  The JSON reader and the trimming functions take the
    length of their input as fuel.

    Code outside the repository is a parameter: PostgreSQL (class [Postgres]:
    uuids, clock; [PostgresText]: inet, lower(), text order), the Unicode case
    tables ([Unicode], [UnicodeLaws]), x/crypto's ssh and knownhosts ([SshWire],
    [KnownHosts], [KnownHostsLaws]), the directory and its client library ([Directory]),
    bcrypt ([Bcrypt]), the process's clock and random bytes ([Host]), dials and
    TLS handshakes (answers of the environment in each proxy's section).  Where
    a theorem relies on documented behaviour of one of them, it is a class of
    laws ([PostgresLaws], [PostgresClock], [DirectoryLaws], [BcryptLaws],
    [HostLaws]), and an instance shows that the laws can hold.

    ** What the theorems show

    - Audit: every command a Redis client gets forwarded, every query a MySQL
      client gets executed, every simple query a PostgreSQL client and every
      batch an MSSQL client sends is logged before it is sent, in order, with the text the log promises; and
      the exceptions (a Redis inline command, a PostgreSQL portal under another
      name, a parameterised TDS request) are theorems of their own.
    - Relays: MySQL, PostgreSQL and MSSQL sessions refine an abstract session of
      messages under every interleaving and every failing write; nothing else is
      written.
    - Credentials: a required TLS that cannot be had stops a proxy before the
      credential is sent; SCRAM completes with an honest upstream and only with
      one that knows the key; the key derivation is PBKDF2.  A rewritten LOGIN7
      carries the managed credential, and a record exists that turns it into the
      client's host name.
    - Tokens and launches: what verifies was signed; a launch's token resolves to
      its own session and nothing else; rows stay well formed over any history.
    - Launching: a launch makes a session, and registers it, only for a user
      whom a grant allows the action on a live asset; its answer does not depend
      on the vault's secrets; an archived asset is never launched again; and
      how the required TLS of an MSSQL asset is lost on the way.
    - Vault: the credential table refines a map from asset and type to name and
      secret, over every history and every failure; only sealed text opens.
    - Administration: every call refines a guarded transition; the tables stay
      well formed; effective access is the check a launch makes; a deactivated
      user is signed out.
    - SSH: a connection asks the upstream only for what its launch is for; in the
      strict mode a credential goes only to a key known at the start; the
      transcript of a shell and the file operations of SFTP are exact under every
      interleaving and failing write; and how a download goes unrecorded, how
      known_hosts only grows, and how a shell's exit waits for the client.
    - Connector: a shell launch on macOS or Linux runs the bridge with exactly
      the fields of the request and a redis session its eight commands, through
      every layer of quoting; except that xfce4-terminal and cmd.exe run what an
      asset is named.  Under every interleaving a session is launched once, only
      with a signed token of its own; a token the API issued opens it however
      it is checked; an [Origin] decides nothing but preflights; what follows a
      bar in a password is logged.
    - Life cycle: the invariant of listeners and queue over every reachable
      state; every connection gets one terminal mark.
    - Identity: no login without a checked password, no handler without a live
      session and a role, at most one usable session per user over any history,
      a logout is final, ten failures block, the limiter refines its sliding
      window, the listing of assets agrees with the permission check; and where
      a directory login reaches a local account.
    - History: a session is shown to its user, administrators and auditors only,
      and looking changes nothing; exports end and are complete; the replay
      shows the recorded chunks that are UTF-8 without NUL, and no others; the
      typed lines of a transcript do not depend on how the input was cut; what
      an escape sequence encloses is missing from it; CSV is read back exactly.
    - Codecs: round trips of RESP commands, TDS messages, tokens and the LDAP group mapping;
      totality and bounds of the readers.

    ** What is not modelled, and why

    - TLS records and certificates (a TLS connection is its plaintext bytes and
      the outcome of its handshake), SQL beyond the statements the source runs,
      PostgreSQL's locking (overlap is considered for two logins only), the
      self-signed certificate the PostgreSQL proxy makes.  The functions of the
      MSSQL proxy that nothing but its tests calls ([parseLogin7Fields],
      [buildProxyTLSConfig]).
    - A full log queue is in Lifecycle.v; the proxies' own runs take the entry
      as accepted.  Goroutine preemption inside a critical section, and data
      races the source does not have.
    - The text of log lines.
    - In the MongoDB proxy, the half-closed state of a copy, and BSON (the
      driver's, a parameter).
    - Of the SSH proxy, accepting and tracking connections, the proxy's own host
      key file, and the timer of the maximal age (an error at the end of the
      streams).
    - Of the connector, FileZilla and WinSCP with the site manager's XML, the
      bridge itself (an SSH client in a terminal), the discovery of programs (the
      machine's answer), its configuration, certificate and diagnostics, and
      that a backend exchange can take long (a launch that waits for it has not
      begun).  A mux's own answers (404, 405, redirects) are all [Page].
    - Of the answers about sessions, their JSON texts and the quoting of a
      header; events that are written while an export pages through them.
    - The settings of the directory (admin/ldap.go), the HTTP handlers besides
      those of handlers/sessions.go (each decodes a request and calls a service
      that is modelled), the server, configuration and migrations: glue around
      net/http, the environment and SQL files.  The user interface and deployment
      scripts: other languages. *)
From Stdlib Require Export ZArith Lia.
From Stdlib Require Export Strings.Byte.
From stdpp Require Export base gmap list strings fin_maps.
#[global] Open Scope Z_scope.
#[global] Open Scope list_scope.

(** * Bytes

    Go [string] and [[]byte] values are both byte sequences, so both are
    [list byte] here; the conversions [string(b)] and [[]byte(s)] are the
    identity.  A literal is written [§"text"]. *)

Abbreviation bytes := (list byte).

Declare Scope go_scope.
Delimit Scope go_scope with go.
#[global] Open Scope go_scope.

Definition str (s : string) : bytes := String.list_byte_of_string s.
Notation "§ s" := (str s%string) (at level 1, s at level 0, format "§ s") : go_scope.

#[export] Instance byte_eq_dec : EqDecision byte := Byte.byte_eq_dec.

#[export] Program Instance byte_countable : Countable byte :=
  {| encode b := encode (Byte.to_N b); decode p := n ← decode p; Byte.of_N n |}.
Next Obligation. intros b. cbn beta. rewrite (decode_encode (Byte.to_N b)). cbn. apply Byte.of_to_N. Qed.

(** The value of a byte, and the conversion [byte(z)] that keeps the low
    eight bits. *)
Definition b2z (b : byte) : Z := Z.of_N (Byte.to_N b).
Definition z2b (z : Z) : byte := default "000"%byte (Byte.of_N (Z.to_N (z mod 256))).

Lemma b2z_range b : 0 <= b2z b < 256.
Proof. unfold b2z. pose proof (Byte.to_N_bounded b). lia. Qed.

Lemma z2b_b2z b : z2b (b2z b) = b.
Proof.
  unfold z2b. rewrite Z.mod_small by apply b2z_range.
  unfold b2z. by rewrite N2Z.id, Byte.of_to_N.
Qed.

Lemma b2z_z2b z : b2z (z2b z) = z mod 256.
Proof.
  unfold z2b, b2z. pose proof (Z.mod_pos_bound z 256 ltac:(lia)) as Hr.
  destruct (Byte.of_N (Z.to_N (z mod 256))) as [b|] eqn:E; cbn.
  - apply Byte.to_of_N in E. rewrite E. lia.
  - apply Byte.of_N_None_iff in E. lia.
Qed.

Lemma b2z_inj a b : b2z a = b2z b → a = b.
Proof. intros H. by rewrite <- (z2b_b2z a), H, z2b_b2z. Qed.

Lemma z2b_mod z : z2b (z mod 256) = z2b z.
Proof. apply b2z_inj. rewrite !b2z_z2b. apply Z.mod_mod. lia. Qed.

(** Length of a Go slice or string as the [int] the code computes with. *)
Definition zlen {A} (l : list A) : Z := Z.of_nat (length l).

Lemma zlen_app {A} (l k : list A) : zlen (l ++ k) = zlen l + zlen k.
Proof. unfold zlen. rewrite length_app. lia. Qed.

Lemma zlen_nonneg {A} (l : list A) : 0 <= zlen l.
Proof. unfold zlen. lia. Qed.

Lemma zlen_cons {A} (x : A) l : zlen (x :: l) = 1 + zlen l.
Proof. unfold zlen. cbn [length]. lia. Qed.

(** * Machine integers

    A w-bit unsigned value is a [Z] in [0, 2^w); [wrap] is the conversion
    that keeps the low bits, [swrap] the two's complement reading. *)
Definition wrap (w z : Z) : Z := z mod 2 ^ w.
Definition swrap (w z : Z) : Z := (z + 2 ^ (w - 1)) mod 2 ^ w - 2 ^ (w - 1).
Definition max_int64 : Z := 2 ^ 63 - 1.
Definition min_int64 : Z := - 2 ^ 63.

Lemma wrap_range w z : 0 <= w → 0 <= wrap w z < 2 ^ w.
Proof. intros. apply Z.mod_pos_bound. lia. Qed.

Lemma wrap_small w z : 0 <= z < 2 ^ w → wrap w z = z.
Proof. apply Z.mod_small. Qed.

Lemma swrap_small w z : 0 < w → - 2 ^ (w - 1) <= z < 2 ^ (w - 1) → swrap w z = z.
Proof.
  intros Hw Hz. unfold swrap. rewrite Z.mod_small; [lia|].
  replace w with (Z.succ (w - 1)) at 3 by lia. rewrite Z.pow_succ_r by lia. lia.
Qed.

(** * Errors and outcomes

    A Go [error] value: a package-level sentinel variable, an error built by
    [fmt.Errorf] without [%w], or one that wraps another.  [errors_is] is
    [errors.Is] against a sentinel. *)
Inductive error :=
| ErrVar (name : bytes)
| Errorf (msg : bytes)
| Wrap (msg : bytes) (e : error).

#[export] Instance error_eq_dec : EqDecision error.
Proof. solve_decision. Defined.

Fixpoint errors_is (e : error) (target : bytes) : bool :=
  match e with
  | ErrVar n => bool_decide (n = target)
  | Errorf _ => false
  | Wrap _ e' => errors_is e' target
  end.

Definition io_EOF : error := ErrVar §"io.EOF".
Definition io_ErrUnexpectedEOF : error := ErrVar §"io.ErrUnexpectedEOF".

(** What a call does: it returns a value, returns an error, panics, or the
    model ran out of fuel (never for the fuel the wrappers pass, which is
    proved for each of them). *)
Inductive outcome (A : Type) :=
| Ok (a : A)
| Err (e : error)
| Panic (why : bytes)
| OutOfFuel.
Arguments Ok {A} a.
Arguments Err {A} e.
Arguments Panic {A} why.
Arguments OutOfFuel {A}.

Definition is_ok {A} (o : outcome A) : bool := match o with Ok _ => true | _ => false end.
Definition is_err {A} (o : outcome A) : bool := match o with Err _ => true | _ => false end.

(** * The state-and-outcome monad

    [M S A] is a call that threads a state [S].  The state survives an error
    or a panic: what was written stays written. *)
Definition M (S A : Type) : Type := S → outcome A * S.

Definition ret {S A} (a : A) : M S A := λ s, (Ok a, s).
Definition fail {S A} (e : error) : M S A := λ s, (Err e, s).
Definition panic {S A} (why : bytes) : M S A := λ s, (Panic why, s).
Definition nofuel {S A} : M S A := λ s, (OutOfFuel, s).
Definition get {S} : M S S := λ s, (Ok s, s).
Definition put {S} (s : S) : M S unit := λ _, (Ok tt, s).
Definition modify {S} (f : S → S) : M S unit := λ s, (Ok tt, f s).

Definition bind {S A B} (m : M S A) (k : A → M S B) : M S B := λ s,
  match m s with
  | (Ok a, s') => k a s'
  | (Err e, s') => (Err e, s')
  | (Panic w, s') => (Panic w, s')
  | (OutOfFuel, s') => (OutOfFuel, s')
  end.

(** [try m] is [v, err := m()]: the error becomes a value; a panic does not. *)
Definition try {S A} (m : M S A) : M S (A + error) := λ s,
  match m s with
  | (Ok a, s') => (Ok (inl a), s')
  | (Err e, s') => (Ok (inr e), s')
  | (Panic w, s') => (Panic w, s')
  | (OutOfFuel, s') => (OutOfFuel, s')
  end.

(** [wrap_err msg m] is [if err != nil { return fmt.Errorf("msg: %w", err) }]. *)
Definition wrap_err {S A} (msg : bytes) (m : M S A) : M S A := λ s,
  match m s with
  | (Err e, s') => (Err (Wrap msg e), s')
  | r => r
  end.

(** [zoom] runs a call on a component of a larger state. *)
Definition zoom {S T A} (proj : S → T) (upd : T → S → S) (m : M T A) : M S A := λ s,
  let '(o, t) := m (proj s) in (o, upd t s).

Declare Scope monad_scope.
Delimit Scope monad_scope with monad.
Notation "'let!' x ':=' m 'in' k" := (bind m (λ x, k))
  (at level 10, x pattern, m at level 100, k at level 200,
   format "'[v' 'let!'  x  ':='  m  'in' '/' k ']'") : monad_scope.
Notation "'do!' m 'in' k" := (bind m (λ _, k))
  (at level 10, m at level 100, k at level 200,
   format "'[v' 'do!'  m  'in' '/' k ']'") : monad_scope.
#[global] Open Scope monad_scope.

(** [guard! c else e in k] is an early return of an error when [c] fails. *)
Notation "'guard!' c 'else' e 'in' k" := (if c then k else fail e)
  (at level 10, c at level 100, e at level 100, k at level 200,
   format "'[v' 'guard!'  c  'else'  e  'in' '/' k ']'") : monad_scope.

(** Inversion of a successful [bind]. *)
Lemma bind_ok {S A B} (m : M S A) (k : A → M S B) s b s' :
  bind m k s = (Ok b, s') → ∃ a s1, m s = (Ok a, s1) ∧ k a s1 = (Ok b, s').
Proof. unfold bind. destruct (m s) as [[a| | |] s1]; intros; simplify_eq; eauto. Qed.

Lemma wrap_ok {S A} msg (m : M S A) s a s' : wrap_err msg m s = (Ok a, s') → m s = (Ok a, s').
Proof. unfold wrap_err. by destruct (m s) as [[]]. Qed.

(** A run by its outcome: the state need not be computed. *)
Lemma run_ok {S A} (m : M S A) s a : (m s).1 = Ok a → m s = (Ok a, (m s).2).
Proof. destruct (m s). by intros [= ->]. Qed.

(** * Preservation

    [keeps R m]: running [m] from any state leads to a state related by [R],
    whatever the outcome.  With a preorder [R] it composes along [bind], and
    is how invariants on traces and stores are carried through the monad. *)
Definition keeps {S A} (R : S → S → Prop) (m : M S A) : Prop := ∀ s, R s (m s).2.

Section Keeps.
Context {S : Type} (R : S → S → Prop) `{!PreOrder R}.

Lemma keeps_ret {A} (a : A) : keeps R (ret a).
Proof. intros s. cbn. reflexivity. Qed.
Lemma keeps_fail {A} e : keeps R (fail (A:=A) e).
Proof. intros s. cbn. reflexivity. Qed.
Lemma keeps_panic {A} w : keeps R (panic (A:=A) w).
Proof. intros s. cbn. reflexivity. Qed.
Lemma keeps_nofuel {A} : keeps R (nofuel (A:=A)).
Proof. intros s. cbn. reflexivity. Qed.
Lemma keeps_get : keeps R get.
Proof. intros s. cbn. reflexivity. Qed.
Lemma keeps_modify f : (∀ s, R s (f s)) → keeps R (modify f).
Proof. intros H s. apply H. Qed.
Lemma keeps_bind {A B} (m : M S A) (k : A → M S B) :
  keeps R m → (∀ a, keeps R (k a)) → keeps R (bind m k).
Proof.
  intros Hm Hk s. unfold bind. specialize (Hm s).
  destruct (m s) as [[a| | |] s1]; cbn in *; try done.
  etransitivity; [exact Hm|apply Hk].
Qed.
Lemma keeps_try {A} (m : M S A) : keeps R m → keeps R (try m).
Proof. intros Hm s. unfold try. specialize (Hm s). by destruct (m s) as [[]?]. Qed.
Lemma keeps_wrap_err {A} msg (m : M S A) : keeps R m → keeps R (wrap_err msg m).
Proof. intros Hm s. unfold wrap_err. specialize (Hm s). by destruct (m s) as [[]?]. Qed.
Lemma keeps_if {A} (b : bool) (m n : M S A) :
  keeps R m → keeps R n → keeps R (if b then m else n).
Proof. by destruct b. Qed.
End Keeps.

Create HintDb keeps discriminated.
#[export] Hint Resolve keeps_ret keeps_fail keeps_panic keeps_nofuel keeps_get
  keeps_bind keeps_try keeps_wrap_err keeps_if : keeps.

(** * Tactics *)

(** Break a hypothesis about a monadic run into its branches. *)
Ltac mstep H :=
  match type of H with
  | context [match ?x with _ => _ end] => let E := fresh "E" in destruct x eqn:E
  end; simplify_eq/=.
Ltac msimp := unfold bind, ret, fail, panic, nofuel, get, put, modify, try, wrap_err in *.
(** Case on every comparison a Go condition makes. *)
Ltac gobool :=
  repeat match goal with
  | H : _ && _ = true |- _ => apply andb_true_iff in H as [? ?]
  | H : _ || _ = false |- _ => apply orb_false_iff in H as [? ?]
  | H : bool_decide _ = true |- _ => apply bool_decide_eq_true in H
  | H : bool_decide _ = false |- _ => apply bool_decide_eq_false in H
  | H : negb _ = true |- _ => apply negb_true_iff in H
  | H : negb _ = false |- _ => apply negb_false_iff in H
  | H : (_ <? _) = true |- _ => apply Z.ltb_lt in H
  | H : (_ <? _) = false |- _ => apply Z.ltb_ge in H
  | H : (_ <=? _) = true |- _ => apply Z.leb_le in H
  | H : (_ <=? _) = false |- _ => apply Z.leb_gt in H
  | H : (_ =? _) = true |- _ => apply Z.eqb_eq in H
  | H : (_ =? _) = false |- _ => apply Z.eqb_neq in H
  end.

(** * Lists *)

Lemma forallb_mono {A} (P Q : A → bool) t :
  (∀ x, P x = true → Q x = true) → forallb P t = true → forallb Q t = true.
Proof. intros H. rewrite !forallb_forall. auto. Qed.

(** * Environment: allocation

    [make([]T, n)] panics when [n] is negative or the allocation would exceed
    what the runtime can address; [max_alloc] is that bound in bytes (2^48 on
    linux/amd64). *)
Definition max_alloc : Z := 2 ^ 48.
Definition makeslice {S} (elem_size n : Z) : M S unit :=
  if (n <? 0) || (max_alloc <? elem_size * n)
  then panic §"runtime error: makeslice: len out of range"
  else ret tt.
