(* ===== verification/GoStrings.v ===== *)
(** Go's [strings], [bytes] and [strconv] functions, as the source uses them.

    Strings are byte sequences.  [TrimSpace] trims Unicode white space, which
    is the list of UTF-8 sequences below.  Case mapping is exact on ASCII; on
    a string with a non-ASCII byte Go consults the Unicode case tables, which
    are the class [Unicode] here: every theorem holds for every table. *)
From stdpp Require Import sorting.
From S2P Require Import Prelude.

(** * Case mapping *)

Class Unicode := {
  uni_lower : bytes → bytes;
  uni_upper : bytes → bytes;
  uni_fold  : bytes → bytes → bool;
}.

Definition is_ascii (b : byte) : bool := b2z b <? 128.
Definition lower_byte (b : byte) : byte :=
  if (65 <=? b2z b) && (b2z b <=? 90) then z2b (b2z b + 32) else b.
Definition upper_byte (b : byte) : byte :=
  if (97 <=? b2z b) && (b2z b <=? 122) then z2b (b2z b - 32) else b.

Definition ToLower `{Unicode} (s : bytes) : bytes :=
  if forallb is_ascii s then map lower_byte s else uni_lower s.
Definition ToUpper `{Unicode} (s : bytes) : bytes :=
  if forallb is_ascii s then map upper_byte s else uni_upper s.
Definition EqualFold `{Unicode} (s t : bytes) : bool :=
  if forallb is_ascii s && forallb is_ascii t
  then bool_decide (map lower_byte s = map lower_byte t) else uni_fold s t.

(** The tables restricted to ASCII, for evaluation. *)
Definition ascii_tables : Unicode :=
  {| uni_lower := λ s, s; uni_upper := λ s, s; uni_fold := λ s t, bool_decide (s = t) |}.

(** * Prefixes, suffixes, search *)

Fixpoint HasPrefix (s p : bytes) {struct p} : bool :=
  match p, s with
  | [], _ => true
  | _ :: _, [] => false
  | y :: p', x :: s' => bool_decide (x = y) && HasPrefix s' p'
  end.
Definition HasSuffix (s p : bytes) : bool := HasPrefix (rev s) (rev p).
Definition TrimPrefix (s p : bytes) : bytes := if HasPrefix s p then drop (length p) s else s.
Definition TrimSuffix (s p : bytes) : bytes :=
  if HasSuffix s p then take (length s - length p) s else s.

(** [strings.ReplaceAll] of a one-byte text. *)
Definition ReplaceByte (s : bytes) (b : byte) (r : bytes) : bytes :=
  concat (map (λ x, if bool_decide (x = b) then r else [x]) s).

(** [strings.Index]; [None] is Go's -1. *)
Fixpoint Index (s p : bytes) : option nat :=
  if HasPrefix s p then Some 0%nat else
  match s with [] => None | _ :: s' => S <$> Index s' p end.
Definition Contains (s p : bytes) : bool := match Index s p with Some _ => true | None => false end.
Fixpoint IndexByte (s : bytes) (b : byte) : option nat :=
  match s with
  | [] => None
  | x :: s' => if bool_decide (x = b) then Some 0%nat else S <$> IndexByte s' b
  end.
(** [strings.ReplaceAll(s, string(b), "")]. *)
Definition RemoveByte (b : byte) (s : bytes) : bytes := filter (λ x, x ≠ b) s.
(** [strings.Split(s, string(b))]. *)
Fixpoint SplitByte (s : bytes) (b : byte) : list bytes :=
  match s with
  | [] => [[]]
  | x :: s' =>
      if bool_decide (x = b) then [] :: SplitByte s' b
      else match SplitByte s' b with [] => [[x]] | w :: ws => (x :: w) :: ws end
  end.
(** [strings.TrimRight(s, string(b))]. *)
Fixpoint drop_byte (b : byte) (s : bytes) : bytes :=
  match s with [] => [] | x :: s' => if bool_decide (x = b) then drop_byte b s' else s end.
Definition TrimRightByte (s : bytes) (b : byte) : bytes := rev (drop_byte b (rev s)).

(** * White space *)

Definition space_seqs : list bytes :=
  map (map z2b)
    [[9]; [10]; [11]; [12]; [13]; [32]; [194; 133]; [194; 160]; [225; 154; 128];
     [226; 128; 128]; [226; 128; 129]; [226; 128; 130]; [226; 128; 131]; [226; 128; 132];
     [226; 128; 133]; [226; 128; 134]; [226; 128; 135]; [226; 128; 136]; [226; 128; 137];
     [226; 128; 138]; [226; 128; 168]; [226; 128; 169]; [226; 128; 175]; [226; 129; 159];
     [227; 128; 128]].

(** Remove one of [seqs] from the front. *)
Fixpoint strip_one (seqs : list bytes) (s : bytes) : option bytes :=
  match seqs with
  | [] => None
  | p :: ps => if HasPrefix s p then Some (drop (length p) s) else strip_one ps s
  end.
Fixpoint strip_all (fuel : nat) (seqs : list bytes) (s : bytes) : bytes :=
  match fuel with
  | O => s
  | S f => match strip_one seqs s with Some s' => strip_all f seqs s' | None => s end
  end.
Definition trim_left (seqs : list bytes) (s : bytes) : bytes := strip_all (length s) seqs s.
Definition TrimSpace (s : bytes) : bytes :=
  rev (trim_left (map (@rev byte) space_seqs) (rev (trim_left space_seqs s))).

(** * Integers *)

Definition is_digit (b : byte) : bool := (48 <=? b2z b) && (b2z b <=? 57).

Fixpoint parse_digits (acc : Z) (s : bytes) : option Z :=
  match s with
  | [] => Some acc
  | b :: s' => if is_digit b then parse_digits (10 * acc + (b2z b - 48)) s' else None
  end.

(** [strconv.Atoi] / [strconv.ParseInt(s, 10, 64)]: an optional sign, at least
    one digit, and a value in the int64 range. *)
Definition Atoi (s : bytes) : option Z :=
  let '(sgn, ds) := match s with
                    | b :: t => if bool_decide (b = "-"%byte) then (-1, t)
                                else if bool_decide (b = "+"%byte) then (1, t) else (1, s)
                    | [] => (1, s) end in
  match ds with
  | [] => None
  | _ => v ← parse_digits 0 ds;
         let z := sgn * v in
         if (min_int64 <=? z) && (z <=? max_int64) then Some z else None
  end.

Fixpoint itoa_digits (fuel : nat) (n : Z) (acc : bytes) : bytes :=
  match fuel with
  | O => acc
  | S f => let acc' := z2b (48 + n mod 10) :: acc in
           if n <? 10 then acc' else itoa_digits f (n / 10) acc'
  end.
(** [strconv.Itoa] / [%d]; twenty digits hold every 64-bit value. *)
Definition Itoa (z : Z) : bytes :=
  if z <? 0 then "-"%byte :: itoa_digits 20 (- z) [] else itoa_digits 20 z [].
(** * Lemmas *)

Lemma HasPrefix_iff s p : HasPrefix s p = true ↔ ∃ t, s = p ++ t.
Proof.
  revert s; induction p as [|y p IH]; intros s; cbn; [split; [intros _; by exists s|done]|].
  destruct s as [|x s]; cbn; [split; [done|intros [t Ht]; discriminate]|].
  rewrite andb_true_iff, bool_decide_eq_true, IH. split.
  - intros [-> [t ->]]. eauto.
  - intros [t Ht]. simplify_eq. eauto.
Qed.

Lemma HasPrefix_app p t : HasPrefix (p ++ t) p = true.
Proof. apply HasPrefix_iff. eauto. Qed.

Lemma HasPrefix_mono s t p : HasPrefix s p = true → HasPrefix (s ++ t) p = true.
Proof. rewrite !HasPrefix_iff. intros [u ->]. exists (u ++ t). by rewrite app_assoc. Qed.

Lemma HasSuffix_app t p : HasSuffix (t ++ p) p = true.
Proof. unfold HasSuffix. rewrite rev_app_distr. apply HasPrefix_app. Qed.

Lemma TrimPrefix_app p t : TrimPrefix (p ++ t) p = t.
Proof. unfold TrimPrefix. rewrite HasPrefix_app. by rewrite drop_app_length. Qed.

Lemma TrimSuffix_app t p : TrimSuffix (t ++ p) p = t.
Proof.
  unfold TrimSuffix. rewrite HasSuffix_app, length_app.
  replace (length t + length p - length p)%nat with (length t) by lia.
  apply take_app_length.
Qed.

Lemma strip_one_app seqs s t : strip_one seqs (s ++ t) = None → strip_one seqs s = None.
Proof.
  induction seqs as [|p ps IH]; cbn; [done|].
  destruct (HasPrefix s p) eqn:E; [by rewrite (HasPrefix_mono _ _ _ E)|].
  destruct (HasPrefix (s ++ t) p); [done|auto].
Qed.

Definition nonempty_seqs (seqs : list bytes) : bool := forallb (λ p, negb (bool_decide (p = []))) seqs.

Lemma strip_one_shorter seqs s s' :
  nonempty_seqs seqs = true → strip_one seqs s = Some s' →
  ∃ p, s = p ++ s' ∧ (length s' < length s)%nat.
Proof.
  induction seqs as [|p ps IH]; cbn; [done|]. intros Hn H. gobool.
  destruct (HasPrefix s p) eqn:E; [|by apply IH].
  apply HasPrefix_iff in E as [t ->]. rewrite drop_app_length in H. simplify_eq.
  exists p. split; [done|]. rewrite length_app. destruct p; [done|cbn; lia].
Qed.

Lemma strip_all_spec seqs fuel s :
  nonempty_seqs seqs = true → (length s <= fuel)%nat →
  strip_one seqs (strip_all fuel seqs s) = None ∧ ∃ p, s = p ++ strip_all fuel seqs s.
Proof.
  intros Hn. revert s. induction fuel as [|f IH]; intros s Hl; cbn.
  - destruct s; [|cbn in Hl; lia]. split; [|by exists []].
    destruct (strip_one seqs []) eqn:E; [|done].
    apply strip_one_shorter in E as (p & _ & Hlt); [cbn in Hlt; lia|done].
  - destruct (strip_one seqs s) as [s'|] eqn:E; [|split; [done|by exists []]].
    apply strip_one_shorter in E as (p & -> & Hlt); [|done].
    destruct (IH s') as [H1 [q Hq]]; [lia|]. split; [done|].
    exists (p ++ q). by rewrite <- app_assoc, <- Hq.
Qed.

Lemma trim_left_spec seqs s :
  nonempty_seqs seqs = true →
  strip_one seqs (trim_left seqs s) = None ∧ ∃ p, s = p ++ trim_left seqs s.
Proof. intros. by apply strip_all_spec. Qed.

Lemma trim_left_id seqs s : strip_one seqs s = None → trim_left seqs s = s.
Proof. unfold trim_left. destruct s; cbn; [done|]. by intros ->. Qed.

Lemma trim_left_nil seqs : trim_left seqs [] = [].
Proof. done. Qed.

Lemma TrimSpace_idem s : TrimSpace (TrimSpace s) = TrimSpace s.
Proof.
  unfold TrimSpace. set (rs := map (@rev byte) space_seqs).
  destruct (trim_left_spec space_seqs s eq_refl) as [Hl _].
  set (u := trim_left space_seqs s) in *.
  destruct (trim_left_spec rs (rev u) eq_refl) as [Hr [q Hq]].
  set (v := trim_left rs (rev u)) in *.
  assert (Hu : u = rev v ++ rev q) by (rewrite <- rev_app_distr, <- Hq; by rewrite rev_involutive).
  rewrite (trim_left_id space_seqs (rev v)); [|rewrite Hu in Hl; by eapply strip_one_app].
  by rewrite rev_involutive, trim_left_id.
Qed.

(** A text of bytes that no white space sequence starts or ends with. *)
Definition plain_byte (b : byte) : bool :=
  forallb (λ p, bool_decide (head p ≠ Some b)) (space_seqs ++ map (@rev byte) space_seqs).

Lemma strip_one_plain seqs b t :
  forallb (λ p, bool_decide (head p ≠ Some b)) seqs = true → nonempty_seqs seqs = true →
  strip_one seqs (b :: t) = None.
Proof.
  induction seqs as [|[|x p] seqs IH]; cbn; [done|done|]. intros Hp Hn. gobool.
  rewrite bool_decide_false by congruence. cbn. auto.
Qed.
Lemma TrimSpace_plain s : forallb plain_byte s = true → TrimSpace s = s.
Proof.
  intros Hs. assert (Ht : ∀ seqs s, (∀ p, p ∈ seqs → p ∈ space_seqs ++ map (@rev byte) space_seqs) →
      nonempty_seqs seqs = true → forallb plain_byte s = true → trim_left seqs s = s).
  { intros seqs [|b t] Hin Hne Hp; [apply trim_left_nil|]. apply trim_left_id, strip_one_plain; [|done].
    cbn [forallb] in Hp. apply andb_true_iff in Hp as [Hb _]. unfold plain_byte in Hb.
    apply forallb_forall. intros p Hpi. apply (proj1 (forallb_forall _ _) Hb).
    apply list_elem_of_In, Hin, list_elem_of_In, Hpi. }
  unfold TrimSpace. rewrite !Ht; try done; try apply rev_involutive.
  - intros p Hp. by apply elem_of_app; left.
  - intros p Hp. by apply elem_of_app; right.
  - rewrite Ht; try done; [|intros p Hp; by apply elem_of_app; left].
    rewrite forallb_forall in *. intros x Hx. apply Hs. by apply in_rev.
Qed.

Lemma TrimSpace_infix s : ∃ p q, s = p ++ TrimSpace s ++ q.
Proof.
  unfold TrimSpace. set (rs := map (@rev byte) space_seqs).
  destruct (trim_left_spec space_seqs s eq_refl) as [_ [p Hp]].
  set (u := trim_left space_seqs s) in *.
  destruct (trim_left_spec rs (rev u) eq_refl) as [_ [q Hq]].
  exists p, (rev q). rewrite <- rev_app_distr, <- Hq, rev_involutive. done.
Qed.

Lemma TrimSpace_length s : (length (TrimSpace s) <= length s)%nat.
Proof.
  destruct (TrimSpace_infix s) as (p & q & H).
  apply (f_equal length) in H. rewrite !length_app in H. lia.
Qed.

Lemma Index_Some s p n :
  Index s p = Some n → ∃ t, s = take n s ++ p ++ t ∧ (n + length p <= length s)%nat.
Proof.
  revert n; induction s as [|x s IH]; intros n; cbn [Index].
  - destruct (HasPrefix [] p) eqn:E; [|done].
    apply HasPrefix_iff in E as [t Ht]. intros; simplify_eq. exists t.
    split; [done|]. apply (f_equal length) in Ht. rewrite length_app in Ht. cbn in *. lia.
  - destruct (HasPrefix (x :: s) p) eqn:E.
    + apply HasPrefix_iff in E as [t Ht]. intros; simplify_eq. exists t.
      split; [done|]. apply (f_equal length) in Ht. rewrite length_app in Ht. cbn in *. lia.
    + destruct (Index s p) as [k|] eqn:Ek; [|done]. intros; simplify_eq/=.
      destruct (IH k eq_refl) as (t & Ht & Hl). exists t. split; [by f_equal|lia].
Qed.

Lemma IndexByte_Some s b n :
  IndexByte s b = Some n → s = take n s ++ b :: drop (S n) s ∧ (n < length s)%nat ∧ b ∉ take n s.
Proof.
  revert n; induction s as [|x s IH]; intros n; cbn; [done|].
  case_bool_decide; intros; simplify_eq/=.
  - split_and!; [done|lia|apply not_elem_of_nil].
  - destruct (IndexByte s b) as [k|] eqn:Ek; [|done]. simplify_eq/=.
    destruct (IH k eq_refl) as (Ht & Hl & Hn).
    split_and!; [by f_equal|lia|apply not_elem_of_cons; split; congruence].
Qed.

Lemma IndexByte_app_notin s b t : b ∉ s → IndexByte (s ++ b :: t) b = Some (length s).
Proof.
  induction s as [|x s IH]; cbn; intros Hn; [by rewrite bool_decide_true|].
  rewrite bool_decide_false by set_solver. rewrite IH by set_solver. done.
Qed.

Lemma IndexByte_None s b : IndexByte s b = None ↔ b ∉ s.
Proof.
  induction s as [|x s IH]; cbn [IndexByte].
  - split; [intros _; apply not_elem_of_nil|done].
  - rewrite not_elem_of_cons. case_bool_decide; subst; [split; [done|naive_solver]|].
    destruct (IndexByte s b); cbn; split; try done; intros Hn.
    + destruct Hn as [_ Hn]. by apply IH in Hn.
    + split; [congruence|]. by apply IH.
Qed.

Lemma SplitByte_notin s b : b ∉ s → SplitByte s b = [s].
Proof.
  induction s as [|x s IH]; cbn; [done|]. intros Hn.
  rewrite bool_decide_false by set_solver. rewrite IH by set_solver. done.
Qed.

Lemma SplitByte_app s t b : b ∉ s → b ∉ t → SplitByte (s ++ b :: t) b = [s; t].
Proof.
  induction s as [|x s IH]; cbn; intros Hs Ht.
  - rewrite bool_decide_true by done. by rewrite SplitByte_notin.
  - rewrite bool_decide_false by set_solver. by rewrite IH by set_solver.
Qed.

(** * Decimal round trip *)

Lemma digit_byte n : 0 <= n < 10 → is_digit (z2b (48 + n)) = true ∧ b2z (z2b (48 + n)) - 48 = n.
Proof.
  intros H. unfold is_digit. rewrite b2z_z2b, Z.mod_small by lia. split; [|lia].
  apply andb_true_iff. split; apply Z.leb_le; lia.
Qed.

Lemma parse_itoa_digits fuel n acc a :
  0 <= n < 10 ^ Z.of_nat fuel → (0 < fuel)%nat →
  ∃ k, 0 <= k ∧ parse_digits a (itoa_digits fuel n acc) = parse_digits (a * 10 ^ k + n) acc.
Proof.
  revert n acc. induction fuel as [|f IH]; intros n acc Hn Hf; [lia|]. cbn [itoa_digits].
  pose proof (Z.mod_pos_bound n 10 ltac:(lia)) as Hm.
  destruct (digit_byte (n mod 10) Hm) as [Hd Hv].
  destruct (n <? 10) eqn:E; gobool.
  - exists 1. split; [lia|]. cbn. rewrite Hd, Hv, Z.mod_small by lia. f_equal. lia.
  - destruct f as [|f']; [cbn in Hn; lia|].
    assert (Hq : 0 <= n / 10 < 10 ^ Z.of_nat (S f')).
    { split; [apply Z.div_pos; lia|]. apply Z.div_lt_upper_bound; [lia|].
      rewrite Nat2Z.inj_succ, Z.pow_succ_r in Hn by lia. lia. }
    destruct (IH (n / 10) (z2b (48 + n mod 10) :: acc) Hq ltac:(lia)) as (k & Hk & ->).
    exists (k + 1). split; [lia|]. cbn [parse_digits]. rewrite Hd, Hv. f_equal.
    rewrite Z.pow_add_r by lia. pose proof (Z.div_mod n 10 ltac:(lia)). lia.
Qed.

Lemma itoa_digits_first fuel n acc :
  (0 < fuel)%nat → 0 <= n → ∃ b t, itoa_digits fuel n acc = b :: t ∧ is_digit b = true.
Proof.
  revert n acc. induction fuel as [|f IH]; intros n acc Hf Hn; [lia|]. cbn [itoa_digits].
  destruct (n <? 10) eqn:E; gobool.
  - eexists _, _. split; [done|]. apply digit_byte. rewrite Z.mod_small; lia.
  - destruct f as [|f']; [|apply IH; [lia|apply Z.div_pos; lia]].
    eexists _, _. split; [done|]. apply digit_byte, Z.mod_pos_bound. lia.
Qed.

Lemma parse_itoa n : 0 <= n < 10 ^ 20 → parse_digits 0 (itoa_digits 20 n []) = Some n.
Proof.
  intros Hn. destruct (parse_itoa_digits 20 n [] 0) as (k & _ & ->); [done|lia|]. done.
Qed.

Lemma Atoi_Itoa z : min_int64 <= z <= max_int64 → Atoi (Itoa z) = Some z.
Proof.
  intros Hz. unfold Itoa, Atoi. destruct (z <? 0) eqn:E; gobool; unfold min_int64, max_int64 in *.
  - rewrite bool_decide_true by done.
    destruct (itoa_digits_first 20 (- z) []) as (b & t & Hb & _); [lia|lia|].
    pose proof (parse_itoa (- z) ltac:(lia)) as Hp. rewrite Hb in *. rewrite Hp. cbn.
    replace (-1 * - z) with z by lia.
    rewrite !(proj2 (Z.leb_le _ _)) by lia. done.
  - destruct (itoa_digits_first 20 z []) as (b & t & Hb & Hd); [lia|lia|].
    pose proof (parse_itoa z ltac:(lia)) as Hp. rewrite Hb in *.
    rewrite !bool_decide_false by (intros ->; discriminate Hd). rewrite Hp. cbn.
    rewrite !(proj2 (Z.leb_le _ _)) by lia. f_equal. lia.
Qed.

Lemma itoa_digits_all fuel n acc :
  0 <= n → forallb is_digit acc = true → forallb is_digit (itoa_digits fuel n acc) = true.
Proof.
  revert n acc. induction fuel as [|f IH]; intros n acc Hn Ha; [done|]. cbn [itoa_digits].
  assert (Hd : is_digit (z2b (48 + n mod 10)) = true)
    by (apply digit_byte, Z.mod_pos_bound; lia).
  destruct (n <? 10); [cbn; by rewrite Hd|]. apply IH; [apply Z.div_pos; lia|cbn; by rewrite Hd].
Qed.

(** A number's decimal text has none of the framing bytes of a protocol. *)
Lemma Itoa_notin z b : 0 <= z → is_digit b = false → b ∉ Itoa z.
Proof.
  intros Hz Hb. unfold Itoa. rewrite (proj2 (Z.ltb_ge _ _)) by lia. intros Hin.
  pose proof (itoa_digits_all 20 z [] Hz eq_refl) as H. rewrite forallb_forall in H.
  apply list_elem_of_In, H in Hin. congruence.
Qed.

(** The order of Go strings, and [sort.Strings]. *)
Fixpoint bytes_le (a b : bytes) : bool :=
  match a, b with
  | [], _ => true
  | _ :: _, [] => false
  | x :: a', y :: b' => (b2z x <? b2z y) || ((b2z x =? b2z y) && bytes_le a' b')
  end.
Definition sort_strings (l : list bytes) : list bytes := merge_sort (λ a b, Is_true (bytes_le a b)) l.
Lemma sort_strings_perm l : sort_strings l ≡ₚ l.
Proof. apply merge_sort_Permutation. Qed.
