(* ===== verification/GoBinary.v ===== *)
(** Go's encoding/binary, as the wire formats use it: integers in either byte
    order, and reads and writes within a slice. *)
From S2P Require Import Prelude.

(** * Definitions *)

(** Big-endian bytes of a word, and back. *)
Definition be_bytes (n : nat) (z : Z) : bytes :=
  map (λ i, z2b (Z.shiftr z (8 * Z.of_nat i))) (rev (seq 0 n)).
Definition be_value (l : bytes) : Z := fold_left (λ a b, 256 * a + b2z b) l 0.

(** The [n] little-endian bytes of [z] ([binary.Write]), and back
    ([binary.LittleEndian]). *)
Fixpoint le_bytes (n : nat) (z : Z) : bytes :=
  match n with O => [] | S k => z2b z :: le_bytes k (Z.shiftr z 8) end.
Fixpoint le_value (l : bytes) : Z :=
  match l with [] => 0 | b :: t => b2z b + 256 * le_value t end.

(** [payload[i]] and [payload[i:j]] within bounds. *)
Definition at_byte (l : bytes) (i : nat) : Z := b2z (nth i l "000"%byte).
Definition slice (l : bytes) (i j : nat) : bytes := take (j - i) (drop i l).

(** [copy(out[off:], raw)] within bounds: the bytes from [off] on replaced. *)
Definition splice (l : bytes) (off : nat) (raw : bytes) : bytes :=
  take off l ++ raw ++ drop (off + length raw) l.

(** * Lemmas *)

Lemma length_be_bytes n z : length (be_bytes n z) = n.
Proof. unfold be_bytes. by rewrite length_map, length_rev, length_seq. Qed.

Lemma be_value_bytes z : be_value (be_bytes 4 z) = z mod 2 ^ 32.
Proof.
  unfold be_bytes, be_value. cbn [seq rev app map fold_left]. rewrite !b2z_z2b, !Z.shiftr_div_pow2 by lia.
  change (8 * Z.of_nat 3) with 24. change (8 * Z.of_nat 2) with 16. change (8 * Z.of_nat 1) with 8.
  change (8 * Z.of_nat 0) with 0. rewrite Z.pow_0_r, Z.div_1_r.
  change (2 ^ 24) with 16777216. change (2 ^ 16) with 65536. change (2 ^ 8) with 256.
  change (2 ^ 32) with 4294967296. Z.div_mod_to_equations. lia.
Qed.

Lemma be_bytes_value l : length l = 4%nat → be_bytes 4 (be_value l) = l.
Proof.
  destruct l as [|a [|b [|c [|d [|]]]]]; try discriminate. intros _.
  unfold be_bytes, be_value. cbn [seq rev app map fold_left].
  pose proof (b2z_range a). pose proof (b2z_range b). pose proof (b2z_range c). pose proof (b2z_range d).
  rewrite !Z.shiftr_div_pow2 by lia.
  change (8 * Z.of_nat 3) with 24. change (8 * Z.of_nat 2) with 16. change (8 * Z.of_nat 1) with 8.
  change (8 * Z.of_nat 0) with 0. rewrite Z.pow_0_r, Z.div_1_r.
  change (2 ^ 24) with 16777216. change (2 ^ 16) with 65536. change (2 ^ 8) with 256.
  repeat f_equal; apply b2z_inj; rewrite b2z_z2b; Z.div_mod_to_equations; lia.
Qed.

Lemma be_value_range l : length l = 4%nat → 0 <= be_value l < 2 ^ 32.
Proof. intros H. rewrite <- (be_bytes_value l H), be_value_bytes. apply Z.mod_pos_bound. lia. Qed.

Lemma at_byte_range l i : 0 <= at_byte l i < 256.
Proof. apply b2z_range. Qed.

Lemma length_le_bytes n z : length (le_bytes n z) = n.
Proof. revert z. induction n; intros; cbn; auto. Qed.

Lemma le_value_bytes n z : 0 <= z < 256 ^ Z.of_nat n → le_value (le_bytes n z) = z.
Proof.
  revert z. induction n as [|n IH]; intros z Hz; [cbn in *; lia|].
  cbn [le_bytes le_value]. rewrite Nat2Z.inj_succ, Z.pow_succ_r in Hz by lia.
  rewrite b2z_z2b, Z.shiftr_div_pow2 by lia. change (2 ^ 8) with 256. rewrite IH.
  - pose proof (Z.div_mod z 256 ltac:(lia)). lia.
  - split; [apply Z.div_pos; lia|apply Z.div_lt_upper_bound; lia].
Qed.

Lemma slice_app l m t i j :
  i = length l → j = (length l + length m)%nat → slice (l ++ m ++ t) i j = m.
Proof.
  intros -> ->. unfold slice. rewrite drop_app_length.
  replace (length l + length m - length l)%nat with (length m) by lia. apply take_app_length.
Qed.

(** ** Slices and splices *)

Lemma slice_lookup l i j k : (i + k < j)%nat → slice l i j !! k = l !! (i + k)%nat.
Proof. intros H. unfold slice. by rewrite lookup_take_lt, lookup_drop by lia. Qed.
Lemma slice_ext l l' i j :
  (∀ k, (i <= k < j)%nat → l' !! k = l !! k) → slice l' i j = slice l i j.
Proof.
  intros H. apply list_eq. intros k. destruct (decide (i + k < j)%nat).
  - rewrite !slice_lookup by done. apply H. lia.
  - unfold slice. by rewrite !lookup_take_ge by lia.
Qed.
Lemma length_slice l i j : (j <= length l)%nat → length (slice l i j) = (j - i)%nat.
Proof. intros H. unfold slice. rewrite length_take, length_drop. lia. Qed.
Lemma slice_split l i j k : (i <= j <= k)%nat → slice l i k = slice l i j ++ slice l j k.
Proof.
  intros H. unfold slice. replace (drop j l) with (drop (j - i) (drop i l)) by (rewrite drop_drop; f_equal; lia).
  replace (k - i)%nat with ((j - i) + (k - j))%nat by lia. symmetry. apply take_take_drop.
Qed.

Lemma length_splice l off raw :
  (off + length raw <= length l)%nat → length (splice l off raw) = length l.
Proof. intros H. unfold splice. rewrite !length_app, length_take, length_drop. lia. Qed.
Lemma splice_outside l off raw k :
  (off + length raw <= length l)%nat → (k < off ∨ off + length raw <= k)%nat →
  splice l off raw !! k = l !! k.
Proof.
  intros H Hk. unfold splice. destruct (decide (k < off)%nat).
  - rewrite lookup_app_l by (rewrite length_take; lia). by rewrite lookup_take_lt.
  - rewrite lookup_app_r by (rewrite length_take; lia). rewrite length_take, Nat.min_l by lia.
    rewrite lookup_app_r by lia. rewrite lookup_drop. f_equal. lia.
Qed.
Lemma splice_inside l off raw :
  (off + length raw <= length l)%nat → slice (splice l off raw) off (off + length raw) = raw.
Proof.
  intros H. unfold splice. apply slice_app; rewrite length_take; lia.
Qed.
Lemma at_byte_splice l off x : (off < length l)%nat → at_byte (splice l off [x]) off = b2z x.
Proof.
  intros H. unfold at_byte, splice. rewrite app_nth2 by (rewrite length_take; lia).
  rewrite length_take, Nat.min_l, Nat.sub_diag by lia. done.
Qed.
Lemma le_value_nonneg l : 0 <= le_value l.
Proof. induction l as [|b l IH]; cbn [le_value]; [lia|]. pose proof (b2z_range b). lia. Qed.
