(* ===== verification/GoCrypto.v ===== *)
(** The hash functions of Go's standard library that the source calls:
    crypto/sha1, crypto/md5, crypto/sha256 and crypto/hmac over SHA-256.

    They are the published algorithms on 32-bit words, and evaluate: the
    examples check them against the published test vectors. *)
From S2P Require Import Prelude GoBinary.

Definition w32 (z : Z) : Z := wrap 32 z.
Definition add32 (a b : Z) : Z := w32 (a + b).
Definition not32 (a : Z) : Z := Z.lxor a 4294967295.
Definition rotr (a n : Z) : Z := Z.lor (Z.shiftr a n) (w32 (Z.shiftl a (32 - n))).
Definition rotl (a n : Z) : Z := rotr a (32 - n).

(** Merkle-Damgard padding to a multiple of 64 bytes, then the words of each
    block. *)
Definition pad (msg : bytes) : bytes :=
  let n := length msg in
  msg ++ "128"%byte :: repeat "000"%byte ((119 - n mod 64) mod 64) ++ be_bytes 8 (8 * Z.of_nat n).

Fixpoint chunks {A} (fuel size : nat) (l : list A) : list (list A) :=
  match fuel with
  | O => []
  | S f => match l with [] => [] | _ => take size l :: chunks f size (drop size l) end
  end.
Definition block_words (b : bytes) : list Z := map be_value (chunks 16 4 b).
Definition blocks (msg : bytes) : list (list Z) :=
  let p := pad msg in map block_words (chunks (length p) 64 p).

(** * SHA-1 *)

Fixpoint sha1_schedule (fuel : nat) (w : list Z) : list Z :=
  match fuel with
  | O => w
  | S f =>
      let at_ k := nth (length w - k) w 0 in
      sha1_schedule f (w ++ [rotl (Z.lxor (Z.lxor (at_ 3%nat) (at_ 8%nat))
                                          (Z.lxor (at_ 14%nat) (at_ 16%nat))) 1])
  end.
Definition sha1_round (st : Z * Z * Z * Z * Z) (tw : nat * Z) : Z * Z * Z * Z * Z :=
  let '(a, b, c, d, e) := st in
  let '(t, w) := tw in
  let '(f, k) :=
    if (t <? 20)%nat then (Z.lor (Z.land b c) (Z.land (not32 b) d), 1518500249)
    else if (t <? 40)%nat then (Z.lxor (Z.lxor b c) d, 1859775393)
    else if (t <? 60)%nat then (Z.lor (Z.lor (Z.land b c) (Z.land b d)) (Z.land c d), 2400959708)
    else (Z.lxor (Z.lxor b c) d, 3395469782) in
  (w32 (rotl a 5 + f + e + k + w), a, rotl b 30, c, d).
Definition sha1_block (h : Z * Z * Z * Z * Z) (block : list Z) : Z * Z * Z * Z * Z :=
  let '(h0, h1, h2, h3, h4) := h in
  let '(a, b, c, d, e) := fold_left sha1_round (zip (seq 0 80) (sha1_schedule 64 block)) h in
  (add32 h0 a, add32 h1 b, add32 h2 c, add32 h3 d, add32 h4 e).
Definition sha1 (msg : bytes) : bytes :=
  let '(a, b, c, d, e) := fold_left sha1_block (blocks msg)
    (1732584193, 4023233417, 2562383102, 271733878, 3285377520) in
  concat (map (be_bytes 4) [a; b; c; d; e]).

(** * MD5 *)

Definition md5_k : list Z :=
  [3614090360; 3905402710; 606105819; 3250441966; 4118548399; 1200080426;
   2821735955; 4249261313; 1770035416; 2336552879; 4294925233; 2304563134;
   1804603682; 4254626195; 2792965006; 1236535329; 4129170786; 3225465664;
   643717713; 3921069994; 3593408605; 38016083; 3634488961; 3889429448; 568446438;
   3275163606; 4107603335; 1163531501; 2850285829; 4243563512; 1735328473;
   2368359562; 4294588738; 2272392833; 1839030562; 4259657740; 2763975236;
   1272893353; 4139469664; 3200236656; 681279174; 3936430074; 3572445317; 76029189;
   3654602809; 3873151461; 530742520; 3299628645; 4096336452; 1126891415;
   2878612391; 4237533241; 1700485571; 2399980690; 4293915773; 2240044497;
   1873313359; 4264355552; 2734768916; 1309151649; 4149444226; 3174756917;
   718787259; 3951481745].
Definition md5_shifts : list Z :=
  [7; 12; 17; 22; 7; 12; 17; 22; 7; 12; 17; 22; 7; 12; 17; 22; 5; 9; 14; 20; 5; 9;
   14; 20; 5; 9; 14; 20; 5; 9; 14; 20; 4; 11; 16; 23; 4; 11; 16; 23; 4; 11; 16; 23;
   4; 11; 16; 23; 6; 10; 15; 21; 6; 10; 15; 21; 6; 10; 15; 21; 6; 10; 15; 21].

(** Padding and words are little-endian here. *)
Definition md5_pad (msg : bytes) : bytes :=
  let n := length msg in
  msg ++ "128"%byte :: repeat "000"%byte ((119 - n mod 64) mod 64)
  ++ rev (be_bytes 8 (8 * Z.of_nat n)).
Definition md5_words (b : bytes) : list Z := map (λ c, be_value (rev c)) (chunks 16 4 b).
Definition md5_round (x : list Z) (st : Z * Z * Z * Z) (t : nat * (Z * Z)) : Z * Z * Z * Z :=
  let '(a, b, c, d) := st in
  let '(i, (k, s)) := t in
  let '(f, g) :=
    if (i <? 16)%nat then (Z.lor (Z.land b c) (Z.land (not32 b) d), i)
    else if (i <? 32)%nat then (Z.lor (Z.land d b) (Z.land (not32 d) c), ((5 * i + 1) mod 16)%nat)
    else if (i <? 48)%nat then (Z.lxor (Z.lxor b c) d, ((3 * i + 5) mod 16)%nat)
    else (Z.lxor c (Z.lor b (not32 d)), ((7 * i) mod 16)%nat) in
  (d, add32 b (rotl (w32 (a + f + k + nth g x 0)) s), b, c).
Definition md5_block (h : Z * Z * Z * Z) (x : list Z) : Z * Z * Z * Z :=
  let '(h0, h1, h2, h3) := h in
  let '(a, b, c, d) := fold_left (md5_round x) (zip (seq 0 64) (zip md5_k md5_shifts)) h in
  (add32 h0 a, add32 h1 b, add32 h2 c, add32 h3 d).
Definition md5 (msg : bytes) : bytes :=
  let p := md5_pad msg in
  let '(a, b, c, d) := fold_left md5_block (map md5_words (chunks (length p) 64 p))
    (1732584193, 4023233417, 2562383102, 271733878) in
  concat (map (λ w, rev (be_bytes 4 w)) [a; b; c; d]).

(** * SHA-256 *)

Definition sha256_k : list Z :=
  [1116352408; 1899447441; 3049323471; 3921009573; 961987163; 1508970993;
   2453635748; 2870763221; 3624381080; 310598401; 607225278; 1426881987;
   1925078388; 2162078206; 2614888103; 3248222580; 3835390401; 4022224774;
   264347078; 604807628; 770255983; 1249150122; 1555081692; 1996064986;
   2554220882; 2821834349; 2952996808; 3210313671; 3336571891; 3584528711;
   113926993; 338241895; 666307205; 773529912; 1294757372; 1396182291;
   1695183700; 1986661051; 2177026350; 2456956037; 2730485921; 2820302411;
   3259730800; 3345764771; 3516065817; 3600352804; 4094571909; 275423344;
   430227734; 506948616; 659060556; 883997877; 958139571; 1322822218;
   1537002063; 1747873779; 1955562222; 2024104815; 2227730452; 2361852424;
   2428436474; 2756734187; 3204031479; 3329325298].
Definition sha256_h0 : list Z :=
  [1779033703; 3144134277; 1013904242; 2773480762; 1359893119; 2600822924;
   528734635; 1541459225].

Fixpoint sha256_schedule (fuel : nat) (w : list Z) : list Z :=
  match fuel with
  | O => w
  | S f =>
      let at_ k := nth (length w - k) w 0 in
      let x := at_ 15%nat in
      let y := at_ 2%nat in
      let s0 := Z.lxor (Z.lxor (rotr x 7) (rotr x 18)) (Z.shiftr x 3) in
      let s1 := Z.lxor (Z.lxor (rotr y 17) (rotr y 19)) (Z.shiftr y 10) in
      sha256_schedule f (w ++ [w32 (at_ 16%nat + s0 + at_ 7%nat + s1)])
  end.
Definition sha256_round (st : list Z) (kw : Z * Z) : list Z :=
  match st with
  | [a; b; c; d; e; f; g; h] =>
      let s1 := Z.lxor (Z.lxor (rotr e 6) (rotr e 11)) (rotr e 25) in
      let ch := Z.lxor (Z.land e f) (Z.land (not32 e) g) in
      let t1 := h + s1 + ch + fst kw + snd kw in
      let s0 := Z.lxor (Z.lxor (rotr a 2) (rotr a 13)) (rotr a 22) in
      let maj := Z.lxor (Z.lxor (Z.land a b) (Z.land a c)) (Z.land b c) in
      [w32 (t1 + s0 + maj); a; b; c; w32 (d + t1); e; f; g]
  | _ => st
  end.
Definition sha256_block (h : list Z) (block : list Z) : list Z :=
  zip_with add32 h (fold_left sha256_round (zip sha256_k (sha256_schedule 48 block)) h).
Definition sha256 (msg : bytes) : bytes :=
  concat (map (be_bytes 4) (fold_left sha256_block (blocks msg) sha256_h0)).

(** * HMAC-SHA256 *)

Definition xor_with (k : Z) (l : bytes) : bytes := map (λ b, z2b (Z.lxor (b2z b) k)) l.
Definition hmac_key (key : bytes) : bytes :=
  let k := if (64 <? length key)%nat then sha256 key else key in
  k ++ repeat "000"%byte (64 - length k).
Definition hmac_sha256 (key msg : bytes) : bytes :=
  let k := hmac_key key in
  sha256 (xor_with 92 k ++ sha256 (xor_with 54 k ++ msg)).

(** Hexadecimal text, for the test vectors. *)
Definition hex_digit (n : Z) : byte := z2b (if n <? 10 then 48 + n else 87 + n).
Definition hex (l : bytes) : bytes :=
  concat (map (λ b, [hex_digit (b2z b / 16); hex_digit (b2z b mod 16)]) l).

Example sha1_abc : hex (sha1 §"abc") = §"a9993e364706816aba3e25717850c26c9cd0d89d".
Proof. vm_compute. reflexivity. Qed.
Example md5_abc : hex (md5 §"abc") = §"900150983cd24fb0d6963f7d28e17f72".
Proof. vm_compute. reflexivity. Qed.
Example md5_two_blocks :
  hex (md5 §"12345678901234567890123456789012345678901234567890123456789012345678901234567890")
  = §"57edf4a22be3c955ac49da2e2107b67a".
Proof. vm_compute. reflexivity. Qed.
Example sha256_abc :
  hex (sha256 §"abc") = §"ba7816bf8f01cfea414140de5dae2223b00361a396177a9cb410ff61f20015ad".
Proof. vm_compute. reflexivity. Qed.
Example sha256_two_blocks :
  hex (sha256 §"abcdbcdecdefdefgefghfghighijhijkijkljklmklmnlmnomnopnopq")
  = §"248d6a61d20638b8e5c026930c3e6039a33ce45964ff2167f6ecedd419db06c1".
Proof. vm_compute. reflexivity. Qed.
Example hmac_sha256_jefe :
  hex (hmac_sha256 §"Jefe" §"what do ya want for nothing?")
  = §"5bdcc146bf60754e6a042426089575c75a003f089d2739839dec58b964ec3843".
Proof. vm_compute. reflexivity. Qed.

(** * Digest lengths *)

Lemma length_sha1 msg : length (sha1 msg) = 20%nat.
Proof.
  unfold sha1. destruct (fold_left _ _ _) as [[[[a b] c] d] e].
  cbn [map concat]. by rewrite !length_app, !length_be_bytes.
Qed.

Lemma sha256_round_length st kw : length st = 8%nat → length (sha256_round st kw) = 8%nat.
Proof. intros H. do 9 (destruct st as [|? st]; try discriminate H; try reflexivity). Qed.

Lemma fold_left_inv {A B} (P : A → Prop) (f : A → B → A) l a :
  P a → (∀ x y, P x → P (f x y)) → P (fold_left f l a).
Proof. intros Ha Hf. revert a Ha. induction l; cbn; auto. Qed.

Lemma length_sha256 msg : length (sha256 msg) = 32%nat.
Proof.
  unfold sha256. set (h := fold_left _ _ _). assert (Hh : length h = 8%nat).
  { apply (fold_left_inv (λ l, length l = 8%nat)); [done|]. intros x y Hx. unfold sha256_block.
    rewrite length_zip_with, Hx. rewrite (fold_left_inv (λ l, length l = 8%nat)); [done|done|].
    intros. by apply sha256_round_length. }
  clearbody h. do 9 (destruct h as [|? h]; try discriminate Hh).
  cbn [map concat]. by rewrite !length_app, !length_be_bytes.
Qed.
