(* ===== verification/GoAes.v ===== *)
(** crypto/aes and crypto/cipher's GCM, which the credential store seals secrets
    with: the block cipher of FIPS 197 for the three key lengths and
    the authenticated mode of NIST SP 800-38D, with Go's limits on the lengths.

    Both are the published algorithms and evaluate: the examples are the
    published test vectors.  The lemmas say that opening undoes sealing and
    that only a sealed text opens. *)
From S2P Require Import Prelude GoBinary GoCrypto.

(** * AES *)

(** Multiplication by x in GF(2^8), and in general. *)
Definition xtime (a : Z) : Z := let d := 2 * a in if d <? 256 then d else Z.lxor d 283.
Fixpoint gf_mul (n : nat) (a b : Z) : Z :=
  match n with
  | O => 0
  | S m => Z.lxor (if Z.odd b then a else 0) (gf_mul m (xtime a) (Z.div2 b))
  end.
(** The inverse, as the 254th power: [a ^ (2 (2^k - 1))]. *)
Fixpoint gf_power (k : nat) (square acc : Z) : Z :=
  match k with
  | O => acc
  | S m => let s := gf_mul 8 square square in gf_power m s (gf_mul 8 acc s)
  end.
Definition gf_inv (a : Z) : Z := gf_power 7 a 1.
Definition rotl8 (a n : Z) : Z := Z.lor (Z.land (Z.shiftl a n) 255) (Z.shiftr a (8 - n)).
Definition sub_entry (a : Z) : Z :=
  let b := gf_inv a in
  Z.lxor 99 (Z.lxor b (Z.lxor (rotl8 b 1) (Z.lxor (rotl8 b 2) (Z.lxor (rotl8 b 3) (rotl8 b 4))))).
Definition aes_sbox : list Z := Eval vm_compute in map (λ n, sub_entry (Z.of_nat n)) (seq 0 256).
Definition sub_byte (a : Z) : Z := nth (Z.to_nat a) aes_sbox 0.

Definition xor_words (a b : list Z) : list Z := zip_with Z.lxor a b.

(** The key schedule: words of four bytes, [nk] of them the key's. *)
Definition next_word (nk i : nat) (rcon : Z) (w : list (list Z)) : list Z :=
  let prev := nth (i - 1) w [] in
  let t := if (i mod nk =? 0)%nat
           then xor_words (map sub_byte (drop 1 prev ++ take 1 prev)) [rcon; 0; 0; 0]
           else if (6 <? nk)%nat && (i mod nk =? 4)%nat then map sub_byte prev else prev in
  xor_words (nth (i - nk) w []) t.
Fixpoint expand_key (fuel nk i : nat) (rcon : Z) (w : list (list Z)) : list (list Z) :=
  match fuel with
  | O => w
  | S f => expand_key f nk (S i) (if (i mod nk =? 0)%nat then xtime rcon else rcon)
             (w ++ [next_word nk i rcon w])
  end.

(** The round keys, of sixteen bytes each. *)
Definition round_keys (key : bytes) : list (list Z) :=
  let nk := (length key / 4)%nat in
  let w := expand_key (4 * (nk + 7) - nk) nk nk 1 (chunks nk 4 (map b2z key)) in
  map (@concat Z) (chunks (nk + 7) 4 w).

Definition shift_rows (s : list Z) : list Z :=
  map (λ k, nth (k mod 4 + 4 * ((k / 4 + k mod 4) mod 4))%nat s 0) (seq 0 16).
Definition mix_column (c : list Z) : list Z :=
  match c with
  | [a; b; c; d] =>
      let dot w x y z := Z.lxor (Z.lxor (xtime w) (Z.lxor (xtime x) x)) (Z.lxor y z) in
      [dot a b c d; dot b c d a; dot c d a b; dot d a b c]
  | _ => c
  end.
Definition mix_columns (s : list Z) : list Z := concat (map mix_column (chunks 4 4 s)).

(** [Block.Encrypt]: one block under the round keys. *)
Fixpoint aes_rounds (keys : list (list Z)) (s : list Z) : list Z :=
  match keys with
  | [] => s
  | [k] => xor_words (shift_rows (map sub_byte s)) k
  | k :: ks => aes_rounds ks (xor_words (mix_columns (shift_rows (map sub_byte s))) k)
  end.
Definition aes_encrypt (keys : list (list Z)) (block : bytes) : bytes :=
  map z2b match keys with
          | [] => map b2z block
          | k :: ks => aes_rounds ks (xor_words (map b2z block) k)
          end.

(** * GCM *)

(** Multiplication in GF(2^128), whose elements are read with the leftmost bit
    first. *)
Fixpoint gcm_mul (n : nat) (x v acc : Z) : Z :=
  match n with
  | O => acc
  | S m =>
      gcm_mul m x (if Z.odd v then Z.lxor (Z.shiftr v 1) (Z.shiftl 225 120) else Z.shiftr v 1)
        (if Z.testbit x (Z.of_nat m) then Z.lxor acc v else acc)
  end.
Definition padded (l : bytes) : bytes := l ++ repeat "000"%byte ((16 - length l mod 16) mod 16).
Definition ghash (h : Z) (data : bytes) : Z :=
  fold_left (λ y b, gcm_mul 128 (Z.lxor y (be_value b)) h 0) (chunks (length data) 16 data) 0.

Section Gcm.
Context (key nonce : bytes).

Definition gcm_block (counter : Z) : bytes :=
  aes_encrypt (round_keys key) (nonce ++ be_bytes 4 (wrap 32 counter)).
(** The key stream from a counter. *)
Fixpoint key_stream (n : nat) (counter : Z) : bytes :=
  match n with
  | O => []
  | S m => gcm_block counter ++ key_stream m (counter + 1)
  end.
Definition xor_byte (a b : byte) : byte := z2b (Z.lxor (b2z a) (b2z b)).
Definition gcm_crypt (text : bytes) : bytes :=
  zip_with xor_byte text (key_stream (S (length text / 16)) 2).
Definition gcm_tag (text aad : bytes) : bytes :=
  let h := be_value (aes_encrypt (round_keys key) (repeat "000"%byte 16)) in
  let s := ghash h (padded aad ++ padded text ++ be_bytes 8 (8 * zlen aad) ++ be_bytes 8 (8 * zlen text)) in
  zip_with xor_byte (be_bytes 16 s) (gcm_block 1).

(** Go's limit on the text, 2^32 - 2 blocks. *)
Definition gcm_max : Z := (2 ^ 32 - 2) * 16.
Definition gcm_fits (text : bytes) : bool := zlen text <=? gcm_max.

(** [AEAD.Seal(nil, nonce, text, aad)], within the limit. *)
Definition gcm_seal (text aad : bytes) : bytes :=
  let c := gcm_crypt text in c ++ gcm_tag c aad.

(** [AEAD.Open(nil, nonce, sealed, aad)]; [None] is [errOpen]. *)
Definition gcm_open (sealed aad : bytes) : option bytes :=
  let n := (length sealed - 16)%nat in
  let c := take n sealed in
  if (16 <=? length sealed)%nat && gcm_fits c && bool_decide (drop n sealed = gcm_tag c aad)
  then Some (gcm_crypt c) else None.
End Gcm.

(** [aes.NewCipher] takes keys of these lengths only. *)
Definition aes_key_ok (key : bytes) : bool := existsb (Nat.eqb (length key)) [16; 24; 32]%nat.
Definition gcm_nonce_size : nat := 12.

(** * Published vectors *)

Definition unhex (s : bytes) : bytes :=
  let v b := if b2z b <? 58 then b2z b - 48 else b2z b - 87 in
  map (λ p, match p with [a; b] => z2b (16 * v a + v b) | _ => z2b 0 end) (chunks (length s) 2 s).

Example aes_256_vector :
  hex (aes_encrypt (round_keys (unhex §"000102030405060708090a0b0c0d0e0f101112131415161718191a1b1c1d1e1f"))
            (unhex §"00112233445566778899aabbccddeeff")) = §"8ea2b7ca516745bfeafc49904b496089".
Proof. vm_compute. reflexivity. Qed.
Example aes_128_vector :
  hex (aes_encrypt (round_keys (unhex §"000102030405060708090a0b0c0d0e0f"))
            (unhex §"00112233445566778899aabbccddeeff")) = §"69c4e0d86a7b0430d8cdb78070b4c55a".
Proof. vm_compute. reflexivity. Qed.
Example gcm_vector_16 :
  hex (gcm_seal (unhex §"feffe9928665731c6d6a8f9467308308feffe9928665731c6d6a8f9467308308")
            (unhex §"cafebabefacedbaddecaf888")
            (unhex §"d9313225f88406e5a55909c5aff5269a86a7a9531534f7da2e4c303d8a318a721c3c0c95956809532fcf0e2449a6b525b16aedf5aa0de657ba637b39")
            (unhex §"feedfacedeadbeeffeedfacedeadbeefabaddad2"))
  = §"522dc1f099567d07f47f37a32a84427d643a8cdcbfe5c0c97598a2bd2555d1aa8cb08e48590dbb3da7b08b1056828838c5f61e6393ba7a0abcc9f66276fc6ece0f4e1768cddf8853bb2d551b".
Proof. vm_compute. reflexivity. Qed.

(** * Lengths *)

Lemma length_chunk {A} fuel size (l : list A) m c :
  length l = (size * m)%nat → c ∈ chunks fuel size l → length c = size.
Proof.
  revert m l. induction fuel as [|f IH]; intros m l Hl; cbn; [by intros ?%not_elem_of_nil|].
  destruct l as [|x l]; [by intros ?%not_elem_of_nil|]. destruct m as [|m]; [by cbn in Hl; lia|].
  intros [->|Hc]%elem_of_cons; [rewrite length_take; lia|].
  apply (IH m) in Hc; [done|]. rewrite length_drop. lia.
Qed.

Lemma next_word_length nk i rcon w :
  Forall (λ x, length x = 4%nat) w → (0 < nk <= i)%nat → length w = i →
  length (next_word nk i rcon w) = 4%nat.
Proof.
  intros Hw Hi Hl.
  assert (Hn : ∀ k, (k < i)%nat → length (nth k w []) = 4%nat).
  { intros k Hk. rewrite Forall_forall in Hw. apply Hw, list_elem_of_In, nth_In. lia. }
  unfold next_word, xor_words. cbv zeta. rewrite length_zip_with, (Hn (i - nk)%nat) by lia.
  pose proof (Hn (i - 1)%nat ltac:(lia)) as Hp.
  destruct (_ =? _)%nat; [|destruct (_ && _)];
    rewrite ?length_zip_with, ?length_map, ?length_app, ?length_take, ?length_drop, ?Hp; cbn; lia.
Qed.

Lemma expand_key_ok fuel nk i rcon w :
  Forall (λ x, length x = 4%nat) w → (0 < nk <= i)%nat → length w = i →
  Forall (λ x, length x = 4%nat) (expand_key fuel nk i rcon w) ∧
  length (expand_key fuel nk i rcon w) = (i + fuel)%nat.
Proof.
  revert i rcon w. induction fuel as [|f IH]; intros i rcon w Hw Hi Hl; cbn; [by rewrite Nat.add_0_r|].
  destruct (IH (S i) (if (i mod nk =? 0)%nat then xtime rcon else rcon) (w ++ [next_word nk i rcon w])) as [? ->].
  - apply Forall_app; split; [done|]. constructor; [|done]. by apply next_word_length.
  - lia.
  - rewrite length_app. cbn. lia.
  - split; [done|lia].
Qed.

Lemma length_chunks {A} fuel size (l : list A) m :
  (0 < size)%nat → length l = (size * m)%nat → (m <= fuel)%nat → length (chunks fuel size l) = m.
Proof.
  intros Hs. revert m l. induction fuel as [|f IH]; intros m l Hl Hm; cbn; [lia|].
  destruct l as [|x l]; cbn [length] in Hl; [destruct m; [done|lia]|]. destruct m as [|m]; [lia|].
  cbn [length]. rewrite (IH m); [done| |lia]. rewrite length_drop. cbn [length]. lia.
Qed.

Lemma length_concat_all {A} (l : list (list A)) n :
  Forall (λ x, length x = n) l → length (concat l) = (length l * n)%nat.
Proof. induction 1 as [|x l Hx _ IH]; cbn; [done|]. rewrite length_app. lia. Qed.

Lemma chunks_sub {A} fuel size (l : list A) c x : c ∈ chunks fuel size l → x ∈ c → x ∈ l.
Proof.
  revert l. induction fuel as [|f IH]; intros l; cbn; [by intros ?%not_elem_of_nil|].
  destruct l as [|y l]; [by intros ?%not_elem_of_nil|].
  intros [->|Hc]%elem_of_cons Hx; [by eapply subseteq_take|].
  eapply subseteq_drop, IH; done.
Qed.

Lemma round_keys_ok key : aes_key_ok key = true →
  round_keys key ≠ [] ∧ Forall (λ k, length k = 16%nat) (round_keys key).
Proof.
  intros Hk. set (nk := (length key / 4)%nat).
  assert (Hn : length key = (4 * nk)%nat ∧ (4 <= nk)%nat).
  { unfold aes_key_ok in Hk. cbn in Hk. unfold nk.
    repeat match type of Hk with (_ || _ = true) => apply orb_true_iff in Hk as [Hk|Hk] end; try done;
      apply Nat.eqb_eq in Hk; rewrite Hk; cbn; lia. }
  destruct Hn as [Hlen Hge]. unfold round_keys. fold nk. cbv zeta.
  set (w0 := chunks nk 4 (map b2z key)).
  assert (Hw0 : Forall (λ x, length x = 4%nat) w0 ∧ length w0 = nk).
  { split; [apply Forall_forall; intros c Hc; eapply length_chunk; [|exact Hc] | apply length_chunks];
      rewrite ?length_map; try done; lia. }
  destruct Hw0 as [Hw0 Hl0].
  destruct (expand_key_ok (4 * (nk + 7) - nk) nk nk 1 w0 Hw0 ltac:(lia) Hl0) as [Hw Hl].
  set (w := expand_key _ _ _ _ _) in *. replace (nk + _)%nat with (4 * (nk + 7))%nat in Hl by lia.
  split.
  - pose proof (length_chunks (nk + 7) 4 w (nk + 7) ltac:(lia) Hl (Nat.le_refl _)) as Hc.
    destruct (chunks _ _ w); cbn in *; [lia|done].
  - apply Forall_forall. intros k (c & -> & Hc)%list_elem_of_fmap.
    rewrite (length_concat_all _ 4); [by rewrite (length_chunk _ _ _ _ _ Hl Hc)|].
    apply Forall_forall. intros x Hx. rewrite Forall_forall in Hw. by eapply Hw, chunks_sub.
Qed.

Lemma aes_rounds_length keys s :
  Forall (λ k, length k = 16%nat) keys → length s = 16%nat → length (aes_rounds keys s) = 16%nat.
Proof.
  assert (Hr : ∀ t k, length k = 16%nat → length (xor_words (shift_rows t) k) = 16%nat).
  { intros t k Hk. unfold xor_words. rewrite length_zip_with, Hk. reflexivity. }
  assert (Hm : ∀ t, length t = 16%nat → length (mix_columns t) = 16%nat).
  { intros t Ht. do 17 (destruct t as [|? t]; try discriminate Ht). reflexivity. }
  intros Hk. revert s. induction Hk as [|k ks Hk Hks IH]; intros s Hs; [done|].
  destruct ks as [|k' ks]; [by apply Hr|]. apply IH.
  unfold xor_words. by rewrite length_zip_with, Hk, Hm.
Qed.

Lemma aes_encrypt_length key block :
  aes_key_ok key = true → length block = 16%nat → length (aes_encrypt (round_keys key) block) = 16%nat.
Proof.
  intros Hk Hb. destruct (round_keys_ok key Hk) as [Hne Hall]. unfold aes_encrypt.
  destruct (round_keys key) as [|k ks]; [done|]. rewrite length_map. apply Forall_cons in Hall as [H1 H2].
  apply aes_rounds_length; [done|]. unfold xor_words. by rewrite length_zip_with, length_map, Hb, H1.
Qed.

(** * Sealing and opening *)

Lemma xor_byte_twice a b : xor_byte (xor_byte a b) b = a.
Proof.
  assert (Hx : ∀ x y, 0 <= x < 256 → 0 <= y < 256 → 0 <= Z.lxor x y < 256).
  { intros x y Hx Hy. assert (Hp : 0 <= Z.lxor x y) by (apply Z.lxor_nonneg; lia). split; [done|].
    destruct (Z.eq_dec (Z.lxor x y) 0) as [->|]; [lia|].
    apply (Z.log2_lt_pow2 _ 8); [lia|].
    pose proof (Z.log2_lxor x y ltac:(lia) ltac:(lia)).
    pose proof (Z.log2_le_mono x 255 ltac:(lia)). pose proof (Z.log2_le_mono y 255 ltac:(lia)).
    change (Z.log2 255) with 7 in *. lia. }
  unfold xor_byte. rewrite b2z_z2b, Z.mod_small by (apply Hx; apply b2z_range).
  by rewrite Z.lxor_assoc, Z.lxor_nilpotent, Z.lxor_0_r, z2b_b2z.
Qed.

Section GcmLaws.
Context (key nonce : bytes).
Hypothesis Hkey : aes_key_ok key = true.
Hypothesis Hnonce : length nonce = gcm_nonce_size.

Lemma gcm_block_length c : length (gcm_block key nonce c) = 16%nat.
Proof. apply aes_encrypt_length; [done|]. rewrite length_app, length_be_bytes, Hnonce. done. Qed.

Lemma key_stream_length n c : length (key_stream key nonce n c) = (16 * n)%nat.
Proof.
  revert c. induction n as [|n IH]; intros c; cbn [key_stream]; [done|].
  rewrite length_app, gcm_block_length, IH. lia.
Qed.

Lemma gcm_stream_covers (text : bytes) : (length text <= length (key_stream key nonce (S (length text / 16)) 2))%nat.
Proof.
  rewrite key_stream_length. pose proof (Nat.div_mod_eq (length text) 16).
  pose proof (Nat.mod_upper_bound (length text) 16 ltac:(lia)). lia.
Qed.

Lemma gcm_crypt_length text : length (gcm_crypt key nonce text) = length text.
Proof. unfold gcm_crypt. rewrite length_zip_with. pose proof (gcm_stream_covers text). lia. Qed.

(** Encryption is its own inverse. *)
Lemma gcm_crypt_twice text : gcm_crypt key nonce (gcm_crypt key nonce text) = text.
Proof.
  unfold gcm_crypt at 1. rewrite gcm_crypt_length. unfold gcm_crypt.
  pose proof (gcm_stream_covers text) as Hc. revert Hc. generalize (key_stream key nonce (S (length text / 16)) 2).
  induction text as [|x l IH]; intros [|k ks] Hc; cbn in *; try done; [lia|].
  by rewrite xor_byte_twice, IH by lia.
Qed.

Lemma gcm_tag_length text aad : length (gcm_tag key nonce text aad) = 16%nat.
Proof. unfold gcm_tag. cbv zeta. by rewrite length_zip_with, length_be_bytes, gcm_block_length. Qed.

Lemma gcm_seal_length text aad : length (gcm_seal key nonce text aad) = (length text + 16)%nat.
Proof. unfold gcm_seal. cbv zeta. by rewrite length_app, gcm_crypt_length, gcm_tag_length. Qed.

Lemma gcm_fits_crypt text : gcm_fits (gcm_crypt key nonce text) = gcm_fits text.
Proof. unfold gcm_fits, zlen. by rewrite gcm_crypt_length. Qed.

(** Opening accepts the sealed text of a plaintext and nothing else. *)
Lemma gcm_open_iff sealed aad text :
  gcm_open key nonce sealed aad = Some text ↔ gcm_fits text = true ∧ sealed = gcm_seal key nonce text aad.
Proof.
  unfold gcm_open. cbv zeta. split.
  - destruct (_ && _) eqn:E; [|done]. intros [= <-].
    apply andb_true_iff in E as [[E1 E2]%andb_true_iff E3%bool_decide_eq_true].
    rewrite gcm_fits_crypt. split; [done|]. unfold gcm_seal. cbv zeta.
    rewrite gcm_crypt_twice, <- E3. by rewrite take_drop.
  - intros [Hf ->]. rewrite gcm_seal_length. replace (_ + 16 - 16)%nat with (length text) by lia.
    unfold gcm_seal. cbv zeta. rewrite <- (gcm_crypt_length text).
    rewrite take_app_length, drop_app_length, gcm_crypt_length, gcm_fits_crypt, Hf, bool_decide_eq_true_2 by done.
    rewrite gcm_crypt_twice. by destruct (16 <=? _)%nat eqn:E; [|apply Nat.leb_gt in E; lia].
Qed.

Lemma gcm_seal_inj text text' aad : gcm_fits text = true → gcm_fits text' = true →
  gcm_seal key nonce text aad = gcm_seal key nonce text' aad → text = text'.
Proof.
  intros H1 H2 E. pose proof (proj2 (gcm_open_iff _ aad text) (conj H1 eq_refl)) as Ho. rewrite E in Ho.
  pose proof (proj2 (gcm_open_iff _ aad text') (conj H2 eq_refl)). congruence.
Qed.
End GcmLaws.
