(* ===== verification/GoEncoding.v ===== *)
(** Go's text encodings, as the source uses them: unicode/utf8, base64
    (unpadded over the URL alphabet, padded over the standard one), and
    encoding/json for flat objects of strings and integers (the decoder reads
    every JSON text). *)
From S2P Require Import Prelude GoStrings.

(** * UTF-8 *)

Definition in_range (b : byte) (lo hi : Z) : bool := (lo <=? b2z b) && (b2z b <=? hi).
Definition is_cont (b : byte) : bool := in_range b 128 191.

(** The size of the first rune when it is well-formed ([utf8.DecodeRune] other
    than [RuneError, 1]). *)
Definition rune_len (s : bytes) : option nat :=
  match s with
  | [] => None
  | a :: t =>
      if b2z a <? 128 then Some 1%nat
      else if in_range a 194 223 then
        match t with b :: _ => if is_cont b then Some 2%nat else None | _ => None end
      else if in_range a 224 239 then
        match t with
        | b :: c :: _ =>
            let lo := if b2z a =? 224 then 160 else 128 in
            let hi := if b2z a =? 237 then 159 else 191 in
            if in_range b lo hi && is_cont c then Some 3%nat else None
        | _ => None
        end
      else if in_range a 240 244 then
        match t with
        | b :: c :: d :: _ =>
            let lo := if b2z a =? 240 then 144 else 128 in
            let hi := if b2z a =? 244 then 143 else 191 in
            if in_range b lo hi && is_cont c && is_cont d then Some 4%nat else None
        | _ => None
        end
      else None
  end.

Fixpoint valid_runes (fuel : nat) (s : bytes) : bool :=
  match s, fuel with
  | [], _ => true
  | _, O => false
  | _, S f => match rune_len s with Some n => valid_runes f (drop n s) | None => false end
  end.
(** [utf8.Valid]. *)
Definition utf8_valid (s : bytes) : bool := valid_runes (length s) s.

(** [utf8.AppendRune] on a rune that is not a surrogate. *)
Definition utf8_encode (r : Z) : bytes :=
  map z2b
    (if r <? 128 then [r]
     else if r <? 2048 then [192 + r / 64; 128 + r mod 64]
     else if r <? 65536 then [224 + r / 4096; 128 + r / 64 mod 64; 128 + r mod 64]
     else [240 + r / 262144; 128 + r / 4096 mod 64; 128 + r / 64 mod 64; 128 + r mod 64]).
Definition rune_error : bytes := map z2b [239; 191; 189].

(** * Base64, URL alphabet, no padding *)

Definition b64_char (d : Z) : byte :=
  z2b (if d <? 26 then 65 + d else if d <? 52 then 71 + d else if d <? 62 then d - 4
       else if d =? 62 then 45 else 95).
Definition b64_digit (c : byte) : option Z :=
  let z := b2z c in
  if in_range c 65 90 then Some (z - 65)
  else if in_range c 97 122 then Some (z - 71)
  else if in_range c 48 57 then Some (z + 4)
  else if z =? 45 then Some 62
  else if z =? 95 then Some 63
  else None.

(** [base64.RawURLEncoding.EncodeToString]. *)
Fixpoint b64_encode (s : bytes) : bytes :=
  match s with
  | a :: b :: c :: t =>
      let v := 65536 * b2z a + 256 * b2z b + b2z c in
      b64_char (v / 262144) :: b64_char (v / 4096 mod 64) :: b64_char (v / 64 mod 64)
        :: b64_char (v mod 64) :: b64_encode t
  | [a; b] =>
      let v := 256 * b2z a + b2z b in
      [b64_char (v / 1024); b64_char (v / 16 mod 64); b64_char (4 * (v mod 16))]
  | [a] => [b64_char (b2z a / 4); b64_char (16 * (b2z a mod 4))]
  | [] => []
  end.

Fixpoint b64_groups (ds : list Z) : option bytes :=
  match ds with
  | [] => Some []
  | [_] => None
  | [p; q] => Some [z2b ((64 * p + q) / 16)]
  | [p; q; r] => let v := 4096 * p + 64 * q + r in Some [z2b (v / 1024); z2b (v / 4)]
  | p :: q :: r :: s :: t =>
      let v := 262144 * p + 4096 * q + 64 * r + s in
      rest ← b64_groups t;
      Some (z2b (v / 65536) :: z2b (v / 256) :: z2b v :: rest)
  end.
(** [base64.RawURLEncoding.DecodeString]: line breaks are skipped and the
    unused bits of the last character are not looked at. *)
Definition b64_decode (s : bytes) : option bytes :=
  ds ← mapM b64_digit (filter (λ c, c ≠ "010"%byte ∧ c ≠ "013"%byte) s);
  b64_groups ds.

(** * Base64, standard alphabet, padded *)

Definition std_char (d : Z) : byte :=
  if d =? 62 then "+"%byte else if d =? 63 then "/"%byte else b64_char d.
Definition std_digit (c : byte) : option Z :=
  if b2z c =? 43 then Some 62 else if b2z c =? 47 then Some 63
  else if (b2z c =? 45) || (b2z c =? 95) then None else b64_digit c.

(** [base64.StdEncoding.EncodeToString]. *)
Fixpoint std_encode (s : bytes) : bytes :=
  match s with
  | a :: b :: c :: t =>
      let v := 65536 * b2z a + 256 * b2z b + b2z c in
      std_char (v / 262144) :: std_char (v / 4096 mod 64) :: std_char (v / 64 mod 64)
        :: std_char (v mod 64) :: std_encode t
  | [a; b] =>
      let v := 256 * b2z a + b2z b in
      [std_char (v / 1024); std_char (v / 16 mod 64); std_char (4 * (v mod 16)); "="%byte]
  | [a] => [std_char (b2z a / 4); std_char (16 * (b2z a mod 4)); "="%byte; "="%byte]
  | [] => []
  end.

Fixpoint std_groups (s : bytes) : option bytes :=
  match s with
  | [] => Some []
  | a :: b :: c :: d :: t =>
      p ← std_digit a; q ← std_digit b;
      if bool_decide (c = "="%byte)
      then if bool_decide (d = "="%byte) && bool_decide (t = []) then b64_groups [p; q] else None
      else r ← std_digit c;
           if bool_decide (d = "="%byte)
           then if bool_decide (t = []) then b64_groups [p; q; r] else None
           else w ← std_digit d; g ← b64_groups [p; q; r; w]; rest ← std_groups t; Some (g ++ rest)
  | _ => None
  end.
(** [base64.StdEncoding.DecodeString]: line breaks are skipped, the padding is
    required and nothing follows it. *)
Definition std_decode (s : bytes) : option bytes :=
  std_groups (filter (λ c, c ≠ "010"%byte ∧ c ≠ "013"%byte) s).

(** * JSON *)

Inductive json :=
| JNull
| JBool (b : bool)
| JNum (literal : bytes)
| JStr (s : bytes)
| JArr (items : list json)
| JObj (fields : list (bytes * json)).

Definition hex4 (z : Z) : bytes :=
  let d n := z2b (if n <? 10 then 48 + n else 87 + n) in
  [d (z / 4096 mod 16); d (z / 256 mod 16); d (z / 16 mod 16); d (z mod 16)].
Definition quote_byte : byte := z2b 34.
Definition escape_byte : byte := z2b 92.

(** The text of one ASCII byte inside a string literal ([encoding/json] with
    HTML escaping, as [json.Marshal] has it). *)
Definition json_escape (b : byte) : bytes :=
  let z := b2z b in
  if (z =? 34) || (z =? 92) then [escape_byte; b]
  else if z =? 8 then [escape_byte; "b"%byte]
  else if z =? 12 then [escape_byte; "f"%byte]
  else if z =? 10 then [escape_byte; "n"%byte]
  else if z =? 13 then [escape_byte; "r"%byte]
  else if z =? 9 then [escape_byte; "t"%byte]
  else if (z <? 32) || (z =? 60) || (z =? 62) || (z =? 38)
       then escape_byte :: "u"%byte :: hex4 z
  else [b].
Definition line_sep : bytes := map z2b [226; 128; 168].
Definition par_sep : bytes := map z2b [226; 128; 169].

Fixpoint json_chars (fuel : nat) (s : bytes) : bytes :=
  match fuel, s with
  | S f, a :: t =>
      if is_ascii a then json_escape a ++ json_chars f t
      else match rune_len s with
           | None => escape_byte :: "u"%byte :: hex4 65533 ++ json_chars f t
           | Some n =>
               (if bool_decide (take n s = line_sep) then escape_byte :: "u"%byte :: hex4 8232
                else if bool_decide (take n s = par_sep) then escape_byte :: "u"%byte :: hex4 8233
                else take n s) ++ json_chars f (drop n s)
           end
  | _, _ => []
  end.
Definition json_string (s : bytes) : bytes :=
  quote_byte :: json_chars (length s) s ++ [quote_byte].

(** A field of a flat object. *)
Inductive scalar := SStr (s : bytes) | SInt (z : Z).
Definition json_scalar (v : scalar) : bytes :=
  match v with SStr s => json_string s | SInt z => Itoa z end.
Definition json_field (f : bytes * scalar) : bytes := json_string f.1 ++ ":"%byte :: json_scalar f.2.
Fixpoint json_fields (fs : list (bytes * scalar)) : bytes :=
  match fs with
  | [] => []
  | [f] => json_field f
  | f :: rest => json_field f ++ ","%byte :: json_fields rest
  end.
Definition json_object (fs : list (bytes * scalar)) : bytes :=
  "{"%byte :: json_fields fs ++ ["}"%byte].

(** ** Decoding *)

Definition hex_value (b : byte) : option Z :=
  if in_range b 48 57 then Some (b2z b - 48)
  else if in_range b 97 102 then Some (b2z b - 87)
  else if in_range b 65 70 then Some (b2z b - 55)
  else None.
Definition hex4_value (s : bytes) : option Z :=
  match s with
  | [a; b; c; d] =>
      x ← hex_value a; y ← hex_value b; z ← hex_value c; w ← hex_value d;
      Some (4096 * x + 256 * y + 16 * z + w)
  | _ => None
  end.
Definition simple_escape (b : byte) : option byte :=
  let z := b2z b in
  if (z =? 34) || (z =? 92) || (z =? 47) then Some b
  else if z =? 98 then Some (z2b 8)
  else if z =? 102 then Some (z2b 12)
  else if z =? 110 then Some (z2b 10)
  else if z =? 114 then Some (z2b 13)
  else if z =? 116 then Some (z2b 9)
  else None.
Definition is_surrogate (r : Z) : bool := (55296 <=? r) && (r <? 57344).

(** The text of a string literal, and what follows its closing quote. *)
Fixpoint scan_string (fuel : nat) (s : bytes) : option (bytes * bytes) :=
  match fuel, s with
  | S f, a :: t =>
      if b2z a =? 34 then Some ([], t)
      else if b2z a <? 32 then None
      else if b2z a =? 92 then
        match t with
        | e :: t' =>
            if bool_decide (e = "u"%byte) then
              r ← hex4_value (take 4 t');
              let rest := drop 4 t' in
              let second := if bool_decide (take 2 rest = [escape_byte; "u"%byte])
                            then hex4_value (take 4 (drop 2 rest)) else None in
              if is_surrogate r then
                match second with
                | Some r2 =>
                    if (r <? 56320) && (56320 <=? r2) && (r2 <? 57344)
                    then '(v, u) ← scan_string f (drop 6 rest);
                         Some (utf8_encode (65536 + 1024 * (r - 55296) + (r2 - 56320)) ++ v, u)
                    else '(v, u) ← scan_string f rest; Some (rune_error ++ v, u)
                | None => '(v, u) ← scan_string f rest; Some (rune_error ++ v, u)
                end
              else '(v, u) ← scan_string f rest; Some (utf8_encode r ++ v, u)
            else b ← simple_escape e; '(v, u) ← scan_string f t'; Some (b :: v, u)
        | [] => None
        end
      else if is_ascii a then '(v, u) ← scan_string f t; Some (a :: v, u)
      else match rune_len s with
           | Some n => '(v, u) ← scan_string f (drop n s); Some (take n s ++ v, u)
           | None => '(v, u) ← scan_string f t; Some (rune_error ++ v, u)
           end
  | _, _ => None
  end.

Definition is_json_space (b : byte) : bool :=
  (b2z b =? 32) || (b2z b =? 9) || (b2z b =? 10) || (b2z b =? 13).
Fixpoint skip_space (s : bytes) : bytes :=
  match s with a :: t => if is_json_space a then skip_space t else s | [] => [] end.

Definition is_num_byte (b : byte) : bool :=
  is_digit b || (b2z b =? 43) || (b2z b =? 45) || (b2z b =? 46) || (b2z b =? 69) || (b2z b =? 101).
Fixpoint span (p : byte → bool) (s : bytes) : bytes * bytes :=
  match s with
  | a :: t => if p a then let '(l, r) := span p t in (a :: l, r) else ([], s)
  | [] => ([], [])
  end.

(** The number grammar: sign, integer without leading zeros, fraction,
    exponent. *)
Definition valid_exponent (s : bytes) : bool :=
  match s with
  | [] => true
  | a :: t =>
      ((b2z a =? 69) || (b2z a =? 101))
      && let ds := match t with
                   | b :: u => if (b2z b =? 43) || (b2z b =? 45) then u else t
                   | [] => [] end in
         negb (bool_decide (ds = [])) && forallb is_digit ds
  end.
Definition valid_fraction (s : bytes) : bool :=
  match s with
  | a :: t =>
      if b2z a =? 46 then
        let '(ds, r) := span is_digit t in negb (bool_decide (ds = [])) && valid_exponent r
      else valid_exponent s
  | [] => true
  end.
Definition valid_number (s : bytes) : bool :=
  let s := match s with a :: t => if b2z a =? 45 then t else s | [] => [] end in
  let '(ds, r) := span is_digit s in
  match ds with
  | [] => false
  | a :: t => ((negb (b2z a =? 48)) || bool_decide (t = [])) && valid_fraction r
  end.

Definition scan_word (w : bytes) (v : json) (s : bytes) : option (json * bytes) :=
  if HasPrefix s w then Some (v, drop (length w) s) else None.

Definition max_depth : nat := 10000.

(** A value, with the number of levels it may still open.  Each round takes at
    least a byte, so the length of the text is enough fuel. *)
Fixpoint parse_value (fuel depth : nat) (s : bytes) {struct fuel} : option (json * bytes) :=
  match fuel with
  | O => None
  | S f =>
      match skip_space s with
      | [] => None
      | a :: t =>
          if b2z a =? 34 then '(v, u) ← scan_string (length t) t; Some (JStr v, u)
          else if b2z a =? 123 then
            match depth with
            | O => None
            | S d =>
                match skip_space t with
                | b :: u => if b2z b =? 125 then Some (JObj [], u)
                            else '(fs, u) ← parse_members f d t; Some (JObj fs, u)
                | [] => None
                end
            end
          else if b2z a =? 91 then
            match depth with
            | O => None
            | S d =>
                match skip_space t with
                | b :: u => if b2z b =? 93 then Some (JArr [], u)
                            else '(vs, u) ← parse_items f d t; Some (JArr vs, u)
                | [] => None
                end
            end
          else if bool_decide (a = "t"%byte) then scan_word §"true" (JBool true) (a :: t)
          else if bool_decide (a = "f"%byte) then scan_word §"false" (JBool false) (a :: t)
          else if bool_decide (a = "n"%byte) then scan_word §"null" JNull (a :: t)
          else let '(lit, u) := span is_num_byte (a :: t) in
               if valid_number lit then Some (JNum lit, u) else None
      end
  end
with parse_members (fuel depth : nat) (s : bytes) {struct fuel} : option (list (bytes * json) * bytes) :=
  match fuel with
  | O => None
  | S f =>
      match skip_space s with
      | q :: t =>
          if b2z q =? 34 then
            '(k, u) ← scan_string (length t) t;
            match skip_space u with
            | c :: u =>
                if b2z c =? 58 then
                  '(v, u) ← parse_value f depth u;
                  match skip_space u with
                  | e :: u =>
                      if b2z e =? 44 then '(fs, u) ← parse_members f depth u; Some ((k, v) :: fs, u)
                      else if b2z e =? 125 then Some ([(k, v)], u)
                      else None
                  | [] => None
                  end
                else None
            | [] => None
            end
          else None
      | [] => None
      end
  end
with parse_items (fuel depth : nat) (s : bytes) {struct fuel} : option (list json * bytes) :=
  match fuel with
  | O => None
  | S f =>
      '(v, u) ← parse_value f depth s;
      match skip_space u with
      | e :: u =>
          if b2z e =? 44 then '(vs, u) ← parse_items f depth u; Some (v :: vs, u)
          else if b2z e =? 93 then Some ([v], u)
          else None
      | [] => None
      end
  end.

(** The whole text as one value. *)
Definition json_parse (s : bytes) : option json :=
  '(v, u) ← parse_value (S (2 * length s)) max_depth s;
  if bool_decide (skip_space u = []) then Some v else None.

(** * Base64 round trip *)

Lemma b64_digit_char d : 0 <= d < 64 → b64_digit (b64_char d) = Some d.
Proof.
  intros Hd. assert (H : forallb (λ n, bool_decide (b64_digit (b64_char (Z.of_nat n)) = Some (Z.of_nat n)))
    (seq 0 64) = true) by by vm_compute.
  rewrite forallb_forall in H. specialize (H (Z.to_nat d)).
  rewrite Z2Nat.id in H by lia. apply bool_decide_eq_true in H; [done|]. apply in_seq. lia.
Qed.
Lemma b64_char_plain d : 0 <= d < 64 →
  b64_char d ≠ "010"%byte ∧ b64_char d ≠ "013"%byte ∧ b64_char d ≠ "."%byte
  ∧ strip_one space_seqs [b64_char d] = None ∧ is_ascii (b64_char d) = true.
Proof.
  intros Hd. assert (H : forallb (λ n, let c := b64_char (Z.of_nat n) in
      bool_decide (c ≠ "010"%byte ∧ c ≠ "013"%byte ∧ c ≠ "."%byte
        ∧ strip_one space_seqs [c] = None ∧ is_ascii c = true)) (seq 0 64) = true) by by vm_compute.
  rewrite forallb_forall in H. specialize (H (Z.to_nat d)).
  rewrite Z2Nat.id in H by lia. apply bool_decide_eq_true in H; [done|]. apply in_seq. lia.
Qed.

(** The digits behind the characters of an encoding. *)
Definition b64_text (s : bytes) (ds : list Z) : Prop :=
  s = map b64_char ds ∧ Forall (λ d, 0 <= d < 64) ds.

Ltac six_bits :=
  rewrite ?Forall_cons, ?Forall_nil; split_and!; try done; Z.div_mod_to_equations; lia.

Lemma list_ind3 {A} (P : list A → Prop) :
  P [] → (∀ a, P [a]) → (∀ a b, P [a; b]) → (∀ a b c l, P l → P (a :: b :: c :: l)) → ∀ l, P l.
Proof.
  intros H0 H1 H2 H3 l. assert (H : P l ∧ (∀ a, P (a :: l)) ∧ (∀ a b, P (a :: b :: l))).
  { induction l as [|x l (IH0 & IH1 & IH2)]; [auto|]. split_and!; [apply IH1|intros a; apply IH2|].
    intros a b. by apply H3. }
  apply H.
Qed.

Lemma b64_encode_text s : ∃ ds, b64_text (b64_encode s) ds ∧ b64_groups ds = Some s.
Proof.
  induction s as [|a|a b|a b c s (ds & [Ht Hd] & Hg)] using list_ind3.
  - by exists [].
  - exists [b2z a / 4; 16 * (b2z a mod 4)]. pose proof (b2z_range a). split; [split; [done|six_bits]|].
    cbn. do 2 f_equal. apply b2z_inj. rewrite b2z_z2b. Z.div_mod_to_equations. lia.
  - pose proof (b2z_range a). pose proof (b2z_range b).
    exists [(256 * b2z a + b2z b) / 1024; (256 * b2z a + b2z b) / 16 mod 64; 4 * ((256 * b2z a + b2z b) mod 16)].
    split; [split; [done|six_bits]|].
    cbn. f_equal. f_equal; [|f_equal]; apply b2z_inj; rewrite b2z_z2b; Z.div_mod_to_equations; lia.
  - pose proof (b2z_range a). pose proof (b2z_range b). pose proof (b2z_range c).
    set (v := 65536 * b2z a + 256 * b2z b + b2z c).
    exists (v / 262144 :: v / 4096 mod 64 :: v / 64 mod 64 :: v mod 64 :: ds). split; [split|].
    + cbn [b64_encode]. fold v. cbn zeta. by rewrite Ht.
    + unfold v. six_bits.
    + cbn [b64_groups]. rewrite Hg. cbn.
      assert (Hv : 262144 * (v / 262144) + 4096 * (v / 4096 mod 64) + 64 * (v / 64 mod 64) + v mod 64 = v)
        by (unfold v; Z.div_mod_to_equations; lia).
      rewrite Hv. unfold v.
      f_equal. f_equal; [|f_equal; [|f_equal]]; apply b2z_inj; rewrite b2z_z2b; Z.div_mod_to_equations; lia.
Qed.

Lemma b64_text_digits s ds : b64_text s ds →
  filter (λ c, c ≠ "010"%byte ∧ c ≠ "013"%byte) s = s ∧ mapM b64_digit s = Some ds.
Proof.
  intros [-> Hd]. induction Hd as [|d ds Hd _ [IH1 IH2]]; [done|]. cbn [map].
  destruct (b64_char_plain d Hd) as (H1 & H2 & _). split.
  - rewrite filter_cons_True by done. by rewrite IH1.
  - cbn. rewrite b64_digit_char by done. cbn. cbn in IH2. by rewrite IH2.
Qed.

Lemma b64_round_trip s : b64_decode (b64_encode s) = Some s.
Proof.
  destruct (b64_encode_text s) as (ds & Ht & Hg). unfold b64_decode.
  apply b64_text_digits in Ht as [-> ->]. done.
Qed.

(** The same for the padded standard alphabet. *)
Lemma std_char_ok d : 0 <= d < 64 →
  std_digit (std_char d) = Some d ∧ std_char d ≠ "="%byte ∧ std_char d ≠ ","%byte
  ∧ std_char d ≠ "010"%byte ∧ std_char d ≠ "013"%byte.
Proof.
  intros Hd. assert (H : forallb (λ n, let c := std_char (Z.of_nat n) in
      bool_decide (std_digit c = Some (Z.of_nat n) ∧ c ≠ "="%byte ∧ c ≠ ","%byte
        ∧ c ≠ "010"%byte ∧ c ≠ "013"%byte)) (seq 0 64) = true) by by vm_compute.
  rewrite forallb_forall in H. specialize (H (Z.to_nat d)).
  rewrite Z2Nat.id in H by lia. apply bool_decide_eq_true in H; [done|]. apply in_seq. lia.
Qed.

Lemma std_groups_quad p q r w t : Forall (λ d, 0 <= d < 64) [p; q; r; w] →
  std_groups (std_char p :: std_char q :: std_char r :: std_char w :: t)
  = (g ← b64_groups [p; q; r; w]; rest ← std_groups t; Some (g ++ rest)).
Proof.
  rewrite !Forall_cons. intros (Hp & Hq & Hr & Hw & _). cbn [std_groups].
  apply std_char_ok in Hp as (-> & _), Hq as (-> & _), Hr as (-> & ? & _), Hw as (-> & ? & _). cbn [mbind option_bind].
  by rewrite !bool_decide_false.
Qed.

Lemma std_encode_groups s : std_groups (std_encode s) = Some s.
Proof.
  induction s as [|a|a b|a b c s IH] using list_ind3; [done|..].
  - pose proof (b2z_range a). cbn [std_encode std_groups].
    destruct (std_char_ok (b2z a / 4)) as [-> _]; [Z.div_mod_to_equations; lia|].
    destruct (std_char_ok (16 * (b2z a mod 4))) as [-> _]; [Z.div_mod_to_equations; lia|]. cbn.
    do 2 f_equal. apply b2z_inj. rewrite b2z_z2b. Z.div_mod_to_equations. lia.
  - pose proof (b2z_range a). pose proof (b2z_range b). cbn [std_encode]. set (v := 256 * b2z a + b2z b).
    cbn [std_groups].
    destruct (std_char_ok (v / 1024)) as [-> _]; [subst v; Z.div_mod_to_equations; lia|].
    destruct (std_char_ok (v / 16 mod 64)) as [-> _]; [Z.div_mod_to_equations; lia|].
    destruct (std_char_ok (4 * (v mod 16))) as (-> & Hne & _); [Z.div_mod_to_equations; lia|].
    cbn [mbind option_bind]. rewrite (bool_decide_false (std_char _ = _)) by done. cbn.
    f_equal. f_equal; [|f_equal]; apply b2z_inj; rewrite b2z_z2b; subst v; Z.div_mod_to_equations; lia.
  - pose proof (b2z_range a). pose proof (b2z_range b). pose proof (b2z_range c). cbn [std_encode].
    set (v := 65536 * b2z a + 256 * b2z b + b2z c).
    rewrite std_groups_quad by (subst v; six_bits). rewrite IH. cbn.
    assert (Hv : 262144 * (v / 262144) + 4096 * (v / 4096 mod 64) + 64 * (v / 64 mod 64) + v mod 64 = v)
      by (unfold v; Z.div_mod_to_equations; lia).
    rewrite Hv. unfold v.
    f_equal. f_equal; [|f_equal; [|f_equal]]; apply b2z_inj; rewrite b2z_z2b; Z.div_mod_to_equations; lia.
Qed.

(** Bytes of a padded encoding. *)
Lemma std_encode_chars s c : c ∈ std_encode s → c = "="%byte ∨ ∃ d, 0 <= d < 64 ∧ c = std_char d.
Proof.
  induction s as [|a|a b|a b c' s IH] using list_ind3; cbn [std_encode].
  - by intros ?%elem_of_nil.
  - pose proof (b2z_range a). rewrite !elem_of_cons. intros [->|[->|[->|[->|[]%elem_of_nil]]]]; [right..|by left|by left];
      eexists; (split; [|done]); Z.div_mod_to_equations; lia.
  - pose proof (b2z_range a). pose proof (b2z_range b). set (v := 256 * b2z a + b2z b).
    assert (0 <= v < 65536) by lia. clearbody v.
    rewrite !elem_of_cons. intros [->|[->|[->|[->|[]%elem_of_nil]]]]; [right..|by left];
      eexists; (split; [|done]); Z.div_mod_to_equations; lia.
  - pose proof (b2z_range a). pose proof (b2z_range b). pose proof (b2z_range c').
    set (v := 65536 * b2z a + 256 * b2z b + b2z c'). assert (0 <= v < 16777216) by lia. clearbody v.
    rewrite !elem_of_cons. intros [->|[->|[->|[->|Hin]]]]; [right..|by apply IH];
      eexists; (split; [|done]); Z.div_mod_to_equations; lia.
Qed.

Lemma std_encode_plain s :
  ","%byte ∉ std_encode s ∧ filter (λ c, c ≠ "010"%byte ∧ c ≠ "013"%byte) (std_encode s) = std_encode s.
Proof.
  assert (H : ∀ c, c ∈ std_encode s → c ≠ ","%byte ∧ c ≠ "010"%byte ∧ c ≠ "013"%byte).
  { intros c [->|(d & Hd & ->)]%std_encode_chars; [done|]. apply std_char_ok in Hd. naive_solver. }
  split; [intros Hin; by apply H in Hin as [? _]|].
  induction (std_encode s) as [|c l IH]; [done|]. rewrite filter_cons_True by (apply H; set_solver).
  by rewrite IH by (intros; apply H; set_solver).
Qed.

Lemma std_round_trip s : std_decode (std_encode s) = Some s.
Proof. unfold std_decode. destruct (std_encode_plain s) as [_ ->]. apply std_encode_groups. Qed.

(** No dot in an encoding, and no white space at its ends. *)
Lemma TrimSpace_std_encode s : TrimSpace (std_encode s) = std_encode s.
Proof.
  apply TrimSpace_plain, forallb_forall. intros c Hc%list_elem_of_In.
  apply std_encode_chars in Hc as [->|(d & Hd & ->)]; [done|].
  assert (H : forallb (λ n, plain_byte (std_char (Z.of_nat n))) (seq 0 64) = true) by by vm_compute.
  rewrite forallb_forall in H. specialize (H (Z.to_nat d)). rewrite Z2Nat.id in H by lia.
  apply H, in_seq. lia.
Qed.

Lemma b64_no_dot s : "."%byte ∉ b64_encode s.
Proof.
  destruct (b64_encode_text s) as (ds & [-> Hd] & _). intros Hin.
  apply list_elem_of_In, in_map_iff in Hin as (d & Hc & Hin).
  rewrite Forall_forall in Hd. apply list_elem_of_In, Hd in Hin.
  by destruct (b64_char_plain d Hin) as (_ & _ & ? & _).
Qed.

(** * UTF-8 *)

Lemma rune_len_spec s n : rune_len s = Some n →
  (1 <= n <= 4)%nat ∧ (n <= length s)%nat ∧ ∀ t, rune_len (take n s ++ t) = Some n.
Proof.
  unfold rune_len. intros H.
  repeat case_match; simplify_eq; (split; [lia|]); (split; [cbn; lia|]); intros u; cbn;
    repeat match goal with H : ?x = _ |- context [?x] => rewrite H end; done.
Qed.
Lemma rune_len_ascii a t : is_ascii a = true → rune_len (a :: t) = Some 1%nat.
Proof. unfold is_ascii, rune_len. by intros ->. Qed.

(** * String literals *)

(** One step of the scanner on the text of one character. *)
Lemma scan_ascii f a u : is_ascii a = true →
  scan_string (S f) (json_escape a ++ u) = '(v, w) ← scan_string f u; Some (a :: v, w).
Proof. destruct a; try discriminate; reflexivity. Qed.

Lemma scan_unicode f r h u : is_surrogate r = false → hex4_value h = Some r → length h = 4%nat →
  scan_string (S f) ((escape_byte :: "u"%byte :: h) ++ u)
  = '(v, w) ← scan_string f u; Some (utf8_encode r ++ v, w).
Proof.
  intros Hr Hh Hl. cbn. rewrite take_app_le, (take_ge h) by lia.
  rewrite Hh. cbn. rewrite Hr. by rewrite drop_app_ge, Hl by lia.
Qed.

Lemma scan_rune f s n u : rune_len s = Some n → is_ascii (default "000"%byte (head s)) = false →
  scan_string (S f) (take n s ++ u) = '(v, w) ← scan_string f u; Some (take n s ++ v, w).
Proof.
  intros Hn Ha. destruct (rune_len_spec s n Hn) as (Hb & Hl & Happ).
  specialize (Happ u). destruct s as [|a s]; [done|]. destruct n as [|n]; [lia|].
  cbn [take app] in *. cbn [scan_string]. cbn in Ha. unfold is_ascii in Ha. apply Z.ltb_ge in Ha.
  rewrite !(proj2 (Z.eqb_neq _ _)), (proj2 (Z.ltb_ge _ 32)) by lia.
  unfold is_ascii. rewrite (proj2 (Z.ltb_ge _ 128)) by lia. rewrite Happ.
  cbn [drop take]. rewrite drop_app_ge by (rewrite length_take; cbn in *; lia).
  rewrite length_take, Nat.min_l by (cbn in *; lia). rewrite Nat.sub_diag, drop_0.
  rewrite take_app_le, take_take, Nat.min_id by (rewrite length_take; cbn in *; lia). done.
Qed.

Lemma scan_chars f g s u : valid_runes f s = true → (length s <= f)%nat → (length s < g)%nat →
  scan_string g (json_chars f s ++ quote_byte :: u) = Some (s, u).
Proof.
  revert g s. induction f as [|f IH]; intros g s Hv Hf Hg.
  - destruct s; [|done]. destruct g; [cbn in Hg; lia|]. done.
  - destruct g as [|g]; [lia|]. destruct s as [|a s]; [done|].
    cbn [valid_runes] in Hv. cbn [json_chars]. destruct (is_ascii a) eqn:Ea.
    + rewrite rune_len_ascii in Hv by done. rewrite drop_0 in Hv || cbn [drop] in Hv.
      rewrite <- app_assoc, scan_ascii by done. cbn [length] in *. rewrite IH by (done || lia). done.
    + destruct (rune_len (a :: s)) as [n|] eqn:En; [|done].
      destruct (rune_len_spec _ _ En) as (Hb & Hl & _).
      assert (IH' : scan_string g (json_chars f (drop n (a :: s)) ++ quote_byte :: u) = Some (drop n (a :: s), u)).
      { apply IH; [done|rewrite length_drop; lia|]. rewrite length_drop. cbn [length] in *. lia. }
      assert (Hcat : ∀ p, take n (a :: s) = p →
        ('(v, w) ← scan_string g (json_chars f (drop n (a :: s)) ++ quote_byte :: u); Some (p ++ v, w))
        = Some (a :: s, u)).
      { intros p <-. rewrite IH'. cbn [mbind option_bind]. by rewrite take_drop. }
      rewrite <- app_assoc. case_bool_decide as E1; [|case_bool_decide as E2].
      * rewrite (scan_unicode g 8232) by reflexivity. by apply Hcat.
      * rewrite (scan_unicode g 8233) by reflexivity. by apply Hcat.
      * rewrite scan_rune by done. by apply Hcat.
Qed.

(** * Numbers *)

Lemma itoa_digits_lead fuel n acc :
  0 < n < 10 ^ Z.of_nat fuel → ∃ b t, itoa_digits fuel n acc = b :: t ∧ is_digit b = true ∧ (b2z b =? 48) = false.
Proof.
  revert n acc. induction fuel as [|f IH]; intros n acc Hn; [cbn in Hn; lia|]. cbn [itoa_digits].
  destruct (n <? 10) eqn:E; gobool.
  - eexists _, _. split; [done|]. destruct (digit_byte n ltac:(lia)) as [Hd Hv].
    rewrite Z.mod_small by lia. split; [done|]. apply Z.eqb_neq. lia.
  - apply IH. rewrite Nat2Z.inj_succ, Z.pow_succ_r in Hn by lia.
    split; [apply Z.div_str_pos; lia|apply Z.div_lt_upper_bound; lia].
Qed.

Lemma span_all p l c u : forallb p l = true → p c = false → span p (l ++ c :: u) = (l, c :: u).
Proof.
  intros Hl Hc. induction l as [|a l IH]; cbn in *; [by rewrite Hc|].
  apply andb_true_iff in Hl as [-> Hl]. by rewrite IH.
Qed.
Lemma span_all_nil p l : forallb p l = true → span p l = (l, []).
Proof.
  intros Hl. induction l as [|a l IH]; cbn in *; [done|].
  apply andb_true_iff in Hl as [-> Hl]. by rewrite IH.
Qed.

Lemma valid_digits n : 0 <= n < 10 ^ 20 → ∃ b t, itoa_digits 20 n [] = b :: t ∧ is_digit b = true
  ∧ forallb is_digit (b :: t) = true ∧ valid_number (b :: t) = true ∧ valid_number ("-"%byte :: b :: t) = true.
Proof.
  intros Hn. assert (Hall : forallb is_digit (itoa_digits 20 n []) = true) by (apply itoa_digits_all; [lia|done]).
  assert (Hv : ∃ b t, itoa_digits 20 n [] = b :: t ∧ is_digit b = true
      ∧ (negb (b2z b =? 48) || bool_decide (t = [])) = true).
  { destruct (Z.eq_dec n 0) as [->|Hz]; [by exists "0"%byte, []|].
    destruct (itoa_digits_lead 20 n []) as (b & t & Hb & Hd & H0); [lia|].
    exists b, t. rewrite H0. auto. }
  destruct Hv as (b & t & Hb & Hd & H0). rewrite Hb in Hall. exists b, t. split_and!; try done.
  - unfold valid_number. assert (Hm : (b2z b =? 45) = false).
    { unfold is_digit in Hd. gobool. apply Z.eqb_neq. lia. }
    rewrite Hm, span_all_nil by done. by rewrite H0.
  - unfold valid_number. change (b2z "-"%byte =? 45) with true. cbv iota.
    rewrite span_all_nil by done. by rewrite H0.
Qed.

Lemma digit_num_byte l : forallb is_digit l = true → forallb is_num_byte l = true.
Proof.
  rewrite !forallb_forall. intros H x Hx. unfold is_num_byte. by rewrite (H x Hx).
Qed.

(** The shape of a decimal text. *)
Lemma Itoa_shape z : - 10 ^ 20 < z < 10 ^ 20 →
  valid_number (Itoa z) = true ∧ forallb is_num_byte (Itoa z) = true
  ∧ ∃ a t, Itoa z = a :: t ∧ (a = "-"%byte ∨ is_digit a = true).
Proof.
  intros Hz. unfold Itoa. destruct (z <? 0) eqn:E; gobool.
  - destruct (valid_digits (- z)) as (b & t & Hb & Hd & Hall & _ & Hv); [lia|]. rewrite Hb.
    split_and!; [done| |eauto]. apply digit_num_byte in Hall.
    change (is_num_byte "-"%byte && forallb is_num_byte (b :: t) = true). by rewrite Hall.
  - destruct (valid_digits z) as (b & t & Hb & Hd & Hall & Hv & _); [lia|]. rewrite Hb.
    split_and!; [done|by apply digit_num_byte|eauto].
Qed.

(** * Flat objects *)

Definition scalar_json (v : scalar) : json :=
  match v with SStr s => JStr s | SInt z => JNum (Itoa z) end.
Definition scalar_ok (v : scalar) : bool :=
  match v with
  | SStr s => utf8_valid s
  | SInt z => (- 10 ^ 20 <? z) && (z <? 10 ^ 20)
  end.
Definition field_ok (f : bytes * scalar) : bool := utf8_valid f.1 && scalar_ok f.2.

Lemma scan_json_string s u : utf8_valid s = true →
  ∃ t, json_string s ++ u = quote_byte :: t ∧ scan_string (length t) t = Some (s, u).
Proof.
  intros Hv. exists (json_chars (length s) s ++ quote_byte :: u). split.
  - unfold json_string. cbn [app]. by rewrite <- app_assoc.
  - apply scan_chars; [done|done|]. rewrite length_app. cbn [length].
    assert (Hge : ∀ f s, valid_runes f s = true → (length s <= f)%nat → (length s <= length (json_chars f s))%nat);
      [|specialize (Hge _ _ Hv (le_n _)); lia].
    clear. induction f as [|f IH]; intros s Hv Hl; destruct s as [|a s]; cbn [length json_chars] in *; try lia.
    cbn [valid_runes] in Hv. destruct (is_ascii a) eqn:Ea.
    + rewrite rune_len_ascii in Hv by done. cbn [skipn] in Hv. specialize (IH s Hv ltac:(lia)).
      rewrite length_app. assert (1 <= length (json_escape a))%nat; [|lia].
      unfold json_escape. repeat case_match; cbn; lia.
    + destruct (rune_len (a :: s)) as [n|] eqn:En; [|done].
      destruct (rune_len_spec _ _ En) as (Hb & Hln & _). cbn [length] in Hln.
      specialize (IH (drop n (a :: s)) Hv). rewrite length_drop in IH. cbn [length] in IH.
      specialize (IH ltac:(lia)). rewrite length_app.
      assert (n <= length (if bool_decide (take n (a :: s) = line_sep) then escape_byte :: "u"%byte :: hex4 8232
        else if bool_decide (take n (a :: s) = par_sep) then escape_byte :: "u"%byte :: hex4 8233
        else take n (a :: s)))%nat; [|lia].
      repeat case_bool_decide; cbn [length hex4]; rewrite ?length_take; cbn [length]; lia.
Qed.

Lemma skip_space_byte c u : is_json_space c = false → skip_space (c :: u) = c :: u.
Proof. cbn. by intros ->. Qed.

Lemma parse_scalar f d v c u : scalar_ok v = true →
  is_num_byte c = false → parse_value (S f) d (json_scalar v ++ c :: u) = Some (scalar_json v, c :: u).
Proof.
  intros Hv Hc. destruct v as [s|z]; cbn [json_scalar scalar_ok scalar_json] in *.
  - destruct (scan_json_string s (c :: u) Hv) as (t & -> & Hs).
    cbn [parse_value]. rewrite skip_space_byte by done. change (b2z quote_byte =? 34) with true.
    cbv iota. by rewrite Hs.
  - gobool. destruct (Itoa_shape z ltac:(lia)) as (Hval & Hall & a & t & Ha & Hd).
    assert (Hcls : is_json_space a = false ∧ (b2z a =? 34) = false ∧ (b2z a =? 123) = false
        ∧ (b2z a =? 91) = false ∧ a ≠ "t"%byte ∧ a ≠ "f"%byte ∧ a ≠ "n"%byte)
      by (destruct Hd as [->|Hd]; [done|by destruct a]).
    destruct Hcls as (H1 & H2 & H3 & H4 & H5 & H6 & H7).
    cbn [parse_value]. rewrite Ha in *. cbn [app].
    rewrite skip_space_byte, H2, H3, H4, !bool_decide_false by done. clear H5 H6 H7.
    change (a :: t ++ c :: u) with ((a :: t) ++ c :: u). rewrite (span_all _ (a :: t)) by done. by rewrite Hval.
Qed.

Lemma parse_fields f d fs u : fs ≠ [] → forallb field_ok fs = true → (length fs < f)%nat →
  parse_members f d (json_fields fs ++ "}"%byte :: u)
  = Some (map (λ p, (p.1, scalar_json p.2)) fs, u).
Proof.
  revert f. induction fs as [|[k v] fs IH]; intros f Hne Hok Hf; [done|].
  destruct f as [|[|f]]; [cbn in Hf; lia..|].
  cbn [forallb] in Hok. apply andb_true_iff in Hok as [Hkv Hok].
  unfold field_ok in Hkv. cbn [fst snd] in Hkv. apply andb_true_iff in Hkv as [Hk Hv].
  (* one member, up to the byte after its value *)
  assert (Hmem : ∀ e w, is_num_byte e = false → is_json_space e = false →
    parse_members (S (S f)) d (json_field (k, v) ++ e :: w) =
      (if b2z e =? 44 then '(fs, u) ← parse_members (S f) d w; Some ((k, scalar_json v) :: fs, u)
       else if b2z e =? 125 then Some ([(k, scalar_json v)], w) else None)).
  { intros e w He Hs. unfold json_field. cbn [fst snd]. rewrite <- app_assoc. cbn [app].
    destruct (scan_json_string k (":"%byte :: json_scalar v ++ e :: w) Hk) as (t & -> & Hsc).
    remember (S f) as f1. cbn [parse_members]. rewrite skip_space_byte by done.
    change (b2z quote_byte =? 34) with true. cbv iota. rewrite Hsc. cbn [mbind option_bind].
    rewrite skip_space_byte by done. change (b2z ":" =? 58) with true. cbv iota.
    subst f1. rewrite parse_scalar by done. cbn [mbind option_bind].
    by rewrite skip_space_byte by done. }
  destruct fs as [|p fs].
  - cbn [json_fields]. by rewrite Hmem by done.
  - cbn [json_fields]. fold (json_fields (p :: fs)). rewrite <- app_assoc. cbn [app].
    rewrite Hmem by done. change (b2z "," =? 44) with true. cbv iota.
    rewrite IH by (done || cbn [length] in *; lia). done.
Qed.

Lemma parse_object fs : fs ≠ [] → forallb field_ok fs = true →
  json_parse (json_object fs) = Some (JObj (map (λ p, (p.1, scalar_json p.2)) fs)).
Proof.
  intros Hne Hok. unfold json_parse, json_object.
  assert (Hlen : (length fs < 2 * length ("{"%byte :: json_fields fs ++ ["}"%byte]))%nat).
  { cbn [length]. rewrite length_app. cbn [length].
    assert (length fs <= length (json_fields fs))%nat; [|lia]. clear.
    induction fs as [|[k v] [|p fs] IH]; [done|cbn; lia|].
    change (json_fields ((k, v) :: p :: fs)) with (json_field (k, v) ++ ","%byte :: json_fields (p :: fs)).
    rewrite length_app. cbn [length] in *. lia. }
  set (n := length ("{"%byte :: json_fields fs ++ ["}"%byte])) in *.
  assert (Hd : ∃ d, max_depth = S d).
  { exists (Nat.pred max_depth). symmetry. apply Nat.succ_pred. by vm_compute. }
  destruct Hd as [d ->].
  cbn [parse_value]. rewrite skip_space_byte by done.
  change (b2z "{" =? 34) with false. change (b2z "{" =? 123) with true. cbv iota.
  assert (Hfirst : ∃ t, json_fields fs ++ ["}"%byte] = quote_byte :: t).
  { destruct fs as [|[k v] [|p fs]]; [done|eexists; reflexivity..]. }
  destruct Hfirst as [t Ht]. rewrite Ht at 1. rewrite skip_space_byte by done.
  change (b2z quote_byte =? 125) with false. cbv iota.
  rewrite parse_fields by done. done.
Qed.
