(* ===== verification/GoUtf16.v ===== *)
(** Go's runes and unicode/utf16: conversions between strings, rune slices and
    UTF-16 code units. *)
From S2P Require Import Prelude GoStrings GoBinary GoEncoding.

(** * Definitions *)

(** The value of a well-formed first rune of [n] bytes. *)
Definition rune_value (n : nat) (s : bytes) : Z :=
  let c i := at_byte s i mod 64 in
  match n with
  | 2%nat => (at_byte s 0%nat - 192) * 64 + c 1%nat
  | 3%nat => (at_byte s 0%nat - 224) * 4096 + c 1%nat * 64 + c 2%nat
  | 4%nat => (at_byte s 0%nat - 240) * 262144 + c 1%nat * 4096 + c 2%nat * 64 + c 3%nat
  | _ => at_byte s 0%nat
  end.

(** [[]rune(s)]: a byte that starts no well-formed rune becomes U+FFFD. *)
Fixpoint decode_runes (fuel : nat) (s : bytes) : list Z :=
  match fuel, s with
  | S f, _ :: _ =>
      match rune_len s with
      | Some n => rune_value n s :: decode_runes f (drop n s)
      | None => 65533 :: decode_runes f (drop 1 s)
      end
  | _, _ => []
  end.
Definition runes (s : bytes) : list Z := decode_runes (length s) s.

(** [string(runes)]. *)
Definition is_scalar (r : Z) : bool := (0 <=? r) && (r <? 1114112) && negb (is_surrogate r).
Definition encode_rune (r : Z) : bytes := if is_scalar r then utf8_encode r else rune_error.
Definition runes_string (rs : list Z) : bytes := concat (map encode_rune rs).

(** [utf16.Encode] and [utf16.Decode]. *)
Definition utf16_units (r : Z) : list Z :=
  if negb (is_scalar r) then [65533]
  else if r <? 65536 then [r]
  else [55296 + (r - 65536) / 1024; 56320 + (r - 65536) mod 1024].
Definition utf16_encode (rs : list Z) : list Z := concat (map utf16_units rs).
Definition is_high (u : Z) : bool := (55296 <=? u) && (u <? 56320).
Definition is_low (u : Z) : bool := (56320 <=? u) && (u <? 57344).
Fixpoint utf16_decode (us : list Z) : list Z :=
  match us with
  | [] => []
  | u :: us1 =>
      if is_high u then
        match us1 with
        | v :: us2 =>
            if is_low v then 65536 + (u - 55296) * 1024 + (v - 56320) :: utf16_decode us2
            else 65533 :: utf16_decode us1
        | [] => [65533]
        end
      else if is_low u then 65533 :: utf16_decode us1
      else u :: utf16_decode us1
  end.

(** Code units in little-endian order, and back; a last odd byte is dropped. *)
Definition units_bytes (us : list Z) : bytes := concat (map (le_bytes 2) us).
Fixpoint bytes_units (l : bytes) : list Z :=
  match l with
  | a :: b :: t => le_value [a; b] :: bytes_units t
  | _ => []
  end.

(** * Round trips *)

Lemma z2b_is z (b : byte) : z = b2z b → z2b z = b.
Proof. intros ->. apply z2b_b2z. Qed.

(** A well-formed rune is the encoding of its value, a scalar value. *)
Ltac rune_case :=
  unfold is_scalar, is_surrogate, utf8_encode, rune_value, at_byte; cbn [nth firstn];
  split; [Z.div_mod_to_equations; lia|];
  repeat (rewrite (proj2 (Z.ltb_ge _ _)) by (Z.div_mod_to_equations; lia));
  try rewrite (proj2 (Z.ltb_lt _ _)) by (Z.div_mod_to_equations; lia);
  cbn [map firstn]; rewrite ?take_0; repeat f_equal; apply z2b_is; Z.div_mod_to_equations; lia.
Lemma rune_value_spec s n : rune_len s = Some n →
  is_scalar (rune_value n s) = true ∧ utf8_encode (rune_value n s) = take n s.
Proof.
  unfold rune_len, is_cont, in_range. destruct s as [|a t]; [done|]. pose proof (b2z_range a).
  destruct (b2z a <? 128) eqn:E1; [|destruct (_ && _) eqn:E2 in |- *].
  - intros [= <-]. gobool. rune_case.
  - destruct t as [|b t]; [done|]. pose proof (b2z_range b). destruct (_ && _) eqn:E3 in |- *; [|done].
    intros [= <-]. gobool. rune_case.
  - destruct (_ && _) eqn:E3 in |- *.
    + destruct t as [|b [|c t]]; [done..|]. pose proof (b2z_range b). pose proof (b2z_range c). cbv zeta.
      destruct (b2z a =? 224) eqn:E4, (b2z a =? 237) eqn:E5; (destruct (_ && _) eqn:E6 in |- *; [|done]);
      intros [= <-]; gobool; first [exfalso; lia|rune_case].
    + destruct (_ && _) eqn:E4 in |- *; [|done].
      destruct t as [|b [|c [|d t]]]; [done..|].
      pose proof (b2z_range b). pose proof (b2z_range c). pose proof (b2z_range d). cbv zeta.
      destruct (b2z a =? 240) eqn:E5, (b2z a =? 244) eqn:E6; (destruct (_ && _) eqn:E7 in |- *; [|done]);
      intros [= <-]; gobool; first [exfalso; lia|rune_case].
Qed.

Lemma utf16_round_trip rs :
  forallb is_scalar rs = true → utf16_decode (utf16_encode rs) = rs.
Proof.
  induction rs as [|r rs IH]; [done|]. cbn [forallb]. intros [Hr Hrs]%andb_true_iff. specialize (IH Hrs).
  unfold utf16_encode in *. cbn [map concat]. unfold utf16_units at 1. rewrite Hr. cbn [negb].
  unfold is_scalar, is_surrogate in Hr. gobool. destruct (r <? 65536) eqn:E; gobool; cbn [app utf16_decode].
  - assert (is_high r = false ∧ is_low r = false) as [-> ->] by (unfold is_high, is_low; lia).
    by rewrite IH.
  - assert (0 <= (r - 65536) / 1024 < 1024) by (Z.div_mod_to_equations; lia).
    pose proof (Z.mod_pos_bound (r - 65536) 1024 ltac:(lia)).
    assert (is_high (55296 + (r - 65536) / 1024) = true) as -> by (unfold is_high; lia).
    assert (is_low (56320 + (r - 65536) mod 1024) = true) as -> by (unfold is_low; lia).
    rewrite IH. f_equal. Z.div_mod_to_equations; lia.
Qed.

Lemma runes_valid f s : valid_runes f s = true → (length s <= f)%nat →
  forallb is_scalar (decode_runes f s) = true ∧ runes_string (decode_runes f s) = s.
Proof.
  revert s. induction f as [|f IH]; intros s Hv Hl; (destruct s as [|a s]; [done|]); [cbn in Hl; lia|].
  cbn [valid_runes] in Hv. cbn [decode_runes]. destruct (rune_len (a :: s)) as [n|] eqn:En; [|done].
  destruct (rune_len_spec _ _ En) as (Hn & Hnl & _). destruct (rune_value_spec _ _ En) as [Hs He].
  destruct (IH (drop n (a :: s)) Hv) as [H1 H2]; [rewrite length_drop; cbn [length] in *; lia|].
  cbn [forallb]. rewrite Hs, H1. split; [done|]. unfold runes_string in *. cbn [map concat].
  unfold encode_rune at 1. rewrite Hs, He, H2. apply take_drop.
Qed.
Lemma utf8_valid_runes s : utf8_valid s = true →
  forallb is_scalar (runes s) = true ∧ runes_string (runes s) = s.
Proof. intros H. by apply runes_valid. Qed.

Lemma utf16_units_range r : Forall (λ u, 0 <= u < 65536) (utf16_units r).
Proof.
  unfold utf16_units, is_scalar. destruct (negb _) eqn:E; [by repeat constructor|].
  apply negb_false_iff in E. gobool. destruct (r <? 65536) eqn:E2; gobool; repeat constructor;
    Z.div_mod_to_equations; lia.
Qed.
Lemma utf16_encode_range rs : Forall (λ u, 0 <= u < 65536) (utf16_encode rs).
Proof.
  induction rs as [|r rs IH]; [constructor|]. unfold utf16_encode. cbn [map concat].
  apply Forall_app. split; [apply utf16_units_range|exact IH].
Qed.
Lemma bytes_units_bytes us : Forall (λ u, 0 <= u < 65536) us → bytes_units (units_bytes us) = us.
Proof.
  induction 1 as [|u us Hu _ IH]; [done|]. unfold units_bytes. cbn [map concat].
  pose proof (le_value_bytes 2 u ltac:(cbn; lia)) as Hv. pose proof (length_le_bytes 2 u) as Hl.
  destruct (le_bytes 2 u) as [|a [|b [|]]] eqn:E; try done. cbn [app bytes_units]. rewrite Hv.
  f_equal. exact IH.
Qed.
Lemma length_units_bytes us : length (units_bytes us) = (2 * length us)%nat.
Proof.
  induction us as [|u us IH]; [done|]. unfold units_bytes in *. cbn [map concat length].
  rewrite length_app, length_le_bytes. lia.
Qed.
(** Without supplementary characters a string has as many units as runes. *)
Definition is_bmp (r : Z) : bool := r <? 65536.
Lemma length_utf16_bmp rs : forallb is_bmp rs = true → length (utf16_encode rs) = length rs.
Proof.
  induction rs as [|r rs IH]; [done|]. cbn [forallb]. intros [Hr Hrs]%andb_true_iff.
  unfold utf16_encode in *. cbn [map concat length]. rewrite length_app, IH by done.
  unfold utf16_units. unfold is_bmp in Hr. rewrite Hr. by destruct (negb _).
Qed.

(** ASCII text. *)
Lemma runes_ascii s : forallb is_ascii s = true → runes s = map b2z s.
Proof.
  unfold runes. induction s as [|a s IH]; [done|]. cbn [forallb length decode_runes]. intros [Ha Hs]%andb_true_iff.
  rewrite rune_len_ascii by done. change (drop 1 (a :: s)) with s. by rewrite IH.
Qed.
Lemma ascii_valid s : forallb is_ascii s = true → utf8_valid s = true.
Proof.
  unfold utf8_valid. induction s as [|a s IH]; [done|]. cbn [forallb length valid_runes]. intros [Ha Hs]%andb_true_iff.
  rewrite rune_len_ascii by done. change (drop 1 (a :: s)) with s. auto.
Qed.
Lemma runes_string_ascii rs : forallb (λ r, (0 <=? r) && (r <? 128)) rs = true → runes_string rs = map z2b rs.
Proof.
  induction rs as [|r rs IH]; [done|]. cbn [forallb]. intros [Hr Hrs]%andb_true_iff. gobool.
  unfold runes_string in *. cbn [map concat]. rewrite IH by done. unfold encode_rune, is_scalar, is_surrogate, utf8_encode.
  rewrite (proj2 (Z.leb_le 0 r)), (proj2 (Z.ltb_lt r 1114112)), (proj2 (Z.leb_gt 55296 r)), (proj2 (Z.ltb_lt r 128)) by lia.
  done.
Qed.

(** ** Trimming valid text *)

Lemma valid_runes_fuel f g s : (length s <= f)%nat → (length s <= g)%nat → valid_runes f s = valid_runes g s.
Proof.
  revert g s. induction f as [|f IH]; intros g s Hf Hg; (destruct s as [|a s]; [by destruct g|]); [cbn in Hf; lia|].
  destruct g as [|g]; [cbn in Hg; lia|]. cbn [valid_runes]. destruct (rune_len (a :: s)) as [n|] eqn:E; [|done].
  destruct (rune_len_spec _ _ E) as (? & ? & _). apply IH; rewrite length_drop; cbn [length] in *; lia.
Qed.
Lemma utf8_valid_rune s n : rune_len s = Some n → utf8_valid s = utf8_valid (drop n s).
Proof.
  intros E. destruct (rune_len_spec _ _ E) as (Hn & Hl & _). unfold utf8_valid.
  destruct s as [|a s]; [cbn in Hl; lia|]. cbn [length valid_runes]. rewrite E.
  apply valid_runes_fuel; rewrite length_drop; cbn [length] in *; lia.
Qed.
(** Only the first byte of a rune is no continuation byte. *)
Lemma rune_continuation s n i b : rune_len s = Some n → (1 <= i < n)%nat → s !! i = Some b → is_cont b = true.
Proof.
  unfold rune_len. intros H Hi Hb.
  assert (Hr : ∀ b lo hi, 128 <= lo → hi <= 191 → in_range b lo hi = true → is_cont b = true).
  { unfold is_cont, in_range. intros. gobool. apply andb_true_iff. rewrite !Z.leb_le. lia. }
  repeat case_match; simplify_eq; gobool; destruct i as [|[|[|[|]]]]; cbn in Hb; try lia; simplify_eq; try done;
    by (eapply Hr; [| |eassumption]; lia).
Qed.

Lemma utf8_valid_prefix u p b t : p = b :: t → is_cont b = false → utf8_valid (u ++ p) = true → utf8_valid u = true.
Proof.
  intros Hp Hb. remember (length u) as k eqn:Hk. revert u Hk. induction k as [k IH] using lt_wf_ind. intros u -> Hv.
  destruct u as [|a u]; [done|]. destruct (rune_len ((a :: u) ++ p)) as [n|] eqn:E.
  2: { unfold utf8_valid in Hv. cbn [app length valid_runes] in *. by rewrite E in Hv. }
  destruct (rune_len_spec _ _ E) as (Hn & Hl & Happ).
  assert (Hle : (n <= length (a :: u))%nat).
  { destruct (decide (n <= length (a :: u))%nat) as [|Hgt]; [done|].
    assert (Hc : is_cont b = true); [|congruence].
    apply (rune_continuation _ n (length (a :: u)) b E); [cbn [length] in *; lia|].
    rewrite lookup_app_r, Nat.sub_diag by lia. by rewrite Hp. }
  assert (E' : rune_len (a :: u) = Some n).
  { specialize (Happ (drop n (a :: u))). by rewrite take_app_le, take_drop in Happ by done. }
  rewrite (utf8_valid_rune _ _ E), drop_app_le in Hv by done. rewrite (utf8_valid_rune _ _ E').
  eapply (IH (length (drop n (a :: u)))); [rewrite length_drop; cbn [length] in *; lia|done|done].
Qed.

Lemma trim_left_ind (P : bytes → Prop) seqs s :
  (∀ p t, p ∈ seqs → P (p ++ t) → P t) → P s → P (trim_left seqs s).
Proof.
  intros Hstep. unfold trim_left. generalize (length s). intros f. revert s.
  induction f as [|f IH]; intros s Hs; [done|]. cbn [strip_all].
  destruct (strip_one seqs s) as [s'|] eqn:E; [|done]. apply IH.
  assert (H : ∃ p, p ∈ seqs ∧ s = p ++ s').
  { clear -E. induction seqs as [|p seqs IH]; [done|]. cbn in E. destruct (HasPrefix s p) eqn:Hp.
    - apply HasPrefix_iff in Hp as [t ->]. rewrite drop_app_length in E. injection E as <-. exists p. set_solver.
    - destruct (IH E) as (q & ? & ?). exists q. set_solver. }
  destruct H as (p & Hp & ->). by eapply Hstep.
Qed.
Lemma TrimSpace_ind (P : bytes → Prop) s :
  (∀ p t, p ∈ space_seqs → P (p ++ t) → P t) → (∀ p t, p ∈ space_seqs → P (t ++ p) → P t) → P s → P (TrimSpace s).
Proof.
  intros Hl Hr Hs. unfold TrimSpace.
  apply (trim_left_ind (λ r, P (rev r))); [|rewrite rev_involutive; by apply trim_left_ind].
  intros p t Hp H. apply list_elem_of_In, in_map_iff in Hp as (q & <- & Hq). rewrite rev_app_distr, rev_involutive in H.
  eapply Hr; [by apply list_elem_of_In|done].
Qed.

Definition single_rune (p : bytes) : bool :=
  bool_decide (rune_len p = Some (length p)) && match p with b :: _ => negb (is_cont b) | [] => false end.
Lemma space_seqs_runes p : p ∈ space_seqs → single_rune p = true.
Proof.
  intros Hp. assert (H : forallb single_rune space_seqs = true) by (by vm_compute).
  rewrite forallb_forall in H. by apply H, list_elem_of_In.
Qed.
Lemma utf8_valid_TrimSpace s : utf8_valid s = true → utf8_valid (TrimSpace s) = true.
Proof.
  apply (TrimSpace_ind (λ s, utf8_valid s = true)); intros p t Hp%space_seqs_runes Hv; unfold single_rune in Hp; gobool.
  - destruct (rune_len_spec _ _ H) as (_ & _ & Happ). specialize (Happ t). rewrite firstn_all in Happ.
    by rewrite (utf8_valid_rune _ _ Happ), drop_app_length in Hv.
  - destruct p as [|b p]; [done|]. eapply utf8_valid_prefix; [done| |exact Hv]. by apply negb_true_iff.
Qed.
(** A byte of no white space. *)
Definition visible (b : byte) : bool := forallb (λ p, bool_decide (b ∉ p)) space_seqs.
Lemma TrimSpace_keeps b s : visible b = true → b ∈ s → b ∈ TrimSpace s.
Proof.
  intros Hb. assert (Hp : ∀ p, p ∈ space_seqs → b ∉ p).
  { intros p Hp. unfold visible in Hb. rewrite forallb_forall in Hb. apply list_elem_of_In, Hb in Hp. by apply bool_decide_eq_true in Hp. }
  apply (TrimSpace_ind (λ s, b ∈ s)); intros p t Hin%Hp; set_solver.
Qed.
Lemma visible_notin p b : p ∈ space_seqs → b ∈ p → visible b = false.
Proof.
  intros Hp Hb. apply not_true_is_false. unfold visible. rewrite forallb_forall. intros Hv. apply list_elem_of_In, Hv in Hp.
  by apply bool_decide_eq_true in Hp.
Qed.
(** Trimming leaves what is visible at the front. *)
Lemma TrimSpace_visible s v : forallb visible s = true → ∃ t, TrimSpace (s ++ v) = s ++ t.
Proof.
  intros Hs. apply (TrimSpace_ind (λ r, ∃ t, r = s ++ t)); [| |by eexists].
  - intros p t Hp [u Hu]. destruct s as [|c s]; [by eexists|]. destruct p as [|b p]; [by eexists|]. injection Hu as -> _.
    apply andb_true_iff in Hs as [Hc _]. by rewrite (visible_notin (c :: p)) in Hc by (done || left).
  - intros p t Hp [u Hu]. revert t Hu. induction s as [|c s IH]; intros t Hu; [by eexists|]. apply andb_true_iff in Hs as [Hc Hs].
    destruct t as [|b t]; cbn [app] in Hu; [|injection Hu as -> Hu; destruct (IH Hs t Hu) as [u' ->]; by eexists].
    subst p. by rewrite (visible_notin _ c Hp) in Hc by left.
Qed.
(** A text that starts with NUL still does when it is trimmed. *)
Lemma TrimSpace_nul s : ∃ t, TrimSpace ("000"%byte :: s) = "000"%byte :: t.
Proof.
  apply (TrimSpace_ind (λ s, ∃ t, s = "000"%byte :: t)); [| |by eexists].
  - intros p t Hp [u Hu]. exfalso.
    assert (H : forallb (λ p, bool_decide (head p ≠ Some "000"%byte ∧ p ≠ [])) space_seqs = true) by (by vm_compute).
    rewrite forallb_forall in H. apply list_elem_of_In, H in Hp. gobool. destruct Hp as [Hh Hne].
    destruct p as [|b p]; [done|]. injection Hu as -> _. done.
  - intros p t Hp [u Hu]. destruct t as [|b t]; [|injection Hu as -> _; by eexists]. exfalso.
    assert (H : forallb (λ p, bool_decide (head p ≠ Some "000"%byte ∧ p ≠ [])) space_seqs = true) by (by vm_compute).
    rewrite forallb_forall in H. apply list_elem_of_In, H in Hp. gobool. destruct Hp as [Hh Hne].
    destruct p as [|b p]; [done|]. injection Hu as -> _. done.
Qed.
