(* ===== verification/GoIO.v ===== *)
(** Go's readers and connections, as the proxies use them.

    A [reader] is the rest of an incoming byte stream and the error every read
    returns once it is exhausted (io.EOF for a clean close, any other error for
    a reset or a timeout).  A [duplex] is a proxied pair of connections: the
    client's and the upstream's input, and the trace of everything the proxy
    did to the outside, in order.  Writes may fail: [dx_faults] says, write by
    write, how many bytes get out before the error; every theorem holds for
    every such schedule. *)
From S2P Require Import Prelude GoStrings.

(** * Readers *)

Record reader := Reader { rd_buf : bytes; rd_end : error }.

(** [bufio.Reader.ReadByte]. *)
Definition ReadByte : M reader byte := λ r,
  match rd_buf r with
  | [] => (Err (rd_end r), r)
  | b :: t => (Ok b, Reader t (rd_end r))
  end.

(** [bufio.Reader.ReadBytes(delim)]: the text up to and including [delim]; at
    the end of the stream the partial text is consumed and the error returned. *)
Definition ReadBytes (delim : byte) : M reader bytes := λ r,
  match IndexByte (rd_buf r) delim with
  | Some n => (Ok (take (S n) (rd_buf r)), Reader (drop (S n) (rd_buf r)) (rd_end r))
  | None => (Err (rd_end r), Reader [] (rd_end r))
  end.

(** [io.ReadFull] into a buffer of [n] bytes. *)
Definition ReadFull (n : Z) : M reader bytes := λ r,
  let k := Z.to_nat n in
  if (k <=? length (rd_buf r))%nat
  then (Ok (take k (rd_buf r)), Reader (drop k (rd_buf r)) (rd_end r))
  else match rd_buf r with
       | [] => (Err (rd_end r), r)
       | _ => (Err (if bool_decide (rd_end r = io_EOF) then io_ErrUnexpectedEOF else rd_end r),
               Reader [] (rd_end r))
       end.

(** * Connections of a proxied session *)

(** What a proxy does that others can see.  [E] is the log entry type. *)
Inductive effect (E : Type) :=
| ToUpstream (b : bytes)
| ToClient (b : bytes)
| Enqueue (e : E).
Arguments ToUpstream {E} b.
Arguments ToClient {E} b.
Arguments Enqueue {E} e.

Record duplex (E : Type) := Duplex {
  dx_client : reader;
  dx_upstream : reader;
  dx_faults : list (option (nat * error));
  dx_trace : list (effect E);
}.
Arguments Duplex {E} _ _ _ _.
Arguments dx_client {E} _.
Arguments dx_upstream {E} _.
Arguments dx_faults {E} _.
Arguments dx_trace {E} _.

Section Duplex.
Context {E : Type}.

Definition client_read {A} (m : M reader A) : M (duplex E) A :=
  zoom dx_client (λ r w, Duplex r (dx_upstream w) (dx_faults w) (dx_trace w)) m.
Definition upstream_read {A} (m : M reader A) : M (duplex E) A :=
  zoom dx_upstream (λ r w, Duplex (dx_client w) r (dx_faults w) (dx_trace w)) m.

Definition emit (e : effect E) : M (duplex E) unit :=
  modify (λ w, Duplex (dx_client w) (dx_upstream w) (dx_faults w) (dx_trace w ++ [e])).

(** [conn.Write(b)]. *)
Definition write_to (side : bytes → effect E) (b : bytes) : M (duplex E) unit := λ w,
  match dx_faults w with
  | Some (k, e) :: fs =>
      (Err e, Duplex (dx_client w) (dx_upstream w) fs (dx_trace w ++ [side (take k b)]))
  | _ => (Ok tt, Duplex (dx_client w) (dx_upstream w) (tail (dx_faults w)) (dx_trace w ++ [side b]))
  end.
Definition client_write := write_to ToClient.
Definition upstream_write := write_to ToUpstream.
Definition enqueue (e : E) : M (duplex E) unit := emit (Enqueue e).
End Duplex.

(** * Consumption

    [consumes m]: a call only ever takes a prefix of the stream, whatever its
    outcome, and leaves the error at its end alone. *)
Definition consumed (r r' : reader) : Prop :=
  (∃ c, rd_buf r = c ++ rd_buf r') ∧ rd_end r' = rd_end r.

#[export] Instance consumed_preorder : PreOrder consumed.
Proof.
  split.
  - intros r. split; [by exists []|done].
  - intros r s t [[c Hc] He] [[d Hd] Hf]. split; [|congruence].
    exists (c ++ d). by rewrite Hc, Hd, app_assoc.
Qed.

Lemma consumed_length r r' : consumed r r' → (length (rd_buf r') <= length (rd_buf r))%nat.
Proof. intros [[c ->] _]. rewrite length_app. lia. Qed.

(** [exact m f]: when [m] succeeds with [a], it took exactly the bytes [f a]. *)
Definition exact {A} (m : M reader A) (f : A → bytes) : Prop :=
  ∀ r a r', m r = (Ok a, r') → rd_buf r = f a ++ rd_buf r' ∧ rd_end r' = rd_end r.

Lemma ReadByte_exact : exact ReadByte (λ b, [b]).
Proof. intros [[|b t] e] a r'; cbn; intros; simplify_eq; done. Qed.

Lemma ReadByte_keeps : keeps consumed ReadByte.
Proof.
  intros [[|b t] e]; [cbn; reflexivity|]. unfold ReadByte; cbn.
  split; [by exists [b]|done].
Qed.

Lemma ReadBytes_exact d : exact (ReadBytes d) (λ l, l).
Proof.
  intros r a r'. unfold ReadBytes. destruct (IndexByte _ _) as [n|]; [|done].
  intros [= <- <-]. split; [symmetry; apply take_drop|done].
Qed.

Lemma ReadBytes_keeps d : keeps consumed (ReadBytes d).
Proof.
  intros r. unfold ReadBytes. destruct (IndexByte _ _) as [n|] eqn:E.
  - split; [|done]. exists (take (S n) (rd_buf r)). symmetry. apply take_drop.
  - split; [|done]. exists (rd_buf r). by rewrite app_nil_r.
Qed.

(** A line read by [ReadBytes] ends with the delimiter. *)
Lemma ReadBytes_nonempty d r l r' : ReadBytes d r = (Ok l, r') → (0 < length l)%nat.
Proof.
  unfold ReadBytes. destruct (IndexByte (rd_buf r) d) as [n|] eqn:E; [|done].
  intros; simplify_eq. apply IndexByte_Some in E as (_ & Hl & _). rewrite length_take. lia.
Qed.

Lemma ReadFull_exact n : exact (ReadFull n) (λ l, l).
Proof.
  intros r a r'. unfold ReadFull. destruct (_ <=? _)%nat.
  - intros [= <- <-]. split; [symmetry; apply take_drop|done].
  - destruct (rd_buf r); done.
Qed.

Lemma ReadFull_length n r l r' :
  ReadFull n r = (Ok l, r') → length l = Z.to_nat n.
Proof.
  unfold ReadFull. destruct (_ <=? _)%nat eqn:E; [|destruct (rd_buf r); done].
  apply Nat.leb_le in E. intros; simplify_eq. rewrite length_take. lia.
Qed.

Lemma ReadFull_keeps n : keeps consumed (ReadFull n).
Proof.
  intros r. unfold ReadFull. destruct (_ <=? _)%nat.
  - split; [|done]. exists (take (Z.to_nat n) (rd_buf r)). symmetry. apply take_drop.
  - destruct (rd_buf r) as [|b t] eqn:E; cbn; [reflexivity|].
    split; [|done]. exists (rd_buf r). by rewrite app_nil_r.
Qed.

Lemma ReadFull_app n l t e :
  length l = Z.to_nat n → ReadFull n (Reader (l ++ t) e) = (Ok l, Reader t e).
Proof.
  intros H. unfold ReadFull; cbn [rd_buf]. rewrite <- H.
  rewrite (proj2 (Nat.leb_le _ _)) by (rewrite length_app; lia).
  by rewrite take_app_length, drop_app_length.
Qed.

Lemma ReadBytes_app d l t e :
  d ∉ l → ReadBytes d (Reader (l ++ d :: t) e) = (Ok (l ++ [d]), Reader t e).
Proof.
  intros H. unfold ReadBytes; cbn [rd_buf]. rewrite IndexByte_app_notin by done. cbn [rd_end].
  replace (l ++ d :: t) with ((l ++ [d]) ++ t) by (by rewrite <- app_assoc).
  rewrite take_app_length', drop_app_length' by (rewrite length_app; cbn; lia). done.
Qed.

#[export] Hint Resolve ReadByte_keeps ReadBytes_keeps ReadFull_keeps : keeps.

(** * Traces

    Everything a proxy does only appends to the trace. *)
Definition extends {E} (w w' : duplex E) : Prop :=
  ∃ t, dx_trace w' = dx_trace w ++ t.

#[export] Instance extends_preorder {E} : PreOrder (@extends E).
Proof.
  split.
  - intros w. exists []. by rewrite app_nil_r.
  - intros u v w [s Hs] [t Ht]. exists (s ++ t). by rewrite Ht, Hs, app_assoc.
Qed.

Lemma client_read_same {E A} (m : M reader A) (w : duplex E) :
  let '(o, w') := client_read m w in
  dx_trace w' = dx_trace w ∧ dx_upstream w' = dx_upstream w ∧ dx_faults w' = dx_faults w
  ∧ (o, dx_client w') = m (dx_client w).
Proof. unfold client_read, zoom. by destruct (m _). Qed.

Lemma upstream_read_same {E A} (m : M reader A) (w : duplex E) :
  let '(o, w') := upstream_read m w in
  dx_trace w' = dx_trace w ∧ dx_client w' = dx_client w ∧ dx_faults w' = dx_faults w
  ∧ (o, dx_upstream w') = m (dx_upstream w).
Proof. unfold upstream_read, zoom. by destruct (m _). Qed.
