(* ===== verification/Resp.v ===== *)
(** The RESP wire codec of the Redis proxy
    (apps/api/internal/redisproxy/server.go, [readRESPCommand] and below).

    A parser takes a [reader] and returns the raw bytes it took beside what it
    understood: the proxy forwards the raw bytes.  The recursion of
    [readRESPFrameFromPrefix] and its loop over children are bounded by the
    number of unread bytes, since every step takes one; [no_OutOfFuel] proves
    that the bound is never what stops the parser. *)
From S2P Require Import Prelude GoStrings GoIO.

Definition CRLF : bytes := map z2b [13; 10].
Definition byte_in (b : byte) (l : list byte) : bool := bool_decide (b ∈ l).

Definition readLineCRLF : M reader bytes := ReadBytes "010"%byte.

(** [make([]byte, n+2)] and [io.ReadFull] into it; [n+2] wraps at 64 bits. *)
Definition read_bulk (n : Z) : M reader bytes :=
  do! makeslice 1 (swrap 64 (n + 2)) in
  ReadFull (swrap 64 (n + 2)).

(** [for i := 0; i < n; i++] over [read], appending to [raw]. *)
Fixpoint read_children (read : M reader bytes) (fuel : nat) (n : Z) (raw : bytes) : M reader bytes :=
  match fuel with
  | O => nofuel
  | S f => if n <=? 0 then ret raw
           else let! child := read in read_children read f (n - 1) (raw ++ child)
  end.

Fixpoint frame_from_prefix (fuel : nat) (prefix : byte) : M reader bytes :=
  match fuel with
  | O => nofuel
  | S f =>
      let child := let! p := ReadByte in frame_from_prefix f p in
      let! line := readLineCRLF in
      let raw := prefix :: line in
      if byte_in prefix §"+-:,#_(" then ret raw
      else if byte_in prefix §"$!=" then
        match Atoi (TrimSuffix line CRLF) with
        | None => ret raw
        | Some n => if n <? 0 then ret raw
                    else let! payload := read_bulk n in ret (raw ++ payload)
        end
      else if byte_in prefix §"*~>" then
        match Atoi (TrimSuffix line CRLF) with
        | None => ret raw
        | Some n => if n <? 0 then ret raw
                    else let! r := get in read_children child (S (length (rd_buf r))) n raw
        end
      else if byte_in prefix §"%" then
        match Atoi (TrimSuffix line CRLF) with
        | None => ret raw
        | Some n => if n <? 0 then ret raw
                    else let! r := get in
                         read_children child (S (length (rd_buf r))) (swrap 64 (n * 2)) raw
        end
      else ret raw
  end.

Definition readRESPFrameFromPrefix (prefix : byte) : M reader bytes :=
  let! r := get in frame_from_prefix (S (length (rd_buf r))) prefix.

Definition readRESPFrameRaw : M reader bytes :=
  let! prefix := ReadByte in readRESPFrameFromPrefix prefix.

(** The raw bytes of an item of a command, and its value. *)
Definition readRESPValueForCommand (prefix : byte) : M reader (bytes * bytes) :=
  if bool_decide (prefix = "$"%byte) then
    let! line := readLineCRLF in
    let raw := prefix :: line in
    match Atoi (TrimSuffix line CRLF) with
    | None => ret (raw, [])
    | Some n => if n <? 0 then ret (raw, [])
                else let! payload := read_bulk n in
                     ret (raw ++ payload, take (Z.to_nat n) payload)
    end
  else if byte_in prefix §"+:" then
    let! line := readLineCRLF in
    ret (prefix :: line, TrimSuffix line CRLF)
  else let! raw := readRESPFrameFromPrefix prefix in ret (raw, []).

Fixpoint read_items (fuel : nat) (count : Z) (raw : bytes) (items : list bytes)
    : M reader (bytes * list bytes) :=
  match fuel with
  | O => nofuel
  | S f => if count <=? 0 then ret (raw, items)
           else let! p := ReadByte in
                let! (item_raw, value) := readRESPValueForCommand p in
                read_items f (count - 1) (raw ++ item_raw) (items ++ [value])
  end.

(** A client command: its raw bytes, its upper-cased name ([[]] when the input
    is not an array of values) and its arguments. *)
Record command := Command { c_raw : bytes; c_cmd : bytes; c_args : list bytes }.

Definition readRESPCommand `{Unicode} : M reader command :=
  let! prefix := ReadByte in
  if negb (bool_decide (prefix = "*"%byte)) then
    let! raw := readRESPFrameFromPrefix prefix in ret (Command raw [] [])
  else
    let! countLine := readLineCRLF in
    let other := ret (Command (prefix :: countLine) [] []) in
    match Atoi (TrimSuffix countLine CRLF) with
    | None => other
    | Some count =>
        if count <=? 0 then other else
        do! makeslice 16 count in
        let! r := get in
        let! (raw, items) := read_items (S (length (rd_buf r))) count (prefix :: countLine) [] in
        ret (Command raw (ToUpper (TrimSpace (default [] (head items)))) (map TrimSpace (tail items)))
    end.

Definition bulk (arg : bytes) : bytes := §"$" ++ Itoa (zlen arg) ++ CRLF ++ arg ++ CRLF.
Definition buildRESPCommand (args : list bytes) : bytes :=
  §"*" ++ Itoa (zlen args) ++ CRLF ++ concat (map bulk args).

Definition authCommandArgs (username password : bytes) : list bytes :=
  if negb (bool_decide (TrimSpace username = [])) then [§"AUTH"; username; password]
  else [§"AUTH"; password].

Definition isRESPError (raw : bytes) : bool :=
  match raw with b :: _ => bool_decide (b = "-"%byte) | [] => false end.
Definition firstRESPLineText (raw : bytes) : bytes :=
  match Index raw CRLF with
  | None => TrimSpace raw
  | Some idx => TrimSpace (take idx raw)
  end.
Definition extractClientAuthToken (args : list bytes) : bytes :=
  match args with
  | [] => []
  | [a] => TrimSpace a
  | _ => TrimSpace (default [] (last args))
  end.

(** * The parser returns what it takes

    [exact_from pre m]: a successful [m] returns [pre] followed by exactly the
    bytes it took from the stream. *)
Definition exact_from (pre : bytes) (m : M reader bytes) : Prop :=
  ∀ r out r', m r = (Ok out, r') →
    ∃ c, out = pre ++ c ∧ rd_buf r = c ++ rd_buf r' ∧ rd_end r' = rd_end r.

(** [progress m]: when [m] succeeds, it took at least one byte. *)
Definition progress {A} (m : M reader A) : Prop :=
  ∀ r a r', m r = (Ok a, r') → (length (rd_buf r') < length (rd_buf r))%nat.

(** [fuelled L m]: [m] does not run out of fuel on at most [L] unread bytes. *)
Definition fuelled {A} (L : nat) (m : M reader A) : Prop :=
  ∀ r, (length (rd_buf r) <= L)%nat → (m r).1 ≠ OutOfFuel.

Lemma exact_from_ret pre : exact_from pre (ret pre).
Proof. intros r out r' [= <- <-]. exists []. by rewrite app_nil_r. Qed.

Lemma exact_from_bind {A} pre (m : M reader A) f k :
  exact m f → (∀ a, exact_from (pre ++ f a) (k a)) → exact_from pre (bind m k).
Proof.
  intros Hm Hk r out r' H. apply bind_ok in H as (a & r1 & H1 & H2).
  apply Hm in H1 as [Hb He]. apply Hk in H2 as (c & -> & Hc & He').
  exists (f a ++ c). rewrite <- !app_assoc, <- Hc. by rewrite He'.
Qed.

Lemma makeslice_exact e n : exact (makeslice e n) (λ _, []).
Proof. intros r a r'. unfold makeslice. destruct (_ || _); [done|]. by intros [= <- <-]. Qed.

Lemma makeslice_keeps {S} (R : S → S → Prop) `{!PreOrder R} e n : keeps R (makeslice e n).
Proof. unfold makeslice. auto with keeps typeclass_instances. Qed.

Lemma read_bulk_exact n : exact (read_bulk n) (λ l, l).
Proof.
  intros r a r' H. apply bind_ok in H as (u & r1 & H1 & H2).
  apply makeslice_exact in H1 as [Hb He]. apply ReadFull_exact in H2 as [Hb' He'].
  rewrite Hb. cbn. by rewrite Hb', He'.
Qed.

Lemma exact_from_get pre k : (∀ r, exact_from pre (k r)) → exact_from pre (bind get k).
Proof. intros Hk r out r' H. by apply (Hk r r out r'). Qed.

Lemma read_children_exact read :
  exact read (λ l, l) → ∀ fuel n raw, exact_from raw (read_children read fuel n raw).
Proof.
  intros Hr fuel. induction fuel as [|f IH]; intros n raw; cbn [read_children]; [done|].
  destruct (n <=? 0); [apply exact_from_ret|]. by apply exact_from_bind with (λ l, l).
Qed.

Lemma frame_exact fuel p : exact_from [p] (frame_from_prefix fuel p).
Proof.
  revert p. induction fuel as [|f IH]; intros p; cbn [frame_from_prefix]; [done|].
  apply exact_from_bind with (λ l, l); [apply ReadBytes_exact|]. intros line. cbn [app].
  assert (Hchild : exact (let! q := ReadByte in frame_from_prefix f q) (λ l, l)).
  { intros r a r' H. apply bind_ok in H as (q & r1 & H1 & H2).
    apply ReadByte_exact in H1 as [Hb He]. apply IH in H2 as (c & -> & Hc & He').
    rewrite Hb. cbn. by rewrite Hc, He'. }
  repeat case_match; try apply exact_from_ret;
    try (apply exact_from_get; intros; by apply read_children_exact).
  apply exact_from_bind with (λ l, l); [apply read_bulk_exact|]. intros. apply exact_from_ret.
Qed.

Lemma readRESPFrameRaw_exact_lem : exact readRESPFrameRaw (λ l, l).
Proof.
  intros r a r' H. apply bind_ok in H as (q & r1 & H1 & H2).
  apply ReadByte_exact in H1 as [Hb He].
  apply (exact_from_get [q] _ (λ r, frame_exact (S (length (rd_buf r))) q)) in H2
    as (c & -> & Hc & He').
  rewrite Hb. cbn. by rewrite Hc, He'.
Qed.

Lemma value_exact p r raw v r' :
  readRESPValueForCommand p r = (Ok (raw, v), r') →
  ∃ c, raw = p :: c ∧ rd_buf r = c ++ rd_buf r' ∧ rd_end r' = rd_end r.
Proof.
  unfold readRESPValueForCommand. intros H. case_bool_decide; [|destruct (byte_in p _)].
  - apply bind_ok in H as (line & r1 & H1 & H). apply ReadBytes_exact in H1 as [Hb He].
    repeat case_match; try (injection H as <- <- <-; by exists line).
    apply bind_ok in H as (pl & r2 & Hpl & [= <- <- <-]).
    apply read_bulk_exact in Hpl as [Hb' He']. exists (line ++ pl).
    by rewrite Hb, Hb', <- app_assoc, He'.
  - apply bind_ok in H as (line & r1 & H1 & [= <- <- <-]).
    apply ReadBytes_exact in H1 as [Hb He]. by exists line.
  - apply bind_ok in H as (l & r1 & H1 & [= <- <- <-]).
    by apply (exact_from_get [p] _ (λ r, frame_exact (S (length (rd_buf r))) p)) in H1.
Qed.

Lemma items_exact fuel count raw items r out its r' :
  read_items fuel count raw items r = (Ok (out, its), r') →
  ∃ c, out = raw ++ c ∧ rd_buf r = c ++ rd_buf r' ∧ rd_end r' = rd_end r.
Proof.
  revert count raw items r. induction fuel as [|f IH]; intros count raw items r; cbn [read_items]; [done|].
  destruct (count <=? 0); [intros [= <- <- <-]; exists []; by rewrite app_nil_r|].
  intros H. apply bind_ok in H as (p & r1 & H1 & H). apply ReadByte_exact in H1 as [Hb He].
  apply bind_ok in H as ([ir v] & r2 & H2 & H). apply value_exact in H2 as (c1 & -> & Hc1 & He1).
  apply IH in H as (c & -> & Hc & He2). exists ((p :: c1) ++ c).
  rewrite <- !app_assoc, Hb, Hc1, Hc. cbn. by rewrite He2, He1, He.
Qed.

(** * No run out of fuel *)

Lemma fuelled_bind {A B} L (m : M reader A) (k : A → M reader B) :
  fuelled L m → keeps consumed m → (∀ a, fuelled L (k a)) → fuelled L (bind m k).
Proof.
  intros Hm Hc Hk r Hr. specialize (Hm r Hr). specialize (Hc r). unfold bind.
  destruct (m r) as [[a| | |] r1]; cbn in *; try done.
  apply Hk. apply consumed_length in Hc. lia.
Qed.

Lemma fuelled_bind_progress {A B} L (m : M reader A) (k : A → M reader B) :
  fuelled (S L) m → progress m → (∀ a, fuelled L (k a)) → fuelled (S L) (bind m k).
Proof.
  intros Hm Hp Hk r Hr. specialize (Hm r Hr). unfold bind.
  destruct (m r) as [[a| | |] r1] eqn:E; cbn in *; try done.
  apply Hk. apply Hp in E. lia.
Qed.

Lemma fuelled_ret {A} L (a : A) : fuelled L (ret a).
Proof. done. Qed.
Lemma fuelled_makeslice L e n : fuelled L (makeslice e n).
Proof. intros r _. unfold makeslice. by destruct (_ || _). Qed.
Lemma fuelled_ReadByte L : fuelled L ReadByte.
Proof. intros r _. unfold ReadByte. by destruct (rd_buf r). Qed.
Lemma fuelled_ReadBytes L d : fuelled L (ReadBytes d).
Proof. intros r _. unfold ReadBytes. by destruct (IndexByte _ _). Qed.
Lemma fuelled_ReadFull L n : fuelled L (ReadFull n).
Proof. intros r _. unfold ReadFull. destruct (_ <=? _)%nat; [done|]. by destruct (rd_buf r). Qed.
Lemma fuelled_read_bulk L n : fuelled L (read_bulk n).
Proof.
  apply fuelled_bind; [apply fuelled_makeslice|apply makeslice_keeps, _|].
  intros _. apply fuelled_ReadFull.
Qed.
Lemma fuelled_mono {A} L L' (m : M reader A) : fuelled L' m → (L <= L')%nat → fuelled L m.
Proof. intros H Hl r Hr. apply H. lia. Qed.

(** A parser started with more fuel than unread bytes, [get]ting its fuel. *)
Lemma fuelled_get {A} L (k : reader → M reader A) :
  (∀ r, (length (rd_buf r) <= L)%nat → (k r r).1 ≠ OutOfFuel) → fuelled L (bind get k).
Proof. intros H r Hr. by apply H. Qed.

Lemma progress_ReadByte : progress ReadByte.
Proof. intros r a r' H. apply ReadByte_exact in H as [-> _]. cbn. lia. Qed.
Lemma progress_ReadBytes d : progress (ReadBytes d).
Proof.
  intros r a r' H. pose proof (ReadBytes_nonempty _ _ _ _ H).
  apply ReadBytes_exact in H as [-> _]. rewrite length_app. lia.
Qed.
Lemma progress_bind {A B} (m : M reader A) (k : A → M reader B) :
  progress m → (∀ a r b r', k a r = (Ok b, r') → (length (rd_buf r') <= length (rd_buf r))%nat) →
  progress (bind m k).
Proof.
  intros Hm Hk r b r' H. apply bind_ok in H as (a & r1 & H1 & H2).
  apply Hm in H1. apply Hk in H2. lia.
Qed.

#[local] Hint Resolve fuelled_ret fuelled_makeslice fuelled_ReadByte fuelled_ReadBytes
  fuelled_ReadFull fuelled_read_bulk progress_ReadByte progress_ReadBytes : keeps.

Lemma fuelled_children read fuel n raw L :
  progress read → fuelled L read → (L < fuel)%nat →
  fuelled L (read_children read fuel n raw).
Proof.
  intros Hp. revert n raw L. induction fuel as [|f IH]; intros n raw L Hf Hl; [lia|].
  cbn [read_children]. destruct (n <=? 0); [done|].
  destruct L as [|L'].
  - intros r Hr. unfold bind. destruct (read r) as [[a| | |] r1] eqn:E; cbn; try done.
    + apply Hp in E. lia.
    + specialize (Hf r Hr). by rewrite E in Hf.
  - apply fuelled_bind_progress; try done. intros a. apply IH; [|lia].
    apply fuelled_mono with (S L'); [done|lia].
Qed.

Lemma frame_progress f : progress (let! q := ReadByte in frame_from_prefix f q).
Proof.
  apply progress_bind; [apply progress_ReadByte|]. intros q r b r' H.
  apply frame_exact in H as (c & _ & -> & _). rewrite length_app. lia.
Qed.

Lemma frame_fuelled fuel p L : (L < fuel)%nat → fuelled L (frame_from_prefix fuel p).
Proof.
  revert p L. induction fuel as [|f IH]; intros p L Hl; [lia|]. cbn [frame_from_prefix].
  destruct L as [|L'].
  { intros r Hr. destruct (rd_buf r) eqn:E; [|cbn in Hr; lia].
    unfold bind, readLineCRLF, ReadBytes. by rewrite E. }
  apply fuelled_bind_progress; [apply fuelled_ReadBytes|apply progress_ReadBytes|].
  intros line.
  assert (Hchild : fuelled L' (let! q := ReadByte in frame_from_prefix f q)).
  { apply fuelled_bind; [apply fuelled_ReadByte|apply ReadByte_keeps|]. intros q. apply IH. lia. }
  repeat case_match; try done;
    try (apply fuelled_get; intros r Hr; eapply fuelled_children with (L := length (rd_buf r));
         [apply frame_progress|by eapply fuelled_mono|lia|done]).
  apply fuelled_bind; [apply fuelled_read_bulk|intros r; unfold read_bulk|done].
  apply keeps_bind; [apply _|apply makeslice_keeps, _|intros; apply ReadFull_keeps].
Qed.

Lemma readRESPFrameFromPrefix_fuelled p L : fuelled L (readRESPFrameFromPrefix p).
Proof. apply fuelled_get. intros r Hr. apply frame_fuelled with (L := length (rd_buf r)); lia. Qed.

Lemma value_fuelled p L : fuelled L (readRESPValueForCommand p).
Proof.
  unfold readRESPValueForCommand, readLineCRLF. case_bool_decide; [|destruct (byte_in p _)].
  - apply fuelled_bind; [auto with keeps..|]. intros line. repeat case_match; try done.
    intros r Hr. unfold bind. pose proof (fuelled_read_bulk L z r Hr) as Hb.
    by destruct (read_bulk z r) as [[]?].
  - apply fuelled_bind; auto with keeps.
  - intros r Hr. pose proof (readRESPFrameFromPrefix_fuelled p L r Hr) as Hb. unfold bind.
    by destruct (readRESPFrameFromPrefix p r) as [[]?].
Qed.

Lemma items_fuelled fuel count raw items L :
  (L < fuel)%nat → fuelled L (read_items fuel count raw items).
Proof.
  revert count raw items L. induction fuel as [|f IH]; intros count raw items L Hl; [lia|].
  cbn [read_items]. destruct (count <=? 0); [done|].
  destruct L as [|L'].
  { intros r Hr. destruct (rd_buf r) eqn:E; [|cbn in Hr; lia]. unfold bind, ReadByte. by rewrite E. }
  apply fuelled_bind_progress; [auto with keeps..|]. intros p r Hr. unfold bind.
  pose proof (value_fuelled p L' r Hr) as Hv.
  destruct (readRESPValueForCommand p r) as [[[ir v]| | |] r1] eqn:E; try done.
  apply value_exact in E as (c & -> & Hc & _).
  apply (IH _ _ _ L'); [lia|]. rewrite Hc, length_app in Hr. lia.
Qed.

Section Command.
Context `{Unicode}.

(** The parser gives the proxy exactly the bytes it took off the client's
    stream, the first one at least: what is forwarded is what was sent. *)
Lemma command_raw r c r' :
  readRESPCommand r = (Ok c, r') →
  ∃ p d, c_raw c = p :: d ∧ rd_buf r = (p :: d) ++ rd_buf r' ∧ rd_end r' = rd_end r.
Proof.
  intros Hr. apply bind_ok in Hr as (p & r1 & H1 & Hr).
  apply ReadByte_exact in H1 as [Hb He]. exists p. rewrite Hb.
  destruct (negb _).
  - apply bind_ok in Hr as (raw & r2 & H2 & [= <- <-]).
    apply (exact_from_get [p] _ (λ r, frame_exact (S (length (rd_buf r))) p)) in H2
      as (d & -> & Hd & Hd'). exists d. cbn. by rewrite Hd, Hd'.
  - apply bind_ok in Hr as (line & r2 & H2 & Hr). apply ReadBytes_exact in H2 as [Hb2 He2].
    destruct (Atoi _) as [n|]; [destruct (n <=? 0)|];
      [exists line; injection Hr as <- <-; cbn; by rewrite Hb2, He2| |
       exists line; injection Hr as <- <-; cbn; by rewrite Hb2, He2].
    apply bind_ok in Hr as (u & r3 & H3 & Hr). apply makeslice_exact in H3 as [Hb3 He3].
    apply bind_ok in Hr as (s & r4 & [= <- <-] & Hr).
    apply bind_ok in Hr as ([raw its] & r5 & H5 & [= <- <-]).
    apply items_exact in H5 as (d & -> & Hd & Hd'). exists (line ++ d). cbn in *.
    by rewrite Hb2, Hb3, Hd, <- app_assoc, Hd', He3, He2.
Qed.

Lemma command_exact : exact readRESPCommand c_raw.
Proof. intros r c r' Hr. by apply command_raw in Hr as (p & d & -> & Hb & He). Qed.

Lemma command_progress : progress readRESPCommand.
Proof.
  intros r c r' Hr. apply command_raw in Hr as (p & d & _ & -> & _).
  cbn. rewrite length_app. lia.
Qed.

Lemma command_fuelled L : fuelled L readRESPCommand.
Proof.
  apply fuelled_bind; [auto with keeps..|]. intros p. destruct (negb _).
  - intros r Hr. pose proof (readRESPFrameFromPrefix_fuelled p L r Hr) as Hb. unfold bind.
    by destruct (readRESPFrameFromPrefix p r) as [[]?].
  - apply fuelled_bind; [apply fuelled_ReadBytes|apply ReadBytes_keeps|]. intros line.
    repeat case_match; try done.
    apply fuelled_bind; [auto with keeps|apply makeslice_keeps, _|]. intros _ r Hr.
    unfold bind at 1, get. unfold bind.
    pose proof (items_fuelled (S (length (rd_buf r))) z (p :: line) [] (length (rd_buf r))
                  ltac:(lia) r ltac:(lia)) as Hi.
    by destruct (read_items _ _ _ _ r) as [[[]| | |]?].
Qed.

(** * Round trip with [buildRESPCommand] *)

Definition arg_fits (a : bytes) : Prop := zlen a + 2 <= max_alloc.

Lemma zlen_CRLF : zlen CRLF = 2.
Proof. done. Qed.

Lemma lf_notin_count n : 0 <= n → "010"%byte ∉ Itoa n ++ ["013"%byte].
Proof.
  intros Hn Hin. apply elem_of_app in Hin as [Hin|Hin].
  - by apply Itoa_notin in Hin.
  - apply list_elem_of_singleton in Hin. discriminate.
Qed.

Lemma count_line n t e :
  0 <= n → readLineCRLF (Reader (Itoa n ++ CRLF ++ t) e) = (Ok (Itoa n ++ CRLF), Reader t e).
Proof.
  intros Hn. unfold readLineCRLF.
  replace (Itoa n ++ CRLF ++ t) with ((Itoa n ++ ["013"%byte]) ++ "010"%byte :: t)
    by (by rewrite <- app_assoc).
  rewrite ReadBytes_app by by apply lf_notin_count. by rewrite <- app_assoc.
Qed.

Lemma count_value n : 0 <= n <= max_int64 → Atoi (TrimSuffix (Itoa n ++ CRLF) CRLF) = Some n.
Proof. intros Hn. rewrite TrimSuffix_app. apply Atoi_Itoa. unfold min_int64, max_int64 in *. lia. Qed.

Lemma makeslice_ok {S} k n : 0 <= n → k * n <= max_alloc → makeslice (S:=S) k n = ret tt.
Proof.
  intros. unfold makeslice. by rewrite !(proj2 (Z.ltb_ge _ _)) by lia.
Qed.

Lemma read_bulk_app n l t e :
  zlen l = n + 2 → n + 2 <= max_alloc →
  read_bulk n (Reader (l ++ t) e) = (Ok l, Reader t e).
Proof.
  intros Hl Hm. pose proof (zlen_nonneg l). unfold max_alloc in *.
  unfold read_bulk. rewrite swrap_small by lia. rewrite makeslice_ok by (unfold max_alloc; lia).
  unfold bind, ret. apply ReadFull_app. unfold zlen in Hl. lia.
Qed.

Lemma makeslice_panics n (r : reader) :
  max_alloc < n + 2 → n <= max_int64 →
  makeslice 1 (swrap 64 (n + 2)) r = (Panic §"runtime error: makeslice: len out of range", r).
Proof.
  intros Hn Hm. unfold makeslice. destruct (_ || _) eqn:E; [done|exfalso].
  apply orb_false_iff in E as [E1 E2]. gobool.
  unfold swrap, max_alloc, max_int64 in *. change (64 - 1) with 63 in *.
  destruct (Z.le_gt_cases (n + 2) (2 ^ 63 - 1)).
  - rewrite Z.mod_small in E2 by lia. lia.
  - replace (n + 2 + 2 ^ 63) with ((n + 2 - 2 ^ 63) + 1 * 2 ^ 64) in E1 by lia.
    rewrite Z.mod_add, Z.mod_small in E1 by lia. lia.
Qed.

Lemma value_oversized n t e :
  max_alloc < n + 2 → n <= max_int64 →
  (readRESPValueForCommand "$"%byte (Reader (Itoa n ++ CRLF ++ t) e)).1
  = Panic §"runtime error: makeslice: len out of range".
Proof.
  intros Hn Hm. assert (0 <= n) by (unfold max_alloc in *; lia).
  unfold readRESPValueForCommand. rewrite bool_decide_true by done.
  unfold bind at 1. rewrite count_line by lia. rewrite count_value by lia.
  rewrite (proj2 (Z.ltb_ge _ _)) by lia. unfold bind at 1, read_bulk, bind at 1.
  by rewrite makeslice_panics.
Qed.

Lemma value_bulk a t e :
  arg_fits a →
  readRESPValueForCommand "$"%byte (Reader (Itoa (zlen a) ++ CRLF ++ a ++ CRLF ++ t) e)
  = (Ok (bulk a, a), Reader t e).
Proof.
  intros Ha. pose proof (zlen_nonneg a). unfold arg_fits, max_alloc in Ha.
  unfold readRESPValueForCommand. rewrite bool_decide_true by done.
  unfold bind at 1. rewrite count_line by lia.
  rewrite count_value by (unfold max_int64; lia).
  rewrite (proj2 (Z.ltb_ge _ _)) by lia. unfold bind. rewrite (app_assoc a).
  rewrite read_bulk_app by (rewrite ?zlen_app, ?zlen_CRLF; unfold max_alloc; lia).
  unfold ret, bulk. unfold zlen. rewrite Nat2Z.id, take_app_length. cbn. by rewrite <- app_assoc.
Qed.

Lemma items_bulk fuel args raw items t e :
  Forall arg_fits args → (length args < fuel)%nat →
  read_items fuel (zlen args) raw items (Reader (concat (map bulk args) ++ t) e)
  = (Ok (raw ++ concat (map bulk args), items ++ args), Reader t e).
Proof.
  revert fuel raw items. induction args as [|a args IH]; intros fuel raw items Hf Hl.
  { destruct fuel; [lia|]. cbn. by rewrite !app_nil_r. }
  destruct fuel as [|f]; [lia|]. cbn [read_items]. rewrite zlen_cons.
  pose proof (zlen_nonneg args). rewrite (proj2 (Z.leb_gt _ _)) by lia.
  inversion Hf; subst. cbn [map concat].
  replace ((bulk a ++ concat (map bulk args)) ++ t)
    with ("$"%byte :: Itoa (zlen a) ++ CRLF ++ a ++ CRLF ++ (concat (map bulk args) ++ t))
    by (unfold bulk; rewrite <- !app_assoc; done).
  unfold bind at 1, ReadByte; cbn [rd_buf rd_end]. unfold bind. rewrite value_bulk by done.
  replace (1 + zlen args - 1) with (zlen args) by lia.
  rewrite IH by (done || (cbn in Hl; lia)). by rewrite <- !app_assoc.
Qed.

Lemma command_roundtrip a args t e :
  Forall arg_fits (a :: args) → 16 * zlen (a :: args) <= max_alloc →
  readRESPCommand (Reader (buildRESPCommand (a :: args) ++ t) e)
  = (Ok (Command (buildRESPCommand (a :: args)) (ToUpper (TrimSpace a)) (map TrimSpace args)),
     Reader t e).
Proof.
  intros Hf Hm. set (l := a :: args) in *. unfold readRESPCommand, buildRESPCommand.
  assert (Hl : 1 <= zlen l) by (unfold l; rewrite zlen_cons; pose proof (zlen_nonneg args); lia).
  rewrite <- !app_assoc. change (§"*") with ["*"%byte]. cbn [app].
  unfold bind at 1, ReadByte; cbn [rd_buf rd_end]. rewrite bool_decide_true by done. cbn [negb].
  unfold bind at 1. rewrite count_line by lia.
  rewrite count_value by (unfold max_int64, max_alloc in *; lia).
  rewrite (proj2 (Z.leb_gt _ _)) by lia. rewrite makeslice_ok by lia.
  unfold bind at 1, ret. unfold bind at 1, get. unfold bind. rewrite items_bulk.
  - cbn. by rewrite <- app_assoc.
  - done.
  - cbn [rd_buf]. rewrite length_app.
    assert ((length l <= length (concat (map bulk l)))%nat); [|lia].
    clear. induction l as [|x l IH]; cbn; [lia|]. rewrite !length_app. lia.
Qed.
End Command.

Lemma fuelled_readRESPFrameRaw L : fuelled L readRESPFrameRaw.
Proof.
  apply fuelled_bind; [auto with keeps..|]. intros p. apply readRESPFrameFromPrefix_fuelled.
Qed.

(** * Properties *)

#[local] Existing Instance ascii_tables.

(** Whatever the client sends, when [readRESPCommand] or
    [readRESPFrameRaw] accepts it, the raw bytes it returns are exactly the
    bytes it took off the connection: nothing is lost, duplicated or altered
    between what is parsed (and audited) and what is forwarded. *)
Theorem resp_readers_transparent `{Unicode} r r' :
  (∀ c, readRESPCommand r = (Ok c, r') → rd_buf r = c_raw c ++ rd_buf r' ∧ rd_end r' = rd_end r)
  ∧ (∀ raw, readRESPFrameRaw r = (Ok raw, r') → rd_buf r = raw ++ rd_buf r' ∧ rd_end r' = rd_end r).
Proof. split; intros x Hx; [by apply command_exact in Hx|by apply readRESPFrameRaw_exact_lem in Hx]. Qed.

(** C38. Both readers end on every input: they return a value, an error or a
    panic, and the model's bound on nesting and on loop counts (the number of
    unread bytes) is never what stops them, although the counts a client may
    announce go up to 2^63. *)
Theorem resp_readers_total `{Unicode} r :
  (readRESPCommand r).1 ≠ OutOfFuel ∧ (readRESPFrameRaw r).1 ≠ OutOfFuel.
Proof.
  split; [by apply (command_fuelled (length (rd_buf r)))|].
  by apply (fuelled_readRESPFrameRaw (length (rd_buf r))).
Qed.

(** [readRESPCommand] inverts [buildRESPCommand]: a command built from
    arguments of any bytes (CR, LF and empty ones included) is read back with
    its raw text, its upper-cased name and its trimmed arguments, and the rest
    of the stream is left for the next command. *)
Theorem readRESPCommand_buildRESPCommand `{Unicode} a args t e :
  Forall arg_fits (a :: args) → 16 * zlen (a :: args) <= max_alloc →
  readRESPCommand (Reader (buildRESPCommand (a :: args) ++ t) e)
  = (Ok (Command (buildRESPCommand (a :: args)) (ToUpper (TrimSpace a)) (map TrimSpace args)),
     Reader t e).
Proof. apply command_roundtrip. Qed.

Lemma readRESPCommand_buildRESPCommand_witness :
  Forall arg_fits [§"set"; §"k"; z2b 13 :: z2b 10 :: §"v"]
  ∧ readRESPCommand (Reader (buildRESPCommand [§"set"; §"k"; z2b 13 :: z2b 10 :: §"v"] ++ §"*1") io_EOF)
    = (Ok (Command (buildRESPCommand [§"set"; §"k"; z2b 13 :: z2b 10 :: §"v"]) §"SET" [§"k"; §"v"]),
       Reader §"*1" io_EOF).
Proof.
  assert (Hf : Forall arg_fits [§"set"; §"k"; z2b 13 :: z2b 10 :: §"v"])
    by (repeat constructor; by vm_compute).
  split; [exact Hf|].
  rewrite (@readRESPCommand_buildRESPCommand ascii_tables _ _ _ _ Hf) by (by vm_compute).
  by vm_compute.
Defined.

(** C39. A length the allocator refuses ends in a run-time panic, not in an
    error: a one-item command whose bulk length [n] has [n + 2] above what can
    be allocated (or past the int64 range, where [n + 2] wraps to a negative
    length) panics in [make([]byte, n+2)]. *)
Theorem oversized_bulk_panics `{Unicode} n t e :
  max_alloc < n + 2 → n <= max_int64 →
  (readRESPCommand (Reader (§"*1" ++ CRLF ++ §"$" ++ Itoa n ++ CRLF ++ t) e)).1
  = Panic §"runtime error: makeslice: len out of range".
Proof.
  intros Hn Hm. pose proof (value_oversized n t e Hn Hm) as Hv. unfold max_alloc in Hn.
  replace (§"*1" ++ CRLF ++ §"$" ++ Itoa n ++ CRLF ++ t)
    with ("*"%byte :: Itoa 1 ++ CRLF ++ "$"%byte :: Itoa n ++ CRLF ++ t) by done.
  unfold readRESPCommand. unfold bind at 1, ReadByte; cbn [rd_buf rd_end].
  rewrite bool_decide_true by done. cbn [negb]. unfold bind at 1. rewrite count_line by lia.
  rewrite count_value by (unfold max_int64; lia). cbn [Z.leb Z.compare].
  rewrite makeslice_ok by done. unfold bind, ret, get. cbn [read_items length rd_buf].
  cbn [Z.leb Z.compare]. unfold bind, ReadByte; cbn [rd_buf rd_end].
  by destruct (readRESPValueForCommand _ _) as [[]?]; simplify_eq/=.
Qed.

Lemma oversized_bulk_panics_witness :
  max_alloc < max_int64 + 2
  ∧ (readRESPCommand (Reader (§"*1" ++ CRLF ++ §"$" ++ Itoa max_int64 ++ CRLF ++ []) io_EOF)).1
    = Panic §"runtime error: makeslice: len out of range".
Proof. split; [done|]. apply (@oversized_bulk_panics ascii_tables max_int64 [] io_EOF); by vm_compute. Defined.
