(* ===== verification/Lifecycle.v ===== *)
(** The life cycle of a proxy's session listeners and of its log queue.

    The SQL and Redis proxies share this code almost line for line (the mapped
    lines are those of apps/api/internal/mysqlproxy/server.go; redisproxy has the same under the
    same names): [RegisterSession] binds a listener to a session and starts a
    [serveSession] goroutine; each accepted connection runs in a goroutine that
    may enqueue log events; a worker drains the queue; [Shutdown] closes it
    all.  The goroutines interleave at the granularity of the critical sections
    of [s.mu] and of single channel and listener operations, each a [label]. *)
From S2P Require Import Prelude.

Section Model.
Context {E : Type}.

(** Where a [serveSession] goroutine is: in the accept loop, or past it and
    waiting for its connections. *)
Inductive phase := Serving | Draining.

#[export] Instance phase_eq_dec : EqDecision phase.
Proof. solve_decision. Defined.

Record server := Server { sv_session : bytes; sv_phase : phase }.

(** [Service], with the channel, the goroutines and the sockets it owns.
    Listeners and connections are numbered. *)
Record state := State {
  st_listeners : gmap bytes nat;
  st_open : gset nat;
  st_servers : gmap nat server;
  st_active : gmap nat nat;      (* connection -> its listener *)
  st_closed : bool;
  st_cap : nat;
  st_queue : list E;
  st_queue_closed : bool;
  st_senders : list E;           (* enqueue calls between check and send *)
  st_written : list E;           (* events the worker took *)
  st_closing : list nat;         (* listeners Shutdown has still to close *)
  st_next : nat;
  st_panicked : bool;
}.

Definition init (cap : nat) : state :=
  State ∅ ∅ ∅ ∅ false cap [] false [] [] [] 0 false.

Inductive label :=
| LRegister (sid : bytes) (listen_ok : bool)
| LAccept (ln : nat)
| LAcceptError (ln : nat)
| LMaxAge (ln : nat)
| LConnDone (c : nat)
| LServerExit (ln : nat)
| LEnqueueCheck (e : E)
| LEnqueueSend (i : nat)
| LWorker
| LShutdown
| LShutdownClose.

Definition close_listener (ln : nat) (o : gset nat) : gset nat := o ∖ {[ln]}.

(** [RegisterSession] from [s.mu.Lock()] on; [None] is the error "shutting
    down". *)
Definition register (sid : bytes) (listen_ok : bool) (s : state) : option state :=
  if st_closed s then None else
  let o := match st_listeners s !! sid with
           | Some old => close_listener old (st_open s)
           | None => st_open s
           end in
  let ls := delete sid (st_listeners s) in
  Some (if listen_ok then
    State (<[sid := st_next s]> ls) ({[st_next s]} ∪ o)
          (<[st_next s := Server sid Serving]> (st_servers s)) (st_active s)
          (st_closed s) (st_cap s) (st_queue s) (st_queue_closed s) (st_senders s)
          (st_written s) (st_closing s) (S (st_next s)) (st_panicked s)
  else
    State ls o (st_servers s) (st_active s) (st_closed s) (st_cap s) (st_queue s)
          (st_queue_closed s) (st_senders s) (st_written s) (st_closing s) (st_next s)
          (st_panicked s)).

(** [unregister]. *)
Definition unregister (sid : bytes) (s : state) : state :=
  match st_listeners s !! sid with
  | None => s
  | Some ln =>
      State (delete sid (st_listeners s)) (close_listener ln (st_open s)) (st_servers s)
            (st_active s) (st_closed s) (st_cap s) (st_queue s) (st_queue_closed s)
            (st_senders s) (st_written s) (st_closing s) (st_next s) (st_panicked s)
  end.

Definition with_sockets (s : state) (o : gset nat) (sv : gmap nat server) (ac : gmap nat nat) (next : nat) : state :=
  State (st_listeners s) o sv ac (st_closed s) (st_cap s) (st_queue s) (st_queue_closed s)
        (st_senders s) (st_written s) (st_closing s) next (st_panicked s).

Definition with_queue (s : state) (q sd wr : list E) (p : bool) : state :=
  State (st_listeners s) (st_open s) (st_servers s) (st_active s) (st_closed s) (st_cap s) q
        (st_queue_closed s) sd wr (st_closing s) (st_next s) p.

(** [serveSession]: accepting a connection ([trackConn]) ... *)
Definition accept (ln : nat) (s : state) : option state :=
  match st_servers s !! ln with
  | Some (Server _ Serving) =>
      if bool_decide (ln ∈ st_open s)
      then Some (with_sockets s (st_open s) (st_servers s)
                   (<[st_next s := ln]> (st_active s)) (S (st_next s)))
      else None
  | _ => None
  end.

(** ... failing to, which ends the loop ... *)
Definition accept_error (ln : nat) (s : state) : option state :=
  match st_servers s !! ln with
  | Some (Server sid Serving) =>
      Some (with_sockets s (st_open s) (<[ln := Server sid Draining]> (st_servers s))
              (st_active s) (st_next s))
  | _ => None
  end.

(** ... and its deferred calls once its connections are done: [ln.Close()],
    then [s.unregister(reg.SessionID)]. *)
Definition server_exit (ln : nat) (s : state) : option state :=
  match st_servers s !! ln with
  | Some (Server sid Draining) =>
      if forallb (λ p, negb (snd p =? ln)%nat) (map_to_list (st_active s))
      then Some (unregister sid
             (with_sockets s (close_listener ln (st_open s)) (delete ln (st_servers s))
                (st_active s) (st_next s)))
      else None
  | _ => None
  end.

(** [enqueueQueryLog]: the check of [s.closed] under the mutex ... *)
Definition enqueue_check (e : E) (s : state) : option state :=
  Some (if st_closed s then s
        else with_queue s (st_queue s) (st_senders s ++ [e]) (st_written s) (st_panicked s)).

(** ... and the non-blocking send after it, by any of the goroutines that
    passed the check: it panics on a closed channel and drops the event when
    the channel is full. *)
Definition enqueue_send (i : nat) (s : state) : option state :=
  match st_senders s !! i with
  | None => None
  | Some e =>
      let sd := delete i (st_senders s) in
      Some (if st_queue_closed s then with_queue s (st_queue s) sd (st_written s) true
            else if (length (st_queue s) <? st_cap s)%nat
            then with_queue s (st_queue s ++ [e]) sd (st_written s) (st_panicked s)
            else with_queue s (st_queue s) sd (st_written s) (st_panicked s))
  end.

(** [queryLogWorker]: one receive. *)
Definition worker (s : state) : option state :=
  match st_queue s with
  | [] => None
  | e :: q => Some (with_queue s q (st_senders s) (st_written s ++ [e]) (st_panicked s))
  end.

(** [Shutdown] up to [s.mu.Unlock()]. *)
Definition shutdown (s : state) : option state :=
  Some (if st_closed s then s else
    State ∅ (st_open s) (st_servers s) (st_active s) true (st_cap s) (st_queue s) true
          (st_senders s) (st_written s) (map snd (map_to_list (st_listeners s)))
          (st_next s) (st_panicked s)).

Definition shutdown_close (s : state) : option state :=
  match st_closing s with
  | [] => None
  | ln :: rest =>
      Some (State (st_listeners s) (close_listener ln (st_open s)) (st_servers s) (st_active s)
              (st_closed s) (st_cap s) (st_queue s) (st_queue_closed s) (st_senders s)
              (st_written s) rest (st_next s) (st_panicked s))
  end.

(** One step; [None] when the label is not enabled. *)
Definition step (l : label) (s : state) : option state :=
  if st_panicked s then None else
  match l with
  | LRegister sid ok => register sid ok s
  | LAccept ln => accept ln s
  | LAcceptError ln => accept_error ln s
  | LMaxAge ln => Some (with_sockets s (close_listener ln (st_open s)) (st_servers s)
                          (st_active s) (st_next s))
  | LConnDone c => Some (with_sockets s (st_open s) (st_servers s) (delete c (st_active s)) (st_next s))
  | LServerExit ln => server_exit ln s
  | LEnqueueCheck e => enqueue_check e s
  | LEnqueueSend i => enqueue_send i s
  | LWorker => worker s
  | LShutdown => shutdown s
  | LShutdownClose => shutdown_close s
  end.

Fixpoint run (ls : list label) (s : state) : option state :=
  match ls with
  | [] => Some s
  | l :: ls' => s' ← step l s; run ls' s'
  end.

Definition reachable (cap : nat) (ls : list label) (s : state) : Prop := run ls (init cap) = Some s.

(** The events whose [enqueueQueryLog] was called, in order. *)
Definition enqueued (ls : list label) : list E :=
  omap (λ l, match l with LEnqueueCheck e => Some e | _ => None end) ls.
End Model.

Arguments state E : clear implicits.
Arguments label E : clear implicits.

(** * Invariant *)

Section Invariant.
Context {E : Type}.
Implicit Types s : state E.

(** [inv_for P]: the invariant, with the listeners of the sessions outside [P]
    not known to be served (a server deletes itself before it unregisters). *)
Record inv_for (P : bytes → Prop) s : Prop := {
  inv_bound : (length (st_queue s) <= st_cap s)%nat;
  inv_closed : st_queue_closed s = st_closed s;
  inv_shut : st_closed s = true → st_listeners s = ∅;
  inv_idle : st_closed s = false → st_closing s = [];
  inv_served : ∀ sid ln, P sid → st_listeners s !! sid = Some ln →
    ∃ ph, st_servers s !! ln = Some (Server sid ph);
  inv_open : ∀ ln, ln ∈ st_open s →
    (∃ sid, st_listeners s !! sid = Some ln) ∨ ln ∈ st_closing s;
  inv_fresh : ∀ ln, is_Some (st_servers s !! ln) → (ln < st_next s)%nat;
  inv_panic : st_panicked s = true → st_closed s = true;
}.

Definition inv := inv_for (λ _, True).

Lemma inv_init cap : inv (init cap).
Proof.
  constructor; cbn; try done; try lia.
  intros ln [v Hv]. by rewrite lookup_empty in Hv.
Qed.

(** [with_queue] leaves the sockets alone, [with_sockets] the queue. *)
Lemma inv_with_queue s q sd wr p :
  inv s → (length q <= st_cap s)%nat → (p = true → st_closed s = true) →
  inv (with_queue s q sd wr p).
Proof. intros [] Hq Hp. by constructor. Qed.

Lemma inv_with_sockets (P : bytes → Prop) s o sv ac n :
  inv s → o ⊆ st_open s →
  (∀ sid ln, P sid → st_listeners s !! sid = Some ln → ∃ ph, sv !! ln = Some (Server sid ph)) →
  (∀ ln, is_Some (sv !! ln) → (ln < n)%nat) →
  inv_for P (with_sockets s o sv ac n).
Proof. intros [] Ho Hsv Hn. constructor; cbn; auto. Qed.

Lemma close_listener_subset ln (o : gset nat) : close_listener ln o ⊆ o.
Proof. unfold close_listener. intros x. rewrite elem_of_difference. by intros [? _]. Qed.

(** Closing what a session has registered and dropping the entry leaves every
    open listener accounted for. *)
Lemma open_after_close s sid l0 ln :
  (ln ∈ st_open s → (∃ sid, st_listeners s !! sid = Some ln) ∨ ln ∈ st_closing s) →
  st_listeners s !! sid = Some l0 → ln ∈ close_listener l0 (st_open s) →
  (∃ sid', delete sid (st_listeners s) !! sid' = Some ln) ∨ ln ∈ st_closing s.
Proof.
  unfold close_listener. rewrite elem_of_difference, elem_of_singleton. intros Ho El [Hin Hne].
  destruct (Ho Hin) as [[sid' Hs']|?]; [left|by right].
  exists sid'. apply lookup_delete_Some. split; [congruence|done].
Qed.

Lemma inv_unregister s sid : inv_for (λ x, x ≠ sid) s → inv (unregister sid s).
Proof.
  intros []. unfold unregister. destruct (st_listeners s !! sid) as [l0|] eqn:El.
  - constructor; cbn; auto.
    + intros Hc. by rewrite inv_shut0 in El.
    + intros sid' ln' _. rewrite lookup_delete_Some. intros [? ?]. auto.
    + intros ln' Hin. exact (open_after_close s sid l0 ln' (inv_open0 ln') El Hin).
  - constructor; auto. intros sid' ln' _ Hl. apply inv_served0; congruence.
Qed.

Lemma inv_register s sid ok s' : inv s → register sid ok s = Some s' → inv s'.
Proof.
  intros [] H. unfold register in H. destruct (st_closed s) eqn:Ec; [done|].
  assert (Ho : ∀ ln, ln ∈ match st_listeners s !! sid with
                 | Some old => close_listener old (st_open s) | None => st_open s end →
             (∃ sid', delete sid (st_listeners s) !! sid' = Some ln) ∨ ln ∈ st_closing s).
  { intros ln Hin. destruct (st_listeners s !! sid) as [old|] eqn:El;
      [exact (open_after_close s sid old ln (inv_open0 ln) El Hin)|].
    destruct (inv_open0 ln Hin) as [[sid' Hs]|?]; [|by right].
    left. exists sid'. apply lookup_delete_Some. split; [congruence|done]. }
  destruct ok; injection H as <-; constructor; cbn; auto; try congruence.
  - intros sid' ln _. rewrite lookup_insert_Some, lookup_delete_Some.
    intros [[<- <-]|(_ & _ & Hl)]; [exists Serving; apply lookup_insert_eq|].
    destruct (inv_served0 _ _ I Hl) as [ph Hph]. exists ph. rewrite lookup_insert_ne; [done|].
    intros <-. apply mk_is_Some, inv_fresh0 in Hph. lia.
  - intros ln [Hn%elem_of_singleton|Hin]%elem_of_union;
      [left; exists sid; subst; apply lookup_insert_eq|].
    destruct (Ho ln Hin) as [[sid' Hs]|?]; [|by right]. left. exists sid'.
    rewrite lookup_insert_ne; [done|]. intros <-. by rewrite lookup_delete_eq in Hs.
  - intros ln Hs. destruct (decide (ln = st_next s)) as [->|]; [lia|].
    rewrite lookup_insert_ne in Hs by done. apply inv_fresh0 in Hs. lia.
  - intros sid' ln _. rewrite lookup_delete_Some. intros [_ ?]. auto.
Qed.

Lemma inv_server_exit s ln s' : inv s → server_exit ln s = Some s' → inv s'.
Proof.
  intros Hi H. unfold server_exit in H.
  destruct (st_servers s !! ln) as [[sid []]|] eqn:E1; try done.
  destruct (forallb _ _); [|done]. injection H as <-. apply inv_unregister, inv_with_sockets.
  - done.
  - apply close_listener_subset.
  - intros sid' ln' Hne Hl. destruct (inv_served _ s Hi _ _ I Hl) as [ph Hph]. exists ph.
    rewrite lookup_delete_ne; [done|]. intros <-. congruence.
  - intros l [v Hl]. apply (inv_fresh _ s Hi). apply lookup_delete_Some in Hl as [_ ?]. by eexists.
Qed.

Lemma inv_shutdown s s' : inv s → shutdown s = Some s' → inv s'.
Proof.
  intros Hi H. unfold shutdown in H. injection H as <-. destruct (st_closed s) eqn:Ec; [done|].
  destruct Hi. constructor; cbn; try done.
  intros ln Hin. right. destruct (inv_open0 ln Hin) as [[sid Hs]|Hc].
  - apply list_elem_of_fmap. exists (sid, ln). split; [done|]. by apply elem_of_map_to_list.
  - rewrite inv_idle0 in Hc by done. by apply not_elem_of_nil in Hc.
Qed.

Lemma inv_shutdown_close s s' : inv s → shutdown_close s = Some s' → inv s'.
Proof.
  intros [] H. unfold shutdown_close in H. destruct (st_closing s) as [|l rest] eqn:El; [done|].
  injection H as <-. constructor; cbn; auto.
  - intros Hc. apply inv_idle0 in Hc. congruence.
  - intros ln. unfold close_listener. rewrite elem_of_difference, elem_of_singleton.
    intros [Hin Hne]. destruct (inv_open0 ln Hin) as [?|Hc]; [by left|right].
    by apply elem_of_cons in Hc as [->|?].
Qed.

Lemma inv_enqueue_send i s s' : inv s → enqueue_send i s = Some s' → inv s'.
Proof.
  intros Hi H. unfold enqueue_send in H. destruct (st_senders s !! i); [|done].
  pose proof (inv_bound _ s Hi). pose proof (inv_closed _ s Hi). pose proof (inv_panic _ s Hi).
  destruct (st_queue_closed s) eqn:Eq; [|destruct (_ <? _)%nat eqn:El];
    injection H as <-; apply inv_with_queue; auto; try congruence.
  apply Nat.ltb_lt in El. rewrite length_app. cbn. lia.
Qed.

Lemma inv_step l s s' : inv s → step l s = Some s' → inv s'.
Proof.
  intros Hi H. unfold step in H. destruct (st_panicked s) eqn:Ep; [done|].
  pose proof (inv_bound _ s Hi). pose proof (inv_served _ s Hi) as Hs.
  pose proof (inv_fresh _ s Hi) as Hf.
  destruct l as [sid ok|ln|ln|ln|c|ln|e|i| | |].
  - by eapply inv_register.
  - unfold accept in H. destruct (st_servers s !! ln) as [[sid []]|]; try done.
    case_bool_decide; [|done]. injection H as <-. apply inv_with_sockets; auto.
    intros l Hl. apply Hf in Hl. lia.
  - unfold accept_error in H. destruct (st_servers s !! ln) as [[sid []]|] eqn:El; try done.
    injection H as <-. apply inv_with_sockets; auto.
    + intros sid' ln' _ Hl. destruct (Hs _ _ I Hl) as [ph Hph].
      destruct (decide (ln = ln')) as [<-|]; [|rewrite lookup_insert_ne; eauto].
      rewrite lookup_insert_eq. rewrite El in Hph. simplify_eq. by exists Draining.
    + intros l Hl. destruct (decide (ln = l)) as [<-|];
        [apply Hf; by eexists|rewrite lookup_insert_ne in Hl; auto].
  - injection H as <-. apply inv_with_sockets; auto. apply close_listener_subset.
  - injection H as <-. apply inv_with_sockets; auto.
  - by eapply inv_server_exit.
  - injection H as <-. destruct (st_closed s) eqn:Ec; [done|].
    apply inv_with_queue; [done|done|congruence].
  - by eapply inv_enqueue_send.
  - unfold worker in H. destruct (st_queue s) eqn:Eq; [done|]. injection H as <-.
    apply inv_with_queue; [done|cbn in *; lia|congruence].
  - by eapply inv_shutdown.
  - by eapply inv_shutdown_close.
Qed.

Lemma inv_run ls s s' : inv s → run ls s = Some s' → inv s'.
Proof.
  revert s. induction ls as [|l ls IH]; intros s Hi H; cbn in H; [by simplify_eq|].
  destruct (step l s) as [s1|] eqn:E1; [|done]. eapply IH; [|done]. by eapply inv_step.
Qed.

(** * Events *)

Definition accounted s : list E := st_written s ++ st_queue s ++ st_senders s.

Lemma accounted_step l s s' :
  step l s = Some s' → accounted s' ⊆+ accounted s ++ enqueued [l].
Proof.
  unfold step, accounted. destruct (st_panicked s); [done|]. intros H.
  assert (Hsame : st_written s' = st_written s → st_queue s' = st_queue s →
            st_senders s' = st_senders s → accounted s' ⊆+ accounted s ++ enqueued [l]).
  { unfold accounted. intros -> -> ->. apply submseteq_inserts_r. done. }
  unfold accounted in Hsame.
  destruct l as [sid ok|ln|ln|ln|c|ln|e|i| | |]; cbn in H.
  - unfold register in H. destruct (st_closed s); [done|]. destruct ok; simplify_eq; auto.
  - unfold accept in H. repeat case_match; simplify_eq; auto.
  - unfold accept_error in H. repeat case_match; simplify_eq; auto.
  - simplify_eq; auto.
  - simplify_eq; auto.
  - unfold server_exit, unregister in H. repeat case_match; simplify_eq; auto.
  - unfold enqueue_check in H. destruct (st_closed s); simplify_eq; cbn; [auto|].
    by rewrite <- !app_assoc.
  - unfold enqueue_send in H. destruct (st_senders s !! i) as [e|] eqn:Ei; [|done].
    assert (Hp : st_senders s ≡ₚ e :: delete i (st_senders s)) by (by apply delete_Permutation).
    rewrite app_nil_r, Hp. clear Hp Hsame.
    destruct (st_queue_closed s); [|destruct (_ <? _)%nat]; simplify_eq; cbn.
    + apply submseteq_app, submseteq_app; try done. by apply submseteq_cons.
    + by rewrite <- !app_assoc.
    + apply submseteq_app, submseteq_app; try done. by apply submseteq_cons.
  - unfold worker in H. destruct (st_queue s) as [|e q] eqn:Eq; [done|]. simplify_eq; cbn.
    by rewrite app_nil_r, <- !app_assoc.
  - unfold shutdown in H. destruct (st_closed s); simplify_eq; auto.
  - unfold shutdown_close in H. destruct (st_closing s); simplify_eq; auto.
Qed.

Lemma accounted_run ls s s' :
  run ls s = Some s' → accounted s' ⊆+ accounted s ++ enqueued ls.
Proof.
  revert s. induction ls as [|l ls IH]; intros s H; cbn in H.
  - simplify_eq. unfold enqueued; cbn. by rewrite app_nil_r.
  - destruct (step l s) as [s1|] eqn:E1; [|done]. etransitivity; [by apply IH|].
    apply accounted_step in E1.
    replace (enqueued (l :: ls)) with (enqueued [l] ++ enqueued ls) by (destruct l; done).
    rewrite app_assoc. by apply submseteq_app.
Qed.
End Invariant.

(** * Runs *)

Section Runs.
Context {E : Type}.
Implicit Types s : state E.

Lemma cap_step l s s' : step l s = Some s' → st_cap s' = st_cap s.
Proof.
  unfold step, register, accept, accept_error, server_exit, unregister, enqueue_check,
    enqueue_send, worker, shutdown, shutdown_close. intros H.
  repeat case_match; simplify_eq; done.
Qed.

Lemma cap_run ls s s' : run ls s = Some s' → st_cap s' = st_cap s.
Proof.
  revert s. induction ls as [|l ls IH]; intros s H; cbn in H; [by simplify_eq|].
  destruct (step l s) as [s1|] eqn:E1; [|done]. apply IH in H. apply cap_step in E1. congruence.
Qed.

(** A closed service with no enqueue under way stays so. *)
Record quiet s : Prop := {
  quiet_closed : st_closed s = true;
  quiet_senders : st_senders s = [];
  quiet_panicked : st_panicked s = false;
}.

Lemma quiet_step l s s' : quiet s → step l s = Some s' → quiet s'.
Proof.
  intros [Hc Hs Hp] H. unfold step in H. rewrite Hp in H.
  destruct l; cbn in H;
    unfold register, accept, accept_error, server_exit, unregister, enqueue_check,
      enqueue_send, worker, shutdown, shutdown_close in H;
    rewrite ?Hc, ?Hs in H; repeat case_match; simplify_eq; by constructor.
Qed.

Lemma quiet_run ls s s' : quiet s → run ls s = Some s' → st_panicked s' = false.
Proof.
  revert s. induction ls as [|l ls IH]; intros s Hq H; cbn in H; [simplify_eq; by destruct Hq|].
  destruct (step l s) as [s1|] eqn:E1; [|done]. eapply IH; [|done]. by eapply quiet_step.
Qed.
End Runs.

(** * Properties *)

(** The state a run leads to, for the witnesses. *)
Definition sample (ls : list (label nat)) : state nat := default (init 1) (run ls (init 1)).

(** The life cycle keeps its invariant under every interleaving: the log
    queue never holds more than its capacity; every registered listener is
    served by a running goroutine of its own session; every open socket is
    registered or about to be closed by [Shutdown]; nothing is registered once
    the service is closed. *)
Theorem lifecycle_invariant {E} cap ls (s : state E) :
  reachable cap ls s →
  (length (st_queue s) <= cap)%nat
  ∧ (∀ sid ln, st_listeners s !! sid = Some ln → ∃ ph, st_servers s !! ln = Some (Server sid ph))
  ∧ (∀ ln, ln ∈ st_open s → (∃ sid, st_listeners s !! sid = Some ln) ∨ ln ∈ st_closing s)
  ∧ (st_closed s = true → st_listeners s = ∅).
Proof.
  intros H. pose proof (inv_run _ _ _ (inv_init cap) H) as [].
  assert (Hc : st_cap s = cap) by (by apply cap_run in H).
  split_and!; [by rewrite <- Hc|by intros; apply inv_served0|done|done].
Qed.

Lemma lifecycle_invariant_witness :
  let ls := [LRegister §"s1" true; LAccept 0; LEnqueueCheck 7%nat; LEnqueueSend 0] in
  reachable 1 ls (sample ls) ∧ (length (st_queue (sample ls)) <= 1)%nat.
Proof.
  intros ls. assert (Hr : reachable 1 ls (sample ls)) by (vm_compute; reflexivity).
  split; [exact Hr|]. exact (proj1 (lifecycle_invariant 1 ls (sample ls) Hr)).
Defined.

(** Shutdown is complete: when the service is closed and [Shutdown] has
    closed every listener it took, no socket is left open, whatever sessions
    were registered, replaced or ended before. *)
Theorem shutdown_closes_every_listener {E} cap ls (s : state E) :
  reachable cap ls s → st_closed s = true → st_closing s = [] → st_open s = ∅.
Proof.
  intros H Hc Hl. destruct (inv_run _ _ _ (inv_init cap) H) as [].
  apply elem_of_equiv_empty_L. intros ln Hin.
  destruct (inv_open0 ln Hin) as [[sid Hs]|Hin']; [by rewrite inv_shut0 in Hs|].
  rewrite Hl in Hin'. by apply not_elem_of_nil in Hin'.
Qed.

Lemma shutdown_closes_every_listener_witness :
  let ls := [LRegister §"s1" true; LShutdown; LShutdownClose] in
  reachable 1 ls (sample ls) ∧ st_open (sample ls) = ∅.
Proof.
  intros ls. assert (Hr : reachable 1 ls (sample ls)) by (vm_compute; reflexivity).
  split; [exact Hr|]. apply (shutdown_closes_every_listener 1 ls (sample ls) Hr); vm_compute; reflexivity.
Defined.

(** Log events are neither invented nor duplicated: the events written by
    the worker, those queued and those about to be sent are a sub-multiset of
    the events [enqueueQueryLog] was called with. *)
Theorem log_events_come_from_enqueue {E} cap ls (s : state E) :
  reachable cap ls s → st_written s ++ st_queue s ++ st_senders s ⊆+ enqueued ls.
Proof. intros H. exact (accounted_run ls (init cap) s H). Qed.

Lemma log_events_come_from_enqueue_witness :
  let ls := [LEnqueueCheck 7%nat; LEnqueueSend 0; LWorker] in
  reachable 1 ls (sample ls)
  ∧ st_written (sample ls) ++ st_queue (sample ls) ++ st_senders (sample ls) ⊆+ enqueued ls.
Proof.
  intros ls. assert (Hr : reachable 1 ls (sample ls)) by (vm_compute; reflexivity).
  split; [exact Hr|]. exact (log_events_come_from_enqueue 1 ls (sample ls) Hr).
Defined.

(** Registering a session a second time loses it: the goroutine of the
    replaced listener, on its way out, unregisters by session id and so closes
    the listener that replaced its own; the session is left unregistered and
    its new listener closed although [RegisterSession] returned its port. *)
Theorem reregistered_session_loses_its_listener {E} cap ls (s : state E) sid old s' :
  reachable cap ls s → st_panicked s = false → st_listeners s !! sid = Some old →
  forallb (λ p, negb (snd p =? old)%nat) (map_to_list (st_active s)) = true →
  st_servers s !! old = Some (Server sid Serving) →
  run [LRegister sid true; LAcceptError old; LServerExit old] s = Some s' →
  st_listeners s' !! sid = None ∧ (st_next s ∉ st_open s')
  ∧ st_servers s' !! st_next s = Some (Server sid Serving).
Proof.
  intros Hr Hp Hl Hc Hs H. pose proof (inv_run _ _ _ (inv_init cap) Hr) as Hi.
  assert (Hn : (old < st_next s)%nat) by (apply (inv_fresh _ s Hi); by eexists).
  cbn [run] in H. destruct (step (LRegister sid true) s) as [s1|] eqn:E1; [|done]. cbn in H.
  destruct (step (LAcceptError old) s1) as [s2|] eqn:E2; [|done]. cbn in H.
  destruct (step (LServerExit old) s2) as [s3|] eqn:E3; [|done]. injection H as <-.
  unfold step, register in E1. rewrite Hp, Hl in E1. destruct (st_closed s); [done|].
  injection E1 as <-. unfold step, accept_error in E2. cbn in E2.
  rewrite ?Hp, lookup_insert_ne, Hs in E2 by lia. injection E2 as <-.
  unfold step, server_exit in E3. cbn in E3. rewrite ?Hp, lookup_insert_eq, Hc in E3.
  unfold unregister in E3. cbn in E3. rewrite lookup_insert_eq in E3. injection E3 as <-.
  cbn. unfold close_listener.
  split_and!; [apply lookup_delete_eq|set_solver|].
  rewrite lookup_delete_ne by lia. rewrite lookup_insert_ne by lia. apply lookup_insert_eq.
Qed.

Lemma reregistered_session_loses_its_listener_witness :
  let ls := [LRegister §"s1" true] in
  let ls' := ls ++ [LRegister §"s1" true; LAcceptError 0; LServerExit 0] in
  reachable 1 ls (sample ls) ∧ st_listeners (sample ls') !! §"s1" = None.
Proof.
  intros ls ls'. assert (Hr : reachable 1 ls (sample ls)) by (vm_compute; reflexivity).
  split; [exact Hr|].
  refine (proj1 (reregistered_session_loses_its_listener 1 ls (sample ls) §"s1" 0 (sample ls')
    Hr _ _ _ _ _)); vm_compute; reflexivity.
Defined.

(** The race of a logged command with [Shutdown]: from any state where the
    service is open, an [enqueueQueryLog] whose check came before [Shutdown]
    and whose send comes after it panics (send on closed channel). *)
Theorem enqueue_races_with_shutdown {E} cap ls (s : state E) e :
  reachable cap ls s → st_panicked s = false → st_closed s = false →
  ∃ s', run [LEnqueueCheck e; LShutdown; LEnqueueSend (length (st_senders s))] s = Some s'
    ∧ st_panicked s' = true.
Proof.
  intros _ Hp Hc. cbn [run].
  assert (E1 : step (LEnqueueCheck e) s
    = Some (with_queue s (st_queue s) (st_senders s ++ [e]) (st_written s) (st_panicked s)))
    by (unfold step, enqueue_check; by rewrite Hp, Hc).
  rewrite E1. cbn. unfold step, shutdown. cbn. rewrite ?Hp, ?Hc. cbn. rewrite ?Hp.
  unfold enqueue_send. cbn. rewrite list_lookup_middle by done. cbn. eexists. split; done.
Qed.

Lemma enqueue_races_with_shutdown_witness :
  let ls := [LRegister §"s1" true] in
  reachable 1 ls (sample ls)
  ∧ ∃ s', run [LEnqueueCheck 7%nat; LShutdown; LEnqueueSend (length (st_senders (sample ls)))] (sample ls)
            = Some s' ∧ st_panicked s' = true.
Proof.
  intros ls. assert (Hr : reachable 1 ls (sample ls)) by (vm_compute; reflexivity).
  split; [exact Hr|].
  apply (enqueue_races_with_shutdown 1 ls (sample ls) 7%nat Hr); vm_compute; reflexivity.
Defined.

(** ... and that race is the only way: in a run in which [Shutdown] never
    happens while an enqueue is between its check and its send, and no check
    sees an open service after it, nothing panics; in particular not before
    [Shutdown]. *)
Theorem no_panic_without_the_race {E} cap ls ls' (s s' : state E) :
  reachable cap ls s → st_closed s = false → st_senders s = [] →
  run (LShutdown :: ls') s = Some s' → st_panicked s' = false.
Proof.
  intros Hr Hc Hs H. pose proof (inv_run _ _ _ (inv_init cap) Hr) as Hi.
  cbn [run] in H. destruct (step LShutdown s) as [s1|] eqn:E1; [|done].
  apply (quiet_run ls' s1 s'); [|done]. unfold step in E1.
  destruct (st_panicked s) eqn:Ep; [done|]. unfold shutdown in E1. rewrite Hc in E1.
  injection E1 as <-. by constructor.
Qed.

Lemma no_panic_without_the_race_witness :
  let ls := [LEnqueueCheck 7%nat; LEnqueueSend 0] in
  let ls' := ls ++ [LShutdown; LEnqueueCheck 8%nat; LWorker] in
  reachable 1 ls (sample ls) ∧ st_panicked (sample ls') = false.
Proof.
  intros ls ls'. assert (Hr : reachable 1 ls (sample ls)) by (vm_compute; reflexivity).
  split; [exact Hr|].
  apply (no_panic_without_the_race 1 ls [LEnqueueCheck 8%nat; LWorker] (sample ls) _ Hr);
    vm_compute; reflexivity.
Defined.
