(* ===== verification/GoNet.v ===== *)
(** Pieces of Go's net and time packages, as the source uses them: splitting a
    host and port, reading and printing IP addresses, and RFC 3339 time stamps. *)
From S2P Require Import Prelude GoStrings GoEncoding.

(** * Host and port *)

(** The index of the last [b]. *)
Definition LastIndexByte (s : bytes) (b : byte) : option nat :=
  match IndexByte (rev s) b with
  | Some i => Some (length s - 1 - i)%nat
  | None => None
  end.
Definition has_byte (s : bytes) (b : byte) : bool := bool_decide (b ∈ s).

(** The host of [net.SplitHostPort]; [None] is its error. *)
Definition split_host (hostport : bytes) : option bytes :=
  match LastIndexByte hostport ":"%byte with
  | None => None
  | Some i =>
      let finish host j k :=
        if has_byte (drop j hostport) "["%byte || has_byte (drop k hostport) "]"%byte
        then None else Some host in
      match hostport with
      | "["%byte :: _ =>
          match IndexByte hostport "]"%byte with
          | None => None
          | Some e => if (e + 1 =? i)%nat then finish (take (e - 1) (drop 1 hostport)) 1%nat (e + 1)%nat
                      else None
          end
      | _ => let host := take i hostport in
             if has_byte host ":"%byte then None else finish host 0%nat 0%nat
      end
  end.

(** [net.SplitHostPort], whose errors are one; and [net.JoinHostPort]. *)
Definition SplitHostPort (s : bytes) : option (bytes * bytes) :=
  match split_host s, LastIndexByte s ":"%byte with
  | Some host, Some i => Some (host, drop (S i) s)
  | _, _ => None
  end.
Definition JoinHostPort (host port : bytes) : bytes :=
  if has_byte host ":"%byte then §"[" ++ host ++ §"]:" ++ port else host ++ §":" ++ port.

(** * IP addresses *)

(** The four octets of a dotted address: no leading zeros, at most 255 each. *)
Definition octet (s : bytes) : option Z :=
  match s with
  | [] => None
  | a :: t =>
      if bool_decide (a = "0"%byte) && negb (bool_decide (t = [])) then None
      else v ← parse_digits 0 s; if v <=? 255 then Some v else None
  end.
Definition parse_ipv4 (s : bytes) : option (list Z) :=
  match SplitByte s "."%byte with
  | [_; _; _; _] as parts => mapM octet parts
  | _ => None
  end.

(** One to four hexadecimal digits. *)
Fixpoint hex_prefix (fuel : nat) (s : bytes) (acc : Z) (n : nat) : Z * nat * bytes :=
  match fuel, s with
  | S f, a :: t => match hex_value a with
                   | Some d => hex_prefix f t (16 * acc + d) (S n)
                   | None => (acc, n, s)
                   end
  | _, _ => (acc, n, s)
  end.

(** The groups of an IPv6 address from [s] on: [before] holds the ones read so
    far, [ell] how many there were at the "::", if it was seen. *)
Fixpoint ipv6_groups (fuel : nat) (s : bytes) (before : list Z) (ell : option nat)
    : option (list Z * option nat) :=
  match fuel with
  | O => None
  | S f =>
      if (8 <=? length before)%nat then (if bool_decide (s = []) then Some (before, ell) else None) else
      let '(acc, n, rest) := hex_prefix 5 s 0 0 in
      if (n =? 0)%nat || (4 <? n)%nat then None else
      match rest with
      | "."%byte :: _ =>
          match ell with
          | None => if negb (length before =? 6)%nat then None else
                    match parse_ipv4 s with
                    | Some [a; b; c; d] => Some (before ++ [256 * a + b; 256 * c + d], ell)
                    | _ => None
                    end
          | Some _ => if (6 <? length before)%nat then None else
                    match parse_ipv4 s with
                    | Some [a; b; c; d] => Some (before ++ [256 * a + b; 256 * c + d], ell)
                    | _ => None
                    end
          end
      | [] => Some (before ++ [acc], ell)
      | ":"%byte :: t =>
          match t with
          | [] => None
          | ":"%byte :: u =>
              match ell with
              | Some _ => None
              | None => match u with
                        | [] => Some (before ++ [acc], Some (S (length before)))
                        | _ => ipv6_groups f u (before ++ [acc]) (Some (S (length before)))
                        end
              end
          | _ => ipv6_groups f t (before ++ [acc]) ell
          end
      | _ => None
      end
  end.
Definition parse_ipv6 (s : bytes) : option (list Z) :=
  let r := match s with
           | ":"%byte :: ":"%byte :: [] => Some ([], Some 0%nat)
           | ":"%byte :: ":"%byte :: t => ipv6_groups 9 t [] (Some 0%nat)
           | _ => ipv6_groups 9 s [] None
           end in
  '(gs, ell) ← r;
  match ell with
  | None => if (length gs =? 8)%nat then Some gs else None
  | Some k => if (length gs <? 8)%nat
              then Some (take k gs ++ repeat 0 (8 - length gs) ++ drop k gs) else None
  end.

Inductive ip := IPv4 (octets : list Z) | IPv6 (groups : list Z).

(** [net.ParseIP]: the first of '.', ':' and '%' decides; a zone is refused,
    and an IPv4-mapped address is the IPv4 one. *)
Definition ParseIP (s : bytes) : option ip :=
  match List.find (λ b, bool_decide (b = "."%byte ∨ b = ":"%byte ∨ b = "%"%byte)) s with
  | Some "."%byte => IPv4 <$> parse_ipv4 s
  | Some ":"%byte =>
      if has_byte s "%"%byte then None else
      gs ← parse_ipv6 s;
      Some match gs with
           | [0; 0; 0; 0; 0; 65535; g; h] => IPv4 [g / 256; g mod 256; h / 256; h mod 256]
           | _ => IPv6 gs
           end
  | _ => None
  end.

Fixpoint join (sep : bytes) (l : list bytes) : bytes :=
  match l with
  | [] => []
  | [x] => x
  | x :: rest => x ++ sep ++ join sep rest
  end.

(** A group in hexadecimal without leading zeros. *)
Definition hex_group (z : Z) : bytes :=
  match hex4 z with
  | [a; b; c; d] =>
      if z <? 16 then [d] else if z <? 256 then [c; d] else if z <? 4096 then [b; c; d] else [a; b; c; d]
  | l => l
  end.
Fixpoint zero_run (gs : list Z) : nat :=
  match gs with g :: t => if g =? 0 then S (zero_run t) else 0%nat | [] => 0%nat end.
(** The first longest run of at least two zero groups. *)
Fixpoint longest_run (gs : list Z) (pos : nat) (best : nat * nat) : nat * nat :=
  match gs with
  | [] => best
  | _ :: t => let n := zero_run gs in
              longest_run t (S pos) (if (snd best <? n)%nat && (2 <=? n)%nat then (pos, n) else best)
  end.
Definition ip_String (a : ip) : bytes :=
  match a with
  | IPv4 os => join §"." (map Itoa os)
  | IPv6 gs =>
      let '(pos, n) := longest_run gs 0 (0, 0)%nat in
      if (n =? 0)%nat then join §":" (map hex_group gs)
      else join §":" (map hex_group (take pos gs)) ++ §"::"
           ++ join §":" (map hex_group (drop (pos + n) gs))
  end.

(** * Time stamps, in nanoseconds since 1970 *)

Definition pad_digits (width : nat) (n : Z) : bytes :=
  let s := Itoa n in repeat "0"%byte (width - length s) ++ s.

(** Year, month and day of a day number (the proleptic Gregorian calendar). *)
Definition civil (days : Z) : Z * Z * Z :=
  let z := days + 719468 in
  let era := z / 146097 in
  let doe := z mod 146097 in
  let yoe := (doe - doe / 1460 + doe / 36524 - doe / 146096) / 365 in
  let doy := doe - (365 * yoe + yoe / 4 - yoe / 100) in
  let mp := (5 * doy + 2) / 153 in
  let d := doy - (153 * mp + 2) / 5 + 1 in
  let m := if mp <? 10 then mp + 3 else mp - 9 in
  (yoe + era * 400 + (if m <=? 2 then 1 else 0), m, d).

(** [t.UTC().Format(time.RFC3339Nano)], for years 0 to 9999. *)
Definition RFC3339Nano (ns : Z) : bytes :=
  let secs := ns / 10 ^ 9 in
  let frac := ns mod 10 ^ 9 in
  let '(y, m, d) := civil (secs / 86400) in
  let tod := secs mod 86400 in
  pad_digits 4 y ++ §"-" ++ pad_digits 2 m ++ §"-" ++ pad_digits 2 d ++ §"T"
  ++ pad_digits 2 (tod / 3600) ++ §":" ++ pad_digits 2 (tod / 60 mod 60) ++ §":"
  ++ pad_digits 2 (tod mod 60)
  ++ (if frac =? 0 then [] else §"." ++ TrimRightByte (pad_digits 9 frac) "0"%byte)
  ++ §"Z".

(** * Checks against known values *)

Example rfc3339_leap_day :
  RFC3339Nano (1709208000 * 10 ^ 9 + 120000000) = §"2024-02-29T12:00:00.12Z".
Proof. by vm_compute. Qed.
Example split_host_v4 : split_host §"10.0.0.5:8080" = Some §"10.0.0.5".
Proof. by vm_compute. Qed.
Example split_host_v6 : split_host §"[fe80::1]:22" = Some §"fe80::1".
Proof. by vm_compute. Qed.
Example ip_v6_text : ip_String <$> ParseIP §"2001:0DB8:0:0:8:800:200C:417A" = Some §"2001:db8::8:800:200c:417a".
Proof. by vm_compute. Qed.
Example ip_mapped : ip_String <$> ParseIP §"::ffff:192.168.1.9" = Some §"192.168.1.9".
Proof. by vm_compute. Qed.
Example ip_loopback : ip_String <$> ParseIP §"::1" = Some §"::1".
Proof. by vm_compute. Qed.
