(* ===== verification/GoTexts.v ===== *)
(** Lemmas on texts that the parsers and printers share: splitting what was
    joined, trimming what is tight, and the digits of a number. *)
From S2P Require Import Prelude GoStrings GoNet.

(** * Lines and parts *)

Lemma join_cons sep x l : l ≠ [] → join sep (x :: l) = x ++ sep ++ join sep l.
Proof. by destruct l. Qed.

Lemma SplitByte_cons_notin s b t :
  b ∉ s → SplitByte (s ++ b :: t) b = s :: SplitByte t b.
Proof.
  induction s as [|x s IH]; cbn; intros Hs; [by rewrite bool_decide_true|].
  rewrite bool_decide_false by set_solver. by rewrite IH by set_solver.
Qed.

Lemma SplitByte_join b (l : list bytes) :
  l ≠ [] → Forall (λ s, b ∉ s) l → SplitByte (join [b] l) b = l.
Proof.
  induction l as [|s l IH]; [done|]. intros _ [Hs Hl]%Forall_cons.
  destruct (decide (l = [])) as [->|Hne]; [cbn; by apply SplitByte_notin|].
  rewrite join_cons by done. cbn [app]. rewrite SplitByte_cons_notin by done. by rewrite IH.
Qed.

(** A text that begins and ends with a byte no white space has. *)
Definition tight (s : bytes) : bool :=
  match head s, last s with Some a, Some b => plain_byte a && plain_byte b | _, _ => false end.

Lemma trim_left_tight seqs b t :
  (∀ p, p ∈ seqs → p ∈ space_seqs ++ map (@rev byte) space_seqs) → nonempty_seqs seqs = true →
  plain_byte b = true → trim_left seqs (b :: t) = b :: t.
Proof.
  intros Hin Hne Hb. apply trim_left_id, strip_one_plain; [|done]. unfold plain_byte in Hb.
  apply forallb_forall. intros p Hp. apply (proj1 (forallb_forall _ _) Hb).
  apply list_elem_of_In, Hin, list_elem_of_In, Hp.
Qed.

Lemma TrimSpace_tight s : tight s = true → TrimSpace s = s.
Proof.
  unfold tight. destruct s as [|a s]; [done|]. cbn [head].
  destruct (last (a :: s)) as [b|] eqn:Hl; [|done]. intros [Ha Hb]%andb_true_iff.
  unfold TrimSpace. rewrite trim_left_tight; [|by intros p Hp; apply elem_of_app; left|done|done].
  apply last_Some in Hl as [l' E]. rewrite E, rev_app_distr. cbn [rev app].
  rewrite trim_left_tight; [|by intros p Hp; apply elem_of_app; right|done|done].
  cbn [rev]. by rewrite rev_involutive.
Qed.

Lemma tight_app s t u : tight s = true → tight t = true → tight (s ++ u ++ t) = true.
Proof.
  unfold tight. destruct s as [|a s]; [done|]. destruct t as [|b t] using rev_ind; [done|]. clear IHt.
  cbn [head app]. rewrite !last_snoc, !app_assoc. rewrite app_comm_cons, last_snoc.
  destruct (last (a :: s)); [|done]. destruct (head (t ++ [b])); [|done].
  rewrite !andb_true_iff. naive_solver.
Qed.

Lemma LastIndexByte_app s t b : b ∉ t → LastIndexByte (s ++ b :: t) b = Some (length s).
Proof.
  intros Hn. unfold LastIndexByte. rewrite rev_app_distr. cbn [rev]. rewrite <- app_assoc. cbn [app].
  rewrite IndexByte_app_notin by by intros Hin; apply Hn, list_elem_of_In, in_rev, list_elem_of_In.
  f_equal. rewrite length_app, length_rev. cbn [length]. lia.
Qed.
Lemma TrimSpace_notin b s : b ∉ s → b ∉ TrimSpace s.
Proof. intros Hb Hin. apply Hb. destruct (TrimSpace_infix s) as (p & q & E). rewrite E. set_solver. Qed.

(** * Digits *)

Lemma digit_plain b : is_digit b = true → plain_byte b = true ∧ lower_byte b = b ∧ is_ascii b = true.
Proof. destruct b; first [by vm_compute|by intros []%diff_false_true]. Qed.

Lemma Itoa_digits n : 0 <= n → forallb is_digit (Itoa n) = true ∧ Itoa n ≠ [].
Proof.
  intros Hn. unfold Itoa. rewrite (proj2 (Z.ltb_ge _ _)) by lia. split; [by apply itoa_digits_all|].
  destruct (itoa_digits_first 20 n []) as (b & t & -> & _); [lia|lia|done].
Qed.

Lemma digits_tight s : forallb is_digit s = true → s ≠ [] → tight s = true.
Proof.
  intros Hs Hne. rewrite forallb_forall in Hs. unfold tight. destruct s as [|a s]; [done|]. cbn [head].
  destruct (last (a :: s)) as [b|] eqn:Hl; [|by apply last_None in Hl].
  apply andb_true_iff. split; apply digit_plain, Hs; [by left|].
  apply list_elem_of_In. by apply last_Some_elem_of.
Qed.

Lemma lower_digits s : forallb is_digit s = true → map lower_byte s = s ∧ forallb is_ascii s = true.
Proof.
  induction s as [|b s IH]; [done|]. cbn [forallb map]. intros [Hb Hs]%andb_true_iff.
  destruct (IH Hs) as [-> ->]. by destruct (digit_plain b Hb) as (_ & -> & ->).
Qed.
