(* ===== verification/Tokens.v ===== *)
(** The signed tokens of apps/api/internal/sessions: launch and connector
    tokens (token.go) and connector bootstrap tokens (bootstrap_token.go).

    A token is the base64 text of a JSON body, a dot, and the base64 text of
    the HMAC-SHA256 of the body's text.  [time.Now] is an argument. *)
From S2P Require Import Prelude GoStrings GoCrypto GoEncoding.

Definition ErrLaunchExpired : error := ErrVar §"launch token expired".

Section Decoding.
Context `{Unicode}.

(** How [json.Unmarshal] finds the struct field of a key: the exact name, or
    the first that equals it up to case. *)
Definition struct_field (names : list bytes) (key : bytes) : option bytes :=
  if bool_decide (key ∈ names) then Some key
  else head (List.filter (λ n, EqualFold n key) names).

(** Assignment to a field of type string or int64; [None] is the error of a
    value of another type.  null leaves the field as it is. *)
Definition to_string (old : bytes) (v : json) : option bytes :=
  match v with JStr s => Some s | JNull => Some old | _ => None end.
Definition to_int64 (old : Z) (v : json) : option Z :=
  match v with JNum lit => Atoi lit | JNull => Some old | _ => None end.

(** A struct decoded from a JSON text, given how one field is assigned. *)
Definition unmarshal {T} (zero : T) (names : list bytes) (assign : bytes → json → T → option T)
    (body : bytes) : option T :=
  match json_parse body with
  | Some (JObj fs) =>
      fold_left (λ acc f,
        c ← acc;
        match struct_field names f.1 with
        | Some n => assign n f.2 c
        | None => Some c
        end) fs (Some zero)
  | Some JNull => Some zero
  | _ => None
  end.
End Decoding.

(** * Signing and checking, common to both kinds *)

(** [sign]. *)
Definition sign (secret payload : bytes) : bytes := hmac_sha256 secret payload.
Definition sign_body (secret body : bytes) : bytes :=
  b64_encode body ++ "."%byte :: b64_encode (sign secret (b64_encode body)).

(** The body of a token whose signature holds; [name] is how the messages call
    the token. *)
Definition signed_body (name secret token : bytes) : bytes + error :=
  match SplitByte (TrimSpace token) "."%byte with
  | [bodyPart; sigPart] =>
      match b64_decode sigPart with
      | None => inr (Errorf (§"malformed " ++ name ++ §" signature"))
      | Some providedSig =>
          if negb (bool_decide (providedSig = sign secret bodyPart))
          then inr (Errorf (§"invalid " ++ name ++ §" signature"))
          else match b64_decode bodyPart with
               | None => inr (Errorf (§"malformed " ++ name ++ §" payload"))
               | Some body => inl body
               end
      end
  | _ => inr (Errorf (§"malformed " ++ name))
  end.

(** * Launch tokens *)

Record LaunchTokenClaims := LaunchClaims {
  lc_SessionID : bytes;
  lc_UserID : bytes;
  lc_AssetID : bytes;
  lc_Action : bytes;
  lc_RequestID : bytes;
  lc_ExpiresAt : Z;
  lc_Version : bytes;
}.
Definition tokenVersion : bytes := §"v1".

Section Launch.
Context `{Unicode}.

(** The struct tags: names in order, the request id omitted when empty. *)
Definition launch_names : list bytes :=
  [§"sid"; §"uid"; §"aid"; §"act"; §"rid"; §"exp"; §"v"].
Definition launch_fields (c : LaunchTokenClaims) : list (bytes * scalar) :=
  [(§"sid", SStr (lc_SessionID c)); (§"uid", SStr (lc_UserID c)); (§"aid", SStr (lc_AssetID c));
   (§"act", SStr (lc_Action c))]
  ++ (if bool_decide (lc_RequestID c = []) then [] else [(§"rid", SStr (lc_RequestID c))])
  ++ [(§"exp", SInt (lc_ExpiresAt c)); (§"v", SStr (lc_Version c))].

Definition assign_launch (n : bytes) (v : json) (c : LaunchTokenClaims) : option LaunchTokenClaims :=
  let '(LaunchClaims sid uid aid act rid exp ver) := c in
  if bool_decide (n = §"sid") then x ← to_string sid v; Some (LaunchClaims x uid aid act rid exp ver)
  else if bool_decide (n = §"uid") then x ← to_string uid v; Some (LaunchClaims sid x aid act rid exp ver)
  else if bool_decide (n = §"aid") then x ← to_string aid v; Some (LaunchClaims sid uid x act rid exp ver)
  else if bool_decide (n = §"act") then x ← to_string act v; Some (LaunchClaims sid uid aid x rid exp ver)
  else if bool_decide (n = §"rid") then x ← to_string rid v; Some (LaunchClaims sid uid aid act x exp ver)
  else if bool_decide (n = §"exp") then x ← to_int64 exp v; Some (LaunchClaims sid uid aid act rid x ver)
  else x ← to_string ver v; Some (LaunchClaims sid uid aid act rid exp x).
Definition unmarshal_launch : bytes → option LaunchTokenClaims :=
  unmarshal (LaunchClaims [] [] [] [] [] 0 []) launch_names assign_launch.

(** [TokenSigner.Sign]. *)
Definition Sign (secret : bytes) (c : LaunchTokenClaims) : bytes + error :=
  if bool_decide (TrimSpace (lc_SessionID c) = []) || bool_decide (TrimSpace (lc_UserID c) = [])
     || bool_decide (TrimSpace (lc_AssetID c) = []) || bool_decide (TrimSpace (lc_Action c) = [])
     || (lc_ExpiresAt c <=? 0)
  then inr (Errorf §"invalid launch claims")
  else
    let c := LaunchClaims (lc_SessionID c) (lc_UserID c) (lc_AssetID c) (lc_Action c)
               (lc_RequestID c) (lc_ExpiresAt c) tokenVersion in
    inl (sign_body secret (json_object (launch_fields c))).

(** [TokenSigner.Verify]. *)
Definition Verify (secret : bytes) (now : Z) (token : bytes) : LaunchTokenClaims + error :=
  match signed_body §"token" secret token with
  | inr e => inr e
  | inl body =>
      match unmarshal_launch body with
      | None => inr (Errorf §"invalid token payload")
      | Some c =>
          if negb (bool_decide (lc_Version c = tokenVersion))
          then inr (Errorf §"unsupported token version")
          else if lc_ExpiresAt c <=? now then inr ErrLaunchExpired
          else inl c
      end
  end.
End Launch.

(** * Bootstrap tokens *)

Record ConnectorBootstrapClaims := BootstrapClaims {
  bc_Origin : bytes;
  bc_BackendVerify : bytes;
  bc_IssuedForUser : bytes;
  bc_ExpiresAt : Z;
  bc_Version : bytes;
}.

Section Bootstrap.
Context `{Unicode}.

Definition bootstrap_names : list bytes :=
  [§"origin"; §"backend_verify_url"; §"issued_for_user"; §"exp"; §"v"].
Definition bootstrap_fields (c : ConnectorBootstrapClaims) : list (bytes * scalar) :=
  [(§"origin", SStr (bc_Origin c)); (§"backend_verify_url", SStr (bc_BackendVerify c))]
  ++ (if bool_decide (bc_IssuedForUser c = []) then []
      else [(§"issued_for_user", SStr (bc_IssuedForUser c))])
  ++ [(§"exp", SInt (bc_ExpiresAt c)); (§"v", SStr (bc_Version c))].

Definition assign_bootstrap (n : bytes) (v : json) (c : ConnectorBootstrapClaims)
    : option ConnectorBootstrapClaims :=
  let '(BootstrapClaims origin verify user exp ver) := c in
  if bool_decide (n = §"origin") then x ← to_string origin v; Some (BootstrapClaims x verify user exp ver)
  else if bool_decide (n = §"backend_verify_url")
       then x ← to_string verify v; Some (BootstrapClaims origin x user exp ver)
  else if bool_decide (n = §"issued_for_user")
       then x ← to_string user v; Some (BootstrapClaims origin verify x exp ver)
  else if bool_decide (n = §"exp") then x ← to_int64 exp v; Some (BootstrapClaims origin verify user x ver)
  else x ← to_string ver v; Some (BootstrapClaims origin verify user exp x).
Definition unmarshal_bootstrap : bytes → option ConnectorBootstrapClaims :=
  unmarshal (BootstrapClaims [] [] [] 0 []) bootstrap_names assign_bootstrap.

(** [ConnectorBootstrapSigner.Sign]. *)
Definition SignBootstrap (secret : bytes) (c : ConnectorBootstrapClaims) : bytes + error :=
  if bool_decide (TrimSpace (bc_Origin c) = []) || bool_decide (TrimSpace (bc_BackendVerify c) = [])
     || (bc_ExpiresAt c <=? 0)
  then inr (Errorf §"invalid bootstrap claims")
  else
    let c := BootstrapClaims (bc_Origin c) (bc_BackendVerify c) (bc_IssuedForUser c)
               (bc_ExpiresAt c) tokenVersion in
    inl (sign_body secret (json_object (bootstrap_fields c))).

(** [ConnectorBootstrapSigner.Verify]. *)
Definition VerifyBootstrap (secret : bytes) (now : Z) (token : bytes) : ConnectorBootstrapClaims + error :=
  match signed_body §"bootstrap token" secret token with
  | inr e => inr e
  | inl body =>
      match unmarshal_bootstrap body with
      | None => inr (Errorf §"invalid bootstrap token payload")
      | Some c =>
          if negb (bool_decide (bc_Version c = tokenVersion))
          then inr (Errorf §"unsupported bootstrap token version")
          else if bc_ExpiresAt c <=? now then inr ErrLaunchExpired
          else if bool_decide (TrimSpace (bc_Origin c) = [])
                  || bool_decide (TrimSpace (bc_BackendVerify c) = [])
          then inr (Errorf §"bootstrap token missing required fields")
          else inl c
      end
  end.
End Bootstrap.

(** * The service's use of the signers *)

Definition ErrUnauthorizedLaunch : error := ErrVar §"unauthorized launch token".

(** What callers see of a failed check: an expiry as it is, anything else as
    an unauthorized token. *)
Definition token_error (e : error) : error :=
  if errors_is e §"launch token expired" then e else ErrUnauthorizedLaunch.

Section Service.
Context `{Unicode}.

(** [VerifyConnectorToken]; [None] is the service without a connector secret. *)
Definition VerifyConnectorToken (secret : option bytes) (now : Z) (token : bytes)
    : LaunchTokenClaims + error :=
  match secret with
  | None => inr (Errorf §"connector token verification is not configured")
  | Some k => match Verify k now (TrimSpace token) with
              | inl c => inl c
              | inr e => inr (token_error e)
              end
  end.

(** [VerifyConnectorBootstrapToken] (the signer is always there). *)
Definition VerifyConnectorBootstrapToken (secret : bytes) (now : Z) (token : bytes)
    : ConnectorBootstrapClaims + error :=
  match VerifyBootstrap secret now (TrimSpace token) with
  | inl c => inl c
  | inr e => inr (token_error e)
  end.

(** [IssueConnectorBootstrapToken], times in nanoseconds: the ttl is a
    [time.Duration], and the claim is in seconds. *)
Definition IssueConnectorBootstrapToken (secret : bytes) (now_ns : Z) (userID origin : bytes) (ttl : Z)
    : (bytes * ConnectorBootstrapClaims) + error :=
  let origin := TrimRightByte (TrimSpace origin) "/"%byte in
  if bool_decide (origin = []) then inr (Errorf §"origin is required") else
  let ttl := if ttl <=? 0 then 120 * 10 ^ 9 else ttl in
  let claims := BootstrapClaims origin (origin ++ §"/api/connector/token/verify") (TrimSpace userID)
                  ((now_ns + ttl) / 10 ^ 9) [] in
  match SignBootstrap secret claims with
  | inr e => inr e
  | inl token => inl (token, claims)
  end.
End Service.

(** * Lemmas *)

Section Lemmas.
Context `{Unicode}.

Lemma struct_field_exact names k : k ∈ names → struct_field names k = Some k.
Proof. intros Hk. unfold struct_field. by rewrite bool_decide_true. Qed.

Lemma b64_plain s : forallb plain_byte (b64_encode s) = true.
Proof.
  destruct (b64_encode_text s) as (ds & [-> Hd] & _). apply forallb_forall. intros c Hin.
  apply in_map_iff in Hin as (d & <- & Hin). rewrite Forall_forall in Hd.
  apply list_elem_of_In, Hd in Hin.
  assert (Hall : forallb (λ n, plain_byte (b64_char (Z.of_nat n))) (seq 0 64) = true) by by vm_compute.
  rewrite forallb_forall in Hall. specialize (Hall (Z.to_nat d)). rewrite Z2Nat.id in Hall by lia.
  apply Hall, in_seq. lia.
Qed.

Lemma token_plain secret body : forallb plain_byte (sign_body secret body) = true.
Proof.
  unfold sign_body. rewrite forallb_app, b64_plain. cbn [forallb].
  rewrite b64_plain. by vm_compute.
Qed.

(** A signed body is found again. *)
Lemma signed_body_sign name secret body : signed_body name secret (sign_body secret body) = inl body.
Proof.
  unfold signed_body. rewrite TrimSpace_plain by apply token_plain. unfold sign_body.
  rewrite SplitByte_app by apply b64_no_dot. rewrite b64_round_trip.
  rewrite bool_decide_true by done. cbn [negb]. by rewrite b64_round_trip.
Qed.

(** Nothing else is accepted. *)
Lemma signed_body_sound name secret token body :
  signed_body name secret token = inl body →
  ∃ bodyPart sigPart, SplitByte (TrimSpace token) "."%byte = [bodyPart; sigPart]
    ∧ b64_decode sigPart = Some (hmac_sha256 secret bodyPart) ∧ b64_decode bodyPart = Some body.
Proof.
  unfold signed_body. destruct (SplitByte _ _) as [|p [|q [|]]]; try done.
  destruct (b64_decode q) as [sg|] eqn:Eq; [|done]. case_bool_decide as Es; [|done]. cbn [negb].
  destruct (b64_decode p) as [b|] eqn:Ep; [|done]. intros [= <-]. exists p, q. by rewrite Eq, Es.
Qed.

(** The fields of a decoded object, one by one. *)
Definition assign_all {T} (names : list bytes) (assign : bytes → json → T → option T)
    (acc : option T) (fs : list (bytes * scalar)) : option T :=
  fold_left (λ acc f,
    c ← acc;
    match struct_field names f.1 with Some n => assign n (scalar_json f.2) c | None => Some c end) fs acc.

Lemma unmarshal_object {T} (zero : T) names assign fs :
  fs ≠ [] → forallb field_ok fs = true →
  unmarshal zero names assign (json_object fs) = assign_all names assign (Some zero) fs.
Proof.
  intros Hne Hok. unfold unmarshal. rewrite parse_object by done. unfold assign_all.
  generalize (Some zero). induction fs as [|f fs IH]; intros acc; [done|].
  destruct fs as [|g fs]; [done|]. cbn [map fold_left fst snd]. apply IH; [done|].
  cbn [forallb] in *. by apply andb_true_iff in Hok as [_ ?].
Qed.

Lemma assign_all_cons {T} names (assign : bytes → json → T → option T) c k v fs n :
  struct_field names k = Some n →
  assign_all names assign (Some c) ((k, v) :: fs) = assign_all names assign (assign n (scalar_json v) c) fs.
Proof. intros Hn. unfold assign_all. cbn [fold_left mbind option_bind fst snd]. by rewrite Hn. Qed.

Definition int64 (z : Z) : bool := (min_int64 <=? z) && (z <=? max_int64).
Definition launch_ok (c : LaunchTokenClaims) : bool :=
  utf8_valid (lc_SessionID c) && utf8_valid (lc_UserID c) && utf8_valid (lc_AssetID c)
  && utf8_valid (lc_Action c) && utf8_valid (lc_RequestID c) && utf8_valid (lc_Version c)
  && int64 (lc_ExpiresAt c).

Lemma int64_scalar z : int64 z = true → (- 10 ^ 20 <? z) && (z <? 10 ^ 20) = true ∧ Atoi (Itoa z) = Some z.
Proof.
  unfold int64, min_int64, max_int64. intros Hz. gobool. split; [|apply Atoi_Itoa; done].
  apply andb_true_iff. split; apply Z.ltb_lt; lia.
Qed.

Lemma unmarshal_launch_fields c : launch_ok c = true →
  unmarshal_launch (json_object (launch_fields c)) = Some c.
Proof.
  unfold launch_ok. intros Hok. repeat (apply andb_true_iff in Hok as [Hok ?]).
  destruct (int64_scalar (lc_ExpiresAt c)) as [Hz Ha]; [done|].
  unfold unmarshal_launch. rewrite unmarshal_object.
  - unfold launch_fields. destruct c as [sid uid aid act rid exp ver]. cbn [lc_SessionID lc_UserID
      lc_AssetID lc_Action lc_RequestID lc_ExpiresAt lc_Version app] in *.
    case_bool_decide as Er; cbn [app];
      repeat (erewrite assign_all_cons by (apply struct_field_exact; apply (bool_decide_unpack _); by vm_compute);
        cbn [scalar_json assign_launch to_string to_int64];
        repeat first [rewrite bool_decide_true by done|rewrite bool_decide_false by done];
        rewrite ?Ha; cbn [mbind option_bind]).
    + by subst.
    + done.
  - done.
  - unfold launch_fields. rewrite !forallb_app. cbn [forallb]. unfold field_ok. cbn [fst snd scalar_ok].
    rewrite Hz. destruct (bool_decide (lc_RequestID c = [])); cbn [forallb fst snd scalar_ok];
      repeat match goal with H : _ = true |- _ => rewrite H; clear H end; by vm_compute.
Qed.
End Lemmas.

Section Bootstraps.
Context `{Unicode}.

Definition bootstrap_ok (c : ConnectorBootstrapClaims) : bool :=
  utf8_valid (bc_Origin c) && utf8_valid (bc_BackendVerify c) && utf8_valid (bc_IssuedForUser c)
  && utf8_valid (bc_Version c) && int64 (bc_ExpiresAt c).

Lemma bootstrap_fields_ok c : bootstrap_ok c = true → forallb field_ok (bootstrap_fields c) = true.
Proof.
  unfold bootstrap_ok. intros Hok. repeat (apply andb_true_iff in Hok as [Hok ?]).
  destruct (int64_scalar (bc_ExpiresAt c)) as [Hz _]; [done|].
  unfold bootstrap_fields. rewrite !forallb_app. cbn [forallb]. unfold field_ok. cbn [fst snd scalar_ok].
  rewrite Hz. destruct (bool_decide (bc_IssuedForUser c = [])); cbn [forallb fst snd scalar_ok];
    repeat match goal with H : _ = true |- _ => rewrite H; clear H end; by vm_compute.
Qed.

Lemma unmarshal_bootstrap_fields c : bootstrap_ok c = true →
  unmarshal_bootstrap (json_object (bootstrap_fields c)) = Some c.
Proof.
  intros Hok. unfold unmarshal_bootstrap. rewrite unmarshal_object by (done || by apply bootstrap_fields_ok).
  unfold bootstrap_ok in Hok. repeat (apply andb_true_iff in Hok as [Hok ?]).
  destruct (int64_scalar (bc_ExpiresAt c)) as [_ Ha]; [done|].
  unfold bootstrap_fields. destruct c as [origin verify user exp ver].
  cbn [bc_Origin bc_BackendVerify bc_IssuedForUser bc_ExpiresAt bc_Version app] in *.
  case_bool_decide as Er; cbn [app];
    repeat (erewrite assign_all_cons by (apply struct_field_exact; apply (bool_decide_unpack _); by vm_compute);
      cbn [scalar_json assign_bootstrap to_string to_int64];
      repeat first [rewrite bool_decide_true by done|rewrite bool_decide_false by done];
      rewrite ?Ha; cbn [mbind option_bind]).
  - by subst.
  - done.
Qed.

(** Keys the launch claims do not have are skipped. *)
Lemma assign_all_skip {T} names (assign : bytes → json → T → option T) c k v fs :
  struct_field names k = None →
  assign_all names assign (Some c) ((k, v) :: fs) = assign_all names assign (Some c) fs.
Proof. intros Hn. unfold assign_all. cbn [fold_left mbind option_bind fst snd]. by rewrite Hn. Qed.

Lemma unmarshal_launch_bootstrap c : bootstrap_ok c = true →
  unmarshal_launch (json_object (bootstrap_fields c))
  = Some (LaunchClaims [] [] [] [] [] (bc_ExpiresAt c) (bc_Version c)).
Proof.
  intros Hok. unfold unmarshal_launch. rewrite unmarshal_object by (done || by apply bootstrap_fields_ok).
  unfold bootstrap_ok in Hok. repeat (apply andb_true_iff in Hok as [Hok ?]).
  destruct (int64_scalar (bc_ExpiresAt c)) as [_ Ha]; [done|].
  unfold bootstrap_fields. destruct c as [origin verify user exp ver].
  cbn [bc_Origin bc_BackendVerify bc_IssuedForUser bc_ExpiresAt bc_Version app] in *.
  assert (Htail : assign_all launch_names assign_launch (Some (LaunchClaims [] [] [] [] [] 0 []))
      [(§"exp", SInt exp); (§"v", SStr ver)] = Some (LaunchClaims [] [] [] [] [] exp ver)).
  { repeat (erewrite assign_all_cons by (apply struct_field_exact; apply (bool_decide_unpack _); by vm_compute);
      cbn [scalar_json assign_launch to_string to_int64];
      repeat first [rewrite bool_decide_true by done|rewrite bool_decide_false by done];
      rewrite ?Ha; cbn [mbind option_bind]). done. }
  rewrite !assign_all_skip by (by vm_compute). case_bool_decide; cbn [app]; [exact Htail|].
  rewrite assign_all_skip by (by vm_compute). exact Htail.
Qed.
End Bootstraps.

Section RoundTrip.
Context `{Unicode}.

Lemma verify_signed secret c now t :
  launch_ok c = true → Sign secret c = inl t →
  Verify secret now t =
    if lc_ExpiresAt c <=? now then inr ErrLaunchExpired
    else inl (LaunchClaims (lc_SessionID c) (lc_UserID c) (lc_AssetID c) (lc_Action c)
                (lc_RequestID c) (lc_ExpiresAt c) tokenVersion).
Proof.
  unfold Sign. intros Hok Ht. destruct (_ || _); [done|]. injection Ht as <-.
  unfold Verify. rewrite signed_body_sign, unmarshal_launch_fields; [by rewrite bool_decide_true|].
  unfold launch_ok in *. repeat (apply andb_true_iff in Hok as [Hok ?]).
  cbn [lc_SessionID lc_UserID lc_AssetID lc_Action lc_RequestID lc_ExpiresAt lc_Version].
  repeat match goal with H : _ = true |- _ => rewrite H; clear H end. by vm_compute.
Qed.


Lemma sign_trimmed secret c t : Sign secret c = inl t → TrimSpace t = t.
Proof.
  unfold Sign. destruct (_ || _); [done|]. intros [= <-]. apply TrimSpace_plain, token_plain.
Qed.
End RoundTrip.

(** * Properties *)

#[local] Existing Instance ascii_tables.

Section Samples.
Definition sample_claims : LaunchTokenClaims :=
  LaunchClaims §"s1" §"u1" §"a1" §"shell" §"r<1>" 1700000000 [].
Definition sample_bootstrap : ConnectorBootstrapClaims :=
  BootstrapClaims §"https://pam.example" §"https://pam.example/api/connector/token/verify" §"u1" 1700000000 [].
Definition sample_token (s : bytes + error) : bytes := match s with inl t => t | inr _ => [] end.
End Samples.

(** Round trip of launch tokens: whatever the claims (any UTF-8 text in
    their fields), checking a signed token at a time before its expiry gives
    back the claims, stamped with the version; from the expiry on it gives the
    expiry error. *)
Theorem Verify_Sign `{Unicode} secret c now t :
  launch_ok c = true → Sign secret c = inl t →
  Verify secret now t =
    if lc_ExpiresAt c <=? now then inr ErrLaunchExpired
    else inl (LaunchClaims (lc_SessionID c) (lc_UserID c) (lc_AssetID c) (lc_Action c)
                (lc_RequestID c) (lc_ExpiresAt c) tokenVersion).
Proof. apply verify_signed. Qed.

Lemma Verify_Sign_witness :
  let t := sample_token (Sign §"secret" sample_claims) in
  Verify §"secret" 1699999999 t = inl (LaunchClaims §"s1" §"u1" §"a1" §"shell" §"r<1>" 1700000000 §"v1").
Proof.
  intros t. exact (@Verify_Sign ascii_tables §"secret" sample_claims 1699999999 t
    ltac:(vm_compute; reflexivity) ltac:(vm_compute; reflexivity)).
Defined.

(** No token without the key: a token that is accepted is a body, a dot
    and a signature that decodes to the HMAC-SHA256 of that body's text under
    the secret; the claims are the ones in the body, of the right version, and
    the time is before their expiry. *)
Theorem Verify_accepts_only_signed `{Unicode} secret now token c :
  Verify secret now token = inl c →
  ∃ bodyPart sigPart body, SplitByte (TrimSpace token) "."%byte = [bodyPart; sigPart]
    ∧ b64_decode sigPart = Some (hmac_sha256 secret bodyPart)
    ∧ b64_decode bodyPart = Some body ∧ unmarshal_launch body = Some c
    ∧ lc_Version c = tokenVersion ∧ now < lc_ExpiresAt c.
Proof.
  unfold Verify. destruct (signed_body _ secret token) as [body|e] eqn:Eb; [|done].
  destruct (unmarshal_launch body) as [c'|] eqn:Eu; [|done].
  case_bool_decide as Hv; [|done]. cbn [negb]. destruct (_ <=? _) eqn:Ee; [done|]. intros [= ->].
  apply signed_body_sound in Eb as (p & q & Hs & Hq & Hp). exists p, q, body. gobool. auto 10.
Qed.

Lemma Verify_accepts_only_signed_witness :
  let t := sample_token (Sign §"secret" sample_claims) in
  ∃ bodyPart sigPart body, SplitByte (TrimSpace t) "."%byte = [bodyPart; sigPart]
    ∧ b64_decode sigPart = Some (hmac_sha256 §"secret" bodyPart)
    ∧ b64_decode bodyPart = Some body
    ∧ unmarshal_launch body = Some (LaunchClaims §"s1" §"u1" §"a1" §"shell" §"r<1>" 1700000000 §"v1")
    ∧ §"v1" = tokenVersion ∧ 5 < 1700000000.
Proof.
  intros t. exact (@Verify_accepts_only_signed ascii_tables §"secret" 5 t
    (LaunchClaims §"s1" §"u1" §"a1" §"shell" §"r<1>" 1700000000 §"v1") ltac:(vm_compute; reflexivity)).
Defined.

(** Round trip of bootstrap tokens, with the expiry. *)
Theorem VerifyBootstrap_SignBootstrap `{Unicode} secret c now t :
  bootstrap_ok c = true → SignBootstrap secret c = inl t →
  VerifyBootstrap secret now t =
    if bc_ExpiresAt c <=? now then inr ErrLaunchExpired
    else inl (BootstrapClaims (bc_Origin c) (bc_BackendVerify c) (bc_IssuedForUser c)
                (bc_ExpiresAt c) tokenVersion).
Proof.
  unfold SignBootstrap. intros Hok Ht. destruct (_ || _) eqn:Eg; [done|]. injection Ht as <-.
  apply orb_false_iff in Eg as [Eg _].
  unfold VerifyBootstrap. rewrite signed_body_sign, unmarshal_bootstrap_fields;
    [rewrite bool_decide_true by done; cbn [negb bc_ExpiresAt bc_Origin bc_BackendVerify]; by rewrite Eg|].
  unfold bootstrap_ok in *. repeat (apply andb_true_iff in Hok as [Hok ?]).
  cbn [bc_Origin bc_BackendVerify bc_IssuedForUser bc_ExpiresAt bc_Version].
  repeat match goal with H : _ = true |- _ => rewrite H; clear H end. by vm_compute.
Qed.

Lemma VerifyBootstrap_SignBootstrap_witness :
  let t := sample_token (SignBootstrap §"secret" sample_bootstrap) in
  VerifyBootstrap §"secret" 1700000000 t = inr ErrLaunchExpired.
Proof.
  intros t. exact (@VerifyBootstrap_SignBootstrap ascii_tables §"secret" sample_bootstrap 1700000000 t
    ltac:(vm_compute; reflexivity) ltac:(vm_compute; reflexivity)).
Defined.

(** The two kinds of token are not told apart: bootstrap tokens are signed
    with the launch secret and carry the same version, so the launch verifier
    accepts every one of them, as claims with empty session, user, asset and
    action (which [Sign] would refuse). *)
Theorem bootstrap_tokens_verify_as_launch_tokens `{Unicode} secret c now t :
  bootstrap_ok c = true → SignBootstrap secret c = inl t → now < bc_ExpiresAt c →
  Verify secret now t = inl (LaunchClaims [] [] [] [] [] (bc_ExpiresAt c) tokenVersion).
Proof.
  unfold SignBootstrap. intros Hok Ht Hn. destruct (_ || _); [done|]. injection Ht as <-.
  unfold Verify. rewrite signed_body_sign, unmarshal_launch_bootstrap.
  - rewrite bool_decide_true by done. cbn [negb lc_ExpiresAt bc_ExpiresAt].
    by rewrite (proj2 (Z.leb_gt _ _)).
  - unfold bootstrap_ok in *. repeat (apply andb_true_iff in Hok as [Hok ?]).
    cbn [bc_Origin bc_BackendVerify bc_IssuedForUser bc_ExpiresAt bc_Version].
    repeat match goal with H : _ = true |- _ => rewrite H; clear H end. by vm_compute.
Qed.

Lemma bootstrap_tokens_verify_as_launch_tokens_witness :
  let t := sample_token (SignBootstrap §"secret" sample_bootstrap) in
  Verify §"secret" 5 t = inl (LaunchClaims [] [] [] [] [] 1700000000 §"v1").
Proof.
  intros t. exact (@bootstrap_tokens_verify_as_launch_tokens ascii_tables §"secret" sample_bootstrap 5 t
    ltac:(vm_compute; reflexivity) ltac:(vm_compute; reflexivity) ltac:(vm_compute; reflexivity)).
Defined.
