(* ===== verification/ProxyEvents.v ===== *)
(** Data the proxies share with the sessions service: the launch context of a
    session and the calls a proxy makes to record what happens on it
    (apps/api/internal/sessions/service.go), as entries of a proxy's trace. *)
From S2P Require Import Prelude GoStrings GoIO.

Definition ProtocolSSH : bytes := §"ssh".
Definition ProtocolSFTP : bytes := §"sftp".
Definition ProtocolDB : bytes := §"database".
Definition ProtocolRedis : bytes := §"redis".

Definition TypeLinuxVM : bytes := §"linux_vm".
Definition TypeDatabase : bytes := §"database".
Definition TypeRedis : bytes := §"redis".

(** [LaunchContext]; times are in nanoseconds since the Unix epoch. *)
Record LaunchContext := {
  l_SessionID : bytes;
  l_UserID : bytes;
  l_AssetID : bytes;
  l_AssetName : bytes;
  l_RequestID : bytes;
  l_Action : bytes;
  l_Protocol : bytes;
  l_AssetType : bytes;
  l_Host : bytes;
  l_Port : Z;
  l_UpstreamUsername : bytes;
  l_Status : bytes;
  l_ExpiresAt : Z;
}.

(** [queryLogEvent] of the SQL proxies. *)
Record queryLogEvent := QueryLog {
  q_SessionID : bytes;
  q_UserID : bytes;
  q_AssetID : bytes;
  q_RequestID : bytes;
  q_Engine : bytes;
  q_Query : bytes;
  q_EventTime : Z;
  q_ProtocolType : bytes;
  q_Prepared : bool;
}.

(** [commandLogEvent] of the Redis proxy. *)
Record commandLogEvent := CommandLog {
  e_SessionID : bytes;
  e_UserID : bytes;
  e_AssetID : bytes;
  e_RequestID : bytes;
  e_Command : bytes;
  e_Args : list bytes;
  e_Dangerous : bool;
  e_EventTime : Z;
  e_RemoteAddr : bytes;
}.

(** A call from a proxy into the sessions service or its own log queue.  The
    proxies only log a warning when one of these fails, so no result flows
    back. *)
Inductive call :=
| MarkProxyConnected (l : LaunchContext) (remote_addr : bytes)
| MarkUpstreamConnected (l : LaunchContext)
| RecordCredentialUsage (l : LaunchContext) (credential_type stage request_id : bytes)
| MarkEnded (l : LaunchContext) (reason : bytes)
| MarkFailed (l : LaunchContext) (reason : bytes)
| LogCommand (e : commandLogEvent)
| LogQuery (e : queryLogEvent).

Abbreviation world := (duplex call).
Abbreviation event := (effect call).

(** A credential resolved for an asset (internal/credentials). *)
Record credential := Credential { cr_Username : bytes; cr_Secret : bytes }.

Section Events.
Definition is_terminal (e : event) : bool :=
  match e with Enqueue (MarkEnded _ _) | Enqueue (MarkFailed _ _) => true | _ => false end.
Definition is_log (e : event) : bool :=
  match e with Enqueue (LogCommand _) | Enqueue (LogQuery _) => true | _ => false end.
Definition is_forward (e : event) : bool :=
  match e with ToUpstream _ => true | _ => false end.
End Events.

(** * Runs on a world *)

Lemma write_spec (side : bytes → event) b w :
  ∃ o p w', write_to side b w = (o, w') ∧ p `prefix_of` b
    ∧ dx_trace w' = dx_trace w ++ [side p] ∧ dx_client w' = dx_client w
    ∧ dx_upstream w' = dx_upstream w ∧ o ≠ OutOfFuel
    ∧ (dx_faults w = [] → o = Ok tt ∧ p = b ∧ dx_faults w' = []).
Proof.
  unfold write_to. destruct (dx_faults w) as [|[[k e]|] fs] eqn:E; cbn.
  - eexists _, b, _. split_and!; try done; reflexivity.
  - eexists _, (take k b), _. split_and!; try done. exists (drop k b). by rewrite take_drop.
  - eexists _, b, _. split_and!; try done; reflexivity.
Qed.

Lemma upstream_read_spec {A} (m : M reader A) (w : world) :
  ∃ o u, m (dx_upstream w) = (o, u)
    ∧ upstream_read m w = (o, Duplex (dx_client w) u (dx_faults w) (dx_trace w)).
Proof. unfold upstream_read, zoom. destruct (m _) as [o u]. eauto. Qed.

(** [adds P w w']: the trace grew by events that satisfy [P]. *)
Definition adds (P : event → bool) (w w' : world) : Prop :=
  ∃ t, dx_trace w' = dx_trace w ++ t ∧ forallb P t = true.

#[export] Instance adds_preorder P : PreOrder (adds P).
Proof.
  split.
  - intros w. exists []. by rewrite app_nil_r.
  - intros u v w (s & Hs & Ps) (t & Ht & Pt). exists (s ++ t).
    rewrite Ht, Hs, app_assoc, forallb_app. by rewrite Ps, Pt.
Qed.

(** [ends m]: a call on the world never runs out of fuel. *)
Definition ends {A} (m : M world A) : Prop := ∀ w, (m w).1 ≠ OutOfFuel.

Lemma ends_bind {A B} (m : M world A) (k : A → M world B) :
  ends m → (∀ a, ends (k a)) → ends (bind m k).
Proof.
  intros Hm Hk w. unfold bind. specialize (Hm w). destruct (m w) as [[a| | |] w']; cbn in *; try done.
  apply Hk.
Qed.
Lemma ends_write side b : ends (write_to side b).
Proof. intros w. destruct (write_spec side b w) as (o & p & w' & -> & H). apply H. Qed.
Lemma ends_read {A} (m : M reader A) : (∀ r, (m r).1 ≠ OutOfFuel) → ends (upstream_read m).
Proof. intros Hm w. unfold upstream_read, zoom. specialize (Hm (dx_upstream w)). by destruct (m _). Qed.
Lemma ends_wrap {A} msg (m : M world A) : ends m → ends (wrap_err msg m).
Proof. intros Hm w. unfold wrap_err. specialize (Hm w). by destruct (m w) as [[]?]. Qed.

Section Adds.
Context (P : event → bool).

Lemma adds_emit e : P e = true → keeps (adds P) (emit e).
Proof. intros He w. exists [e]. cbn. by rewrite He. Qed.
Lemma adds_upstream_read {A} (m : M reader A) : keeps (adds P) (upstream_read m).
Proof.
  intros w. unfold upstream_read, zoom. destruct (m _). exists []. cbn. by rewrite app_nil_r.
Qed.
Lemma adds_write side b : (∀ p, P (side p) = true) → keeps (adds P) (write_to side b).
Proof.
  intros Hs w. destruct (write_spec side b w) as (o & p & w' & -> & _ & Ht & _).
  exists [side p]. cbn. by rewrite Hs.
Qed.
End Adds.

Lemma ends_ret {A} (a : A) : ends (ret a).
Proof. done. Qed.
Lemma ends_fail {A} e : ends (fail (A:=A) e).
Proof. done. Qed.
Lemma ends_client_read {A} (m : M reader A) : (∀ r, (m r).1 ≠ OutOfFuel) → ends (client_read m).
Proof. intros Hm w. unfold client_read, zoom. specialize (Hm (dx_client w)). by destruct (m _). Qed.
Lemma ends_try {A} (m : M world A) : ends m → ends (try m).
Proof. intros Hm w. unfold try. specialize (Hm w). by destruct (m w) as [[]?]. Qed.
Lemma ends_get {A} (k : world → M world A) : (∀ w, (k w w).1 ≠ OutOfFuel) → ends (bind get k).
Proof. intros Hk w. apply Hk. Qed.

Lemma adds_client_read P {A} (m : M reader A) : keeps (adds P) (client_read m).
Proof.
  intros w. unfold client_read, zoom. destruct (m _). exists []. cbn. by rewrite app_nil_r.
Qed.
Lemma adds_modify P (f : world → world) :
  (∀ w, dx_trace (f w) = dx_trace w) → keeps (adds P) (modify f).
Proof. intros Hf w. exists []. cbn. by rewrite Hf, app_nil_r. Qed.
Lemma adds_weaken P Q (w w' : world) :
  (∀ e, P e = true → Q e = true) → adds P w w' → adds Q w w'.
Proof.
  intros HPQ (t & Ht & HP). exists t. split; [done|].
  rewrite !forallb_forall in *. auto.
Qed.
