(* ===== verification/Redis.v ===== *)
(** The Redis proxy (apps/api/internal/redisproxy/server.go): the handling of
    one client connection, from [handleSessionConn] to the command loop.

    One run of [handleSessionConn] is one connection.  The client's and the
    upstream's bytes are the readers of the [world]; what the proxy writes and
    records is its trace.  The dial, the TLS handshake, the credential lookup
    and the token resolution are answers of the environment: any answer is
    possible, so they are parameters of the section. *)
From S2P Require Import Prelude GoStrings GoIO Resp ProxyEvents.

Record SessionRegistration := {
  r_SessionID : bytes;
  r_UserID : bytes;
  r_AssetID : bytes;
  r_AssetName : bytes;
  r_UpstreamHost : bytes;
  r_UpstreamPort : Z;
  r_UseTLS : bool;
  r_InsecureSkipVerifyTLS : bool;
  r_Database : Z;
  r_ClientAuthToken : bytes;
  r_RequestID : bytes;
}.

(** What the environment answers during a session. *)
Record environment := {
  env_remote_addr : bytes;
  (** [net.DialTimeout], and the TLS handshake for the given server name and
      verification setting. *)
  env_dial : option error;
  env_tls : bytes → bool → option error;
  (** [credSvc.ResolveForAsset]. *)
  env_credential : bytes → credential + error;
  (** [sessionsSvc.ResolveLaunchToken], which reads the database at the time of
      the call: a function of how far the session got. *)
  env_resolve : nat → bytes → LaunchContext + error;
  (** Bytes the private buffer of [authenticateAndSelectUpstream] had read
      ahead and takes with it when it goes out of scope. *)
  env_read_ahead : nat;
  (** [time.Now()] at each point of the trace. *)
  env_clock : nat → Z;
}.

(** [RegisterSession], up to the listener: the normalised registration. *)
Definition normalizeRegistration (reg : SessionRegistration) : SessionRegistration + error :=
  let reg := {|
    r_SessionID := TrimSpace (r_SessionID reg);
    r_UserID := TrimSpace (r_UserID reg);
    r_AssetID := TrimSpace (r_AssetID reg);
    r_AssetName := TrimSpace (r_AssetName reg);
    r_UpstreamHost := TrimSpace (r_UpstreamHost reg);
    r_UpstreamPort := r_UpstreamPort reg;
    r_UseTLS := r_UseTLS reg;
    r_InsecureSkipVerifyTLS := r_InsecureSkipVerifyTLS reg;
    r_Database := r_Database reg;
    r_ClientAuthToken := TrimSpace (r_ClientAuthToken reg);
    r_RequestID := TrimSpace (r_RequestID reg) |} in
  if bool_decide (r_SessionID reg = []) || bool_decide (r_UserID reg = [])
     || bool_decide (r_AssetID reg = [])
  then inr (Errorf §"session_id, user_id, and asset_id are required")
  else if bool_decide (r_UpstreamHost reg = []) || (r_UpstreamPort reg <=? 0)
          || (65535 <? r_UpstreamPort reg)
  then inr (Errorf §"upstream host and port are required")
  else inl {|
    r_SessionID := r_SessionID reg;
    r_UserID := r_UserID reg;
    r_AssetID := r_AssetID reg;
    r_AssetName := r_AssetName reg;
    r_UpstreamHost := r_UpstreamHost reg;
    r_UpstreamPort := r_UpstreamPort reg;
    r_UseTLS := r_UseTLS reg;
    r_InsecureSkipVerifyTLS := r_InsecureSkipVerifyTLS reg;
    r_Database := if r_Database reg <? 0 then 0 else r_Database reg;
    r_ClientAuthToken := r_ClientAuthToken reg;
    r_RequestID := r_RequestID reg |}.

Definition launchContext (reg : SessionRegistration) : LaunchContext := {|
  l_SessionID := r_SessionID reg;
  l_UserID := r_UserID reg;
  l_AssetID := r_AssetID reg;
  l_AssetName := r_AssetName reg;
  l_RequestID := r_RequestID reg;
  l_Action := §"redis";
  l_Protocol := ProtocolRedis;
  l_AssetType := TypeRedis;
  l_Host := r_UpstreamHost reg;
  l_Port := r_UpstreamPort reg;
  l_UpstreamUsername := [];
  l_Status := [];
  l_ExpiresAt := 0 |}.

Definition with_upstream_username (l : LaunchContext) (u : bytes) : LaunchContext := {|
  l_SessionID := l_SessionID l; l_UserID := l_UserID l; l_AssetID := l_AssetID l;
  l_AssetName := l_AssetName l; l_RequestID := l_RequestID l; l_Action := l_Action l;
  l_Protocol := l_Protocol l; l_AssetType := l_AssetType l; l_Host := l_Host l;
  l_Port := l_Port l; l_UpstreamUsername := u; l_Status := l_Status l;
  l_ExpiresAt := l_ExpiresAt l |}.

Definition launchContextMatchesRedisSession (l : LaunchContext) (reg : SessionRegistration) : bool :=
  bool_decide (l_SessionID l = r_SessionID reg) && bool_decide (l_UserID l = r_UserID reg) &&
  bool_decide (l_AssetID l = r_AssetID reg) && bool_decide (l_Action l = §"redis") &&
  bool_decide (l_Protocol l = ProtocolRedis) && bool_decide (l_AssetType l = TypeRedis).

Definition dangerous_commands : list bytes :=
  [§"FLUSHDB"; §"FLUSHALL"; §"DEL"; §"CONFIG"; §"KEYS"; §"SET"; §"EXPIRE"; §"EVAL"; §"EVALSHA"].
Definition isDangerousCommand `{Unicode} (cmd : bytes) : bool :=
  bool_decide (ToUpper (TrimSpace cmd) ∈ dangerous_commands).

Definition truncateArg (v : bytes) (maxLen : Z) : bytes :=
  let trimmed := TrimSpace v in
  if (maxLen <=? 0) || (zlen trimmed <=? maxLen) then trimmed
  else take (Z.to_nat maxLen) trimmed ++ §"...".

(** The entry of the summary for argument [i]. *)
Definition cleanArg `{Unicode} (up : bytes) (args : list bytes) (maxLen : Z) (i : nat) (arg : bytes) : bytes :=
  let clean := truncateArg arg maxLen in
  let first := default [] (head args) in
  if bool_decide (up = §"AUTH") then §"<redacted>"
  else if bool_decide (up = §"SET") then
    if (i =? 1)%nat then §"<redacted_value>" else clean
  else if bool_decide (up = §"MSET") || bool_decide (up = §"HMSET") then
    if (i mod 2 =? 1)%nat then §"<redacted_value>" else clean
  else if bool_decide (up = §"CONFIG") then
    if (3 <=? length args)%nat && EqualFold first §"set" && (2 <=? i)%nat
    then §"<redacted_value>" else clean
  else if bool_decide (up = §"EVAL") then
    if (i =? 0)%nat then §"<redacted_script>" else clean
  else if bool_decide (up = §"ACL") then
    if (2 <=? length args)%nat && EqualFold first §"setuser" && (2 <=? i)%nat
    then §"<redacted>" else clean
  else clean.

Fixpoint summarize_loop `{Unicode} (up : bytes) (args : list bytes) (maxLen : Z)
    (i : nat) (rest out : list bytes) : list bytes :=
  match rest with
  | [] => out
  | arg :: rest' =>
      let out := out ++ [cleanArg up args maxLen i arg] in
      if (10 <=? length out)%nat then out ++ [§"<truncated>"]
      else summarize_loop up args maxLen (S i) rest' out
  end.
Definition summarizeArgs `{Unicode} (cmd : bytes) (args : list bytes) (maxLen : Z) : list bytes :=
  summarize_loop (ToUpper (TrimSpace cmd)) args maxLen 0 args [].

Section Proxy.
Context `{Unicode} (env : environment) (reg : SessionRegistration).

Definition here : M world nat := let! w := get in ret (length (dx_trace w)).

Definition NOAUTH : bytes := §"-NOAUTH Authentication required by AccessD proxy" ++ CRLF.
Definition ERR_payload : bytes := §"-ERR invalid AUTH payload" ++ CRLF.
Definition ERR_token : bytes := §"-ERR invalid AccessD launch token" ++ CRLF.
Definition OK_reply : bytes := §"+OK" ++ CRLF.

Definition connectUpstream : M world unit :=
  match env_dial env with
  | Some e => fail e
  | None =>
      if negb (r_UseTLS reg) then ret tt else
      match env_tls env (r_UpstreamHost reg) (negb (r_InsecureSkipVerifyTLS reg)) with
      | Some e => fail (Wrap §"redis upstream tls handshake" e)
      | None => ret tt
      end
  end.

(** One request to the upstream and its reply, which must not be an error. *)
Definition upstream_request (args : list bytes) (what : bytes) : M world unit :=
  do! upstream_write (buildRESPCommand args) in
  let! resp := upstream_read readRESPFrameRaw in
  if isRESPError resp then fail (Errorf (what ++ §": " ++ firstRESPLineText resp)) else ret tt.

Definition authenticateAndSelectUpstream (username password : bytes) (database : Z) : M world unit :=
  do! (if negb (bool_decide (TrimSpace password = []))
       then upstream_request (authCommandArgs username password) §"upstream auth failed"
       else ret tt) in
  do! (if 0 <? database
       then upstream_request [§"SELECT"; Itoa database] §"upstream select failed"
       else ret tt) in
  upstream_read (modify (λ r, Reader (drop (env_read_ahead env) (rd_buf r)) (rd_end r))).

Definition validateClientToken (at_ : nat) (token : bytes) : bool :=
  if bool_decide (TrimSpace (r_ClientAuthToken reg) = []) then false
  else if negb (bool_decide (TrimSpace token = TrimSpace (r_ClientAuthToken reg))) then false
  else match env_resolve env at_ token with
       | inr _ => false
       | inl l => launchContextMatchesRedisSession l reg
       end.

Definition commandLog (at_ : nat) (c : command) : commandLogEvent := {|
  e_SessionID := r_SessionID reg;
  e_UserID := r_UserID reg;
  e_AssetID := r_AssetID reg;
  e_RequestID := r_RequestID reg;
  e_Command := c_cmd c;
  e_Args := c_args c;
  e_Dangerous := isDangerousCommand (c_cmd c);
  e_EventTime := env_clock env at_;
  e_RemoteAddr := env_remote_addr env |}.

(** Forward the raw request and relay one reply. *)
Definition exchange (raw : bytes) : M world unit :=
  do! upstream_write raw in
  let! resp := upstream_read readRESPFrameRaw in
  client_write resp.

(** The body of the loop for one command: the new [clientAuthenticated]. *)
Definition handle_command (authed : bool) (c : command) : M world bool :=
  if bool_decide (c_cmd c = []) then do! exchange (c_raw c) in ret authed
  else if negb authed then
    if negb (bool_decide (c_cmd c = §"AUTH")) then do! client_write NOAUTH in ret false
    else
      let token := extractClientAuthToken (c_args c) in
      if bool_decide (token = []) then do! client_write ERR_payload in ret false
      else
        let! now := here in
        if negb (validateClientToken now token) then do! client_write ERR_token in ret false
        else do! client_write OK_reply in ret true
  else if bool_decide (c_cmd c = §"AUTH") then do! client_write OK_reply in ret true
  else
    let! now := here in
    do! enqueue (LogCommand (commandLog now c)) in
    do! exchange (c_raw c) in
    ret true.

Fixpoint command_loop (fuel : nat) (authed : bool) : M world unit :=
  match fuel with
  | O => nofuel
  | S f =>
      let! r := try (client_read readRESPCommand) in
      match r with
      | inr e => if errors_is e §"io.EOF" then ret tt else fail (Wrap §"read client command" e)
      | inl c => let! authed' := handle_command authed c in command_loop f authed'
      end
  end.

Definition run_loop : M world unit :=
  let! w := get in
  command_loop (S (length (rd_buf (dx_client w))))
               (bool_decide (TrimSpace (r_ClientAuthToken reg) = [])).

Definition runProxyFlow : M world unit :=
  let l := launchContext reg in
  do! wrap_err §"connect upstream" connectUpstream in
  match env_credential env (r_AssetID reg) with
  | inr e => fail (Wrap §"resolve redis credential" e)
  | inl cred =>
      let l := with_upstream_username l (TrimSpace (cr_Username cred)) in
      do! enqueue (RecordCredentialUsage l §"password" §"proxy_upstream_auth" (r_RequestID reg)) in
      do! wrap_err §"upstream auth/select"
            (authenticateAndSelectUpstream (cr_Username cred) (cr_Secret cred) (r_Database reg)) in
      do! enqueue (MarkUpstreamConnected l) in
      run_loop
  end.

Definition handleSessionConn : M world unit :=
  let l := launchContext reg in
  do! enqueue (MarkProxyConnected l (env_remote_addr env)) in
  let! r := try runProxyFlow in
  match r with
  | inr e => do! enqueue (MarkFailed l §"redis_proxy_failed") in fail e
  | inl _ => enqueue (MarkEnded l §"redis_client_disconnected")
  end.
End Proxy.

(** * The session protocol

    What a run of the command loop may look like, as a labelled state machine
    over the [clientAuthenticated] flag: each command parsed off the client's
    stream adds a [step_trace] to the trace. *)
Section Protocol.
Context `{Unicode} (env : environment) (reg : SessionRegistration).

Inductive forward_trace (raw : bytes) : list event → Prop :=
| fwd_sent b : b `prefix_of` raw → forward_trace raw [ToUpstream b]
| fwd_replied b b' : b `prefix_of` raw → forward_trace raw [ToUpstream b; ToClient b'].

Inductive step_trace (n : nat) (c : command) : bool → list event → bool → Prop :=
| st_raw a t : c_cmd c = [] → forward_trace (c_raw c) t → step_trace n c a t a
| st_noauth b : c_cmd c ≠ [] → c_cmd c ≠ §"AUTH" → step_trace n c false [ToClient b] false
| st_reject b : c_cmd c = §"AUTH" → step_trace n c false [ToClient b] false
| st_accept b : c_cmd c = §"AUTH" →
    validateClientToken env reg n (extractClientAuthToken (c_args c)) = true →
    step_trace n c false [ToClient b] true
| st_reauth b : c_cmd c = §"AUTH" → step_trace n c true [ToClient b] true
| st_command t : c_cmd c ≠ [] → c_cmd c ≠ §"AUTH" → forward_trace (c_raw c) t →
    step_trace n c true (Enqueue (LogCommand (commandLog env reg n c)) :: t) true.

(** [c] is a command the parser found on the client's stream [r0]. *)
Definition parsed (r0 : reader) (c : command) : Prop :=
  ∃ r r', consumed r0 r ∧ readRESPCommand r = (Ok c, r').

Inductive loop_trace (r0 : reader) : nat → bool → list event → Prop :=
| lt_done n a : loop_trace r0 n a []
| lt_step n a c t a' t' : parsed r0 c → step_trace n c a t a' →
    loop_trace r0 (n + length t) a' t' → loop_trace r0 n a (t ++ t').
End Protocol.

Section Lemmas.
Context `{Unicode} (env : environment) (reg : SessionRegistration).

Lemma exchange_spec raw w :
  ∃ o w' t, exchange raw w = (o, w') ∧ forward_trace raw t
    ∧ dx_trace w' = dx_trace w ++ t ∧ dx_client w' = dx_client w ∧ o ≠ OutOfFuel.
Proof.
  unfold exchange, upstream_write. unfold bind at 1.
  destruct (write_spec ToUpstream raw w) as (o & p & w1 & -> & Hp & Ht & Hc & _ & Ho & _).
  destruct o as [[]| | |]; try done;
    [|eexists _, _, _; split_and!; [done|by apply fwd_sent|done..]..].
  unfold bind. destruct (upstream_read_spec readRESPFrameRaw w1) as (o & u & Hm & ->).
  assert (Hf : o ≠ OutOfFuel).
  { replace o with (readRESPFrameRaw (dx_upstream w1)).1 by (by rewrite Hm).
    by apply (fuelled_readRESPFrameRaw (length (rd_buf (dx_upstream w1)))). }
  destruct o as [resp| | |]; try done;
    [|eexists _, _, _; split_and!; [done|by apply fwd_sent|done..]..].
  unfold client_write. set (w2 := Duplex _ _ _ _).
  destruct (write_spec ToClient resp w2) as (o & q & w3 & -> & _ & Ht3 & Hc3 & _ & Ho3 & _).
  eexists _, _, [ToUpstream p; ToClient q]. split_and!; [done|by apply fwd_replied| | |done].
  - rewrite Ht3. cbn. by rewrite Ht, <- app_assoc.
  - by rewrite Hc3.
Qed.

(** A run of [m] adds a trace of the protocol and leaves the client's stream. *)
Definition steps (n : nat) (a : bool) (c : command) (w : world)
    (p : outcome bool * world) : Prop :=
  ∃ t a', step_trace env reg n c a t a' ∧ dx_trace p.2 = dx_trace w ++ t
    ∧ dx_client p.2 = dx_client w ∧ p.1 ≠ OutOfFuel ∧ (∀ b, p.1 = Ok b → b = a').

Lemma steps_reply n a a' c w b :
  (∀ q, step_trace env reg n c a [ToClient q] a') →
  steps n a c w (bind (client_write b) (λ _, ret a') w).
Proof.
  intros Hs. unfold bind, client_write.
  destruct (write_spec ToClient b w) as (o & p & w' & -> & _ & Ht & Hc & _ & Ho & _).
  exists [ToClient p], a'. destruct o as [[]| | |]; cbn; split_and!; naive_solver.
Qed.

Lemma handle_command_spec a c w :
  steps (length (dx_trace w)) a c w (handle_command env reg a c w).
Proof.
  unfold handle_command, here. case_bool_decide as Hn.
  { unfold bind. destruct (exchange_spec (c_raw c) w) as (o & w' & t & -> & Hf & Ht & Hc & Ho).
    exists t, a. destruct o; cbn; split_and!; try done; try (by apply st_raw); intros; congruence. }
  destruct a; cbn [negb].
  - case_bool_decide as Ha; [by apply steps_reply; intros; apply st_reauth|].
    unfold bind, get, ret, enqueue, emit, modify.
    set (w1 := Duplex _ _ _ _).
    destruct (exchange_spec (c_raw c) w1) as (o & w' & t & -> & Hf & Ht & Hc & Ho).
    eexists (_ :: t), true. destruct o; cbn; split_and!; try done;
      try (by apply st_command); try (by rewrite Ht; cbn; rewrite <- app_assoc);
      intros; congruence.
  - case_bool_decide as Ha; cbn [negb];
      [|by apply steps_reply;
        intros; apply st_noauth].
    case_bool_decide; [by apply steps_reply; intros; apply st_reject|].
    unfold bind at 1, get. unfold bind at 1, ret at 1.
    destruct (validateClientToken _ _ _ _) eqn:Hv; cbn [negb];
      apply steps_reply; intros; [by apply st_accept|by apply st_reject].
Qed.
End Lemmas.

Section Loop.
Context `{Unicode} (env : environment) (reg : SessionRegistration).

Lemma command_loop_spec r0 fuel a w :
  consumed r0 (dx_client w) →
  ∃ t, loop_trace env reg r0 (length (dx_trace w)) a t
    ∧ dx_trace (command_loop env reg fuel a w).2 = dx_trace w ++ t
    ∧ ((length (rd_buf (dx_client w)) < fuel)%nat → (command_loop env reg fuel a w).1 ≠ OutOfFuel).
Proof.
  revert a w. induction fuel as [|f IH]; intros a w Hr0; cbn [command_loop].
  { exists []. cbn. rewrite app_nil_r. split_and!; [constructor|done|lia]. }
  unfold bind, try, client_read, zoom.
  pose proof (command_fuelled _ (dx_client w) (le_n _)) as Hfu.
  destruct (readRESPCommand (dx_client w)) as [[c|e|p|] r'] eqn:Ec; cbn [fst snd] in *; try done.
  - set (w1 := Duplex _ _ _ _).
    destruct (handle_command_spec env reg a c w1) as (t & a' & Hs & Ht & Hc & Ho & Ha).
    pose proof (command_exact _ _ _ Ec) as [Hb He].
    assert (Hp : parsed r0 c) by (by exists (dx_client w), r').
    assert (Hlt : (length (rd_buf r') < length (rd_buf (dx_client w)))%nat)
      by (by eapply command_progress).
    assert (Hr' : consumed r0 r').
    { etransitivity; [done|]. split; [by exists (c_raw c)|done]. }
    destruct (handle_command env reg a c w1) as [o w2]; cbn [fst snd] in *.
    assert (Hstop : loop_trace env reg r0 (length (dx_trace w)) a (t ++ []))
      by (eapply lt_step; [done|exact Hs|constructor]).
    rewrite app_nil_r in Hstop.
    destruct o as [b| | |]; [|exists t; split_and!; done..].
    rewrite (Ha b eq_refl). destruct (IH a' w2) as (t' & Hl & Ht' & Hf').
    { by rewrite Hc. }
    exists (t ++ t'). rewrite Ht, length_app in Hl. split_and!.
    + by eapply lt_step.
    + rewrite Ht', Ht. cbn. by rewrite app_assoc.
    + intros Hlen. apply Hf'. rewrite Hc. cbn. lia.
  - destruct (errors_is _ _); exists []; cbn; rewrite app_nil_r; split_and!; try done; constructor.
  - exists []. cbn. rewrite app_nil_r. split_and!; [constructor|done..].
Qed.

Lemma loop_trace_forwards r0 n a t :
  loop_trace env reg r0 n a t → ∀ i b, t !! i = Some (ToUpstream b) →
  ∃ c, parsed r0 c ∧ b `prefix_of` c_raw c
    ∧ (c_cmd c = [] ∨ ∃ j, i = S j
         ∧ t !! j = Some (Enqueue (LogCommand (commandLog env reg (n + j) c)))).
Proof.
  induction 1 as [n a|n a c t a' t' Hp Hs _ IH]; intros i b Hi; [done|].
  apply lookup_app_Some in Hi as [Hi|[Hl Hi]].
  - exists c. split; [done|].
    assert (Hfw : ∀ k u, forward_trace (c_raw c) u → u !! k = Some (ToUpstream b) →
              k = 0%nat ∧ b `prefix_of` c_raw c).
    { intros k u [] Hk; destruct k as [|[|k]]; cbn in Hk; by simplify_eq. }
    destruct Hs; try (destruct i; cbn in Hi; by simplify_eq).
    + eapply Hfw in Hi as [_ Hb]; [|done]. auto.
    + destruct i as [|i]; cbn in Hi; [done|]. eapply Hfw in Hi as [-> Hb]; [|done].
      split; [done|]. right. exists 0%nat. by rewrite Nat.add_0_r.
  - destruct (IH _ _ Hi) as (c' & Hc' & Hb & Hd). exists c'. split_and!; [done..|].
    destruct Hd as [?|(j & Hj & Hlog)]; [by left|right]. exists (length t + j)%nat.
    split; [lia|]. rewrite lookup_app_r by lia.
    replace (length t + j - length t)%nat with j by lia.
    by rewrite Hlog, Nat.add_assoc.
Qed.

Lemma loop_trace_unauthenticated r0 n a t :
  (∀ k token, validateClientToken env reg k token = false) →
  loop_trace env reg r0 n a t → a = false → ∀ e, e ∈ t → is_log e = false
    ∧ (∀ b, e = ToUpstream b → ∃ c, parsed r0 c ∧ b `prefix_of` c_raw c ∧ c_cmd c = []).
Proof.
  intros Hv Hl. induction Hl as [|n a c t a' t' Hp Hs _ IH]; intros -> e He;
    [by apply not_elem_of_nil in He|]. apply elem_of_app in He as [He|He].
  - inversion Hs as [? ? Hn Hf| | |? ? Hval| |]; subst;
      try (by rewrite Hv in Hval);
      try (apply list_elem_of_singleton in He as ->; done).
    inversion Hf; subst; repeat (apply elem_of_cons in He as [->|He]; [split; [done|naive_solver]|]);
      by apply not_elem_of_nil in He.
  - apply IH; [|done]. inversion Hs; subst; try done. by rewrite Hv in *.
Qed.
End Loop.

(** * Whole connections *)

Lemma ends_frame : ends (upstream_read readRESPFrameRaw).
Proof. apply ends_read. intros r. by apply (fuelled_readRESPFrameRaw (length (rd_buf r))). Qed.

Section Connection.
Context `{Unicode} (env : environment) (reg : SessionRegistration).

Definition not_terminal (e : event) : bool := negb (is_terminal e).
Abbreviation calm := (adds not_terminal).

#[local] Hint Extern 1 (not_terminal _ = true) => reflexivity : keeps.
#[local] Hint Resolve adds_emit adds_upstream_read adds_write : keeps.
#[local] Hint Resolve ends_bind ends_write ends_frame ends_wrap : keeps.

Lemma calm_upstream_request args what : keeps calm (upstream_request args what).
Proof.
  apply keeps_bind; [apply _|by apply adds_write|]. intros _.
  apply keeps_bind; [apply _|apply adds_upstream_read|]. intros l.
  destruct (isRESPError l); auto with keeps typeclass_instances.
Qed.

Lemma ends_upstream_request args what : ends (upstream_request args what).
Proof.
  apply ends_bind; [apply ends_write|]. intros _. apply ends_bind; [apply ends_frame|].
  intros l. by destruct (isRESPError l).
Qed.

Lemma calm_authenticate u p d : keeps calm (authenticateAndSelectUpstream env u p d).
Proof.
  apply keeps_bind; [apply _| |intros _; apply keeps_bind; [apply _| |intros _]].
  - destruct (negb _); [apply calm_upstream_request|apply keeps_ret, _].
  - destruct (0 <? d); [apply calm_upstream_request|apply keeps_ret, _].
  - apply adds_upstream_read.
Qed.

Lemma ends_authenticate u p d : ends (authenticateAndSelectUpstream env u p d).
Proof.
  apply ends_bind; [|intros _; apply ends_bind; [|intros _; by apply ends_read]].
  - destruct (negb _); [apply ends_upstream_request|done].
  - destruct (0 <? d); [apply ends_upstream_request|done].
Qed.

Lemma loop_trace_calm r0 n a t :
  loop_trace env reg r0 n a t → forallb not_terminal t = true.
Proof.
  induction 1 as [|n a c t a' t' _ Hs _ IH]; [done|]. rewrite forallb_app, IH, andb_true_r.
  assert (Hf : ∀ raw u, forward_trace raw u → forallb not_terminal u = true)
    by (by intros raw u []).
  destruct Hs; try done; [by eapply Hf|cbn; by eapply Hf].
Qed.

Lemma run_loop_spec w :
  ∃ t, loop_trace env reg (dx_client w) (length (dx_trace w))
         (bool_decide (TrimSpace (r_ClientAuthToken reg) = [])) t
    ∧ dx_trace (run_loop env reg w).2 = dx_trace w ++ t ∧ (run_loop env reg w).1 ≠ OutOfFuel.
Proof.
  unfold run_loop, bind, get.
  destruct (command_loop_spec env reg (dx_client w) (S (length (rd_buf (dx_client w))))
    (bool_decide (TrimSpace (r_ClientAuthToken reg) = [])) w ltac:(reflexivity))
    as (t & Hl & Ht & Hf). exists t. split_and!; [done..|]. apply Hf. lia.
Qed.

Lemma calm_run_loop : keeps calm (run_loop env reg).
Proof.
  intros w. destruct (run_loop_spec w) as (t & Hl & Ht & _). exists t.
  split; [done|]. by eapply loop_trace_calm.
Qed.

Lemma calm_runProxyFlow : keeps calm (runProxyFlow env reg).
Proof.
  unfold runProxyFlow. apply keeps_bind; [apply _| |intros _].
  - apply keeps_wrap_err. unfold connectUpstream.
    repeat case_match; auto with keeps typeclass_instances.
  - destruct (env_credential env _) as [cred|e]; [|apply keeps_fail, _].
    apply keeps_bind; [apply _|by apply adds_emit|intros _].
    apply keeps_bind; [apply _|apply keeps_wrap_err, calm_authenticate|intros _].
    apply keeps_bind; [apply _|by apply adds_emit|intros _]. apply calm_run_loop.
Qed.

Lemma ends_runProxyFlow : ends (runProxyFlow env reg).
Proof.
  unfold runProxyFlow. apply ends_bind; [|intros _].
  - apply ends_wrap. unfold connectUpstream. by repeat case_match.
  - destruct (env_credential env _) as [cred|e]; [|done].
    apply ends_bind; [done|intros _].
    apply ends_bind; [apply ends_wrap, ends_authenticate|intros _].
    apply ends_bind; [done|intros _]. intros w. by destruct (run_loop_spec w) as (t & _ & _ & Hf).
Qed.

(** How a connection ends, by what its handler returns. *)
Definition closing (o : outcome unit) : list event :=
  match o with
  | Ok _ => [Enqueue (MarkEnded (launchContext reg) §"redis_client_disconnected")]
  | Err _ => [Enqueue (MarkFailed (launchContext reg) §"redis_proxy_failed")]
  | _ => []
  end.

Lemma handleSessionConn_spec w :
  ∃ t o w', handleSessionConn env reg w = (o, w')
    ∧ dx_trace w' = dx_trace w
        ++ Enqueue (MarkProxyConnected (launchContext reg) (env_remote_addr env)) :: t ++ closing o
    ∧ forallb not_terminal t = true ∧ o ≠ OutOfFuel.
Proof.
  unfold handleSessionConn, enqueue, emit, modify, bind, try. set (w0 := Duplex _ _ _ _).
  destruct (calm_runProxyFlow w0) as (t & Ht & Hc). pose proof (ends_runProxyFlow w0) as He.
  destruct (runProxyFlow env reg w0) as [[[]|e|p|] w1]; cbn in *; try done; exists t.
  - eexists _, _. split_and!; [done| |done..]. cbn. rewrite Ht. cbn. by rewrite <- !app_assoc.
  - eexists _, _. split_and!; [done| |done..]. cbn. rewrite Ht. cbn. by rewrite <- !app_assoc.
  - eexists _, _. split_and!; [done| |done..]. cbn. rewrite Ht, app_nil_r. by rewrite <- app_assoc.
Qed.
End Connection.

(** * Argument summaries *)

(** The positions of a command's arguments that hold secrets or payloads. *)
Definition sensitive `{Unicode} (up first : bytes) (n k : nat) : bool :=
  if bool_decide (up = §"AUTH") then true
  else if bool_decide (up = §"SET") then (k =? 1)%nat
  else if bool_decide (up = §"MSET") || bool_decide (up = §"HMSET") then (k mod 2 =? 1)%nat
  else if bool_decide (up = §"CONFIG") then (3 <=? n)%nat && EqualFold first §"set" && (2 <=? k)%nat
  else if bool_decide (up = §"EVAL") then (k =? 0)%nat
  else if bool_decide (up = §"ACL") then (2 <=? n)%nat && EqualFold first §"setuser" && (2 <=? k)%nat
  else false.

Section Summaries.
Context `{Unicode}.

Lemma summarize_loop_spec up args m i rest out :
  length out = i → (i < 10)%nat →
  summarize_loop up args m i rest out
  = out ++ imap (λ k, cleanArg up args m (i + k)) (take (10 - i) rest)
      ++ (if (10 - i <=? length rest)%nat then [§"<truncated>"] else []).
Proof.
  revert i out. induction rest as [|a rest IH]; intros i out Hl Hi; cbn [summarize_loop].
  - rewrite take_nil. cbn [imap]. rewrite (proj2 (Nat.leb_gt _ _)) by (cbn; lia).
    by rewrite app_nil_r.
  - rewrite length_app, Hl. cbn [length]. destruct (10 <=? i + 1)%nat eqn:E.
    + apply Nat.leb_le in E. assert (i = 9)%nat as -> by lia. cbn.
      rewrite take_0. by rewrite <- app_assoc.
    + apply Nat.leb_gt in E. rewrite IH by (rewrite ?length_app; cbn; lia).
      replace (10 - i)%nat with (S (10 - S i)) by lia. cbn [take imap].
      rewrite <- app_assoc. cbn [app]. rewrite Nat.add_0_r.
      f_equal; f_equal; f_equal. apply imap_ext. intros k x _. cbn. f_equal. lia.
Qed.

Lemma cleanArg_hides up args args' m k a a' :
  length args = length args' →
  (sensitive up (default [] (head args)) (length args) 0 = false → head args = head args') →
  (sensitive up (default [] (head args)) (length args) k = false → a = a') →
  cleanArg up args m k a = cleanArg up args' m k a'.
Proof.
  unfold cleanArg, sensitive. intros Hl Hh Ha. rewrite <- Hl.
  repeat case_bool_decide; cbn [orb] in *; try done;
    try (by rewrite Hh; [rewrite <- Hh by (by rewrite andb_false_r); case_match; [|rewrite Ha]|rewrite andb_false_r]);
    try (case_match; [done|by rewrite Ha]); by rewrite Ha.
Qed.
End Summaries.

Section Inline.
Context `{Unicode} (env : environment) (reg : SessionRegistration).

(** A line that is not an array frame is a command without a name. *)
Lemma inline_line p l t e :
  byte_in p §"*+-:,#_($!=~>%" = false → "010"%byte ∉ l →
  readRESPCommand (Reader (p :: l ++ "010"%byte :: t) e)
  = (Ok (Command (p :: l ++ ["010"%byte]) [] []), Reader t e).
Proof.
  intros Hp Hl. unfold byte_in in Hp. gobool.
  unfold readRESPCommand, bind at 1, ReadByte; cbn [rd_buf rd_end].
  rewrite bool_decide_false by (intros ->; by apply Hp; vm_compute; constructor).
  cbn [negb]. unfold bind, readRESPFrameFromPrefix, bind, get. cbn [rd_buf length].
  cbn [frame_from_prefix]. unfold bind, readLineCRLF. rewrite ReadBytes_app by done.
  unfold byte_in. rewrite !bool_decide_false; [done|..];
    intros Hin; apply Hp; revert Hin; vm_compute; set_solver.
Qed.

Lemma adds_all_extends w w' : adds (λ _, true) w w' → extends w w'.
Proof. intros (t & Ht & _). by exists t. Qed.

Lemma exchange_first raw w :
  dx_faults w = [] →
  ∃ t, dx_trace (exchange raw w).2 = dx_trace w ++ ToUpstream raw :: t.
Proof.
  intros Hf. unfold exchange, upstream_write, bind at 1, write_to. rewrite Hf. cbn [tail].
  set (w1 := Duplex _ _ _ _).
  assert (Hk : keeps (adds (λ _, true))
      (let! resp := upstream_read readRESPFrameRaw in client_write resp)).
  { apply keeps_bind; [apply _|apply adds_upstream_read|]. intros b. by apply adds_write. }
  destruct (Hk w1) as (t & Ht & _). exists t. rewrite Ht. cbn. by rewrite <- app_assoc.
Qed.

Lemma inline_first p l t e up :
  byte_in p §"*+-:,#_($!=~>%" = false → "010"%byte ∉ l →
  ∃ rest, dx_trace (run_loop env reg
    (Duplex (Reader (p :: l ++ "010"%byte :: t) e) up [] [])).2
    = ToUpstream (p :: l ++ ["010"%byte]) :: rest.
Proof.
  intros Hp Hl. unfold run_loop, bind at 1, get. cbn [command_loop].
  unfold bind, try, client_read, zoom. cbn [dx_client]. rewrite inline_line by done.
  unfold handle_command. cbn [c_cmd c_raw]. rewrite bool_decide_true by done.
  unfold bind. cbn [dx_upstream dx_faults dx_trace]. set (w1 := Duplex _ _ _ _).
  destruct (exchange_first (p :: l ++ ["010"%byte]) w1 eq_refl) as [u Hu].
  destruct (exchange _ w1) as [[[]| | |] w2]; cbn in Hu; try by exists u.
  unfold ret. match goal with |- context [command_loop env reg ?f ?a w2] =>
    destruct (command_loop_spec env reg (dx_client w2) f a w2 ltac:(reflexivity))
      as (v & _ & Hv & _) end.
  exists (u ++ v). by rewrite Hv, Hu.
Qed.
End Inline.

(** * Properties *)

#[local] Existing Instance ascii_tables.

(** Inputs for the witnesses. *)
Section Samples.
Definition sample_reg (token : bytes) : SessionRegistration := {|
  r_SessionID := §"s1"; r_UserID := §"u1"; r_AssetID := §"a1"; r_AssetName := §"cache";
  r_UpstreamHost := §"10.0.0.5"; r_UpstreamPort := 6379; r_UseTLS := false;
  r_InsecureSkipVerifyTLS := false; r_Database := 2; r_ClientAuthToken := token;
  r_RequestID := §"rq" |}.
Definition sample_env : environment := {|
  env_remote_addr := §"127.0.0.1:50000";
  env_dial := None;
  env_tls := λ _ _, None;
  env_credential := λ _, inl (Credential §"svc" §"pw");
  env_resolve := λ _ _, inr (ErrVar §"unauthorized launch token");
  env_read_ahead := 0;
  env_clock := λ n, Z.of_nat n |}.
Definition sample_world (client upstream : bytes) : world :=
  Duplex (Reader client io_EOF) (Reader upstream io_EOF) [] [].
End Samples.

(** Refinement: whatever the client and the upstream send and however
    writes fail, a run of the command loop ends, and what it adds to the trace
    is a run of the session protocol [loop_trace]: per parsed command, either
    a forward of its raw bytes with at most one reply, a local answer, or a log
    entry followed by a forward, and the client counts as authenticated only
    after a token that [validateClientToken] accepted. *)
Theorem run_loop_refines_protocol `{Unicode} env reg w :
  ∃ t, loop_trace env reg (dx_client w) (length (dx_trace w))
         (bool_decide (TrimSpace (r_ClientAuthToken reg) = [])) t
    ∧ dx_trace (run_loop env reg w).2 = dx_trace w ++ t ∧ (run_loop env reg w).1 ≠ OutOfFuel.
Proof. apply run_loop_spec. Qed.

(** C1. Audit before forward: every write to the upstream made by the command
    loop carries (a prefix of, when the write fails part-way) the raw bytes of
    one command parsed off the client's stream, and unless that command has no
    name, the event right before the write is its log entry, with the danger
    flag computed from its name. *)
Theorem forwarded_commands_are_logged `{Unicode} env reg client up faults i b :
  let w := Duplex client up faults [] in
  dx_trace (run_loop env reg w).2 !! i = Some (ToUpstream b) →
  ∃ c, parsed client c ∧ b `prefix_of` c_raw c
    ∧ (c_cmd c = [] ∨ ∃ j, i = S j
         ∧ dx_trace (run_loop env reg w).2 !! j = Some (Enqueue (LogCommand (commandLog env reg j c)))).
Proof.
  intros w Hi. destruct (run_loop_spec env reg w) as (t & Hl & Ht & _).
  cbn [w dx_trace app] in Ht. rewrite Ht in *. exact (loop_trace_forwards env reg client 0 _ t Hl i b Hi).
Qed.

Lemma forwarded_commands_are_logged_witness :
  let client := Reader (buildRESPCommand [§"del"; §"k"]) io_EOF in
  let w := Duplex client (Reader (§":1" ++ CRLF) io_EOF) [] [] in
  dx_trace (run_loop sample_env (sample_reg []) w).2 !! 1%nat
    = Some (ToUpstream (buildRESPCommand [§"del"; §"k"]))
  ∧ ∃ c, parsed client c ∧ buildRESPCommand [§"del"; §"k"] `prefix_of` c_raw c
    ∧ (c_cmd c = [] ∨ ∃ j, 1%nat = S j
         ∧ dx_trace (run_loop sample_env (sample_reg []) w).2 !! j
           = Some (Enqueue (LogCommand (commandLog sample_env (sample_reg []) j c)))).
Proof.
  intros client w. assert (Hi : dx_trace (run_loop sample_env (sample_reg []) w).2 !! 1%nat
    = Some (ToUpstream (buildRESPCommand [§"del"; §"k"]))) by (vm_compute; reflexivity).
  split; [exact Hi|].
  exact (@forwarded_commands_are_logged ascii_tables sample_env (sample_reg []) client
           (Reader (§":1" ++ CRLF) io_EOF) [] 1%nat _ Hi).
Defined.

(** A client whose tokens never validate gets nothing of its own logged,
    and no command with a name past the proxy: all the upstream receives from
    it are frames the parser gave no name. *)
Theorem unauthenticated_clients_run_no_named_command `{Unicode} env reg client up faults ev :
  TrimSpace (r_ClientAuthToken reg) ≠ [] →
  (∀ k token, validateClientToken env reg k token = false) →
  ev ∈ dx_trace (run_loop env reg (Duplex client up faults [])).2 →
  is_log ev = false
  ∧ (∀ b, ev = ToUpstream b → ∃ c, parsed client c ∧ b `prefix_of` c_raw c ∧ c_cmd c = []).
Proof.
  intros Ht Hv. destruct (run_loop_spec env reg (Duplex client up faults [])) as (t & Hl & -> & _).
  rewrite bool_decide_false in Hl by done. by apply (loop_trace_unauthenticated _ _ _ _ _ _ Hv Hl).
Qed.

Lemma unauthenticated_clients_run_no_named_command_witness :
  let client := Reader (buildRESPCommand [§"get"; §"k"]) io_EOF in
  let up := Reader [] io_EOF in
  ToClient NOAUTH ∈ dx_trace (run_loop sample_env (sample_reg §"tok") (Duplex client up [] [])).2
  ∧ is_log (ToClient (E:=call) NOAUTH) = false.
Proof.
  intros client up.
  assert (Hin : ToClient NOAUTH ∈
    dx_trace (run_loop sample_env (sample_reg §"tok") (Duplex client up [] [])).2)
    by (vm_compute; constructor).
  split; [exact Hin|].
  refine (proj1 (@unauthenticated_clients_run_no_named_command ascii_tables sample_env
    (sample_reg §"tok") client up [] (ToClient NOAUTH) _ _ Hin)); [by vm_compute|].
  intros k token. unfold validateClientToken.
  destruct (bool_decide _); [reflexivity|]. by destruct (negb _).
Defined.

(** C37. The gap in the gate: a client that has not authenticated sends a
    command as a plain line (Redis's inline form) and the line goes to the
    upstream as it is, with no log entry and no token check before it. *)
Theorem inline_commands_bypass_auth_and_audit `{Unicode} env reg p l t e up :
  TrimSpace (r_ClientAuthToken reg) ≠ [] →
  byte_in p §"*+-:,#_($!=~>%" = false → "010"%byte ∉ l →
  ∃ rest, dx_trace (run_loop env reg
      (Duplex (Reader (p :: l ++ "010"%byte :: t) e) up [] [])).2
    = ToUpstream (p :: l ++ ["010"%byte]) :: rest.
Proof. intros _. apply inline_first. Qed.

Lemma inline_commands_bypass_auth_and_audit_witness :
  ∃ rest, dx_trace (run_loop sample_env (sample_reg §"tok")
      (Duplex (Reader ("F"%byte :: (§"LUSHALL" ++ ["013"%byte]) ++ "010"%byte :: []) io_EOF)
              (Reader OK_reply io_EOF) [] [])).2
    = ToUpstream (§"FLUSHALL" ++ CRLF) :: rest.
Proof.
  apply (@inline_commands_bypass_auth_and_audit ascii_tables sample_env (sample_reg §"tok")
    "F"%byte (§"LUSHALL" ++ ["013"%byte]) [] io_EOF);
    [by vm_compute|by vm_compute|apply (bool_decide_unpack _); by vm_compute].
Defined.

(** Every connection is opened and closed on the session record: the first
    event is [MarkProxyConnected]; then no terminal mark until the last event,
    which is [MarkEnded] when the handler returns no error and [MarkFailed]
    when it does; only a panic leaves the session without one.  The handler
    always ends. *)
Theorem handleSessionConn_marks_the_session_once `{Unicode} env reg w :
  ∃ t o w', handleSessionConn env reg w = (o, w')
    ∧ dx_trace w' = dx_trace w
        ++ Enqueue (MarkProxyConnected (launchContext reg) (env_remote_addr env)) :: t ++ closing reg o
    ∧ forallb not_terminal t = true ∧ o ≠ OutOfFuel.
Proof. apply handleSessionConn_spec. Qed.

(** Log summaries hide secrets: two argument lists of a command that
    differ only at its sensitive positions (AUTH arguments, the value of SET,
    the values of MSET and HMSET, CONFIG SET values, EVAL scripts, ACL SETUSER
    rules) have the same summary. *)
Theorem summarizeArgs_hides_sensitive_arguments `{Unicode} cmd args args' m :
  let up := ToUpper (TrimSpace cmd) in
  length args = length args' →
  (∀ k, sensitive up (default [] (head args)) (length args) k = false → args !! k = args' !! k) →
  summarizeArgs cmd args m = summarizeArgs cmd args' m.
Proof.
  intros up Hl Hs. unfold summarizeArgs. rewrite !summarize_loop_spec by (cbn; lia).
  rewrite <- Hl. cbn [app]. f_equal. apply list_eq. intros k. rewrite !list_lookup_imap.
  destruct (decide (k < 10)%nat); [|by rewrite !lookup_take_ge by lia].
  rewrite !lookup_take_lt by lia.
  assert (Hh : sensitive up (default [] (head args)) (length args) 0 = false → head args = head args').
  { intros H0. apply Hs in H0. by rewrite !head_lookup. }
  destruct (args !! k) as [a|] eqn:Ea; cbn.
  - destruct (lookup_lt_is_Some_2 args' k) as [a' Ea'].
    { rewrite <- Hl. by eapply lookup_lt_Some. }
    rewrite Ea'. cbn. f_equal. apply cleanArg_hides; [done|done|].
    intros Hk. apply Hs in Hk. congruence.
  - apply lookup_ge_None in Ea. by rewrite lookup_ge_None_2 by lia.
Qed.

Lemma summarizeArgs_hides_sensitive_arguments_witness :
  summarizeArgs §"set" [§"k"; §"secret"] 128 = summarizeArgs §"set" [§"k"; §"other"] 128.
Proof.
  apply (@summarizeArgs_hides_sensitive_arguments ascii_tables); [reflexivity|].
  intros [|[|k]]; vm_compute; done.
Defined.

(** The size of a summary: one entry per argument for up to nine
    arguments, ten entries and the mark "<truncated>" from ten on; the mark is
    there for exactly ten arguments as well, when nothing was cut. *)
Theorem summarizeArgs_length `{Unicode} cmd args m :
  length (summarizeArgs cmd args m) = (if (10 <=? length args)%nat then 11 else length args)%nat
  ∧ (summarizeArgs cmd args m !! 10%nat = if (10 <=? length args)%nat then Some §"<truncated>" else None).
Proof.
  unfold summarizeArgs. rewrite summarize_loop_spec by (cbn; lia). cbn [app].
  set (l := imap _ _). assert (Hl : length l = min 10 (length args)).
  { unfold l. by rewrite length_imap, length_take. }
  change (10 - 0)%nat with 10%nat. destruct (10 <=? length args)%nat eqn:E.
  - apply Nat.leb_le in E. rewrite length_app, lookup_app_r by lia. cbn [length].
    split; [lia|]. by replace (10 - length l)%nat with 0%nat by lia.
  - apply Nat.leb_gt in E. rewrite app_nil_r. split; [lia|]. apply lookup_ge_None_2. lia.
Qed.
