(* ===== verification/ProxyRuns.v ===== *)
(** Runs of a proxy on its world: unread bytes as a measure of its loops, what
    a run may add to the trace, and that streams only lose a prefix.  Shared by
    the specifications of the SQL proxies. *)
From S2P Require Import Prelude GoStrings GoIO ProxyEvents.

(** * Bounds of the message loops *)

(** Unread bytes of either side. *)
Definition unread_upstream (w : world) : nat := length (rd_buf (dx_upstream w)).
Definition unread_client (w : world) : nat := length (rd_buf (dx_client w)).

Section Bounds.
Context (mu : world → nat).

(** [bounded L m]: no lack of fuel on a world with at most [L] unread bytes;
    [progresses m]: a success takes some of them. *)
Definition nonincreasing (w w' : world) : Prop := (mu w' <= mu w)%nat.
Definition bounded {A} (L : nat) (m : M world A) : Prop :=
  ∀ w, (mu w <= L)%nat → (m w).1 ≠ OutOfFuel.
Definition progresses {A} (m : M world A) : Prop :=
  ∀ w a w', m w = (Ok a, w') → (mu w' < mu w)%nat.

#[export] Instance nonincreasing_preorder : PreOrder nonincreasing.
Proof. split; [intros w; unfold nonincreasing; lia|]. intros u v w; unfold nonincreasing; lia. Qed.

Lemma bounded_ends {A} L (m : M world A) : ends m → bounded L m.
Proof. intros H w _. apply H. Qed.
Lemma ends_bounded {A} (m : M world A) : (∀ L, bounded L m) → ends m.
Proof. intros H w. by apply (H (mu w)). Qed.
Lemma bounded_bind {A B} L (m : M world A) (k : A → M world B) :
  bounded L m → keeps nonincreasing m → (∀ a, bounded L (k a)) → bounded L (bind m k).
Proof.
  intros Hm Hn Hk w Hw. specialize (Hm w Hw). specialize (Hn w). unfold bind, nonincreasing in *.
  destruct (m w) as [[a| | |] w']; cbn in *; try done. apply Hk. lia.
Qed.
Lemma bounded_step {A B} L (m : M world A) (k : A → M world B) :
  ends m → progresses m → (∀ a L', (L' < L)%nat → bounded L' (k a)) → bounded L (bind m k).
Proof.
  intros Hm Hp Hk w Hw. specialize (Hm w). unfold bind.
  destruct (m w) as [[a| | |] w'] eqn:E; cbn in *; try done.
  apply Hp in E. apply (Hk a (mu w')); lia.
Qed.
Lemma progresses_bind {A B} (m : M world A) (k : A → M world B) :
  progresses m → (∀ a, keeps nonincreasing (k a)) → progresses (bind m k).
Proof.
  intros Hm Hk w b w' H. apply bind_ok in H as (a & w1 & H1 & H2).
  apply Hm in H1. specialize (Hk a w1). unfold nonincreasing in Hk. rewrite H2 in Hk. cbn in Hk. lia.
Qed.
Lemma progresses_wrap {A} msg (m : M world A) : progresses m → progresses (wrap_err msg m).
Proof.
  intros Hm w a w' H. unfold wrap_err in H. destruct (m w) as [[b| | |] w1] eqn:E; simplify_eq.
  by apply Hm in E.
Qed.
(** A loop that takes its fuel from the unread bytes it starts with. *)
Lemma ends_with_fuel {A} (m : nat → M world A) :
  (∀ f L, (L < f)%nat → bounded L (m f)) →
  ends (bind (let! w := get in ret (mu w)) (λ k, m (S k))).
Proof. intros H w. unfold bind, get, ret. apply (H _ (mu w)); lia. Qed.
End Bounds.

(** [shrinks]: each side's stream only loses a prefix. *)
Definition shrinks (w w' : world) : Prop :=
  consumed (dx_upstream w) (dx_upstream w') ∧ consumed (dx_client w) (dx_client w').

#[export] Instance shrinks_preorder : PreOrder shrinks.
Proof. split; [intros w; split; reflexivity|]. intros u v w [? ?] [? ?]. split; by etransitivity. Qed.

Lemma shrinks_upstream {A} (m : M world A) : keeps shrinks m → keeps (nonincreasing unread_upstream) m.
Proof. intros H w. by apply consumed_length, H. Qed.
Lemma shrinks_client {A} (m : M world A) : keeps shrinks m → keeps (nonincreasing unread_client) m.
Proof. intros H w. by apply consumed_length, H. Qed.

Lemma shrinks_emit e : keeps shrinks (emit e).
Proof. intros w. split; cbn; reflexivity. Qed.
Lemma shrinks_write side b : keeps shrinks (write_to side b).
Proof.
  intros w. destruct (write_spec side b w) as (o & p & w' & -> & _ & _ & Hc & Hu & _).
  split; cbn [snd]; rewrite ?Hc, ?Hu; reflexivity.
Qed.

Lemma shrinks_upstream_read {A} (m : M reader A) : keeps consumed m → keeps shrinks (upstream_read m).
Proof.
  intros Hk w. destruct (upstream_read_spec m w) as (o & u & Hm & ->). specialize (Hk (dx_upstream w)).
  rewrite Hm in Hk. split; cbn; [exact Hk|reflexivity].
Qed.
Lemma shrinks_client_read {A} (m : M reader A) : keeps consumed m → keeps shrinks (client_read m).
Proof.
  intros Hk w. unfold client_read, zoom. specialize (Hk (dx_client w)).
  destruct (m (dx_client w)) as [o u]. split; cbn; [reflexivity|exact Hk].
Qed.

(** A parser that takes some bytes when it succeeds. *)
Definition takes {A} (m : M reader A) : Prop :=
  ∀ r a r', m r = (Ok a, r') → (length (rd_buf r') < length (rd_buf r))%nat.
Lemma upstream_read_progresses {A} (m : M reader A) : takes m → progresses unread_upstream (upstream_read m).
Proof.
  intros Ht w a w' H. destruct (upstream_read_spec m w) as (o & u & Hm & Hr).
  rewrite Hr in H. simplify_eq. by apply Ht in Hm.
Qed.
Lemma client_read_progresses {A} (m : M reader A) : takes m → progresses unread_client (client_read m).
Proof.
  intros Ht w a w' H. unfold client_read, zoom in H.
  destruct (m (dx_client w)) as [o u] eqn:E. simplify_eq. by apply Ht in E.
Qed.

(** * What a run adds to the trace

    [relays]: neither stream grows, and nothing is logged. *)
Definition no_log (e : event) : bool := negb (is_log e) && negb (is_terminal e).
Definition relays (w w' : world) : Prop := shrinks w w' ∧ adds no_log w w'.

#[export] Instance relays_preorder : PreOrder relays.
Proof. split; [intros w; split; reflexivity|]. intros u v w [? ?] [? ?]. split; by etransitivity. Qed.

Lemma relays_write side b : (∀ p, no_log (side p) = true) → keeps relays (write_to side b).
Proof. intros Hs w. split; [apply shrinks_write|by apply adds_write]. Qed.

(** Go through the binds and branches of a call whose leaves are known. *)
Ltac through :=
  repeat (first
    [ solve [auto 2 with keeps typeclass_instances]
    | apply keeps_bind; [apply _| |intros ?]
    | apply keeps_wrap_err | apply keeps_try
    | progress cbv zeta | case_match ]).

(** [calm]: no mark that ends the session. *)
Definition not_terminal (e : event) : bool := negb (is_terminal e).
Definition calm : world → world → Prop := adds not_terminal.

Definition only_client (e : event) : bool := match e with ToClient _ => true | _ => false end.

(** A write with no fault ahead of it goes through. *)
Lemma write_ok (side : bytes → event) b w :
  dx_faults w = [] →
  write_to side b w = (Ok tt, Duplex (dx_client w) (dx_upstream w) [] (dx_trace w ++ [side b])).
Proof. unfold write_to. by intros ->. Qed.

(** * Writes

    [sends side b b' m]: a call that writes to one side, of [b], the part [b'],
    all of it when it succeeds; it reads nothing and ends. *)
Definition pieces (side : bytes → event) (t : list event) (b : bytes) : Prop :=
  ∃ ps, t = map side ps ∧ concat ps = b.
Definition sends (side : bytes → event) (b : bytes) (m : M world unit) : Prop :=
  ∀ w, ∃ o t b' w', m w = (o, w') ∧ dx_trace w' = dx_trace w ++ t ∧ pieces side t b' ∧ b' `prefix_of` b
    ∧ (o = Ok tt ∧ b' = b ∨ ∃ e, o = Err e)
    ∧ dx_client w' = dx_client w ∧ dx_upstream w' = dx_upstream w
    ∧ (dx_faults w = [] → o = Ok tt ∧ dx_faults w' = []).

Lemma pieces_one side b : pieces side [side b] b.
Proof. exists [b]. split; [done|]. cbn. apply app_nil_r. Qed.
Lemma pieces_app side t t' b b' : pieces side t b → pieces side t' b' → pieces side (t ++ t') (b ++ b').
Proof. intros (ps & -> & <-) (qs & -> & <-). exists (ps ++ qs). by rewrite map_app, concat_app. Qed.

Lemma sends_write side b : sends side b (write_to side b).
Proof.
  intros w. unfold write_to. destruct (dx_faults w) as [|[[k e]|] fs] eqn:E.
  - exists (Ok tt), [side b], b. eexists. split_and!; try done; [apply pieces_one|by left].
  - exists (Err e), [side (take k b)], (take k b). eexists. split_and!; try done.
    + apply pieces_one.
    + exists (drop k b). by rewrite take_drop.
    + right. by eexists.
  - exists (Ok tt), [side b], b. eexists. split_and!; try done; [apply pieces_one|by left].
Qed.
Lemma sends_nothing side : sends side [] (ret tt).
Proof.
  intros w. exists (Ok tt), [], [], w. rewrite app_nil_r. split_and!; try done; [by exists []|by left].
Qed.
Lemma sends_then side b c m n : sends side b m → sends side c n → sends side (b ++ c) (bind m (λ _, n)).
Proof.
  intros Hm Hn w. destruct (Hm w) as (o & t & b1 & w1 & E & Ht & Hp & Hb & Ho & Hc & Hu & Hf).
  unfold bind. rewrite E. destruct Ho as [[-> ->]|[e ->]].
  - destruct (Hn w1) as (o & t' & c1 & w2 & E2 & Ht2 & Hp2 & Hc1 & Ho & Hc2 & Hu2 & Hf2).
    exists o, (t ++ t'), (b ++ c1), w2. rewrite E2, Ht2, Ht, app_assoc, Hc2, Hu2.
    split_and!; [done|done|by apply pieces_app|by apply prefix_app| |done|done|].
    + destruct Ho as [[-> ->]|He]; auto.
    + intros [_ ?]%Hf. by apply Hf2.
  - exists (Err e), t, b1, w1. split_and!; [done..|by apply prefix_app_r|right; by eexists|done|done|].
    by intros [? _]%Hf.
Qed.

Lemma sends_ends side b m : sends side b m → ends m.
Proof. intros H w. destruct (H w) as (o & t & b' & w' & -> & _ & _ & _ & [[-> _]|[e ->]] & _); done. Qed.
Lemma sends_shrinks side b m : sends side b m → keeps shrinks m.
Proof.
  intros H w. destruct (H w) as (o & t & b' & w' & -> & _ & _ & _ & _ & Hc & Hu & _).
  split; cbn [snd]; rewrite ?Hc, ?Hu; reflexivity.
Qed.
Lemma sends_adds P side b m : (∀ p, P (side p) = true) → sends side b m → keeps (adds P) m.
Proof.
  intros HP H w. destruct (H w) as (o & t & b' & w' & -> & Ht & (ps & -> & _) & _).
  exists (map side ps). split; [done|]. apply forallb_forall. intros e He. by apply in_map_iff in He as (p & <- & _).
Qed.
Lemma pieces_forallb P side t b : (∀ p, P (side p) = true) → pieces side t b → forallb P t = true.
Proof.
  intros HP (ps & -> & _). apply forallb_forall. intros e He. by apply in_map_iff in He as (p & <- & _).
Qed.

(** ** What a trace sent and logged *)

Definition up_bytes (e : event) : option bytes := match e with ToUpstream b => Some b | _ => None end.
Definition down_bytes (e : event) : option bytes := match e with ToClient b => Some b | _ => None end.
Definition log_of (e : event) : option (bytes * bytes * bool) :=
  match e with Enqueue (LogQuery l) => Some (q_Query l, q_ProtocolType l, q_Prepared l) | _ => None end.
(** The bytes a trace sent to either side, and its log entries. *)
Definition sent_up (t : list event) : bytes := concat (omap up_bytes t).
Definition sent_down (t : list event) : bytes := concat (omap down_bytes t).
Definition logged (t : list event) : list (bytes * bytes * bool) := omap log_of t.

Lemma sent_up_app t t' : sent_up (t ++ t') = sent_up t ++ sent_up t'.
Proof. unfold sent_up. by rewrite omap_app, concat_app. Qed.
Lemma sent_down_app t t' : sent_down (t ++ t') = sent_down t ++ sent_down t'.
Proof. unfold sent_down. by rewrite omap_app, concat_app. Qed.
Lemma pieces_up t b : pieces ToUpstream t b → sent_up t = b ∧ logged t = [].
Proof.
  intros (ps & -> & <-). unfold sent_up, logged. split; induction ps as [|p ps IH]; cbn; [done| |done|done].
  by f_equal.
Qed.
Lemma pieces_down t b : pieces ToClient t b → sent_down t = b.
Proof. intros (ps & -> & <-). unfold sent_down. induction ps as [|p ps IH]; cbn; [done|]. by f_equal. Qed.
