(* ===== verification/Relay.v ===== *)
(** The relay of a SQL proxy whose two directions are goroutines (pgproxy and
    mssqlproxy run the same one): a frontend goroutine that handles the client's
    messages one by one and a backend one that copies the upstream's bytes, and
    the [select] that waits for the first of them to return.

    The goroutines take turns by a schedule of the environment: a turn of the
    frontend goroutine is one message, a turn of the backend goroutine is one
    chunk of [io.Copy].  What a proxy does with a message is a parameter, of
    which class [Forwards] states what the relay needs. *)
From S2P Require Import Prelude GoStrings GoIO ProxyEvents ProxyRuns.

(** * Definitions *)

(** What happens next in the relay: a goroutine runs, the backend one on up to
    [n] bytes, or the [select] takes the result of one that has returned. *)
Inductive side := Front | Back.
Inductive turn := RunFront | RunBack (n : nat) | Select (s : side).

(** A goroutine runs on a state or has sent its result. *)
Inductive goroutine (A : Type) := Running (a : A) | Sent (r : option error).
Arguments Running {A} a.
Arguments Sent {A} r.
Record relay_state (S : Type) := Relay { rl_front : goroutine S; rl_back : goroutine unit }.
Arguments Relay {S} _ _.
Arguments rl_front {S} _.
Arguments rl_back {S} _.

(** Unread bytes, which bound the loops. *)
Definition upstream_left : M world nat := let! w := get in ret (length (rd_buf (dx_upstream w))).
Definition client_left : M world nat := let! w := get in ret (length (rd_buf (dx_client w))).

(** One round of [io.Copy(client, upstream)]: is there more? *)
Definition copy_chunk (n : nat) : M world bool :=
  let! w := get in
  let r := dx_upstream w in
  if bool_decide (rd_buf r = []) then
    if bool_decide (rd_end r = io_EOF) then ret false else fail (rd_end r)
  else
    let k := S n in
    do! upstream_read (modify (λ r, Reader (drop k (rd_buf r)) (rd_end r))) in
    do! client_write (take k (rd_buf r)) in
    ret true.

Section Relay.
(** One pass of the frontend goroutine's loop: its state afterwards, or [None]
    when it returns without an error. *)
Context {S : Type} (forward : S → M world (option S)).

Fixpoint forward_loop (fuel : nat) (c : S) : M world unit :=
  match fuel with
  | O => nofuel
  | Datatypes.S f =>
      let! next := forward c in
      match next with
      | None => ret tt
      | Some c' => forward_loop f c'
      end
  end.
Definition forward_all (c : S) : M world unit :=
  let! k := client_left in forward_loop (Datatypes.S k) c.

Definition front_turn (g : goroutine S) : M world (goroutine S) :=
  match g with
  | Sent r => ret g
  | Running c =>
      let! r := try (forward c) in
      ret match r with
          | inr e => Sent (Some e)
          | inl None => Sent None
          | inl (Some c') => Running c'
          end
  end.
Definition back_turn (n : nat) (g : goroutine unit) : M world (goroutine unit) :=
  match g with
  | Sent r => ret g
  | Running _ =>
      let! r := try (copy_chunk n) in
      ret match r with
          | inr e => Sent (Some e)
          | inl false => Sent None
          | inl true => Running tt
          end
  end.

(** The result the [select] can take from a side, if it has sent one. *)
Definition sent (st : relay_state S) (s : side) : option (option error) :=
  match s with
  | Front => match rl_front st with Sent r => Some r | _ => None end
  | Back => match rl_back st with Sent r => Some r | _ => None end
  end.

(** Run the goroutines up to the [select]: the result it takes, the
    goroutines' states and the rest of the schedule.  When the schedule ends
    before, the frontend goroutine runs to its end. *)
Fixpoint relay (sched : list turn) (st : relay_state S) : M world (option error * relay_state S * list turn) :=
  match sched with
  | [] =>
      match rl_front st with
      | Sent r => ret (r, st, [])
      | Running c =>
          let! r := try (forward_all c) in
          let r := match r with inr e => Some e | inl _ => None end in
          ret (r, Relay (Sent r) (rl_back st), [])
      end
  | RunFront :: rest =>
      let! g := front_turn (rl_front st) in relay rest (Relay g (rl_back st))
  | RunBack n :: rest =>
      let! g := back_turn n (rl_back st) in relay rest (Relay (rl_front st) g)
  | Select s :: rest =>
      match sent st s with
      | Some r => ret (r, st, rest)
      | None => relay rest st
      end
  end.

(** What the other goroutine still does until its connections are closed. *)
Fixpoint drain (sched : list turn) (st : relay_state S) : M world unit :=
  match sched with
  | [] => ret tt
  | RunFront :: rest => let! g := front_turn (rl_front st) in drain rest (Relay g (rl_back st))
  | RunBack n :: rest => let! g := back_turn n (rl_back st) in drain rest (Relay (rl_front st) g)
  | Select _ :: rest => drain rest st
  end.

(** [handleSessionConn] around a flow that ends in a relay. *)
Definition session_conn (l : LaunchContext) (remote_addr : bytes)
    (flow : M world (option error * relay_state S * list turn)) : M world unit :=
  do! enqueue (MarkProxyConnected l remote_addr) in
  let! r := try flow in
  match r with
  | inr e => do! enqueue (MarkFailed l §"db_proxy_failed") in fail e
  | inl (Some e, st, rest) =>
      do! enqueue (MarkFailed l §"db_proxy_failed") in
      do! drain rest st in
      fail e
  | inl (None, st, rest) =>
      do! enqueue (MarkEnded l §"db_client_disconnected") in
      drain rest st
  end.
End Relay.

(** * The protocol of the frontend goroutine

    A message type with its bytes on the wire and the messages that can stand
    there; what is logged of a message (at the [n]-th event of the trace) and
    the state after it, from the state before it. *)
Record protocol (S Msg : Type) := Protocol {
  wire : Msg → bytes;
  readable : Msg → Prop;
  note : nat → S → Msg → list event;
  next : S → Msg → option S;
}.
Arguments wire {S Msg} _ _.
Arguments readable {S Msg} _ _.
Arguments note {S Msg} _ _ _ _.
Arguments next {S Msg} _ _ _.

Section Protocol.
Context {S Msg : Type} (P : protocol S Msg).

(** The events of a message handled in state [c]: its log entry, if it has
    one, then [b] of its bytes to the upstream. *)
Definition handled (n : nat) (c : S) (m : Msg) (b : bytes) (t : list event) : Prop :=
  ∃ ws, t = note P n c m ++ ws ∧ pieces ToUpstream ws b.

(** A session on the client's bytes: messages in stream order, each handled in
    the state the ones before it left, forwarded whole except for the last one
    a failed write may cut; [Some] when it goes on, with the state and the
    bytes left. *)
Inductive fsession : S → bytes → list event → option (S * bytes) → Prop :=
| fs_here c buf : fsession c buf [] (Some (c, buf))
| fs_end c buf : fsession c buf [] None
| fs_step n c c' m buf t t' res : readable P m → handled n c m (wire P m) t → next P c m = Some c' →
    fsession c' buf t' res → fsession c (wire P m ++ buf) (t ++ t') res
| fs_last n c m buf b t : readable P m → handled n c m b t → b `prefix_of` wire P m →
    fsession c (wire P m ++ buf) t None.

(** One pass of the loop. *)
Definition passed (c : S) (w : world) (t : list event) (w' : world) (o : outcome (option S)) : Prop :=
  match o with
  | Ok (Some c') => fsession c (rd_buf (dx_client w)) t (Some (c', rd_buf (dx_client w')))
  | Ok None | Err _ => fsession c (rd_buf (dx_client w)) t None
  | _ => False
  end.
End Protocol.

(** A pass of the loop handles one message of the protocol. *)
Class Forwards {S Msg} (P : protocol S Msg) (forward : S → M world (option S)) := {
  note_is_log n c m : forallb is_log (note P n c m) = true;
  forward_passes c w : ∃ o t w', forward c w = (o, w') ∧ dx_trace w' = dx_trace w ++ t
    ∧ dx_upstream w' = dx_upstream w ∧ passed P c w t w' o;
  forward_progresses c w c' w' : forward c w = (Ok (Some c'), w') → (unread_client w' < unread_client w)%nat;
  forward_clean c c' m t e u tr : readable P m → next P c m = Some c' →
    ∃ t', forward c (Duplex (Reader (wire P m ++ t) e) u [] tr)
          = (Ok (Some c'), Duplex (Reader t e) u [] (tr ++ t'))
      ∧ sent_up t' = wire P m ∧ logged t' = logged (note P 0 c m);
}.

(** * Sessions *)

Definition is_front (e : event) : bool := match e with ToClient _ => false | _ => true end.
Definition is_back (e : event) : bool := negb (is_front e).

Lemma filter_all {A} (P : A → bool) t : forallb P t = true → List.filter P t = t.
Proof. induction t as [|x t IH]; cbn; [done|]. intros [-> Ht]%andb_true_iff. by rewrite IH. Qed.
Lemma filter_none {A} (P : A → bool) t : forallb (λ x, negb (P x)) t = true → List.filter P t = [].
Proof. induction t as [|x t IH]; cbn; [done|]. intros [Hx Ht]%andb_true_iff. apply negb_true_iff in Hx as ->. auto. Qed.
Lemma front_only t : forallb is_front t = true → List.filter is_front t = t ∧ List.filter is_back t = [].
Proof.
  intros Ht. split; [by apply filter_all|apply filter_none]. unfold is_back.
  rewrite forallb_forall in *. intros e He. by rewrite negb_involutive, Ht.
Qed.
Lemma back_only t : forallb is_back t = true → List.filter is_back t = t ∧ List.filter is_front t = [].
Proof. intros Ht. split; [by apply filter_all|by apply filter_none]. Qed.
Lemma forallb_split {A} (P f : A → bool) t :
  forallb P (List.filter f t) = true → forallb P (List.filter (λ x, negb (f x)) t) = true → forallb P t = true.
Proof.
  induction t as [|x t IH]; cbn; [done|]. destruct (f x); cbn; intros Hf Hb; gobool; by rewrite IH, andb_true_r.
Qed.
Section Sessions.
Context {S Msg : Type} (P : protocol S Msg) (forward : S → M world (option S)) `{!Forwards P forward}.
Abbreviation fsession := (fsession P).
Abbreviation handled := (handled P).

Lemma fsession_trans c buf t c1 b1 t' res :
  fsession c buf t (Some (c1, b1)) → fsession c1 b1 t' res → fsession c buf (t ++ t') res.
Proof.
  intros Hs Ht. remember (Some (c1, b1)) as r eqn:Er. induction Hs; simplify_eq; [done|].
  rewrite <- app_assoc. eapply fs_step; [done..|]. auto.
Qed.

(** A predicate of events that log entries and writes to the upstream have. *)
Lemma handled_all Q n c m b t :
  (∀ e, is_log e = true → Q e = true) → (∀ p, Q (ToUpstream p) = true) → handled n c m b t → forallb Q t = true.
Proof.
  intros Hl Hu (ws & -> & Hp). rewrite forallb_app, (pieces_forallb Q ToUpstream ws b), andb_true_r by done.
  eapply forallb_mono; [exact Hl|apply (note_is_log (forward:=forward))].
Qed.
Lemma fsession_all Q c buf t res :
  (∀ e, is_log e = true → Q e = true) → (∀ p, Q (ToUpstream p) = true) → fsession c buf t res → forallb Q t = true.
Proof.
  intros Hl Hu. induction 1; [done|done| |by eapply handled_all].
  rewrite forallb_app, IHfsession, andb_true_r. by eapply handled_all.
Qed.
Lemma fsession_front c buf t res : fsession c buf t res → forallb is_front t = true.
Proof. apply fsession_all; [|done]. by intros []. Qed.
Lemma fsession_calm c buf t res : fsession c buf t res → forallb not_terminal t = true.
Proof. apply fsession_all; [|done]. by intros [| |[]]. Qed.

Lemma forward_loop_spec f c w :
  (unread_client w < f)%nat →
  ∃ o t w', forward_loop forward f c w = (o, w') ∧ dx_trace w' = dx_trace w ++ t
    ∧ dx_upstream w' = dx_upstream w ∧ fsession c (rd_buf (dx_client w)) t None
    ∧ (o = Ok tt ∨ ∃ e, o = Err e).
Proof.
  revert c w. induction f as [|f IH]; intros c w Hf; [lia|]. cbn [forward_loop]. unfold bind.
  destruct (forward_passes c w) as (o & t & w1 & E & Ht & Hu & Hp). rewrite E.
  destruct o as [[c1|]|e|p|]; try done; cbn [passed] in Hp.
  - pose proof (forward_progresses _ _ _ _ E).
    destruct (IH c1 w1 ltac:(lia)) as (o & t' & w2 & -> & Ht2 & Hu2 & Hs & Ho).
    exists o, (t ++ t'), w2. rewrite Ht2, Ht, app_assoc, Hu2. split_and!; try done. by eapply fsession_trans.
  - exists (Ok tt), t, w1. split_and!; try done. by left.
  - exists (Err e), t, w1. split_and!; try done. right. by eexists.
Qed.
Lemma forward_all_spec c w :
  ∃ o t w', forward_all forward c w = (o, w') ∧ dx_trace w' = dx_trace w ++ t
    ∧ dx_upstream w' = dx_upstream w ∧ fsession c (rd_buf (dx_client w)) t None
    ∧ (o = Ok tt ∨ ∃ e, o = Err e).
Proof.
  unfold forward_all, client_left, bind, get, ret. apply forward_loop_spec. unfold unread_client. lia.
Qed.

(** ** The relay *)

(** A session of the frontend goroutine, and of the backend one: chunks of the
    upstream's bytes, in order, of which a failed write may cut the last. *)
Definition front_run (g : goroutine S) (buf : bytes) (t : list event)
    (g' : goroutine S) (buf' : bytes) : Prop :=
  match g, g' with
  | Running c, Running c' => fsession c buf t (Some (c', buf'))
  | Running c, Sent _ => fsession c buf t None
  | Sent _, _ => t = [] ∧ g' = g
  end.
Definition back_run (g : goroutine unit) (buf : bytes) (t : list event)
    (g' : goroutine unit) (buf' : bytes) : Prop :=
  match g, g' with
  | Running _, Running _ => ∃ b, pieces ToClient t b ∧ buf = b ++ buf'
  | Running _, Sent _ => ∃ b, pieces ToClient t b ∧ b `prefix_of` buf
  | Sent _, _ => t = [] ∧ g' = g
  end.

Lemma front_run_refl g buf : front_run g buf [] g buf.
Proof. destruct g; [apply fs_here|done]. Qed.
Lemma back_run_refl g buf : back_run g buf [] g buf.
Proof. destruct g; [|done]. exists []. split; [by exists []|done]. Qed.
Lemma front_run_trans g b t g1 b1 t' g2 b2 :
  front_run g b t g1 b1 → front_run g1 b1 t' g2 b2 → front_run g b (t ++ t') g2 b2.
Proof.
  destruct g as [c|r], g1 as [c1|r1]; cbn; [|intros H1 [-> ->]; by rewrite app_nil_r|by intros [_ ?]|].
  - intros H1 H2. destruct g2; by eapply fsession_trans.
  - by intros [-> [= ->]] [-> ->].
Qed.
Lemma back_run_trans g b t g1 b1 t' g2 b2 :
  back_run g b t g1 b1 → back_run g1 b1 t' g2 b2 → back_run g b (t ++ t') g2 b2.
Proof.
  destruct g as [[]|r], g1 as [[]|r1]; cbn; [|intros H1 [-> ->]; by rewrite app_nil_r|by intros [_ ?]|].
  - intros (p & Hp & ->) H2. destruct g2; destruct H2 as (q & Hq & Hb); exists (p ++ q);
      (split; [by apply pieces_app|]); [by rewrite Hb, app_assoc|by apply prefix_app].
  - by intros [-> [= ->]] [-> ->].
Qed.

(** What a stretch of the relay does: the trace it adds splits into a session
    of the frontend goroutine on the client's bytes and the chunks the backend
    one copied of the upstream's. *)
Definition relayed (st : relay_state S) (w : world) (st' : relay_state S) (w' : world) : Prop :=
  ∃ t, dx_trace w' = dx_trace w ++ t
    ∧ front_run (rl_front st) (rd_buf (dx_client w)) (List.filter is_front t)
        (rl_front st') (rd_buf (dx_client w'))
    ∧ back_run (rl_back st) (rd_buf (dx_upstream w)) (List.filter is_back t)
        (rl_back st') (rd_buf (dx_upstream w')).

Lemma relayed_refl st w : relayed st w st w.
Proof. exists []. rewrite app_nil_r. split_and!; [done|apply front_run_refl|apply back_run_refl]. Qed.
Lemma relayed_trans st w st1 w1 st2 w2 :
  relayed st w st1 w1 → relayed st1 w1 st2 w2 → relayed st w st2 w2.
Proof.
  intros (t & Ht & Hf & Hb) (t' & Ht' & Hf' & Hb'). exists (t ++ t').
  rewrite Ht', Ht, app_assoc, !List.filter_app. split_and!; [done|..].
  - by eapply front_run_trans.
  - by eapply back_run_trans.
Qed.

Lemma front_turn_spec st w :
  ∃ g w', front_turn forward (rl_front st) w = (Ok g, w') ∧ relayed st w (Relay g (rl_back st)) w'.
Proof.
  unfold front_turn. destruct (rl_front st) as [c|r] eqn:Eg.
  2: { exists (Sent r), w. split; [done|]. replace (Relay (Sent r) (rl_back st)) with st; [apply relayed_refl|].
       destruct st; cbn in *; congruence. }
  unfold bind, try. destruct (forward_passes c w) as (o & t & w' & -> & Ht & Hu & Hp).
  assert (Hrel : ∀ g, match g with Running c' => fsession c (rd_buf (dx_client w)) t (Some (c', rd_buf (dx_client w')))
      | Sent _ => fsession c (rd_buf (dx_client w)) t None end → relayed st w (Relay g (rl_back st)) w').
  { intros g Hg. assert (Hfr : forallb is_front t = true) by (destruct g; by eapply fsession_front).
    apply front_only in Hfr as [Hf Hb]. exists t. rewrite Hf, Hb, Eg, Hu. cbn [rl_front rl_back].
    split_and!; [done|by destruct g|apply back_run_refl]. }
  destruct o as [[c'|]|e|p|]; try done; eexists _, w'; (split; [done|]); by apply Hrel.
Qed.

Lemma copy_chunk_spec n w :
  ∃ o t w' b, copy_chunk n w = (o, w') ∧ dx_trace w' = dx_trace w ++ t ∧ dx_client w' = dx_client w
    ∧ pieces ToClient t b
    ∧ match o with
      | Ok true => rd_buf (dx_upstream w) = b ++ rd_buf (dx_upstream w')
      | Ok false | Err _ => b `prefix_of` rd_buf (dx_upstream w)
      | _ => False
      end.
Proof.
  unfold copy_chunk, bind at 1, get. case_bool_decide as Hb.
  { case_bool_decide; eexists _, [], w, []; rewrite app_nil_r;
      (split_and!; [done|done|done|by exists []|apply prefix_nil]). }
  unfold bind, upstream_read, zoom, modify. set (w1 := Duplex _ _ _ _).
  destruct (sends_write ToClient (take (Datatypes.S n) (rd_buf (dx_upstream w))) w1)
    as (o & t & b & w2 & E & Ht & Hp & Hpre & Ho & Hc & Hu & _).
  unfold client_write. rewrite E. destruct Ho as [[-> ->]|[e ->]]; eexists _, t, w2, _;
    (split_and!; [done|exact Ht|exact Hc|exact Hp|]).
  - rewrite Hu. cbn. by rewrite take_drop.
  - cbv beta iota. etransitivity; [exact Hpre|]. exists (drop (Datatypes.S n) (rd_buf (dx_upstream w))).
    by rewrite take_drop.
Qed.
Lemma back_turn_spec n st w :
  ∃ g w', back_turn n (rl_back st) w = (Ok g, w') ∧ relayed st w (Relay (rl_front st) g) w'.
Proof.
  unfold back_turn. destruct (rl_back st) as [[]|r] eqn:Eg.
  2: { exists (Sent r), w. split; [done|]. replace (Relay (rl_front st) (Sent r)) with st; [apply relayed_refl|].
       destruct st; cbn in *; congruence. }
  unfold bind, try. destruct (copy_chunk_spec n w) as (o & t & w' & b & -> & Ht & Hc & Hp & Hm).
  assert (Hb : forallb is_back t = true) by (by apply (pieces_forallb is_back ToClient t b)).
  apply back_only in Hb as [Hb Hf].
  assert (Hrel : ∀ g, match g with Running _ => rd_buf (dx_upstream w) = b ++ rd_buf (dx_upstream w')
      | Sent _ => b `prefix_of` rd_buf (dx_upstream w) end → relayed st w (Relay (rl_front st) g) w').
  { intros g Hg. exists t. rewrite Hf, Hb, Eg, Hc. cbn [rl_front rl_back].
    split_and!; [done|apply front_run_refl|]. destruct g; by exists b. }
  destruct o as [[]|e|p|]; try done; eexists _, w'; (split; [done|]); by apply Hrel.
Qed.

Lemma relay_spec sched st w :
  ∃ r st' rest w', relay forward sched st w = (Ok (r, st', rest), w') ∧ relayed st w st' w'.
Proof.
  revert st w. induction sched as [|[|n|s] sched IH]; intros st w; cbn [relay].
  - destruct (rl_front st) as [c|r] eqn:Eg; [|eexists _, _, _, _; split; [done|apply relayed_refl]].
    unfold bind, try. destruct (forward_all_spec c w) as (o & t & w' & -> & Ht & Hu & Hs & Ho).
    pose proof (fsession_front _ _ _ _ Hs) as [Hf Hb]%front_only.
    destruct Ho as [->|[e ->]]; eexists _, _, _, w'; (split; [done|]); exists t;
      rewrite Hf, Hb, Eg, Hu; (split_and!; [done|done|apply back_run_refl]).
  - destruct (front_turn_spec st w) as (g & w1 & E & Hr). unfold bind. rewrite E.
    destruct (IH (Relay g (rl_back st)) w1) as (r & st' & rest & w' & -> & Hr').
    eexists _, _, _, _. split; [done|]. by eapply relayed_trans.
  - destruct (back_turn_spec n st w) as (g & w1 & E & Hr). unfold bind. rewrite E.
    destruct (IH (Relay (rl_front st) g) w1) as (r & st' & rest & w' & -> & Hr').
    eexists _, _, _, _. split; [done|]. by eapply relayed_trans.
  - destruct (sent st s); [eexists _, _, _, _; split; [done|apply relayed_refl]|apply IH].
Qed.
Lemma drain_spec sched st w : ∃ st' w', drain forward sched st w = (Ok tt, w') ∧ relayed st w st' w'.
Proof.
  revert st w. induction sched as [|[|n|s] sched IH]; intros st w; cbn [drain].
  - eexists _, _. split; [done|apply relayed_refl].
  - destruct (front_turn_spec st w) as (g & w1 & E & Hr). unfold bind. rewrite E.
    destruct (IH (Relay g (rl_back st)) w1) as (st' & w' & -> & Hr').
    eexists _, _. split; [done|]. by eapply relayed_trans.
  - destruct (back_turn_spec n st w) as (g & w1 & E & Hr). unfold bind. rewrite E.
    destruct (IH (Relay (rl_front st) g) w1) as (st' & w' & -> & Hr').
    eexists _, _. split; [done|]. by eapply relayed_trans.
  - apply IH.
Qed.

Lemma relayed_calm st w st' w' : relayed st w st' w' → calm w w'.
Proof.
  intros (t & Ht & Hf & Hb). exists t. split; [done|]. apply (forallb_split _ is_front).
  - unfold front_run in Hf. repeat case_match; try (by eapply fsession_calm); by destruct Hf as [-> _].
  - unfold back_run, is_back in Hb. repeat case_match; try (by destruct Hb as [-> _]);
      destruct Hb as (b & Hb & _); by apply (pieces_forallb not_terminal ToClient _ b).
Qed.
Lemma calm_relay sched st : keeps calm (relay forward sched st).
Proof. intros w. destruct (relay_spec sched st w) as (? & ? & ? & ? & -> & Hr). by eapply relayed_calm. Qed.
Lemma ends_relay sched st : ends (relay forward sched st).
Proof. intros w. by destruct (relay_spec sched st w) as (? & ? & ? & ? & -> & _). Qed.

(** ** The relay is transparent *)

Lemma handled_sent n c m b t : handled n c m b t → sent_up t = b.
Proof.
  intros (ws & -> & Hp). apply pieces_up in Hp as [<- _]. rewrite sent_up_app.
  assert (Hn : sent_up (note P n c m) = []); [|by rewrite Hn].
  pose proof (note_is_log (forward:=forward) n c m) as Hl. unfold sent_up.
  induction (note P n c m) as [|[] t IH]; cbn in *; try done. gobool. auto.
Qed.
Lemma fsession_sent c buf t res : fsession c buf t res → sent_up t `prefix_of` buf.
Proof.
  induction 1 as [c buf|c buf|n c c' m buf t t' res _ Hh _ _ IH|n c m buf b t _ Hh Hb]; [apply prefix_nil..| |].
  - rewrite sent_up_app, (handled_sent _ _ _ _ _ Hh). by apply prefix_app.
  - rewrite (handled_sent _ _ _ _ _ Hh). by apply prefix_app_r.
Qed.
Lemma sent_front t : sent_up (List.filter is_front t) = sent_up t.
Proof.
  unfold sent_up. induction t as [|e t IH]; [done|]. destruct e; cbn; [|done|done]. by rewrite IH.
Qed.
Lemma sent_back t : sent_down (List.filter is_back t) = sent_down t.
Proof.
  unfold sent_down. induction t as [|e t IH]; [done|]. destruct e; cbn; [done| |done]. by rewrite IH.
Qed.
Lemma relayed_sent st w st' w' t :
  relayed st w st' w' → dx_trace w' = dx_trace w ++ t →
  sent_up t `prefix_of` rd_buf (dx_client w) ∧ sent_down t `prefix_of` rd_buf (dx_upstream w).
Proof.
  intros (t0 & Ht & Hf & Hb) Ht'. rewrite Ht' in Ht. apply app_inv_head in Ht as <-. split.
  - rewrite <- sent_front. unfold front_run in Hf.
    repeat case_match; try (by eapply fsession_sent); destruct Hf as [-> _]; apply prefix_nil.
  - rewrite <- sent_back. unfold back_run in Hb. repeat case_match; try (destruct Hb as [-> _]; apply prefix_nil).
    + destruct Hb as (b & Hp & ->). rewrite (pieces_down _ _ Hp). by apply prefix_app_r.
    + destruct Hb as (b & Hp & Hpre). by rewrite (pieces_down _ _ Hp).
Qed.

(** ** Messages without errors on the wire

    The messages of a list handled from state [c], with what is logged of them
    and the state after. *)
Inductive messages : S → list Msg → list (bytes * bytes * bool) → S → Prop :=
| msgs_nil c : messages c [] [] c
| msgs_cons c c' c2 m ms l : readable P m → next P c m = Some c' → messages c' ms l c2 →
    messages c (m :: ms) (logged (note P 0 c m) ++ l) c2.

Lemma forward_loop_clean f c ms l c2 t e u tr :
  messages c ms l c2 →
  ∃ t', forward_loop forward (length ms + f) c (Duplex (Reader (concat (map (wire P) ms) ++ t) e) u [] tr)
        = forward_loop forward f c2 (Duplex (Reader t e) u [] (tr ++ t'))
    ∧ sent_up t' = concat (map (wire P) ms) ∧ logged t' = l.
Proof.
  intros Hm. revert tr. induction Hm as [c|c c' c2 m ms l Hr Hn Hm IH]; intros tr.
  - exists []. by rewrite app_nil_r.
  - cbn [map concat length Nat.add forward_loop]. rewrite <- app_assoc.
    destruct (forward_clean c c' m (concat (map (wire P) ms) ++ t) e u tr Hr Hn) as (t1 & E & Hs & Hl).
    destruct (IH (tr ++ t1)) as (t2 & E2 & Hs2 & Hl2). exists (t1 ++ t2).
    unfold bind. rewrite E, E2. split_and!; [by rewrite app_assoc|by rewrite sent_up_app, Hs, Hs2|].
    unfold logged in *. by rewrite omap_app, Hl, Hl2.
Qed.
Lemma messages_length c ms l c2 :
  (∀ m, readable P m → wire P m ≠ []) → messages c ms l c2 → (length ms <= length (concat (map (wire P) ms)))%nat.
Proof.
  intros Hw. induction 1 as [|c c' c2 m ms l Hm _ _ IH]; cbn; [done|]. rewrite length_app.
  specialize (Hw m Hm). destruct (wire P m); [done|]. cbn. lia.
Qed.
(** The whole loop, when the client closes after its messages. *)
Lemma forward_all_clean c ms l c2 u tr :
  (∀ m, readable P m → wire P m ≠ []) → messages c ms l c2 →
  ∃ t f, forward_all forward c (Duplex (Reader (concat (map (wire P) ms)) io_EOF) u [] tr)
        = forward_loop forward (Datatypes.S f) c2 (Duplex (Reader [] io_EOF) u [] (tr ++ t))
    ∧ sent_up t = concat (map (wire P) ms) ∧ logged t = l.
Proof.
  intros Hw Hm. pose proof (messages_length _ _ _ _ Hw Hm) as Hl.
  unfold forward_all, client_left, bind, get, ret. cbn [dx_client rd_buf].
  set (k := (length (concat (map (wire P) ms)) - length ms)%nat).
  destruct (forward_loop_clean (Datatypes.S k) c ms l c2 [] io_EOF u tr Hm) as (t & E & Hs & Hg).
  rewrite app_nil_r in E. exists t, k. split_and!; [|done|done]. rewrite <- E. f_equal. lia.
Qed.

(** ** A connection

    The mark that ends a connection, by what its handler returns. *)
Definition closing (lctx : LaunchContext) (o : outcome unit) : list event :=
  match o with
  | Ok _ => [Enqueue (MarkEnded lctx §"db_client_disconnected")]
  | Err _ => [Enqueue (MarkFailed lctx §"db_proxy_failed")]
  | _ => []
  end.
Lemma session_conn_spec lctx addr flow w :
  keeps calm flow → ends flow →
  ∃ t t' o w', session_conn forward lctx addr flow w = (o, w')
    ∧ dx_trace w' = dx_trace w ++ Enqueue (MarkProxyConnected lctx addr) :: t ++ closing lctx o ++ t'
    ∧ forallb not_terminal (t ++ t') = true ∧ o ≠ OutOfFuel.
Proof.
  intros Hcalm Hends. unfold session_conn, enqueue, emit. unfold bind at 1, modify. set (w0 := Duplex _ _ _ _).
  destruct (Hcalm w0) as (t & Ht & Hc). pose proof (Hends w0) as He.
  unfold bind at 1, try. destruct (flow w0) as [[[[r st] rest]|e|p|] w1]; cbn [fst snd] in *; try done.
  - assert (Hd : ∀ c, ∃ w2 t2, drain forward rest st (Duplex (dx_client w1) (dx_upstream w1) (dx_faults w1)
        (dx_trace w1 ++ [c])) = (Ok tt, w2) ∧ dx_trace w2 = dx_trace w1 ++ [c] ++ t2 ∧ forallb not_terminal t2 = true).
    { intros c. set (v := Duplex _ _ _ _). destruct (drain_spec rest st v) as (st' & w2 & E & Hr).
      apply relayed_calm in Hr as (t2 & Ht2 & Hc2). exists w2, t2. split_and!; [done| |done].
      rewrite Ht2; cbn; by rewrite <- app_assoc. }
    destruct r as [e|].
    + destruct (Hd (Enqueue (MarkFailed lctx §"db_proxy_failed"))) as (w2 & t2 & E & Ht2 & Hc2).
      exists t, t2, (Err e), w2. unfold bind. cbv beta iota. rewrite E. split_and!; [done| |by rewrite forallb_app, Hc, Hc2|done].
      rewrite Ht2, Ht. cbn. by rewrite <- !app_assoc.
    + destruct (Hd (Enqueue (MarkEnded lctx §"db_client_disconnected"))) as (w2 & t2 & E & Ht2 & Hc2).
      exists t, t2, (Ok tt), w2. unfold bind. cbv beta iota. rewrite E. split_and!; [done| |by rewrite forallb_app, Hc, Hc2|done].
      rewrite Ht2, Ht. cbn. by rewrite <- !app_assoc.
  - exists t, [], (Err e). eexists. split_and!; [done| |by rewrite app_nil_r|done].
    cbn. rewrite Ht. cbn. by rewrite <- !app_assoc.
  - exists t, [], (Panic p), w1. split_and!; [done| |by rewrite app_nil_r|done].
    cbn. rewrite Ht. cbn. by rewrite <- !app_assoc, app_nil_r.
Qed.
End Sessions.
