(* ===== verification/MysqlWire.v ===== *)
(** The MySQL wire format of the MySQL proxy
    (apps/api/internal/mysqlproxy/server.go, "MySQL wire protocol helpers" to
    "Utility functions"): packets, length-encoded integers, the handshake
    packets, the authentication responses, and the classification of queries
    and of the configured TLS mode. *)
From S2P Require Import Prelude GoStrings GoBinary GoIO GoCrypto.

(** * Integers *)

Definition has_flag (x mask : Z) : bool := negb (Z.land x mask =? 0).

Definition comQuit : Z := 1.
Definition comQuery : Z := 3.
Definition comFieldList : Z := 4.
Definition comStmtPrepare : Z := 22.
Definition comStmtExecute : Z := 23.
Definition comStmtSendLongData : Z := 24.
Definition comStmtClose : Z := 25.

Definition iOK : Z := 0.
Definition iERR : Z := 255.
Definition iEOF : Z := 254.
Definition iLocalInf : Z := 251.

Definition capLongPassword : Z := Z.shiftl 1 0.
Definition capFoundRows : Z := Z.shiftl 1 1.
Definition capLongFlag : Z := Z.shiftl 1 2.
Definition capConnectWithDB : Z := Z.shiftl 1 3.
Definition capProtocol41 : Z := Z.shiftl 1 9.
Definition capSSL : Z := Z.shiftl 1 11.
Definition capTransactions : Z := Z.shiftl 1 13.
Definition capSecureConnection : Z := Z.shiftl 1 15.
Definition capPluginAuth : Z := Z.shiftl 1 19.
Definition statusMoreResults : Z := 8.

Definition authNativePassword : bytes := §"mysql_native_password".
Definition authCachingSha2 : bytes := §"caching_sha2_password".
Definition maxPacketSize : Z := Z.shiftl 1 24 - 1.

(** * Packets *)

(** [readPacket]: a payload and its sequence number. *)
Definition readPacket : M reader (bytes * Z) :=
  let! header := ReadFull 4 in
  let length := Z.lor (Z.lor (at_byte header 0) (Z.shiftl (at_byte header 1) 8))
                      (Z.shiftl (at_byte header 2) 16) in
  let seq := at_byte header 3 in
  if length =? 0 then ret ([], seq)
  else let! payload := ReadFull length in ret (payload, seq).

(** [writePacket]'s header for a payload; the length is cut to 24 bits. *)
Definition packet_header (payload : bytes) (seq : Z) : bytes :=
  let pLen := zlen payload in
  [z2b pLen; z2b (Z.shiftr pLen 8); z2b (Z.shiftr pLen 16); z2b seq].

(** [writePacket]: the header, then the payload when there is one. *)
Definition writePacket {E} (side : bytes → effect E) (payload : bytes) (seq : Z)
    : M (duplex E) unit :=
  do! write_to side (packet_header payload seq) in
  if 0 <? zlen payload then write_to side payload else ret tt.

(** [seq + 1] on a uint8. *)
Definition next_seq (seq : Z) : Z := wrap 8 (seq + 1).

(** * Length-encoded integers *)

(** The value and the bytes consumed. *)
Definition readLenEncInt (data : bytes) : Z * nat + error :=
  match data with
  | [] => inr (Errorf §"empty data for lenenc int")
  | b :: rest =>
      if b2z b <? 251 then inl (b2z b, 1%nat)
      else if b2z b =? 252 then
        if (length data <? 3)%nat then inr (Errorf §"short lenenc int (2-byte)")
        else inl (le_value (slice data 1 3), 3%nat)
      else if b2z b =? 253 then
        if (length data <? 4)%nat then inr (Errorf §"short lenenc int (3-byte)")
        else inl (Z.lor (Z.lor (at_byte data 1) (Z.shiftl (at_byte data 2) 8))
                        (Z.shiftl (at_byte data 3) 16), 4%nat)
      else if b2z b =? 254 then
        if (length data <? 9)%nat then inr (Errorf §"short lenenc int (8-byte)")
        else inl (le_value (slice data 1 9), 9%nat)
      else inr (Errorf §"invalid lenenc int prefix")
  end.

Definition writeLenEncInt (v : Z) : bytes :=
  if v <? 251 then [z2b v]
  else if v <? Z.shiftl 1 16 then z2b 252 :: le_bytes 2 (wrap 16 v)
  else if v <? Z.shiftl 1 24 then [z2b 253; z2b v; z2b (Z.shiftr v 8); z2b (Z.shiftr v 16)]
  else z2b 254 :: le_bytes 8 v.

(** * Packet inspection *)

Definition isEOFPacket (payload : bytes) : bool :=
  (0 <? length payload)%nat && (at_byte payload 0 =? iEOF) && (length payload <? 9)%nat.
Definition isERRPacket (payload : bytes) : bool :=
  (0 <? length payload)%nat && (at_byte payload 0 =? iERR).
Definition hasMoreResultsOK (payload : bytes) : bool :=
  if (length payload <? 2)%nat then false else
  match readLenEncInt (drop 1 payload) with
  | inr _ => false
  | inl (_, n) =>
      let pos := (1 + n)%nat in
      match readLenEncInt (drop pos payload) with
      | inr _ => false
      | inl (_, n') =>
          let pos := (pos + n')%nat in
          if (length payload <? pos + 2)%nat then false
          else has_flag (le_value (slice payload pos (pos + 2))) statusMoreResults
      end
  end.
Definition hasMoreResultsEOF (payload : bytes) : bool :=
  if (length payload <? 5)%nat then false
  else has_flag (le_value (slice payload 3 5)) statusMoreResults.

Definition buildOKPacket (affectedRows lastInsertID statusFlags warnings : Z) : bytes :=
  z2b iOK :: writeLenEncInt affectedRows ++ writeLenEncInt lastInsertID
    ++ le_bytes 2 statusFlags ++ le_bytes 2 warnings.

Definition parseErrPacket (payload : bytes) : bytes :=
  if (length payload <? 3)%nat then §"unknown error" else
  let errCode := le_value (slice payload 1 3) in
  let pos := if (3 <? length payload)%nat && bool_decide (nth 3 payload "000"%byte = "#"%byte)
             then 9%nat else 3%nat in
  let msg := if (pos <? length payload)%nat then drop pos payload else [] in
  if bool_decide (msg = []) then §"error code " ++ Itoa errCode
  else §"error " ++ Itoa errCode ++ §": " ++ TrimSpace msg.

(** Drop one trailing NUL. *)
Definition trim_nul (l : bytes) : bytes :=
  match last l with
  | Some b => if bool_decide (b = "000"%byte) then take (length l - 1) l else l
  | None => l
  end.

Definition parseAuthSwitch (payload : bytes) : bytes * bytes :=
  if (length payload <? 2)%nat || negb (at_byte payload 0 =? iEOF) then ([], []) else
  let rest := drop 1 payload in
  match IndexByte rest "000"%byte with
  | None => (rest, [])
  | Some nullPos => (take nullPos rest, trim_nul (drop (S nullPos) rest))
  end.

(** * Handshakes *)

Record handshakeV10 := {
  hs_ProtocolVersion : Z;
  hs_ServerVersion : bytes;
  hs_ConnectionID : Z;
  hs_AuthData : bytes;
  hs_Capabilities : Z;
  hs_CharacterSet : Z;
  hs_StatusFlags : Z;
  hs_AuthPlugin : bytes;
}.

(** The tail of [parseHandshakeV10], from the second part of the
    authentication data on: [pos] is past the ten reserved bytes. *)
Definition parse_auth_part2 (payload authData1 : bytes) (caps authDataLen : Z) (pos : nat)
    : bytes * bytes :=
  let '(authData, pos) :=
    if has_flag caps capSecureConnection then
      let part2Len := Z.max 13 (authDataLen - 8) in
      let part2Len := if zlen payload <? Z.of_nat pos + part2Len
                      then (length payload - pos)%nat else Z.to_nat part2Len in
      (authData1 ++ trim_nul (slice payload pos (pos + part2Len)), (pos + part2Len)%nat)
    else (authData1, pos) in
  let plugin :=
    if has_flag caps capPluginAuth && (pos <? length payload)%nat then
      match IndexByte (drop pos payload) "000"%byte with
      | Some np => slice payload pos (pos + np)
      | None => drop pos payload
      end
    else [] in
  (authData, plugin).

Definition parseHandshakeV10 (payload : bytes) : handshakeV10 + error :=
  let n := length payload in
  if (n <? 4)%nat then inr (Errorf §"handshake too short") else
  let version := at_byte payload 0 in
  if negb (version =? 10) then inr (Errorf §"unsupported mysql protocol version") else
  match IndexByte (drop 1 payload) "000"%byte with
  | None => inr (Errorf §"malformed server version")
  | Some nullPos =>
      let serverVersion := slice payload 1 (1 + nullPos) in
      let pos := (2 + nullPos)%nat in
      if (n <? pos + 4)%nat then inr (Errorf §"short handshake: connection id") else
      let connID := le_value (slice payload pos (pos + 4)) in
      let pos := (pos + 4)%nat in
      if (n <? pos + 8)%nat then inr (Errorf §"short handshake: auth data part 1") else
      let authData1 := slice payload pos (pos + 8) in
      let pos := (pos + 8)%nat in
      let mk caps charset status authData plugin :=
        inl {| hs_ProtocolVersion := version; hs_ServerVersion := serverVersion;
               hs_ConnectionID := connID; hs_AuthData := authData; hs_Capabilities := caps;
               hs_CharacterSet := charset; hs_StatusFlags := status; hs_AuthPlugin := plugin |} in
      if (n <=? pos)%nat then mk 0 0 0 authData1 [] else
      let pos := (pos + 1)%nat in
      if (n <? pos + 2)%nat then mk 0 0 0 authData1 [] else
      let capLow := le_value (slice payload pos (pos + 2)) in
      let pos := (pos + 2)%nat in
      if (n <=? pos)%nat then mk capLow 0 0 authData1 [] else
      let charset := at_byte payload pos in
      let pos := (pos + 1)%nat in
      if (n <? pos + 2)%nat then mk capLow charset 0 authData1 [] else
      let status := le_value (slice payload pos (pos + 2)) in
      let pos := (pos + 2)%nat in
      if (n <? pos + 2)%nat then mk capLow charset status authData1 [] else
      let capHigh := le_value (slice payload pos (pos + 2)) in
      let caps := Z.lor capLow (Z.shiftl capHigh 16) in
      let pos := (pos + 2)%nat in
      let '(authDataLen, pos) := if (pos <? n)%nat then (at_byte payload pos, (pos + 1)%nat)
                                 else (0, pos) in
      if (n <? pos + 10)%nat then mk caps charset status authData1 [] else
      let '(authData, plugin) := parse_auth_part2 payload authData1 caps authDataLen (pos + 10) in
      mk caps charset status authData plugin
  end.

Definition base_caps : Z :=
  Z.lor (Z.lor (Z.lor (Z.lor (Z.lor (Z.lor capLongPassword capFoundRows) capLongFlag)
    capProtocol41) capTransactions) capSecureConnection) capPluginAuth.
Definition zeros (n : nat) : bytes := repeat "000"%byte n.

(** [connID] and [salt] are the random bytes the proxy draws. *)
Definition buildServerHandshake (connID salt : bytes) (supportSSL : bool) : bytes :=
  let caps := Z.lor base_caps capConnectWithDB in
  let caps := if supportSSL then Z.lor caps capSSL else caps in
  [z2b 10] ++ §"5.7.99-accessd-mysql-proxy" ++ [z2b 0]
  ++ connID
  ++ take 8 salt ++ [z2b 0]
  ++ le_bytes 2 (wrap 16 (Z.land caps 65535))
  ++ [z2b 45] ++ le_bytes 2 2 ++ le_bytes 2 (wrap 16 (Z.shiftr caps 16))
  ++ [z2b 21] ++ zeros 10
  ++ slice salt 8 20 ++ [z2b 0]
  ++ authNativePassword ++ [z2b 0].

Definition response_caps (serverCaps : Z) (database : bytes) (useSSL : bool) : Z :=
  let add_optional caps :=
    let caps := if negb (bool_decide (database = [])) then Z.lor caps capConnectWithDB else caps in
    if useSSL then Z.lor caps capSSL else caps in
  let caps := add_optional base_caps in
  let caps := Z.land caps (Z.lor (Z.lor (Z.lor serverCaps capProtocol41) capSecureConnection) capPluginAuth) in
  add_optional caps.

Definition buildHandshakeResponse (serverCaps : Z) (username database authPlugin authResponse : bytes)
    (useSSL : bool) : bytes :=
  le_bytes 4 (response_caps serverCaps database useSSL) ++ le_bytes 4 maxPacketSize
  ++ [z2b 45] ++ zeros 23
  ++ username ++ [z2b 0]
  ++ [z2b (zlen authResponse)] ++ authResponse
  ++ (if negb (bool_decide (database = [])) then database ++ [z2b 0] else [])
  ++ authPlugin ++ [z2b 0].

Definition buildSSLRequest : bytes :=
  le_bytes 4 (Z.lor (Z.lor base_caps capConnectWithDB) capSSL) ++ le_bytes 4 maxPacketSize
  ++ [z2b 45] ++ zeros 23.

(** * Authentication responses *)

Definition xor_bytes (a b : bytes) : bytes := zip_with (λ x y, z2b (Z.lxor (b2z x) (b2z y))) a b.

Definition nativePasswordAuth (password salt : bytes) : bytes :=
  let hash1 := sha1 password in
  let hash2 := sha1 hash1 in
  xor_bytes (sha1 (salt ++ hash2)) hash1.
Definition cachingSha2Auth (password salt : bytes) : bytes :=
  let hash1 := sha256 password in
  let hash2 := sha256 hash1 in
  xor_bytes hash1 (sha256 (hash2 ++ salt)).
Definition computeAuthResponse (plugin password salt : bytes) : bytes :=
  if bool_decide (password = []) then []
  else if bool_decide (plugin = authCachingSha2) then cachingSha2Auth password salt
  else nativePasswordAuth password salt.

(** * Queries *)

Definition truncate (v : bytes) (max : Z) : bytes :=
  if (max <=? 0) || (zlen v <=? max) then v else take (Z.to_nat max) v.

Inductive mysqlStartupProbeType := ProbeNone | ProbeSet | ProbeSelectVar | ProbeShowVar.

#[export] Instance probe_eq_dec : EqDecision mysqlStartupProbeType.
Proof. solve_decision. Defined.

(** The loop of [stripLeadingSQLComments], bounded by the length of the text:
    every round drops at least two bytes. *)
Fixpoint strip_comments (fuel : nat) (s : bytes) : bytes :=
  match fuel with
  | O => s
  | S f =>
      if HasPrefix s §"/*" then
        match Index s §"*/" with
        | None => s
        | Some e => strip_comments f (TrimSpace (drop (e + 2) s))
        end
      else if HasPrefix s §"--" || HasPrefix s §"#" then
        match IndexByte s "010"%byte with
        | None => s
        | Some nl => strip_comments f (TrimSpace (drop (nl + 1) s))
        end
      else s
  end.
Definition stripLeadingSQLComments (query : bytes) : bytes :=
  let s := TrimSpace query in strip_comments (length s) s.

Definition classifyMySQLStartupProbe `{Unicode} (query : bytes) : mysqlStartupProbeType :=
  let q := ToLower (TrimSpace (TrimSuffix (stripLeadingSQLComments query) §";")) in
  let q := RemoveByte "`"%byte q in
  if HasPrefix q §"set " then ProbeSet
  else if HasPrefix q §"select @@" then ProbeSelectVar
  else if HasPrefix q §"show variables like" || HasPrefix q §"show session variables like"
          || HasPrefix q §"show global variables like" then ProbeShowVar
  else ProbeNone.

(** * Synthetic replies *)

Definition buildSimpleTextColumnDef (name : bytes) : bytes :=
  let n := TrimSpace name in
  let n := if bool_decide (n = []) then §"value" else n in
  let n := if 250 <? zlen n then take 250 n else n in
  map z2b [3; 100; 101; 102] ++ map z2b [0; 0; 0] ++ [z2b (zlen n)] ++ n
  ++ map z2b [0; 12; 33; 0; 0; 1; 0; 0; 253; 0; 0; 0; 0; 0].

Definition eof_packet : bytes := map z2b [254; 0; 0; 2; 0].

(** One cell of a text row; [None] is NULL, as are cells too long to encode. *)
Definition text_cell (c : option bytes) : bytes :=
  match c with
  | Some val => if zlen val <? 251 then z2b (zlen val) :: val else [z2b 251]
  | None => [z2b 251]
  end.
Definition text_row (ncols : nat) (row : list (option bytes)) : bytes :=
  concat (map (λ i, text_cell (default None (row !! i))) (seq 0 ncols)).

(** The packets of a text result set, in order; the caller numbers them. *)
Definition synthetic_packets (columns : list bytes) (rows : list (list (option bytes))) : list bytes :=
  let columns := match columns with [] => [§"value"] | _ => columns end in
  [[z2b (zlen columns)]] ++ map buildSimpleTextColumnDef columns ++ [eof_packet]
  ++ map (text_row (length columns)) rows ++ [eof_packet].

(** Write packets with consecutive sequence numbers. *)
Fixpoint write_numbered {E} (side : bytes → effect E) (packets : list bytes) (seq : Z)
    : M (duplex E) unit :=
  match packets with
  | [] => ret tt
  | p :: ps => do! writePacket side p seq in write_numbered side ps (next_seq seq)
  end.

Definition writeSyntheticTextResult {E} (seq : Z) (columns : list bytes)
    (rows : list (list (option bytes))) : M (duplex E) unit :=
  write_numbered ToClient (synthetic_packets columns rows) (next_seq seq).

Definition writeMySQLStartupProbeResponse {E} (seq : Z) (probe : mysqlStartupProbeType)
    : M (duplex E) unit :=
  match probe with
  | ProbeSet => writePacket ToClient (buildOKPacket 0 0 2 0) (next_seq seq)
  | ProbeShowVar => writeSyntheticTextResult seq [§"Variable_name"; §"Value"] []
  | ProbeSelectVar => writeSyntheticTextResult seq [§"value"] [[None]]
  | ProbeNone => writePacket ToClient (buildOKPacket 0 0 2 0) (next_seq seq)
  end.

(** * TLS modes *)

Record sslModeConfig := SslMode { AttemptTLS : bool; RequireTLS : bool; VerifyCert : bool }.

Definition classifySSLMode `{Unicode} (raw : bytes) : sslModeConfig :=
  let m := ToLower (TrimSpace raw) in
  if bool_decide (m = §"disable") then SslMode false false false
  else if bool_decide (m ∈ [§"allow"; §"prefer"; §"preferred"; []]) then SslMode true false false
  else if bool_decide (m ∈ [§"require"; §"required"]) then SslMode true true false
  else if bool_decide (m ∈ [§"verify-ca"; §"verify-full"; §"verify_ca"; §"verify_identity"])
  then SslMode true true true
  else SslMode true false false.

(** * Integer lemmas *)

Lemma lor_shiftl a b n : 0 <= n → 0 <= a < 2 ^ n → Z.lor a (Z.shiftl b n) = a + b * 2 ^ n.
Proof.
  intros Hn Ha. assert (Hd : Z.land a (Z.shiftl b n) = 0).
  { apply Z.bits_inj'. intros i Hi. rewrite Z.land_spec, Z.shiftl_spec, Z.bits_0 by lia.
    destruct (Z.lt_ge_cases i n) as [Hl|Hl].
    - by rewrite (Z.testbit_neg_r b) by lia; rewrite andb_false_r.
    - destruct (Z.eq_dec a 0) as [->|]; [by rewrite Z.bits_0|].
      rewrite Z.bits_above_log2; [done|lia|]. apply Z.log2_lt_pow2; [lia|].
      apply Z.lt_le_trans with (2 ^ n); [lia|]. apply Z.pow_le_mono_r; lia. }
  rewrite <- Z.lxor_lor, <- Z.add_nocarry_lxor by done. by rewrite Z.shiftl_mul_pow2.
Qed.

Lemma three_bytes a b c :
  0 <= a < 256 → 0 <= b < 256 →
  Z.lor (Z.lor a (Z.shiftl b 8)) (Z.shiftl c 16) = a + 256 * b + 65536 * c.
Proof. intros. rewrite (lor_shiftl a b 8), lor_shiftl by lia. lia. Qed.

Lemma split_three z : 0 <= z < 2 ^ 24 →
  b2z (z2b z) + 256 * b2z (z2b (Z.shiftr z 8)) + 65536 * b2z (z2b (Z.shiftr z 16)) = z.
Proof.
  intros Hz. rewrite !b2z_z2b, !Z.shiftr_div_pow2 by lia.
  change (2 ^ 8) with 256. change (2 ^ 16) with 65536. change (2 ^ 24) with 16777216 in *.
  pose proof (Z.div_mod z 256 ltac:(lia)).
  pose proof (Z.div_mod (z / 256) 256 ltac:(lia)) as H2. rewrite Z.div_div in H2 by lia.
  change (256 * 256) with 65536 in H2.
  assert (z / 65536 < 256) by (apply Z.div_lt_upper_bound; lia).
  assert (0 <= z / 65536) by (apply Z.div_pos; lia).
  rewrite (Z.mod_small (z / 65536)) by lia. lia.
Qed.

(** * Packets *)

Lemma header_length payload seq : length (packet_header payload seq) = 4%nat.
Proof. done. Qed.

Lemma readPacket_app payload seq t e :
  zlen payload <= maxPacketSize → 0 <= seq < 256 →
  readPacket (Reader (packet_header payload seq ++ payload ++ t) e) = (Ok (payload, seq), Reader t e).
Proof.
  intros Hl Hs. unfold maxPacketSize in Hl. change (Z.shiftl 1 24 - 1) with 16777215 in Hl.
  pose proof (zlen_nonneg payload). unfold readPacket, bind at 1.
  rewrite ReadFull_app by done. rewrite three_bytes by apply b2z_range.
  change (at_byte (packet_header payload seq) 0) with (b2z (z2b (zlen payload))).
  change (at_byte (packet_header payload seq) 1) with (b2z (z2b (Z.shiftr (zlen payload) 8))).
  change (at_byte (packet_header payload seq) 2) with (b2z (z2b (Z.shiftr (zlen payload) 16))).
  change (at_byte (packet_header payload seq) 3) with (b2z (z2b seq)).
  rewrite split_three by (change (2 ^ 24) with 16777216; lia).
  rewrite b2z_z2b, (Z.mod_small seq) by lia.
  destruct (zlen payload =? 0) eqn:E; gobool.
  - destruct payload; [done|]. rewrite zlen_cons in E. pose proof (zlen_nonneg payload). lia.
  - unfold bind. rewrite ReadFull_app by (unfold zlen; lia). done.
Qed.

Lemma readPacket_exact r p s r' :
  readPacket r = (Ok (p, s), r') →
  rd_buf r = packet_header p s ++ p ++ rd_buf r' ∧ rd_end r' = rd_end r
  ∧ zlen p <= maxPacketSize ∧ 0 <= s < 256.
Proof.
  intros H. apply bind_ok in H as (h & r1 & H1 & H).
  pose proof (ReadFull_length _ _ _ _ H1) as Hl. change (Z.to_nat 4) with 4%nat in Hl.
  apply ReadFull_exact in H1 as [Hb He].
  do 5 (destruct h as [|? h]; try discriminate Hl). unfold at_byte in H. cbn [nth] in H.
  rewrite three_bytes in H by apply b2z_range.
  set (n := b2z b + 256 * b2z b0 + 65536 * b2z b1) in H.
  pose proof (b2z_range b). pose proof (b2z_range b0). pose proof (b2z_range b1).
  assert (Hh : ∀ q, zlen q = n → packet_header q (b2z b2) = [b; b0; b1; b2]).
  { intros q Hq. unfold packet_header. rewrite Hq, z2b_b2z.
    rewrite !Z.shiftr_div_pow2 by lia. change (2 ^ 8) with 256. change (2 ^ 16) with 65536.
    repeat f_equal; apply b2z_inj; rewrite b2z_z2b; unfold n.
    - rewrite <- (Z.mod_small (b2z b) 256) at 2 by lia.
      replace (b2z b + 256 * b2z b0 + 65536 * b2z b1)
        with (b2z b + (b2z b0 + 256 * b2z b1) * 256) by lia. apply Z.mod_add. lia.
    - replace (b2z b + 256 * b2z b0 + 65536 * b2z b1)
        with (b2z b + (b2z b0 + b2z b1 * 256) * 256) by lia.
      rewrite Z.div_add, Z.div_small, Z.add_0_l, Z.mod_add, Z.mod_small by lia. lia.
    - replace (b2z b + 256 * b2z b0 + 65536 * b2z b1)
        with ((b2z b + 256 * b2z b0) + b2z b1 * 65536) by lia.
      rewrite Z.div_add, Z.div_small, Z.add_0_l, Z.mod_small by lia. lia. }
  destruct (n =? 0) eqn:E; gobool.
  - injection H as <- <- <-. rewrite (Hh []) by done. cbn. rewrite Hb. pose proof (b2z_range b2).
    split_and!; try done; lia.
  - apply bind_ok in H as (q & r2 & Hr2 & [= <- <- <-]).
    pose proof (ReadFull_length _ _ _ _ Hr2) as Hq. apply ReadFull_exact in Hr2 as [Hb' He'].
    assert (Hn : zlen q = n) by (unfold zlen; lia).
    pose proof (b2z_range b2).
    rewrite (Hh q Hn), Hb, Hb', Hn. split_and!; [done|congruence| |lia..].
    unfold maxPacketSize. change (Z.shiftl 1 24 - 1) with 16777215. lia.
Qed.

Lemma readPacket_progress r p s r' :
  readPacket r = (Ok (p, s), r') → (length (rd_buf r') + 4 <= length (rd_buf r))%nat.
Proof.
  intros H. apply readPacket_exact in H as (-> & _). rewrite !length_app, header_length. lia.
Qed.

Lemma readPacket_ends r : (readPacket r).1 ≠ OutOfFuel.
Proof.
  unfold readPacket, bind. assert (Hf : ∀ n r, (ReadFull n r).1 ≠ OutOfFuel).
  { intros n r0. unfold ReadFull. destruct (_ <=? _)%nat; [done|]. by destruct (rd_buf r0). }
  pose proof (Hf 4 r). destruct (ReadFull 4 r) as [[h| | |] r1]; try done.
  destruct (_ =? 0); [done|]. set (n := Z.lor _ _). pose proof (Hf n r1).
  by destruct (ReadFull n r1) as [[]?].
Qed.

(** * Length-encoded integers *)

Lemma read_write_lenenc v t :
  0 <= v < 2 ^ 64 →
  readLenEncInt (writeLenEncInt v ++ t) = inl (v, length (writeLenEncInt v)).
Proof.
  intros Hv. unfold writeLenEncInt. change (Z.shiftl 1 16) with 65536.
  change (Z.shiftl 1 24) with 16777216. change (2 ^ 64) with (256 ^ 8) in Hv.
  destruct (v <? 251) eqn:E1; [|destruct (v <? 65536) eqn:E2; [|destruct (v <? 16777216) eqn:E3]];
    gobool; cbn [app readLenEncInt]; rewrite b2z_z2b.
  - rewrite Z.mod_small by lia. by rewrite (proj2 (Z.ltb_lt _ _)) by lia.
  - change (252 mod 256) with 252. cbn [Z.ltb Z.eqb Z.compare Pos.compare Pos.compare_cont Pos.eqb].
    rewrite (proj2 (Nat.ltb_ge _ _)) by (cbn [length]; rewrite length_app, length_le_bytes; lia).
    change (z2b 252 :: le_bytes 2 (wrap 16 v) ++ t) with ([z2b 252] ++ le_bytes 2 (wrap 16 v) ++ t).
    rewrite slice_app by done. unfold wrap. change (2 ^ 16) with 65536.
    rewrite Z.mod_small, le_value_bytes by (cbn; lia). done.
  - change (253 mod 256) with 253. cbn [Z.ltb Z.eqb Z.compare Pos.compare Pos.compare_cont Pos.eqb].
    rewrite (proj2 (Nat.ltb_ge _ _)) by (cbn [length]; lia).
    unfold at_byte. cbn [nth]. rewrite three_bytes, split_three by
      (try apply b2z_range; change (2 ^ 24) with 16777216; lia). done.
  - change (254 mod 256) with 254. cbn [Z.ltb Z.eqb Z.compare Pos.compare Pos.compare_cont Pos.eqb].
    rewrite (proj2 (Nat.ltb_ge _ _)) by (cbn [length]; rewrite length_app, length_le_bytes; lia).
    change (z2b 254 :: le_bytes 8 v ++ t) with ([z2b 254] ++ le_bytes 8 v ++ t).
    rewrite slice_app by done. by rewrite le_value_bytes by done.
Qed.

(** * Status flags *)

Lemma hasMoreResultsOK_build a l status w :
  0 <= a < 2 ^ 64 → 0 <= l < 2 ^ 64 → 0 <= status < 2 ^ 16 →
  hasMoreResultsOK (buildOKPacket a l status w) = has_flag status statusMoreResults.
Proof.
  intros Ha Hl Hs. unfold buildOKPacket. set (A := writeLenEncInt a). set (L := writeLenEncInt l).
  set (F := le_bytes 2 status). set (W := le_bytes 2 w).
  assert (HF : length F = 2%nat) by apply length_le_bytes.
  assert (HW : length W = 2%nat) by apply length_le_bytes.
  assert (EA : ∀ t, readLenEncInt (A ++ t) = inl (a, length A)) by (intros; by apply read_write_lenenc).
  assert (EL : ∀ t, readLenEncInt (L ++ t) = inl (l, length L)) by (intros; by apply read_write_lenenc).
  unfold hasMoreResultsOK.
  rewrite (proj2 (Nat.ltb_ge _ _)) by (cbn [length]; rewrite !length_app; lia).
  cbn [skipn]. rewrite drop_0, EA.
  replace (drop (1 + length A) (z2b iOK :: A ++ L ++ F ++ W)) with (L ++ F ++ W)
    by (change (1 + length A)%nat with (S (length A)); cbn [skipn]; by rewrite drop_app_length).
  rewrite EL.
  rewrite (proj2 (Nat.ltb_ge _ _)) by (cbn [length]; rewrite !length_app; lia).
  replace (z2b iOK :: A ++ L ++ F ++ W) with ((z2b iOK :: A ++ L) ++ F ++ W)
    by (cbn [app]; by rewrite <- !app_assoc).
  rewrite slice_app by (cbn [length]; rewrite ?length_app; lia).
  unfold F. by rewrite le_value_bytes.
Qed.

(** * Comments *)

(** One round of the loop of [stripLeadingSQLComments], when it goes on. *)
Definition strip_round (s : bytes) : option bytes :=
  if HasPrefix s §"/*" then
    match Index s §"*/" with
    | None => None
    | Some e => Some (TrimSpace (drop (e + 2) s))
    end
  else if HasPrefix s §"--" || HasPrefix s §"#" then
    match IndexByte s "010"%byte with
    | None => None
    | Some nl => Some (TrimSpace (drop (nl + 1) s))
    end
  else None.

Lemma strip_comments_S f s :
  strip_comments (S f) s = match strip_round s with Some s' => strip_comments f s' | None => s end.
Proof. cbn [strip_comments]. unfold strip_round. by repeat case_match. Qed.

Lemma strip_round_shorter s s' : strip_round s = Some s' → (length s' < length s)%nat.
Proof.
  unfold strip_round. intros H. repeat case_match; simplify_eq.
  - match goal with Hi : Index _ _ = Some _ |- _ => apply Index_Some in Hi as (t & _ & Hl) end.
    cbn in Hl. eapply Nat.le_lt_trans; [apply TrimSpace_length|]. rewrite length_drop. lia.
  - match goal with Hi : IndexByte _ _ = Some _ |- _ => apply IndexByte_Some in Hi as (_ & Hl & _) end.
    eapply Nat.le_lt_trans; [apply TrimSpace_length|]. rewrite length_drop. lia.
Qed.

Lemma strip_comments_done fuel s :
  (length s <= fuel)%nat → strip_round (strip_comments fuel s) = None.
Proof.
  revert s. induction fuel as [|f IH]; intros s Hl; [destruct s; [done|cbn in Hl; lia]|].
  rewrite strip_comments_S. destruct (strip_round s) as [s'|] eqn:E; [|done].
  apply IH. apply strip_round_shorter in E. lia.
Qed.

(** * Properties *)

#[local] Existing Instance ascii_tables.

(** Packets survive relaying: a packet that [readPacket] took off a
    connection is, byte for byte, the header [writePacket] puts before it
    followed by its payload; its length fits the 24-bit field. *)
Theorem relayed_packets_are_unchanged r p s r' :
  readPacket r = (Ok (p, s), r') →
  rd_buf r = packet_header p s ++ p ++ rd_buf r' ∧ zlen p <= maxPacketSize ∧ 0 <= s < 256.
Proof. intros H. by apply readPacket_exact in H as (? & _ & ? & ?). Qed.

Lemma relayed_packets_are_unchanged_witness :
  let r := Reader (map z2b [3; 0; 0; 7; 3; 65; 66; 9]) io_EOF in
  readPacket r = (Ok (map z2b [3; 65; 66], 7), Reader (map z2b [9]) io_EOF)
  ∧ rd_buf r = packet_header (map z2b [3; 65; 66]) 7 ++ map z2b [3; 65; 66] ++ map z2b [9].
Proof.
  intros r. assert (H : readPacket r = (Ok (map z2b [3; 65; 66], 7), Reader (map z2b [9]) io_EOF))
    by (vm_compute; reflexivity).
  split; [exact H|]. exact (proj1 (relayed_packets_are_unchanged _ _ _ _ H)).
Defined.

(** A packet written by [writePacket] is read back by [readPacket], for
    every payload below 2^24 bytes (the limit of the header's length field). *)
Theorem readPacket_writePacket payload seq t e :
  zlen payload <= maxPacketSize → 0 <= seq < 256 →
  readPacket (Reader (packet_header payload seq ++ payload ++ t) e) = (Ok (payload, seq), Reader t e).
Proof. apply readPacket_app. Qed.

Lemma readPacket_writePacket_witness :
  readPacket (Reader (packet_header §"abc" 5 ++ §"abc" ++ §"rest") io_EOF)
  = (Ok (§"abc", 5), Reader §"rest" io_EOF).
Proof. apply readPacket_writePacket; by vm_compute. Defined.

(** Length-encoded integers round-trip over the whole uint64 range, at
    every width boundary, whatever follows them. *)
Theorem readLenEncInt_writeLenEncInt v t :
  0 <= v < 2 ^ 64 → readLenEncInt (writeLenEncInt v ++ t) = inl (v, length (writeLenEncInt v)).
Proof. apply read_write_lenenc. Qed.

Lemma readLenEncInt_writeLenEncInt_witness :
  readLenEncInt (writeLenEncInt 65536 ++ [z2b 1]) = inl (65536, 4%nat).
Proof. apply (readLenEncInt_writeLenEncInt 65536 [z2b 1]). by vm_compute. Defined.

(** The handshake the proxy sends its clients is well formed for the
    proxy's own parser: [parseHandshakeV10] recovers the twenty bytes of salt,
    the connection id, the plugin and capability flags, with SSL advertised
    exactly when it is supported. *)
Theorem parse_buildServerHandshake connID salt ssl :
  length connID = 4%nat → length salt = 20%nat →
  parseHandshakeV10 (buildServerHandshake connID salt ssl) = inl {|
    hs_ProtocolVersion := 10;
    hs_ServerVersion := §"5.7.99-accessd-mysql-proxy";
    hs_ConnectionID := le_value connID;
    hs_AuthData := salt;
    hs_Capabilities := if ssl then Z.lor (Z.lor base_caps capConnectWithDB) capSSL
                       else Z.lor base_caps capConnectWithDB;
    hs_CharacterSet := 45;
    hs_StatusFlags := 2;
    hs_AuthPlugin := authNativePassword |}.
Proof.
  intros Hc Hs. do 5 (destruct connID as [|? connID]; try discriminate Hc).
  do 21 (destruct salt as [|? salt]; try discriminate Hs).
  destruct ssl; vm_compute; reflexivity.
Qed.

Lemma parse_buildServerHandshake_witness :
  ∃ h, parseHandshakeV10 (buildServerHandshake (zeros 4) (zeros 20) true) = inl h
    ∧ hs_AuthData h = zeros 20.
Proof. eexists. split; [apply parse_buildServerHandshake; reflexivity|reflexivity]. Defined.

(** The proxy's reading of "more results" agrees with the packet it
    builds: for every OK packet, whatever the widths of its two
    length-encoded fields, [hasMoreResultsOK] is the flag of its status. *)
Theorem hasMoreResultsOK_buildOKPacket a l status w :
  0 <= a < 2 ^ 64 → 0 <= l < 2 ^ 64 → 0 <= status < 2 ^ 16 →
  hasMoreResultsOK (buildOKPacket a l status w) = has_flag status statusMoreResults.
Proof. apply hasMoreResultsOK_build. Qed.

Lemma hasMoreResultsOK_buildOKPacket_witness :
  hasMoreResultsOK (buildOKPacket 70000 5 10 0) = true.
Proof. apply (hasMoreResultsOK_buildOKPacket 70000 5 10 0); by vm_compute. Defined.

(** [stripLeadingSQLComments] runs to the end: what it returns does not
    start with a comment that ends, so the classification that follows never
    sees a leading comment it could have dropped. *)
Theorem stripLeadingSQLComments_done query : strip_round (stripLeadingSQLComments query) = None.
Proof. by apply strip_comments_done. Qed.

(** Authentication responses have the size of their hash and fit the
    one-byte length the handshake response gives them, for every password and
    salt; an empty password sends none. *)
Theorem computeAuthResponse_length plugin password salt :
  length (computeAuthResponse plugin password salt)
  = if bool_decide (password = []) then 0%nat
    else if bool_decide (plugin = authCachingSha2) then 32%nat else 20%nat.
Proof.
  unfold computeAuthResponse, cachingSha2Auth, nativePasswordAuth, xor_bytes.
  repeat case_bool_decide; try done; rewrite length_zip_with, ?length_sha256, ?length_sha1; done.
Qed.
