(* ===== verification/Mysql.v ===== *)
(** The MySQL proxy (apps/api/internal/mysqlproxy/server.go): the relay of
    responses, the command loop with its query log, and the authentication to
    the upstream.

    Loops over packets are bounded by the unread bytes of the side they read,
    since a packet takes at least its four header bytes; the specifications
    below prove that the bound never stops one. *)
From S2P Require Import Prelude GoStrings GoBinary GoIO ProxyEvents MysqlWire.

Record SessionRegistration := {
  m_SessionID : bytes;
  m_UserID : bytes;
  m_AssetID : bytes;
  m_AssetName : bytes;
  m_Engine : bytes;
  m_Database : bytes;
  m_SSLMode : bytes;
  m_UpstreamHost : bytes;
  m_UpstreamPort : Z;
  m_Username : bytes;
  m_RequestID : bytes;
}.

(** [preparedStmtCache]: statement text by server-assigned id. *)
Abbreviation cache := (gmap Z bytes).

(** What the environment answers: the service's configuration, and the outcome
    of its calls out of the process. *)
Record environment := {
  env_remote_addr : bytes;
  env_QueryMaxBytes : Z;
  env_IdleTimeout : Z;
  env_dial : option error;
  env_credential : bytes → credential + error;
  (** The TLS handshake with the upstream, given the server name and whether
      the certificate is verified: the decrypted stream. *)
  env_tls : bytes → bool → reader + error;
  (** The proxy's own certificate, and the TLS handshake with the client. *)
  env_tls_config : bool;
  env_client_tls : reader + error;
  env_random : bytes * bytes + error;   (* connection id and salt *)
  env_clock : nat → Z;
}.

(** [RegisterSession] up to the listener. *)
Definition normalizeRegistration (reg : SessionRegistration) : SessionRegistration + error :=
  let reg := {|
    m_SessionID := TrimSpace (m_SessionID reg);
    m_UserID := TrimSpace (m_UserID reg);
    m_AssetID := TrimSpace (m_AssetID reg);
    m_AssetName := TrimSpace (m_AssetName reg);
    m_Engine := TrimSpace (m_Engine reg);
    m_Database := TrimSpace (m_Database reg);
    m_SSLMode := TrimSpace (m_SSLMode reg);
    m_UpstreamHost := TrimSpace (m_UpstreamHost reg);
    m_UpstreamPort := m_UpstreamPort reg;
    m_Username := TrimSpace (m_Username reg);
    m_RequestID := TrimSpace (m_RequestID reg) |} in
  if bool_decide (m_SessionID reg = []) || bool_decide (m_UserID reg = [])
     || bool_decide (m_AssetID reg = [])
  then inr (Errorf §"session_id, user_id, and asset_id are required")
  else if bool_decide (m_UpstreamHost reg = []) || (m_UpstreamPort reg <=? 0)
          || (65535 <? m_UpstreamPort reg)
  then inr (Errorf §"upstream host and port are required")
  else if bool_decide (m_Username reg = [])
  then inr (Errorf §"upstream username is required")
  else inl {|
    m_SessionID := m_SessionID reg;
    m_UserID := m_UserID reg;
    m_AssetID := m_AssetID reg;
    m_AssetName := m_AssetName reg;
    m_Engine := if bool_decide (m_Engine reg = []) then §"mysql" else m_Engine reg;
    m_Database := m_Database reg;
    m_SSLMode := m_SSLMode reg;
    m_UpstreamHost := m_UpstreamHost reg;
    m_UpstreamPort := m_UpstreamPort reg;
    m_Username := m_Username reg;
    m_RequestID := m_RequestID reg |}.

Definition launchContext (reg : SessionRegistration) : LaunchContext := {|
  l_SessionID := m_SessionID reg;
  l_UserID := m_UserID reg;
  l_AssetID := m_AssetID reg;
  l_AssetName := m_AssetName reg;
  l_RequestID := m_RequestID reg;
  l_Action := §"dbeaver";
  l_Protocol := ProtocolDB;
  l_AssetType := TypeDatabase;
  l_Host := m_UpstreamHost reg;
  l_Port := m_UpstreamPort reg;
  l_UpstreamUsername := m_Username reg;
  l_Status := [];
  l_ExpiresAt := 0 |}.

(** * Relaying responses *)

Definition to_client (p : bytes) (seq : Z) : M world unit := writePacket ToClient p seq.
Definition to_upstream (p : bytes) (seq : Z) : M world unit := writePacket ToUpstream p seq.
Definition from_client : M world (bytes * Z) := client_read readPacket.
Definition from_upstream : M world (bytes * Z) := upstream_read readPacket.

(** Unread bytes, which bound the loops. *)
Definition upstream_left : M world nat := let! w := get in ret (length (rd_buf (dx_upstream w))).
Definition client_left : M world nat := let! w := get in ret (length (rd_buf (dx_client w))).

Definition relayOnePacket : M world unit :=
  let! (payload, seq) := from_upstream in to_client payload seq.

(** [for i := 0; i < n; i++ { relayOnePacket }]. *)
Fixpoint relay_packets (fuel : nat) (n : Z) : M world unit :=
  match fuel with
  | O => nofuel
  | S f => if n <=? 0 then ret tt else do! relayOnePacket in relay_packets f (n - 1)
  end.
Definition relay_count (n : Z) : M world unit :=
  let! k := upstream_left in relay_packets (S k) n.

Fixpoint relay_rows (fuel : nat) : M world bool :=
  match fuel with
  | O => nofuel
  | S f =>
      let! (payload, seq) := from_upstream in
      do! to_client payload seq in
      if isEOFPacket payload then ret (hasMoreResultsEOF payload)
      else if isERRPacket payload then ret false
      else relay_rows f
  end.
Definition relayRows : M world bool := let! k := upstream_left in relay_rows (S k).

(** File packets of the client, up to the empty one. *)
Fixpoint relay_infile (fuel : nat) : M world unit :=
  match fuel with
  | O => nofuel
  | S f =>
      let! (data, dseq) := wrap_err §"read local infile data" from_client in
      do! wrap_err §"forward local infile data" (to_upstream data dseq) in
      if bool_decide (data = []) then ret tt else relay_infile f
  end.
Definition relayLocalInFile : M world bool :=
  let! k := client_left in
  do! relay_infile (S k) in
  let! (resp, rseq) := from_upstream in
  do! to_client resp rseq in
  ret ((0 <? length resp)%nat && (at_byte resp 0 =? iOK) && hasMoreResultsOK resp).

Definition relaySingleResponse : M world bool :=
  let! (payload, seq) := from_upstream in
  do! to_client payload seq in
  if bool_decide (payload = []) then ret false
  else if at_byte payload 0 =? iOK then ret (hasMoreResultsOK payload)
  else if at_byte payload 0 =? iERR then ret false
  else if at_byte payload 0 =? iLocalInf then relayLocalInFile
  else if (at_byte payload 0 =? iEOF) && (length payload <? 9)%nat then ret false
  else match readLenEncInt payload with
       | inr e => fail (Wrap §"parse column count" e)
       | inl (columnCount, _) =>
           if columnCount =? 0 then ret false
           else do! relay_count columnCount in
                do! relayOnePacket in
                relayRows
       end.

Fixpoint relay_responses (fuel : nat) : M world unit :=
  match fuel with
  | O => nofuel
  | S f => let! more := relaySingleResponse in
           if more then relay_responses f else ret tt
  end.
Definition relayResponse : M world unit := let! k := upstream_left in relay_responses (S k).

(** The statement cache after the response to a PREPARE of [sql]. *)
Definition relayPrepareResponse (c : cache) (sql : bytes) : M world cache :=
  let! (payload, seq) := from_upstream in
  do! to_client payload seq in
  if bool_decide (payload = []) || (at_byte payload 0 =? iERR) then ret c
  else if negb (at_byte payload 0 =? iOK) || (length payload <? 12)%nat
  then fail (Errorf §"unexpected prepare response")
  else
    let stmtID := le_value (slice payload 1 5) in
    let numColumns := le_value (slice payload 5 7) in
    let numParams := le_value (slice payload 7 9) in
    let c := if negb (bool_decide (sql = [])) then <[stmtID := sql]> c else c in
    do! (if 0 <? numParams then do! relay_count numParams in relayOnePacket else ret tt) in
    do! (if 0 <? numColumns then do! relay_count numColumns in relayOnePacket else ret tt) in
    ret c.

Fixpoint relay_fields (fuel : nat) : M world unit :=
  match fuel with
  | O => nofuel
  | S f =>
      let! (payload, seq) := from_upstream in
      do! to_client payload seq in
      if isEOFPacket payload || isERRPacket payload then ret tt else relay_fields f
  end.
Definition relayFieldListResponse : M world unit := let! k := upstream_left in relay_fields (S k).

(** * Commands *)

Section Commands.
Context `{Unicode} (env : environment) (reg : SessionRegistration).

Definition queryLog (at_ : nat) (q ptype : bytes) (prepared : bool) : queryLogEvent := {|
  q_SessionID := m_SessionID reg;
  q_UserID := m_UserID reg;
  q_AssetID := m_AssetID reg;
  q_RequestID := m_RequestID reg;
  q_Engine := m_Engine reg;
  q_Query := truncate q (env_QueryMaxBytes env);
  q_EventTime := env_clock env at_;
  q_ProtocolType := ptype;
  q_Prepared := prepared |}.

Definition enqueueQueryLog (q ptype : bytes) (prepared : bool) : M world unit :=
  let! w := get in enqueue (LogQuery (queryLog (length (dx_trace w)) q ptype prepared)).

Definition startupProbeLimit : Z := 24.

(** The variables of [forwardCommands] that live across commands. *)
Record loop_state := Loop { lp_cache : cache; lp_startup : bool; lp_probes : Z }.

(** The text of a COM_QUERY or COM_STMT_PREPARE packet, trimmed. *)
Definition query_text (payload : bytes) : bytes :=
  TrimSpace (TrimRightByte (drop 1 payload) "000"%byte).

(** Does the text contain the variable the proxy always answers itself? *)
Definition mentions_query_cache (q : bytes) : bool :=
  Contains (ToLower (stripLeadingSQLComments q)) §"query_cache_size".

(** What the loop does with a non-empty query: [inl probe] answers it locally,
    [inr phase] forwards it. *)
Definition local_answer (st : loop_state) (q : bytes) : mysqlStartupProbeType * loop_state + loop_state :=
  if mentions_query_cache q then
    let probe := classifyMySQLStartupProbe q in
    inl (if bool_decide (probe = ProbeNone) then ProbeSelectVar else probe, st)
  else if lp_startup st then
    let probe := classifyMySQLStartupProbe q in
    if negb (bool_decide (probe = ProbeNone)) && (lp_probes st <? startupProbeLimit)
    then inl (probe, Loop (lp_cache st) true (lp_probes st + 1))
    else inr (Loop (lp_cache st) false (lp_probes st))
  else inr st.

Definition forward_and_relay (payload : bytes) (seq : Z) : M world unit :=
  do! to_upstream payload seq in relayResponse.

(** COM_QUERY. *)
Definition handle_query (st : loop_state) (payload : bytes) (seq : Z) : M world loop_state :=
  let q := query_text payload in
  if bool_decide (q = []) then do! forward_and_relay payload seq in ret st
  else match local_answer st q with
       | inl (probe, st') => do! writeMySQLStartupProbeResponse seq probe in ret st'
       | inr st' =>
           do! enqueueQueryLog q §"simple" false in
           do! forward_and_relay payload seq in
           ret st'
       end.

(** The body of the loop for a non-empty packet; [None] is the return after
    COM_QUIT. *)
Definition handle_packet (st : loop_state) (payload : bytes) (seq : Z) : M world (option loop_state) :=
  let cmd := at_byte payload 0 in
  let st' := Loop (lp_cache st) false (lp_probes st) in
  if cmd =? comQuit then
    do! try (to_upstream payload seq) in ret None
  else if cmd =? comQuery then
    let! st1 := handle_query st payload seq in ret (Some st1)
  else if cmd =? comStmtPrepare then
    do! to_upstream payload seq in
    let! c := relayPrepareResponse (lp_cache st) (query_text payload) in
    ret (Some (Loop c false (lp_probes st)))
  else if cmd =? comStmtExecute then
    do! (if (5 <=? length payload)%nat then
           match lp_cache st !! le_value (slice payload 1 5) with
           | Some q => enqueueQueryLog q §"prepared" true
           | None => ret tt
           end
         else ret tt) in
    do! forward_and_relay payload seq in
    ret (Some st')
  else if cmd =? comStmtClose then
    do! to_upstream payload seq in
    ret (Some (Loop (if (5 <=? length payload)%nat
                     then delete (le_value (slice payload 1 5)) (lp_cache st) else lp_cache st)
                    false (lp_probes st)))
  else if cmd =? comStmtSendLongData then
    do! to_upstream payload seq in ret (Some st')
  else if cmd =? comFieldList then
    do! to_upstream payload seq in
    do! relayFieldListResponse in
    ret (Some st')
  else
    do! forward_and_relay payload seq in ret (Some st').

Fixpoint command_loop (fuel : nat) (st : loop_state) : M world unit :=
  match fuel with
  | O => nofuel
  | S f =>
      let! (payload, seq) := from_client in
      if bool_decide (payload = []) then do! to_upstream payload seq in command_loop f st
      else let! next := handle_packet st payload seq in
           match next with
           | None => ret tt
           | Some st' => command_loop f st'
           end
  end.

Definition forwardCommands : M world unit :=
  let! k := client_left in command_loop (S k) (Loop ∅ true 0).
End Commands.

(** * Authentication *)

(** The dynamic type of a [net.Conn] as the proxy builds it: a TCP socket, a
    TLS client or server on a connection, or either behind [connutil]'s
    idle-timeout wrapper. *)
Inductive conn := TCPConn | TLSConn (c : conn) | IdleTimeoutConn (c : conn).

(** [connutil.WrapIdleTimeout] (never on a nil connection here). *)
Definition WrapIdleTimeout (c : conn) (idleTimeout : Z) : conn :=
  if idleTimeout <=? 0 then c else IdleTimeoutConn c.

(** The type assertion [conn.( *tls.Conn)]. *)
Definition is_tls_conn (c : conn) : bool := match c with TLSConn _ => true | _ => false end.

Section Auth.
Context `{Unicode} (env : environment) (reg : SessionRegistration).

(** [handleAuthResult]: [seq] is the next sequence number to send. *)
Fixpoint auth_loop (fuel : nat) (c : conn) (seq : Z) (authPlugin password authData : bytes)
    : M world Z :=
  match fuel with
  | O => nofuel
  | S f =>
      let! (payload, respSeq) := wrap_err §"read auth response" from_upstream in
      let seq := next_seq respSeq in
      if bool_decide (payload = []) then fail (Errorf §"empty auth response")
      else if at_byte payload 0 =? iOK then ret seq
      else if at_byte payload 0 =? iERR then
        fail (Errorf (§"upstream auth failed: " ++ parseErrPacket payload))
      else if at_byte payload 0 =? iEOF then
        let '(newPlugin, newData) := parseAuthSwitch payload in
        let authResp := computeAuthResponse newPlugin password newData in
        do! wrap_err §"send auth switch response" (to_upstream authResp seq) in
        auth_loop f c (next_seq seq) newPlugin password newData
      else if at_byte payload 0 =? 1 then
        if bool_decide (authPlugin = authCachingSha2) && (2 <=? length payload)%nat
           && (at_byte payload 1 =? 3)
        then auth_loop f c seq authPlugin password authData
        else if bool_decide (authPlugin = authCachingSha2) && (2 <=? length payload)%nat
           && (at_byte payload 1 =? 4)
        then if negb (is_tls_conn c)
             then fail (Errorf §"caching_sha2_password full auth requires TLS to upstream; set ssl_mode=require on the asset")
             else do! wrap_err §"send cleartext password" (to_upstream (password ++ [z2b 0]) seq) in
                  auth_loop f c (next_seq seq) authPlugin password authData
        else fail (Errorf §"unexpected auth extra data")
      else fail (Errorf §"unexpected auth response")
  end.
Definition handleAuthResult (c : conn) (seq : Z) (authPlugin password authData : bytes) : M world Z :=
  let! k := upstream_left in auth_loop (S k) c seq authPlugin password authData.

(** From here on the upstream's stream is the decrypted one. *)
Definition switch_upstream (r : reader) : M world unit :=
  modify (λ w, Duplex (dx_client w) r (dx_faults w) (dx_trace w)).
Definition switch_client (r : reader) : M world unit :=
  modify (λ w, Duplex r (dx_upstream w) (dx_faults w) (dx_trace w)).

(** The optional TLS upgrade: the connection, the next sequence number and
    whether TLS is on. *)
Definition upgrade_upstream (c : conn) (hs : handshakeV10) : M world (conn * Z * bool) :=
  let sslCfg := classifySSLMode (m_SSLMode reg) in
  if AttemptTLS sslCfg && has_flag (hs_Capabilities hs) capSSL then
    do! wrap_err §"send ssl request" (to_upstream buildSSLRequest 1) in
    match env_tls env (m_UpstreamHost reg) (VerifyCert sslCfg) with
    | inr e => fail (Wrap §"upstream tls handshake" e)
    | inl r => do! switch_upstream r in
               ret (WrapIdleTimeout (TLSConn c) (env_IdleTimeout env), 2, true)
    end
  else if RequireTLS sslCfg then fail (Errorf §"upstream does not support ssl")
  else ret (c, 1, false).

Definition connectAndAuthUpstream : M world unit :=
  match env_dial env with
  | Some e => fail (Wrap §"dial" e)
  | None =>
      let raw := WrapIdleTimeout TCPConn (env_IdleTimeout env) in
      let! (payload, _) := wrap_err §"read handshake" from_upstream in
      match parseHandshakeV10 payload with
      | inr e => fail (Wrap §"parse handshake" e)
      | inl hs =>
          match env_credential env (m_AssetID reg) with
          | inr e => fail (Wrap §"resolve credential" e)
          | inl cred =>
              let! (c, seq, useSSL) := upgrade_upstream raw hs in
              let authPlugin := if bool_decide (hs_AuthPlugin hs = []) then authNativePassword
                                else hs_AuthPlugin hs in
              let authResp := computeAuthResponse authPlugin (cr_Secret cred) (hs_AuthData hs) in
              let hsResp := buildHandshakeResponse (hs_Capabilities hs) (m_Username reg)
                              (m_Database reg) authPlugin authResp useSSL in
              do! wrap_err §"send auth" (to_upstream hsResp seq) in
              do! handleAuthResult c (next_seq seq) authPlugin (cr_Secret cred) (hs_AuthData hs) in
              ret tt
          end
      end
  end.

(** [negotiateClient]: the synthetic handshake; the client's password is not
    looked at. *)
Definition negotiateClient : M world unit :=
  match env_random env with
  | inr e => fail (Wrap §"generate salt" e)
  | inl (connID, salt) =>
      do! wrap_err §"send handshake"
            (to_client (buildServerHandshake connID salt (env_tls_config env)) 0) in
      let! (payload, seq) := wrap_err §"read client auth" from_client in
      if (length payload <? 4)%nat then fail (Errorf §"client auth too short") else
      let capFlags := le_value (slice payload 0 4) in
      let! seq :=
        (if has_flag capFlags capSSL && (length payload =? 32)%nat then
           if negb (env_tls_config env)
           then fail (Errorf §"client requested SSL but proxy has no TLS config")
           else match env_client_tls env with
                | inr e => fail (Wrap §"client tls handshake" e)
                | inl r => do! switch_client r in
                           let! (_, seq) := wrap_err §"read client auth after tls" from_client in
                           ret seq
                end
         else ret seq) in
      wrap_err §"send ok" (to_client (buildOKPacket 0 0 2 0) (next_seq seq))
  end.

Definition runProxyFlow : M world unit :=
  do! wrap_err §"upstream" connectAndAuthUpstream in
  do! wrap_err §"client negotiate" negotiateClient in
  do! enqueue (RecordCredentialUsage (launchContext reg) §"db_password" §"proxy_upstream_auth"
                 (m_RequestID reg)) in
  forwardCommands env reg.

Definition handleSessionConn : M world unit :=
  do! enqueue (MarkProxyConnected (launchContext reg) (env_remote_addr env)) in
  let! r := try runProxyFlow in
  match r with
  | inr e => do! enqueue (MarkFailed (launchContext reg) §"db_proxy_failed") in fail e
  | inl _ => enqueue (MarkEnded (launchContext reg) §"db_client_disconnected")
  end.
End Auth.
