(* ===== verification/MysqlSpec.v ===== *)
(** The MySQL proxy's specification: what one pass of the command loop may do,
    the protocol of a whole session and the proof that [forwardCommands] follows
    it, the ends of a connection, and what authentication may write. *)
From S2P Require Import Prelude GoStrings GoBinary GoIO ProxyEvents ProxyRuns MysqlWire Mysql.

(** * Bounds of the packet loops *)

Lemma shrinks_packet (side : bytes → event) p s : keeps shrinks (writePacket side p s).
Proof.
  apply keeps_bind; [apply _|apply shrinks_write|]. intros _.
  destruct (_ <? _); [apply shrinks_write|apply keeps_ret, _].
Qed.
Lemma ends_packet (side : bytes → event) p s : ends (writePacket side p s).
Proof. apply ends_bind; [apply ends_write|]. intros _. by destruct (_ <? _); [apply ends_write|]. Qed.

Lemma readPacket_keeps : keeps consumed readPacket.
Proof.
  apply keeps_bind; [apply _|apply ReadFull_keeps|]. intros h.
  cbv zeta. case_match; [apply keeps_ret, _|].
  apply keeps_bind; [apply _|apply ReadFull_keeps|]. intros p. apply keeps_ret, _.
Qed.

Lemma from_upstream_shrinks : keeps shrinks from_upstream.
Proof. apply shrinks_upstream_read, readPacket_keeps. Qed.
Lemma from_client_shrinks : keeps shrinks from_client.
Proof. apply shrinks_client_read, readPacket_keeps. Qed.
Lemma from_upstream_ends : ends from_upstream.
Proof. apply ends_read, readPacket_ends. Qed.
Lemma from_client_ends : ends from_client.
Proof. apply ends_client_read, readPacket_ends. Qed.
Lemma readPacket_takes : takes readPacket.
Proof. intros r [p s] r' H. apply readPacket_progress in H. lia. Qed.
Lemma from_upstream_progresses : progresses unread_upstream from_upstream.
Proof. apply upstream_read_progresses, readPacket_takes. Qed.
Lemma from_client_progresses : progresses unread_client from_client.
Proof. apply client_read_progresses, readPacket_takes. Qed.

(** * Relays *)

Lemma relays_packet (side : bytes → event) p s :
  (∀ p, no_log (side p) = true) → keeps relays (writePacket side p s).
Proof.
  intros Hs. apply keeps_bind; [apply _|by apply relays_write|]. intros _.
  destruct (_ <? _); [by apply relays_write|apply keeps_ret, _].
Qed.
Lemma relays_to_client p s : keeps relays (to_client p s).
Proof. by apply relays_packet. Qed.
Lemma relays_to_upstream p s : keeps relays (to_upstream p s).
Proof. by apply relays_packet. Qed.
Lemma relays_from_upstream : keeps relays from_upstream.
Proof. intros w. split; [apply from_upstream_shrinks|apply adds_upstream_read]. Qed.
Lemma relays_from_client : keeps relays from_client.
Proof. intros w. split; [apply from_client_shrinks|apply adds_client_read]. Qed.

#[local] Hint Resolve relays_to_client relays_to_upstream relays_from_upstream
  relays_from_client : keeps.

Lemma relays_one : keeps relays relayOnePacket.
Proof. unfold relayOnePacket. through. Qed.
#[local] Hint Resolve relays_one : keeps.
Lemma relays_packets f n : keeps relays (relay_packets f n).
Proof. revert n. induction f as [|f IH]; intros n; cbn [relay_packets]; through. Qed.
#[local] Hint Resolve relays_packets : keeps.
Lemma relays_left : keeps relays upstream_left ∧ keeps relays client_left.
Proof. unfold upstream_left, client_left. split; through. Qed.
Lemma relays_count n : keeps relays (relay_count n).
Proof. apply keeps_bind; [apply _|apply relays_left|]. intros k. apply relays_packets. Qed.
#[local] Hint Resolve relays_count : keeps.
Lemma relays_rows f : keeps relays (relay_rows f).
Proof. induction f as [|f IH]; cbn [relay_rows]; through. Qed.
#[local] Hint Resolve relays_rows : keeps.
Lemma relays_relayRows : keeps relays relayRows.
Proof. apply keeps_bind; [apply _|apply relays_left|]. intros k. apply relays_rows. Qed.
#[local] Hint Resolve relays_relayRows : keeps.
Lemma relays_infile f : keeps relays (relay_infile f).
Proof. induction f as [|f IH]; cbn [relay_infile]; through. Qed.
#[local] Hint Resolve relays_infile : keeps.
Lemma relays_relayLocalInFile : keeps relays relayLocalInFile.
Proof. apply keeps_bind; [apply _|apply relays_left|]. intros k. through. Qed.
#[local] Hint Resolve relays_relayLocalInFile : keeps.
Lemma relays_single : keeps relays relaySingleResponse.
Proof. unfold relaySingleResponse. through. Qed.
#[local] Hint Resolve relays_single : keeps.
Lemma relays_responses f : keeps relays (relay_responses f).
Proof. induction f as [|f IH]; cbn [relay_responses]; through. Qed.
#[local] Hint Resolve relays_responses : keeps.
Lemma relays_relayResponse : keeps relays relayResponse.
Proof. apply keeps_bind; [apply _|apply relays_left|]. intros k. apply relays_responses. Qed.
Lemma relays_prepare c sql : keeps relays (relayPrepareResponse c sql).
Proof. unfold relayPrepareResponse. through. Qed.
Lemma relays_fields f : keeps relays (relay_fields f).
Proof. induction f as [|f IH]; cbn [relay_fields]; through. Qed.
#[local] Hint Resolve relays_fields : keeps.
Lemma relays_relayFieldListResponse : keeps relays relayFieldListResponse.
Proof. apply keeps_bind; [apply _|apply relays_left|]. intros k. apply relays_fields. Qed.
#[local] Hint Resolve relays_relayResponse relays_prepare relays_relayFieldListResponse : keeps.

Lemma relays_shrink_up {A} (m : M world A) : keeps relays m → keeps (nonincreasing unread_upstream) m.
Proof. intros H. apply shrinks_upstream. intros w. apply H. Qed.
Lemma relays_shrink_client {A} (m : M world A) : keeps relays m → keeps (nonincreasing unread_client) m.
Proof. intros H. apply shrinks_client. intros w. apply H. Qed.

(** * Every relay ends *)

Lemma ends_one : ends relayOnePacket.
Proof. apply ends_bind; [apply from_upstream_ends|]. intros [p s]. apply ends_packet. Qed.
Lemma one_progresses : progresses unread_upstream relayOnePacket.
Proof.
  apply progresses_bind; [apply from_upstream_progresses|]. intros [p s]. apply relays_shrink_up. through.
Qed.
Lemma ends_count n : ends (relay_count n).
Proof.
  apply (ends_with_fuel unread_upstream (λ f, relay_packets f n)).
  intros f. revert n. induction f as [|f IH]; intros n L Hl; [lia|]. cbn [relay_packets].
  case_match; [by apply bounded_ends|]. apply bounded_step; [apply ends_one|apply one_progresses|].
  intros _ L' ?. apply IH. lia.
Qed.
Lemma ends_relayRows : ends relayRows.
Proof.
  apply (ends_with_fuel unread_upstream relay_rows).
  intros f. induction f as [|f IH]; intros L Hl; [lia|]. cbn [relay_rows].
  apply bounded_step; [apply from_upstream_ends|apply from_upstream_progresses|].
  intros [p s] L' ?. apply bounded_bind; [apply bounded_ends, ends_packet|apply relays_shrink_up; through|].
  intros _. repeat case_match; try by apply bounded_ends. apply IH. lia.
Qed.
Lemma ends_infile : ends (let! k := client_left in relay_infile (S k)).
Proof.
  apply (ends_with_fuel unread_client relay_infile).
  intros f. induction f as [|f IH]; intros L Hl; [lia|]. cbn [relay_infile].
  apply bounded_step; [apply ends_wrap, from_client_ends|apply progresses_wrap, from_client_progresses|].
  intros [p s] L' ?. apply bounded_bind;
    [apply bounded_ends, ends_wrap, ends_packet|apply relays_shrink_client; through|].
  intros _. case_match; [by apply bounded_ends|]. apply IH. lia.
Qed.
Lemma ends_relayLocalInFile : ends relayLocalInFile.
Proof.
  intros w. pose proof (ends_infile w) as He. unfold relayLocalInFile. unfold bind at 1 in He.
  unfold bind at 1. destruct (client_left w) as [[k| | |] w1]; try done. unfold bind at 1.
  destruct (relay_infile (S k) w1) as [[u| | |] w2]; try done.
  clear He. revert w2. apply ends_bind; [apply from_upstream_ends|]. intros [p s].
  apply ends_bind; [apply ends_packet|]. by intros _.
Qed.
Lemma ends_single : ends relaySingleResponse.
Proof.
  apply ends_bind; [apply from_upstream_ends|]. intros [p s].
  apply ends_bind; [apply ends_packet|]. intros _. repeat case_match; try done.
  - apply ends_relayLocalInFile.
  - apply ends_bind; [apply ends_count|]. intros _.
    apply ends_bind; [apply ends_one|]. intros _. apply ends_relayRows.
Qed.
Lemma single_progresses : progresses unread_upstream relaySingleResponse.
Proof.
  apply progresses_bind; [apply from_upstream_progresses|]. intros [p s]. apply relays_shrink_up. through.
Qed.
Lemma ends_relayResponse : ends relayResponse.
Proof.
  apply (ends_with_fuel unread_upstream relay_responses).
  intros f. induction f as [|f IH]; intros L Hl; [lia|]. cbn [relay_responses].
  apply bounded_step; [apply ends_single|apply single_progresses|].
  intros more L' ?. case_match; [apply IH; lia|by apply bounded_ends].
Qed.
Lemma ends_defs n : ends (if 0 <? n then do! relay_count n in relayOnePacket else ret tt).
Proof. case_match; [|done]. apply ends_bind; [apply ends_count|intros _; apply ends_one]. Qed.
Lemma ends_prepare c sql : ends (relayPrepareResponse c sql).
Proof.
  apply ends_bind; [apply from_upstream_ends|]. intros [p s].
  apply ends_bind; [apply ends_packet|]. intros _. repeat (case_match; try done); cbv zeta.
  all: apply ends_bind; [apply ends_defs|intros _]; apply ends_bind; [apply ends_defs|by intros _].
Qed.
Lemma ends_relayFieldListResponse : ends relayFieldListResponse.
Proof.
  apply (ends_with_fuel unread_upstream relay_fields).
  intros f. induction f as [|f IH]; intros L Hl; [lia|]. cbn [relay_fields].
  apply bounded_step; [apply from_upstream_ends|apply from_upstream_progresses|].
  intros [p s] L' ?. apply bounded_bind; [apply bounded_ends, ends_packet|apply relays_shrink_up; through|].
  intros _. case_match; [by apply bounded_ends|]. apply IH. lia.
Qed.

(** * The session protocol

    A run of the command loop as a list of steps, one per client packet, each
    with the events it added to the trace. *)

Section Protocol.
Context `{Unicode} (env : environment) (reg : SessionRegistration).

(** How the statement cache may change on a packet: a PREPARE may bind one id
    to its own text, a CLOSE may drop one id. *)
Definition cache_step (c : cache) (payload : bytes) (c' : cache) : Prop :=
  c' = c
  ∨ (at_byte payload 0 = comStmtPrepare ∧ ∃ id, c' = <[id := query_text payload]> c)
  ∨ (at_byte payload 0 = comStmtClose ∧ ∃ id, c' = delete id c).

(** The start-up phase never comes back, and at most [startupProbeLimit]
    probes are answered in it. *)
Definition phase_step (st st' : loop_state) : Prop :=
  (lp_startup st' = true → lp_startup st = true)
  ∧ lp_probes st <= lp_probes st' <= Z.max (lp_probes st) startupProbeLimit.

(** A COM_QUERY with some text. *)
Definition is_query (payload : bytes) : bool :=
  negb (bool_decide (payload = [])) && (at_byte payload 0 =? comQuery)
  && negb (bool_decide (query_text payload = [])).

(** The statement a COM_STMT_EXECUTE names, when the cache has it. *)
Definition executed_text (c : cache) (payload : bytes) : option bytes :=
  if (5 <=? length payload)%nat then c !! le_value (slice payload 1 5) else None.

Definition logged_first (l : queryLogEvent) (t : list event) : Prop :=
  ∃ t', t = Enqueue (LogQuery l) :: t' ∧ forallb no_log t' = true.

(** The events of a step that starts at position [n] of the trace. *)
Definition step_events (n : nat) (st : loop_state) (payload : bytes) (t : list event) : Prop :=
  let q := query_text payload in
  if bool_decide (payload = []) then forallb no_log t = true
  else if is_query payload then
    match local_answer st q with
    | inl _ => forallb only_client t = true
    | inr _ => logged_first (queryLog env reg n q §"simple" false) t
    end
  else if at_byte payload 0 =? comStmtExecute then
    match executed_text (lp_cache st) payload with
    | Some q => logged_first (queryLog env reg n q §"prepared" true) t
    | None => forallb no_log t = true
    end
  else forallb no_log t = true.

(** The phase a step leaves: a non-blank query moves it as [local_answer]
    says, a blank one leaves it, and any other command leaves start-up. *)
Definition next_phase (st : loop_state) (payload : bytes) (st' : loop_state) : Prop :=
  phase_step st st'
  ∧ (is_query payload = true →
       match local_answer st (query_text payload) with
       | inl (_, st1) | inr st1 => st' = st1
       end).

(** A session whose client stream is [r] and whose trace has [n] events: the
    packets are read off the stream one after the other (a LOCAL INFILE upload
    may take more of it in between), and each step adds its events.  The last
    step may have stopped part-way. *)
Inductive session : reader → nat → loop_state → list (bytes * list event) → Prop :=
| se_done r n st : session r n st []
| se_last r n st p s r1 t : readPacket r = (Ok (p, s), r1) → step_events n st p t →
    session r n st [(p, t)]
| se_step r n st p s r1 t r2 st' rest : readPacket r = (Ok (p, s), r1) → step_events n st p t →
    cache_step (lp_cache st) p (lp_cache st') → next_phase st p st' → consumed r1 r2 →
    session r2 (n + length t) st' rest → session r n st ((p, t) :: rest).

(** * The loop follows the protocol *)

Lemma phase_refl st : phase_step st st.
Proof. split; [done|]. lia. Qed.
Lemma phase_leave c st : phase_step st (Loop c false (lp_probes st)).
Proof. split; [done|]. cbn. lia. Qed.

Lemma local_answer_phase st q :
  match local_answer st q with
  | inl (_, st') => phase_step st st' ∧ lp_cache st' = lp_cache st
  | inr st' => phase_step st st' ∧ lp_cache st' = lp_cache st
  end.
Proof.
  unfold local_answer. destruct (mentions_query_cache q); [split; [apply phase_refl|done]|].
  destruct (lp_startup st) eqn:E; [|split; [apply phase_refl|done]].
  destruct (negb _ && _) eqn:Eb; [|split; [apply phase_leave|done]].
  gobool. split; [|done]. split; [done|]. cbn. unfold startupProbeLimit in *. lia.
Qed.

Lemma client_write_only side p s :
  (∀ b, only_client (side b) = true) → keeps (adds only_client) (writePacket (E:=call) side p s).
Proof.
  intros Hs. apply keeps_bind; [apply _|by apply adds_write|]. intros _.
  destruct (_ <? _); [by apply adds_write|apply keeps_ret, _].
Qed.
Lemma numbered_only ps s : keeps (adds only_client) (write_numbered (E:=call) ToClient ps s).
Proof.
  revert s. induction ps as [|p ps IH]; intros s; cbn [write_numbered]; [apply keeps_ret, _|].
  apply keeps_bind; [apply _|by apply client_write_only|]. intros _. apply IH.
Qed.
Lemma probe_only s probe : keeps (adds only_client) (writeMySQLStartupProbeResponse (E:=call) s probe).
Proof.
  destruct probe; cbn [writeMySQLStartupProbeResponse];
    first [by apply client_write_only|apply numbered_only].
Qed.
Lemma numbered_shrinks ps s : keeps shrinks (write_numbered (E:=call) ToClient ps s).
Proof.
  revert s. induction ps as [|p ps IH]; intros s; cbn [write_numbered]; [apply keeps_ret, _|].
  apply keeps_bind; [apply _|apply shrinks_packet|]. intros _. apply IH.
Qed.
Lemma probe_shrinks s probe : keeps shrinks (writeMySQLStartupProbeResponse (E:=call) s probe).
Proof.
  destruct probe; cbn [writeMySQLStartupProbeResponse];
    first [apply shrinks_packet|apply numbered_shrinks].
Qed.
Lemma numbered_ends ps s : ends (write_numbered (E:=call) ToClient ps s).
Proof.
  revert s. induction ps as [|p ps IH]; intros s; cbn [write_numbered]; [done|].
  apply ends_bind; [apply ends_packet|]. intros _. apply IH.
Qed.
Lemma probe_ends s probe : ends (writeMySQLStartupProbeResponse (E:=call) s probe).
Proof.
  destruct probe; cbn [writeMySQLStartupProbeResponse];
    first [apply ends_packet|apply numbered_ends].
Qed.
End Protocol.

Section LoopSpec.
Context `{Unicode} (env : environment) (reg : SessionRegistration).

#[local] Opaque local_answer.

(** [returns m R]: every value [m] returns satisfies [R]. *)
Definition returns {A} (m : M world A) (R : A → Prop) : Prop :=
  ∀ w a w', m w = (Ok a, w') → R a.

Lemma returns_ret {A} (a : A) (R : A → Prop) : R a → returns (ret a) R.
Proof. intros Ha w b w' [= <- _]. done. Qed.
Lemma returns_fail {A} e (R : A → Prop) : returns (fail e) R.
Proof. by intros w b w'. Qed.
Lemma returns_bind {A B} (m : M world A) (k : A → M world B) (Q : A → Prop) R :
  returns m Q → (∀ a, Q a → returns (k a) R) → returns (bind m k) R.
Proof.
  intros Hm Hk w b w' H'. apply bind_ok in H' as (a & w1 & H1 & H2).
  apply Hm in H1. by eapply Hk.
Qed.
Lemma returns_any {A} (m : M world A) : returns m (λ _, True).
Proof. done. Qed.
Lemma returns_seq {A B} (m : M world A) (k : A → M world B) R :
  (∀ a, returns (k a) R) → returns (bind m k) R.
Proof. intros Hk. apply returns_bind with (λ _, True); [apply returns_any|auto]. Qed.

(** What a step may leave behind it. *)
Definition next_ok (st : loop_state) (payload : bytes) (next : option loop_state) : Prop :=
  ∀ st', next = Some st' → cache_step (lp_cache st) payload (lp_cache st') ∧ next_phase st payload st'.

Definition step_result (st : loop_state) (payload : bytes) (P : list event → Prop) (w : world)
    (p : outcome (option loop_state) * world) : Prop :=
  ∃ t, dx_trace p.2 = dx_trace w ++ t ∧ P t ∧ shrinks w p.2 ∧ p.1 ≠ OutOfFuel
    ∧ (∀ next, p.1 = Ok next → next_ok st payload next).

Lemma calm_step st payload (m : M world (option loop_state)) w :
  keeps relays m → ends m → returns m (next_ok st payload) →
  step_result st payload (λ t, forallb no_log t = true) w (m w).
Proof.
  intros Hk He Hr. destruct (Hk w) as [Hs (t & Ht & Hn)]. exists t. split_and!; try done.
  intros next Hnext. specialize (Hr w next (m w).2). apply Hr. destruct (m w); cbn in *. by subst.
Qed.

(** A step that logs first, then goes on with [m]. *)
Lemma logged_step st payload q ptype prep (m : M world (option loop_state)) w :
  keeps relays m → ends m → returns m (next_ok st payload) →
  step_result st payload (logged_first (queryLog env reg (length (dx_trace w)) q ptype prep)) w
    (bind (enqueueQueryLog env reg q ptype prep) (λ _, m) w).
Proof.
  intros Hk He Hr. unfold enqueueQueryLog, enqueue, emit, modify, bind, get.
  set (w1 := Duplex _ _ _ _). destruct (calm_step st payload m w1 Hk He Hr) as (t & Ht & Hn & Hs & Ho & Hx).
  exists (Enqueue (LogQuery (queryLog env reg (length (dx_trace w)) q ptype prep)) :: t).
  split_and!; try done; [|by exists t].
  rewrite Ht. unfold w1. cbn. by rewrite <- app_assoc.
Qed.

Lemma relays_forward p s : keeps relays (forward_and_relay p s).
Proof. apply keeps_bind; [apply _|apply relays_to_upstream|]. intros _. apply relays_relayResponse. Qed.
Lemma ends_forward p s : ends (forward_and_relay p s).
Proof. apply ends_bind; [apply ends_packet|]. intros _. apply ends_relayResponse. Qed.

Lemma next_phase_other st p st' : is_query p = false → phase_step st st' → next_phase st p st'.
Proof. intros Hq Hp. split; [done|]. by rewrite Hq. Qed.
Lemma next_ok_same st p : is_query p = false → next_ok st p (Some st).
Proof. intros Hq st' [= <-]. split; [by left|apply next_phase_other, phase_refl; done]. Qed.
Lemma next_ok_leave st p : is_query p = false → next_ok st p (Some (Loop (lp_cache st) false (lp_probes st))).
Proof. intros Hq st' [= <-]. split; [by left|apply next_phase_other, phase_leave; done]. Qed.
Lemma next_ok_none st p : next_ok st p None.
Proof. done. Qed.

Lemma query_step st payload seq w :
  payload ≠ [] → at_byte payload 0 = comQuery →
  step_result st payload
    (λ t, if is_query payload then
            match local_answer st (query_text payload) with
            | inl _ => forallb only_client t = true
            | inr _ => logged_first
                (queryLog env reg (length (dx_trace w)) (query_text payload) §"simple" false) t
            end
          else forallb no_log t = true) w
    (bind (handle_query env reg st payload seq) (λ st1, ret (Some st1)) w).
Proof.
  intros Hne Hcmd. assert (Hq : is_query payload = negb (bool_decide (query_text payload = []))).
  { unfold is_query. rewrite bool_decide_false by done. by rewrite Hcmd, Z.eqb_refl. }
  unfold handle_query. case_bool_decide as Hb; cbn [negb] in Hq; rewrite Hq.
  - apply calm_step.
    + apply keeps_bind; [apply _| |intros ?; apply keeps_ret, _].
      apply keeps_bind; [apply _|apply relays_forward|intros _; apply keeps_ret, _].
    + apply ends_bind; [apply ends_bind; [apply ends_forward|done]|done].
    + intros w1 next w2 Hn. apply bind_ok in Hn as (st1 & w3 & Hn & [= <- _]).
      apply bind_ok in Hn as (u & w4 & _ & [= <- _]). by apply next_ok_same.
  - pose proof (local_answer_phase st (query_text payload)) as Hp.
    assert (Hnext : ∀ st1, match local_answer st (query_text payload) with
                           | inl (_, st2) | inr st2 => st1 = st2 end → next_ok st payload (Some st1)).
    { intros st1 H1 st' [= <-]. unfold next_phase.
      destruct (local_answer _ _) as [[probe st2]|st2]; subst; destruct Hp; (split; [by left|done]). }
    destruct (local_answer st _) as [[probe st1]|st1] eqn:El.
    + unfold bind at 1. unfold bind at 1.
      pose proof (probe_only seq probe w) as (t & Ht & Hn).
      pose proof (probe_shrinks seq probe w) as Hs. pose proof (probe_ends seq probe w) as He.
      destruct (writeMySQLStartupProbeResponse seq probe w) as [[u| | |] w1]; cbn in *; try done;
        exists t; split_and!; try done.
      intros next [= <-]. by apply Hnext.
    + set (m := do! forward_and_relay payload seq in ret (Some st1)).
      assert (Hm : ∀ w, bind (do! enqueueQueryLog env reg (query_text payload) §"simple" false in
                  do! forward_and_relay payload seq in ret st1) (λ st1, ret (Some st1)) w
                = bind (enqueueQueryLog env reg (query_text payload) §"simple" false) (λ _, m) w).
      { intros w'. unfold m, bind. destruct (enqueueQueryLog _ _ _ _ _ w') as [[]?]; try done.
        by destruct (forward_and_relay _ _ _) as [[]?]. }
      rewrite Hm. apply logged_step.
      * apply keeps_bind; [apply _|apply relays_forward|]. intros _. apply keeps_ret, _.
      * apply ends_bind; [apply ends_forward|done].
      * apply returns_seq. intros _. apply returns_ret. by apply Hnext.
Qed.

Lemma prepare_cache c sql : returns (relayPrepareResponse c sql)
  (λ c', c' = c ∨ ∃ id, c' = <[id := sql]> c).
Proof.
  apply returns_seq. intros [p s]. apply returns_seq. intros _.
  repeat case_match; try apply returns_fail; cbv zeta;
    repeat (apply returns_seq; intros _); apply returns_ret; eauto.
Qed.

Lemma handle_packet_spec st payload seq w :
  payload ≠ [] →
  step_result st payload (step_events env reg (length (dx_trace w)) st payload) w
    (handle_packet env reg st payload seq w).
Proof.
  intros Hne. unfold handle_packet, step_events. rewrite bool_decide_false by done. cbv zeta.
  destruct (Z.eq_dec (at_byte payload 0) comQuery) as [Eq|Nq].
  { rewrite Eq. change (comQuery =? comQuit) with false. rewrite Z.eqb_refl.
    change (comQuery =? comStmtExecute) with false. by apply query_step. }
  assert (Hq : is_query payload = false).
  { unfold is_query. by rewrite (proj2 (Z.eqb_neq _ comQuery)), andb_false_r. }
  rewrite Hq, (proj2 (Z.eqb_neq _ comQuery)) by done.
  destruct (Z.eq_dec (at_byte payload 0) comStmtExecute) as [Ee|Ne].
  { rewrite Ee. change (comStmtExecute =? comQuit) with false. change (comStmtExecute =? comStmtPrepare) with false.
    rewrite Z.eqb_refl. unfold executed_text.
    set (m := do! forward_and_relay payload seq in ret (Some (Loop (lp_cache st) false (lp_probes st)))).
    assert (Hk : keeps relays m)
      by (apply keeps_bind; [apply _|apply relays_forward|intros _; apply keeps_ret, _]).
    assert (He : ends m) by (apply ends_bind; [apply ends_forward|done]).
    assert (Hr : returns m (next_ok st payload))
      by (apply returns_seq; intros _; by apply returns_ret, next_ok_leave).
    destruct (5 <=? length payload)%nat; [|by apply calm_step].
    destruct (lp_cache st !! _); [by apply logged_step|by apply calm_step]. }
  rewrite (proj2 (Z.eqb_neq _ comStmtExecute)) by done.
  assert (Hw : keeps relays (to_upstream payload seq)) by apply relays_to_upstream.
  assert (Hend : ends (to_upstream payload seq)) by apply ends_packet.
  repeat case_match; gobool; apply calm_step;
    repeat first [ assumption | apply relays_prepare | apply relays_relayFieldListResponse
                 | apply relays_forward | apply keeps_ret, _ | apply keeps_try
                 | apply keeps_bind; [apply _| |intros ?] ];
    repeat first [ assumption | apply ends_prepare | apply ends_relayFieldListResponse
                 | apply ends_forward | apply ends_ret | apply ends_try
                 | apply ends_bind; [|intros ?] ];
    try (repeat (apply returns_seq; intros ?); apply returns_ret;
         first [apply next_ok_none|by apply next_ok_leave]).
  - apply returns_seq. intros _.
    apply returns_bind with (λ c', c' = lp_cache st ∨ ∃ id, c' = <[id := query_text payload]> (lp_cache st));
      [apply prepare_cache|].
    intros c Hc. apply returns_ret. intros st' [= <-]. split; [|by apply next_phase_other, phase_leave].
    cbn. destruct Hc as [->|[id ->]]; [by left|]. right; left. eauto.
  - apply returns_seq. intros _. apply returns_ret. intros st' [= <-]. split; [|by apply next_phase_other, phase_leave].
    right; right. eauto.
Qed.

(** A blank packet goes to the upstream and back to the top of the loop. *)
Lemma blank_phase st : next_phase st [] st.
Proof. by apply next_phase_other, phase_refl. Qed.

Lemma command_loop_S f st w :
  command_loop env reg (S f) st w =
  match readPacket (dx_client w) with
  | (Ok (p, s), r1) =>
      (if bool_decide (p = []) then do! to_upstream p s in command_loop env reg f st
       else let! next := handle_packet env reg st p s in
            match next with None => ret tt | Some st' => command_loop env reg f st' end)
      (Duplex r1 (dx_upstream w) (dx_faults w) (dx_trace w))
  | (Err e, r1) => (Err e, Duplex r1 (dx_upstream w) (dx_faults w) (dx_trace w))
  | (Panic e, r1) => (Panic e, Duplex r1 (dx_upstream w) (dx_faults w) (dx_trace w))
  | (OutOfFuel, r1) => (OutOfFuel, Duplex r1 (dx_upstream w) (dx_faults w) (dx_trace w))
  end.
Proof.
  cbn [command_loop]. unfold bind at 1, from_client, client_read, zoom.
  by destruct (readPacket (dx_client w)) as [[[p s]| | |] r1].
Qed.

Lemma mysql_loop_spec f st w :
  (unread_client w < f)%nat →
  ∃ steps, session env reg (dx_client w) (length (dx_trace w)) st steps
    ∧ dx_trace (command_loop env reg f st w).2 = dx_trace w ++ concat (steps.*2)
    ∧ (command_loop env reg f st w).1 ≠ OutOfFuel.
Proof.
  revert st w. induction f as [|f IH]; intros st w Hf; [lia|].
  pose proof (from_client_progresses w) as Hp. rewrite command_loop_S.
  unfold from_client, client_read, zoom in Hp.
  destruct (readPacket (dx_client w)) as [o r1] eqn:Er.
  pose proof (readPacket_ends (dx_client w)) as He. rewrite Er in He. cbn [fst] in He.
  destruct o as [[p s]| | |]; try done;
    try (exists []; split_and!; [apply se_done|by rewrite app_nil_r|done]).
  specialize (Hp _ _ eq_refl). unfold unread_client in *. cbn in Hp.
  set (w1 := Duplex r1 (dx_upstream w) (dx_faults w) (dx_trace w)).
  (* the rest of the loop, from a world where the step has added [t] *)
  assert (Hnext : ∀ t st' w2, dx_trace w2 = dx_trace w ++ t → shrinks w1 w2 →
    step_events env reg (length (dx_trace w)) st p t →
    cache_step (lp_cache st) p (lp_cache st') → next_phase st p st' →
    ∃ steps, session env reg (dx_client w) (length (dx_trace w)) st steps
      ∧ dx_trace (command_loop env reg f st' w2).2 = dx_trace w ++ concat (steps.*2)
      ∧ (command_loop env reg f st' w2).1 ≠ OutOfFuel).
  { intros t st' w2 Ht [_ Hc] Hev Hcs Hps. destruct (IH st' w2) as (steps & Hs & Hr & Ho).
    { apply consumed_length in Hc. cbn in Hc. lia. }
    exists ((p, t) :: steps). split_and!; [|by rewrite Hr, Ht; cbn; rewrite <- app_assoc|done].
    rewrite Ht, length_app in Hs. by eapply se_step. }
  case_bool_decide as Hb.
  - subst p. unfold bind. pose proof (relays_to_upstream [] s w1) as [Hs (t & Ht & Hn)].
    pose proof (ends_packet ToUpstream [] s w1) as Hew. fold (to_upstream [] s) in Hew.
    destruct (to_upstream [] s w1) as [[u| | |] w2] eqn:Ew; cbn in *; try done.
    + apply (Hnext t); [done..|by left|apply blank_phase].
    + exists [([], t)]. split_and!; [by eapply se_last|cbn; by rewrite app_nil_r|done].
    + exists [([], t)]. split_and!; [by eapply se_last|cbn; by rewrite app_nil_r|done].
  - destruct (handle_packet_spec st p s w1 Hb) as (t & Ht & Hev & Hs & Ho & Hn).
    cbn [dx_trace w1] in Ht, Hev. unfold bind.
    destruct (handle_packet env reg st p s w1) as [[[st'|]| | |] w2]; cbn [fst snd] in *; try done.
    + destruct (Hn _ eq_refl st' eq_refl) as [Hcs Hps]. by apply (Hnext t).
    + exists [(p, t)]. split_and!; [by eapply se_last|cbn; by rewrite app_nil_r|done].
    + exists [(p, t)]. split_and!; [by eapply se_last|cbn; by rewrite app_nil_r|done].
    + exists [(p, t)]. split_and!; [by eapply se_last|cbn; by rewrite app_nil_r|done].
Qed.

Lemma forwardCommands_spec w :
  ∃ steps, session env reg (dx_client w) (length (dx_trace w)) (Loop ∅ true 0) steps
    ∧ dx_trace (forwardCommands env reg w).2 = dx_trace w ++ concat (steps.*2)
    ∧ (forwardCommands env reg w).1 ≠ OutOfFuel.
Proof. unfold forwardCommands, client_left, bind, get, ret. apply mysql_loop_spec. unfold unread_client. lia. Qed.
End LoopSpec.

(** * What sessions show *)

Section Sessions.
Context `{Unicode} (env : environment) (reg : SessionRegistration).

(** The packet [p] is on the stream [r], at some position. *)
Definition sent (r : reader) (p : bytes) : Prop :=
  ∃ r0 s r1, consumed r r0 ∧ readPacket r0 = (Ok (p, s), r1).

Lemma sent_later r r1 p : consumed r r1 → sent r1 p → sent r p.
Proof. intros Hc (r0 & s & r2 & H0 & Hr). exists r0, s, r2. split; [by etransitivity|done]. Qed.
Lemma sent_now r p s r1 : readPacket r = (Ok (p, s), r1) → sent r p.
Proof. intros Hr. exists r, s, r1. split; [reflexivity|done]. Qed.
Lemma read_consumed r p s r1 : readPacket r = (Ok (p, s), r1) → consumed r r1.
Proof. intros Hr. pose proof (readPacket_keeps r) as Hk. by rewrite Hr in Hk. Qed.

(** Which statement an entry of the log is about. *)
Definition log_of (r : reader) (c : cache) (l : queryLogEvent) : Prop :=
  ∃ k p, (sent r p ∧ is_query p = true ∧ l = queryLog env reg k (query_text p) §"simple" false)
    ∨ (sent r p ∧ at_byte p 0 = comStmtPrepare ∧ l = queryLog env reg k (query_text p) §"prepared" true)
    ∨ (∃ id q, c !! id = Some q ∧ l = queryLog env reg k q §"prepared" true).

Lemma no_log_in t l : forallb no_log t = true → Enqueue (LogQuery l) ∉ t.
Proof. intros Hn Hin%list_elem_of_In. rewrite forallb_forall in Hn. by apply Hn in Hin. Qed.
Lemma only_client_in t l : forallb only_client t = true → Enqueue (LogQuery l) ∉ t.
Proof. intros Hn Hin%list_elem_of_In. rewrite forallb_forall in Hn. by apply Hn in Hin. Qed.
Lemma logged_first_in l t l' : logged_first l t → Enqueue (LogQuery l') ∈ t → l' = l.
Proof.
  intros (u & -> & Hn) [Heq|Hin]%elem_of_cons; [by injection Heq|]. by apply no_log_in in Hin.
Qed.

Lemma step_log r n st p s r1 t l :
  readPacket r = (Ok (p, s), r1) → step_events env reg n st p t →
  Enqueue (LogQuery l) ∈ t → log_of r (lp_cache st) l.
Proof.
  intros Hr Hs Hin. unfold step_events in Hs. cbv zeta in Hs.
  case_bool_decide; [by apply no_log_in with (l:=l) in Hs|].
  destruct (is_query p) eqn:Eq.
  - destruct (local_answer _ _); [by apply only_client_in with (l:=l) in Hs|].
    apply logged_first_in with (l':=l) in Hs as ->; [|done].
    exists n, p. left. split_and!; [by eapply sent_now|done..].
  - destruct (_ =? comStmtExecute) eqn:Ee; [|by apply no_log_in with (l:=l) in Hs].
    unfold executed_text in Hs. destruct (_ <=? _)%nat; [|by apply no_log_in with (l:=l) in Hs].
    destruct (lp_cache st !! _) as [q|] eqn:Ec; [|by apply no_log_in with (l:=l) in Hs].
    apply logged_first_in with (l':=l) in Hs as ->; [|done].
    exists n, p. right; right. eauto.
Qed.

(** A log entry after a step was justified before it, or by the step's packet. *)
Lemma log_of_step r p s r1 r2 c c' l :
  readPacket r = (Ok (p, s), r1) → consumed r1 r2 → cache_step c p c' →
  log_of r2 c' l → log_of r c l.
Proof.
  intros Hr Hc Hcs (k & p' & Hl). assert (Hr2 : consumed r r2)
    by (etransitivity; [by eapply read_consumed|done]).
  destruct Hl as [(Hsent & Hq & Hl)|[(Hsent & Hq & Hl)|(id & q & Hid & Hl)]].
  - exists k, p'. left. eauto using sent_later.
  - exists k, p'. right; left. eauto using sent_later.
  - destruct Hcs as [->|[(Hp & i & ->)|(Hp & i & ->)]].
    + exists k, p. eauto 10.
    + apply lookup_insert_Some in Hid as [[<- <-]|[_ Hid]].
      * exists k, p. right; left. eauto using sent_now.
      * exists k, p. eauto 10.
    + apply lookup_delete_Some in Hid as [_ Hid]. exists k, p. eauto 10.
Qed.

Lemma session_logs r n st steps l :
  session env reg r n st steps → Enqueue (LogQuery l) ∈ concat (steps.*2) →
  log_of r (lp_cache st) l.
Proof.
  induction 1 as [|r n st p s r1 t Hr Hs|r n st p s r1 t r2 st' rest Hr Hs Hc Hp Hcons _ IH]; cbn.
  - by intros ?%elem_of_nil.
  - rewrite app_nil_r. by eapply step_log.
  - intros [Hin|Hin]%elem_of_app; [by eapply step_log|]. eapply log_of_step; eauto.
Qed.

(** A query the proxy answered without an entry in the log, by a rule other
    than the query-cache one. *)
Definition unlogged (step : bytes * list event) : bool :=
  is_query step.1 && negb (existsb is_log step.2).
Definition unlogged_probe (step : bytes * list event) : bool :=
  unlogged step && negb (mentions_query_cache (query_text step.1)).

Lemma logged_first_existsb l t : logged_first l t → existsb is_log t = true.
Proof. by intros (u & -> & _). Qed.

Lemma step_unlogged n st p t :
  step_events env reg n st p t → unlogged (p, t) = true →
  forallb only_client t = true ∧ ∃ a, local_answer st (query_text p) = inl a.
Proof.
  unfold unlogged, step_events. cbn [fst snd]. intros Hs Hu. gobool. cbv zeta in Hs.
  rewrite bool_decide_false in Hs by (intros ->; done).
  destruct (is_query p) eqn:Eq; [|done].
  destruct (local_answer st (query_text p)) as [a|st1] eqn:El; [split; [done|by exists a]|].
  apply logged_first_existsb in Hs. by rewrite Hs in *.
Qed.

(** A start-up answer counts. *)
Lemma local_answer_counts st q a st1 :
  mentions_query_cache q = false → local_answer st q = inl (a, st1) →
  lp_probes st < startupProbeLimit ∧ lp_probes st1 = lp_probes st + 1.
Proof.
  unfold local_answer. intros ->. destruct (lp_startup st); [|done].
  destruct (negb _ && _) eqn:E; [|done]. intros [= _ <-]. gobool. cbn. lia.
Qed.

Lemma session_probes r n st steps :
  session env reg r n st steps → 0 <= lp_probes st <= startupProbeLimit →
  lp_probes st + Z.of_nat (length (List.filter unlogged_probe steps)) <= startupProbeLimit.
Proof.
  assert (Hcount : ∀ n st p t, step_events env reg n st p t → unlogged_probe (p, t) = true →
    ∃ a st1, local_answer st (query_text p) = inl (a, st1) ∧ lp_probes st < startupProbeLimit
      ∧ lp_probes st1 = lp_probes st + 1 ∧ is_query p = true).
  { unfold unlogged_probe. intros n' st' p t Hs [Hu Hm]%andb_true_iff. cbn [fst] in *.
    apply negb_true_iff in Hm.
    destruct (step_unlogged n' st' p t Hs Hu) as [_ [[a st1] Ha]].
    destruct (local_answer_counts st' (query_text p) a st1 Hm Ha) as [? ?].
    exists a, st1. split_and!; try done. by apply andb_true_iff in Hu as [? _]. }
  induction 1 as [|r n st p s r1 t Hr Hs|r n st p s r1 t r2 st' rest Hr Hs Hc [Hp Hq] Hcons _ IH];
    intros Hb; cbn [List.filter].
  - cbn. lia.
  - destruct (unlogged_probe (p, t)) eqn:Eu; cbn; [|lia].
    destruct (Hcount _ _ _ _ Hs Eu) as (a & st1 & _ & ? & _). lia.
  - destruct Hp as [_ Hp]. destruct (unlogged_probe (p, t)) eqn:Eu.
    + destruct (Hcount _ _ _ _ Hs Eu) as (a & st1 & Ha & ? & ? & Hisq).
      specialize (Hq Hisq). rewrite Ha in Hq. subst st1. cbn [length]. lia.
    + lia.
Qed.

Lemma session_unlogged r n st steps :
  session env reg r n st steps →
  ∀ step, step ∈ steps → unlogged step = true → forallb only_client step.2 = true.
Proof.
  induction 1 as [|r n st p s r1 t Hr Hs|r n st p s r1 t r2 st' rest Hr Hs Hc Hp Hcons _ IH];
    intros step Hin Hu.
  - by apply elem_of_nil in Hin.
  - apply list_elem_of_singleton in Hin as ->. by apply (step_unlogged _ _ _ _ Hs) in Hu as [? _].
  - apply elem_of_cons in Hin as [->|Hin]; [|by apply IH].
    by apply (step_unlogged _ _ _ _ Hs) in Hu as [? _].
Qed.

Lemma step_not_terminal n st p t :
  step_events env reg n st p t → forallb (λ e, negb (is_terminal e)) t = true.
Proof.
  assert (Hn : ∀ u, forallb no_log u = true → forallb (λ e : event, negb (is_terminal e)) u = true).
  { intros u. rewrite !forallb_forall. intros Hu e He. apply Hu in He. unfold no_log in He.
    by apply andb_true_iff in He as [_ ?]. }
  assert (Hl : ∀ l u, logged_first l u → forallb (λ e : event, negb (is_terminal e)) u = true).
  { intros l u (v & -> & Hv). cbn. by apply Hn. }
  unfold step_events. cbv zeta. repeat case_match; eauto.
  rewrite !forallb_forall. intros Hu e He. apply Hu in He. by destruct e.
Qed.
Lemma session_not_terminal r n st steps :
  session env reg r n st steps → forallb (λ e, negb (is_terminal e)) (concat (steps.*2)) = true.
Proof.
  induction 1 as [|r n st p s r1 t Hr Hs|r n st p s r1 t r2 st' rest Hr Hs Hc Hp Hcons _ IH]; cbn; [done| |];
    rewrite forallb_app, (step_not_terminal _ _ _ _ Hs); done.
Qed.
End Sessions.

(** * Authentication *)

Section AuthSpec.
Context `{Unicode} (env : environment) (reg : SessionRegistration).

Lemma calm_packet (side : bytes → event) p s :
  (∀ p, not_terminal (side p) = true) → keeps calm (writePacket side p s).
Proof.
  intros Hs. apply keeps_bind; [apply _|by apply adds_write|]. intros _.
  destruct (_ <? _); [by apply adds_write|apply keeps_ret, _].
Qed.
Lemma calm_reads : keeps calm from_upstream ∧ keeps calm from_client.
Proof. split; [apply adds_upstream_read|apply adds_client_read]. Qed.
Lemma calm_switch : (∀ r, keeps calm (switch_upstream r)) ∧ (∀ r, keeps calm (switch_client r)).
Proof. split; intros r; by apply adds_modify. Qed.
Lemma calm_enqueue c : not_terminal (Enqueue c) = true → keeps calm (enqueue c).
Proof. apply adds_emit. Qed.

(** Go through a call whose leaves add nothing terminal. *)
Ltac calmly :=
  repeat (first
    [ apply keeps_ret, _ | apply keeps_fail, _ | apply calm_reads | apply calm_switch
    | by apply calm_packet | by apply calm_enqueue | assumption
    | apply keeps_wrap_err
    | apply keeps_bind; [apply _| |intros ?]
    | progress cbv zeta | case_match ]).

Lemma calm_auth f c seq plugin pw data : keeps calm (auth_loop f c seq plugin pw data).
Proof.
  revert seq plugin data. induction f as [|f IH]; intros seq plugin data; cbn [auth_loop].
  - by intros w; exists []; rewrite app_nil_r.
  - assert (Hrec : ∀ s p d, keeps calm (auth_loop f c s p pw d)) by done.
    calmly; apply Hrec.
Qed.
Lemma calm_left : keeps calm upstream_left.
Proof. intros w. exists []. cbn. by rewrite app_nil_r. Qed.
Lemma calm_handleAuthResult c seq plugin pw data : keeps calm (handleAuthResult c seq plugin pw data).
Proof. apply keeps_bind; [apply _|apply calm_left|]. intros k. apply calm_auth. Qed.

Lemma calm_upgrade c hs : keeps calm (upgrade_upstream env reg c hs).
Proof. unfold upgrade_upstream. calmly. Qed.
Lemma calm_connect : keeps calm (connectAndAuthUpstream env reg).
Proof.
  unfold connectAndAuthUpstream. destruct (env_dial env); [apply keeps_fail, _|]. cbv zeta.
  apply keeps_bind; [apply _|apply keeps_wrap_err, calm_reads|]. intros [payload s].
  destruct (parseHandshakeV10 payload); [|apply keeps_fail, _].
  destruct (env_credential env _); [|apply keeps_fail, _].
  apply keeps_bind; [apply _|apply calm_upgrade|]. intros [[c0 seq] ssl]. cbv zeta.
  apply keeps_bind; [apply _|by apply keeps_wrap_err, calm_packet|]. intros _.
  apply keeps_bind; [apply _|apply calm_handleAuthResult|]. intros _. apply keeps_ret, _.
Qed.
Lemma calm_negotiate : keeps calm (negotiateClient env).
Proof. unfold negotiateClient. calmly. Qed.
Lemma calm_forward : keeps calm (forwardCommands env reg).
Proof.
  intros w. destruct (forwardCommands_spec env reg w) as (steps & Hs & Ht & _).
  exists (concat (steps.*2)). split; [done|]. by eapply session_not_terminal.
Qed.
Lemma calm_flow : keeps calm (runProxyFlow env reg).
Proof.
  apply keeps_bind; [apply _|apply keeps_wrap_err, calm_connect|]. intros _.
  apply keeps_bind; [apply _|apply keeps_wrap_err, calm_negotiate|]. intros _.
  apply keeps_bind; [apply _|by apply calm_enqueue|]. intros _. apply calm_forward.
Qed.

Lemma ends_switch : (∀ r, ends (switch_upstream r)) ∧ (∀ r, ends (switch_client r)).
Proof. done. Qed.
Ltac ending :=
  repeat (first
    [ apply ends_ret | apply ends_fail | apply from_upstream_ends | apply from_client_ends
    | apply ends_switch | apply ends_packet | assumption | apply ends_wrap
    | apply ends_bind; [|intros ?] | progress cbv zeta | case_match ]).

(** Each round of the exchange takes a packet of the upstream. *)
Lemma ends_auth c seq plugin pw data : ends (handleAuthResult c seq plugin pw data).
Proof.
  apply (ends_with_fuel unread_upstream (λ f, auth_loop f c seq plugin pw data)).
  intros f. revert seq plugin data. induction f as [|f IH]; intros seq plugin data L Hl; [lia|].
  cbn [auth_loop].
  apply bounded_step; [apply ends_wrap, from_upstream_ends|apply progresses_wrap, from_upstream_progresses|].
  intros [payload s] L' ?. cbv zeta.
  assert (Hrec : ∀ s p d, bounded unread_upstream L' (auth_loop f c s p pw d)) by (intros; apply IH; lia).
  assert (Hsend : ∀ msg b q (s p d : _), bounded unread_upstream L'
     (do! wrap_err msg (to_upstream b q) in auth_loop f c s p pw d)).
  { intros. apply bounded_bind; [apply bounded_ends, ends_wrap, ends_packet| |by intros _].
    apply shrinks_upstream, keeps_wrap_err, shrinks_packet. }
  repeat case_match; first [by apply bounded_ends|apply Hsend|apply Hrec].
Qed.
Lemma ends_upgrade c hs : ends (upgrade_upstream env reg c hs).
Proof. unfold upgrade_upstream. ending. Qed.
Lemma ends_connect : ends (connectAndAuthUpstream env reg).
Proof.
  unfold connectAndAuthUpstream. destruct (env_dial env); [done|]. cbv zeta.
  apply ends_bind; [apply ends_wrap, from_upstream_ends|]. intros [payload s].
  destruct (parseHandshakeV10 payload); [|done]. destruct (env_credential env _); [|done].
  apply ends_bind; [apply ends_upgrade|]. intros [[c0 seq] ssl]. cbv zeta.
  apply ends_bind; [apply ends_wrap, ends_packet|]. intros _.
  apply ends_bind; [apply ends_auth|done].
Qed.
Lemma ends_negotiate : ends (negotiateClient env).
Proof. unfold negotiateClient. ending. Qed.
Lemma ends_flow : ends (runProxyFlow env reg).
Proof.
  apply ends_bind; [apply ends_wrap, ends_connect|]. intros _.
  apply ends_bind; [apply ends_wrap, ends_negotiate|]. intros _.
  apply ends_bind; [done|]. intros _ w. by destruct (forwardCommands_spec env reg w) as (? & _ & _ & ?).
Qed.

(** The last event of a connection, by what its handler returns. *)
Definition closing (o : outcome unit) : list event :=
  match o with
  | Ok _ => [Enqueue (MarkEnded (launchContext reg) §"db_client_disconnected")]
  | Err _ => [Enqueue (MarkFailed (launchContext reg) §"db_proxy_failed")]
  | _ => []
  end.

(** What may be written when TLS is required and not there: the request for it. *)
Definition ssl_request_only (e : event) : bool :=
  match e with
  | ToUpstream b => bool_decide (b `prefix_of` packet_header buildSSLRequest 1)
                    || bool_decide (b `prefix_of` buildSSLRequest)
  | _ => false
  end.

Lemma ssl_request_packet : keeps (adds ssl_request_only) (to_upstream buildSSLRequest 1).
Proof.
  intros w. unfold to_upstream, writePacket, bind.
  destruct (write_spec ToUpstream (packet_header buildSSLRequest 1) w)
    as (o & p & w1 & -> & Hp & Ht & _).
  assert (H1 : adds ssl_request_only w w1).
  { exists [ToUpstream p]. split; [done|]. cbn. by rewrite bool_decide_true by done. }
  destruct o; try done. change (0 <? zlen buildSSLRequest) with true. cbn [snd].
  destruct (write_spec ToUpstream buildSSLRequest w1) as (o & q & w2 & Hw & Hq & Ht2 & _).
  etransitivity; [exact H1|]. rewrite Hw. exists [ToUpstream q]. split; [done|].
  cbn [forallb ssl_request_only]. by rewrite (bool_decide_true (q `prefix_of` buildSSLRequest)), orb_true_r by done.
Qed.

(** A call that never succeeds and writes nothing but the request for TLS. *)
Definition refused {A} (m : M world A) : Prop :=
  keeps (adds ssl_request_only) m ∧ ∀ w a, (m w).1 ≠ Ok a.

Lemma refused_fail {A} e : refused (fail (A:=A) e).
Proof. split; [apply keeps_fail, _|done]. Qed.
Lemma refused_then {A B} (m : M world A) (k : A → M world B) : refused m → refused (bind m k).
Proof.
  intros [Hk Hn]. unfold bind. split; intros w; specialize (Hk w); specialize (Hn w);
    destruct (m w) as [[a| | |] w1]; cbn in *; try done; by destruct (Hn a).
Qed.
Lemma refused_bind {A B} (m : M world A) (k : A → M world B) :
  keeps (adds ssl_request_only) m → (∀ a, refused (k a)) → refused (bind m k).
Proof.
  intros Hm Hk. split; [apply keeps_bind; [apply _|done|]; intros a; apply Hk|].
  intros w b Hb. destruct (bind m k w) as [o w'] eqn:E. cbn in Hb. subst o.
  apply bind_ok in E as (a & w1 & _ & E). apply (proj2 (Hk a) w1 b). by rewrite E.
Qed.

Lemma connect_refused e :
  RequireTLS (classifySSLMode (m_SSLMode reg)) = true →
  env_tls env (m_UpstreamHost reg) (VerifyCert (classifySSLMode (m_SSLMode reg))) = inr e →
  refused (connectAndAuthUpstream env reg).
Proof.
  intros Hr Ht. unfold connectAndAuthUpstream.
  destruct (env_dial env); [apply refused_fail|]. cbv zeta.
  apply refused_bind; [apply keeps_wrap_err, adds_upstream_read|]. intros [payload s].
  destruct (parseHandshakeV10 payload) as [hs|]; [|apply refused_fail].
  destruct (env_credential env _); [|apply refused_fail]. apply refused_then.
  unfold upgrade_upstream. cbv zeta. rewrite Ht, Hr. destruct (_ && _); [|apply refused_fail].
  apply refused_bind; [apply keeps_wrap_err, ssl_request_packet|]. intros _. apply refused_fail.
Qed.

(** The exchange stops at a request for the password itself, on any connection
    that is not a TLS one. *)
Definition full_auth_error : error :=
  Errorf §"caching_sha2_password full auth requires TLS to upstream; set ssl_mode=require on the asset".

Lemma full_auth_stops c seq pw data w p s r :
  is_tls_conn c = false → readPacket (dx_upstream w) = (Ok (p, s), r) →
  at_byte p 0 = 1 → at_byte p 1 = 4 → (2 <= length p)%nat →
  handleAuthResult c seq authCachingSha2 pw data w
  = (Err full_auth_error, Duplex (dx_client w) r (dx_faults w) (dx_trace w)).
Proof.
  intros Hc Hr H0 H1 Hl. unfold handleAuthResult, upstream_left, bind at 1 2, get, ret.
  cbn [auth_loop]. unfold bind at 1, wrap_err, from_upstream, upstream_read, zoom. rewrite Hr.
  rewrite bool_decide_false by (by intros ->). rewrite H0, H1, Hc.
  rewrite (bool_decide_true (authCachingSha2 = authCachingSha2)) by done.
  by rewrite (proj2 (Nat.leb_le _ _)) by done.
Qed.

Lemma packet_ok (side : bytes → event) p s w :
  dx_faults w = [] →
  ∃ t, writePacket side p s w = (Ok tt, Duplex (dx_client w) (dx_upstream w) [] (dx_trace w ++ t)).
Proof.
  intros Hf. unfold writePacket, bind. rewrite write_ok by done.
  destruct (0 <? zlen p); [|by eexists]. rewrite write_ok by done. cbn. rewrite <- app_assoc. by eexists.
Qed.

Lemma full_auth_fails w hs cred payload s r rtls p s2 r2 :
  0 < env_IdleTimeout env → env_dial env = None → dx_faults w = [] →
  readPacket (dx_upstream w) = (Ok (payload, s), r) → parseHandshakeV10 payload = inl hs →
  hs_AuthPlugin hs = authCachingSha2 → has_flag (hs_Capabilities hs) capSSL = true →
  env_credential env (m_AssetID reg) = inl cred →
  AttemptTLS (classifySSLMode (m_SSLMode reg)) = true →
  env_tls env (m_UpstreamHost reg) (VerifyCert (classifySSLMode (m_SSLMode reg))) = inl rtls →
  readPacket rtls = (Ok (p, s2), r2) → at_byte p 0 = 1 → at_byte p 1 = 4 → (2 <= length p)%nat →
  (connectAndAuthUpstream env reg w).1 = Err full_auth_error.
Proof.
  intros Hi Hd Hf Hr Hp Hplug Hcap Hcred Hatt Htls Hr2 H0 H1 Hl.
  unfold connectAndAuthUpstream. rewrite Hd. cbv zeta.
  unfold bind at 1, wrap_err at 1, from_upstream, upstream_read, zoom. rewrite Hr, Hp, Hcred.
  set (w1 := Duplex _ _ _ _). destruct (packet_ok ToUpstream buildSSLRequest 1 w1 Hf) as [t Ht].
  assert (Hup : upgrade_upstream env reg (WrapIdleTimeout TCPConn (env_IdleTimeout env)) hs w1
    = (Ok (IdleTimeoutConn (TLSConn (IdleTimeoutConn TCPConn)), 2, true),
       Duplex (dx_client w1) rtls [] (dx_trace w1 ++ t))).
  { unfold upgrade_upstream. cbv zeta. rewrite Hatt, Hcap, Htls. cbn [andb].
    unfold bind, wrap_err, to_upstream. rewrite Ht. unfold switch_upstream, modify, ret, WrapIdleTimeout.
    by rewrite (proj2 (Z.leb_gt _ _)) by done. }
  unfold bind at 1. rewrite Hup, Hplug. rewrite (bool_decide_false (authCachingSha2 = [])) by done.
  set (w2 := Duplex _ _ _ _). set (resp := buildHandshakeResponse _ _ _ _ _ _).
  unfold bind at 1, wrap_err, to_upstream.
  destruct (packet_ok ToUpstream resp 2 w2 eq_refl) as [t2 ->].
  unfold bind. set (w3 := Duplex _ _ _ _). by rewrite (full_auth_stops _ _ _ _ w3 p s2 r2).
Qed.

Lemma mysql_conn_spec w :
  ∃ t o w', handleSessionConn env reg w = (o, w')
    ∧ dx_trace w' = dx_trace w
        ++ Enqueue (MarkProxyConnected (launchContext reg) (env_remote_addr env)) :: t ++ closing o
    ∧ forallb not_terminal t = true ∧ o ≠ OutOfFuel.
Proof.
  unfold handleSessionConn, enqueue, emit, modify, bind, try. set (w0 := Duplex _ _ _ _).
  destruct (calm_flow w0) as (t & Ht & Hc). pose proof (ends_flow w0) as He.
  destruct (runProxyFlow env reg w0) as [[[]|e|p|] w1]; cbn in *; try done; exists t;
    eexists _, _; (split_and!; [done| |done..]); cbn; rewrite Ht; cbn; rewrite ?app_nil_r;
    by rewrite <- !app_assoc.
Qed.

(** A query that mentions the variable is answered here. *)
Lemma query_cache_local st q : mentions_query_cache q = true → ∃ probe, local_answer st q = inl (probe, st).
Proof. unfold local_answer. intros ->. by eexists. Qed.
End AuthSpec.

(** * Properties *)

#[local] Existing Instance ascii_tables.

(** Inputs for the witnesses. *)
Section Samples.
Definition sample_reg (ssl : bytes) : SessionRegistration := {|
  m_SessionID := §"s1"; m_UserID := §"u1"; m_AssetID := §"a1"; m_AssetName := §"orders";
  m_Engine := §"mysql"; m_Database := §"shop"; m_SSLMode := ssl;
  m_UpstreamHost := §"10.0.0.7"; m_UpstreamPort := 3306; m_Username := §"svc";
  m_RequestID := §"rq" |}.
Definition sample_env (tls : reader + error) : environment := {|
  env_remote_addr := §"127.0.0.1:50000";
  env_QueryMaxBytes := 4096;
  env_IdleTimeout := 300;
  env_dial := None;
  env_credential := λ _, inl (Credential §"svc" §"pw");
  env_tls := λ _ _, tls;
  env_tls_config := false;
  env_client_tls := inr (Errorf §"no tls");
  env_random := inl (zeros 4, zeros 20);
  env_clock := λ n, Z.of_nat n |}.
Definition sample_packet (payload : bytes) (seq : Z) : bytes := packet_header payload seq ++ payload.
Definition sample_query (q : bytes) : bytes := z2b comQuery :: q.
(** An upstream greeting that asks for caching_sha2_password and offers TLS. *)
Definition sample_handshake : bytes :=
  [z2b 10] ++ §"8.0.36" ++ [z2b 0] ++ zeros 4 ++ zeros 8 ++ [z2b 0]
  ++ le_bytes 2 (Z.land (Z.lor base_caps (Z.lor capSSL capPluginAuth)) 65535)
  ++ [z2b 45] ++ le_bytes 2 2
  ++ le_bytes 2 (Z.shiftr (Z.lor base_caps (Z.lor capSSL capPluginAuth)) 16)
  ++ [z2b 21] ++ zeros 10 ++ zeros 13 ++ authCachingSha2 ++ [z2b 0].
End Samples.


(** Every entry of the query log is about a statement the client sent: an
    unprepared one carries the text of a non-blank COM_QUERY packet of this
    connection, a prepared one the text of one of its PREPARE packets. *)
Theorem query_log_names_sent_statements `{Unicode} env reg client up faults l :
  Enqueue (LogQuery l) ∈ dx_trace (forwardCommands env reg (Duplex client up faults [])).2 →
  ∃ k p, sent client p ∧
    ((is_query p = true ∧ l = queryLog env reg k (query_text p) §"simple" false)
     ∨ (at_byte p 0 = comStmtPrepare ∧ l = queryLog env reg k (query_text p) §"prepared" true)).
Proof.
  destruct (forwardCommands_spec env reg (Duplex client up faults [])) as (steps & Hs & -> & _).
  intros Hin. destruct (session_logs _ _ _ _ _ _ l Hs Hin) as (k & p & Hl). cbn [lp_cache dx_client] in Hl.
  destruct Hl as [(? & ? & ?)|[(? & ? & ?)|(i & q & Hi & _)]]; [by exists k, p; auto..|].
  by rewrite lookup_empty in Hi.
Qed.

Lemma query_log_names_sent_statements_witness :
  let client := Reader (sample_packet (sample_query §"delete from t") 0) io_EOF in
  let up := Reader (sample_packet (buildOKPacket 1 0 2 0) 1) io_EOF in
  let env := sample_env (inr io_EOF) in let reg := sample_reg [] in
  ∃ k p, sent client p ∧
    ((is_query p = true ∧ queryLog env reg 0 §"delete from t" §"simple" false
        = queryLog env reg k (query_text p) §"simple" false)
     ∨ (at_byte p 0 = comStmtPrepare ∧ queryLog env reg 0 §"delete from t" §"simple" false
          = queryLog env reg k (query_text p) §"prepared" true)).
Proof.
  intros client up env reg.
  apply (@query_log_names_sent_statements ascii_tables env reg client up [] _).
  assert (Hi : dx_trace (forwardCommands env reg (Duplex client up [] [])).2 !! 0%nat
    = Some (Enqueue (LogQuery (queryLog env reg 0 §"delete from t" §"simple" false))))
    by (vm_compute; reflexivity).
  by apply list_elem_of_lookup_2 in Hi.
Defined.

(** What may escape the query log: on every connection a non-blank
    COM_QUERY that leaves no entry is answered by the proxy alone (all its
    events are writes to the client), and at most twenty-four of them do not
    mention the query-cache variable. *)
Theorem unlogged_queries_never_run `{Unicode} env reg w :
  ∃ steps, session env reg (dx_client w) (length (dx_trace w)) (Loop ∅ true 0) steps
    ∧ dx_trace (forwardCommands env reg w).2 = dx_trace w ++ concat (steps.*2)
    ∧ (∀ step, step ∈ steps → unlogged step = true → forallb only_client step.2 = true)
    ∧ Z.of_nat (length (List.filter unlogged_probe steps)) <= 24.
Proof.
  destruct (forwardCommands_spec env reg w) as (steps & Hs & Ht & _). exists steps.
  split_and!; [done|done|by eapply session_unlogged|].
  apply session_probes in Hs; cbn in *; unfold startupProbeLimit in *; lia.
Qed.

(** The query-cache rule is too wide: any statement whose text contains
    "query_cache_size", in any phase of the session and in any position (a
    literal of a DELETE, say), is answered with a made-up result; it does not
    reach the server and does not reach the log. *)
Theorem query_cache_statements_never_run `{Unicode} env reg st payload seq w :
  is_query payload = true → mentions_query_cache (query_text payload) = true →
  ∃ t, dx_trace (handle_packet env reg st payload seq w).2 = dx_trace w ++ t
    ∧ forallb only_client t = true.
Proof.
  intros Hq Hm. assert (Hne : payload ≠ []) by by intros ->.
  destruct (handle_packet_spec env reg st payload seq w Hne) as (t & Ht & Hs & _).
  exists t. split; [done|]. unfold step_events in Hs. cbv zeta in Hs.
  rewrite bool_decide_false, Hq in Hs by done.
  destruct (query_cache_local st _ Hm) as [probe Hl]. by rewrite Hl in Hs.
Qed.

Lemma query_cache_statements_never_run_witness :
  let payload := sample_query §"DELETE FROM notes WHERE title = 'query_cache_size'" in
  ∃ t, dx_trace (handle_packet (sample_env (inr io_EOF)) (sample_reg []) (Loop ∅ false 24) payload 0
                   (Duplex (Reader [] io_EOF) (Reader [] io_EOF) [] [])).2 = [] ++ t
    ∧ forallb only_client t = true.
Proof.
  intros payload.
  exact (@query_cache_statements_never_run ascii_tables (sample_env (inr io_EOF)) (sample_reg [])
    (Loop ∅ false 24) payload 0 (Duplex (Reader [] io_EOF) (Reader [] io_EOF) [] [])
    ltac:(vm_compute; reflexivity) ltac:(vm_compute; reflexivity)).
Defined.

(** Full caching_sha2_password authentication never works: with the idle
    timeout the service always configures, the TLS connection is wrapped before
    it is asked whether it is one, so an upstream that asks for the password
    over an established TLS connection is refused with the advice to turn TLS
    on. *)
Theorem full_auth_fails_over_tls `{Unicode} env reg w hs cred payload s r rtls p s2 r2 :
  0 < env_IdleTimeout env → env_dial env = None → dx_faults w = [] →
  readPacket (dx_upstream w) = (Ok (payload, s), r) → parseHandshakeV10 payload = inl hs →
  hs_AuthPlugin hs = authCachingSha2 → has_flag (hs_Capabilities hs) capSSL = true →
  env_credential env (m_AssetID reg) = inl cred →
  AttemptTLS (classifySSLMode (m_SSLMode reg)) = true →
  env_tls env (m_UpstreamHost reg) (VerifyCert (classifySSLMode (m_SSLMode reg))) = inl rtls →
  readPacket rtls = (Ok (p, s2), r2) → at_byte p 0 = 1 → at_byte p 1 = 4 → (2 <= length p)%nat →
  (connectAndAuthUpstream env reg w).1 = Err full_auth_error.
Proof. apply full_auth_fails. Qed.

Lemma full_auth_fails_over_tls_witness :
  let tls := Reader (sample_packet [z2b 1; z2b 4] 3) io_EOF in
  let w := Duplex (Reader [] io_EOF) (Reader (sample_packet sample_handshake 0) io_EOF) [] [] in
  (connectAndAuthUpstream (sample_env (inl tls)) (sample_reg §"require") w).1 = Err full_auth_error.
Proof.
  intros tls w.
  refine (@full_auth_fails_over_tls ascii_tables (sample_env (inl tls)) (sample_reg §"require") w
    (default (Build_handshakeV10 0 [] 0 [] 0 0 0 []) (match parseHandshakeV10 sample_handshake with inl h => Some h | _ => None end))
    (Credential §"svc" §"pw") sample_handshake 0 (Reader [] io_EOF) tls [z2b 1; z2b 4] 3 (Reader [] io_EOF)
    _ _ _ _ _ _ _ _ _ _ _ _ _ _); vm_compute; try reflexivity; lia.
Defined.

(** A required TLS protects the credential: when the asset's ssl_mode
    requires TLS and the handshake cannot be completed, the connection to the
    upstream fails, and all that is ever written to it is (a prefix of) the
    credential-free request for TLS, whatever the upstream sends. *)
Theorem required_tls_protects_the_credential `{Unicode} env reg w e :
  RequireTLS (classifySSLMode (m_SSLMode reg)) = true →
  env_tls env (m_UpstreamHost reg) (VerifyCert (classifySSLMode (m_SSLMode reg))) = inr e →
  adds ssl_request_only w (connectAndAuthUpstream env reg w).2
  ∧ (connectAndAuthUpstream env reg w).1 ≠ Ok tt.
Proof. intros Hr Ht. destruct (connect_refused env reg e Hr Ht) as [Hk Hn]. split; auto. Qed.

Lemma required_tls_protects_the_credential_witness :
  let w := Duplex (Reader [] io_EOF) (Reader (sample_packet sample_handshake 0) io_EOF) [] [] in
  let env := sample_env (inr (Errorf §"bad certificate")) in let reg := sample_reg §"verify-full" in
  adds ssl_request_only w (connectAndAuthUpstream env reg w).2
  ∧ (connectAndAuthUpstream env reg w).1 ≠ Ok tt.
Proof.
  intros w env reg.
  apply (@required_tls_protects_the_credential ascii_tables env reg w (Errorf §"bad certificate"));
    vm_compute; reflexivity.
Defined.

(** Every connection is marked on the session record: first
    [MarkProxyConnected], then no terminal mark until the last event, which is
    [MarkEnded] when the handler returns no error and [MarkFailed] when it
    does; only a panic leaves the session without one.  The handler always
    ends: handshake, authentication exchange and command loop. *)
Theorem mysql_connection_is_marked_once `{Unicode} env reg w :
  ∃ t o w', handleSessionConn env reg w = (o, w')
    ∧ dx_trace w' = dx_trace w
        ++ Enqueue (MarkProxyConnected (launchContext reg) (env_remote_addr env)) :: t ++ closing reg o
    ∧ forallb not_terminal t = true ∧ o ≠ OutOfFuel.
Proof. apply mysql_conn_spec. Qed.
