(* ===== verification/PgWire.v ===== *)
(** The PostgreSQL wire format of the PostgreSQL proxy
    (apps/api/internal/pgproxy/server.go): startup packets, messages, the
    fields the proxy reads from them, the computations of MD5 and
    SCRAM-SHA-256 authentication, and the classification of the TLS mode. *)
From S2P Require Import Prelude GoStrings GoBinary GoIO GoCrypto GoEncoding.

Definition protocolVersion3 : Z := 196608.
Definition sslRequestCode : Z := 80877103.

(** [binary.BigEndian.Uint32(p[:4])], and [binary.BigEndian.PutUint32]. *)
Definition uint32_at (p : bytes) : Z := be_value (take 4 p).
Definition int32ToBytes (v : Z) : bytes := be_bytes 4 v.

(** * Startup packets *)

Definition readStartupPacket : M reader bytes :=
  let! lenBuf := ReadFull 4 in
  let totalLen := be_value lenBuf in
  if totalLen <? 8 then fail (Errorf §"invalid startup packet length")
  else ReadFull (totalLen - 4).

Fixpoint startup_params (parts : list bytes) (params : gmap bytes bytes) : gmap bytes bytes :=
  match parts with
  | k :: v :: rest =>
      if bool_decide (TrimSpace k = []) then params
      else startup_params rest (<[TrimSpace k := TrimSpace v]> params)
  | _ => params
  end.
Definition parseStartupParams (raw : bytes) : gmap bytes bytes :=
  startup_params (SplitByte raw "000"%byte) ∅.

Definition startup_field (kv : bytes * bytes) : bytes :=
  if bool_decide (TrimSpace kv.2 = []) then []
  else kv.1 ++ "000"%byte :: TrimSpace kv.2 ++ ["000"%byte].
(** The payload [writeStartupPacket] sends after the length. *)
Definition startup_payload (params : gmap bytes bytes) : bytes :=
  let keys := sort_strings (filter (λ k, TrimSpace k ≠ []) (map_to_list params).*1) in
  int32ToBytes protocolVersion3
  ++ concat (map (λ k, startup_field (k, default [] (params !! k))) keys) ++ ["000"%byte].

Section Writers.
Context {E : Type} (side : bytes → effect E).

Definition writeStartupPacket (params : gmap bytes bytes) : M (duplex E) unit :=
  let payload := startup_payload params in
  do! write_to side (int32ToBytes (wrap 32 (zlen payload + 4))) in
  write_to side payload.

Definition writeSSLRequest : M (duplex E) unit :=
  write_to side (int32ToBytes 8 ++ int32ToBytes sslRequestCode).

(** [writeFrontendMessage] and [writeBackendMessage]: up to three writes. *)
Definition write_message (msgType : byte) (payload : bytes) : M (duplex E) unit :=
  do! write_to side [msgType] in
  do! write_to side (int32ToBytes (wrap 32 (zlen payload + 4))) in
  if bool_decide (payload = []) then ret tt else write_to side payload.
End Writers.

(** * Messages *)

(** [readFrontendMessage] and [readBackendMessage]. *)
Definition read_message : M reader (byte * bytes) :=
  let! typeBuf := ReadFull 1 in
  let! lenBuf := ReadFull 4 in
  let totalLen := be_value lenBuf in
  if totalLen <? 4 then fail (Errorf §"invalid frontend message length")
  else let! payload := ReadFull (totalLen - 4) in
       ret (default "000"%byte (head typeBuf), payload).

(** The bytes of a message on the wire. *)
Definition message (m : byte * bytes) : bytes :=
  m.1 :: int32ToBytes (wrap 32 (zlen m.2 + 4)) ++ m.2.

Definition parseQueryPayload (payload : bytes) : bytes :=
  if bool_decide (payload = []) then [] else TrimSpace (TrimSuffix payload ["000"%byte]).

(** [strings.Join]. *)
Fixpoint Join (l : list bytes) (sep : bytes) : bytes :=
  match l with [] => [] | [x] => x | x :: t => x ++ sep ++ Join t sep end.

Definition error_field (part : bytes) : option bytes :=
  match part with
  | b :: ((_ :: _) as t) => if bool_decide (b = "M"%byte) then Some t else None
  | _ => None
  end.
Definition parseErrorResponse (payload : bytes) : bytes :=
  if bool_decide (payload = []) then §"unknown upstream error"
  else let msgs := omap error_field (SplitByte payload "000"%byte) in
       if bool_decide (msgs = []) then §"unknown upstream error" else Join msgs §"; ".

Definition parseParseMessage (payload : bytes) : bytes * bytes :=
  match IndexByte payload "000"%byte with
  | None => ([], [])
  | Some i =>
      let rest := drop (S i) payload in
      match IndexByte rest "000"%byte with
      | None => (take i payload, rest)
      | Some j => (take i payload, TrimSpace (take j rest))
      end
  end.

Definition parseExecuteMessage (payload : bytes) : bytes :=
  match IndexByte payload "000"%byte with
  | None => []
  | Some i => take i payload
  end.

Definition parseCloseMessage (payload : bytes) : byte * bytes :=
  match payload with
  | target :: ((_ :: _) as rest) =>
      match IndexByte rest "000"%byte with
      | None => (target, rest)
      | Some i => (target, take i rest)
      end
  | _ => ("000"%byte, [])
  end.

(** * Authentication *)

Definition postgresMD5Password (password username salt : bytes) : bytes :=
  §"md5" ++ hex (md5 (hex (md5 (password ++ username)) ++ salt)).

Definition buildSASLInitialResponse (mechanism data : bytes) : bytes :=
  mechanism ++ "000"%byte :: int32ToBytes (wrap 32 (zlen data)) ++ data.

(** The loop of [parseServerFirst] over the attributes; a nil salt is [None]. *)
Fixpoint server_first_loop (attrs : list bytes) (nonce : bytes) (salt : option bytes) (iterations : Z)
    : (bytes * option bytes * Z) + error :=
  match attrs with
  | [] => inl (nonce, salt, iterations)
  | attr :: rest =>
      if HasPrefix attr §"r=" then server_first_loop rest (drop 2 attr) salt iterations
      else if HasPrefix attr §"s=" then
        match std_decode (drop 2 attr) with
        | None => inr (Errorf §"decode salt")
        | Some s => server_first_loop rest nonce (Some s) iterations
        end
      else if HasPrefix attr §"i=" then
        match Atoi (drop 2 attr) with
        | None => inr (Errorf §"parse iterations")
        | Some i => server_first_loop rest nonce salt i
        end
      else server_first_loop rest nonce salt iterations
  end.
Definition parseServerFirst (msg : bytes) : (bytes * bytes * Z) + error :=
  match server_first_loop (SplitByte msg ",") [] None 0 with
  | inr e => inr e
  | inl (nonce, salt, iterations) =>
      match salt with
      | Some s =>
          if bool_decide (nonce = []) || (iterations =? 0)
          then inr (Errorf §"incomplete server-first-message") else inl (nonce, s, iterations)
      | None => inr (Errorf §"incomplete server-first-message")
      end
  end.

Definition xor_bytes (a b : bytes) : bytes := zip_with (λ x y, z2b (Z.lxor (b2z x) (b2z y))) a b.

Definition scramHMAC (key data : bytes) : bytes := hmac_sha256 key data.

(** The loop of [scramHi]: [n] more rounds from [u]. *)
Fixpoint hi_loop (n : nat) (password u result : bytes) : bytes :=
  match n with
  | O => result
  | S k => let u := hmac_sha256 password u in hi_loop k password u (xor_bytes result u)
  end.
Definition scramHi (password salt : bytes) (iterations : Z) : bytes :=
  let u := hmac_sha256 password (salt ++ int32ToBytes 1) in
  hi_loop (Z.to_nat (iterations - 1)) password u u.

Definition scramSaslName (s : bytes) : bytes :=
  ReplaceByte (ReplaceByte s "=" §"=3D") "," §"=2C".
Definition scramSaslPrep (s : bytes) : bytes := s.

(** * Utility functions *)

Definition truncate (v : bytes) (max : Z) : bytes :=
  if (max <=? 0) || (zlen v <=? max) then v else take (Z.to_nat max) v.

Record sslModeConfig := SSLMode { AttemptTLS : bool; RequireTLS : bool; VerifyCert : bool }.

Section Modes.
Context `{Unicode}.

Definition normalizeEngine (engine : bytes) : bytes :=
  let normalized := ToLower (TrimSpace engine) in
  if bool_decide (normalized ∈ [§""; §"postgres"; §"postgresql"]) then §"postgres" else normalized.

Definition classifySSLMode (raw : bytes) : sslModeConfig :=
  let mode := ToLower (TrimSpace raw) in
  if bool_decide (mode = §"disable") then SSLMode false false false
  else if bool_decide (mode ∈ [§"allow"; §"prefer"; §""]) then SSLMode true false false
  else if bool_decide (mode = §"require") then SSLMode true true false
  else if bool_decide (mode ∈ [§"verify-ca"; §"verify-full"]) then SSLMode true true true
  else SSLMode true false false.
End Modes.
