(* ===== verification/Pg.v ===== *)
(** The PostgreSQL proxy (apps/api/internal/pgproxy/server.go): the start of a
    client connection, the authentication to the upstream with SCRAM-SHA-256,
    and the two goroutines that relay afterwards.

    The relay itself is that of Relay.v.  Loops over messages are bounded by the
    unread bytes of the side they read; the specification proves that the bound
    never stops one. *)
From S2P Require Import Prelude GoStrings GoBinary GoIO GoCrypto GoEncoding ProxyEvents ProxyRuns Relay PgWire.

Record SessionRegistration := {
  p_SessionID : bytes;
  p_UserID : bytes;
  p_AssetID : bytes;
  p_AssetName : bytes;
  p_Engine : bytes;
  p_Database : bytes;
  p_SSLMode : bytes;
  p_UpstreamHost : bytes;
  p_UpstreamPort : Z;
  p_Username : bytes;
  p_RequestID : bytes;
}.

(** [preparedStmtCache]: statement text by the client's name. *)
Abbreviation cache := (gmap bytes bytes).

Record environment := {
  env_remote_addr : bytes;
  env_QueryMaxBytes : Z;
  env_dial : option error;
  env_credential : bytes → credential + error;
  (** The TLS handshake with the upstream, given the server name and whether
      the certificate is verified: the decrypted stream. *)
  env_tls : bytes → bool → reader + error;
  (** The proxy's own certificate, and the TLS handshake with the client. *)
  env_tls_config : bool;
  env_client_tls : reader + error;
  (** The random bytes of the SCRAM nonce. *)
  env_random : bytes + error;
  env_clock : nat → Z;
  env_schedule : list turn;
}.

(** [RegisterSession] up to the listener. *)
Definition normalizeRegistration (reg : SessionRegistration) : SessionRegistration + error :=
  let reg := {|
    p_SessionID := TrimSpace (p_SessionID reg);
    p_UserID := TrimSpace (p_UserID reg);
    p_AssetID := TrimSpace (p_AssetID reg);
    p_AssetName := TrimSpace (p_AssetName reg);
    p_Engine := TrimSpace (p_Engine reg);
    p_Database := TrimSpace (p_Database reg);
    p_SSLMode := TrimSpace (p_SSLMode reg);
    p_UpstreamHost := TrimSpace (p_UpstreamHost reg);
    p_UpstreamPort := p_UpstreamPort reg;
    p_Username := TrimSpace (p_Username reg);
    p_RequestID := TrimSpace (p_RequestID reg) |} in
  if bool_decide (p_SessionID reg = []) || bool_decide (p_UserID reg = [])
     || bool_decide (p_AssetID reg = [])
  then inr (Errorf §"session_id, user_id, and asset_id are required")
  else if bool_decide (p_UpstreamHost reg = []) || (p_UpstreamPort reg <=? 0)
          || (65535 <? p_UpstreamPort reg)
  then inr (Errorf §"upstream host and port are required")
  else if bool_decide (p_Username reg = [])
  then inr (Errorf §"upstream username is required")
  else inl {|
    p_SessionID := p_SessionID reg;
    p_UserID := p_UserID reg;
    p_AssetID := p_AssetID reg;
    p_AssetName := p_AssetName reg;
    p_Engine := if bool_decide (p_Engine reg = []) then §"postgres" else p_Engine reg;
    p_Database := p_Database reg;
    p_SSLMode := p_SSLMode reg;
    p_UpstreamHost := p_UpstreamHost reg;
    p_UpstreamPort := p_UpstreamPort reg;
    p_Username := p_Username reg;
    p_RequestID := p_RequestID reg |}.

Definition launchContext (reg : SessionRegistration) : LaunchContext := {|
  l_SessionID := p_SessionID reg;
  l_UserID := p_UserID reg;
  l_AssetID := p_AssetID reg;
  l_AssetName := p_AssetName reg;
  l_RequestID := p_RequestID reg;
  l_Action := §"dbeaver";
  l_Protocol := ProtocolDB;
  l_AssetType := TypeDatabase;
  l_Host := p_UpstreamHost reg;
  l_Port := p_UpstreamPort reg;
  l_UpstreamUsername := p_Username reg;
  l_Status := [];
  l_ExpiresAt := 0 |}.

Definition from_client : M world (byte * bytes) := client_read read_message.
Definition from_upstream : M world (byte * bytes) := upstream_read read_message.
Definition to_client : byte → bytes → M world unit := write_message ToClient.
Definition to_upstream : byte → bytes → M world unit := write_message ToUpstream.

(** From here on a stream is the decrypted one. *)
Definition switch_upstream (r : reader) : M world unit :=
  modify (λ w, Duplex (dx_client w) r (dx_faults w) (dx_trace w)).
Definition switch_client (r : reader) : M world unit :=
  modify (λ w, Duplex r (dx_upstream w) (dx_faults w) (dx_trace w)).

(** * The client's startup *)

(** [readClientStartup]: the parameters. *)
Fixpoint client_startup (fuel : nat) : M world (gmap bytes bytes) :=
  match fuel with
  | O => nofuel
  | S f =>
      let! payload := client_read readStartupPacket in
      if (length payload <? 4)%nat then fail (Errorf §"invalid startup payload")
      else if uint32_at payload =? sslRequestCode then
        do! client_write §"N" in client_startup f
      else if uint32_at payload =? protocolVersion3 then ret (parseStartupParams (drop 4 payload))
      else fail (Errorf §"unsupported startup code")
  end.
Definition readClientStartup : M world (gmap bytes bytes) :=
  let! k := client_left in client_startup (S k).

Section Service.
Context `{Unicode} (env : environment) (reg : SessionRegistration).

Definition negotiateClientConn : M world (gmap bytes bytes) :=
  let! payload := client_read readStartupPacket in
  if (length payload <? 4)%nat then fail (Errorf §"invalid startup payload")
  else if uint32_at payload =? sslRequestCode then
    if negb (env_tls_config env) then do! client_write §"N" in readClientStartup
    else
      do! client_write §"S" in
      match env_client_tls env with
      | inr e => fail (Wrap §"client tls handshake failed" e)
      | inl r => do! switch_client r in readClientStartup
      end
  else if uint32_at payload =? protocolVersion3 then ret (parseStartupParams (drop 4 payload))
  else fail (Errorf §"unsupported startup code").

(** * The upstream *)

Definition connectUpstream : M world unit :=
  match env_dial env with
  | Some e => fail e
  | None =>
      let sslCfg := classifySSLMode (p_SSLMode reg) in
      if negb (AttemptTLS sslCfg) then ret tt
      else
        do! wrap_err §"send upstream ssl request" (writeSSLRequest ToUpstream) in
        let! reply := wrap_err §"read upstream ssl reply" (upstream_read (ReadFull 1)) in
        if negb (bool_decide (reply = §"S")) then
          if RequireTLS sslCfg then fail (Errorf §"upstream refused tls") else ret tt
        else match env_tls env (p_UpstreamHost reg) (VerifyCert sslCfg) with
             | inr e => fail (Wrap §"upstream tls handshake failed" e)
             | inl r => switch_upstream r
             end
  end.

(** One SASL message of the upstream, of the given code: its body. *)
Definition sasl_message (code : Z) (reading during expected : bytes) : M world bytes :=
  let! (msgType, payload) := wrap_err reading from_upstream in
  if bool_decide (msgType = "E"%byte)
  then fail (Errorf (§"upstream error during " ++ during ++ §": " ++ parseErrorResponse payload))
  else if negb (bool_decide (msgType = "R"%byte)) || (length payload <? 4)%nat
  then fail (Errorf §"unexpected message during SCRAM")
  else if negb (uint32_at payload =? code) then fail (Errorf expected)
  else ret (drop 4 payload).
Definition sasl_continue : M world bytes :=
  sasl_message 11 §"read sasl continue" §"SCRAM" §"expected AuthenticationSASLContinue(11)".
Definition sasl_final : M world bytes :=
  sasl_message 12 §"read sasl final" §"SCRAM final" §"expected AuthenticationSASLFinal(12)".

(** The AuthenticationOk after the exchange.  The text of the last error reads
    [payload\[:4\]] whatever the length, and a slice beyond the capacity
    panics. *)
Definition sasl_ok : M world unit :=
  let! (msgType, payload) := wrap_err §"read auth ok after SCRAM" from_upstream in
  if bool_decide (msgType = "E"%byte)
  then fail (Errorf (§"upstream error after SCRAM: " ++ parseErrorResponse payload))
  else if negb (bool_decide (msgType = "R"%byte)) || (length payload <? 4)%nat
          || negb (uint32_at payload =? 0)
  then if (length payload <? 4)%nat
       then panic §"runtime error: slice bounds out of range"
       else fail (Errorf §"expected AuthenticationOk after SCRAM")
  else ret tt.

(** What the exchange computes from the nonces and the password. *)
Definition clientFirstBare (username clientNonce : bytes) : bytes :=
  §"n=" ++ scramSaslName username ++ §",r=" ++ clientNonce.
Definition clientFinalWithoutProof (serverNonce : bytes) : bytes :=
  §"c=" ++ std_encode §"n,," ++ §",r=" ++ serverNonce.
Definition authMessage (username clientNonce serverFirstMsg serverNonce : bytes) : bytes :=
  clientFirstBare username clientNonce ++ §"," ++ serverFirstMsg ++ §","
  ++ clientFinalWithoutProof serverNonce.
Definition clientProof (saltedPassword message : bytes) : bytes :=
  let clientKey := scramHMAC saltedPassword §"Client Key" in
  xor_bytes clientKey (scramHMAC (sha256 clientKey) message).
Definition serverSignature (saltedPassword message : bytes) : bytes :=
  scramHMAC (scramHMAC saltedPassword §"Server Key") message.

Definition handleSCRAMAuth (mechanisms username password : bytes) : M world unit :=
  if negb (bool_decide (§"SCRAM-SHA-256"
             ∈ SplitByte (TrimRightByte mechanisms "000"%byte) "000"%byte))
  then fail (Errorf §"server does not support SCRAM-SHA-256")
  else match env_random env with
  | inr e => fail (Wrap §"generate nonce" e)
  | inl nonceBytes =>
      let clientNonce := std_encode nonceBytes in
      let clientFirstMsg := §"n,," ++ clientFirstBare username clientNonce in
      do! wrap_err §"send sasl initial response"
            (to_upstream "p" (buildSASLInitialResponse §"SCRAM-SHA-256" clientFirstMsg)) in
      let! serverFirstMsg := sasl_continue in
      match parseServerFirst serverFirstMsg with
      | inr e => fail (Wrap §"parse server-first" e)
      | inl (serverNonce, salt, iterations) =>
          if negb (HasPrefix serverNonce clientNonce)
          then fail (Errorf §"server nonce does not start with client nonce")
          else
            let saltedPassword := scramHi (scramSaslPrep password) salt iterations in
            let message := authMessage username clientNonce serverFirstMsg serverNonce in
            let clientFinalMsg := clientFinalWithoutProof serverNonce ++ §",p="
                                  ++ std_encode (clientProof saltedPassword message) in
            do! wrap_err §"send sasl response" (to_upstream "p" clientFinalMsg) in
            let! serverFinalMsg := sasl_final in
            if negb (HasPrefix serverFinalMsg §"v=")
            then fail (Errorf §"invalid server-final-message")
            else match std_decode (drop 2 serverFinalMsg) with
                 | None => fail (Errorf §"decode server signature")
                 | Some serverSig =>
                     if negb (bool_decide (serverSig = serverSignature saltedPassword message))
                     then fail (Errorf §"server signature mismatch")
                     else sasl_ok
                 end
      end
  end.

(** One authentication request. *)
Definition answer_auth (payload username password : bytes) : M world unit :=
  if (length payload <? 4)%nat then fail (Errorf §"invalid authentication payload")
  else if uint32_at payload =? 0 then ret tt
  else if uint32_at payload =? 3 then to_upstream "p" (password ++ ["000"%byte])
  else if uint32_at payload =? 5 then
    if (length payload <? 8)%nat then fail (Errorf §"invalid md5 auth payload")
    else to_upstream "p"
           (postgresMD5Password password username (take 4 (drop 4 payload)) ++ ["000"%byte])
  else if uint32_at payload =? 10 then
    wrap_err §"scram auth" (handleSCRAMAuth (drop 4 payload) username password)
  else fail (Errorf §"unsupported upstream auth method").

(** [authenticateUpstream]: the messages up to ReadyForQuery. *)
Fixpoint authenticate_loop (fuel : nat) (username password : bytes) (startupMessages : list (byte * bytes))
    : M world (list (byte * bytes)) :=
  match fuel with
  | O => nofuel
  | S f =>
      let! (msgType, payload) := from_upstream in
      if bool_decide (msgType = "R"%byte) then
        do! answer_auth payload username password in
        authenticate_loop f username password startupMessages
      else if bool_decide (msgType = "E"%byte) then
        fail (Errorf (§"upstream error: " ++ parseErrorResponse payload))
      else
        let startupMessages := startupMessages ++ [(msgType, payload)] in
        if bool_decide (msgType = "Z"%byte) then ret startupMessages
        else authenticate_loop f username password startupMessages
  end.
Definition authenticateUpstream (username password : bytes) : M world (list (byte * bytes)) :=
  let! k := upstream_left in authenticate_loop (S k) username password [].

(** * The query log *)

Definition queryLog (at_ : nat) (q ptype : bytes) (prepared : bool) : queryLogEvent := {|
  q_SessionID := p_SessionID reg;
  q_UserID := p_UserID reg;
  q_AssetID := p_AssetID reg;
  q_RequestID := p_RequestID reg;
  q_Engine := normalizeEngine (p_Engine reg);
  q_Query := truncate q (env_QueryMaxBytes env);
  q_EventTime := env_clock env at_;
  q_ProtocolType := ptype;
  q_Prepared := prepared |}.
Definition enqueueQueryLog (q ptype : bytes) (prepared : bool) : M world unit :=
  let! w := get in enqueue (LogQuery (queryLog (length (dx_trace w)) q ptype prepared)).

(** The switch of [forwardClientMessages]: the statement cache afterwards, and
    what is logged (the text, and whether it ran as a prepared statement). *)
Definition observe (c : cache) (msgType : byte) (payload : bytes) : cache * option (bytes * bytes * bool) :=
  if bool_decide (msgType = "Q"%byte) then
    let query := parseQueryPayload payload in
    (c, if bool_decide (query = []) then None else Some (query, §"simple", false))
  else if bool_decide (msgType = "P"%byte) then
    let '(name, query) := parseParseMessage payload in
    (if bool_decide (query = []) then c else <[name := query]> c, None)
  else if bool_decide (msgType = "E"%byte) then
    let stmtName := parseExecuteMessage payload in
    match c !! stmtName with
    | Some query =>
        (c, if bool_decide (query = []) then None
            else Some (query, §"extended", negb (bool_decide (stmtName = []))))
    | None => (c, None)
    end
  else if bool_decide (msgType = "C"%byte) then
    let '(target, name) := parseCloseMessage payload in
    (if bool_decide (target = "S"%byte) then delete name c else c, None)
  else (c, None).

(** One pass of the loop: the cache, or [None] after Terminate. *)
Definition forward_message (c : cache) : M world (option cache) :=
  let! (msgType, payload) := from_client in
  let '(c', entry) := observe c msgType payload in
  do! match entry with
      | Some (q, ptype, prepared) => enqueueQueryLog q ptype prepared
      | None => ret tt
      end in
  do! to_upstream msgType payload in
  ret (if bool_decide (msgType = "X"%byte) then None else Some c').

Definition forwardClientMessages : cache → M world unit := forward_all forward_message.

(** * A session *)

(** The parameters sent to the upstream. *)
Definition upstreamParams (params : gmap bytes bytes) : gmap bytes bytes :=
  let database := if bool_decide (p_Database reg = [])
                  then TrimSpace (default [] (params !! §"database")) else p_Database reg in
  let startupParams := <[§"user" := p_Username reg]> params in
  if bool_decide (database = []) then startupParams else <[§"database" := database]> startupParams.

Fixpoint write_messages (msgs : list (byte * bytes)) : M world unit :=
  match msgs with
  | [] => ret tt
  | (t, p) :: rest => do! wrap_err §"write startup msg" (to_client t p) in write_messages rest
  end.

(** [runProxyFlow]: an error before the relay fails; the relay's result comes
    with what is left of the goroutines. *)
Definition runProxyFlow : M world (option error * relay_state cache * list turn) :=
  let! params := wrap_err §"read startup" negotiateClientConn in
  do! wrap_err §"connect upstream" connectUpstream in
  match env_credential env (p_AssetID reg) with
  | inr e => fail (Wrap §"resolve db credential" e)
  | inl cred =>
      do! enqueue (RecordCredentialUsage (launchContext reg) §"db_password" §"proxy_upstream_auth"
                     (p_RequestID reg)) in
      do! wrap_err §"forward startup" (writeStartupPacket ToUpstream (upstreamParams params)) in
      let! startupMsgs := wrap_err §"upstream auth" (authenticateUpstream (p_Username reg) (cr_Secret cred)) in
      do! wrap_err §"write client auth ok" (to_client "R" (int32ToBytes 0)) in
      do! write_messages startupMsgs in
      let! (r, st, rest) := relay forward_message (env_schedule env) (Relay (Running ∅) (Running tt)) in
      ret (match r with
           | Some e => if errors_is e §"io.EOF" then None else Some e
           | None => None
           end, st, rest)
  end.

Definition handleSessionConn : M world unit :=
  session_conn forward_message (launchContext reg) (env_remote_addr env) runProxyFlow.
End Service.
