(* ===== verification/PgSpec.v ===== *)
(** The PostgreSQL proxy's specification: messages and startup packets on the
    wire, the relay as a session of messages under every schedule, what
    authentication writes and accepts, and the marks of a connection. *)
From Stdlib Require Import Sorting.Permutation.
From S2P Require Import Prelude GoStrings GoBinary GoIO GoCrypto GoEncoding GoNet GoTexts ProxyEvents ProxyRuns Relay PgWire Pg.

(** * Integers on the wire *)

Lemma uint32_at_bytes z p : 0 <= z < 2 ^ 32 → uint32_at (int32ToBytes z ++ p) = z.
Proof.
  intros Hz. unfold uint32_at, int32ToBytes. rewrite take_app_length' by (by rewrite length_be_bytes).
  rewrite be_value_bytes. by apply Z.mod_small.
Qed.

(** * Messages *)

Lemma read_message_keeps : keeps consumed read_message.
Proof.
  unfold read_message. apply keeps_bind; [apply _|apply ReadFull_keeps|]. intros t.
  apply keeps_bind; [apply _|apply ReadFull_keeps|]. intros l. cbv zeta.
  case_match; [apply keeps_fail, _|].
  apply keeps_bind; [apply _|apply ReadFull_keeps|]. intros p. apply keeps_ret, _.
Qed.
Lemma read_message_ends r : (read_message r).1 ≠ OutOfFuel.
Proof.
  unfold read_message, bind. assert (HF : ∀ n r, (ReadFull n r).1 ≠ OutOfFuel).
  { intros n r0. unfold ReadFull. case_match; [done|]. by destruct (rd_buf r0). }
  pose proof (HF 1 r) as H1. destruct (ReadFull 1 r) as [[t| | |] r1]; try done.
  pose proof (HF 4 r1) as H2. destruct (ReadFull 4 r1) as [[l| | |] r2]; try done. cbv zeta.
  case_match; [done|]. pose proof (HF (be_value l - 4) r2) as H3.
  by destruct (ReadFull (be_value l - 4) r2) as [[p| | |] r3].
Qed.

(** What was read is what the message is on the wire. *)
Lemma read_message_exact r m r' :
  read_message r = (Ok m, r') →
  rd_buf r = message m ++ rd_buf r' ∧ rd_end r' = rd_end r ∧ zlen m.2 + 4 < 2 ^ 32.
Proof.
  unfold read_message. intros H. apply bind_ok in H as (t & r1 & H1 & H).
  apply bind_ok in H as (l & r2 & H2 & H). cbv zeta in H.
  destruct (be_value l <? 4) eqn:E; [done|]. gobool.
  apply bind_ok in H as (p & r3 & H3 & H). injection H as <- <-.
  pose proof (ReadFull_length _ _ _ _ H1) as L1. pose proof (ReadFull_length _ _ _ _ H2) as L2.
  pose proof (ReadFull_length _ _ _ _ H3) as L3.
  apply ReadFull_exact in H1 as [E1 F1], H2 as [E2 F2], H3 as [E3 F3].
  pose proof (be_value_range l L2) as Hr.
  assert (Hl : zlen p + 4 = be_value l) by (unfold zlen; lia).
  rewrite E1, E2, E3. split_and!; [|congruence|cbn; lia].
  destruct t as [|b [|]]; try discriminate L1. unfold message. cbn [fst snd head default].
  unfold int32ToBytes. rewrite Hl, wrap_small, be_bytes_value by done. cbn. by rewrite <- !app_assoc.
Qed.
Lemma read_message_takes : takes read_message.
Proof.
  intros r m r' H. apply read_message_exact in H as (-> & _). rewrite length_app. cbn [length message]. lia.
Qed.

Lemma read_message_app m t e :
  zlen m.2 + 4 < 2 ^ 32 → read_message (Reader (message m ++ t) e) = (Ok m, Reader t e).
Proof.
  intros Hl. destruct m as [b p]. cbn [snd] in Hl. pose proof (zlen_nonneg p).
  unfold read_message, message, bind. cbn [fst snd].
  change ((b :: int32ToBytes (wrap 32 (zlen p + 4)) ++ p) ++ t)
    with ([b] ++ ((int32ToBytes (wrap 32 (zlen p + 4)) ++ p) ++ t)).
  rewrite ReadFull_app by done. rewrite <- app_assoc.
  rewrite ReadFull_app by apply length_be_bytes. cbv zeta.
  unfold int32ToBytes. rewrite be_value_bytes, wrap_small, Z.mod_small by lia.
  rewrite (proj2 (Z.ltb_ge _ _)) by lia.
  rewrite ReadFull_app by (unfold zlen; lia). done.
Qed.

Lemma pg_from_client_ends : ends from_client.
Proof. apply ends_client_read, read_message_ends. Qed.
Lemma pg_from_upstream_ends : ends from_upstream.
Proof. apply ends_read, read_message_ends. Qed.
Lemma pg_from_client_progresses : progresses unread_client from_client.
Proof. apply client_read_progresses, read_message_takes. Qed.
Lemma pg_from_upstream_progresses : progresses unread_upstream from_upstream.
Proof. apply upstream_read_progresses, read_message_takes. Qed.
Lemma pg_from_client_shrinks : keeps shrinks from_client.
Proof. apply shrinks_client_read, read_message_keeps. Qed.
Lemma pg_from_upstream_shrinks : keeps shrinks from_upstream.
Proof. apply shrinks_upstream_read, read_message_keeps. Qed.

Lemma sends_message side k p : sends side (message (k, p)) (write_message side k p).
Proof.
  unfold write_message, message. cbn [fst snd].
  apply (sends_then side [k]); [apply sends_write|]. apply sends_then; [apply sends_write|].
  case_bool_decide; [subst; apply sends_nothing|apply sends_write].
Qed.

(** * The frontend goroutine *)

Section Front.
Context `{Unicode} (env : environment) (reg : SessionRegistration).

Definition log_entry (n : nat) (entry : option (bytes * bytes * bool)) : list event :=
  match entry with
  | Some (q, ptype, prepared) => [Enqueue (LogQuery (queryLog env reg n q ptype prepared))]
  | None => []
  end.

(** The protocol of the frontend goroutine: its state is the statement cache. *)
Definition pg_protocol : protocol cache (byte * bytes) := {|
  wire := message;
  readable := λ m, zlen m.2 + 4 < 2 ^ 32;
  note := λ n c m, log_entry n (observe c m.1 m.2).2;
  next := λ c m, if bool_decide (m.1 = "X"%byte) then None else Some (observe c m.1 m.2).1;
|}.

(** One pass, on a message the client did send: its log entry and its bytes. *)
Lemma pg_handle_message c k p w :
  let '(c', entry) := observe c k p in
  ∃ o t b w', (do! match entry with
                  | Some (q, ptype, prepared) => enqueueQueryLog env reg q ptype prepared
                  | None => ret tt
                  end in
               do! to_upstream k p in
               ret (if bool_decide (k = "X"%byte) then None else Some c')) w = (o, w')
    ∧ dx_trace w' = dx_trace w ++ log_entry (length (dx_trace w)) entry ++ t
    ∧ pieces ToUpstream t b ∧ b `prefix_of` message (k, p)
    ∧ dx_client w' = dx_client w ∧ dx_upstream w' = dx_upstream w
    ∧ (o = Ok (if bool_decide (k = "X"%byte) then None else Some c') ∧ b = message (k, p) ∨ ∃ e, o = Err e)
    ∧ (dx_faults w = [] → (∃ r, o = Ok r) ∧ dx_faults w' = []).
Proof.
  destruct (observe c k p) as [c' entry]. set (log := log_entry (length (dx_trace w)) entry).
  assert (Hlog : ∀ K : M world (option cache), bind (match entry with
      | Some (q, ptype, prepared) => enqueueQueryLog env reg q ptype prepared
      | None => ret tt end) (λ _, K) w
      = K (Duplex (dx_client w) (dx_upstream w) (dx_faults w) (dx_trace w ++ log))).
  { intros K. unfold log. destruct entry as [[[q pt] pr]|]; [done|]. cbn. rewrite app_nil_r. by destruct w. }
  rewrite Hlog. set (w1 := Duplex _ _ _ _).
  destruct (sends_message ToUpstream k p w1) as (o & t & b & w2 & E & Ht & Hp & Hpre & Hok & Hc & Hu & Hf).
  unfold bind, to_upstream. rewrite E. destruct Hok as [[-> ->]|[e ->]]; eexists _, t, _, w2;
    (split_and!; [done|by rewrite Ht; cbn; rewrite app_assoc|exact Hp|exact Hpre|exact Hc|exact Hu|eauto|]);
    intros [??]%Hf; [eauto|done].
Qed.

#[export] Instance pg_forwards : Forwards pg_protocol (forward_message env reg).
Proof.
  split.
  - intros n c m. cbn. by destruct (observe c m.1 m.2).2 as [[[? ?] ?]|].
  - intros c w. unfold forward_message, bind at 1, from_client, client_read, zoom.
    pose proof (read_message_ends (dx_client w)) as He.
    destruct (read_message (dx_client w)) as [[[k p]|e|p|] r] eqn:Hr; try done; cbn in He.
    2: { eexists _, [], _. rewrite app_nil_r. split_and!; try done. apply fs_end. }
    2: { unfold read_message, ReadFull, bind, ret, fail in Hr. repeat case_match; simplify_eq. }
    apply read_message_exact in Hr as (Hb & _ & Hm).
    set (w0 := Duplex _ _ _ _). pose proof (pg_handle_message c k p w0) as H0.
    destruct (observe c k p) as [c' entry] eqn:Ho.
    destruct H0 as (o & t & b & w' & E & Ht & Hp & Hpre & Hc & Hu & Hok & _). rewrite E.
    set (log := log_entry _ entry) in Ht.
    assert (Hh : handled pg_protocol (length (dx_trace w0)) c (k, p) b (log ++ t)).
    { exists t. cbn. by rewrite Ho. }
    exists o, (log ++ t), w'. split_and!; [done|exact Ht|exact Hu|].
    destruct Hok as [[-> ->]|[e ->]]; [|cbn [passed]; rewrite Hb; by eapply (fs_last pg_protocol _ _ (k, p))].
    case_bool_decide as Hx; cbn [passed]; rewrite Hb; [by eapply (fs_last pg_protocol _ _ (k, p))|].
    rewrite Hc. cbn [dx_client w0]. rewrite <- (app_nil_r (log ++ t)).
    eapply (fs_step pg_protocol _ _ _ (k, p)); [done|done| |apply fs_here].
    cbn. by rewrite bool_decide_false, Ho.
  - intros c w c1 w1 Hm. unfold forward_message in Hm. apply bind_ok in Hm as ([k p] & w0 & H0 & Hm).
    apply pg_from_client_progresses in H0. pose proof (pg_handle_message c k p w0) as H1.
    destruct (observe c k p) as [c' entry].
    destruct H1 as (o & t & b & w' & E & _ & _ & _ & Hc & _). rewrite E in Hm. injection Hm as _ <-.
    unfold unread_client in *. by rewrite Hc.
  - intros c c1 [k p] t e u tr Hl Hn. cbn in Hl, Hn. case_bool_decide as Hx; [done|].
    unfold forward_message, bind at 1, from_client, client_read, zoom. cbn [dx_client].
    change (wire pg_protocol (k, p)) with (message (k, p)).
    rewrite read_message_app by done. cbn [dx_upstream dx_faults dx_trace].
    set (w0 := Duplex _ _ _ _). pose proof (pg_handle_message c k p w0) as H0.
    change (note pg_protocol 0 c (k, p)) with (log_entry 0 (observe c k p).2).
    destruct (observe c k p) as [c' entry]. injection Hn as <-.
    destruct H0 as (o & t2 & b & w' & E & Ht & Hp & _ & Hc & Hu & Hok & Hf). rewrite E.
    destruct (Hf eq_refl) as [[r ->] Hf']. destruct Hok as [[[= ->] ->]|[? ?]]; [|done].
    apply pieces_up in Hp as [Hs Hg]. exists (log_entry (length tr) entry ++ t2).
    rewrite bool_decide_false by done. split_and!.
    + destruct w' as [wc wu wf wt]. cbn in Hc, Hu, Hf', Ht. by subst.
    + rewrite sent_up_app, Hs. by destruct entry as [[[? ?] ?]|].
    + unfold logged in *. rewrite omap_app, Hg, app_nil_r. by destruct entry as [[[? ?] ?]|].
Qed.
End Front.

(** * A connection *)

Section Connection.
Context `{Unicode} (env : environment) (reg : SessionRegistration).

Lemma calm_message (side : bytes → event) k p :
  (∀ p, not_terminal (side p) = true) → keeps calm (write_message side k p).
Proof. intros Hs. by eapply sends_adds, sends_message. Qed.
Lemma calm_write (side : bytes → event) b :
  (∀ p, not_terminal (side p) = true) → keeps calm (write_to side b).
Proof. intros Hs. by apply adds_write. Qed.
Lemma pg_calm_reads {A} (m : M reader A) : keeps calm (upstream_read m) ∧ keeps calm (client_read m).
Proof. split; [apply adds_upstream_read|apply adds_client_read]. Qed.
Lemma pg_calm_switch : (∀ r, keeps calm (switch_upstream r)) ∧ (∀ r, keeps calm (switch_client r)).
Proof. split; intros r; by apply adds_modify. Qed.
Lemma pg_calm_left : keeps calm upstream_left ∧ keeps calm client_left.
Proof. split; intros w; exists []; cbn; by rewrite app_nil_r. Qed.

(** Go through a call whose leaves add nothing terminal. *)
Ltac calmly :=
  repeat (first
    [ apply keeps_ret, _ | apply keeps_fail, _ | apply keeps_panic, _ | apply keeps_nofuel, _
    | apply pg_calm_reads | apply pg_calm_switch | apply pg_calm_left
    | by apply calm_message | by apply calm_write | by apply adds_emit | assumption
    | apply keeps_wrap_err
    | apply keeps_bind; [apply _| |intros ?]
    | progress cbv zeta | case_match ]).

Lemma calm_client_startup f : keeps calm (client_startup f).
Proof. induction f as [|f IH]; cbn [client_startup]; unfold client_write; calmly. Qed.
Lemma pg_calm_negotiate : keeps calm (negotiateClientConn env).
Proof.
  assert (keeps calm readClientStartup).
  { apply keeps_bind; [apply _|apply pg_calm_left|intros k; apply calm_client_startup]. }
  unfold negotiateClientConn, client_write. calmly.
Qed.
Lemma pg_calm_connect : keeps calm (connectUpstream env reg).
Proof. unfold connectUpstream, writeSSLRequest. calmly. Qed.
Lemma calm_sasl : keeps calm sasl_continue ∧ keeps calm sasl_final ∧ keeps calm sasl_ok.
Proof. unfold sasl_continue, sasl_final, sasl_message, sasl_ok, from_upstream. split_and!; calmly. Qed.
Lemma calm_scram mechs user pw : keeps calm (handleSCRAMAuth env mechs user pw).
Proof.
  destruct calm_sasl as (Hc & Hf & Ho). unfold handleSCRAMAuth, to_upstream. calmly.
Qed.
Lemma calm_answer payload user pw : keeps calm (answer_auth env payload user pw).
Proof. pose proof calm_scram. unfold answer_auth, to_upstream. calmly. apply calm_scram. Qed.
Lemma pg_calm_authenticate user pw : keeps calm (authenticateUpstream env user pw).
Proof.
  apply keeps_bind; [apply _|apply pg_calm_left|]. intros k. generalize (S k) ([] : list (byte * bytes)). clear k.
  intros f. induction f as [|f IH]; intros msgs; cbn [authenticate_loop]; [apply keeps_nofuel, _|].
  apply keeps_bind; [apply _|apply pg_calm_reads|]. intros [k p].
  case_bool_decide.
  { apply keeps_bind; [apply _|apply calm_answer|intros _; apply IH]. }
  case_bool_decide; [apply keeps_fail, _|]. cbv zeta. case_bool_decide; [apply keeps_ret, _|apply IH].
Qed.
Lemma calm_messages msgs : keeps calm (write_messages msgs).
Proof. induction msgs as [|[k p] msgs IH]; cbn [write_messages]; unfold to_client; calmly. Qed.
Lemma pg_calm_flow : keeps calm (runProxyFlow env reg).
Proof.
  unfold runProxyFlow.
  apply keeps_bind; [apply _|apply keeps_wrap_err, pg_calm_negotiate|]. intros params.
  apply keeps_bind; [apply _|apply keeps_wrap_err, pg_calm_connect|]. intros _.
  destruct (env_credential env _) as [cred|]; [|apply keeps_fail, _].
  apply keeps_bind; [apply _|by apply adds_emit|]. intros _.
  apply keeps_bind; [apply _|apply keeps_wrap_err; unfold writeStartupPacket; calmly|]. intros _.
  apply keeps_bind; [apply _|apply keeps_wrap_err, pg_calm_authenticate|]. intros msgs.
  apply keeps_bind; [apply _|by apply keeps_wrap_err, calm_message|]. intros _.
  apply keeps_bind; [apply _|apply calm_messages|]. intros _.
  apply keeps_bind; [apply _|eapply calm_relay; apply _|]. intros [[r st] rest]. apply keeps_ret, _.
Qed.

(** ** Every call ends *)

Lemma ReadFull_ends n r : (ReadFull n r).1 ≠ OutOfFuel.
Proof. unfold ReadFull. case_match; [done|]. by destruct (rd_buf r). Qed.
Lemma readStartupPacket_ends r : (readStartupPacket r).1 ≠ OutOfFuel.
Proof.
  unfold readStartupPacket, bind. pose proof (ReadFull_ends 4 r) as H4.
  destruct (ReadFull 4 r) as [[l| | |] r1]; try done. cbv zeta. case_match; [done|apply ReadFull_ends].
Qed.
Lemma readStartupPacket_takes : takes readStartupPacket.
Proof.
  intros r p r' H0. apply bind_ok in H0 as (l & r1 & H1 & H2). cbv zeta in H2. case_match; [done|].
  pose proof (ReadFull_length _ _ _ _ H1) as L1. apply ReadFull_exact in H1 as [-> _].
  apply ReadFull_exact in H2 as [-> _]. rewrite !length_app. cbn in L1. lia.
Qed.

Ltac ending :=
  repeat (first
    [ apply ends_ret | apply ends_fail | apply pg_from_upstream_ends | apply pg_from_client_ends
    | by eapply sends_ends, sends_message | by eapply sends_ends, sends_write | assumption
    | apply ends_wrap | apply ends_bind; [|intros ?] | progress cbv zeta | case_match ]).

Lemma ends_client_startup : ends readClientStartup.
Proof.
  apply (ends_with_fuel unread_client client_startup).
  intros f. induction f as [|f IH]; intros L Hl; [lia|]. cbn [client_startup].
  apply bounded_step; [apply ends_client_read, readStartupPacket_ends| |].
  { apply client_read_progresses, readStartupPacket_takes. }
  intros p L' ?. repeat (case_match; [try by apply bounded_ends|]); [|by apply bounded_ends..].
  apply bounded_bind; [apply bounded_ends, ends_write|apply shrinks_client, shrinks_write|].
  intros _. apply IH. lia.
Qed.
Lemma pg_ends_negotiate : ends (negotiateClientConn env).
Proof.
  pose proof ends_client_startup. unfold negotiateClientConn, client_write.
  apply ends_bind; [apply ends_client_read, readStartupPacket_ends|]. intros p.
  assert (∀ r, ends (switch_client r)) by done. ending; auto.
Qed.
Lemma pg_ends_connect : ends (connectUpstream env reg).
Proof.
  unfold connectUpstream. assert (∀ r, ends (switch_upstream r)) by done.
  destruct (env_dial env); [done|]. cbv zeta. case_match; [done|].
  apply ends_bind; [apply ends_wrap, ends_write|]. intros _.
  apply ends_bind; [apply ends_wrap, ends_read, ReadFull_ends|]. intros reply. ending; auto.
Qed.
Lemma ends_sasl : ends sasl_continue ∧ ends sasl_final ∧ ends sasl_ok.
Proof.
  unfold sasl_continue, sasl_final, sasl_message, sasl_ok.
  assert (∀ w, ends (panic (A:=unit) w)) by done. split_and!; ending; auto.
Qed.
Lemma ends_scram mechs user pw : ends (handleSCRAMAuth env mechs user pw).
Proof. destruct ends_sasl as (? & ? & ?). unfold handleSCRAMAuth, to_upstream. ending. Qed.
Lemma ends_answer payload user pw : ends (answer_auth env payload user pw).
Proof. unfold answer_auth, to_upstream. ending; apply ends_scram. Qed.

Ltac shrinking :=
  repeat (first
    [ apply keeps_ret, _ | apply keeps_fail, _ | apply keeps_panic, _ | apply pg_from_upstream_shrinks
    | by eapply sends_shrinks, sends_message | assumption | apply keeps_wrap_err
    | apply keeps_bind; [apply _| |intros ?] | progress cbv zeta | case_match ]).
Lemma shrinks_answer payload user pw : keeps shrinks (answer_auth env payload user pw).
Proof.
  assert (keeps shrinks sasl_continue) by (unfold sasl_continue, sasl_message; shrinking).
  assert (keeps shrinks sasl_final) by (unfold sasl_final, sasl_message; shrinking).
  assert (keeps shrinks sasl_ok) by (unfold sasl_ok; shrinking).
  assert (∀ m u p, keeps shrinks (handleSCRAMAuth env m u p))
    by (intros; unfold handleSCRAMAuth, to_upstream; shrinking).
  unfold answer_auth, to_upstream. shrinking; auto.
Qed.
Lemma pg_ends_authenticate user pw : ends (authenticateUpstream env user pw).
Proof.
  apply (ends_with_fuel unread_upstream (λ f, authenticate_loop env f user pw [])).
  intros f. generalize ([] : list (byte * bytes)).
  induction f as [|f IH]; intros msgs L Hl; [lia|]. cbn [authenticate_loop].
  apply bounded_step; [apply pg_from_upstream_ends|apply pg_from_upstream_progresses|].
  intros [k p] L' ?. case_bool_decide.
  { apply bounded_bind; [apply bounded_ends, ends_answer|apply shrinks_upstream, shrinks_answer|].
    intros _. apply IH. lia. }
  case_bool_decide; [by apply bounded_ends|]. cbv zeta. case_bool_decide; [by apply bounded_ends|].
  apply IH. lia.
Qed.
Lemma ends_messages msgs : ends (write_messages msgs).
Proof. induction msgs as [|[k p] msgs IH]; cbn [write_messages]; unfold to_client; ending. Qed.
Lemma pg_ends_flow : ends (runProxyFlow env reg).
Proof.
  apply ends_bind; [apply ends_wrap, pg_ends_negotiate|]. intros params.
  apply ends_bind; [apply ends_wrap, pg_ends_connect|]. intros _.
  destruct (env_credential env _) as [cred|]; [|done].
  apply ends_bind; [done|]. intros _.
  apply ends_bind; [apply ends_wrap; unfold writeStartupPacket; ending; apply ends_write|]. intros _.
  apply ends_bind; [apply ends_wrap, pg_ends_authenticate|]. intros msgs.
  apply ends_bind; [unfold to_client; ending|]. intros _.
  apply ends_bind; [apply ends_messages|]. intros _.
  apply ends_bind; [|by intros [[r st] rest]].
  eapply ends_relay; apply _.
Qed.

End Connection.

(** * Startup packets *)

Abbreviation NUL := "000"%byte.

Lemma SplitByte_cons s t b : b ∉ s → SplitByte (s ++ b :: t) b = s :: SplitByte t b.
Proof.
  induction s as [|x s IH]; cbn; intros Hs; [by rewrite bool_decide_true|].
  rewrite bool_decide_false by set_solver. by rewrite IH by set_solver.
Qed.
Lemma SplitByte_clean s b p : p ∈ SplitByte s b → b ∉ p.
Proof.
  revert p. induction s as [|x s IH]; intros p; cbn.
  - intros ->%list_elem_of_singleton. apply not_elem_of_nil.
  - case_bool_decide as Hx.
    + intros [->|Hp]%elem_of_cons; [apply not_elem_of_nil|auto].
    + destruct (SplitByte s b) as [|q qs]; [intros ->%list_elem_of_singleton; set_solver|].
      intros [->|Hp]%elem_of_cons; [|apply IH; set_solver].
      apply not_elem_of_cons. split; [congruence|]. apply IH. set_solver.
Qed.
(** A parameter as [parseStartupParams] leaves it. *)
Definition clean_param (k v : bytes) : Prop :=
  TrimSpace k = k ∧ k ≠ [] ∧ NUL ∉ k ∧ TrimSpace v = v ∧ NUL ∉ v.

Lemma startup_params_clean parts m :
  (∀ p, p ∈ parts → NUL ∉ p) → map_Forall clean_param m → map_Forall clean_param (startup_params parts m).
Proof.
  revert m. remember (length parts) as n eqn:Hn. revert parts Hn.
  induction n as [n IH] using lt_wf_ind. intros parts Hn m Hp Hm.
  destruct parts as [|k [|v parts]]; cbn [startup_params]; [done..|]. case_bool_decide; [done|].
  apply (IH (length parts)); [subst; cbn; lia|done|set_solver|]. apply map_Forall_insert_2; [|done].
  split_and!; [apply TrimSpace_idem|done|apply TrimSpace_notin; set_solver|apply TrimSpace_idem|].
  apply TrimSpace_notin; set_solver.
Qed.
Lemma parse_clean raw : map_Forall clean_param (parseStartupParams raw).
Proof. apply startup_params_clean; [|apply map_Forall_empty]. intros p. apply SplitByte_clean. Qed.

(** Reading back written parameters. *)
Definition field (kv : bytes * bytes) : bytes := kv.1 ++ NUL :: kv.2 ++ [NUL].
Lemma startup_params_fields l m :
  Forall (λ kv, clean_param kv.1 kv.2) l → NoDup l.*1 →
  startup_params (SplitByte (concat (map field l) ++ [NUL]) NUL) m = list_to_map l ∪ m.
Proof.
  revert m. induction l as [|[k v] l IH]; intros m; cbn [map concat fmap list_fmap fst].
  - intros _ _. cbn. by rewrite (left_id_L ∅ (∪)).
  - intros [(Hk & Hne & Hkn & Hv & Hvn) Hl]%Forall_cons [Hnot Hd]%NoDup_cons. cbn [fst snd] in *.
    unfold field at 1. cbn [fst snd]. rewrite <- !app_assoc. cbn [app]. rewrite <- !app_assoc. cbn [app].
    rewrite SplitByte_cons, SplitByte_cons by done. cbn [startup_params].
    rewrite Hk, Hv, bool_decide_false by done. rewrite IH by done. cbn [list_to_map foldr fst snd].
    rewrite <- insert_union_l. symmetry. apply insert_union_r. by apply not_elem_of_list_to_map_1.
Qed.

Definition startup_keys (params : gmap bytes bytes) : list bytes :=
  sort_strings (filter (λ k, TrimSpace k ≠ []) (map_to_list params).*1).
(** The fields of a packet: those that are not empty. *)
Definition startup_fields (params : gmap bytes bytes) : list (bytes * bytes) :=
  filter (λ kv, kv.2 ≠ []) (map (λ k, (k, TrimSpace (default [] (params !! k)))) (startup_keys params)).

Lemma startup_payload_fields params :
  startup_payload params = int32ToBytes protocolVersion3 ++ concat (map field (startup_fields params)) ++ [NUL].
Proof.
  unfold startup_payload, startup_fields. fold (startup_keys params). do 2 f_equal.
  induction (startup_keys params) as [|k ks IH]; [done|]. cbn [map concat]. rewrite IH.
  unfold startup_field at 1. cbn [fst snd]. case_bool_decide as Hv.
  - rewrite filter_cons_False by (cbn; by intros []). done.
  - rewrite filter_cons_True by done. done.
Qed.
Lemma startup_keys_spec params :
  map_Forall clean_param params →
  NoDup (startup_keys params) ∧ ∀ k, k ∈ startup_keys params ↔ is_Some (params !! k).
Proof.
  intros Hc. unfold startup_keys.
  pose proof (sort_strings_perm
    (filter (λ k, TrimSpace k ≠ []) (map_to_list params).*1)) as Hp.
  split.
  - rewrite Hp. apply NoDup_filter, NoDup_fst_map_to_list.
  - intros k. rewrite Hp, list_elem_of_filter, list_elem_of_fmap. split.
    + intros [_ ([k' v] & -> & Hin)]. apply elem_of_map_to_list in Hin. by exists v.
    + intros [v Hv]. pose proof (Hc _ _ Hv) as (Hk & Hne & _). split; [by rewrite Hk|].
      exists (k, v). split; [done|]. by apply elem_of_map_to_list.
Qed.
Lemma startup_fields_spec params :
  map_Forall clean_param params →
  NoDup (startup_fields params).*1 ∧ ∀ k v, (k, v) ∈ startup_fields params ↔ params !! k = Some v ∧ v ≠ [].
Proof.
  intros Hc. destruct (startup_keys_spec params Hc) as [Hd Hk]. unfold startup_fields. split.
  - assert (H : ∀ ks, (filter (λ kv : bytes * bytes, kv.2 ≠ []) (map (λ k, (k, TrimSpace (default [] (params !! k)))) ks)).*1
        `sublist_of` ks).
    { induction ks as [|k ks IH]; [constructor|]. cbn [map]. rewrite filter_cons.
      case_decide; cbn; by constructor. }
    eapply sublist_NoDup; [exact Hd|apply H].
  - intros k v. rewrite list_elem_of_filter. rewrite (list_elem_of_In (map _ _)), in_map_iff. cbn [snd].
    split.
    + intros [Hv (k' & [= <- <-] & Hin)]. apply list_elem_of_In, Hk in Hin as [v' Hv'].
      rewrite Hv' in Hv |- *. change (default [] (Some v')) with v' in Hv |- *. pose proof (Hc _ _ Hv') as (_ & _ & _ & Ht & _).
      by rewrite Ht in Hv |- *.
    + intros [Hkv Hne]. split; [done|]. exists k. pose proof (Hc _ _ Hkv) as (_ & _ & _ & Ht & _).
      rewrite Hkv. change (default [] (Some v)) with v. rewrite Ht. split; [done|]. apply list_elem_of_In, Hk. by eexists.
Qed.

(** Reading a packet gives the parameters that are not empty. *)
Lemma parse_startup_payload params :
  map_Forall clean_param params →
  ∀ k v, parseStartupParams (drop 4 (startup_payload params)) !! k = Some v ↔ params !! k = Some v ∧ v ≠ [].
Proof.
  intros Hc k v. destruct (startup_fields_spec params Hc) as [Hd Hf].
  rewrite startup_payload_fields. rewrite drop_app_length' by (unfold int32ToBytes; by rewrite length_be_bytes).
  unfold parseStartupParams. rewrite startup_params_fields; [|apply Forall_forall|done].
  - rewrite (right_id_L ∅ (∪)), <- elem_of_list_to_map by done. apply Hf.
  - intros [k' v'] [Hv _]%Hf. by apply Hc.
Qed.

(** The packet a session starts its upstream connection with. *)
Lemma upstreamParams_clean reg raw :
  TrimSpace (p_Username reg) = p_Username reg → NUL ∉ p_Username reg →
  TrimSpace (p_Database reg) = p_Database reg → NUL ∉ p_Database reg →
  map_Forall clean_param (upstreamParams reg (parseStartupParams raw)).
Proof.
  intros Hu Hun Hd Hdn. pose proof (parse_clean raw) as Hp. unfold upstreamParams.
  assert (Hlit : ∀ k, k ∈ [§"user"; §"database"] → TrimSpace k = k ∧ k ≠ [] ∧ NUL ∉ k).
  { intros k. rewrite !elem_of_cons. intros [->|[->|[]%elem_of_nil]]; (split_and!; [by vm_compute|done|]);
      apply (bool_decide_unpack _); by vm_compute. }
  assert (Hclean : ∀ k v, k ∈ [§"user"; §"database"] → TrimSpace v = v → NUL ∉ v → clean_param k v).
  { intros k v Hk ? ?. apply Hlit in Hk as (? & ? & ?). by split_and!. }
  assert (Hm : map_Forall clean_param (<[§"user" := p_Username reg]> (parseStartupParams raw))).
  { apply map_Forall_insert_2; [|done]. apply Hclean; [set_solver|done..]. }
  set (database := if bool_decide (p_Database reg = []) then _ else _).
  assert (Hdb : TrimSpace database = database ∧ NUL ∉ database).
  { subst database. case_bool_decide; [|by split]. destruct (parseStartupParams raw !! §"database") as [v|] eqn:Ev.
    - pose proof (Hp _ _ Ev) as (_ & _ & _ & Ht & Hn). change (default [] (Some v)) with v. by rewrite !Ht.
    - split; [done|apply not_elem_of_nil]. }
  case_bool_decide; [done|]. apply map_Forall_insert_2; [|done]. apply Hclean; [set_solver|apply Hdb..].
Qed.

Lemma startup_packet_read params t e :
  zlen (startup_payload params) + 4 < 2 ^ 32 →
  readStartupPacket (Reader (int32ToBytes (wrap 32 (zlen (startup_payload params) + 4))
    ++ startup_payload params ++ t) e) = (Ok (startup_payload params), Reader t e).
Proof.
  intros Hl. assert (Hp : 5 <= zlen (startup_payload params)).
  { unfold startup_payload, zlen, int32ToBytes. rewrite !length_app, length_be_bytes. cbn [length]. lia. }
  unfold readStartupPacket, bind. rewrite ReadFull_app by apply length_be_bytes. cbv zeta.
  unfold int32ToBytes. rewrite be_value_bytes, wrap_small, Z.mod_small by lia.
  rewrite (proj2 (Z.ltb_ge _ _)) by lia. rewrite ReadFull_app by (unfold zlen; lia). done.
Qed.

(** * Requiring TLS *)

Section Tls.
Context `{Unicode} (env : environment) (reg : SessionRegistration).

Definition ssl_request : bytes := int32ToBytes 8 ++ int32ToBytes sslRequestCode.
(** What may be written to the upstream when TLS is required and not there. *)
Definition ssl_request_only (e : event) : bool :=
  match e with ToUpstream b => bool_decide (b `prefix_of` ssl_request) | _ => true end.

Lemma ssl_request_adds : keeps (adds ssl_request_only) (writeSSLRequest ToUpstream).
Proof.
  intros w. unfold writeSSLRequest. fold ssl_request.
  destruct (write_spec ToUpstream ssl_request w) as (o & p & w' & -> & Hp & Ht & _).
  exists [ToUpstream p]. split; [done|]. cbn. by rewrite bool_decide_true.
Qed.
Lemma quiet_reads {A} (m : M reader A) :
  keeps (adds ssl_request_only) (client_read m) ∧ keeps (adds ssl_request_only) (upstream_read m).
Proof. split; [apply adds_client_read|apply adds_upstream_read]. Qed.
Lemma quiet_client_startup f : keeps (adds ssl_request_only) (client_startup f).
Proof.
  induction f as [|f IH]; cbn [client_startup]; [apply keeps_nofuel, _|].
  apply keeps_bind; [apply _|apply quiet_reads|]. intros p. repeat case_match; try apply keeps_fail, _.
  - apply keeps_bind; [apply _|by apply adds_write|]. by intros _.
  - apply keeps_ret, _.
Qed.
Lemma quiet_negotiate : keeps (adds ssl_request_only) (negotiateClientConn env).
Proof.
  assert (Hr : keeps (adds ssl_request_only) readClientStartup).
  { apply keeps_bind; [apply _| |intros k; apply quiet_client_startup].
    intros w. exists []. by rewrite app_nil_r. }
  unfold negotiateClientConn. apply keeps_bind; [apply _|apply quiet_reads|]. intros p.
  repeat case_match; try apply keeps_fail, _; try apply keeps_ret, _;
    (apply keeps_bind; [apply _|by apply adds_write|]); intros _; [done| |apply keeps_fail, _].
  apply keeps_bind; [apply _|by apply adds_modify|]. by intros _.
Qed.

(** Without a TLS stream the connection to the upstream does not come about. *)
Lemma pg_connect_refused e :
  RequireTLS (classifySSLMode (p_SSLMode reg)) = true →
  env_tls env (p_UpstreamHost reg) (VerifyCert (classifySSLMode (p_SSLMode reg))) = inr e →
  keeps (adds ssl_request_only) (connectUpstream env reg) ∧ ∀ w, (connectUpstream env reg w).1 ≠ Ok tt.
Proof.
  intros Hr Ht. unfold connectUpstream. destruct (env_dial env); [split; [apply keeps_fail, _|done]|]. cbv zeta.
  assert (Ha : AttemptTLS (classifySSLMode (p_SSLMode reg)) = true).
  { revert Hr. unfold classifySSLMode. by repeat case_match. }
  rewrite Ha, Hr, Ht. cbn [negb]. split.
  - apply keeps_bind; [apply _|apply keeps_wrap_err, ssl_request_adds|]. intros _.
    apply keeps_bind; [apply _|apply keeps_wrap_err, quiet_reads|]. intros reply.
    case_match; apply keeps_fail, _.
  - intros w Hw. destruct (bind _ _ w) as [o w'] eqn:E. cbn in Hw. subst o.
    apply bind_ok in E as (? & w1 & _ & E). apply bind_ok in E as (reply & w2 & _ & E). by case_match.
Qed.
Lemma flow_refused e w :
  RequireTLS (classifySSLMode (p_SSLMode reg)) = true →
  env_tls env (p_UpstreamHost reg) (VerifyCert (classifySSLMode (p_SSLMode reg))) = inr e →
  adds ssl_request_only w (runProxyFlow env reg w).2 ∧ is_ok (runProxyFlow env reg w).1 = false.
Proof.
  intros Hr Ht. destruct (pg_connect_refused e Hr Ht) as [Hk Hn].
  pose proof (keeps_wrap_err _ §"read startup" _ quiet_negotiate w) as Hq.
  destruct (runProxyFlow env reg w) as [o w'] eqn:E. unfold runProxyFlow in E. unfold bind at 1 in E.
  destruct (wrap_err §"read startup" (negotiateClientConn env) w) as [[params|e'|p|] w1]; cbn [fst snd] in *;
    [|by injection E as <- <-..].
  pose proof (keeps_wrap_err _ §"connect upstream" _ Hk w1) as Hq1.
  assert (Hn1 : (wrap_err §"connect upstream" (connectUpstream env reg) w1).1 ≠ Ok tt).
  { specialize (Hn w1). unfold wrap_err. destruct (connectUpstream env reg w1) as [[[]|e'|p|] w2]; done. }
  unfold bind at 1 in E.
  destruct (wrap_err §"connect upstream" (connectUpstream env reg) w1) as [[[]|e'|p|] w2]; cbn [fst snd] in *;
    [done|injection E as <- <-; split; [by etransitivity|done]..].
Qed.
End Tls.

(** * SCRAM-SHA-256 *)

(** PBKDF2 with HMAC-SHA-256 and one block of output (RFC 8018, the Hi of RFC
    5802): the exclusive or of the iterates of the pseudorandom function. *)
Definition pbkdf2_u (password salt : bytes) (k : nat) : bytes :=
  Nat.iter k (hmac_sha256 password) (hmac_sha256 password (salt ++ int32ToBytes 1)).
Definition pbkdf2 (password salt : bytes) (c : nat) : bytes :=
  fold_left xor_bytes (map (pbkdf2_u password salt) (seq 1 (c - 1))) (pbkdf2_u password salt 0).

Lemma hi_loop_iterates password salt n k r :
  hi_loop n password (pbkdf2_u password salt k) r
  = fold_left xor_bytes (map (pbkdf2_u password salt) (seq (S k) n)) r.
Proof.
  revert k r. induction n as [|n IH]; intros k r; [done|]. cbn [hi_loop seq map fold_left]. cbv zeta.
  change (hmac_sha256 password (pbkdf2_u password salt k)) with (pbkdf2_u password salt (S k)). apply IH.
Qed.
Lemma scramHi_is_pbkdf2 password salt iterations :
  scramHi password salt iterations = pbkdf2 password salt (Z.to_nat iterations).
Proof.
  unfold scramHi, pbkdf2. replace (Z.to_nat iterations - 1)%nat with (Z.to_nat (iterations - 1)) by lia.
  cbv zeta. apply (hi_loop_iterates password salt _ 0).
Qed.

Lemma xor_bytes_involutive a b : length a = length b → xor_bytes (xor_bytes a b) b = a.
Proof.
  unfold xor_bytes. revert b. induction a as [|x a IH]; intros [|y b] Hl; cbn in *; try done.
  rewrite IH by lia. f_equal. apply b2z_inj. rewrite b2z_z2b, b2z_z2b.
  pose proof (b2z_range x). pose proof (b2z_range y).
  assert (Hm : ∀ z, z mod 256 = Z.land z (Z.ones 8)) by (intros; by rewrite Z.land_ones by lia).
  rewrite !Hm. apply Z.bits_inj'. intros n Hn. rewrite !Z.land_spec, !Z.lxor_spec, !Z.land_spec, !Z.lxor_spec.
  rewrite Z.testbit_ones_nonneg by lia. destruct (n <? 8) eqn:E; gobool; rewrite ?andb_true_r, ?andb_false_r.
  - by destruct (Z.testbit (b2z x) n), (Z.testbit (b2z y) n).
  - symmetry. destruct (decide (b2z x = 0)) as [->|]; [by rewrite Z.testbit_0_l|].
    apply Z.bits_above_log2; [lia|]. apply Z.log2_lt_pow2; [lia|].
    pose proof (Z.pow_le_mono_r 2 8 n ltac:(lia) ltac:(lia)). lia.
Qed.
Lemma length_hmac key msg : length (hmac_sha256 key msg) = 32%nat.
Proof. apply length_sha256. Qed.
Lemma length_std_encode s : (length (std_encode s) <= 4 * length s)%nat.
Proof. induction s as [|a|a b|a b c s IH] using list_ind3; cbn [std_encode length]; lia. Qed.

(** What the upstream keeps of a password, and its side of the exchange. *)
Definition stored_key (salted : bytes) : bytes := sha256 (hmac_sha256 salted §"Client Key").
Definition server_accepts (stored proof msg : bytes) : bool :=
  bool_decide (sha256 (xor_bytes proof (hmac_sha256 stored msg)) = stored).
Definition server_first (clientNonce serverNonce salt : bytes) (iterations : Z) : bytes :=
  (§"r=" ++ clientNonce ++ serverNonce) ++ "," %byte :: (§"s=" ++ std_encode salt)
  ++ "," %byte :: (§"i=" ++ Itoa iterations).

Lemma client_proof_accepted salted msg :
  server_accepts (stored_key salted) (clientProof salted msg) msg = true.
Proof.
  apply bool_decide_eq_true. unfold clientProof, scramHMAC. cbv zeta.
  fold (stored_key salted). rewrite xor_bytes_involutive by (by rewrite !length_hmac). done.
Qed.

Lemma server_first_parses cn sn salt i :
  ","%byte ∉ cn → ","%byte ∉ sn → cn ≠ [] → 1 <= i <= max_int64 →
  parseServerFirst (server_first cn sn salt i) = inl (cn ++ sn, salt, i).
Proof.
  intros Hcn Hsn Hne Hi. unfold parseServerFirst, server_first.
  assert (Hc : ∀ p, p ∈ [§"r="; §"s="; §"i="] → ","%byte ∉ p).
  { intros p. rewrite !elem_of_cons. intros [->|[->|[->|[]%elem_of_nil]]]; apply (bool_decide_unpack _); by vm_compute. }
  rewrite SplitByte_cons by (rewrite !not_elem_of_app; split_and!; [apply Hc; set_solver|done|done]).
  rewrite SplitByte_app; cycle 1.
  { rewrite not_elem_of_app. split; [apply Hc; set_solver|apply std_encode_plain]. }
  { rewrite not_elem_of_app. split; [apply Hc; set_solver|]. apply Itoa_notin; [lia|done]. }
  cbn [server_first_loop]. rewrite HasPrefix_app.
  change (drop 2 (§"r=" ++ cn ++ sn)) with (cn ++ sn).
  change (HasPrefix (§"s=" ++ std_encode salt) §"r=") with false. rewrite HasPrefix_app. cbv iota.
  change (drop 2 (§"s=" ++ std_encode salt)) with (std_encode salt). rewrite std_round_trip.
  change (HasPrefix (§"i=" ++ Itoa i) §"r=") with false. change (HasPrefix (§"i=" ++ Itoa i) §"s=") with false.
  rewrite HasPrefix_app. cbv iota. change (drop 2 (§"i=" ++ Itoa i)) with (Itoa i).
  rewrite Atoi_Itoa by (unfold min_int64; lia).
  rewrite bool_decide_false by (by destruct cn). by rewrite (proj2 (Z.eqb_neq i 0)) by lia.
Qed.

Section Scram.
Context `{Unicode} (env : environment).

Lemma sends_clean (side : bytes → event) b m w :
  sends side b m → dx_faults w = [] →
  ∃ t, m w = (Ok tt, Duplex (dx_client w) (dx_upstream w) [] (dx_trace w ++ t)) ∧ pieces side t b.
Proof.
  intros Hs Hf. destruct (Hs w) as (o & t & b' & w' & E & Ht & Hp & Hpre & Ho & Hc & Hu & Hfl).
  destruct (Hfl Hf) as [-> Hf']. destruct Ho as [[_ ->]|[e He]]; [|done]. exists t. split; [|done].
  rewrite E. f_equal. destruct w'; cbn in *; congruence.
Qed.

(** One message of the upstream in the exchange. *)
Lemma sasl_message_ok code reading during expected body t e w :
  0 <= code < 2 ^ 32 → zlen body + 8 < 2 ^ 32 → dx_upstream w = Reader (message ("R"%byte, int32ToBytes code ++ body) ++ t) e →
  sasl_message code reading during expected w = (Ok body, Duplex (dx_client w) (Reader t e) (dx_faults w) (dx_trace w)).
Proof.
  intros Hc Hl Hu. unfold sasl_message, bind, wrap_err, from_upstream, upstream_read, zoom. rewrite Hu.
  rewrite read_message_app.
  2: { cbn [snd]. rewrite zlen_app. unfold int32ToBytes, zlen at 1. rewrite length_be_bytes. lia. }
  change (bool_decide ("R"%byte = "E"%byte)) with false. change (negb (bool_decide ("R"%byte = "R"%byte))) with false.
  cbv iota. cbn [orb].
  rewrite (proj2 (Nat.ltb_ge _ _)) by (unfold int32ToBytes; rewrite length_app, length_be_bytes; lia).
  rewrite uint32_at_bytes, Z.eqb_refl by done. cbn [negb].
  rewrite drop_app_length' by (unfold int32ToBytes; by rewrite length_be_bytes). done.
Qed.
Lemma sasl_message_inv code reading during expected body w w' :
  0 <= code < 2 ^ 32 →
  sasl_message code reading during expected w = (Ok body, w') →
  rd_buf (dx_upstream w) = message ("R"%byte, int32ToBytes code ++ body) ++ rd_buf (dx_upstream w')
  ∧ dx_client w' = dx_client w ∧ dx_trace w' = dx_trace w ∧ dx_faults w' = dx_faults w.
Proof.
  intros Hc Hm. unfold sasl_message in Hm. apply bind_ok in Hm as ([k p] & w1 & H1 & Hm).
  unfold wrap_err, from_upstream, upstream_read, zoom in H1.
  destruct (read_message (dx_upstream w)) as [[m| | |] u] eqn:Hr; try done. injection H1 as -> <-.
  apply read_message_exact in Hr as [Hb _]. case_bool_decide; [done|].
  destruct (negb _ || _) eqn:E; [done|]. gobool. apply Nat.ltb_ge in H2. subst k.
  destruct (uint32_at p =? code) eqn:Eq; [|done]. gobool. injection Hm as <- <-. cbn [dx_upstream dx_client dx_trace dx_faults].
  split_and!; [|done..]. rewrite Hb. do 3 f_equal. rewrite <- Eq. unfold uint32_at, int32ToBytes.
  rewrite be_bytes_value by (rewrite length_take; lia). by rewrite take_drop.
Qed.

Lemma sasl_ok_ok t e w :
  dx_upstream w = Reader (message ("R"%byte, int32ToBytes 0) ++ t) e →
  sasl_ok w = (Ok tt, Duplex (dx_client w) (Reader t e) (dx_faults w) (dx_trace w)).
Proof.
  intros Hu. unfold sasl_ok, bind, wrap_err, from_upstream, upstream_read, zoom. rewrite Hu.
  by rewrite read_message_app by done.
Qed.

(** The two messages the proxy sends. *)
Definition client_first_payload (username clientNonce : bytes) : bytes :=
  buildSASLInitialResponse §"SCRAM-SHA-256" (§"n,," ++ clientFirstBare username clientNonce).
Definition client_final_payload (serverNonce proof : bytes) : bytes :=
  clientFinalWithoutProof serverNonce ++ §",p=" ++ std_encode proof.

(** What an upstream that keeps [salted] answers. *)
Definition server_messages (username clientNonce serverNonce salt : bytes) (iterations : Z) (salted : bytes) : bytes :=
  let first := server_first clientNonce serverNonce salt iterations in
  let msg := authMessage username clientNonce first (clientNonce ++ serverNonce) in
  message ("R"%byte, int32ToBytes 11 ++ first)
  ++ message ("R"%byte, int32ToBytes 12 ++ §"v=" ++ std_encode (serverSignature salted msg)).

(** With such an upstream the exchange gets to its last message. *)
Lemma scram_runs mechs username password nonce sn salt i w rest e :
  §"SCRAM-SHA-256" ∈ SplitByte (TrimRightByte mechs NUL) NUL →
  env_random env = inl nonce → nonce ≠ [] → ","%byte ∉ sn → 1 <= i <= max_int64 → dx_faults w = [] →
  let cn := std_encode nonce in
  let first := server_first cn sn salt i in
  let salted := pbkdf2 password salt (Z.to_nat i) in
  let msg := authMessage username cn first (cn ++ sn) in
  zlen first + 8 < 2 ^ 32 →
  dx_upstream w = Reader (server_messages username cn sn salt i salted ++ rest) e →
  ∃ t, handleSCRAMAuth env mechs username password w
       = sasl_ok (Duplex (dx_client w) (Reader rest e) [] (dx_trace w ++ t))
    ∧ pieces ToUpstream t (message ("p"%byte, client_first_payload username cn)
        ++ message ("p"%byte, client_final_payload (cn ++ sn) (clientProof salted msg))).
Proof.
  intros Hmech Hr Hne Hsn Hi Hf cn first salted msg Hl Hu.
  assert (Hcn : cn ≠ []).
  { unfold cn. destruct nonce as [|a [|b [|c nonce]]]; done. }
  unfold handleSCRAMAuth. rewrite bool_decide_true by done. cbn [negb]. rewrite Hr. cbv zeta. fold cn.
  destruct (sends_clean ToUpstream _ _ w (sends_message ToUpstream "p" (client_first_payload username cn)) Hf)
    as (t1 & E1 & Hp1).
  unfold bind at 1, wrap_err at 1, to_upstream. fold (client_first_payload username cn). rewrite E1.
  unfold bind at 1, sasl_continue. unfold server_messages in Hu. cbv zeta in Hu. fold first in Hu.
  rewrite <- !app_assoc in Hu.
  erewrite sasl_message_ok; [|lia|exact Hl|exact Hu]. cbn [dx_client dx_faults dx_trace].
  unfold first at 1. rewrite server_first_parses by (try done; apply std_encode_plain). rewrite HasPrefix_app.
  cbn [negb]. rewrite scramHi_is_pbkdf2. unfold scramSaslPrep. fold salted. fold first. fold msg.
  set (w2 := Duplex _ _ _ _).
  destruct (sends_clean ToUpstream _ _ w2 (sends_message ToUpstream "p"
    (client_final_payload (cn ++ sn) (clientProof salted msg))) eq_refl) as (t2 & E2 & Hp2).
  unfold bind at 1, wrap_err at 1. fold (client_final_payload (cn ++ sn) (clientProof salted msg)). rewrite E2.
  unfold bind at 1, sasl_final. fold msg in Hu.
  assert (Hsig : zlen (§"v=" ++ std_encode (serverSignature salted msg)) + 8 < 2 ^ 32).
  { rewrite zlen_app. pose proof (length_std_encode (serverSignature salted msg)) as Hle.
    unfold serverSignature, scramHMAC in *. rewrite length_hmac in Hle. change (zlen §"v=") with 2. unfold zlen. lia. }
  erewrite sasl_message_ok; [|lia|exact Hsig|reflexivity].
  rewrite HasPrefix_app. cbn [negb].
  rewrite (drop_app_length' §"v=" _ 2) by done.
  rewrite std_round_trip, bool_decide_true by done. cbn [negb].
  exists (t1 ++ t2). split; [|by apply pieces_app].
  cbn [dx_client dx_faults dx_trace w2]. by rewrite app_assoc.
Qed.

(** ** What a success says *)

Lemma wrap_err_ok {A} msg (m : M world A) w a w' : wrap_err msg m w = (Ok a, w') → m w = (Ok a, w').
Proof. unfold wrap_err. by destruct (m w) as [[]?]. Qed.
Lemma sends_ok (side : bytes → event) b m w w' :
  sends side b m → m w = (Ok tt, w') →
  ∃ t, dx_trace w' = dx_trace w ++ t ∧ pieces side t b ∧ dx_client w' = dx_client w ∧ dx_upstream w' = dx_upstream w.
Proof.
  intros Hs E. destruct (Hs w) as (o & t & b' & w1 & E1 & Ht & Hp & _ & Ho & Hc & Hu & _). rewrite E in E1.
  injection E1 as <- <-. exists t. destruct Ho as [[_ ->]|[e He]]; [|done]. by split_and!.
Qed.
Lemma sasl_ok_inv w w' :
  sasl_ok w = (Ok tt, w') →
  dx_trace w' = dx_trace w ∧ ∃ b, rd_buf (dx_upstream w) = b ++ rd_buf (dx_upstream w').
Proof.
  unfold sasl_ok. intros Hm. apply bind_ok in Hm as ([k p] & w1 & H1%wrap_err_ok & Hm).
  assert (Hw : w' = w1) by (unfold ret, fail, panic in Hm; repeat case_match; congruence). subst w1. clear Hm.
  unfold from_upstream, upstream_read, zoom in H1.
  destruct (read_message (dx_upstream w)) as [[m| | |] u] eqn:Hr; try done. injection H1 as -> <-.
  apply read_message_exact in Hr as [-> _]. split; [done|by exists (message (k, p))].
Qed.

(** The upstream's part of a successful exchange. *)
Definition proves_itself (username password cn first serverNonce sig : bytes) : Prop :=
  ∃ salt i, parseServerFirst first = inl (serverNonce, salt, i) ∧ HasPrefix serverNonce cn = true
    ∧ std_decode sig = Some (serverSignature (pbkdf2 password salt (Z.to_nat i))
                               (authMessage username cn first serverNonce)).
Lemma scram_success mechs username password w w' :
  handleSCRAMAuth env mechs username password w = (Ok tt, w') →
  ∃ nonce first serverNonce sig proof t b,
    env_random env = inl nonce
    ∧ proves_itself username password (std_encode nonce) first serverNonce sig
    ∧ rd_buf (dx_upstream w) = message ("R"%byte, int32ToBytes 11 ++ first)
        ++ message ("R"%byte, int32ToBytes 12 ++ §"v=" ++ sig) ++ b ++ rd_buf (dx_upstream w')
    ∧ dx_trace w' = dx_trace w ++ t
    ∧ pieces ToUpstream t (message ("p"%byte, client_first_payload username (std_encode nonce))
        ++ message ("p"%byte, client_final_payload serverNonce proof)).
Proof.
  unfold handleSCRAMAuth. destruct (negb _); [done|]. destruct (env_random env) as [nonce|]; [|done]. cbv zeta.
  fold (client_first_payload username (std_encode nonce)).
  intros Hm. apply bind_ok in Hm as ([] & w1 & H1%wrap_err_ok & Hm).
  destruct (sends_ok _ _ _ _ _ (sends_message ToUpstream "p" _) H1) as (t1 & Ht1 & Hp1 & _ & Hu1).
  apply bind_ok in Hm as (first & w2 & H2 & Hm).
  apply sasl_message_inv in H2 as (Hb2 & _ & Ht2 & _); [|lia].
  destruct (parseServerFirst first) as [[[sn salt] i]|] eqn:Hf; [|done].
  destruct (HasPrefix sn (std_encode nonce)) eqn:Hn; [|done]. cbn [negb] in Hm.
  rewrite scramHi_is_pbkdf2 in Hm. unfold scramSaslPrep in Hm.
  set (salted := pbkdf2 _ _ _) in Hm. set (msg := authMessage _ _ _ _) in Hm.
  fold (client_final_payload sn (clientProof salted msg)) in Hm.
  apply bind_ok in Hm as ([] & w3 & H3%wrap_err_ok & Hm).
  destruct (sends_ok _ _ _ _ _ (sends_message ToUpstream "p" _) H3) as (t3 & Ht3 & Hp3 & _ & Hu3).
  apply bind_ok in Hm as (final & w4 & H4 & Hm).
  apply sasl_message_inv in H4 as (Hb4 & _ & Ht4 & _); [|lia].
  destruct (HasPrefix final §"v=") eqn:Hv; [|done]. cbn [negb] in Hm. apply HasPrefix_iff in Hv as [sig ->].
  rewrite (drop_app_length' §"v=" _ 2) in Hm by done.
  destruct (std_decode sig) as [s|] eqn:Hs; [|done]. case_bool_decide as Hsig; [|done]. cbn [negb] in Hm.
  apply sasl_ok_inv in Hm as (Ht5 & b & Hb5).
  exists nonce, first, sn, sig, (clientProof salted msg), (t1 ++ t3), b. split_and!; [done| | | |by apply pieces_app].
  - exists salt, i. by rewrite Hs, Hsig.
  - by rewrite <- Hu1, Hb2, <- Hu3, Hb4, Hb5.
  - by rewrite Ht5, Ht4, Ht3, Ht2, Ht1, app_assoc.
Qed.

Lemma sasl_ok_panics k p t e w :
  k ≠ "E"%byte → (length p < 4)%nat → dx_upstream w = Reader (message (k, p) ++ t) e →
  (sasl_ok w).1 = Panic §"runtime error: slice bounds out of range".
Proof.
  intros Hk Hl Hu. unfold sasl_ok, bind, wrap_err, from_upstream, upstream_read, zoom. rewrite Hu.
  rewrite read_message_app by (unfold zlen; cbn [snd]; lia). rewrite bool_decide_false by done.
  by rewrite (proj2 (Nat.ltb_lt _ _) Hl), orb_true_r.
Qed.
End Scram.

(** * What a session logs and forwards *)

Section Logs.
Context `{Unicode} (env : environment) (reg : SessionRegistration).

(** The entries of a list of messages, from a statement cache. *)
Fixpoint entries (c : cache) (msgs : list (byte * bytes)) : list (bytes * bytes * bool) :=
  match msgs with
  | [] => []
  | m :: rest =>
      let '(c', entry) := observe c m.1 m.2 in
      match entry with
      | Some (q, ptype, prepared) => (truncate q (env_QueryMaxBytes env), ptype, prepared) :: entries c' rest
      | None => entries c' rest
      end
  end.

Lemma log_entry_logged n entry :
  sent_up (log_entry env reg n entry) = []
  ∧ logged (log_entry env reg n entry)
    = match entry with Some (q, ptype, prepared) => [(truncate q (env_QueryMaxBytes env), ptype, prepared)] | None => [] end.
Proof. by destruct entry as [[[q ptype] prepared]|]. Qed.

Lemma pg_messages c msgs :
  Forall (λ m, zlen m.2 + 4 < 2 ^ 32 ∧ m.1 ≠ "X"%byte) msgs →
  ∃ c', messages (pg_protocol env reg) c msgs (entries c msgs) c'.
Proof.
  intros Hm. revert c. induction Hm as [|m msgs [Hl Hx] Hm IH]; intros c; [eexists; constructor|].
  destruct (IH (observe c m.1 m.2).1) as (c2 & H2). exists c2.
  assert (E : entries c (m :: msgs)
    = logged (note (pg_protocol env reg) 0 c m) ++ entries (observe c m.1 m.2).1 msgs).
  { cbn [entries]. destruct (observe c m.1 m.2) as [c' [[[q ptype] prepared]|]] eqn:Ho; cbn; by rewrite Ho. }
  rewrite E. eapply msgs_cons; [done| |exact H2]. cbn. by rewrite bool_decide_false.
Qed.
Lemma forward_clean c msgs u tr :
  Forall (λ m, zlen m.2 + 4 < 2 ^ 32 ∧ m.1 ≠ "X"%byte) msgs →
  ∃ t, forwardClientMessages env reg c (Duplex (Reader (concat (map message msgs)) io_EOF) u [] tr)
        = (Err io_EOF, Duplex (Reader [] io_EOF) u [] (tr ++ t))
    ∧ sent_up t = concat (map message msgs) ∧ logged t = entries c msgs.
Proof.
  intros Hm. destruct (pg_messages c msgs Hm) as (c' & Hms).
  destruct (forward_all_clean (pg_protocol env reg) (forward_message env reg) c msgs (entries c msgs) c' u tr) as (t & f & E & Hs & Hl);
    [done|done|]. exists t. by split.
Qed.
End Logs.

(** * Properties *)

#[local] Existing Instance ascii_tables.

(** Inputs for the witnesses. *)
Section Samples.
Definition sample_reg (ssl : bytes) : SessionRegistration := {|
  p_SessionID := §"s1"; p_UserID := §"u1"; p_AssetID := §"a1"; p_AssetName := §"orders";
  p_Engine := §"postgres"; p_Database := §"shop"; p_SSLMode := ssl;
  p_UpstreamHost := §"10.0.0.8"; p_UpstreamPort := 5432; p_Username := §"svc";
  p_RequestID := §"rq" |}.
Definition sample_env (tls : reader + error) : environment := {|
  env_remote_addr := §"127.0.0.1:50000";
  env_QueryMaxBytes := 4096;
  env_dial := None;
  env_credential := λ _, inl (Credential §"svc" §"pencil");
  env_tls := λ _ _, tls;
  env_tls_config := false;
  env_client_tls := inr (Errorf §"no tls");
  env_random := inl §"nonce";
  env_clock := λ n, Z.of_nat n;
  env_schedule := [] |}.
Definition sample_nonce : bytes := std_encode §"nonce".
Definition sample_first : bytes := server_first sample_nonce §"%hvY" §"salt" 2.
End Samples.

(** Messages of the extended query protocol, as a client writes them. *)
Definition parse_message (name sql : bytes) : byte * bytes :=
  ("P"%byte, name ++ NUL :: sql ++ NUL :: [NUL; NUL]).
Definition bind_message (portal stmt : bytes) : byte * bytes :=
  ("B"%byte, portal ++ NUL :: stmt ++ NUL :: repeat NUL 6).
Definition execute_message (portal : bytes) : byte * bytes := ("E"%byte, portal ++ NUL :: repeat NUL 4).
Definition misleading_session (decoy stmt sql : bytes) : list (byte * bytes) :=
  [parse_message [] decoy; parse_message stmt sql; bind_message [] stmt; execute_message []; ("S"%byte, [])].

Lemma parse_message_read name sql :
  NUL ∉ name → NUL ∉ sql → parseParseMessage (parse_message name sql).2 = (name, TrimSpace sql).
Proof.
  intros Hn Hs. unfold parseParseMessage, parse_message. cbn [snd]. rewrite IndexByte_app_notin by done.
  replace (S (length name)) with (length (name ++ [NUL])) by (rewrite length_app; cbn; lia).
  replace (name ++ NUL :: sql ++ NUL :: [NUL; NUL]) with ((name ++ [NUL]) ++ sql ++ NUL :: [NUL; NUL])
    by (by rewrite <- app_assoc).
  rewrite drop_app_length, IndexByte_app_notin by done.
  rewrite <- app_assoc, take_app_length. by rewrite take_app_length.
Qed.
Lemma misleading_entries env decoy stmt sql :
  NUL ∉ decoy → NUL ∉ stmt → NUL ∉ sql → stmt ≠ [] → TrimSpace decoy ≠ [] →
  entries env ∅ (misleading_session decoy stmt sql)
  = [(truncate (TrimSpace decoy) (env_QueryMaxBytes env), §"extended", false)].
Proof.
  intros Hd Hn Hs Hne Hde. pose proof (not_elem_of_nil NUL) as Hnil. unfold misleading_session. cbn [entries].
  assert (Hp : ∀ c name q, NUL ∉ name → NUL ∉ q → observe c "P" (parse_message name q).2
    = (if bool_decide (TrimSpace q = []) then c else <[name := TrimSpace q]> c, None)).
  { intros c name q Hx Hy. unfold observe. change (bool_decide ("P"%byte = "Q"%byte)) with false.
    change (bool_decide ("P"%byte = "P"%byte)) with true. cbv iota. by rewrite parse_message_read. }
  change (parse_message [] decoy).1 with "P"%byte. change (parse_message stmt sql).1 with "P"%byte.
  rewrite Hp by done. rewrite bool_decide_false by done. rewrite Hp by done.
  set (c := if bool_decide (TrimSpace sql = []) then _ else _).
  change (observe c (bind_message [] stmt).1 (bind_message [] stmt).2)
    with (c, @None (bytes * bytes * bool)). cbv iota.
  assert (Hc : c !! ([] : bytes) = Some (TrimSpace decoy)).
  { subst c. case_bool_decide; [|rewrite lookup_insert_ne by done]; apply lookup_insert_eq. }
  change (observe c (execute_message []).1 (execute_message []).2)
    with (match c !! ([] : bytes) with
          | Some query => (c, if bool_decide (query = []) then None else Some (query, §"extended", false))
          | None => (c, None) end).
  rewrite Hc, bool_decide_false by done. done.
Qed.

(** C23. Refinement: whatever the two sides send, however writes fail and
    however the two goroutines of the relay are scheduled, the relay ends with
    a result and its trace splits in two: the frontend goroutine's part is a
    session of messages (in the client's order, each one's log entry, computed
    from the messages before it, ahead of its bytes, forwarded whole but for a
    last one that a failed write cuts), and the backend's is the upstream's
    bytes in order. *)
Theorem pg_relay_refines_session `{Unicode} env reg sched w :
  ∃ r st rest w', relay (forward_message env reg) sched (Relay (Running ∅) (Running tt)) w = (Ok (r, st, rest), w')
    ∧ relayed (pg_protocol env reg) (Relay (Running ∅) (Running tt)) w st w'.
Proof. apply relay_spec; apply _. Qed.

(** The relay is transparent: under every schedule, the upstream gets a
    prefix of the client's bytes and the client a prefix of the upstream's, bit
    for bit, whatever the messages are. *)
Theorem pg_relay_is_transparent `{Unicode} env reg sched w :
  ∃ t, dx_trace (relay (forward_message env reg) sched (Relay (Running ∅) (Running tt)) w).2 = dx_trace w ++ t
    ∧ sent_up t `prefix_of` rd_buf (dx_client w) ∧ sent_down t `prefix_of` rd_buf (dx_upstream w).
Proof.
  destruct (relay_spec (pg_protocol env reg) (forward_message env reg) sched (Relay (Running ∅) (Running tt)) w) as (r & st & rest & w' & -> & Hr).
  pose proof Hr as (t & Ht & _). exists t. split; [done|]. eapply (relayed_sent (pg_protocol env reg) (forward_message env reg)); eassumption.
Qed.

(** What a session that ends without an error on the wire leaves in the
    query log, exactly: the entries computed from its messages alone, a simple
    query under its own text and an execution under the text the statement
    cache has for the name it carries; and every message reaches the upstream. *)
Theorem pg_query_log_is_exact `{Unicode} env reg msgs u tr :
  Forall (λ m, zlen m.2 + 4 < 2 ^ 32 ∧ m.1 ≠ "X"%byte) msgs →
  ∃ t, forwardClientMessages env reg ∅ (Duplex (Reader (concat (map message msgs)) io_EOF) u [] tr)
        = (Err io_EOF, Duplex (Reader [] io_EOF) u [] (tr ++ t))
    ∧ sent_up t = concat (map message msgs) ∧ logged t = entries env ∅ msgs.
Proof. apply forward_clean. Qed.

Lemma pg_query_log_is_exact_witness :
  let msgs := [("Q"%byte, §"select 1" ++ [NUL]); parse_message §"s" §"select 2"; execute_message §"s"] in
  let env := sample_env (inr io_EOF) in
  ∃ t, forwardClientMessages env (sample_reg []) ∅
         (Duplex (Reader (concat (map message msgs)) io_EOF) (Reader [] io_EOF) [] [])
        = (Err io_EOF, Duplex (Reader [] io_EOF) (Reader [] io_EOF) [] ([] ++ t))
    ∧ sent_up t = concat (map message msgs) ∧ logged t = entries env ∅ msgs.
Proof.
  intros msgs env. apply (@pg_query_log_is_exact ascii_tables env (sample_reg []) msgs (Reader [] io_EOF) []).
  repeat apply Forall_cons_2; try apply Forall_nil_2; split; by vm_compute.
Defined.

(** The log can be made to name another statement than the one that runs.
    An Execute message carries a portal, and Bind says which statement a portal
    runs; the proxy ignores Bind and looks the portal up among the statement
    names.  So a client that prepares a decoy under the empty name and any
    other statement under a name of its own, binds the unnamed portal to the
    latter and executes it, leaves one log entry, with the decoy's text, and
    everything it sent reaches the upstream. *)
Theorem pg_executed_statement_can_be_disguised `{Unicode} env reg decoy stmt sql u tr :
  NUL ∉ decoy → NUL ∉ stmt → NUL ∉ sql → stmt ≠ [] → TrimSpace decoy ≠ [] →
  zlen decoy + zlen stmt + zlen sql < 2 ^ 31 →
  let msgs := misleading_session decoy stmt sql in
  ∃ t, forwardClientMessages env reg ∅ (Duplex (Reader (concat (map message msgs)) io_EOF) u [] tr)
        = (Err io_EOF, Duplex (Reader [] io_EOF) u [] (tr ++ t))
    ∧ sent_up t = concat (map message msgs)
    ∧ logged t = [(truncate (TrimSpace decoy) (env_QueryMaxBytes env), §"extended", false)].
Proof.
  intros Hd Hn Hs Hne Hde Hl msgs. pose proof (zlen_nonneg decoy). pose proof (zlen_nonneg stmt).
  pose proof (zlen_nonneg sql).
  rewrite <- (misleading_entries env decoy stmt sql) by done. apply forward_clean.
  subst msgs. unfold misleading_session, parse_message, bind_message, execute_message.
  repeat apply Forall_cons_2; try apply Forall_nil_2; (split; [|done]); cbn [snd repeat];
    rewrite ?zlen_app, ?zlen_cons, ?zlen_app, ?zlen_cons; change (zlen (@nil byte)) with 0; lia.
Qed.

Lemma pg_executed_statement_can_be_disguised_witness :
  let msgs := misleading_session §"select 1" §"s" §"drop table invoices" in
  ∃ t, forwardClientMessages (sample_env (inr io_EOF)) (sample_reg []) ∅
         (Duplex (Reader (concat (map message msgs)) io_EOF) (Reader [] io_EOF) [] [])
        = (Err io_EOF, Duplex (Reader [] io_EOF) (Reader [] io_EOF) [] ([] ++ t))
    ∧ sent_up t = concat (map message msgs)
    ∧ logged t = [(§"select 1", §"extended", false)].
Proof.
  refine (@pg_executed_statement_can_be_disguised ascii_tables (sample_env (inr io_EOF)) (sample_reg [])
    §"select 1" §"s" §"drop table invoices" (Reader [] io_EOF) [] _ _ _ _ _ _);
    first [by vm_compute|apply (bool_decide_unpack _); by vm_compute].
Defined.

(** The upstream session is the registered user's: whatever startup packet
    the client sent, the packet the proxy sends decodes, as a server decodes
    it, to the registered user name, to the registered database when there is
    one, and to the client's own parameters (those that are not blank) for
    every other name. *)
Theorem pg_upstream_startup_is_the_registered_users reg0 reg raw t e :
  normalizeRegistration reg0 = inl reg → NUL ∉ p_Username reg → NUL ∉ p_Database reg →
  let params := upstreamParams reg (parseStartupParams raw) in
  let payload := startup_payload params in
  zlen payload + 4 < 2 ^ 32 →
  let got := parseStartupParams (drop 4 payload) in
  readStartupPacket (Reader (int32ToBytes (wrap 32 (zlen payload + 4)) ++ payload ++ t) e) = (Ok payload, Reader t e)
  ∧ uint32_at payload = protocolVersion3
  ∧ got !! §"user" = Some (p_Username reg)
  ∧ (p_Database reg ≠ [] → got !! §"database" = Some (p_Database reg))
  ∧ ∀ k v, k ≠ §"user" → k ≠ §"database" →
      got !! k = Some v ↔ parseStartupParams raw !! k = Some v ∧ v ≠ [].
Proof.
  intros Hreg Hun Hdn params payload Hl got.
  assert (Hn : TrimSpace (p_Username reg) = p_Username reg ∧ p_Username reg ≠ []
      ∧ TrimSpace (p_Database reg) = p_Database reg).
  { unfold normalizeRegistration in Hreg. cbv zeta in Hreg. repeat (case_match; [done|]). injection Hreg as <-.
    gobool. cbn [p_Username p_Database] in *. split_and!; [apply TrimSpace_idem|done|apply TrimSpace_idem]. }
  destruct Hn as (Hu & Hune & Hd).
  pose proof (parse_startup_payload params (upstreamParams_clean reg raw Hu Hun Hd Hdn)) as Hgot.
  assert (Huser : params !! §"user" = Some (p_Username reg)).
  { subst params. unfold upstreamParams. set (database := if bool_decide (p_Database reg = []) then _ else _).
    case_bool_decide; [|rewrite lookup_insert_ne by (by apply (bool_decide_unpack _); vm_compute)];
      apply lookup_insert_eq. }
  split_and!.
  - by apply startup_packet_read.
  - unfold payload, startup_payload. by rewrite uint32_at_bytes.
  - by apply Hgot.
  - intros Hne. apply Hgot. split; [|done]. subst params. unfold upstreamParams.
    rewrite (bool_decide_false (p_Database reg = [])) by done. rewrite bool_decide_false by done.
    apply lookup_insert_eq.
  - intros k v Hk1 Hk2. transitivity (params !! k = Some v ∧ v ≠ []); [apply Hgot|].
    clear Hgot Huser got Hl payload. subst params. unfold upstreamParams.
    set (database := if bool_decide (p_Database reg = []) then _ else _).
    case_bool_decide; [|rewrite lookup_insert_ne by done]; by rewrite lookup_insert_ne by done.
Qed.

Lemma pg_upstream_startup_is_the_registered_users_witness :
  let raw := §"user" ++ NUL :: §"postgres" ++ NUL :: §"application_name" ++ NUL :: §"psql" ++ [NUL; NUL] in
  parseStartupParams (drop 4 (startup_payload (upstreamParams (sample_reg []) (parseStartupParams raw)))) !! §"user"
  = Some §"svc".
Proof.
  intros raw.
  refine (proj1 (proj2 (proj2 (pg_upstream_startup_is_the_registered_users (sample_reg []) (sample_reg []) raw
    [] io_EOF _ _ _ _)))); first [by vm_compute|apply (bool_decide_unpack _); by vm_compute].
Defined.

(** A required TLS protects the credential and the client's session: when
    the asset's ssl_mode requires TLS and the handshake cannot be completed,
    the flow fails before the relay, and all that is ever written to the
    upstream is (a prefix of) the request for TLS, whatever both sides send. *)
Theorem pg_required_tls_protects_the_session `{Unicode} env reg w e :
  RequireTLS (classifySSLMode (p_SSLMode reg)) = true →
  env_tls env (p_UpstreamHost reg) (VerifyCert (classifySSLMode (p_SSLMode reg))) = inr e →
  adds ssl_request_only w (runProxyFlow env reg w).2 ∧ is_ok (runProxyFlow env reg w).1 = false.
Proof. apply flow_refused. Qed.

Lemma pg_required_tls_protects_the_session_witness :
  let startup := int32ToBytes 8 ++ int32ToBytes protocolVersion3 in
  let w := Duplex (Reader startup io_EOF) (Reader §"S" io_EOF) [] [] in
  let env := sample_env (inr (Errorf §"bad certificate")) in let reg := sample_reg §"verify-full" in
  adds ssl_request_only w (runProxyFlow env reg w).2 ∧ is_ok (runProxyFlow env reg w).1 = false.
Proof.
  intros startup w env reg.
  apply (@pg_required_tls_protects_the_session ascii_tables env reg w (Errorf §"bad certificate"));
    vm_compute; reflexivity.
Defined.

(** The key derivation is PBKDF2: the accumulating loop of [scramHi] gives
    the exclusive or of all iterates of the pseudorandom function, for every
    iteration count, the degenerate ones (below two) included. *)
Theorem scramHi_computes_pbkdf2 password salt iterations :
  scramHi password salt iterations = pbkdf2 password salt (Z.to_nat iterations).
Proof. apply scramHi_is_pbkdf2. Qed.

(** The exchange completes with every honest upstream: one that offers
    SCRAM-SHA-256, extends the client's nonce, announces a salt and a positive
    iteration count and signs with the key of the same password gets a success,
    with exactly two messages written; the second carries a proof that the
    upstream's own check against its stored key accepts. *)
Theorem scram_completes_with_an_honest_upstream `{Unicode} env mechs username password nonce sn salt i w rest e :
  §"SCRAM-SHA-256" ∈ SplitByte (TrimRightByte mechs NUL) NUL →
  env_random env = inl nonce → nonce ≠ [] → ","%byte ∉ sn → 1 <= i <= max_int64 → dx_faults w = [] →
  let cn := std_encode nonce in
  let first := server_first cn sn salt i in
  let salted := pbkdf2 password salt (Z.to_nat i) in
  let msg := authMessage username cn first (cn ++ sn) in
  zlen first + 8 < 2 ^ 32 →
  dx_upstream w = Reader (server_messages username cn sn salt i salted
                          ++ message ("R"%byte, int32ToBytes 0) ++ rest) e →
  ∃ t proof, handleSCRAMAuth env mechs username password w
       = (Ok tt, Duplex (dx_client w) (Reader rest e) [] (dx_trace w ++ t))
    ∧ sent_up t = message ("p"%byte, client_first_payload username cn)
        ++ message ("p"%byte, client_final_payload (cn ++ sn) proof)
    ∧ server_accepts (stored_key salted) proof msg = true.
Proof.
  intros Hm Hr Hne Hsn Hi Hf cn first salted msg Hl Hu.
  destruct (scram_runs env mechs username password nonce sn salt i w _ e Hm Hr Hne Hsn Hi Hf Hl Hu)
    as (t & E & Hp). exists t, (clientProof salted msg). rewrite E.
  split_and!; [by erewrite sasl_ok_ok by reflexivity|by apply pieces_up|apply client_proof_accepted].
Qed.

Lemma scram_completes_with_an_honest_upstream_witness :
  let salted := pbkdf2 §"pencil" §"salt" 2 in
  let msg := authMessage §"svc" sample_nonce sample_first (sample_nonce ++ §"%hvY") in
  let w := Duplex (Reader [] io_EOF) (Reader (server_messages §"svc" sample_nonce §"%hvY" §"salt" 2 salted
             ++ message ("R"%byte, int32ToBytes 0) ++ []) io_EOF) [] [] in
  ∃ t proof, handleSCRAMAuth (sample_env (inr io_EOF)) (§"SCRAM-SHA-256" ++ [NUL; NUL]) §"svc" §"pencil" w
       = (Ok tt, Duplex (Reader [] io_EOF) (Reader [] io_EOF) [] ([] ++ t))
    ∧ sent_up t = message ("p"%byte, client_first_payload §"svc" sample_nonce)
        ++ message ("p"%byte, client_final_payload (sample_nonce ++ §"%hvY") proof)
    ∧ server_accepts (stored_key salted) proof msg = true.
Proof.
  intros salted msg w.
  refine (@scram_completes_with_an_honest_upstream ascii_tables (sample_env (inr io_EOF))
    (§"SCRAM-SHA-256" ++ [NUL; NUL]) §"svc" §"pencil" §"nonce" §"%hvY" §"salt" 2 w [] io_EOF _ _ _ _ _ _ _ _);
    first [reflexivity|done|apply (bool_decide_unpack _); by vm_compute|unfold max_int64; lia|by vm_compute].
Defined.

(** The upstream authenticates itself: the exchange succeeds only when the
    upstream's final message carries the signature, under the server key of the
    proxy's own password, of the exchange with this run's fresh nonce; and all
    the proxy wrote is the two messages of the protocol. *)
Theorem scram_success_authenticates_the_upstream `{Unicode} env mechs username password w w' :
  handleSCRAMAuth env mechs username password w = (Ok tt, w') →
  ∃ nonce first serverNonce sig proof t b,
    env_random env = inl nonce
    ∧ proves_itself username password (std_encode nonce) first serverNonce sig
    ∧ rd_buf (dx_upstream w) = message ("R"%byte, int32ToBytes 11 ++ first)
        ++ message ("R"%byte, int32ToBytes 12 ++ §"v=" ++ sig) ++ b ++ rd_buf (dx_upstream w')
    ∧ dx_trace w' = dx_trace w ++ t
    ∧ sent_up t = message ("p"%byte, client_first_payload username (std_encode nonce))
        ++ message ("p"%byte, client_final_payload serverNonce proof).
Proof.
  intros (nonce & first & sn & sig & proof & t & b & ? & ? & ? & ? & Hp)%scram_success.
  exists nonce, first, sn, sig, proof, t, b. split_and!; try done. by apply pieces_up.
Qed.

Lemma scram_success_authenticates_the_upstream_witness :
  let salted := pbkdf2 §"pencil" §"salt" 2 in
  let w := Duplex (Reader [] io_EOF) (Reader (server_messages §"svc" sample_nonce §"%hvY" §"salt" 2 salted
             ++ message ("R"%byte, int32ToBytes 0)) io_EOF) [] [] in
  let w' := (handleSCRAMAuth (sample_env (inr io_EOF)) §"SCRAM-SHA-256" §"svc" §"pencil" w).2 in
  ∃ nonce first serverNonce sig proof t b,
    env_random (sample_env (inr io_EOF)) = inl nonce
    ∧ proves_itself §"svc" §"pencil" (std_encode nonce) first serverNonce sig
    ∧ rd_buf (dx_upstream w) = message ("R"%byte, int32ToBytes 11 ++ first)
        ++ message ("R"%byte, int32ToBytes 12 ++ §"v=" ++ sig) ++ b ++ rd_buf (dx_upstream w')
    ∧ dx_trace w' = dx_trace w ++ t
    ∧ sent_up t = message ("p"%byte, client_first_payload §"svc" (std_encode nonce))
        ++ message ("p"%byte, client_final_payload serverNonce proof).
Proof.
  intros salted w w'.
  apply (@scram_success_authenticates_the_upstream ascii_tables (sample_env (inr io_EOF)) §"SCRAM-SHA-256"
    §"svc" §"pencil" w w').
  assert (Hok : (handleSCRAMAuth (sample_env (inr io_EOF)) §"SCRAM-SHA-256" §"svc" §"pencil" w).1 = Ok tt)
    by (vm_compute; reflexivity).
  unfold w'. destruct (handleSCRAMAuth _ _ _ _ w) as [o w1]. cbn [fst snd] in *. by rewrite Hok.
Defined.

(** An upstream can crash the whole API process: when, after a valid
    signature, it sends any message but an error whose body is shorter than
    four bytes (ReadyForQuery is one), the error text is formatted from a slice
    beyond the payload, which panics, and nothing recovers. *)
Theorem scram_short_final_message_panics `{Unicode} env mechs username password nonce sn salt i w k p rest e :
  §"SCRAM-SHA-256" ∈ SplitByte (TrimRightByte mechs NUL) NUL →
  env_random env = inl nonce → nonce ≠ [] → ","%byte ∉ sn → 1 <= i <= max_int64 → dx_faults w = [] →
  let cn := std_encode nonce in
  let salted := pbkdf2 password salt (Z.to_nat i) in
  zlen (server_first cn sn salt i) + 8 < 2 ^ 32 →
  k ≠ "E"%byte → (length p < 4)%nat →
  dx_upstream w = Reader (server_messages username cn sn salt i salted ++ message (k, p) ++ rest) e →
  (handleSCRAMAuth env mechs username password w).1 = Panic §"runtime error: slice bounds out of range".
Proof.
  intros Hm Hr Hne Hsn Hi Hf cn salted Hl Hk Hp Hu.
  destruct (scram_runs env mechs username password nonce sn salt i w _ e Hm Hr Hne Hsn Hi Hf Hl Hu) as (t & -> & _).
  by eapply sasl_ok_panics.
Qed.

Lemma scram_short_final_message_panics_witness :
  let salted := pbkdf2 §"pencil" §"salt" 2 in
  let w := Duplex (Reader [] io_EOF) (Reader (server_messages §"svc" sample_nonce §"%hvY" §"salt" 2 salted
             ++ message ("Z"%byte, §"I") ++ []) io_EOF) [] [] in
  (handleSCRAMAuth (sample_env (inr io_EOF)) (§"SCRAM-SHA-256" ++ [NUL; NUL]) §"svc" §"pencil" w).1
  = Panic §"runtime error: slice bounds out of range".
Proof.
  intros salted w.
  refine (@scram_short_final_message_panics ascii_tables (sample_env (inr io_EOF))
    (§"SCRAM-SHA-256" ++ [NUL; NUL]) §"svc" §"pencil" §"nonce" §"%hvY" §"salt" 2 w "Z"%byte §"I" [] io_EOF
    _ _ _ _ _ _ _ _ _ _);
    first [reflexivity|done|apply (bool_decide_unpack _); by vm_compute|unfold max_int64; lia|by vm_compute|cbn; lia].
Defined.

(** Every connection is marked on the session record: first
    [MarkProxyConnected], then exactly one terminal mark, [MarkEnded] when the
    handler returns no error and [MarkFailed] when it does (none after a
    panic); what the goroutine the relay did not wait for still does follows
    it.  The handler always ends, under every schedule. *)
Theorem pg_connection_is_marked_once `{Unicode} env reg w :
  ∃ t t' o w', handleSessionConn env reg w = (o, w')
    ∧ dx_trace w' = dx_trace w
        ++ Enqueue (MarkProxyConnected (launchContext reg) (env_remote_addr env)) :: t ++ closing (launchContext reg) o ++ t'
    ∧ forallb not_terminal (t ++ t') = true ∧ o ≠ OutOfFuel.
Proof. apply (session_conn_spec (pg_protocol env reg)); [apply _|apply pg_calm_flow|apply pg_ends_flow]. Qed.
