(* ===== verification/Mongo.v ===== *)
(** The MongoDB proxy (apps/api/internal/mongoproxy/server.go): registration,
    the SCRAM-SHA-256 login on the upstream in OP_MSG messages, and the copy of
    both directions.

    The BSON codec of the driver and x/crypto's PBKDF2 are not part of the
    repository: they are the class [Driver].  What the service does with its
    listeners is the code of the other proxies (Lifecycle.v), without a log
    queue. *)
From S2P Require Import Prelude GoStrings GoBinary GoCrypto GoEncoding GoIO ProxyEvents ProxyRuns Relay.

(** A document as the proxy builds it. *)
Inductive bson_value := BInt32 (z : Z) | BString (s : bytes) | BBinary (data : bytes).
Class Driver := {
  (** [bson.Marshal]. *)
  bson_marshal : list (bytes * bson_value) → bytes + error;
  (** [bson.Unmarshal] of the field ok: is it 1? *)
  bson_ok : bytes → bool + error;
  (** Of codeName and errmsg, zero values on an error. *)
  bson_failure : bytes → bytes * bytes;
  (** Of conversationId and payload. *)
  bson_sasl : bytes → (Z * bytes) + error;
  (** [pbkdf2.Key(password, salt, iter, 32, sha256.New)]. *)
  pbkdf2_Key : bytes → bytes → Z → bytes;
}.

Record SessionRegistration := {
  g_SessionID : bytes;
  g_UserID : bytes;
  g_AssetID : bytes;
  g_AssetName : bytes;
  g_Engine : bytes;
  g_Database : bytes;
  g_SSLMode : bytes;
  g_UpstreamHost : bytes;
  g_UpstreamPort : Z;
  g_RequestID : bytes;
}.

Definition normalizeEngine `{Unicode} (engine : bytes) : bytes :=
  let e := ToLower (TrimSpace engine) in
  if bool_decide (e = §"mongo") || bool_decide (e = §"mongodb") then §"mongo" else TrimSpace engine.

(** [RegisterSession] up to the listener. *)
Definition normalizeRegistration `{Unicode} (reg : SessionRegistration) : SessionRegistration + error :=
  let reg := {|
    g_SessionID := TrimSpace (g_SessionID reg);
    g_UserID := TrimSpace (g_UserID reg);
    g_AssetID := TrimSpace (g_AssetID reg);
    g_AssetName := TrimSpace (g_AssetName reg);
    g_Engine := normalizeEngine (g_Engine reg);
    g_Database := TrimSpace (g_Database reg);
    g_SSLMode := TrimSpace (g_SSLMode reg);
    g_UpstreamHost := TrimSpace (g_UpstreamHost reg);
    g_UpstreamPort := g_UpstreamPort reg;
    g_RequestID := TrimSpace (g_RequestID reg) |} in
  if bool_decide (g_SessionID reg = []) || bool_decide (g_UserID reg = [])
     || bool_decide (g_AssetID reg = [])
  then inr (Errorf §"session_id, user_id, and asset_id are required")
  else if bool_decide (g_UpstreamHost reg = []) || (g_UpstreamPort reg <=? 0)
          || (65535 <? g_UpstreamPort reg)
  then inr (Errorf §"upstream host and port are required")
  else inl reg.

Definition launchContext (reg : SessionRegistration) (upstreamUsername : bytes) : LaunchContext := {|
  l_SessionID := g_SessionID reg;
  l_UserID := g_UserID reg;
  l_AssetID := g_AssetID reg;
  l_AssetName := g_AssetName reg;
  l_RequestID := g_RequestID reg;
  l_Action := §"dbeaver";
  l_Protocol := ProtocolDB;
  l_AssetType := TypeDatabase;
  l_Host := g_UpstreamHost reg;
  l_Port := g_UpstreamPort reg;
  l_UpstreamUsername := upstreamUsername;
  l_Status := [];
  l_ExpiresAt := 0 |}.

Record environment := {
  env_remote_addr : bytes;
  (** [net.DialTimeout] to the registered host and port. *)
  env_dial : bytes → Z → option error;
  env_credential : bytes → credential + error;
  (** The 18 random bytes of the nonce. *)
  env_random : bytes + error;
  (** [time.Now().UnixNano()] of the two commands. *)
  env_clock : nat → Z;
  (** The turns of the two copies. *)
  env_schedule : list (side * nat);
}.

(** * OP_MSG *)

Definition opMsgCode : Z := 2013.

(** [buf[0:4] .. buf[20]], then the document. *)
Definition buildMongoOpMsg (reqID : Z) (doc : bytes) : bytes :=
  let bodyLen := 4 + 1 + zlen doc in
  let msgLen := 16 + bodyLen in
  le_bytes 4 (wrap 32 msgLen) ++ le_bytes 4 (wrap 32 reqID) ++ le_bytes 4 0 ++ le_bytes 4 opMsgCode
  ++ le_bytes 4 0 ++ z2b 0 :: doc.

(** The frame of a reply: the document, before it is decoded. *)
Definition readOpMsg : M reader bytes :=
  let! header := ReadFull 16 in
  let msgLen := le_value (slice header 0 4) in
  if msgLen <? 21 then fail (Errorf (§"invalid mongo message length " ++ Itoa msgLen))
  else
    let opCode := swrap 32 (le_value (slice header 12 16)) in
    if negb (opCode =? opMsgCode) then fail (Errorf (§"unsupported mongo opcode " ++ Itoa opCode))
    else
      do! makeslice 1 (msgLen - 16) in
      let! body := ReadFull (msgLen - 16) in
      if (length body <? 5)%nat then fail (Errorf §"invalid mongo response body")
      else if negb (at_byte body 4 =? 0)
      then fail (Errorf (§"unsupported mongo response section " ++ Itoa (at_byte body 4)))
      else ret (drop 5 body).

Section Service.
Context `{Unicode} `{Driver} (env : environment) (reg : SessionRegistration).

Definition readMongoCommandReply : M world bytes :=
  let! doc := upstream_read readOpMsg in
  match bson_ok doc with
  | inr e => fail e
  | inl true => ret doc
  | inl false =>
      let '(codeName, errMsg) := bson_failure doc in
      if bool_decide (TrimSpace errMsg = []) then fail (Errorf §"mongo command failed")
      else fail (Errorf (§"mongo command failed: " ++ errMsg ++ §" (" ++ codeName ++ §")"))
  end.

Definition mongoRunCommand (now : Z) (doc : list (bytes * bson_value)) : M world bytes :=
  let reqID := swrap 32 now in
  match bson_marshal doc with
  | inr e => fail e
  | inl bodyDoc => do! upstream_write (buildMongoOpMsg reqID bodyDoc) in readMongoCommandReply
  end.

(** * SCRAM-SHA-256 *)

Definition authDatabase (db : bytes) : bytes :=
  let clean := TrimSpace db in if bool_decide (clean = []) then §"admin" else clean.

Definition escapeSCRAMUsername (username : bytes) : bytes :=
  ReplaceByte (ReplaceByte username "="%byte §"=3D") ","%byte §"=2C".

(** [strings.SplitN(p, "=", 2)]. *)
Definition split_pair (p : bytes) : option (bytes * bytes) :=
  match IndexByte p "="%byte with
  | Some n => Some (take n p, drop (S n) p)
  | None => None
  end.
Fixpoint scram_fields (parts : list bytes) (out : gmap bytes bytes) : gmap bytes bytes + error :=
  match parts with
  | [] => inl out
  | p :: rest =>
      let p := TrimSpace p in
      if bool_decide (p = []) then scram_fields rest out
      else match split_pair p with
           | None => inr (Errorf (§"invalid scram field " ++ p))
           | Some (k, v) => scram_fields rest (<[TrimSpace k := TrimSpace v]> out)
           end
  end.
Definition parseSCRAMFields (msg : bytes) : gmap bytes bytes + error :=
  scram_fields (SplitByte (TrimSpace msg) ","%byte) ∅.

(** A map read as Go does: a missing key is the empty text. *)
Definition field (fields : gmap bytes bytes) (k : bytes) : bytes := TrimSpace (default [] (fields !! k)).

Definition xorBytes (a b : bytes) : bytes := zip_with (λ x y, z2b (Z.lxor (b2z x) (b2z y))) a b.

Definition clientFirstBare (username nonce : bytes) : bytes :=
  §"n=" ++ escapeSCRAMUsername username ++ §",r=" ++ nonce.
Definition clientFinalNoProof (serverNonce : bytes) : bytes := §"c=biws,r=" ++ serverNonce.
Definition authMessage (username nonce serverFirst serverNonce : bytes) : bytes :=
  clientFirstBare username nonce ++ §"," ++ serverFirst ++ §"," ++ clientFinalNoProof serverNonce.
Definition clientProof (saltedPassword message : bytes) : bytes :=
  let clientKey := hmac_sha256 saltedPassword §"Client Key" in
  xorBytes clientKey (hmac_sha256 (sha256 clientKey) message).
Definition expectedServerSignature (saltedPassword message : bytes) : bytes :=
  hmac_sha256 (hmac_sha256 saltedPassword §"Server Key") message.

Definition sasl_start (clientFirst authDB : bytes) : list (bytes * bson_value) :=
  [(§"saslStart", BInt32 1); (§"mechanism", BString §"SCRAM-SHA-256"); (§"payload", BBinary clientFirst);
   (§"autoAuthorize", BInt32 1); (§"$db", BString authDB)].
Definition sasl_continue (convID : Z) (clientFinal authDB : bytes) : list (bytes * bson_value) :=
  [(§"saslContinue", BInt32 1); (§"conversationId", BInt32 convID); (§"payload", BBinary clientFinal);
   (§"$db", BString authDB)].

(** A call of which the error is wrapped. *)
Definition lift_error {A} (msg : bytes) (r : A + error) : M world A :=
  match r with inl a => ret a | inr e => fail (Wrap msg e) end.

(** The fields of a server-first-message: nonce, salt and iterations. *)
Definition server_first (nonce serverFirst : bytes) : M world (bytes * bytes * Z) :=
  let! fields := lift_error §"parse server-first-message" (parseSCRAMFields serverFirst) in
  let serverNonce := field fields §"r" in
  guard! negb (bool_decide (serverNonce = []) || negb (HasPrefix serverNonce nonce))
    else Errorf §"invalid server nonce" in
  let saltB64 := field fields §"s" in
  let iterationsRaw := field fields §"i" in
  guard! negb (bool_decide (saltB64 = []) || bool_decide (iterationsRaw = []))
    else Errorf §"server-first-message missing salt/iterations" in
  match std_decode saltB64 with
  | None => fail (Errorf §"decode salt")
  | Some salt =>
      match Atoi iterationsRaw with
      | Some iterations =>
          guard! 0 <? iterations else Errorf §"invalid iterations" in ret (serverNonce, salt, iterations)
      | None => fail (Errorf §"invalid iterations")
      end
  end.

(** The verifier of a server-final-message. *)
Definition server_final (serverFinal expected : bytes) : M world unit :=
  let! fields := lift_error §"parse server-final-message" (parseSCRAMFields serverFinal) in
  let serverSignatureB64 := field fields §"v" in
  guard! negb (bool_decide (serverSignatureB64 = [])) else Errorf §"server-final-message missing verifier" in
  match std_decode serverSignatureB64 with
  | None => fail (Errorf §"decode server verifier")
  | Some serverSignature =>
      guard! bool_decide (serverSignature = expected) else Errorf §"server verifier mismatch" in ret tt
  end.

Definition authenticateUpstreamMongo (username password authDB : bytes) : M world unit :=
  let! raw := lift_error §"generate nonce" (env_random env) in
  let nonce := std_encode raw in
  let clientFirst := §"n,," ++ clientFirstBare username nonce in
  let! startResp := wrap_err §"saslStart" (mongoRunCommand (env_clock env 0) (sasl_start clientFirst authDB)) in
  let! (convID, serverFirst) := lift_error §"parse saslStart response" (bson_sasl startResp) in
  let! (serverNonce, salt, iterations) := server_first nonce serverFirst in
  let message := authMessage username nonce serverFirst serverNonce in
  let saltedPassword := pbkdf2_Key password salt iterations in
  let clientFinal := clientFinalNoProof serverNonce ++ §",p=" ++ std_encode (clientProof saltedPassword message) in
  let! continueResp := wrap_err §"saslContinue"
    (mongoRunCommand (env_clock env 1) (sasl_continue convID clientFinal authDB)) in
  let! (_, serverFinal) := lift_error §"parse saslContinue response" (bson_sasl continueResp) in
  server_final serverFinal (expectedServerSignature saltedPassword message).

(** * The copies *)

(** One round of [io.Copy(upstream, client)]. *)
Definition copy_up (n : nat) : M world bool :=
  let! w := get in
  let r := dx_client w in
  if bool_decide (rd_buf r = []) then
    if bool_decide (rd_end r = io_EOF) then ret false else fail (rd_end r)
  else
    let k := S n in
    do! client_read (modify (λ r, Reader (drop k (rd_buf r)) (rd_end r))) in
    do! upstream_write (take k (rd_buf r)) in
    ret true.
Definition copy_side (s : side) (n : nat) : M world bool :=
  match s with Front => copy_up n | Back => copy_chunk n end.

Definition normalizeProxyErr (err : option error) : option error :=
  match err with
  | Some e => if errors_is e §"io.EOF" || errors_is e §"net.ErrClosed" then None else Some e
  | None => None
  end.

(** The copies that are still running, and the results sent so far. *)
Record copies := Copies { cp_front : bool; cp_back : bool; cp_results : list (option error) }.
Definition running (c : copies) (s : side) : bool := match s with Front => cp_front c | Back => cp_back c end.
Definition finish (c : copies) (s : side) (err : option error) : copies :=
  let results := cp_results c ++ [normalizeProxyErr err] in
  match s with
  | Front => Copies false (cp_back c) results
  | Back => Copies (cp_front c) false results
  end.
Definition copy_turn (c : copies) (s : side) (n : nat) : M world copies :=
  if running c s then
    let! r := try (copy_side s n) in
    ret match r with
        | inr e => finish c s (Some e)
        | inl false => finish c s None
        | inl true => c
        end
  else ret c.
Fixpoint copy_turns (sched : list (side * nat)) (c : copies) : M world copies :=
  match sched with
  | [] => ret c
  | (s, n) :: rest => let! c := copy_turn c s n in copy_turns rest c
  end.
(** What is left when the schedule ends: first the one, then the other. *)
Definition copy_rest (c : copies) (s : side) : M world copies :=
  let! w := get in
  let left := length (rd_buf match s with Front => dx_client w | Back => dx_upstream w end) in
  copy_turns (repeat (s, left) 2) c.

Definition proxyBidirectional : M world unit :=
  let! c := copy_turns (env_schedule env) (Copies true true []) in
  let! c := copy_rest c Front in
  let! c := copy_rest c Back in
  match cp_results c with
  | Some first :: _ => fail first
  | None :: Some second :: _ => fail second
  | _ => ret tt
  end.

(** * A session *)

Definition connectUpstream : M world unit :=
  match env_dial env (g_UpstreamHost reg) (g_UpstreamPort reg) with Some e => fail e | None => ret tt end.

Definition runProxyFlow : M world unit :=
  do! wrap_err §"connect upstream" connectUpstream in
  match env_credential env (g_AssetID reg) with
  | inr e => fail (Wrap §"resolve mongo credential" e)
  | inl cred =>
      let username := TrimSpace (cr_Username cred) in
      let lctx := launchContext reg username in
      do! enqueue (RecordCredentialUsage lctx §"db_password" §"proxy_upstream_auth" (g_RequestID reg)) in
      do! wrap_err §"upstream auth"
            (authenticateUpstreamMongo username (cr_Secret cred) (authDatabase (g_Database reg))) in
      do! enqueue (MarkUpstreamConnected lctx) in
      proxyBidirectional
  end.

Definition handleSessionConn : M world unit :=
  let lctx := launchContext reg [] in
  do! enqueue (MarkProxyConnected lctx (env_remote_addr env)) in
  let! r := try runProxyFlow in
  match r with
  | inr err => do! enqueue (MarkFailed lctx §"db_proxy_failed") in fail err
  | inl _ => enqueue (MarkEnded lctx §"db_client_disconnected")
  end.
End Service.
