(* ===== verification/MongoSpec.v ===== *)
(** What the MongoDB proxy guarantees: the client waits for an authenticated
    upstream, and afterwards both directions are copied byte for byte; nothing
    of it is logged. *)
From S2P Require Import Prelude GoStrings GoBinary GoCrypto GoEncoding GoIO ProxyEvents ProxyRuns Relay Mongo.

(** * The copies *)

(** What is sent to either side, and nothing else. *)
Definition is_copy (e : event) : bool := match e with ToClient _ | ToUpstream _ => true | _ => false end.

(** The copies from [w0] to [w]: [u] and [d] have been read, and what was sent is
    that, but for a last write that failed; a copy that still runs has sent all
    it has read. *)
Record copied (w0 : world) (c : copies) (w : world) (t : list event) (u d : bytes) : Prop := {
  cd_trace : dx_trace w = dx_trace w0 ++ t;
  cd_copy : forallb is_copy t = true;
  cd_client : dx_client w0 = Reader (u ++ rd_buf (dx_client w)) (rd_end (dx_client w));
  cd_upstream : dx_upstream w0 = Reader (d ++ rd_buf (dx_upstream w)) (rd_end (dx_upstream w));
  cd_up : sent_up t `prefix_of` u;
  cd_down : sent_down t `prefix_of` d;
  cd_front_runs : cp_front c = true → sent_up t = u;
  cd_back_runs : cp_back c = true → sent_down t = d;
  cd_clean : dx_faults w0 = [] → dx_faults w = [] ∧ sent_up t = u ∧ sent_down t = d;
}.

(** How a copy has ended, without faults. *)
Definition ended (c : copies) : nat := (if cp_front c then 0 else 1) + (if cp_back c then 0 else 1).
Record clean_copies (w0 : world) (c : copies) (w : world) : Prop := {
  cc_count : length (cp_results c) = ended c;
  cc_front : cp_front c = false → rd_buf (dx_client w) = [];
  cc_back : cp_back c = false → rd_buf (dx_upstream w) = [];
  cc_eof : rd_end (dx_client w0) = io_EOF → rd_end (dx_upstream w0) = io_EOF → Forall (λ r, r = None) (cp_results c);
}.
Definition copying (w0 : world) (c : copies) (w : world) : Prop :=
  (∃ t u d, copied w0 c w t u d) ∧ (dx_faults w0 = [] → clean_copies w0 c w).

Lemma copying_here w : copying w (Copies true true []) w.
Proof.
  split; [|by constructor]. exists [], [], []. constructor; try done; [by rewrite app_nil_r|by destruct (dx_client w)|by destruct (dx_upstream w)].
Qed.

(** One write of a copy. *)
Lemma copy_write (side : bytes → event) b w : ∃ o p faults,
  write_to side b w = (o, Duplex (dx_client w) (dx_upstream w) faults (dx_trace w ++ [side p])) ∧
  p `prefix_of` b ∧ (o = Ok tt ∧ p = b ∨ ∃ e, o = Err e) ∧ (dx_faults w = [] → o = Ok tt ∧ p = b ∧ faults = []).
Proof.
  unfold write_to. destruct (dx_faults w) as [|[[k e]|] fs] eqn:E.
  - exists (Ok tt), b, []. split_and!; try done. by left.
  - exists (Err e), (take k b), fs. split_and!; try done; [|right; by exists e]. exists (drop k b). by rewrite take_drop.
  - exists (Ok tt), b, fs. split_and!; try done. by left.
Qed.

(** One round of a copy: at the end of the stream it ends, before it takes a
    chunk and sends it. *)
Inductive round (side : bytes → event) (r : reader) (n : nat) : outcome bool → reader → option bytes → Prop :=
| round_eof : rd_buf r = [] → rd_end r = io_EOF → round side r n (Ok false) r None
| round_error : rd_buf r = [] → rd_end r ≠ io_EOF → round side r n (Err (rd_end r)) r None
| round_sent : rd_buf r ≠ [] →
    round side r n (Ok true) (Reader (drop (S n) (rd_buf r)) (rd_end r)) (Some (take (S n) (rd_buf r)))
| round_cut p e : rd_buf r ≠ [] → p `prefix_of` take (S n) (rd_buf r) →
    round side r n (Err e) (Reader (drop (S n) (rd_buf r)) (rd_end r)) (Some p).
Definition sent_event (side : bytes → event) (p : option bytes) : list event :=
  match p with Some b => [side b] | None => [] end.


(** A round from the code of a copy. *)
Ltac copy_round rd n w :=
  unfold bind, get; destruct (bool_decide (rd_buf (rd w) = [])) eqn:?; gobool;
  [destruct (bool_decide (rd_end (rd w) = io_EOF)) eqn:?; gobool;
   [exists (Ok false)|exists (Err (rd_end (rd w)))]; exists (rd w), None, (dx_faults w); rewrite app_nil_r;
   (split_and!; [first [by apply round_eof|by apply round_error]|by destruct w|done])|];
  unfold client_read, upstream_read, zoom, modify, upstream_write, client_write; cbv beta iota;
  match goal with |- context [write_to ?side ?b ?w1] =>
    let Hf := fresh "Hf" in
    destruct (copy_write side b w1) as (o & p & fs & -> & ? & Ho & Hf);
    exists (match o with Ok _ => Ok true | Err e => Err e | Panic x => Panic x | OutOfFuel => OutOfFuel end),
      (Reader (drop (S n) (rd_buf (rd w))) (rd_end (rd w))), (Some p), fs;
    (split_and!; [destruct Ho as [[-> ->]|[e ->]]; [by apply round_sent|by apply round_cut]|by destruct Ho as [[-> _]|[e ->]]|]);
    intros H0; destruct (Hf H0) as (-> & -> & ->); split; [done|]; by intros b' [= <-]
  end.
Lemma copy_up_round n w : ∃ o r p faults, round ToUpstream (dx_client w) n o r p ∧
  copy_up n w = (o, Duplex r (dx_upstream w) faults (dx_trace w ++ sent_event ToUpstream p)) ∧
  (dx_faults w = [] → faults = [] ∧ ∀ b, p = Some b → b = take (S n) (rd_buf (dx_client w)) ∧ o = Ok true).
Proof. unfold copy_up. copy_round (dx_client (E:=call)) n w. Qed.
Lemma copy_down_round n w : ∃ o r p faults, round ToClient (dx_upstream w) n o r p ∧
  copy_chunk n w = (o, Duplex (dx_client w) r faults (dx_trace w ++ sent_event ToClient p)) ∧
  (dx_faults w = [] → faults = [] ∧ ∀ b, p = Some b → b = take (S n) (rd_buf (dx_upstream w)) ∧ o = Ok true).
Proof. unfold copy_chunk. copy_round (dx_upstream (E:=call)) n w. Qed.

Lemma sent_up_event p : sent_up (sent_event ToUpstream p) = default [] p ∧ sent_down (sent_event ToUpstream p) = [].
Proof. destruct p; cbn; by rewrite ?app_nil_r. Qed.
Lemma sent_down_event p : sent_down (sent_event ToClient p) = default [] p ∧ sent_up (sent_event ToClient p) = [].
Proof. destruct p; cbn; by rewrite ?app_nil_r. Qed.

Lemma round_reads side r n o r' p : round side r n o r' p →
  ∃ k, r = Reader (k ++ rd_buf r') (rd_end r') ∧ default [] p `prefix_of` k ∧
    (o = Ok true → default [] p = k ∧ (length (rd_buf r') < length (rd_buf r))%nat ∧
                   ((length (rd_buf r) <= S n)%nat → rd_buf r' = [])) ∧
    (o = Ok true ∨ p = None ∧ k = [] ∧ rd_buf r' = [] ∧ (o = Ok false ∨ o = Err (rd_end r) ∧ rd_end r ≠ io_EOF) ∨
     (∃ b, p = Some b) ∧ ∃ e, o = Err e).
Proof.
  assert (Hsplit : Reader (take (S n) (rd_buf r) ++ drop (S n) (rd_buf r)) (rd_end r) = r) by (rewrite take_drop; by destruct r).
  intros [Hb He|Hb He|Hb|p' e Hb Hp]; [exists []|exists []|exists (take (S n) (rd_buf r))|exists (take (S n) (rd_buf r))];
    cbn [rd_buf rd_end default]; rewrite ?Hsplit.
  - split_and!; [by destruct r|done|done|]. right. left. split_and!; auto.
  - split_and!; [by destruct r|done|done|]. right. left. split_and!; auto.
  - split_and!; [done|done| |by left]. intros _. split_and!; [done| |intros Hl; by apply drop_ge].
    rewrite length_drop. destruct (rd_buf r); [done|]. cbn. lia.
  - split_and!; [done|done|done|]. right. right. eauto.
Qed.

Section Copies.
Context (w0 : world).

(** A turn of a copy that runs. *)
Lemma front_turn_copying c n w : copying w0 c w → cp_front c = true →
  ∃ c' w', copy_turn c Front n w = (Ok c', w') ∧ copying w0 c' w' ∧ cp_back c' = cp_back c ∧
    (cp_front c' = true → (length (rd_buf (dx_client w')) < length (rd_buf (dx_client w)))%nat ∧
       ((length (rd_buf (dx_client w)) <= S n)%nat → rd_buf (dx_client w') = [])).
Proof.
  intros [(t & u & d & [T1 T2 T3 T4 T5 T6 T7 T8 T9]) Hc] Hrun.
  destruct (copy_up_round n w) as (o & r & p & fs & Hr & Ew & Hf).
  apply round_reads in Hr as (k & Hk & Hpk & Hgo & Hend). unfold copy_turn, copy_side, bind, try. cbn [running]. rewrite Hrun, Ew.
  destruct (sent_up_event p) as [Up Dn].
  set (c' := match o with Ok true => c | Ok false => finish c Front None | Err e => finish c Front (Some e) | _ => c end).
  exists c', (Duplex r (dx_upstream w) fs (dx_trace w ++ sent_event ToUpstream p)).
  assert (Ho : o = Ok true ∨ o = Ok false ∨ ∃ e, o = Err e) by naive_solver.
  assert (Hback : cp_back c' = cp_back c) by (destruct Ho as [->|[->|[e ->]]]; reflexivity).
  assert (Hfront : cp_front c' = true → o = Ok true) by (destruct Ho as [->|[->|[e ->]]]; done).
  split; [by destruct Ho as [->|[->|[e ->]]]|]. split; [|split; [exact Hback|]].
  2: { intros ->%Hfront. destruct (Hgo eq_refl) as (_ & ? & ?). by split. }
  split.
  - exists (t ++ sent_event ToUpstream p), (u ++ k), d. constructor; cbn [dx_trace dx_client dx_upstream dx_faults].
    + by rewrite T1, app_assoc.
    + rewrite forallb_app, T2. by destruct p.
    + rewrite T3, Hk. cbn. by rewrite app_assoc.
    + done.
    + rewrite sent_up_app, Up, T7 by done. by apply prefix_app.
    + by rewrite sent_down_app, Dn, app_nil_r.
    + intros ->%Hfront. rewrite sent_up_app, Up, T7 by done. by destruct (Hgo eq_refl) as [-> _].
    + rewrite Hback, sent_down_app, Dn, app_nil_r. done.
    + intros H0. destruct (T9 H0) as (Hw & S1 & S2). destruct (Hf Hw) as [-> Hp]. split; [done|].
      rewrite sent_down_app, Dn, app_nil_r, sent_up_app, Up, S1. split; [|done]. f_equal.
      destruct Hend as [E|[(-> & -> & _)|[[b ->] [e E]]]]; [by apply Hgo|done|]. destruct (Hp b eq_refl) as [_ E']. congruence.
  - intros H0. destruct (Hc H0) as [C1 C2 C3 C4]. destruct (T9 H0) as (Hw & _ & _). destruct (Hf Hw) as [_ Hp].
    rewrite T3, T4 in C4. cbn [rd_end] in C4.
    destruct Hend as [->|[(-> & -> & Hb & [->|[-> He]])|[[b ->] [e ->]]]]; [constructor| | |by destruct (Hp b eq_refl)].
    + exact C1.
    + intros E. change (cp_front c = false) in E. congruence.
    + exact C3.
    + rewrite T3, T4. exact C4.
    + constructor; cbn; try done; [rewrite length_app, C1; unfold ended; rewrite Hrun; cbn; destruct (cp_back c); cbn; lia|].
      intros E1 E2. apply Forall_app. split; [|by constructor]. rewrite T3 in E1. rewrite T4 in E2. by apply C4.
    + constructor; cbn; try done; [rewrite length_app, C1; unfold ended; rewrite Hrun; cbn; destruct (cp_back c); cbn; lia|].
      intros E1 E2. rewrite T3 in E1. cbn in E1. rewrite Hk in He. cbn in He. rewrite Hk in E1. done.
Qed.
Lemma back_turn_copying c n w : copying w0 c w → cp_back c = true →
  ∃ c' w', copy_turn c Back n w = (Ok c', w') ∧ copying w0 c' w' ∧ cp_front c' = cp_front c ∧
    (cp_back c' = true → (length (rd_buf (dx_upstream w')) < length (rd_buf (dx_upstream w)))%nat ∧
       ((length (rd_buf (dx_upstream w)) <= S n)%nat → rd_buf (dx_upstream w') = [])).
Proof.
  intros [(t & u & d & [T1 T2 T3 T4 T5 T6 T7 T8 T9]) Hc] Hrun.
  destruct (copy_down_round n w) as (o & r & p & fs & Hr & Ew & Hf).
  apply round_reads in Hr as (k & Hk & Hpk & Hgo & Hend). unfold copy_turn, copy_side, bind, try. cbn [running]. rewrite Hrun, Ew.
  destruct (sent_down_event p) as [Dn Up].
  set (c' := match o with Ok true => c | Ok false => finish c Back None | Err e => finish c Back (Some e) | _ => c end).
  exists c', (Duplex (dx_client w) r fs (dx_trace w ++ sent_event ToClient p)).
  assert (Ho : o = Ok true ∨ o = Ok false ∨ ∃ e, o = Err e) by naive_solver.
  assert (Hfront : cp_front c' = cp_front c) by (destruct Ho as [->|[->|[e ->]]]; reflexivity).
  assert (Hback : cp_back c' = true → o = Ok true) by (destruct Ho as [->|[->|[e ->]]]; done).
  split; [by destruct Ho as [->|[->|[e ->]]]|]. split; [|split; [exact Hfront|]].
  2: { intros ->%Hback. destruct (Hgo eq_refl) as (_ & ? & ?). by split. }
  split.
  - exists (t ++ sent_event ToClient p), u, (d ++ k). constructor; cbn [dx_trace dx_client dx_upstream dx_faults].
    + by rewrite T1, app_assoc.
    + rewrite forallb_app, T2. by destruct p.
    + done.
    + rewrite T4, Hk. cbn. by rewrite app_assoc.
    + by rewrite sent_up_app, Up, app_nil_r.
    + rewrite sent_down_app, Dn, T8 by done. by apply prefix_app.
    + rewrite Hfront, sent_up_app, Up, app_nil_r. done.
    + intros ->%Hback. rewrite sent_down_app, Dn, T8 by done. by destruct (Hgo eq_refl) as [-> _].
    + intros H0. destruct (T9 H0) as (Hw & S1 & S2). destruct (Hf Hw) as [-> Hp]. split; [done|].
      rewrite sent_up_app, Up, app_nil_r, sent_down_app, Dn, S2. split; [done|]. f_equal.
      destruct Hend as [E|[(-> & -> & _)|[[b ->] [e E]]]]; [by apply Hgo|done|]. destruct (Hp b eq_refl) as [_ E']. congruence.
  - intros H0. destruct (Hc H0) as [C1 C2 C3 C4]. destruct (T9 H0) as (Hw & _ & _). destruct (Hf Hw) as [_ Hp].
    rewrite T3, T4 in C4. cbn [rd_end] in C4.
    destruct Hend as [->|[(-> & -> & Hb & [->|[-> He]])|[[b ->] [e ->]]]]; [constructor| | |by destruct (Hp b eq_refl)].
    + exact C1.
    + exact C2.
    + intros E. change (cp_back c = false) in E. congruence.
    + rewrite T3, T4. exact C4.
    + constructor; cbn; try done; [rewrite length_app, C1; unfold ended; rewrite Hrun; cbn; destruct (cp_front c); cbn; lia|].
      intros E1 E2. apply Forall_app. split; [|by constructor]. rewrite T3 in E1. rewrite T4 in E2. by apply C4.
    + constructor; cbn; try done; [rewrite length_app, C1; unfold ended; rewrite Hrun; cbn; destruct (cp_front c); cbn; lia|].
      intros E1 E2. rewrite T4 in E2. cbn in E2. rewrite Hk in He. cbn in He. rewrite Hk in E2. done.
Qed.

Definition unread (s : side) (w : world) : nat := length (rd_buf match s with Front => dx_client w | Back => dx_upstream w end).
Definition other (s : side) : side := match s with Front => Back | Back => Front end.
Lemma turn_copying c s n w : copying w0 c w →
  ∃ c' w', copy_turn c s n w = (Ok c', w') ∧ copying w0 c' w' ∧ running c' (other s) = running c (other s) ∧
    (running c' s = true → running c s = true ∧ (unread s w' < unread s w)%nat ∧
                           ((unread s w <= S n)%nat → unread s w' = 0%nat)).
Proof.
  intros Hw. destruct (running c s) eqn:Hrun.
  - destruct s; [destruct (front_turn_copying c n w Hw Hrun) as (c' & w' & -> & Hc & Ho & Hl)
                |destruct (back_turn_copying c n w Hw Hrun) as (c' & w' & -> & Hc & Ho & Hl)];
      exists c', w'; (split_and!; [done..|]); intros [Hd Hn]%Hl; (split_and!; [done..|]);
      intros Hle; unfold unread; by rewrite Hn.
  - exists c, w. unfold copy_turn. rewrite Hrun. split_and!; try done; intros E; congruence.
Qed.
Lemma turns_copying sched c w : copying w0 c w → ∃ c' w', copy_turns sched c w = (Ok c', w') ∧ copying w0 c' w'.
Proof.
  revert c w. induction sched as [|[s n] rest IH]; intros c w Hw; [by exists c, w|]. cbn. unfold bind.
  destruct (turn_copying c s n w Hw) as (c1 & w1 & -> & Hw1 & _). by apply IH.
Qed.
(** The rest of a stream takes two rounds. *)
Lemma rest_copying c s w : copying w0 c w →
  ∃ c' w', copy_rest c s w = (Ok c', w') ∧ copying w0 c' w' ∧ running c' s = false ∧
    running c' (other s) = running c (other s).
Proof.
  intros Hw. unfold copy_rest, bind at 1, get. cbn [repeat copy_turns]. unfold bind.
  change (length (rd_buf match s with Front => dx_client w | Back => dx_upstream w end)) with (unread s w).
  destruct (turn_copying c s (unread s w) w Hw) as (c1 & w1 & -> & Hw1 & O1 & R1).
  destruct (turn_copying c1 s (unread s w) w1 Hw1) as (c2 & w2 & -> & Hw2 & O2 & R2).
  exists c2, w2. split_and!; [done|done| |congruence]. destruct (running c2 s) eqn:E; [|done].
  destruct (R2 eq_refl) as (E1 & Hlt & _). destruct (R1 E1) as (_ & _ & Hz). rewrite Hz in Hlt by lia. lia.
Qed.
End Copies.

(** What both copies do to the world they start in. *)
Definition relayed (w : world) (o : outcome unit) (w' : world) (t : list event) : Prop :=
  ∃ u d, dx_trace w' = dx_trace w ++ t ∧ forallb is_copy t = true ∧
    dx_client w = Reader (u ++ rd_buf (dx_client w')) (rd_end (dx_client w')) ∧
    dx_upstream w = Reader (d ++ rd_buf (dx_upstream w')) (rd_end (dx_upstream w')) ∧
    sent_up t `prefix_of` u ∧ sent_down t `prefix_of` d ∧ (o = Ok tt ∨ ∃ e, o = Err e) ∧
    (dx_faults w = [] →
       sent_up t = rd_buf (dx_client w) ∧ sent_down t = rd_buf (dx_upstream w) ∧
       (rd_end (dx_client w) = io_EOF → rd_end (dx_upstream w) = io_EOF → o = Ok tt)).

(** Once it is logged in, the proxy is a pipe: under every schedule of the
    two copies and all faults it ends, with success or an error; all it does is
    write to the two sides, to each a prefix of what the other has sent; and
    when no write fails each side gets every byte of the other, in order and
    unchanged, with success if both streams end.  Nothing of it is logged. *)
Theorem mongo_relay_is_a_pipe env w :
  ∃ o w' t, proxyBidirectional env w = (o, w') ∧ relayed w o w' t.
Proof.
  unfold proxyBidirectional, bind.
  destruct (turns_copying w (env_schedule env) _ w (copying_here w)) as (c1 & w1 & -> & H1).
  destruct (rest_copying w c1 Front w1 H1) as (c2 & w2 & -> & H2 & F2 & _).
  destruct (rest_copying w c2 Back w2 H2) as (c3 & w3 & -> & H3 & B3 & F3). cbn [running other] in F3, F2, B3.
  rewrite F2 in F3. destruct H3 as [(t & u & d & [T1 T2 T3 T4 T5 T6 _ _ T9]) Hc].
  assert (∃ o, match cp_results c3 with
     | Some first :: _ => fail first | None :: Some second :: _ => fail second | _ => ret tt end w3 = (o, w3) ∧
     (o = Ok tt ∨ ∃ e, o = Err e) ∧ (Forall (λ r, r = None) (cp_results c3) → o = Ok tt)) as (o & -> & Ho & Hok).
  { destruct (cp_results c3) as [|[e|] [|[e'|] l]]; eexists; (split; [reflexivity|]); split; eauto;
      rewrite ?Forall_cons; naive_solver. }
  exists o, w3, t. split; [done|]. exists u, d. split_and!; try done. intros H0.
  destruct (Hc H0) as [_ C2 C3 C4]. destruct (T9 H0) as (_ & S1 & S2).
  rewrite T3, T4, (C2 F3), (C3 B3), !app_nil_r. cbn [rd_buf rd_end].
  split_and!; [done|done|]. intros E1 E2. apply Hok, C4; [by rewrite T3|by rewrite T4].
Qed.

(** * The login *)

(** The client is not read and nothing is sent to it. *)
Definition not_to_client (e : event) : bool := match e with ToClient _ => false | _ => true end.
Definition silent (w w' : world) : Prop := dx_client w' = dx_client w ∧ adds not_to_client w w'.
#[export] Instance silent_preorder : PreOrder silent.
Proof. split; [intros w; split; reflexivity|]. intros x y z [? ?] [? ?]. split; [congruence|]. by etransitivity. Qed.

Section Login.
Context `{Unicode} `{Driver} (env : environment).

Lemma silent_lift {A} msg (r : A + error) : keeps silent (lift_error msg r).
Proof. destruct r; intros w; split; reflexivity. Qed.
Lemma silent_upstream_read {A} (m : M reader A) : keeps silent (upstream_read m).
Proof. intros w. split; [|by apply adds_upstream_read]. unfold upstream_read, zoom. by destruct (m _). Qed.
Lemma silent_upstream_write b : keeps silent (upstream_write b).
Proof.
  intros w. split; [|by apply adds_write]. destruct (copy_write ToUpstream b w) as (o & p & fs & E & _).
  unfold upstream_write. by rewrite E.
Qed.
Lemma silent_run now doc : keeps silent (mongoRunCommand now doc).
Proof.
  unfold mongoRunCommand, readMongoCommandReply. destruct (bson_marshal doc) as [b|e]; [|intros w; split; reflexivity].
  apply keeps_bind; [apply _|apply silent_upstream_write|intros _].
  apply keeps_bind; [apply _|apply silent_upstream_read|intros d].
  destruct (bson_ok d) as [[]|]; [intros w; split; reflexivity| |intros w; split; reflexivity].
  destruct (bson_failure d). apply keeps_if; intros w; split; reflexivity.
Qed.
Lemma silent_pure {A} (m : M world A) : (∀ w, (m w).2 = w) → keeps silent m.
Proof. intros Hm w. by rewrite Hm. Qed.
Lemma server_first_pure nonce sf w : (server_first nonce sf w).2 = w.
Proof.
  unfold server_first, lift_error, bind. destruct (parseSCRAMFields _); [cbn [ret]; cbv zeta|done].
  repeat (match goal with
          | |- context [if ?b then _ else _] => destruct b
          | |- context [match ?o with Some _ => _ | None => _ end] => destruct o
          end; try done).
Qed.
Lemma server_final_pure sf x w : (server_final sf x w).2 = w.
Proof.
  unfold server_final, lift_error, bind. destruct (parseSCRAMFields _); [cbn [ret]; cbv zeta|done].
  repeat (match goal with
          | |- context [if ?b then _ else _] => destruct b
          | |- context [match ?o with Some _ => _ | None => _ end] => destruct o
          end; try done).
Qed.
Lemma silent_authenticate username password db : keeps silent (authenticateUpstreamMongo env username password db).
Proof.
  unfold authenticateUpstreamMongo.
  apply keeps_bind; [apply _|apply silent_lift|intros raw]. cbv zeta.
  apply keeps_bind; [apply _|apply keeps_wrap_err, silent_run|intros resp].
  apply keeps_bind; [apply _|apply silent_lift|intros [conv first]].
  apply keeps_bind; [apply _|apply silent_pure, server_first_pure|intros [[sn salt] it]]. cbv zeta.
  apply keeps_bind; [apply _|apply keeps_wrap_err, silent_run|intros resp'].
  apply keeps_bind; [apply _|apply silent_lift|intros [conv' final]]. apply silent_pure, server_final_pure.
Qed.

(** A command that succeeds: the message written and the reply read. *)
Lemma mongoRunCommand_ok now doc w reply w' : mongoRunCommand now doc w = (Ok reply, w') →
  ∃ b, bson_marshal doc = inl b ∧ readOpMsg (dx_upstream w) = (Ok reply, dx_upstream w') ∧ bson_ok reply = inl true ∧
    dx_trace w' = dx_trace w ++ [ToUpstream (buildMongoOpMsg (swrap 32 now) b)].
Proof.
  unfold mongoRunCommand. destruct (bson_marshal doc) as [b|e]; [|done].
  intros ([] & w1 & Hw & Hr)%bind_ok. apply bind_ok in Hr as (d & w2 & Hd & Hr).
  destruct (copy_write ToUpstream (buildMongoOpMsg (swrap 32 now) b) w) as (o & p & fs & E & _ & Ho & _).
  unfold upstream_write in Hw. rewrite E in Hw. injection Hw as -> <-. destruct Ho as [[_ ->]|[e' He]]; [|done].
  unfold upstream_read, zoom in Hd. cbn [dx_upstream] in Hd. destruct (readOpMsg (dx_upstream w)) as [o1 u1] eqn:Er.
  injection Hd as -> <-. destruct (bson_ok d) as [[]|] eqn:Eb; [| |done].
  - injection Hr as <- <-. by exists b.
  - destruct (bson_failure d). by destruct (bool_decide _).
Qed.

(** The upstream has proved that it knows the password: its first message names
    a nonce that extends the proxy's, with a salt and a positive number of
    iterations, and its last one carries the signature of the exchange. *)
Definition proves_itself (username password nonce serverFirst serverFinal : bytes) : Prop :=
  ∃ f1 f2 salt iterations,
    parseSCRAMFields serverFirst = inl f1 ∧ parseSCRAMFields serverFinal = inl f2 ∧
    HasPrefix (field f1 §"r") nonce = true ∧ std_decode (field f1 §"s") = Some salt ∧
    Atoi (field f1 §"i") = Some iterations ∧ 0 < iterations ∧
    std_decode (field f2 §"v") =
      Some (expectedServerSignature (pbkdf2_Key password salt iterations)
              (authMessage username nonce serverFirst (field f1 §"r"))).

Lemma server_first_ok nonce sf w sn salt it w' : server_first nonce sf w = (Ok (sn, salt, it), w') →
  ∃ f1, parseSCRAMFields sf = inl f1 ∧ sn = field f1 §"r" ∧ HasPrefix sn nonce = true ∧
        std_decode (field f1 §"s") = Some salt ∧ Atoi (field f1 §"i") = Some it ∧ 0 < it.
Proof.
  unfold server_first, lift_error, bind. destruct (parseSCRAMFields sf) as [f1|e]; [|done]. cbn [ret]. cbv zeta.
  do 2 (match goal with |- context [if ?b then _ else _] => destruct b eqn:? end; [|done]).
  destruct (std_decode _) as [s|] eqn:E3; [|done]. destruct (Atoi _) as [i|] eqn:E4; [|done].
  destruct (0 <? i) eqn:E5; [|done]. intros [= <- <- <- _]. exists f1. gobool. by split_and!.
Qed.
Lemma server_final_ok sf x w w' : server_final sf x w = (Ok tt, w') →
  ∃ f2, parseSCRAMFields sf = inl f2 ∧ std_decode (field f2 §"v") = Some x.
Proof.
  unfold server_final, lift_error, bind. destruct (parseSCRAMFields sf) as [f2|e]; [|done]. cbn [ret]. cbv zeta.
  destruct (negb _); [|done]. destruct (std_decode _) as [s|] eqn:E3; [|done].
  destruct (bool_decide (s = x)) eqn:E4; [|done]. gobool. intros _. exists f2. by subst.
Qed.

(** A login that succeeds, from one state of the upstream's stream to another:
    two commands were written, and the two answers prove the upstream. *)
Definition logs_in (username password db : bytes) (r r' : reader) (up : bytes) : Prop :=
  ∃ raw doc1 r1 doc2 conv serverFirst conv' serverFinal clientFinal b1 b2,
    env_random env = inl raw ∧
    readOpMsg r = (Ok doc1, r1) ∧ readOpMsg r1 = (Ok doc2, r') ∧
    bson_ok doc1 = inl true ∧ bson_ok doc2 = inl true ∧
    bson_sasl doc1 = inl (conv, serverFirst) ∧ bson_sasl doc2 = inl (conv', serverFinal) ∧
    proves_itself username password (std_encode raw) serverFirst serverFinal ∧
    bson_marshal (sasl_start (§"n,," ++ clientFirstBare username (std_encode raw)) db) = inl b1 ∧
    bson_marshal (sasl_continue conv clientFinal db) = inl b2 ∧
    up = buildMongoOpMsg (swrap 32 (env_clock env 0)) b1 ++ buildMongoOpMsg (swrap 32 (env_clock env 1)) b2.

Lemma lift_ok {A} msg (r : A + error) w a w' : lift_error msg r w = (Ok a, w') → r = inl a ∧ w' = w.
Proof. destruct r; by intros [= -> <-]. Qed.
Lemma authenticate_ok username password db w w' :
  authenticateUpstreamMongo env username password db w = (Ok tt, w') →
  ∃ t, dx_trace w' = dx_trace w ++ t ∧ logs_in username password db (dx_upstream w) (dx_upstream w') (sent_up t).
Proof.
  unfold authenticateUpstreamMongo. intros (raw & ? & [Hraw ->]%lift_ok & K)%bind_ok. cbv zeta in K.
  apply bind_ok in K as (doc1 & w1 & (b1 & Hb1 & Hr1 & Hk1 & Ht1)%wrap_ok%mongoRunCommand_ok & K).
  apply bind_ok in K as ([conv first] & ? & [Hs1 ->]%lift_ok & K).
  apply bind_ok in K as ([[sn salt] it] & w2 & Hf & K).
  pose proof (server_first_pure (std_encode raw) first w1) as Hp. rewrite Hf in Hp. cbn in Hp. subst w2.
  apply server_first_ok in Hf as (f1 & Hf1 & -> & Hpre & Hsalt & Hit & Hpos). cbv zeta in K.
  apply bind_ok in K as (doc2 & w3 & (b2 & Hb2 & Hr2 & Hk2 & Ht2)%wrap_ok%mongoRunCommand_ok & K).
  apply bind_ok in K as ([conv' final] & ? & [Hs2 ->]%lift_ok & K).
  pose proof (server_final_pure final (expectedServerSignature (pbkdf2_Key password salt it)
    (authMessage username (std_encode raw) first (field f1 §"r"))) w3) as Hp. rewrite K in Hp. cbn in Hp. subst w'.
  apply server_final_ok in K as (f2 & Hf2 & Hv).
  eexists. split; [by rewrite Ht2, Ht1, <- app_assoc|].
  exists raw, doc1, (dx_upstream w1), doc2, conv, first, conv', final. eexists _, b1, b2.
  split_and!; try done; [by exists f1, f2, salt, it|]. cbn. by rewrite !app_nil_r.
Qed.

Context (reg : SessionRegistration).
(** A world with one more call in its trace. *)
Definition noted (w : world) (e : call) : world :=
  Duplex (dx_client w) (dx_upstream w) (dx_faults w) (dx_trace w ++ [Enqueue e]).
Lemma enqueue_then {A} e (k : M world A) w : bind (enqueue e) (λ _, k) w = k (noted w e).
Proof. done. Qed.
Lemma silent_noted w e : silent w (noted w e).
Proof. split; [done|]. by exists [Enqueue e]. Qed.

(** The flow: the login, then the copies. *)
Definition served (cred : credential) (w w1 : world) (t : list event) : Prop :=
  dx_client w1 = dx_client w ∧ dx_trace w1 = dx_trace w ++ t ∧ forallb not_to_client t = true ∧
  logs_in (TrimSpace (cr_Username cred)) (cr_Secret cred) (authDatabase (g_Database reg))
    (dx_upstream w) (dx_upstream w1) (sent_up t).
Lemma runProxyFlow_run w o w' : runProxyFlow env reg w = (o, w') →
  (silent w w' ∧ o ≠ Ok tt) ∨
  ∃ cred w1 tl tr, env_credential env (g_AssetID reg) = inl cred ∧ served cred w w1 tl ∧ relayed w1 o w' tr.
Proof.
  unfold runProxyFlow, connectUpstream, bind at 1, wrap_err at 1.
  destruct (env_dial env _ _) as [e|]; [intros [= <- <-]; left; by split|]. cbn [ret].
  destruct (env_credential env _) as [cred|e]; [|intros [= <- <-]; left; by split]. cbv zeta.
  rewrite enqueue_then. set (usage := RecordCredentialUsage _ _ _ _). pose proof (silent_noted w usage) as Hw0.
  set (user := TrimSpace (cr_Username cred)). set (db := authDatabase _).
  pose proof (silent_authenticate user (cr_Secret cred) db (noted w usage)) as Hs.
  unfold bind at 1, wrap_err at 1.
  destruct (authenticateUpstreamMongo env user (cr_Secret cred) db (noted w usage)) as [oa w2] eqn:Ea. cbn [snd] in Hs.
  destruct oa as [[]|e|why|]; [|intros [= <- <-]; left; (split; [by etransitivity|done])..].
  apply authenticate_ok in Ea as (t & Ht & Hlog). rewrite enqueue_then. intros Hrun. right.
  set (mark := MarkUpstreamConnected _) in Hrun. destruct (mongo_relay_is_a_pipe env (noted w2 mark)) as (o' & w4 & tr & E & Hr).
  rewrite E in Hrun. injection Hrun as <- <-.
  destruct Hs as [Hc (t' & Ht' & Hn)]. rewrite Ht in Ht'. apply app_inv_head in Ht' as <-.
  exists cred, (noted w2 mark), (Enqueue usage :: t ++ [Enqueue mark]), tr. split; [done|]. split; [|exact Hr].
  unfold served. split_and!; [exact Hc|cbn; rewrite Ht; cbn; by rewrite <- !app_assoc| |].
  - cbn. by rewrite forallb_app, Hn.
  - change (sent_up (Enqueue usage :: t ++ [Enqueue mark])) with (sent_up (t ++ [Enqueue mark])).
    rewrite sent_up_app. cbn. rewrite app_nil_r. exact Hlog.
Qed.

(** C30. The client waits for the upstream to prove itself: a connection ends with
    an error, the client's bytes unread and nothing sent to it; or the proxy
    has resolved the asset's credential and the upstream has answered its two
    commands with a nonce that extends the proxy's fresh one and with the
    signature of that exchange under the credential's password, and only then
    the copies begin, on the client's stream as it was. *)
Theorem mongo_client_waits_for_the_upstream w o w' : handleSessionConn env reg w = (o, w') →
  (silent w w' ∧ o ≠ Ok tt) ∨
  ∃ cred w1 w2 tl tr last, env_credential env (g_AssetID reg) = inl cred ∧ served cred w w1 tl ∧
    relayed w1 o w2 tr ∧ w' = noted w2 last ∧ is_terminal (Enqueue last) = true.
Proof.
  unfold handleSessionConn. cbv zeta. rewrite enqueue_then. unfold bind at 1, try at 1.
  set (mark := MarkProxyConnected _ _). set (lctx := launchContext reg []).
  destruct (runProxyFlow env reg (noted w mark)) as [ow wf] eqn:Ef. pose proof (silent_noted w mark) as Hm.
  apply runProxyFlow_run in Ef as [[Hs Hno]|(cred & w1 & tl & tr & Hcred & (S1 & S2 & S3 & S4) & Hrel)].
  - assert (Hall : silent w wf) by (by etransitivity). destruct ow as [[]|e|why|]; [done| |intros [= <- <-]; by left..].
    rewrite enqueue_then. intros [= <- <-]. left. split; [|done]. etransitivity; [exact Hall|apply silent_noted].
  - assert (Hserved : served cred w w1 (Enqueue mark :: tl)).
    { unfold served. split_and!; [exact S1|rewrite S2; cbn; by rewrite <- app_assoc|exact S3|exact S4]. }
    destruct Hrel as (u & d & R1 & R2 & R3 & R4 & R5 & R6 & [->|[e ->]] & R8).
    + intros [= <- <-]. right. exists cred, w1, wf, (Enqueue mark :: tl), tr, (MarkEnded lctx §"db_client_disconnected").
      split_and!; try done. exists u, d. split_and!; try done. by left.
    + rewrite enqueue_then. intros [= <- <-]. right.
      exists cred, w1, wf, (Enqueue mark :: tl), tr, (MarkFailed lctx §"db_proxy_failed").
      split_and!; try done. exists u, d. split_and!; try done. right. by exists e.
Qed.
End Login.

(** Framing: what [readOpMsg] takes from a stream that begins with a message
    of [buildMongoOpMsg] is that message's document and nothing more, for every
    document whose message fits the length field. *)
Theorem op_msg_reads_back reqID doc rest e : 21 + zlen doc < 2 ^ 32 →
  readOpMsg (Reader (buildMongoOpMsg reqID doc ++ rest) e) = (Ok doc, Reader rest e).
Proof.
  intros Hlen. assert (Hz : 0 <= zlen doc) by (unfold zlen; lia).
  unfold buildMongoOpMsg. cbv zeta. replace (16 + (4 + 1 + zlen doc)) with (21 + zlen doc) by lia.
  rewrite wrap_small by lia.
  set (len := le_bytes 4 (21 + zlen doc)). set (id := le_bytes 4 (wrap 32 reqID)). set (zero := le_bytes 4 0).
  set (code := le_bytes 4 opMsgCode). set (body := zero ++ z2b 0 :: doc).
  replace ((len ++ id ++ zero ++ code ++ body) ++ rest) with ((len ++ id ++ zero ++ code) ++ (body ++ rest))
    by (by rewrite <- !app_assoc).
  assert (Hlens : length len = 4%nat ∧ length id = 4%nat ∧ length zero = 4%nat ∧ length code = 4%nat)
    by (unfold len, id, zero, code; by rewrite !length_le_bytes). destruct Hlens as (L1 & L2 & L3 & L4).
  unfold readOpMsg, bind at 1. rewrite ReadFull_app by (rewrite !length_app, L1, L2, L3, L4; lia). cbv zeta.
  change (slice (len ++ id ++ zero ++ code) 0 4) with (slice ([] ++ len ++ id ++ zero ++ code) 0 4).
  rewrite (slice_app [] len (id ++ zero ++ code) 0 4 eq_refl) by (rewrite L1; cbn; lia).
  replace (le_value len) with (21 + zlen doc) by (unfold len; by rewrite le_value_bytes by lia).
  replace (slice (len ++ id ++ zero ++ code) 12 16) with code.
  2: { symmetry. replace (len ++ id ++ zero ++ code) with ((len ++ id ++ zero) ++ code ++ []) by (by rewrite app_nil_r, <- !app_assoc).
       apply slice_app; rewrite !length_app, L1, L2, L3, ?L4; lia. }
  unfold code. rewrite le_value_bytes by (unfold opMsgCode; lia). rewrite swrap_small by (unfold opMsgCode; lia).
  rewrite (proj2 (Z.ltb_ge _ _)), Z.eqb_refl by lia. cbn [negb].
  unfold makeslice, max_alloc. rewrite (proj2 (Z.ltb_ge _ _)), (proj2 (Z.ltb_ge _ _)) by lia. cbn [orb].
  unfold bind, ret. rewrite ReadFull_app by (unfold body; rewrite length_app, L3; cbn; unfold zlen; lia).
  unfold body, zero. rewrite (proj2 (Nat.ltb_ge _ _)) by (rewrite length_app, length_le_bytes; cbn; lia). done.
Qed.

Lemma op_msg_reads_back_witness :
  readOpMsg (Reader (buildMongoOpMsg 7 §"document" ++ §"rest") io_EOF) = (Ok §"document", Reader §"rest" io_EOF).
Proof. apply op_msg_reads_back. unfold zlen. cbn. lia. Defined.

(** * Witness: a session with an upstream that knows the password.  A document is
    its payload here. *)

Definition demo_driver : Driver := {|
  bson_marshal d := inl (concat (map (λ f, match f.2 with BBinary b => b | _ => [] end) d));
  bson_ok _ := inl true;
  bson_failure _ := ([], []);
  bson_sasl d := inl (1, d);
  pbkdf2_Key p s _ := sha256 (p ++ s) |}.
#[local] Existing Instance demo_driver.
#[local] Existing Instance ascii_tables.

Definition demo_env : environment := {|
  env_remote_addr := §"192.0.2.1:5000"; env_dial _ _ := None;
  env_credential _ := inl (Credential §"app " §"pencil"); env_random := inl (repeat "r"%byte 18);
  env_clock n := Z.of_nat n; env_schedule := [(Front, 3%nat); (Back, 1%nat)] |}.
Definition demo_reg : SessionRegistration := {|
  g_SessionID := §"s1"; g_UserID := §"u1"; g_AssetID := §"a1"; g_AssetName := §"shop"; g_Engine := §"mongo";
  g_Database := []; g_SSLMode := []; g_UpstreamHost := §"10.0.0.8"; g_UpstreamPort := 27017; g_RequestID := [] |}.
Definition demo_nonce : bytes := std_encode (repeat "r"%byte 18).
Definition demo_first : bytes := §"r=" ++ demo_nonce ++ §"srv,s=c2FsdA==,i=4096".
Definition demo_final : bytes :=
  §"v=" ++ std_encode (expectedServerSignature (sha256 §"pencilsalt")
                         (authMessage §"app" demo_nonce demo_first (demo_nonce ++ §"srv"))).
Definition demo_world (final : bytes) : world :=
  Duplex (Reader §"find" io_EOF)
    (Reader (buildMongoOpMsg 1 demo_first ++ buildMongoOpMsg 2 final ++ §"found") io_EOF) [] [].
Definition demo_session (final : bytes) := handleSessionConn demo_env demo_reg (demo_world final).

(** With the right signature the request goes through and the answer comes back;
    with a wrong one the client gets nothing. *)
Lemma mongo_sessions :
  (demo_session demo_final).1 = Ok tt ∧ sent_down (dx_trace (demo_session demo_final).2) = §"found" ∧
  is_ok (demo_session §"v=AAAA").1 = false ∧ sent_down (dx_trace (demo_session §"v=AAAA").2) = [].
Proof. by vm_compute. Qed.

Lemma mongo_client_waits_for_the_upstream_witness :
  let w := demo_world demo_final in
  let w' := (demo_session demo_final).2 in
  ∃ cred w1 w2 tl tr last, env_credential demo_env §"a1" = inl cred ∧ served demo_env demo_reg cred w w1 tl ∧
    relayed w1 (Ok tt) w2 tr ∧ w' = noted w2 last ∧ is_terminal (Enqueue last) = true.
Proof.
  intros w w'.
  destruct (mongo_client_waits_for_the_upstream demo_env demo_reg w (Ok tt) w'
    (run_ok (handleSessionConn demo_env demo_reg) (demo_world demo_final) tt (proj1 mongo_sessions))) as [[_ Hno]|Hyes].
  - by destruct Hno.
  - exact Hyes.
Defined.
