(* ===== verification/TdsWire.v ===== *)
(** The TDS wire format of the MSSQL proxy
    (apps/api/internal/mssqlproxy/server.go): packets and messages, the options
    of a PRELOGIN message, the LOGIN7 record and its rewriting, the tokens of a
    login response, and the texts taken from SQL batches and RPC requests. *)
From S2P Require Import Prelude GoStrings GoBinary GoEncoding GoUtf16 GoIO.

Abbreviation NUL := "000"%byte.

Definition tdsPacketSQLBatch : byte := z2b 1.
Definition tdsPacketRPC : byte := z2b 3.
Definition tdsPacketResponse : byte := z2b 4.
Definition tdsPacketLogin7 : byte := z2b 16.
Definition tdsPacketPreLogin : byte := z2b 18.

Definition tdsStatusEOM : Z := 1.

Definition preloginOptVersion : byte := z2b 0.
Definition preloginOptEncryption : byte := z2b 1.
Definition preloginOptMARS : byte := z2b 4.
Definition preloginOptTerminator : byte := z2b 255.

Definition tdsEncryptOn : byte := z2b 1.
Definition tdsEncryptNotSup : byte := z2b 2.
Definition tdsEncryptRequire : byte := z2b 3.

Definition login7FixedLen : nat := 94.

(** * Packets and messages *)

Record tdsMessage := TdsMessage {
  t_PacketType : byte;
  t_Payload : bytes;
  t_Packets : list bytes;
}.

(** A packet is added to a message: the first type that is not zero is the
    message's. *)
Definition add_packet (out : tdsMessage) (head payload : bytes) : tdsMessage := {|
  t_PacketType := if bool_decide (t_PacketType out = NUL) then nth 0 head NUL else t_PacketType out;
  t_Payload := t_Payload out ++ payload;
  t_Packets := t_Packets out ++ [head ++ payload] |}.
Definition is_last (head : bytes) : bool := negb (Z.land (at_byte head 1) tdsStatusEOM =? 0).

(** [readTDSMessage]: packets up to the one with the end-of-message bit. *)
Fixpoint read_packets (fuel : nat) (out : tdsMessage) : M reader tdsMessage :=
  match fuel with
  | O => nofuel
  | S f =>
      let! head := ReadFull 8 in
      let length := be_value (slice head 2 4) in
      if length <? 8 then fail (Errorf §"invalid tds packet length")
      else
        let! payload := ReadFull (length - 8) in
        let out := add_packet out head payload in
        if is_last head then ret out else read_packets f out
  end.
Definition readTDSMessage : M reader tdsMessage :=
  let! r := get in read_packets (S (length (rd_buf r))) (TdsMessage NUL [] []).

(** [writeTDSPayload]: chunks of at most 4096 bytes, the last one marked. *)
Definition maxPayload : nat := 4096.
Definition packet_header (packetType : byte) (last : bool) (chunk : bytes) (packetID : Z) : bytes :=
  packetType :: z2b (if last then tdsStatusEOM else 0) :: be_bytes 2 (zlen chunk + 8)
  ++ [NUL; NUL; z2b packetID; NUL].

Section Writer.
Context {E : Type} (side : bytes → effect E).

Fixpoint write_chunks (fuel : nat) (packetType : byte) (packetID : Z) (remaining : bytes) : M (duplex E) unit :=
  match fuel, remaining with
  | S f, _ :: _ =>
      let chunk := take maxPayload remaining in
      let remaining := drop maxPayload remaining in
      do! write_to side (packet_header packetType (bool_decide (remaining = [])) chunk packetID) in
      do! write_to side chunk in
      write_chunks f packetType (wrap 8 (packetID + 1)) remaining
  | _, _ => ret tt
  end.
Definition writeTDSPayload (packetType : byte) (payload : bytes) : M (duplex E) unit :=
  if bool_decide (payload = []) then write_to side (packet_header packetType true [] 0)
  else write_chunks (length payload) packetType 1 payload.
End Writer.

(** * PRELOGIN *)

(** [entry] of [buildPreloginMessage]: the option table and the data so far. *)
Definition prelogin_entry (tableLen : Z) (token : byte) (d : bytes) (bd : bytes * bytes) : bytes * bytes :=
  (bd.1 ++ token :: be_bytes 2 (tableLen + zlen bd.2) ++ be_bytes 2 (zlen d), bd.2 ++ d).
Definition buildPreloginMessage (encryption : byte) : bytes :=
  let tableLen := 5 * 3 + 1 in
  let bd := ([], []) in
  let bd := prelogin_entry tableLen preloginOptVersion (map z2b [16; 0; 0; 0; 0; 0]) bd in
  let bd := prelogin_entry tableLen preloginOptEncryption [encryption] bd in
  let bd := prelogin_entry tableLen preloginOptMARS [NUL] bd in
  bd.1 ++ [preloginOptTerminator] ++ bd.2.

(** The walk over the option table that [parsePreloginEncryption] and
    [preloginPayloadForClient] share. *)
Inductive prelogin_result := Terminated | Malformed | EncryptionAt (offset : nat) | RanOut.
Fixpoint prelogin_walk (fuel : nat) (payload : bytes) (pos : nat) : prelogin_result :=
  match fuel with
  | O => RanOut
  | S f =>
      if (length payload <=? pos)%nat then RanOut
      else
        let tok := nth pos payload NUL in
        if bool_decide (tok = preloginOptTerminator) then Terminated
        else if (length payload <? pos + 5)%nat then Malformed
        else
          let offset := be_value (slice payload (pos + 1) (pos + 3)) in
          let length := be_value (slice payload (pos + 3) (pos + 5)) in
          if (length <=? 0) || (zlen payload <? offset + length) then Malformed
          else if bool_decide (tok = preloginOptEncryption) then EncryptionAt (Z.to_nat offset)
          else prelogin_walk f payload (pos + 5)
  end.
Definition prelogin_scan (payload : bytes) : prelogin_result :=
  prelogin_walk (length payload) payload 0.

(** [None] is [(0, false)]. *)
Definition parsePreloginEncryption (payload : bytes) : option byte :=
  match prelogin_scan payload with
  | EncryptionAt offset => Some (nth offset payload NUL)
  | _ => None
  end.
(** [[]] is nil. *)
Definition preloginPayloadForClient (upstreamPayload : bytes) : bytes :=
  match prelogin_scan upstreamPayload with
  | EncryptionAt offset => splice upstreamPayload offset [tdsEncryptNotSup]
  | Malformed => []
  | Terminated | RanOut => upstreamPayload
  end.

(** * Text *)

Definition encodeUTF16LE (v : bytes) : bytes :=
  if bool_decide (TrimSpace v = []) then [] else units_bytes (utf16_encode (runes v)).
Definition decodeUTF16LE (raw : bytes) : bytes :=
  if (length raw <? 2)%nat then [] else TrimSpace (runes_string (utf16_decode (bytes_units raw))).

(** * Login responses *)

Definition has_byte (payload : bytes) (z : Z) : bool := bool_decide (z2b z ∈ payload).
Definition hasLoginAckToken (payload : bytes) : bool := has_byte payload 173.
Definition hasDoneToken (payload : bytes) : bool :=
  has_byte payload 253 || has_byte payload 254 || has_byte payload 255.

Definition parseFirstErrorToken (payload : bytes) : bytes :=
  match IndexByte payload (z2b 170) with
  | None => []
  | Some idx =>
      if (length payload <? idx + 9)%nat then []
      else
        let msgLen := Z.to_nat (le_value (slice payload (idx + 7) (idx + 9))) in
        let start := (idx + 9)%nat in
        let end_ := (start + msgLen * 2)%nat in
        if (msgLen <=? 0)%nat || (length payload <? end_)%nat then []
        else TrimSpace (decodeUTF16LE (slice payload start end_))
  end.

(** * LOGIN7 *)

(** A 16-bit field of the record. *)
Definition uint16_at (l : bytes) (pos : nat) : Z := le_value (slice l pos (pos + 2)).

(** [setUTF16Field]: overwrite the text the offset and length at [offsetPos]
    point at, pad it with zeros, and store the new length in characters. *)
Definition setUTF16Field (offsetPos : nat) (raw : bytes) (chars : Z) (out : bytes) : bytes + error :=
  let off := uint16_at out offsetPos in
  let ln := uint16_at out (offsetPos + 2) in
  let byteLen := ln * 2 in
  if (zlen out <? off) || (zlen out <? off + byteLen)
  then inr (Errorf §"invalid login7 field")
  else if byteLen <? zlen raw then inr (Errorf §"replacement field too long")
  else
    let out := splice out (Z.to_nat off) (raw ++ repeat NUL (Z.to_nat byteLen - length raw)) in
    inl (splice out (offsetPos + 2) (le_bytes 2 (wrap 16 chars))).

Definition obfuscate_byte (b : byte) : byte :=
  z2b (Z.lxor (Z.lor (wrap 8 (Z.shiftl (b2z b) 4)) (Z.shiftr (b2z b) 4)) 165).
Definition obfuscateTDSPassword (password : bytes) : bytes := map obfuscate_byte (encodeUTF16LE password).

(** [len([]rune(v))]. *)
Definition rune_count (v : bytes) : Z := zlen (runes v).

Definition rewriteLogin7WithManagedCreds (payload username password database : bytes) : bytes + error :=
  if (length payload <? login7FixedLen)%nat then inr (Errorf §"login7 payload too short")
  else
    let out := splice payload 25 [z2b (Z.ldiff (at_byte payload 25) 128)] in
    match setUTF16Field 40 (encodeUTF16LE username) (rune_count username) out with
    | inr e => inr e
    | inl out =>
        match setUTF16Field 44 (obfuscateTDSPassword password) (rune_count password) out with
        | inr e => inr e
        | inl out =>
            match (if bool_decide (TrimSpace database = []) then inl out
                   else setUTF16Field 68 (encodeUTF16LE database) (rune_count database) out) with
            | inr e => inr e
            | inl out => inl (splice out 0 (le_bytes 4 (wrap 32 (zlen out))))
            end
        end
    end.

Definition parseLogin7Database (payload : bytes) : bytes :=
  if (length payload <? login7FixedLen)%nat then []
  else
    let off := uint16_at payload 68 in
    let ln := uint16_at payload 70 in
    let byteLen := ln * 2 in
    if (ln <=? 0) || (zlen payload <? off + byteLen) then []
    else TrimSpace (decodeUTF16LE (slice payload (Z.to_nat off) (Z.to_nat (off + byteLen)))).

(** * SQL batches and RPC requests *)

Definition extractSQLBatchQuery (payload : bytes) : bytes :=
  if bool_decide (payload = []) then []
  else
    let queryData :=
      if (4 <=? length payload)%nat then
        let headersLen := le_value (take 4 payload) in
        if (4 <=? headersLen) && (headersLen <=? zlen payload) then drop (Z.to_nat headersLen) payload
        else payload
      else payload in
    let q := TrimSpace (decodeUTF16LE queryData) in
    if utf8_valid q then q else [].

Definition rpcProcIDName (id : Z) : bytes :=
  if id =? 10 then §"sp_executesql" else §"proc_id_" ++ Itoa id.

(** [extractASCIIUTF16Runs]: the runs of printable ASCII code units of at least
    twelve characters. *)
Definition is_text_unit (c : Z) : bool :=
  ((32 <=? c) && (c <=? 126)) || (c =? 10) || (c =? 13) || (c =? 9).
Definition flush (b : bytes) : list bytes := if (12 <=? length b)%nat then [b] else [].
Fixpoint text_runs (us : list Z) (b : bytes) : list bytes :=
  match us with
  | [] => flush b
  | c :: us' => if is_text_unit c then text_runs us' (b ++ [z2b c]) else flush b ++ text_runs us' []
  end.
Definition extractASCIIUTF16Runs (payload : bytes) : list bytes := text_runs (bytes_units payload) [].

Definition truncate (v : bytes) (max : Z) : bytes :=
  if (max <=? 0) || (zlen v <=? max) then v else take (Z.to_nat max) v.

Record sslModeConfig := SSLMode { AttemptTLS : bool; RequireTLS : bool; VerifyCert : bool }.

Section Text.
Context `{Unicode}.

Definition sql_keywords : list bytes :=
  [§"select "; §"insert "; §"update "; §"delete "; §"merge "; §"exec "; §"with "; §"create ";
   §"alter "; §"drop "].
Definition containsSQLKeyword (v : bytes) : bool :=
  let lower := ToLower (TrimSpace v) in
  if bool_decide (lower = []) then false else existsb (Contains lower) sql_keywords.

(** [extractLikelySQLFromRPCPayload]: the longest run with a keyword. *)
Fixpoint best_candidate (candidates : list bytes) (best : bytes) : bytes :=
  match candidates with
  | [] => best
  | candidate :: rest =>
      let trimmed := TrimSpace candidate in
      if negb (containsSQLKeyword trimmed) then best_candidate rest best
      else if (length best <? length trimmed)%nat then best_candidate rest trimmed
      else best_candidate rest best
  end.
Definition extractLikelySQLFromRPCPayload (payload : bytes) : bytes :=
  best_candidate (extractASCIIUTF16Runs payload) [].

(** [parseRPCQuery]: the procedure's name and the text taken for its query. *)
Definition parseRPCQuery (payload : bytes) : bytes * bytes :=
  if (length payload <? 2)%nat then ([], [])
  else
    let nameLen := uint16_at payload 0 in
    let rest procName pos :=
      if (length payload <=? pos)%nat then (procName, [])
      else (procName, extractLikelySQLFromRPCPayload (drop pos payload)) in
    if nameLen =? 65535 then
      if (length payload <? 2 + 4)%nat then ([], [])
      else rest (rpcProcIDName (uint16_at payload 2)) 6%nat
    else
      let nameBytes := Z.to_nat (nameLen * 2) in
      if (length payload <? 2 + nameBytes + 2)%nat then ([], [])
      else rest (TrimSpace (decodeUTF16LE (slice payload 2 (2 + nameBytes)))) (2 + nameBytes + 2)%nat.

Definition classifySSLMode (raw : bytes) : sslModeConfig :=
  let mode := ToLower (TrimSpace raw) in
  if bool_decide (mode = §"disable") then SSLMode false false false
  else if bool_decide (mode ∈ [§"allow"; §"prefer"; §"preferred"; §""; §"optional"]) then SSLMode true false false
  else if bool_decide (mode ∈ [§"require"; §"required"; §"true"; §"encrypt"]) then SSLMode true true false
  else if bool_decide (mode ∈ [§"verify-ca"; §"verify-full"; §"verify_ca"; §"verify_identity"])
  then SSLMode true true true
  else SSLMode true false false.

Definition normalizeEngine (engine : bytes) : bytes :=
  let normalized := ToLower (TrimSpace engine) in
  if bool_decide (normalized ∈ [§"sqlserver"; §"mssql"; §"sql_server"; §""]) then §"mssql" else normalized.
End Text.
