(* ===== verification/Mssql.v ===== *)
(** The MSSQL proxy (apps/api/internal/mssqlproxy/server.go): one client
    connection from [handleSessionConn] to its marks: the PRELOGIN exchanges and
    the TLS upgrade of the upstream, the rewritten LOGIN7, the relay of the login
    response, the query log, and the two goroutines of Relay.v. *)
From S2P Require Import Prelude GoStrings GoBinary GoEncoding GoUtf16 GoIO ProxyEvents ProxyRuns Relay TdsWire.

Record SessionRegistration := {
  m_SessionID : bytes;
  m_UserID : bytes;
  m_AssetID : bytes;
  m_AssetName : bytes;
  m_Engine : bytes;
  m_Database : bytes;
  m_SSLMode : bytes;
  m_UpstreamHost : bytes;
  m_UpstreamPort : Z;
  m_Username : bytes;
  m_RequestID : bytes;
}.

Record environment := {
  env_remote_addr : bytes;
  env_QueryMaxBytes : Z;
  env_dial : option error;
  env_credential : bytes → credential + error;
  (** The TLS handshake with the upstream, given the server name and whether
      the certificate is verified: the decrypted stream. *)
  env_tls : bytes → bool → reader + error;
  env_clock : nat → Z;
  env_schedule : list turn;
}.

(** [RegisterSession] up to the listener. *)
Definition normalizeRegistration `{Unicode} (reg : SessionRegistration) : SessionRegistration + error :=
  let reg := {|
    m_SessionID := TrimSpace (m_SessionID reg);
    m_UserID := TrimSpace (m_UserID reg);
    m_AssetID := TrimSpace (m_AssetID reg);
    m_AssetName := TrimSpace (m_AssetName reg);
    m_Engine := normalizeEngine (m_Engine reg);
    m_Database := TrimSpace (m_Database reg);
    m_SSLMode := TrimSpace (m_SSLMode reg);
    m_UpstreamHost := TrimSpace (m_UpstreamHost reg);
    m_UpstreamPort := m_UpstreamPort reg;
    m_Username := TrimSpace (m_Username reg);
    m_RequestID := TrimSpace (m_RequestID reg) |} in
  if bool_decide (m_SessionID reg = []) || bool_decide (m_UserID reg = [])
     || bool_decide (m_AssetID reg = [])
  then inr (Errorf §"session_id, user_id, and asset_id are required")
  else if bool_decide (m_UpstreamHost reg = []) || (m_UpstreamPort reg <=? 0)
          || (65535 <? m_UpstreamPort reg)
  then inr (Errorf §"upstream host and port are required")
  else if bool_decide (m_Username reg = [])
  then inr (Errorf §"upstream username is required")
  else inl reg.

Definition launchContext (reg : SessionRegistration) : LaunchContext := {|
  l_SessionID := m_SessionID reg;
  l_UserID := m_UserID reg;
  l_AssetID := m_AssetID reg;
  l_AssetName := m_AssetName reg;
  l_RequestID := m_RequestID reg;
  l_Action := §"dbeaver";
  l_Protocol := ProtocolDB;
  l_AssetType := TypeDatabase;
  l_Host := m_UpstreamHost reg;
  l_Port := m_UpstreamPort reg;
  l_UpstreamUsername := m_Username reg;
  l_Status := [];
  l_ExpiresAt := 0 |}.

(** [connectionPreparedState]. *)
Record prepared_state := PreparedState { lastSQLTemplate : bytes; lastPreparedQuery : bytes }.
Definition no_template : prepared_state := PreparedState [] [].
Definition SetTemplate (query : bytes) (s : prepared_state) : prepared_state :=
  let q := TrimSpace query in
  if bool_decide (q = []) then s else PreparedState q q.
Definition LastTemplate (s : prepared_state) : bytes :=
  if bool_decide (TrimSpace (lastPreparedQuery s) = []) then lastSQLTemplate s else lastPreparedQuery s.

Definition client_message : M world tdsMessage := client_read readTDSMessage.
Definition upstream_message : M world tdsMessage := upstream_read readTDSMessage.

(** From here on the upstream's stream is the decrypted one. *)
Definition switch_upstream (r : reader) : M world unit :=
  modify (λ w, Duplex (dx_client w) r (dx_faults w) (dx_trace w)).

(** The packets of a message, one write each. *)
Fixpoint write_packets (side : bytes → event) (packets : list bytes) : M world unit :=
  match packets with
  | [] => ret tt
  | p :: rest => do! write_to side p in write_packets side rest
  end.

(** * The client's login *)

(** [readClientLoginAfterPrelogin]: [rounds] messages at most. *)
Fixpoint client_login (rounds : nat) (preloginResp : bytes) : M world tdsMessage :=
  match rounds with
  | O => fail (Errorf §"too many client prelogin rounds before login7")
  | S k =>
      let! msg := wrap_err §"read client login7" client_message in
      if bool_decide (t_PacketType msg = tdsPacketLogin7) then ret msg
      else if bool_decide (t_PacketType msg = tdsPacketPreLogin) then
        do! wrap_err §"write prelogin response" (writeTDSPayload ToClient tdsPacketResponse preloginResp) in
        client_login k preloginResp
      else fail (Errorf §"expected login7 packet")
  end.
Definition maxPreloginRounds : nat := 6.
Definition readClientLoginAfterPrelogin (preloginResp : bytes) : M world tdsMessage :=
  client_login maxPreloginRounds preloginResp.

(** [relayLoginResponse]: messages to the client until one acknowledges the
    login (the empty text) or completes it after an error (its text). *)
Fixpoint login_response (fuel : nat) (firstErr : bytes) : M world bytes :=
  match fuel with
  | O => nofuel
  | S f =>
      let! msg := upstream_message in
      do! write_packets ToClient (t_Packets msg) in
      let candidate := parseFirstErrorToken (t_Payload msg) in
      let firstErr := if negb (bool_decide (candidate = [])) && bool_decide (firstErr = [])
                      then candidate else firstErr in
      if hasLoginAckToken (t_Payload msg) then ret []
      else if hasDoneToken (t_Payload msg) && negb (bool_decide (firstErr = [])) then ret firstErr
      else login_response f firstErr
  end.
Definition relayLoginResponse : M world bytes :=
  let! k := upstream_left in login_response (S k) [].

Section Service.
Context `{Unicode} (env : environment) (reg : SessionRegistration).

(** * The upstream's PRELOGIN *)

(** The encryption the upstream answers (0 without the option) and its whole
    answer. *)
Definition negotiateUpstreamPrelogin : M world (byte * bytes) :=
  let sslCfg := classifySSLMode (m_SSLMode reg) in
  let encReq := if RequireTLS sslCfg then tdsEncryptRequire
                else if AttemptTLS sslCfg then tdsEncryptOn else tdsEncryptNotSup in
  do! wrap_err §"write upstream prelogin"
        (writeTDSPayload ToUpstream tdsPacketPreLogin (buildPreloginMessage encReq)) in
  let! resp := wrap_err §"read upstream prelogin response" upstream_message in
  if negb (bool_decide (t_PacketType resp = tdsPacketPreLogin))
     && negb (bool_decide (t_PacketType resp = tdsPacketResponse))
  then fail (Errorf §"unexpected upstream prelogin response type")
  else
    let enc := default NUL (parsePreloginEncryption (t_Payload resp)) in
    if RequireTLS sslCfg && negb (bool_decide (enc = tdsEncryptOn) || bool_decide (enc = tdsEncryptRequire))
    then fail (Errorf §"upstream did not negotiate tls while ssl_mode requires it")
    else ret (enc, t_Payload resp).

(** The TLS upgrade of [runProxyFlow]. *)
Definition secure_upstream (upstreamEnc : byte) : M world unit :=
  let sslCfg := classifySSLMode (m_SSLMode reg) in
  if bool_decide (upstreamEnc = tdsEncryptOn) || bool_decide (upstreamEnc = tdsEncryptRequire)
     || RequireTLS sslCfg
  then match env_tls env (m_UpstreamHost reg) (VerifyCert sslCfg) with
       | inr e => fail (Wrap §"upstream tls handshake failed" e)
       | inl r => switch_upstream r
       end
  else ret tt.

(** * The query log *)

Definition queryLog (at_ : nat) (q ptype : bytes) (prepared : bool) : queryLogEvent := {|
  q_SessionID := m_SessionID reg;
  q_UserID := m_UserID reg;
  q_AssetID := m_AssetID reg;
  q_RequestID := m_RequestID reg;
  q_Engine := normalizeEngine (m_Engine reg);
  q_Query := truncate q (env_QueryMaxBytes env);
  q_EventTime := env_clock env at_;
  q_ProtocolType := ptype;
  q_Prepared := prepared |}.

(** The switch of [handleQueryCapture] on an RPC request: whether it runs as
    prepared, the query, and the state afterwards. *)
Definition capture_rpc (st : prepared_state) (payload : bytes) : prepared_state * bytes * bool :=
  let '(procName, sqlText) := parseRPCQuery payload in
  let procLower := ToLower (TrimSpace procName) in
  let query := TrimSpace sqlText in
  if bool_decide (procLower ∈ [§"sp_prepare"; §"sp_prepexec"; §"sp_executesql"]) then
    if negb (bool_decide (query = [])) then (SetTemplate query st, query, true)
    else (st, LastTemplate st, true)
  else if bool_decide (procLower ∈ [§"sp_execute"; §"sp_cursorprepexec"; §"sp_cursorexecute"]) then
    (st, if bool_decide (query = []) then LastTemplate st else query, true)
  else (st, query, negb (bool_decide (query = [])) && Contains (ToLower query) §"@p").

(** [handleQueryCapture] up to the queue: what it logs of a message (the text,
    the kind of request and whether it is prepared). *)
Definition capture (st : prepared_state) (packetType : byte) (payload : bytes)
    : prepared_state * option (bytes * bytes * bool) :=
  if bool_decide (packetType = tdsPacketSQLBatch) then
    let query := extractSQLBatchQuery payload in
    (st, if bool_decide (query = []) then None else Some (query, §"sql_batch", false))
  else if bool_decide (packetType = tdsPacketRPC) then
    let '(st, query, prepared) := capture_rpc st payload in
    (st, if bool_decide (query = []) then None else Some (query, §"rpc", prepared))
  else (st, None).

Definition handleQueryCapture (msg : tdsMessage) (st : prepared_state) : M world prepared_state :=
  let '(st, entry) := capture st (t_PacketType msg) (t_Payload msg) in
  match entry with
  | Some (q, ptype, prepared) =>
      let! w := get in
      do! enqueue (LogQuery (queryLog (length (dx_trace w)) q ptype prepared)) in
      ret st
  | None => ret st
  end.

(** One pass of the loop of [forwardClientMessages]. *)
Definition forward_message (st : prepared_state) : M world (option prepared_state) :=
  let! r := try client_message in
  match r with
  | inr e =>
      if errors_is e §"io.EOF" || errors_is e §"io.ErrUnexpectedEOF" then ret None else fail e
  | inl msg =>
      let! st := handleQueryCapture msg st in
      do! write_packets ToUpstream (t_Packets msg) in
      ret (Some st)
  end.
Definition forwardClientMessages : prepared_state → M world unit := forward_all forward_message.

(** * A session *)

Definition relay_result (r : option error) : option error :=
  match r with
  | Some e => if errors_is e §"io.EOF" then None else Some e
  | None => None
  end.

(** [runProxyFlow]: an error before the relay fails; the relay's result comes
    with what is left of the goroutines. *)
Definition runProxyFlow : M world (option error * relay_state prepared_state * list turn) :=
  let! clientPrelogin := wrap_err §"read client prelogin" client_message in
  if negb (bool_decide (t_PacketType clientPrelogin = tdsPacketPreLogin))
  then fail (Errorf §"unexpected first client packet type")
  else if bool_decide (parsePreloginEncryption (t_Payload clientPrelogin) = Some tdsEncryptRequire)
  then fail (Errorf §"client requested required tls; mssql proxy currently supports non-tls client connections only")
  else match env_dial env with
  | Some e => fail (Wrap §"dial upstream" e)
  | None =>
      do! enqueue (MarkUpstreamConnected (launchContext reg)) in
      let! (upstreamEnc, upstreamPrelogin) := negotiateUpstreamPrelogin in
      do! secure_upstream upstreamEnc in
      let proxyPreloginResp := preloginPayloadForClient upstreamPrelogin in
      let proxyPreloginResp := if bool_decide (proxyPreloginResp = [])
                               then buildPreloginMessage tdsEncryptNotSup else proxyPreloginResp in
      do! wrap_err §"write prelogin response" (writeTDSPayload ToClient tdsPacketResponse proxyPreloginResp) in
      let! clientLogin := readClientLoginAfterPrelogin proxyPreloginResp in
      match env_credential env (m_AssetID reg) with
      | inr e => fail (Wrap §"resolve db credential" e)
      | inl cred =>
          do! enqueue (RecordCredentialUsage (launchContext reg) §"db_password" §"proxy_upstream_auth"
                         (m_RequestID reg)) in
          let database := TrimSpace (m_Database reg) in
          let database := if bool_decide (database = [])
                          then parseLogin7Database (t_Payload clientLogin) else database in
          match rewriteLogin7WithManagedCreds (t_Payload clientLogin) (m_Username reg) (cr_Secret cred) database with
          | inr e => fail (Wrap §"rewrite login7" e)
          | inl loginPayload =>
              do! wrap_err §"write upstream login7" (writeTDSPayload ToUpstream tdsPacketLogin7 loginPayload) in
              let! authErr := wrap_err §"relay login response" relayLoginResponse in
              if negb (bool_decide (TrimSpace authErr = [])) then fail (Errorf §"upstream login failed")
              else
                let! (r, st, rest) := relay forward_message (env_schedule env)
                                        (Relay (Running no_template) (Running tt)) in
                ret (relay_result r, st, rest)
          end
      end
  end.

Definition handleSessionConn : M world unit :=
  session_conn forward_message (launchContext reg) (env_remote_addr env) runProxyFlow.
End Service.
