(* ===== verification/TdsSpec.v ===== *)
(** The TDS wire format's specification: messages as the packets they are read
    from, what the writer writes and that the reader gives it back, the fields
    of a rewritten LOGIN7 record as the server reads them, and the text of SQL
    batches and RPC requests. *)
From S2P Require Import Prelude GoStrings GoBinary GoEncoding GoUtf16 GoIO ProxyEvents ProxyRuns TdsWire.

(** * Messages

    [packets out b m]: read from [b], packets that complete the message [out]
    to [m]. *)
Definition packet_ok (head payload : bytes) : Prop :=
  length head = 8%nat ∧ be_value (slice head 2 4) = zlen payload + 8.
Inductive packets : tdsMessage → bytes → tdsMessage → Prop :=
| pk_last out h p : packet_ok h p → is_last h = true → packets out (h ++ p) (add_packet out h p)
| pk_more out h p b m : packet_ok h p → is_last h = false → packets (add_packet out h p) b m →
    packets out (h ++ p ++ b) m.

Definition no_packets : tdsMessage := TdsMessage NUL [] [].
Definition message_bytes (m : tdsMessage) : bytes := concat (t_Packets m).
(** A message that can stand on the wire. *)
Definition tds_readable (m : tdsMessage) : Prop := packets no_packets (message_bytes m) m.

Lemma packets_bytes out b m : packets out b m → message_bytes m = message_bytes out ++ b.
Proof.
  unfold message_bytes. induction 1 as [out h p|out h p b m _ _ _ IH]; cbn.
  - by rewrite concat_app; cbn; rewrite app_nil_r.
  - rewrite IH. cbn. rewrite concat_app. cbn. by rewrite app_nil_r, <- !app_assoc.
Qed.
Lemma packets_readable b m : packets no_packets b m → message_bytes m = b ∧ tds_readable m.
Proof. intros H. pose proof (packets_bytes _ _ _ H) as E. cbn in E. by rewrite <- E in H. Qed.
Lemma packets_nonempty out b m : packets out b m → (8 <= length b)%nat.
Proof. destruct 1 as [out h p [Hl _]|out h p b m [Hl _]]; rewrite length_app; lia. Qed.

Lemma read_packets_sound f out r m r' :
  read_packets f out r = (Ok m, r') →
  ∃ b, rd_buf r = b ++ rd_buf r' ∧ rd_end r' = rd_end r ∧ packets out b m.
Proof.
  revert out r. induction f as [|f IH]; intros out r; [done|]. cbn [read_packets]. intros H.
  apply bind_ok in H as (h & r1 & H1 & H). cbv zeta in H.
  destruct (be_value (slice h 2 4) <? 8) eqn:El; [done|]. apply Z.ltb_ge in El.
  apply bind_ok in H as (p & r2 & H2 & H). cbv zeta in H.
  pose proof (ReadFull_length _ _ _ _ H1) as L1. pose proof (ReadFull_length _ _ _ _ H2) as L2.
  apply ReadFull_exact in H1 as [E1 F1], H2 as [E2 F2].
  assert (Hok : packet_ok h p) by (split; [exact L1|unfold zlen; lia]).
  destruct (is_last h) eqn:Ee.
  - injection H as <- <-. exists (h ++ p). rewrite E1, E2, <- app_assoc.
    split_and!; [done|congruence|by apply pk_last].
  - apply IH in H as (b & Eb & Fb & Hp). exists (h ++ p ++ b). rewrite E1, E2, Eb, <- !app_assoc.
    split_and!; [done|congruence|by apply pk_more].
Qed.
Lemma read_packets_complete f out b m t e :
  packets out b m → (length b < f)%nat → read_packets f out (Reader (b ++ t) e) = (Ok m, Reader t e).
Proof.
  intros Hp. revert f. induction Hp as [out h p [Hh Hp] Hl|out h p b m [Hh Hp] Hl _ IH]; intros f Hf;
    (destruct f as [|f]; [lia|]); cbn [read_packets]; unfold bind;
    rewrite <- !app_assoc, ReadFull_app by done; cbv zeta;
    rewrite (proj2 (Z.ltb_ge _ _)) by (pose proof (zlen_nonneg p); lia);
    rewrite ReadFull_app by (unfold zlen in Hp; lia); cbv zeta; rewrite Hl; [done|].
  apply IH. rewrite !length_app in Hf. lia.
Qed.

Lemma readTDSMessage_sound r m r' :
  readTDSMessage r = (Ok m, r') → rd_buf r = message_bytes m ++ rd_buf r' ∧ rd_end r' = rd_end r ∧ tds_readable m.
Proof.
  unfold readTDSMessage, bind, get. intros H. apply read_packets_sound in H as (b & Hb & He & Hp).
  apply packets_readable in Hp as [-> Hr]. done.
Qed.
Lemma readTDSMessage_complete m t e :
  tds_readable m → readTDSMessage (Reader (message_bytes m ++ t) e) = (Ok m, Reader t e).
Proof.
  intros Hr. unfold readTDSMessage, bind, get. cbn [rd_buf]. apply read_packets_complete; [done|].
  rewrite length_app. lia.
Qed.
Lemma read_packets_keeps f out : keeps consumed (read_packets f out).
Proof.
  revert out. induction f as [|f IH]; intros out; cbn [read_packets]; [apply keeps_nofuel, _|].
  apply keeps_bind; [apply _|apply ReadFull_keeps|]. intros h. cbv zeta. case_match; [apply keeps_fail, _|].
  apply keeps_bind; [apply _|apply ReadFull_keeps|]. intros p. cbv zeta. case_match; [apply keeps_ret, _|apply IH].
Qed.
Lemma readTDSMessage_keeps : keeps consumed readTDSMessage.
Proof. apply keeps_bind; [apply _|apply keeps_get, _|]. intros r. apply read_packets_keeps. Qed.
Lemma readTDSMessage_takes : takes readTDSMessage.
Proof.
  intros r m r' H. apply readTDSMessage_sound in H as (-> & _ & Hr). apply packets_nonempty in Hr.
  rewrite length_app. lia.
Qed.

Lemma ReadFull_outcome n r : (∃ l r', ReadFull n r = (Ok l, r')) ∨ (∃ e r', ReadFull n r = (Err e, r')).
Proof. unfold ReadFull. case_match; [left|right]; [eauto|]. destruct (rd_buf r); eauto. Qed.
Lemma read_packets_outcome f out r : (length (rd_buf r) < f)%nat →
  (∃ m r', read_packets f out r = (Ok m, r')) ∨ (∃ e r', read_packets f out r = (Err e, r')).
Proof.
  revert out r. induction f as [|f IH]; intros out r Hf; [lia|]. cbn [read_packets]. unfold bind.
  destruct (ReadFull_outcome 8 r) as [(h & r1 & E1)|(e & r1 & E1)]; rewrite E1; [|eauto]. cbv zeta.
  case_match; [unfold fail; eauto|].
  destruct (ReadFull_outcome (be_value (slice h 2 4) - 8) r1) as [(p & r2 & E2)|(e & r2 & E2)]; rewrite E2; [|eauto].
  cbv zeta. case_match; [unfold ret; eauto|]. apply IH.
  pose proof (ReadFull_length _ _ _ _ E1) as L1. apply ReadFull_exact in E1 as [E1 _], E2 as [E2 _].
  rewrite E1, E2, !length_app in Hf. lia.
Qed.
Lemma readTDSMessage_outcome r :
  (∃ m r', readTDSMessage r = (Ok m, r')) ∨ (∃ e r', readTDSMessage r = (Err e, r')).
Proof. unfold readTDSMessage, bind, get. apply read_packets_outcome. lia. Qed.
Lemma readTDSMessage_ends r : (readTDSMessage r).1 ≠ OutOfFuel.
Proof. by destruct (readTDSMessage_outcome r) as [(m & r' & ->)|(e & r' & ->)]. Qed.

(** ** What the writer writes *)

Fixpoint chunk_bytes (fuel : nat) (packetType : byte) (packetID : Z) (remaining : bytes) : bytes :=
  match fuel, remaining with
  | S f, _ :: _ =>
      let rest := drop maxPayload remaining in
      packet_header packetType (bool_decide (rest = [])) (take maxPayload remaining) packetID
      ++ take maxPayload remaining ++ chunk_bytes f packetType (wrap 8 (packetID + 1)) rest
  | _, _ => []
  end.
Definition payload_bytes (packetType : byte) (payload : bytes) : bytes :=
  if bool_decide (payload = []) then packet_header packetType true [] 0
  else chunk_bytes (length payload) packetType 1 payload.

Lemma write_chunks_sends side f ty id l : sends side (chunk_bytes f ty id l) (write_chunks side f ty id l).
Proof.
  revert id l. induction f as [|f IH]; intros id l; [apply sends_nothing|].
  cbn [chunk_bytes write_chunks]. destruct l as [|x l]; [apply sends_nothing|]. cbv zeta.
  apply sends_then; [apply sends_write|]. apply sends_then; [apply sends_write|]. apply IH.
Qed.
Lemma writeTDSPayload_sends side ty l : sends side (payload_bytes ty l) (writeTDSPayload side ty l).
Proof.
  unfold payload_bytes, writeTDSPayload. case_bool_decide; [apply sends_write|apply write_chunks_sends].
Qed.

Lemma be_value_bytes2 z : 0 <= z < 65536 → be_value (be_bytes 2 z) = z.
Proof.
  intros Hz. unfold be_bytes, be_value. cbn [seq rev app map fold_left]. rewrite !b2z_z2b, !Z.shiftr_div_pow2 by lia.
  change (8 * Z.of_nat 1) with 8. change (8 * Z.of_nat 0) with 0. rewrite Z.pow_0_r, Z.div_1_r.
  change (2 ^ 8) with 256. Z.div_mod_to_equations. lia.
Qed.
Lemma header_ok ty last chunk id :
  (length chunk <= maxPayload)%nat → packet_ok (packet_header ty last chunk id) chunk.
Proof.
  intros Hl. split; [done|]. unfold maxPayload in Hl.
  change (slice (packet_header ty last chunk id) 2 4) with (be_bytes 2 (zlen chunk + 8)).
  apply be_value_bytes2. unfold zlen. lia.
Qed.
Lemma header_last ty last chunk id : is_last (packet_header ty last chunk id) = last.
Proof. by destruct last. Qed.

(** A message read so far from packets of one type. *)
Definition typed (ty : byte) (m : tdsMessage) : Prop := m = no_packets ∨ t_PacketType m = ty.
Lemma typed_add ty out last chunk id :
  typed ty out → t_PacketType (add_packet out (packet_header ty last chunk id) chunk) = ty.
Proof. intros [->|H]; cbn; [done|]. rewrite H. by case_bool_decide. Qed.

Lemma chunk_packets f ty id l out :
  (length l <= f)%nat → l ≠ [] → typed ty out →
  ∃ m, packets out (chunk_bytes f ty id l) m ∧ t_PacketType m = ty ∧ t_Payload m = t_Payload out ++ l.
Proof.
  revert id l out. induction f as [|f IH]; intros id l out Hf Hl Ht; [destruct l; [done|cbn in Hf; lia]|].
  cbn [chunk_bytes]. destruct l as [|x l]; [done|]. cbv zeta. set (l0 := x :: l) in *.
  assert (Hc : (length (take maxPayload l0) <= maxPayload)%nat) by (rewrite length_take; lia).
  case_bool_decide as Hd.
  - rewrite Hd. exists (add_packet out (packet_header ty true (take maxPayload l0) id) (take maxPayload l0)).
    split_and!.
    + replace (chunk_bytes f ty (wrap 8 (id + 1)) []) with ([] : bytes) by (by destruct f).
      rewrite app_nil_r. apply pk_last; [by apply header_ok|apply header_last].
    + by apply typed_add.
    + cbn [t_Payload add_packet]. f_equal. pose proof (take_drop maxPayload l0) as E. by rewrite Hd, app_nil_r in E.
  - destruct (IH (wrap 8 (id + 1)) (drop maxPayload l0)
      (add_packet out (packet_header ty false (take maxPayload l0) id) (take maxPayload l0))) as (m & Hm & Hty & Hp);
      [rewrite length_drop; subst l0; unfold maxPayload; cbn in Hf |- *; lia|done|right; by apply typed_add|].
    exists m. split_and!; [apply pk_more; [by apply header_ok|apply header_last|done]|done|].
    rewrite Hp. cbn [t_Payload add_packet]. by rewrite <- app_assoc, take_drop.
Qed.
(** Reading back what was written. *)
Lemma payload_readable ty l :
  ∃ m, tds_readable m ∧ message_bytes m = payload_bytes ty l ∧ t_PacketType m = ty ∧ t_Payload m = l.
Proof.
  unfold payload_bytes. case_bool_decide as Hl.
  - subst. set (h := packet_header ty true [] 0). exists (add_packet no_packets h []).
    assert (Hp : packets no_packets h (add_packet no_packets h [])).
    { rewrite <- (app_nil_r h) at 1. apply pk_last; [apply header_ok; cbn; lia|done]. }
    apply packets_readable in Hp as [? ?]. done.
  - destruct (chunk_packets (length l) ty 1 l no_packets) as (m & Hm & Ht & Hp); [lia|done|by left|].
    apply packets_readable in Hm as [? ?]. by exists m.
Qed.

(** * LOGIN7

    The server reads a text field where its offset and its length in characters
    say; [utf16_text] is the text of UTF-16 bytes. *)
Definition field_off (l : bytes) (pos : nat) : nat := Z.to_nat (uint16_at l pos).
Definition field_chars (l : bytes) (pos : nat) : nat := Z.to_nat (uint16_at l (pos + 2)).
Definition field_end (l : bytes) (pos : nat) : nat := (field_off l pos + 2 * field_chars l pos)%nat.
Definition login7_text (l : bytes) (pos : nat) : bytes := slice l (field_off l pos) (field_end l pos).
Definition utf16_text (l : bytes) : bytes := runes_string (utf16_decode (bytes_units l)).
Definition deobfuscate_byte (b : byte) : byte :=
  let x := Z.lxor (b2z b) 165 in z2b (Z.lor (wrap 8 (Z.shiftl x 4)) (Z.shiftr x 4)).

(** The bytes the rewriting of the field at [pos] may change. *)
Definition field_touched (l : bytes) (pos k : nat) : Prop :=
  (field_off l pos <= k < field_end l pos)%nat ∨ (pos + 2 <= k < pos + 4)%nat.
(** The field lies within the record and behind its fixed part, and the text
    fits. *)
Definition field_fits (l : bytes) (pos : nat) (raw : bytes) : Prop :=
  (field_end l pos <= length l)%nat ∧ (length raw <= 2 * field_chars l pos)%nat.
Definition behind_header (l : bytes) (pos : nat) : Prop := (login7FixedLen <= field_off l pos)%nat.

Lemma uint16_range l pos : 0 <= uint16_at l pos.
Proof. apply le_value_nonneg. Qed.
Lemma uint16_ext l l' pos :
  (∀ k, (pos <= k < pos + 2)%nat → l' !! k = l !! k) → uint16_at l' pos = uint16_at l pos.
Proof. intros H. unfold uint16_at. f_equal. by apply slice_ext. Qed.

Lemma setUTF16Field_ok pos raw chars l l' :
  setUTF16Field pos raw chars l = inl l' ↔
  field_fits l pos raw ∧
  l' = splice (splice l (field_off l pos) (raw ++ repeat NUL (2 * field_chars l pos - length raw)))
              (pos + 2) (le_bytes 2 (wrap 16 chars)).
Proof.
  unfold setUTF16Field, field_fits, field_end, field_off, field_chars. cbv zeta.
  pose proof (uint16_range l pos). pose proof (uint16_range l (pos + 2)).
  replace (Z.to_nat (uint16_at l (pos + 2) * 2)) with (2 * Z.to_nat (uint16_at l (pos + 2)))%nat by lia.
  destruct ((zlen l <? uint16_at l pos) || (zlen l <? uint16_at l pos + uint16_at l (pos + 2) * 2)) eqn:E1.
  { apply orb_true_iff in E1. rewrite !Z.ltb_lt in E1. unfold zlen in E1. split; [done|]. intros [[? ?] _]. lia. }
  gobool. unfold zlen in *.
  destruct (uint16_at l (pos + 2) * 2 <? Z.of_nat (length raw)) eqn:E2; gobool.
  - split; [done|]. intros [[? ?] _]. lia.
  - split; [intros [= <-]; split; [lia|done]|intros [_ ->]; done].
Qed.

(** What a rewritten field holds, and that nothing else changed. *)
Lemma setUTF16Field_spec pos raw chars l l' :
  (pos + 4 <= login7FixedLen)%nat → (login7FixedLen <= length l)%nat → behind_header l pos →
  setUTF16Field pos raw chars l = inl l' →
  length l' = length l ∧ uint16_at l' pos = uint16_at l pos ∧ uint16_at l' (pos + 2) = wrap 16 chars
  ∧ slice l' (field_off l pos) (field_end l pos) = raw ++ repeat NUL (2 * field_chars l pos - length raw)
  ∧ ∀ k, ¬ field_touched l pos k → l' !! k = l !! k.
Proof.
  intros Hpos Hl Hb [[He Hr] ->]%setUTF16Field_ok. unfold behind_header in Hb. unfold field_end in *.
  set (off := field_off l pos) in *. set (n := field_chars l pos) in *.
  set (text := raw ++ repeat NUL (2 * n - length raw)).
  assert (Ht : length text = (2 * n)%nat) by (subst text; rewrite length_app, repeat_length; lia).
  assert (L1 : length (splice l off text) = length l) by (apply length_splice; lia).
  assert (Hc : length (le_bytes 2 (wrap 16 chars)) = 2%nat) by apply length_le_bytes.
  assert (Hout : ∀ k, (k < pos + 2 ∨ pos + 4 <= k)%nat →
    splice (splice l off text) (pos + 2) (le_bytes 2 (wrap 16 chars)) !! k = splice l off text !! k).
  { intros k Hk. apply splice_outside; rewrite ?L1, ?Hc; lia. }
  split_and!.
  - rewrite length_splice; [done|]. rewrite L1, Hc. lia.
  - apply uint16_ext. intros k Hk. rewrite Hout by lia. apply splice_outside; lia.
  - unfold uint16_at.
    replace (pos + 2 + 2)%nat with (pos + 2 + length (le_bytes 2 (wrap 16 chars)))%nat by (rewrite Hc; lia).
    rewrite splice_inside by (rewrite L1, Hc; lia). apply le_value_bytes. pose proof (wrap_range 16 chars). cbn. lia.
  - rewrite (slice_ext (splice l off text)) by (intros; apply Hout; lia).
    rewrite <- Ht at 1. apply splice_inside. lia.
  - intros k Hk. unfold field_touched, field_end in Hk. fold off n in Hk.
    rewrite Hout by lia. apply splice_outside; lia.
Qed.

(** Regions of a record that are apart from one another. *)
Definition fields_apart (l : bytes) (p q : nat) : Prop :=
  (field_end l p <= field_off l q ∨ field_end l q <= field_off l p)%nat.

(** Rewriting one field leaves another one alone. *)
Lemma setUTF16Field_other pos q raw chars l l' :
  (pos + 4 <= login7FixedLen)%nat → (q + 4 <= login7FixedLen)%nat → (login7FixedLen <= length l)%nat →
  (q + 4 <= pos + 2 ∨ pos + 4 <= q)%nat → behind_header l pos → behind_header l q → fields_apart l pos q →
  setUTF16Field pos raw chars l = inl l' →
  field_off l' q = field_off l q ∧ field_chars l' q = field_chars l q ∧ field_end l' q = field_end l q
  ∧ slice l' (field_off l q) (field_end l q) = slice l (field_off l q) (field_end l q).
Proof.
  intros Hp Hq Hl Hne Hb Hbq Ha Hs. apply setUTF16Field_spec in Hs as (_ & _ & _ & _ & Hk); [|done..].
  unfold behind_header, fields_apart, field_touched, field_end in *.
  assert (Hh : ∀ k, (q <= k < q + 4)%nat → l' !! k = l !! k) by (intros; apply Hk; lia).
  assert (E1 : uint16_at l' q = uint16_at l q) by (apply uint16_ext; intros; apply Hh; lia).
  assert (E2 : uint16_at l' (q + 2) = uint16_at l (q + 2)) by (apply uint16_ext; intros; apply Hh; lia).
  assert (F1 : field_off l' q = field_off l q) by (unfold field_off; by rewrite E1).
  assert (F2 : field_chars l' q = field_chars l q) by (unfold field_chars; by rewrite E2).
  rewrite F1, F2. split_and!; try done. apply slice_ext. intros k Hr. apply Hk. lia.
Qed.

(** What the server sees of a field. *)
Definition field_view (l : bytes) (pos : nat) : nat * nat * bytes :=
  (field_off l pos, field_chars l pos, login7_text l pos).
Lemma view_inj l l' p : field_view l' p = field_view l p →
  field_off l' p = field_off l p ∧ field_chars l' p = field_chars l p ∧ field_end l' p = field_end l p
  ∧ login7_text l' p = login7_text l p.
Proof. unfold field_view, field_end. intros H. injection H as H1 H2 H3. rewrite H1, H2. done. Qed.

Lemma view_same l l' q :
  (∀ k, (q <= k < q + 4)%nat → l' !! k = l !! k) →
  (∀ k, (field_off l q <= k < field_end l q)%nat → l' !! k = l !! k) → field_view l' q = field_view l q.
Proof.
  intros Hh Ht. unfold field_view, login7_text, field_end in *.
  assert (E1 : uint16_at l' q = uint16_at l q) by (apply uint16_ext; intros; apply Hh; lia).
  assert (E2 : uint16_at l' (q + 2) = uint16_at l (q + 2)) by (apply uint16_ext; intros; apply Hh; lia).
  assert (F1 : field_off l' q = field_off l q) by (unfold field_off; by rewrite E1).
  assert (F2 : field_chars l' q = field_chars l q) by (unfold field_chars; by rewrite E2).
  rewrite F1, F2. f_equal. apply slice_ext. intros. by apply Ht.
Qed.
(** A change of the fixed part outside the field's own entry. *)
Lemma view_splice l off raw q :
  (off + length raw <= login7FixedLen)%nat → (login7FixedLen <= length l)%nat →
  (off + length raw <= q ∨ q + 4 <= off)%nat → behind_header l q →
  field_view (splice l off raw) q = field_view l q.
Proof.
  intros Ho Hl Hq Hb. unfold behind_header in Hb.
  apply view_same; intros k Hk; apply splice_outside; lia.
Qed.
Lemma view_other pos q raw chars l l' :
  (pos + 4 <= login7FixedLen)%nat → (login7FixedLen <= length l)%nat →
  (q + 4 <= pos + 2 ∨ pos + 4 <= q)%nat → (q + 4 <= login7FixedLen)%nat →
  behind_header l pos → behind_header l q → fields_apart l pos q →
  setUTF16Field pos raw chars l = inl l' → field_view l' q = field_view l q.
Proof.
  intros Hp Hl Hne Hq Hb Hbq Ha Hs. apply setUTF16Field_spec in Hs as (_ & _ & _ & _ & Hk); [|done..].
  unfold behind_header, fields_apart, field_touched in *.
  apply view_same; intros k Hr; apply Hk; lia.
Qed.
Lemma view_set pos raw chars l l' :
  (pos + 4 <= login7FixedLen)%nat → (login7FixedLen <= length l)%nat → behind_header l pos →
  0 <= chars → length raw = (2 * Z.to_nat chars)%nat →
  setUTF16Field pos raw chars l = inl l' →
  field_view l' pos = (field_off l pos, Z.to_nat chars, raw) ∧ (Z.to_nat chars <= field_chars l pos)%nat.
Proof.
  intros Hp Hl Hb Hc Hr Hs. pose proof Hs as Hf. apply setUTF16Field_ok in Hf as [[Hfe Hfr] _].
  apply setUTF16Field_spec in Hs as (L & E1 & E2 & Et & _); [|done..].
  assert (Hle : (Z.to_nat chars <= field_chars l pos)%nat) by lia. split; [|done].
  assert (F1 : field_off l' pos = field_off l pos) by (unfold field_off; by rewrite E1).
  assert (F2 : field_chars l' pos = Z.to_nat chars).
  { unfold field_chars. rewrite E2. f_equal. apply wrap_small. unfold field_chars in Hle.
    pose proof (length_slice l (pos + 2) (pos + 4)) as Hsl.
    assert (Hw : uint16_at l (pos + 2) < 65536).
    { unfold uint16_at. replace (pos + 2 + 2)%nat with (pos + 4)%nat by lia. specialize (Hsl ltac:(lia)).
      destruct (slice l (pos + 2) (pos + 4)) as [|a [|b [|]]]; cbn in Hsl; try lia. cbn [le_value].
      pose proof (b2z_range a). pose proof (b2z_range b). lia. }
    pose proof (uint16_range l (pos + 2)). change (2 ^ 16) with 65536. lia. }
  unfold field_view, login7_text, field_end in *. rewrite F1, F2. f_equal.
  set (off := field_off l pos) in *.
  rewrite (slice_split l' off (off + 2 * Z.to_nat chars)) in Et by lia.
  apply app_inj_1 in Et as [-> _]; [done|]. rewrite length_slice by lia. lia.
Qed.

(** The fields at [ps] lie behind the fixed part, and apart. *)
Definition login_layout (ps : list nat) (l : bytes) : Prop :=
  (∀ p, p ∈ ps → behind_header l p) ∧ (∀ p q, p ∈ ps → q ∈ ps → p ≠ q → fields_apart l p q).
(** Their entries are entries of the fixed part behind byte 26. *)
Definition entries_apart (ps : list nat) : Prop :=
  (∀ p, p ∈ ps → 26 <= p ∧ p + 4 <= login7FixedLen)%nat
  ∧ ∀ p q, p ∈ ps → q ∈ ps → p ≠ q → (p + 4 <= q ∨ q + 4 <= p)%nat.

Lemma layout_narrower ps l l' :
  (∀ p, p ∈ ps → field_off l' p = field_off l p ∧ (field_end l' p <= field_end l p)%nat) →
  login_layout ps l → login_layout ps l'.
Proof.
  intros Hn [Hb Ha]. split.
  - intros p Hp. specialize (Hb p Hp). unfold behind_header in *. by rewrite (proj1 (Hn p Hp)).
  - intros p q Hp Hq Hne. specialize (Ha p q Hp Hq Hne). destruct (Hn p Hp), (Hn q Hq).
    unfold fields_apart in *. lia.
Qed.
Lemma layout_splice ps l off raw :
  entries_apart ps → login_layout ps l → (login7FixedLen <= length l)%nat →
  (off + length raw <= 26)%nat →
  login_layout ps (splice l off raw) ∧ ∀ q, q ∈ ps → field_view (splice l off raw) q = field_view l q.
Proof.
  intros [He _] Hl Hlen Ho.
  assert (Hv : ∀ q, q ∈ ps → field_view (splice l off raw) q = field_view l q).
  { intros q Hq. destruct (He q Hq). unfold login7FixedLen in *. apply view_splice; unfold login7FixedLen; try lia.
    by apply Hl. }
  split; [|done]. eapply layout_narrower, Hl. intros p Hp. apply Hv, view_inj in Hp as (-> & _ & -> & _). done.
Qed.
Lemma layout_set ps pos raw chars l l' :
  entries_apart ps → login_layout ps l → (login7FixedLen <= length l)%nat → pos ∈ ps →
  0 <= chars → length raw = (2 * Z.to_nat chars)%nat → setUTF16Field pos raw chars l = inl l' →
  login_layout ps l' ∧ length l' = length l ∧ field_view l' pos = (field_off l pos, Z.to_nat chars, raw)
  ∧ ∀ q, q ∈ ps → q ≠ pos → field_view l' q = field_view l q.
Proof.
  intros He Hl Hlen Hpos Hc Hr Hs. destruct (proj1 He pos Hpos) as [_ Hp94]. pose proof (proj1 Hl pos Hpos) as Hb.
  assert (L : length l' = length l) by (by apply setUTF16Field_spec in Hs as [? _]).
  destruct (view_set pos raw chars l l') as [Hv Hle]; [done..|].
  assert (Ho : ∀ q, q ∈ ps → q ≠ pos → field_view l' q = field_view l q).
  { intros q Hq Hne. pose proof (proj2 He pos q Hpos Hq ltac:(done)). destruct (proj1 He q Hq).
    eapply (view_other pos); try done; [lia|by apply Hl|by apply Hl]. }
  split_and!; try done. eapply layout_narrower, Hl. intros p Hp. destruct (decide (p = pos)) as [->|Hne].
  - unfold field_view in Hv. injection Hv as E1 E2 _. unfold field_end. rewrite E1, E2. lia.
  - apply (Ho p Hp) in Hne. apply view_inj in Hne as (-> & _ & -> & _). done.
Qed.

(** ** Texts *)

(** A text that is one UTF-16 unit per rune. *)
Definition plain_text (v : bytes) : Prop :=
  utf8_valid v = true ∧ forallb is_bmp (runes v) = true ∧ TrimSpace v ≠ [].
Lemma plain_text_units v : plain_text v →
  length (encodeUTF16LE v) = (2 * Z.to_nat (rune_count v))%nat.
Proof.
  intros (_ & Hb & Hne). unfold encodeUTF16LE. rewrite bool_decide_false by done.
  rewrite length_units_bytes, length_utf16_bmp by done. unfold rune_count, zlen. lia.
Qed.
Lemma utf16_text_encode v : utf8_valid v = true → TrimSpace v ≠ [] → utf16_text (encodeUTF16LE v) = v.
Proof.
  intros Hv Hne. unfold encodeUTF16LE, utf16_text. rewrite bool_decide_false by done.
  destruct (utf8_valid_runes v Hv) as [Hs Hr].
  rewrite bytes_units_bytes by apply utf16_encode_range. by rewrite utf16_round_trip.
Qed.
Lemma deobfuscate_obfuscate b : deobfuscate_byte (obfuscate_byte b) = b.
Proof. by destruct b. Qed.
Lemma deobfuscate_password v : map deobfuscate_byte (obfuscateTDSPassword v) = encodeUTF16LE v.
Proof.
  unfold obfuscateTDSPassword. rewrite map_map. rewrite (map_ext _ id) by apply deobfuscate_obfuscate. apply map_id.
Qed.
Lemma rune_count_nonneg v : 0 <= rune_count v.
Proof. apply zlen_nonneg. Qed.

(** ** Rewriting the record *)

Definition has_text (v : bytes) : bool := negb (bool_decide (TrimSpace v = [])).
(** The fields that are overwritten: UserName, Password and, for a database,
    Database. *)
Definition managed_fields (database : bytes) : list nat :=
  if has_text database then [40; 44; 68]%nat else [40; 44]%nat.

(** The record with the integrated security bit off. *)
Definition sql_auth (payload : bytes) : bytes := splice payload 25 [z2b (Z.ldiff (at_byte payload 25) 128)].

Lemma rewrite_login7_iff payload username password database out :
  rewriteLogin7WithManagedCreds payload username password database = inl out ↔
  (login7FixedLen <= length payload)%nat ∧
  ∃ l1 l2 l3, setUTF16Field 40 (encodeUTF16LE username) (rune_count username) (sql_auth payload) = inl l1
    ∧ setUTF16Field 44 (obfuscateTDSPassword password) (rune_count password) l1 = inl l2
    ∧ (if has_text database then setUTF16Field 68 (encodeUTF16LE database) (rune_count database) l2 else inl l2) = inl l3
    ∧ out = splice l3 0 (le_bytes 4 (wrap 32 (zlen l3))).
Proof.
  unfold rewriteLogin7WithManagedCreds, has_text. fold (sql_auth payload). cbv zeta.
  destruct (length payload <? login7FixedLen)%nat eqn:El.
  { apply Nat.ltb_lt in El. split; [done|]. intros [? _]. lia. }
  apply Nat.ltb_ge in El. destruct (setUTF16Field 40 _ _ _) as [l1|e1] eqn:E1.
  2: { split; [done|]. by intros (_ & ? & ? & ? & [= ] & _). }
  destruct (setUTF16Field 44 _ _ l1) as [l2|e2] eqn:E2.
  2: { split; [done|]. intros (_ & ? & ? & ? & [= <-] & E & _). by rewrite E2 in E. }
  case_bool_decide as Hd; cbn [negb].
  - split; [intros [= <-]; split; [done|]; by exists l1, l2, l2|].
    intros (_ & ? & ? & ? & [= <-] & E & E' & ->). rewrite E2 in E. by simplify_eq.
  - destruct (setUTF16Field 68 _ _ l2) as [l3|e3] eqn:E3.
    + split; [intros [= <-]; split; [done|]; by exists l1, l2, l3|].
      intros (_ & ? & ? & ? & [= <-] & E & E' & ->). rewrite E2 in E. simplify_eq. rewrite E3 in E'. by simplify_eq.
    + split; [done|]. intros (_ & ? & ? & ? & [= <-] & E & E' & _). rewrite E2 in E. simplify_eq.
      by rewrite E3 in E'.
Qed.

Lemma managed_spec database p : p ∈ managed_fields database ↔
  p = 40%nat ∨ p = 44%nat ∨ p = 68%nat ∧ has_text database = true.
Proof. unfold managed_fields. destruct (has_text database); rewrite !elem_of_cons, elem_of_nil; naive_solver. Qed.
Lemma managed_entries database : entries_apart (managed_fields database).
Proof.
  unfold login7FixedLen. split; [intros p Hp%managed_spec; unfold login7FixedLen; lia|].
  intros p q Hp%managed_spec Hq%managed_spec. lia.
Qed.
Lemma sql_auth_layout ps payload : entries_apart ps → login_layout ps payload →
  (login7FixedLen <= length payload)%nat →
  login_layout ps (sql_auth payload) ∧ ∀ q, q ∈ ps → field_view (sql_auth payload) q = field_view payload q.
Proof. intros He Hl Hlen. apply layout_splice; [done..|]. cbn. lia. Qed.
Lemma length_sql_auth payload : (login7FixedLen <= length payload)%nat → length (sql_auth payload) = length payload.
Proof. unfold login7FixedLen. intros H. apply length_splice. cbn. lia. Qed.

(** The whole rewriting, for texts of one unit per rune. *)
Lemma rewrite_login7_views payload username password database out :
  plain_text username → plain_text password → (has_text database = true → plain_text database) →
  login_layout (managed_fields database) payload →
  rewriteLogin7WithManagedCreds payload username password database = inl out →
  login7_text out 40 = encodeUTF16LE username ∧ login7_text out 44 = obfuscateTDSPassword password
  ∧ (has_text database = true → login7_text out 68 = encodeUTF16LE database)
  ∧ length out = length payload.
Proof.
  intros Hu Hp Hd Hl (Hlen & l1 & l2 & l3 & E1 & E2 & E3 & ->)%rewrite_login7_iff.
  pose proof (managed_entries database) as He. set (ps := managed_fields database) in *.
  assert (H40 : 40%nat ∈ ps) by (apply managed_spec; auto).
  assert (H44 : 44%nat ∈ ps) by (apply managed_spec; auto).
  destruct (sql_auth_layout ps payload He Hl Hlen) as [Hl0 _]. pose proof (length_sql_auth _ Hlen) as L0.
  assert (Hpw : length (obfuscateTDSPassword password) = (2 * Z.to_nat (rune_count password))%nat).
  { unfold obfuscateTDSPassword. by rewrite length_map, plain_text_units. }
  apply (layout_set ps) in E1 as (Hl1 & L1 & V1 & O1);
    [|done|done|by rewrite L0|done|apply rune_count_nonneg|by apply plain_text_units].
  apply (layout_set ps) in E2 as (Hl2 & L2 & V2 & O2);
    [|done|done|by rewrite L1, L0|done|apply rune_count_nonneg|done].
  assert (H3 : login_layout ps l3 ∧ length l3 = length l2
    ∧ (∀ q, q ∈ ps → q ≠ 68%nat → field_view l3 q = field_view l2 q)
    ∧ (has_text database = true → login7_text l3 68 = encodeUTF16LE database)).
  { destruct (has_text database) eqn:Ed; [|by simplify_eq].
    apply (layout_set ps) in E3 as (Hl3 & L3 & V3 & O3);
      [|done|done|by rewrite L2, L1, L0|apply managed_spec; auto|apply rune_count_nonneg|by apply plain_text_units, Hd].
    split_and!; try done. intros _. unfold field_view in V3. by injection V3. }
  destruct H3 as (Hl3 & L3 & O3 & T3).
  destruct (layout_splice ps l3 0 (le_bytes 4 (wrap 32 (zlen l3))) He Hl3) as [_ Vf];
    [lia|rewrite length_le_bytes; lia|].
  assert (T : ∀ q, q ∈ ps → login7_text (splice l3 0 (le_bytes 4 (wrap 32 (zlen l3)))) q = login7_text l3 q).
  { intros q Hq. by apply Vf, view_inj in Hq as (_ & _ & _ & ->). }
  rewrite !T by done. split_and!.
  - pose proof (O3 40%nat H40 ltac:(lia)) as E%view_inj. rewrite (proj2 (proj2 (proj2 E))).
    pose proof (O2 40%nat H40 ltac:(lia)) as E'%view_inj. rewrite (proj2 (proj2 (proj2 E'))).
    unfold field_view in V1. by injection V1.
  - pose proof (O3 44%nat H44 ltac:(lia)) as E%view_inj. rewrite (proj2 (proj2 (proj2 E))).
    unfold field_view in V2. by injection V2.
  - intros Ht. rewrite T by (apply managed_spec; auto). auto.
  - rewrite length_splice; [by rewrite L3, L2, L1, L0|].
    rewrite length_le_bytes. unfold login7FixedLen in *. lia.
Qed.

(** ** When the rewriting succeeds, and what it leaves alone *)

Lemma set_others ps pos raw chars l l' :
  entries_apart ps → login_layout ps l → (login7FixedLen <= length l)%nat → pos ∈ ps →
  setUTF16Field pos raw chars l = inl l' →
  length l' = length l ∧ ∀ q, q ∈ ps → q ≠ pos → field_view l' q = field_view l q.
Proof.
  intros He Hl Hlen Hpos Hs. destruct (proj1 He pos Hpos) as [_ Hp94]. pose proof (proj1 Hl pos Hpos) as Hb.
  split; [by apply setUTF16Field_spec in Hs as [? _]|].
  intros q Hq Hne. pose proof (proj2 He pos q Hpos Hq ltac:(done)). destruct (proj1 He q Hq).
  eapply (view_other pos); try done; [lia|by apply Hl|by apply Hl].
Qed.
Lemma layout_views ps qs l l' : (∀ q, q ∈ qs → q ∈ ps ∧ field_view l' q = field_view l q) →
  login_layout ps l → login_layout qs l'.
Proof.
  intros Hv [Hb Ha].
  assert (E : ∀ q, q ∈ qs → q ∈ ps ∧ field_off l' q = field_off l q ∧ field_end l' q = field_end l q).
  { intros q Hq. destruct (Hv q Hq) as [? (? & _ & ? & _)%view_inj]. done. }
  split.
  - intros q Hq. destruct (E q Hq) as (Hq' & Eo & _). specialize (Hb q Hq'). unfold behind_header in *. by rewrite Eo.
  - intros p q Hp Hq Hne. destruct (E p Hp) as (Hp' & Eo & Ee), (E q Hq) as (Hq' & Fo & Fe).
    specialize (Ha p q Hp' Hq' Hne). unfold fields_apart in *. by rewrite Eo, Ee, Fo, Fe.
Qed.
Lemma fits_view l l' q raw : length l' = length l → field_view l' q = field_view l q →
  field_fits l' q raw ↔ field_fits l q raw.
Proof. intros L (_ & E1 & E2 & _)%view_inj. unfold field_fits. by rewrite L, E1, E2. Qed.
Lemma set_exists pos raw chars l : (∃ l', setUTF16Field pos raw chars l = inl l') ↔ field_fits l pos raw.
Proof.
  split; [by intros (l' & [? _]%setUTF16Field_ok)|]. intros Hf. eexists. by apply setUTF16Field_ok.
Qed.

(** The records between the steps: each step changes its own field only. *)
Lemma rewrite_steps payload username password database l1 l2 :
  login_layout (managed_fields database) payload → (login7FixedLen <= length payload)%nat →
  setUTF16Field 40 (encodeUTF16LE username) (rune_count username) (sql_auth payload) = inl l1 →
  (length l1 = length payload ∧ ∀ q, q ∈ managed_fields database → q ≠ 40%nat →
    field_view l1 q = field_view payload q)
  ∧ (setUTF16Field 44 (obfuscateTDSPassword password) (rune_count password) l1 = inl l2 →
     length l2 = length payload ∧ ∀ q, q ∈ managed_fields database → q ≠ 40%nat → q ≠ 44%nat →
       field_view l2 q = field_view payload q).
Proof.
  intros Hl Hlen E1. pose proof (managed_entries database) as He. set (ps := managed_fields database) in *.
  destruct (sql_auth_layout ps payload He Hl Hlen) as [Hl0 V0]. pose proof (length_sql_auth _ Hlen) as L0.
  assert (H40 : 40%nat ∈ ps) by (apply managed_spec; auto).
  destruct (set_others ps 40 _ _ _ _ He Hl0 ltac:(lia) H40 E1) as [L1 V1].
  assert (V : ∀ q, q ∈ ps → q ≠ 40%nat → field_view l1 q = field_view payload q).
  { intros q Hq Hne. by rewrite V1, V0. }
  split; [split; [lia|done]|]. intros E2.
  set (qs := filter (λ q, q ≠ 40%nat) ps).
  assert (Hqs : ∀ q, q ∈ qs → q ∈ ps ∧ q ≠ 40%nat) by (intros q [? ?]%list_elem_of_filter; done).
  assert (Hl1 : login_layout qs l1).
  { eapply layout_views, Hl. intros q [Hq Hne]%Hqs. auto. }
  assert (Heq : entries_apart qs).
  { destruct He as [A B]. split; [intros p [? _]%Hqs; auto|intros p q [? _]%Hqs [? _]%Hqs; auto]. }
  destruct (set_others qs 44 _ _ _ _ Heq Hl1 ltac:(lia)
    ltac:(apply list_elem_of_filter; split; [done|apply managed_spec; auto]) E2) as [L2 V2].
  split; [lia|]. intros q Hq Hne Hne'. rewrite V2; [by apply V|by apply list_elem_of_filter|done].
Qed.

Lemma rewrite_login7_fits payload username password database :
  login_layout (managed_fields database) payload →
  (∃ out, rewriteLogin7WithManagedCreds payload username password database = inl out) ↔
  (login7FixedLen <= length payload)%nat ∧ field_fits payload 40 (encodeUTF16LE username)
  ∧ field_fits payload 44 (obfuscateTDSPassword password)
  ∧ (has_text database = true → field_fits payload 68 (encodeUTF16LE database)).
Proof.
  intros Hl. pose proof (managed_entries database) as He.
  assert (M : ∀ p, p = 40%nat ∨ p = 44%nat ∨ p = 68%nat ∧ has_text database = true → p ∈ managed_fields database)
    by (intros p; apply managed_spec).
  assert (F0 : (login7FixedLen <= length payload)%nat →
    field_fits (sql_auth payload) 40 (encodeUTF16LE username) ↔ field_fits payload 40 (encodeUTF16LE username)).
  { intros Hlen. destruct (sql_auth_layout _ payload He Hl Hlen) as [_ V0].
    apply fits_view; [by apply length_sql_auth|]. apply V0, M. auto. }
  split.
  - intros (out & (Hlen & l1 & l2 & l3 & E1 & E2 & E3 & _)%rewrite_login7_iff). split; [done|].
    destruct (rewrite_steps payload username password database l1 l2 Hl Hlen E1) as [[L1 V1] H2].
    destruct (H2 E2) as [L2 V2]. split_and!.
    + apply F0; [done|]. apply (set_exists _ _ (rune_count username)). eauto.
    + eapply (fits_view payload l1); [done|apply V1; [apply M; auto|lia]|].
      apply (set_exists _ _ (rune_count password)). eauto.
    + intros Ht. rewrite Ht in E3. eapply (fits_view payload l2); [done|apply V2; [apply M; auto|lia..]|].
      apply (set_exists _ _ (rune_count database)). eauto.
  - intros (Hlen & F40 & F44 & F68).
    destruct (proj2 (set_exists 40 (encodeUTF16LE username) (rune_count username) (sql_auth payload))) as [l1 E1];
      [by apply F0|].
    destruct (rewrite_steps payload username password database l1 [] Hl Hlen E1) as [[L1 V1] _].
    destruct (proj2 (set_exists 44 (obfuscateTDSPassword password) (rune_count password) l1)) as [l2 E2].
    { eapply (fits_view payload l1); [done|apply V1; [apply M; auto|lia]|done]. }
    destruct (rewrite_steps payload username password database l1 l2 Hl Hlen E1) as [_ H2].
    destruct (H2 E2) as [L2 V2].
    assert (∃ l3, (if has_text database then setUTF16Field 68 (encodeUTF16LE database) (rune_count database) l2
                   else inl l2) = inl l3) as [l3 E3].
    { destruct (has_text database) eqn:Ht; [|eauto]. apply set_exists.
      eapply (fits_view payload l2); [done|apply V2; [apply M; auto|lia..]|auto]. }
    eexists. apply rewrite_login7_iff. split; [done|]. by exists l1, l2, l3.
Qed.

Lemma behind_view l l' q : field_view l' q = field_view l q → behind_header l q → behind_header l' q.
Proof. intros (E & _)%view_inj. unfold behind_header. by rewrite E. Qed.
(** Nothing but the managed fields, the security bit and the length changes. *)
Lemma touched_view l l' p k : field_view l' p = field_view l p → field_touched l' p k ↔ field_touched l p k.
Proof. intros (E1 & _ & E2 & _)%view_inj. unfold field_touched. by rewrite E1, E2. Qed.
Lemma rewrite_bytes payload username password database out k :
  login_layout (managed_fields database) payload →
  rewriteLogin7WithManagedCreds payload username password database = inl out →
  (4 <= k)%nat → (∀ p, p ∈ managed_fields database → ¬ field_touched payload p k) →
  out !! k = sql_auth payload !! k.
Proof.
  intros Hl (Hlen & l1 & l2 & l3 & E1 & E2 & E3 & ->)%rewrite_login7_iff Hk Ht.
  pose proof (managed_entries database) as He.
  assert (M : ∀ p, p = 40%nat ∨ p = 44%nat ∨ p = 68%nat ∧ has_text database = true → p ∈ managed_fields database)
    by (intros p; apply managed_spec).
  destruct (sql_auth_layout _ payload He Hl Hlen) as [Hl0 V0]. pose proof (length_sql_auth _ Hlen) as L0.
  destruct (rewrite_steps payload username password database l1 l2 Hl Hlen E1) as [[L1 V1] H2].
  destruct (H2 E2) as [L2 V2].
  assert (B : ∀ p l, p ∈ managed_fields database → field_view l p = field_view payload p → behind_header l p).
  { intros p l Hp Hv. eapply behind_view; [exact Hv|by apply Hl]. }
  assert (S1 : l1 !! k = sql_auth payload !! k).
  { assert (Hv : field_view (sql_auth payload) 40 = field_view payload 40) by (apply V0, M; auto).
    apply setUTF16Field_spec in E1 as (_ & _ & _ & _ & Ho);
      [|unfold login7FixedLen; lia|lia|apply B; [apply M; auto|done]].
    apply Ho. rewrite touched_view by done. apply Ht, M. auto. }
  assert (S2 : l2 !! k = l1 !! k).
  { assert (Hv : field_view l1 44 = field_view payload 44) by (apply V1; [apply M; auto|lia]).
    apply setUTF16Field_spec in E2 as (_ & _ & _ & _ & Ho);
      [|unfold login7FixedLen; lia|lia|apply B; [apply M; auto|done]].
    apply Ho. rewrite touched_view by done. apply Ht, M. auto. }
  assert (S3 : l3 !! k = l2 !! k ∧ length l3 = length payload).
  { destruct (has_text database) eqn:Ed; [|by simplify_eq].
    assert (Hv : field_view l2 68 = field_view payload 68) by (apply V2; [apply M; auto|lia..]).
    apply setUTF16Field_spec in E3 as (L3 & _ & _ & _ & Ho);
      [|unfold login7FixedLen; lia|lia|apply B; [apply M; auto|done]].
    split; [|lia]. apply Ho. rewrite touched_view by done. apply Ht, M. auto. }
  destruct S3 as [S3 L3]. rewrite splice_outside; [congruence|..]; rewrite length_le_bytes;
    unfold login7FixedLen in *; lia.
Qed.
Lemma at_byte_lookup l l' k : l' !! k = l !! k → at_byte l' k = at_byte l k.
Proof. intros H. unfold at_byte. by rewrite !nth_lookup, H. Qed.

(** ** A field that overlaps the password's *)

(** With HostName's entry on the region of Password's, the server reads the
    managed password as the client's host name. *)
Definition shares_password_region (l : bytes) : Prop :=
  field_off l 36 = field_off l 44 ∧ field_chars l 36 = field_chars l 44.

Lemma rewrite_shared_region payload username password database out :
  login_layout (managed_fields database) payload → shares_password_region payload →
  rewriteLogin7WithManagedCreds payload username password database = inl out →
  ∃ n, login7_text out 36 = obfuscateTDSPassword password ++ repeat NUL n.
Proof.
  intros Hl [So Sc] (Hlen & l1 & l2 & l3 & E1 & E2 & E3 & ->)%rewrite_login7_iff.
  assert (Se : field_end payload 36 = field_end payload 44) by (unfold field_end; by rewrite So, Sc).
  pose proof (managed_entries database) as He. unfold login7FixedLen in Hlen.
  assert (M : ∀ p, p = 40%nat ∨ p = 44%nat ∨ p = 68%nat ∧ has_text database = true → p ∈ managed_fields database)
    by (intros p; apply managed_spec).
  destruct (sql_auth_layout _ payload He Hl Hlen) as [Hl0 V0]. pose proof (length_sql_auth _ Hlen) as L0.
  destruct (rewrite_steps payload username password database l1 l2 Hl Hlen E1) as [[L1 V1] H2].
  destruct (H2 E2) as [L2 V2].
  assert (Hb : ∀ p l, p ∈ managed_fields database → field_view l p = field_view payload p → behind_header l p).
  { intros p l Hp Hv. eapply behind_view; [exact Hv|by apply Hl]. }
  assert (B36 : behind_header payload 36).
  { unfold behind_header. rewrite So. apply (proj1 Hl 44%nat), M. auto. }
  assert (W0 : field_view (sql_auth payload) 36 = field_view payload 36).
  { apply view_splice; unfold login7FixedLen; cbn [length]; try lia. done. }
  assert (Ap : ∀ p l, p ∈ managed_fields database → p ≠ 44%nat → field_view l p = field_view payload p →
    field_off l 36 = field_off payload 36 → field_end l 36 = field_end payload 36 → fields_apart l p 36).
  { intros p l Hp Hne (F1 & _ & F2 & _)%view_inj Eo Ee. unfold fields_apart. rewrite F1, F2, Eo, Ee, So, Se.
    apply (proj2 Hl p 44%nat); [done|apply M; auto|done]. }
  assert (W1 : field_view l1 36 = field_view payload 36).
  { rewrite <- W0. pose proof (view_inj _ _ _ W0) as (Eo & _ & Ee & _).
    assert (Hv : field_view (sql_auth payload) 40 = field_view payload 40) by (apply V0, M; auto).
    eapply (view_other 40); unfold login7FixedLen; try lia; [|by eapply behind_view| |exact E1].
    - apply Hb; [apply M; auto|done].
    - apply Ap; [apply M; auto|lia|done..]. }
  pose proof (view_inj _ _ _ W1) as (Eo1 & Ec1 & Ee1 & _).
  assert (V44 : field_view l1 44 = field_view payload 44) by (apply V1; [apply M; auto|lia]).
  assert (B44 : behind_header l1 44) by (apply Hb; [apply M; auto|done]).
  pose proof (view_inj _ _ _ V44) as (F1 & F2 & F3 & _).
  apply setUTF16Field_spec in E2 as (_ & _ & _ & Et & Ho); [|unfold login7FixedLen; lia..|done].
  assert (Hh : ∀ k, (36 <= k < 40)%nat → l2 !! k = l1 !! k).
  { intros k Hk. apply Ho. unfold field_touched, behind_header, login7FixedLen in *. lia. }
  assert (U1 : uint16_at l2 36 = uint16_at l1 36) by (apply uint16_ext; intros; apply Hh; lia).
  assert (U2 : uint16_at l2 (36 + 2) = uint16_at l1 (36 + 2)) by (apply uint16_ext; intros; apply Hh; lia).
  assert (Eo2 : field_off l2 36 = field_off payload 36) by (unfold field_off in *; rewrite U1; done).
  assert (Ec2 : field_chars l2 36 = field_chars payload 36) by (unfold field_chars in *; rewrite U2; done).
  assert (Ee2 : field_end l2 36 = field_end payload 36) by (unfold field_end; by rewrite Eo2, Ec2).
  assert (T2 : login7_text l2 36 = obfuscateTDSPassword password
    ++ repeat NUL (2 * field_chars l1 44 - length (obfuscateTDSPassword password))).
  { unfold login7_text. rewrite Eo2, Ee2, So, Se, <- F1, <- F3. exact Et. }
  assert (B2 : behind_header l2 36) by (unfold behind_header in *; by rewrite Eo2).
  assert (W3 : field_view l3 36 = field_view l2 36 ∧ length l3 = length payload).
  { destruct (has_text database) eqn:Ed; [|by simplify_eq].
    assert (Hv : field_view l2 68 = field_view payload 68) by (apply V2; [apply M; auto|lia..]).
    assert (B68 : behind_header l2 68) by (apply Hb; [apply M; auto|done]).
    split; [|apply setUTF16Field_spec in E3 as [-> _]; [done|unfold login7FixedLen; lia..|done]].
    eapply (view_other 68); unfold login7FixedLen; try lia; [done|done| |exact E3].
    apply Ap; [apply M; auto|lia|done..]. }
  destruct W3 as [W3 L3].
  assert (W4 : field_view (splice l3 0 (le_bytes 4 (wrap 32 (zlen l3)))) 36 = field_view l3 36).
  { apply view_splice; rewrite ?length_le_bytes; unfold login7FixedLen; try lia. by eapply behind_view. }
  rewrite W3 in W4. apply view_inj in W4 as (_ & _ & _ & ->). eexists. exact T2.
Qed.

(** A LOGIN7 record with room for 128 characters in each managed field, and
    HostName on Password's region: it depends on no credential. *)
Definition probe_entry (pos : nat) (off chars : Z) (l : bytes) : bytes :=
  splice l pos (le_bytes 2 off ++ le_bytes 2 chars).
Definition probe_login : bytes :=
  probe_entry 36 350 128 (probe_entry 40 94 128 (probe_entry 44 350 128 (probe_entry 68 606 128
    (repeat NUL (94 + 3 * 256))))).
Lemma probe_fields p off : (p, off) ∈ [(40, 94); (44, 350); (68, 606)]%nat →
  field_off probe_login p = off ∧ field_chars probe_login p = 128%nat.
Proof. rewrite !elem_of_cons, elem_of_nil. intros [[= -> ->]|[[= -> ->]|[[= -> ->]|[]]]]; by vm_compute. Qed.
Lemma probe_layout database : login_layout (managed_fields database) probe_login.
Proof.
  destruct (probe_fields 40 94) as [A1 A2]; [set_solver|]. destruct (probe_fields 44 350) as [B1 B2]; [set_solver|].
  destruct (probe_fields 68 606) as [C1 C2]; [set_solver|].
  split; intros p.
  - intros [->|[->|[-> _]]]%managed_spec; unfold behind_header, login7FixedLen; lia.
  - intros q Hp%managed_spec Hq%managed_spec Hne. unfold fields_apart, field_end.
    destruct Hp as [->|[->|[-> _]]], Hq as [->|[->|[-> _]]]; rewrite ?A1, ?A2, ?B1, ?B2, ?C1, ?C2; lia.
Qed.
Lemma probe_fits p v : p ∈ [40; 44; 68]%nat → (length v <= 256)%nat → field_fits probe_login p v.
Proof.
  destruct (probe_fields 40 94) as [A1 A2]; [set_solver|]. destruct (probe_fields 44 350) as [B1 B2]; [set_solver|].
  destruct (probe_fields 68 606) as [C1 C2]; [set_solver|].
  assert (L : length probe_login = 862%nat) by (by vm_compute).
  rewrite !elem_of_cons, elem_of_nil. unfold field_fits, field_end. rewrite L.
  intros [->|[->|[->|[]]]]; rewrite ?A1, ?A2, ?B1, ?B2, ?C1, ?C2; lia.
Qed.
Lemma probe_shares : shares_password_region probe_login.
Proof. by vm_compute. Qed.

(** * Texts of batches and requests *)

Lemma units_nonblank v : TrimSpace v ≠ [] → (2 <= length (units_bytes (utf16_encode (runes v))))%nat.
Proof.
  intros Hne. destruct v as [|a v]; [done|]. rewrite length_units_bytes. unfold runes. cbn [length decode_runes].
  destruct (rune_len (a :: v)); unfold utf16_encode; cbn [map concat]; rewrite length_app;
    unfold utf16_units; repeat case_match; cbn [length]; lia.
Qed.
Lemma decode_encode v : utf8_valid v = true → decodeUTF16LE (encodeUTF16LE v) = TrimSpace v.
Proof.
  intros Hv. destruct (decide (TrimSpace v = [])) as [Hb|Hb].
  - unfold encodeUTF16LE. by rewrite bool_decide_true, Hb.
  - pose proof (utf16_text_encode v Hv Hb) as Ht. unfold utf16_text in Ht. unfold decodeUTF16LE. rewrite Ht.
    unfold encodeUTF16LE. rewrite bool_decide_false by done. pose proof (units_nonblank v Hb).
    by rewrite (proj2 (Nat.ltb_ge _ _)) by lia.
Qed.

(** A batch's ALL_HEADERS block: its first four bytes are its length. *)
Definition headers_block (h : bytes) : Prop := (4 <= length h)%nat ∧ le_value (take 4 h) = zlen h.
Lemma extract_batch h q :
  headers_block h → utf8_valid q = true → extractSQLBatchQuery (h ++ encodeUTF16LE q) = TrimSpace q.
Proof.
  intros [Hh Hv] Hq. unfold extractSQLBatchQuery. rewrite bool_decide_false by (destruct h; [cbn in Hh; lia|done]).
  rewrite take_app_le, Hv by done. rewrite (proj2 (Nat.leb_le _ _)) by (rewrite length_app; lia). cbv zeta.
  rewrite (proj2 (Z.leb_le 4 _)), (proj2 (Z.leb_le _ (zlen (h ++ _))))
    by (unfold zlen; rewrite ?length_app; lia). cbn [andb].
  unfold zlen. rewrite Nat2Z.id, drop_app_length, decode_encode, TrimSpace_idem by done.
  by rewrite utf8_valid_TrimSpace.
Qed.

(** ** sp_executesql, as clients with ALL_HEADERS send it *)

(** The header block of an RPC request: its length, and the transaction
    descriptor header with the descriptor [desc] and one outstanding request. *)
Definition transaction_headers (desc : bytes) : bytes :=
  le_bytes 4 22 ++ le_bytes 4 18 ++ le_bytes 2 2 ++ desc ++ le_bytes 4 1.
(** Procedure 10 by number, no options, one unnamed nvarchar parameter of the
    type information [ty] (maximal length and collation): the statement. *)
Definition executesql_request (desc ty sql : bytes) : bytes :=
  transaction_headers desc
  ++ map z2b [255; 255; 10; 0; 0; 0; 0; 0; 231] ++ ty
  ++ le_bytes 2 (2 * zlen sql) ++ encodeUTF16LE sql.

Definition is_text_byte (b : byte) : bool := is_text_unit (b2z b).
Lemma text_byte_ascii s : forallb is_text_byte s = true → forallb is_ascii s = true.
Proof.
  apply forallb_mono. intros b. unfold is_text_byte, is_text_unit, is_ascii. pose proof (b2z_range b). lia.
Qed.
Lemma units_ascii s : forallb is_ascii s = true → utf16_encode (runes s) = map b2z s.
Proof.
  intros H. rewrite runes_ascii by done. unfold utf16_encode. induction s as [|a s IH]; [done|].
  cbn [forallb map concat] in *. apply andb_true_iff in H as [Ha Hs]. rewrite IH by done.
  unfold utf16_units, is_scalar, is_surrogate. unfold is_ascii in Ha. pose proof (b2z_range a). gobool.
  rewrite (proj2 (Z.leb_le 0 _)), (proj2 (Z.ltb_lt _ 1114112)), (proj2 (Z.leb_gt 55296 _)) by lia. cbn.
  by rewrite (proj2 (Z.ltb_lt _ 65536)) by lia.
Qed.
Lemma text_runs_all s b : forallb is_text_byte s = true → text_runs (map b2z s) b = flush (b ++ s).
Proof.
  revert b. induction s as [|a s IH]; intros b; cbn [forallb map text_runs]; [by rewrite app_nil_r|].
  intros [Ha Hs]%andb_true_iff. unfold is_text_byte in Ha. rewrite Ha, IH by done.
  rewrite z2b_b2z. by rewrite <- app_assoc.
Qed.
Lemma drop_units n us : drop (2 * n) (units_bytes us) = units_bytes (drop n us).
Proof.
  revert us. induction n as [|n IH]; intros us; [done|]. destruct us as [|u us]; [by rewrite drop_nil|].
  replace (2 * S n)%nat with (2 + 2 * n)%nat by lia. unfold units_bytes in *. cbn [map concat].
  rewrite <- drop_drop. change (drop (S n) (u :: us)) with (drop n us). rewrite <- IH. f_equal.
Qed.

Section Requests.
Context `{Unicode}.

(** The text such a request is searched for: its statement without the first
    four characters. *)
Definition scanned_text (sql : bytes) : bytes :=
  let t := drop 4 sql in
  if (12 <=? length t)%nat && containsSQLKeyword (TrimSpace t) then TrimSpace t else [].

Lemma executesql_scanned desc ty sql :
  length desc = 8%nat → length ty = 7%nat → forallb is_text_byte sql = true → (4 < length sql)%nat →
  TrimSpace sql ≠ [] →
  ∃ name, parseRPCQuery (executesql_request desc ty sql) = (NUL :: name, scanned_text sql).
Proof.
  intros Hd Ht Hs Hl Hne. set (p := executesql_request desc ty sql).
  assert (Hu : encodeUTF16LE sql = units_bytes (map b2z sql)).
  { unfold encodeUTF16LE. by rewrite bool_decide_false, units_ascii by (try apply text_byte_ascii; done). }
  set (front := transaction_headers desc ++ map z2b [255; 255; 10; 0; 0; 0; 0; 0; 231] ++ ty ++ le_bytes 2 (2 * zlen sql)).
  assert (Ep : p = front ++ units_bytes (map b2z sql)).
  { unfold p, executesql_request, front. by rewrite Hu, <- !app_assoc. }
  assert (Lf : length front = 40%nat).
  { unfold front, transaction_headers. by rewrite !length_app, !length_le_bytes, Hd, Ht. }
  assert (Lp : (50 <= length p)%nat).
  { rewrite Ep, length_app, Lf, length_units_bytes, length_map. lia. }
  assert (H0 : uint16_at p 0 = 22) by done.
  assert (Hn : ∃ t, TrimSpace (decodeUTF16LE (slice p 2 (2 + 44))) = NUL :: t).
  { assert (Hsl : ∃ t, slice p 2 (2 + 44) = NUL :: NUL :: t).
    { eexists. reflexivity. }
    destruct Hsl as [t E]. rewrite E. unfold decodeUTF16LE. cbn [length Nat.ltb Nat.leb bytes_units].
    change (utf16_decode (le_value [NUL; NUL] :: bytes_units t)) with (0 :: utf16_decode (bytes_units t)).
    change (runes_string (0 :: utf16_decode (bytes_units t))) with (NUL :: runes_string (utf16_decode (bytes_units t))).
    rewrite TrimSpace_idem. apply TrimSpace_nul. }
  destruct Hn as [name Hn]. exists name. unfold parseRPCQuery.
  rewrite (proj2 (Nat.ltb_ge _ _)) by lia. cbv zeta. rewrite H0. cbn [Z.eqb Pos.eqb].
  change (Z.to_nat (22 * 2)) with 44%nat. rewrite (proj2 (Nat.ltb_ge _ _)) by lia.
  rewrite (proj2 (Nat.leb_gt _ _)) by lia. rewrite Hn. f_equal.
  rewrite Ep, drop_app_ge, Lf by lia. change (2 + 44 + 2 - 40)%nat with (2 * 4)%nat.
  rewrite drop_units. unfold extractLikelySQLFromRPCPayload, extractASCIIUTF16Runs.
  rewrite bytes_units_bytes.
  2: { apply Forall_drop, Forall_forall. intros u Hu'. apply list_elem_of_In, in_map_iff in Hu' as (b & <- & _).
       pose proof (b2z_range b). lia. }
  rewrite <- fmap_drop. change (b2z <$> drop 4 sql) with (map b2z (drop 4 sql)).
  rewrite text_runs_all.
  2: { rewrite forallb_forall in *. intros b Hb. apply Hs. rewrite <- (take_drop 4 sql). apply in_app_iff. by right. }
  cbn [app]. unfold flush, scanned_text. cbv zeta. set (t := drop 4 sql).
  destruct (12 <=? length t)%nat; [|done]. cbn [best_candidate andb].
  destruct (containsSQLKeyword (TrimSpace t)) eqn:Ek; [|done]. cbn [negb].
  destruct (TrimSpace t) as [|b t'] eqn:Et; [by vm_compute in Ek|]. done.
Qed.
End Requests.
