(* ===== verification/MssqlSpec.v ===== *)
(** The MSSQL proxy's specification: the relay as a session of TDS messages
    under every schedule, the query log, what is written to an upstream whose
    TLS fails, the marks of a connection, and what a rewritten login and a
    parameterised request reveal. *)
From S2P Require Import Prelude GoStrings GoBinary GoEncoding GoUtf16 GoIO ProxyEvents ProxyRuns Relay TdsWire Mssql TdsSpec.

(** * Packets of a message *)

Lemma write_packets_sends side ps : sends side (concat ps) (write_packets side ps).
Proof.
  induction ps as [|p ps IH]; cbn [write_packets concat]; [apply sends_nothing|].
  apply sends_then; [apply sends_write|exact IH].
Qed.

Lemma tds_client_ends : ends client_message.
Proof. apply ends_client_read, readTDSMessage_ends. Qed.
Lemma tds_upstream_ends : ends upstream_message.
Proof. apply ends_read, readTDSMessage_ends. Qed.

(** * The frontend goroutine *)

Section Front.
Context `{Unicode} (env : environment) (reg : SessionRegistration).

Definition tds_log_entry (n : nat) (entry : option (bytes * bytes * bool)) : list event :=
  match entry with
  | Some (q, ptype, prepared) => [Enqueue (LogQuery (queryLog env reg n q ptype prepared))]
  | None => []
  end.

(** Its protocol: every message goes on, in the state its capture leaves. *)
Definition tds_protocol : protocol prepared_state tdsMessage := {|
  wire := message_bytes;
  readable := tds_readable;
  note := λ n st m, tds_log_entry n (capture st (t_PacketType m) (t_Payload m)).2;
  next := λ st m, Some (capture st (t_PacketType m) (t_Payload m)).1;
|}.

(** A message that was read: its log entry, then its packets. *)
Lemma tds_handle st m w :
  ∃ o t b w', (let! st' := handleQueryCapture env reg m st in
               do! write_packets ToUpstream (t_Packets m) in ret (Some st')) w = (o, w')
    ∧ dx_trace w' = dx_trace w ++ note tds_protocol (length (dx_trace w)) st m ++ t
    ∧ pieces ToUpstream t b ∧ b `prefix_of` message_bytes m
    ∧ dx_client w' = dx_client w ∧ dx_upstream w' = dx_upstream w
    ∧ (o = Ok (next tds_protocol st m) ∧ b = message_bytes m ∨ ∃ e, o = Err e)
    ∧ (dx_faults w = [] → (∃ r, o = Ok r) ∧ dx_faults w' = []).
Proof.
  change (note tds_protocol (length (dx_trace w)) st m)
    with (tds_log_entry (length (dx_trace w)) (capture st (t_PacketType m) (t_Payload m)).2).
  set (log := tds_log_entry _ _).
  set (w1 := Duplex (dx_client w) (dx_upstream w) (dx_faults w) (dx_trace w ++ log)).
  assert (Hq : handleQueryCapture env reg m st w = (Ok (capture st (t_PacketType m) (t_Payload m)).1, w1)).
  { unfold handleQueryCapture, w1, log.
    destruct (capture st (t_PacketType m) (t_Payload m)) as [st' [[[q pt] pr]|]]; [done|].
    cbn. rewrite app_nil_r. by destruct w. }
  unfold bind at 1. rewrite Hq.
  destruct (write_packets_sends ToUpstream (t_Packets m) w1) as (o & t & b & w2 & E & Ht & Hp & Hpre & Hok & Hc & Hu & Hf).
  unfold bind. rewrite E. destruct Hok as [[-> ->]|[e ->]]; eexists _, t, _, w2;
    (split_and!; [done|by rewrite Ht; cbn; rewrite app_assoc|exact Hp|exact Hpre|exact Hc|exact Hu|eauto|]);
    intros [??]%Hf; [eauto|done].
Qed.

(** One pass of the loop, by what can be read. *)
Lemma tds_forward_cases st w :
  (∃ m r, readTDSMessage (dx_client w) = (Ok m, r)
    ∧ forward_message env reg st w
      = (let! st' := handleQueryCapture env reg m st in
         do! write_packets ToUpstream (t_Packets m) in ret (Some st'))
        (Duplex r (dx_upstream w) (dx_faults w) (dx_trace w)))
  ∨ (∃ o r, forward_message env reg st w = (o, Duplex r (dx_upstream w) (dx_faults w) (dx_trace w))
    ∧ (o = Ok None ∨ ∃ e, o = Err e)).
Proof.
  assert (Hf : ∀ o r, readTDSMessage (dx_client w) = (o, r) →
    try client_message w = try (λ s, (o, s)) (Duplex r (dx_upstream w) (dx_faults w) (dx_trace w))).
  { intros o r E. unfold try, client_message, client_read, zoom. by rewrite E. }
  unfold forward_message.
  destruct (readTDSMessage_outcome (dx_client w)) as [(m & r & E)|(e & r & E)]; specialize (Hf _ _ E);
    [left; exists m, r; split; [done|]|right]; unfold bind at 1; rewrite Hf; cbn [try]; [done|].
  destruct (errors_is e §"io.EOF" || errors_is e §"io.ErrUnexpectedEOF");
    [exists (Ok None), r|exists (Err e), r]; unfold try; cbv beta iota zeta; (split; [done|eauto]).
Qed.

#[export] Instance tds_forwards : Forwards tds_protocol (forward_message env reg).
Proof.
  split.
  - intros n st m. cbn. by destruct (capture st (t_PacketType m) (t_Payload m)).2 as [[[? ?] ?]|].
  - intros st w. destruct (tds_forward_cases st w) as [(m & r & Hr & E)|(o & r & E & Ho)]; rewrite E.
    2: { exists o, [], (Duplex r (dx_upstream w) (dx_faults w) (dx_trace w)). rewrite app_nil_r.
         split_and!; [done..|]. destruct Ho as [->|[e ->]]; apply fs_end. }
    apply readTDSMessage_sound in Hr as (Hb & _ & Hr). set (w0 := Duplex _ _ _ _).
    destruct (tds_handle st m w0) as (o & t & b & w' & E' & Ht & Hp & Hpre & Hc & Hu & Hok & _). rewrite E'.
    set (log := note tds_protocol (length (dx_trace w0)) st m) in *.
    assert (Hh : handled tds_protocol (length (dx_trace w0)) st m b (log ++ t)) by (by exists t).
    exists o, (log ++ t), w'. split_and!; [done|exact Ht|exact Hu|].
    destruct Hok as [[-> ->]|[e ->]]; cbn [passed next tds_protocol]; rewrite Hb.
    + rewrite Hc. cbn [dx_client w0]. rewrite <- (app_nil_r (log ++ t)).
      by eapply (fs_step tds_protocol); [..|apply fs_here].
    + by eapply (fs_last tds_protocol).
  - intros st w st' w' E'. destruct (tds_forward_cases st w) as [(m & r & Hr & E)|(o & r & E & Ho)]; rewrite E in E'.
    2: { injection E' as -> _. destruct Ho as [?|[? ?]]; done. }
    set (w0 := Duplex _ _ _ _) in E'. destruct (tds_handle st m w0) as (o & t & b & w2 & E2 & _ & _ & _ & Hc & _).
    rewrite E2 in E'. injection E' as _ <-. apply readTDSMessage_takes in Hr. unfold unread_client. by rewrite Hc.
  - intros st st' m t e u tr Hr [= <-]. cbn [wire tds_protocol].
    set (w := Duplex _ _ _ _). pose proof (readTDSMessage_complete m t e Hr) as Hc.
    destruct (tds_forward_cases st w) as [(m' & r & Hr' & E)|(o & r & E & Ho)].
    2: { exfalso. unfold forward_message, bind at 1, try, client_message, client_read, zoom in E. cbn [dx_client w] in E.
         rewrite Hc in E. cbv beta iota zeta in E. set (w0 := Duplex _ _ _ _) in E.
         destruct (tds_handle st m w0) as (o' & t' & b & w2 & E2 & _ & _ & _ & _ & _ & Hok & Hf).
         rewrite E2 in E. destruct (Hf eq_refl) as [[r' ->] _]. injection E as <- _.
         destruct Hok as [[[= ->] _]|[? ?]]; [|done]. destruct Ho as [?|[? ?]]; done. }
    rewrite E. cbn [dx_client w] in Hr'. rewrite Hc in Hr'. injection Hr' as <- <-. set (w0 := Duplex _ _ _ _).
    destruct (tds_handle st m w0) as (o & t2 & b & w' & E2 & Ht & Hp & _ & Hcl & Hu & Hok & Hf). rewrite E2.
    destruct (Hf eq_refl) as [[r ->] Hf']. destruct Hok as [[[= ->] ->]|[? ?]]; [|done].
    apply pieces_up in Hp as [Hs Hg]. exists (note tds_protocol (length tr) st m ++ t2). split_and!.
    + destruct w' as [wc wu wf wt]. cbn in Hcl, Hu, Hf', Ht. by subst.
    + rewrite sent_up_app, Hs. cbn. by destruct (capture st (t_PacketType m) (t_Payload m)).2 as [[[? ?] ?]|].
    + unfold logged in *. rewrite omap_app, Hg, app_nil_r. cbn.
      by destruct (capture st (t_PacketType m) (t_Payload m)).2 as [[[? ?] ?]|].
Qed.
End Front.

(** * A connection *)

Section Connection.
Context `{Unicode} (env : environment) (reg : SessionRegistration).

Lemma calm_sends (side : bytes → event) b m :
  (∀ p, not_terminal (side p) = true) → sends side b m → keeps calm m.
Proof. intros Hs. by apply sends_adds. Qed.

Ltac tds_calm :=
  repeat (first
    [ apply keeps_ret, _ | apply keeps_fail, _ | apply keeps_nofuel, _
    | apply adds_client_read | apply adds_upstream_read | by apply adds_emit | assumption
    | by eapply calm_sends, writeTDSPayload_sends | by eapply calm_sends, write_packets_sends
    | apply keeps_wrap_err
    | apply keeps_bind; [apply _| |intros ?]
    | progress cbv zeta | case_match ]).

Lemma calm_client_login n resp : keeps calm (client_login n resp).
Proof. induction n as [|n IH]; cbn [client_login]; unfold client_message; tds_calm. Qed.
Lemma calm_login_response f e : keeps calm (login_response f e).
Proof.
  revert e. induction f as [|f IH]; intros e; cbn [login_response]; [apply keeps_nofuel, _|].
  unfold upstream_message. apply keeps_bind; [apply _|apply adds_upstream_read|]. intros m.
  apply keeps_bind; [apply _|by eapply calm_sends, write_packets_sends|]. intros _. cbv zeta.
  case_match; [apply keeps_ret, _|]. case_match; [apply keeps_ret, _|apply IH].
Qed.
Lemma calm_relay_login : keeps calm relayLoginResponse.
Proof.
  apply keeps_bind; [apply _| |intros k; apply calm_login_response].
  intros w. exists []. cbn. by rewrite app_nil_r.
Qed.
Lemma tds_calm_negotiate : keeps calm (negotiateUpstreamPrelogin reg).
Proof. unfold negotiateUpstreamPrelogin, upstream_message. tds_calm. Qed.
Lemma tds_calm_secure enc : keeps calm (secure_upstream env reg enc).
Proof. unfold secure_upstream, switch_upstream. tds_calm. by apply adds_modify. Qed.

Lemma tds_calm_flow : keeps calm (runProxyFlow env reg).
Proof.
  pose proof tds_calm_negotiate. pose proof tds_calm_secure. pose proof calm_relay_login.
  unfold runProxyFlow, readClientLoginAfterPrelogin, client_message.
  apply keeps_bind; [apply _|tds_calm|]. intros m. case_match; [tds_calm|]. case_match; [tds_calm|].
  case_match; [tds_calm|]. apply keeps_bind; [apply _|tds_calm|]. intros _.
  apply keeps_bind; [apply _|tds_calm|]. intros [enc resp]. apply keeps_bind; [apply _|auto|]. intros _. cbv zeta.
  apply keeps_bind; [apply _|tds_calm|]. intros _.
  apply keeps_bind; [apply _|apply calm_client_login|]. intros login.
  case_match; [|tds_calm]. apply keeps_bind; [apply _|tds_calm|]. intros _.
  destruct (rewriteLogin7WithManagedCreds _ _ _ _); [|tds_calm].
  apply keeps_bind; [apply _|tds_calm|]. intros _. apply keeps_bind; [apply _|tds_calm|]. intros err.
  case_match; [tds_calm|]. apply keeps_bind; [apply _|eapply calm_relay; apply _|].
  intros [[r st] rest]. apply keeps_ret, _.
Qed.

(** ** Every call ends *)

Ltac tds_ends :=
  repeat (first
    [ apply ends_ret | apply ends_fail | apply tds_client_ends | apply tds_upstream_ends | assumption
    | by eapply sends_ends, writeTDSPayload_sends | by eapply sends_ends, write_packets_sends
    | apply ends_wrap | apply ends_bind; [|intros ?] | progress cbv zeta | case_match ]).

Lemma ends_client_login n resp : ends (client_login n resp).
Proof. induction n as [|n IH]; cbn [client_login]; tds_ends. Qed.
Lemma ends_relay_login : ends relayLoginResponse.
Proof.
  apply (ends_with_fuel unread_upstream (λ f, login_response f [])).
  intros f. generalize ([] : bytes). induction f as [|f IH]; intros e L Hl; [lia|]. cbn [login_response].
  apply bounded_step; [apply tds_upstream_ends|apply upstream_read_progresses, readTDSMessage_takes|].
  intros m L' ?. apply bounded_bind;
    [eapply bounded_ends, sends_ends, write_packets_sends|eapply shrinks_upstream, sends_shrinks, write_packets_sends|].
  intros _. cbv zeta. case_match; [by apply bounded_ends|]. case_match; [by apply bounded_ends|]. apply IH. lia.
Qed.
Lemma tds_ends_flow : ends (runProxyFlow env reg).
Proof.
  pose proof ends_relay_login. assert (∀ r, ends (switch_upstream r)) by done.
  assert (∀ enc, ends (secure_upstream env reg enc)) by (intros; unfold secure_upstream; tds_ends; auto).
  assert (ends (negotiateUpstreamPrelogin reg)) by (unfold negotiateUpstreamPrelogin; tds_ends).
  assert (∀ e, ends (enqueue e)) by done.
  unfold runProxyFlow, readClientLoginAfterPrelogin. apply ends_bind; [tds_ends|]. intros m.
  case_match; [done|]. case_match; [done|]. case_match; [done|]. apply ends_bind; [auto|]. intros _.
  apply ends_bind; [done|]. intros [enc resp]. apply ends_bind; [auto|]. intros _. cbv zeta.
  apply ends_bind; [tds_ends|]. intros _. apply ends_bind; [apply ends_client_login|]. intros login.
  case_match; [|done]. apply ends_bind; [auto|]. intros _.
  destruct (rewriteLogin7WithManagedCreds _ _ _ _); [|done].
  apply ends_bind; [tds_ends|]. intros _. apply ends_bind; [tds_ends|]. intros err. case_match; [done|].
  apply ends_bind; [eapply ends_relay; apply _|]. by intros [[r st] rest].
Qed.
End Connection.

(** * Requiring TLS *)

Section Tls.
Context `{Unicode} (env : environment) (reg : SessionRegistration).

(** Neither written to the upstream nor a use of the credential. *)
Definition unsecret (e : event) : bool :=
  match e with ToUpstream _ | Enqueue (RecordCredentialUsage _ _ _ _) => false | _ => true end.
(** The PRELOGIN request of a session that requires TLS. *)
Definition tls_request : bytes := payload_bytes tdsPacketPreLogin (buildPreloginMessage tdsEncryptRequire).
(** What was done before the login: some of the request, and nothing secret. *)
Definition only_asked (t : list event) : Prop :=
  ∃ t1 ts t2 b, t = t1 ++ ts ++ t2 ∧ pieces ToUpstream ts b ∧ b `prefix_of` tls_request
    ∧ forallb unsecret (t1 ++ t2) = true.

Lemma only_asked_sent t : only_asked t → sent_up t `prefix_of` tls_request.
Proof.
  intros (t1 & ts & t2 & b & -> & Hp & Hb & Hq). rewrite forallb_app in Hq. apply andb_true_iff in Hq as [H1 H2].
  assert (Hn : ∀ t, forallb unsecret t = true → sent_up t = []).
  { unfold sent_up. induction t as [|[] t IH]; cbn; intros; gobool; auto; done. }
  apply pieces_up in Hp as [Hs _]. by rewrite !sent_up_app, Hs, (Hn t1), (Hn t2), app_nil_r.
Qed.
Lemma only_asked_credential t l a b c : only_asked t → Enqueue (RecordCredentialUsage l a b c) ∉ t.
Proof.
  intros (t1 & ts & t2 & x & -> & (ps & -> & _) & _ & Hq). rewrite forallb_app in Hq. apply andb_true_iff in Hq as [H1 H2].
  rewrite forallb_forall in *. rewrite !not_elem_of_app, !list_elem_of_In. split_and!.
  - intros Hin. by apply H1 in Hin.
  - intros (y & Hy & _)%in_map_iff. done.
  - intros Hin. by apply H2 in Hin.
Qed.
Lemma only_asked_quiet t1 t t2 :
  forallb unsecret t1 = true → only_asked t → forallb unsecret t2 = true → only_asked (t1 ++ t ++ t2).
Proof.
  intros H1 (u1 & ts & u2 & b & -> & Hp & Hb & Hq) H2. exists (t1 ++ u1), ts, (u2 ++ t2), b.
  rewrite !forallb_app in *. apply andb_true_iff in Hq as [-> ->]. rewrite H1, H2. split_and!; try done.
  by rewrite <- !app_assoc.
Qed.
Lemma nothing_asked t : forallb unsecret t = true → only_asked t.
Proof. intros Ht. exists t, [], [], []. rewrite !app_nil_r. split_and!; [done|by exists []|apply prefix_nil|done]. Qed.

Hypothesis Hreq : RequireTLS (classifySSLMode (m_SSLMode reg)) = true.

(** The negotiation asks, and reads. *)
Lemma negotiate_asks w : ∃ t, dx_trace (negotiateUpstreamPrelogin reg w).2 = dx_trace w ++ t ∧ only_asked t.
Proof.
  unfold negotiateUpstreamPrelogin. cbv zeta. rewrite Hreq. unfold bind at 1, wrap_err at 1.
  destruct (writeTDSPayload_sends ToUpstream tdsPacketPreLogin (buildPreloginMessage tdsEncryptRequire) w)
    as (o & t & b & w1 & E & Ht & Hp & Hb & Ho & _). rewrite E.
  assert (Hq : keeps (adds unsecret) (let! resp := wrap_err §"read upstream prelogin response" upstream_message in
    if negb (bool_decide (t_PacketType resp = tdsPacketPreLogin))
       && negb (bool_decide (t_PacketType resp = tdsPacketResponse))
    then fail (Errorf §"unexpected upstream prelogin response type")
    else if true && negb (bool_decide (default NUL (parsePreloginEncryption (t_Payload resp)) = tdsEncryptOn)
                          || bool_decide (default NUL (parsePreloginEncryption (t_Payload resp)) = tdsEncryptRequire))
    then fail (Errorf §"upstream did not negotiate tls while ssl_mode requires it")
    else ret (default NUL (parsePreloginEncryption (t_Payload resp)), t_Payload resp))).
  { apply keeps_bind; [apply _|apply keeps_wrap_err, adds_upstream_read|]. intros m.
    case_match; [apply keeps_fail, _|]. case_match; [apply keeps_fail, _|apply keeps_ret, _]. }
  destruct Ho as [[-> ->]|[e ->]].
  - destruct (Hq w1) as (t2 & Ht2 & H2). eexists. split; [etransitivity; [exact Ht2|]; by rewrite Ht, <- app_assoc|].
    exists [], t, t2, (payload_bytes tdsPacketPreLogin (buildPreloginMessage tdsEncryptRequire)). by split_and!.
  - exists t. split; [done|]. exists [], t, [], b. rewrite app_nil_r. by split_and!.
Qed.
Lemma secure_refused e enc :
  env_tls env (m_UpstreamHost reg) (VerifyCert (classifySSLMode (m_SSLMode reg))) = inr e →
  ∀ w, secure_upstream env reg enc w = (Err (Wrap §"upstream tls handshake failed" e), w).
Proof. intros Ht w. unfold secure_upstream. cbv zeta. by rewrite Hreq, orb_true_r, Ht. Qed.

Lemma negotiate_ends w : (∃ x w', negotiateUpstreamPrelogin reg w = (Ok x, w'))
  ∨ (∃ x w', negotiateUpstreamPrelogin reg w = (Err x, w')).
Proof.
  unfold negotiateUpstreamPrelogin, bind, wrap_err, upstream_message, upstream_read, zoom. cbv zeta. rewrite Hreq.
  destruct (writeTDSPayload_sends ToUpstream tdsPacketPreLogin (buildPreloginMessage tdsEncryptRequire) w)
    as (o & t & b & w4 & E & _ & _ & _ & Ho & _). rewrite E.
  destruct Ho as [[-> _]|[x ->]]; [|eauto].
  destruct (readTDSMessage_outcome (dx_upstream w4)) as [(m & r & E')|(x & r & E')]; rewrite E'; [|eauto].
  repeat case_match; unfold fail, ret; eauto.
Qed.
Lemma tds_flow_refused e w :
  env_tls env (m_UpstreamHost reg) (VerifyCert (classifySSLMode (m_SSLMode reg))) = inr e →
  ∃ e' t w', runProxyFlow env reg w = (Err e', w') ∧ dx_trace w' = dx_trace w ++ t ∧ only_asked t.
Proof.
  intros Ht. unfold runProxyFlow.
  assert (Hstop : ∀ (x : error) r, ∃ e' t w', (@Err (option error * relay_state prepared_state * list turn) x,
      Duplex r (dx_upstream w) (dx_faults w) (dx_trace w)) = (Err e', w')
      ∧ dx_trace w' = dx_trace w ++ t ∧ only_asked t).
  { intros x r. eexists _, [], _. rewrite app_nil_r. split_and!; [done|done|by apply nothing_asked]. }
  unfold bind at 1, wrap_err at 1, client_message, client_read, zoom.
  destruct (readTDSMessage_outcome (dx_client w)) as [(m & r & E)|(x & r & E)]; rewrite E; [|apply Hstop].
  destruct (negb _); [apply Hstop|]. destruct (bool_decide _); [apply Hstop|].
  destruct (env_dial env); [apply Hstop|]. clear Hstop.
  unfold bind at 1, enqueue, emit, modify. set (w2 := Duplex _ _ _ _).
  destruct (negotiate_asks w2) as (t & Hn & Ha).
  set (t' := Enqueue (MarkUpstreamConnected (launchContext reg)) :: t).
  assert (Ha' : only_asked t') by (unfold t'; rewrite <- (app_nil_r t); by apply (only_asked_quiet [_])).
  unfold bind at 1. destruct (negotiate_ends w2) as [([enc resp] & w3 & En)|(x & w3 & En)]; rewrite En in Hn |- *;
    cbn [snd] in Hn; rewrite ?Hn.
  - unfold bind at 1. rewrite (secure_refused e enc Ht). eexists _, t', w3.
    split_and!; [done|rewrite Hn; cbn; by rewrite <- app_assoc|done].
  - eexists _, t', w3. split_and!; [done|rewrite Hn; cbn; by rewrite <- app_assoc|done].
Qed.
End Tls.

(** * The query log *)

Section Log.
Context `{Unicode} (env : environment) (reg : SessionRegistration).

(** The entries of a list of messages, from a template state. *)
Fixpoint tds_entries (st : prepared_state) (msgs : list tdsMessage) : list (bytes * bytes * bool) :=
  match msgs with
  | [] => []
  | m :: rest =>
      let '(st', entry) := capture st (t_PacketType m) (t_Payload m) in
      match entry with
      | Some (q, ptype, prepared) => (truncate q (env_QueryMaxBytes env), ptype, prepared) :: tds_entries st' rest
      | None => tds_entries st' rest
      end
  end.

Lemma tds_messages st msgs :
  Forall tds_readable msgs → ∃ st', messages (tds_protocol env reg) st msgs (tds_entries st msgs) st'.
Proof.
  intros Hm. revert st. induction Hm as [|m msgs Hr Hm IH]; intros st; [eexists; constructor|].
  destruct (IH (capture st (t_PacketType m) (t_Payload m)).1) as (st2 & H2). exists st2.
  assert (E : tds_entries st (m :: msgs)
    = logged (note (tds_protocol env reg) 0 st m) ++ tds_entries (capture st (t_PacketType m) (t_Payload m)).1 msgs).
  { cbn [tds_entries]. change (note (tds_protocol env reg) 0 st m)
      with (tds_log_entry env reg 0 (capture st (t_PacketType m) (t_Payload m)).2).
    by destruct (capture st (t_PacketType m) (t_Payload m)) as [st' [[[q ptype] prepared]|]]. }
  rewrite E. by eapply msgs_cons.
Qed.
Lemma tds_forward_clean st msgs u tr :
  Forall tds_readable msgs →
  ∃ t, forwardClientMessages env reg st (Duplex (Reader (concat (map message_bytes msgs)) io_EOF) u [] tr)
        = (Ok tt, Duplex (Reader [] io_EOF) u [] (tr ++ t))
    ∧ sent_up t = concat (map message_bytes msgs) ∧ logged t = tds_entries st msgs.
Proof.
  intros Hm. destruct (tds_messages st msgs Hm) as (st' & Hms).
  destruct (forward_all_clean (tds_protocol env reg) (forward_message env reg) st msgs (tds_entries st msgs) st' u tr)
    as (t & f & E & Hs & Hl); [|done|].
  - intros m Hr%packets_nonempty. cbn. by destruct (message_bytes m); [cbn in Hr; lia|].
  - exists t. by split.
Qed.
(** A single message, as its writer frames it. *)
Lemma tds_forward_one st ty payload u tr :
  ∃ t, forwardClientMessages env reg st (Duplex (Reader (payload_bytes ty payload) io_EOF) u [] tr)
        = (Ok tt, Duplex (Reader [] io_EOF) u [] (tr ++ t))
    ∧ sent_up t = payload_bytes ty payload
    ∧ logged t = logged (tds_log_entry env reg 0 (capture st ty payload).2).
Proof.
  destruct (payload_readable ty payload) as (m & Hr & Hb & <- & <-).
  destruct (tds_forward_clean st [m] u tr) as (t & E & Hs & Hl); [by constructor|].
  cbn [map concat] in E, Hs. rewrite app_nil_r, Hb in E, Hs. exists t. split_and!; [done|done|].
  rewrite Hl. cbn [tds_entries]. by destruct (capture st (t_PacketType m) (t_Payload m)) as [st' [[[q ptype] prepared]|]].
Qed.

(** Unicode's lower-casing maps rune by rune and leaves U+0000 alone. *)
Class UnicodeLaws : Prop := { uni_lower_nul s : ∃ t, uni_lower (NUL :: s) = NUL :: t }.

Lemma ToLower_nul `{!UnicodeLaws} s : ∃ t, ToLower (NUL :: s) = NUL :: t.
Proof. unfold ToLower. destruct (forallb is_ascii (NUL :: s)); [by eexists|apply uni_lower_nul]. Qed.

(** What is logged of a parameterised request with ALL_HEADERS. *)
Lemma capture_executesql `{!UnicodeLaws} st desc ty sql :
  length desc = 8%nat → length ty = 7%nat → forallb is_text_byte sql = true → (4 < length sql)%nat →
  TrimSpace sql ≠ [] →
  capture st tdsPacketRPC (executesql_request desc ty sql)
  = (st, if bool_decide (scanned_text sql = []) then None
         else Some (scanned_text sql, §"rpc", Contains (ToLower (scanned_text sql)) §"@p")).
Proof.
  intros Hd Ht Hs Hl Hne. destruct (executesql_scanned desc ty sql Hd Ht Hs Hl Hne) as (name & E).
  unfold capture. change (bool_decide (tdsPacketRPC = tdsPacketSQLBatch)) with false.
  change (bool_decide (tdsPacketRPC = tdsPacketRPC)) with true. cbv iota. unfold capture_rpc. rewrite E.
  destruct (TrimSpace_nul name) as [name1 ->]. destruct (ToLower_nul name1) as [name2 ->]. cbv zeta.
  rewrite !bool_decide_false by (rewrite !elem_of_cons, elem_of_nil; intros [?|[?|[?|[]]]]; done).
  assert (Hts : TrimSpace (scanned_text sql) = scanned_text sql).
  { unfold scanned_text. cbv zeta. case_match; [apply TrimSpace_idem|done]. }
  rewrite Hts. case_bool_decide; done.
Qed.
End Log.

(** * Properties *)

#[local] Existing Instance ascii_tables.

Section Samples.
Definition sample_reg (ssl : bytes) : SessionRegistration := {|
  m_SessionID := §"s1"; m_UserID := §"u1"; m_AssetID := §"a1"; m_AssetName := §"orders";
  m_Engine := §"mssql"; m_Database := §"shop"; m_SSLMode := ssl;
  m_UpstreamHost := §"10.0.0.8"; m_UpstreamPort := 1433; m_Username := §"svc";
  m_RequestID := §"rq" |}.
Definition sample_env (tls : reader + error) : environment := {|
  env_remote_addr := §"127.0.0.1:50000";
  env_QueryMaxBytes := 4096;
  env_dial := None;
  env_credential := λ _, inl (Credential §"svc" §"pencil");
  env_tls := λ _ _, tls;
  env_clock := λ n, Z.of_nat n;
  env_schedule := [] |}.
Lemma tds_sample_laws : @UnicodeLaws ascii_tables.
Proof. split. intros s. by exists s. Qed.
End Samples.

(** Refinement: whatever the two sides send, however writes fail and
    however the two goroutines of the relay are scheduled, the relay ends with
    a result and its trace splits in two: the frontend goroutine's part is a
    session of whole TDS messages in the client's order, each one's log entry
    (computed from the messages before it) ahead of its packets, forwarded as
    they came but for a last message that a failed write cuts; the backend's is
    the upstream's bytes in order. *)
Theorem mssql_relay_refines_session `{Unicode} env reg sched w :
  ∃ r st rest w', relay (forward_message env reg) sched (Relay (Running no_template) (Running tt)) w
                  = (Ok (r, st, rest), w')
    ∧ relayed (tds_protocol env reg) (Relay (Running no_template) (Running tt)) w st w'.
Proof. apply relay_spec; apply _. Qed.

(** A payload of any length and type written as packets of at most 4096
    bytes is read back as one message with that type and payload, whatever
    follows it on the stream. *)
Theorem tds_messages_round_trip (c u : reader) tr packetType payload t e :
  ∃ ts m, writeTDSPayload ToUpstream packetType payload (Duplex c u [] tr) = (Ok tt, Duplex c u [] (tr ++ ts))
    ∧ readTDSMessage (Reader (sent_up ts ++ t) e) = (Ok m, Reader t e)
    ∧ t_PacketType m = packetType ∧ t_Payload m = payload.
Proof.
  destruct (writeTDSPayload_sends ToUpstream packetType payload (Duplex c u [] tr))
    as (o & ts & b & [wc wu wf wt] & E & Ht & Hp & _ & Ho & Hc & Hu & Hf). cbn in Ht, Hc, Hu, Hf.
  destruct (Hf eq_refl) as [-> Hf']. destruct Ho as [[_ ->]|[? ?]]; [|done]. subst.
  apply pieces_up in Hp as [Hs _]. destruct (payload_readable packetType payload) as (m & Hr & Hb & Hty & Hpl).
  exists ts, m. rewrite Hs, <- Hb. split_and!; [exact E|by apply readTDSMessage_complete|done|done].
Qed.

(** The managed login: when the proxy rewrites a LOGIN7 record whose
    UserName, Password and Database fields lie behind the fixed part, apart from
    one another, the server that decodes the result finds the managed user
    name, the managed password and the session's database; integrated security
    is off, the record states its length, and every byte outside those fields
    is the client's. *)
Theorem rewritten_login_carries_the_managed_credential payload username password database out :
  plain_text username → plain_text password → (has_text database = true → plain_text database) →
  login_layout (managed_fields database) payload →
  rewriteLogin7WithManagedCreds payload username password database = inl out →
  utf16_text (login7_text out 40) = username
  ∧ utf16_text (map deobfuscate_byte (login7_text out 44)) = password
  ∧ (has_text database = true → utf16_text (login7_text out 68) = database)
  ∧ Z.testbit (at_byte out 25) 7 = false
  ∧ length out = length payload ∧ le_value (take 4 out) = wrap 32 (zlen out)
  ∧ ∀ k, (4 <= k)%nat → k ≠ 25%nat → (∀ p, p ∈ managed_fields database → ¬ field_touched payload p k) →
      out !! k = payload !! k.
Proof.
  intros Hu Hp Hd Hl Hr. destruct (rewrite_login7_views _ _ _ _ _ Hu Hp Hd Hl Hr) as (E1 & E2 & E3 & L).
  pose proof Hr as (Hlen & _)%rewrite_login7_iff. unfold login7FixedLen in Hlen.
  assert (Ht : ∀ v, plain_text v → utf16_text (encodeUTF16LE v) = v).
  { intros v (Hv & _ & Hne). by apply utf16_text_encode. }
  assert (H25 : out !! 25%nat = sql_auth payload !! 25%nat).
  { eapply rewrite_bytes; [done|done|lia|]. intros p Hpm. pose proof (proj1 Hl p Hpm) as Hb. apply managed_spec in Hpm.
    unfold field_touched, behind_header, login7FixedLen in *. lia. }
  split_and!.
  - rewrite E1. auto.
  - rewrite E2, deobfuscate_password. auto.
  - intros Hdb. rewrite E3 by done. auto.
  - rewrite (at_byte_lookup _ _ _ H25). unfold sql_auth. rewrite at_byte_splice, b2z_z2b by lia.
    change 256 with (2 ^ 8). rewrite Z.mod_pow2_bits_low, Z.ldiff_spec by lia. by rewrite andb_false_r.
  - done.
  - clear -Hr L Hlen. apply rewrite_login7_iff in Hr as (_ & l1 & l2 & l3 & _ & _ & _ & ->).
    set (l4 := le_bytes 4 (wrap 32 (zlen l3))) in *. assert (L4 : length l4 = 4%nat) by apply length_le_bytes.
    assert (L3 : (4 <= length l3)%nat).
    { unfold splice in L. rewrite !length_app, length_take, length_drop, L4 in L. lia. }
    assert (Lz : zlen (splice l3 0 l4) = zlen l3) by (unfold zlen; rewrite length_splice; lia).
    rewrite Lz. replace (take 4 (splice l3 0 l4)) with l4.
    + apply le_value_bytes. pose proof (wrap_range 32 (zlen l3)). cbn. lia.
    + unfold splice. rewrite take_0. cbn [app]. by rewrite take_app_length' by done.
  - intros k Hk Hk25 Hkt. rewrite (rewrite_bytes _ _ _ _ _ k Hl Hr Hk Hkt). unfold sql_auth.
    apply splice_outside; cbn [length]; lia.
Qed.

Lemma plain_svc : plain_text §"svc".
Proof. split_and!; [by vm_compute|by vm_compute|by apply (bool_decide_unpack _); vm_compute]. Qed.
Lemma plain_pencil : plain_text §"pencil".
Proof. split_and!; [by vm_compute|by vm_compute|by apply (bool_decide_unpack _); vm_compute]. Qed.
Lemma plain_shop : plain_text §"shop".
Proof. split_and!; [by vm_compute|by vm_compute|by apply (bool_decide_unpack _); vm_compute]. Qed.
Definition rewritten (r : bytes + error) : bytes := match r with inl l => l | inr _ => [] end.

Lemma rewritten_login_carries_the_managed_credential_witness :
  let out := rewritten (rewriteLogin7WithManagedCreds probe_login §"svc" §"pencil" §"shop") in
  utf16_text (login7_text out 40) = §"svc"
  ∧ utf16_text (map deobfuscate_byte (login7_text out 44)) = §"pencil"
  ∧ (has_text §"shop" = true → utf16_text (login7_text out 68) = §"shop")
  ∧ Z.testbit (at_byte out 25) 7 = false
  ∧ length out = length probe_login ∧ le_value (take 4 out) = wrap 32 (zlen out)
  ∧ ∀ k, (4 <= k)%nat → k ≠ 25%nat → (∀ p, p ∈ managed_fields §"shop" → ¬ field_touched probe_login p k) →
      out !! k = probe_login !! k.
Proof.
  intros out. apply (rewritten_login_carries_the_managed_credential probe_login §"svc" §"pencil" §"shop");
    [apply plain_svc|apply plain_pencil|intros _; apply plain_shop|apply probe_layout|by vm_compute].
Defined.

(** When the managed login can be placed: the rewriting fails exactly on a
    record that is too short, a field that points beyond it, or a field too
    small for the managed text.  So a client's placeholder password must be at
    least as long as the managed password. *)
Theorem managed_credential_needs_room payload username password database :
  login_layout (managed_fields database) payload →
  (∃ e, rewriteLogin7WithManagedCreds payload username password database = inr e) ↔
  ¬ ((login7FixedLen <= length payload)%nat ∧ field_fits payload 40 (encodeUTF16LE username)
     ∧ field_fits payload 44 (obfuscateTDSPassword password)
     ∧ (has_text database = true → field_fits payload 68 (encodeUTF16LE database))).
Proof.
  intros Hl. rewrite <- rewrite_login7_fits by done.
  destruct (rewriteLogin7WithManagedCreds payload username password database) as [out|e]; split.
  - by intros [? ?].
  - intros Hn. destruct Hn. by eexists.
  - by intros _ [? ?].
  - intros _. by eexists.
Qed.

Lemma managed_credential_needs_room_witness :
  (∃ e, rewriteLogin7WithManagedCreds probe_login (repeat "a"%byte 129) §"pencil" [] = inr e) ↔
  ¬ ((login7FixedLen <= length probe_login)%nat ∧ field_fits probe_login 40 (encodeUTF16LE (repeat "a"%byte 129))
     ∧ field_fits probe_login 44 (obfuscateTDSPassword §"pencil")
     ∧ (has_text [] = true → field_fits probe_login 68 (encodeUTF16LE []))).
Proof. apply (managed_credential_needs_room probe_login), probe_layout. Defined.

(** The managed password reaches the client: there is one LOGIN7 record,
    independent of every credential, whose HostName field points at the region
    of its Password field.  For every managed login of up to 128 characters the
    proxy fills in that record, and the server that decodes what is sent finds
    the managed password, obfuscated but padded only with zeros, as the client's
    host name, which HOST_NAME() returns to any session. *)
Theorem managed_password_becomes_the_host_name username password :
  plain_text username → plain_text password → rune_count username <= 128 → rune_count password <= 128 →
  ∃ out n, rewriteLogin7WithManagedCreds probe_login username password [] = inl out
    ∧ login7_text out 36 = obfuscateTDSPassword password ++ repeat NUL n
    ∧ utf16_text (map deobfuscate_byte (obfuscateTDSPassword password)) = password.
Proof.
  intros Hu Hp Lu Lp.
  assert (Hn : ∀ v, plain_text v → rune_count v <= 128 → (length (encodeUTF16LE v) <= 256)%nat).
  { intros v Hv Lv. rewrite (plain_text_units v Hv). pose proof (rune_count_nonneg v). lia. }
  destruct (proj2 (rewrite_login7_fits probe_login username password [] (probe_layout []))) as [out E].
  { split_and!; [apply Nat.leb_le; by vm_compute|apply probe_fits; [set_solver|auto]| |done].
    apply probe_fits; [set_solver|]. unfold obfuscateTDSPassword. rewrite length_map. auto. }
  destruct (rewrite_shared_region _ _ _ _ _ (probe_layout []) probe_shares E) as [n Hh].
  exists out, n. split_and!; [done|done|]. rewrite deobfuscate_password.
  destruct Hp as (Hv & _ & Hne). by apply utf16_text_encode.
Qed.

Lemma managed_password_becomes_the_host_name_witness :
  ∃ out n, rewriteLogin7WithManagedCreds probe_login §"svc" §"pencil" [] = inl out
    ∧ login7_text out 36 = obfuscateTDSPassword §"pencil" ++ repeat NUL n
    ∧ utf16_text (map deobfuscate_byte (obfuscateTDSPassword §"pencil")) = §"pencil".
Proof.
  apply (managed_password_becomes_the_host_name §"svc" §"pencil");
    [apply plain_svc|apply plain_pencil|by apply Z.leb_le; vm_compute|by apply Z.leb_le; vm_compute].
Defined.

(** What a session of whole messages leaves in the query log, exactly: the
    entries computed from its messages alone; and every message reaches the
    upstream as it came. *)
Theorem mssql_query_log_is_exact `{Unicode} env reg msgs u tr :
  Forall tds_readable msgs →
  ∃ t, forwardClientMessages env reg no_template (Duplex (Reader (concat (map message_bytes msgs)) io_EOF) u [] tr)
        = (Ok tt, Duplex (Reader [] io_EOF) u [] (tr ++ t))
    ∧ sent_up t = concat (map message_bytes msgs) ∧ logged t = tds_entries env no_template msgs.
Proof. apply tds_forward_clean. Qed.

Lemma mssql_query_log_is_exact_witness :
  let m := TdsMessage tdsPacketSQLBatch (map z2b [4; 0; 0; 0; 103; 0])
             [map z2b [1; 1; 0; 14; 0; 0; 1; 0; 4; 0; 0; 0; 103; 0]] in
  ∃ t, forwardClientMessages (sample_env (inr io_EOF)) (sample_reg []) no_template
         (Duplex (Reader (concat (map message_bytes [m])) io_EOF) (Reader [] io_EOF) [] [])
        = (Ok tt, Duplex (Reader [] io_EOF) (Reader [] io_EOF) [] ([] ++ t))
    ∧ sent_up t = concat (map message_bytes [m]) ∧ logged t = tds_entries (sample_env (inr io_EOF)) no_template [m].
Proof.
  intros m. apply (@mssql_query_log_is_exact ascii_tables (sample_env (inr io_EOF)) (sample_reg []) [m] (Reader [] io_EOF) []).
  apply Forall_singleton.
  refine (pk_last no_packets (map z2b [1; 1; 0; 14; 0; 0; 1; 0]) (map z2b [4; 0; 0; 0; 103; 0]) _ _);
    [split; by vm_compute|by vm_compute].
Defined.

(** A SQL batch is logged under its own text: the statement of any batch,
    after its ALL_HEADERS block, gives exactly one entry with that statement,
    cut at the configured size, and the batch reaches the upstream. *)
Theorem sql_batches_are_logged `{Unicode} env reg st headers sql u tr :
  headers_block headers → utf8_valid sql = true → TrimSpace sql ≠ [] →
  let batch := payload_bytes tdsPacketSQLBatch (headers ++ encodeUTF16LE sql) in
  ∃ t, forwardClientMessages env reg st (Duplex (Reader batch io_EOF) u [] tr)
        = (Ok tt, Duplex (Reader [] io_EOF) u [] (tr ++ t))
    ∧ sent_up t = batch
    ∧ logged t = [(truncate (TrimSpace sql) (env_QueryMaxBytes env), §"sql_batch", false)].
Proof.
  intros Hh Hv Hne batch.
  destruct (tds_forward_one env reg st tdsPacketSQLBatch (headers ++ encodeUTF16LE sql) u tr) as (t & E & Hs & Hl).
  exists t. split_and!; [done|done|]. rewrite Hl. unfold capture.
  change (bool_decide (tdsPacketSQLBatch = tdsPacketSQLBatch)) with true. cbv iota zeta.
  rewrite extract_batch by done. by rewrite bool_decide_false.
Qed.

Lemma sql_batches_are_logged_witness :
  let batch := payload_bytes tdsPacketSQLBatch (map z2b [4; 0; 0; 0] ++ encodeUTF16LE §"select 1") in
  ∃ t, forwardClientMessages (sample_env (inr io_EOF)) (sample_reg []) no_template
         (Duplex (Reader batch io_EOF) (Reader [] io_EOF) [] [])
        = (Ok tt, Duplex (Reader [] io_EOF) (Reader [] io_EOF) [] ([] ++ t))
    ∧ sent_up t = batch ∧ logged t = [(truncate (TrimSpace §"select 1") 4096, §"sql_batch", false)].
Proof.
  apply (@sql_batches_are_logged ascii_tables (sample_env (inr io_EOF)) (sample_reg []) no_template
    (map z2b [4; 0; 0; 0]) §"select 1" (Reader [] io_EOF) []);
    [split; [by apply Nat.leb_le|by vm_compute]|by vm_compute|by apply (bool_decide_unpack _); vm_compute].
Defined.

(** A parameterised request escapes the log: a client of TDS 7.2 or later
    starts its RPC requests with ALL_HEADERS, which the proxy takes for the
    procedure's name and the next characters for the name's rest.  Of the
    statement of an sp_executesql request so framed it drops the first four
    characters; unless a keyword of its list is left, the request is executed
    by the upstream and nothing is logged. *)
Theorem executesql_can_escape_the_log `{Unicode, !UnicodeLaws} env reg st desc ty sql u tr :
  length desc = 8%nat → length ty = 7%nat → forallb is_text_byte sql = true → (4 < length sql)%nat →
  containsSQLKeyword (TrimSpace (drop 4 sql)) = false → TrimSpace sql ≠ [] →
  let request := payload_bytes tdsPacketRPC (executesql_request desc ty sql) in
  ∃ t, forwardClientMessages env reg st (Duplex (Reader request io_EOF) u [] tr)
        = (Ok tt, Duplex (Reader [] io_EOF) u [] (tr ++ t))
    ∧ sent_up t = request ∧ logged t = [].
Proof.
  intros Hd Ht Hs Hl Hk Hne request.
  destruct (tds_forward_one env reg st tdsPacketRPC (executesql_request desc ty sql) u tr) as (t & E & Hse & Hlo).
  exists t. split_and!; [done|done|]. rewrite Hlo, capture_executesql by done. unfold scanned_text. cbv zeta.
  by rewrite Hk, andb_false_r.
Qed.

Lemma executesql_can_escape_the_log_witness :
  let request := payload_bytes tdsPacketRPC
    (executesql_request (repeat NUL 8) (map z2b [64; 31; 9; 4; 208; 0; 52]) §"SELECT * FROM salaries") in
  ∃ t, forwardClientMessages (sample_env (inr io_EOF)) (sample_reg []) no_template
         (Duplex (Reader request io_EOF) (Reader [] io_EOF) [] [])
        = (Ok tt, Duplex (Reader [] io_EOF) (Reader [] io_EOF) [] ([] ++ t))
    ∧ sent_up t = request ∧ logged t = [].
Proof.
  apply (@executesql_can_escape_the_log ascii_tables tds_sample_laws (sample_env (inr io_EOF)) (sample_reg []) no_template
    (repeat NUL 8) (map z2b [64; 31; 9; 4; 208; 0; 52]) §"SELECT * FROM salaries" (Reader [] io_EOF) []);
    [done|done|by vm_compute|by apply Nat.ltb_lt|by vm_compute|by apply (bool_decide_unpack _); vm_compute].
Defined.

(** A required TLS protects the login: when a session requires TLS and the
    handshake fails, the connection fails, nothing but the PRELOGIN request is
    written to the upstream, and the credential is not used. *)
Theorem mssql_required_tls_protects_the_login `{Unicode} env reg w e :
  RequireTLS (classifySSLMode (m_SSLMode reg)) = true →
  env_tls env (m_UpstreamHost reg) (VerifyCert (classifySSLMode (m_SSLMode reg))) = inr e →
  ∃ e' t w', runProxyFlow env reg w = (Err e', w') ∧ dx_trace w' = dx_trace w ++ t
    ∧ sent_up t `prefix_of` tls_request
    ∧ ∀ l kind stage rid, Enqueue (RecordCredentialUsage l kind stage rid) ∉ t.
Proof.
  intros Hr Ht. destruct (tds_flow_refused env reg Hr e w Ht) as (e' & t & w' & E & Htr & Ha).
  exists e', t, w'. split_and!; [done|done|by apply only_asked_sent|]. intros. by apply only_asked_credential.
Qed.

Lemma mssql_required_tls_protects_the_login_witness :
  let w := Duplex (Reader (payload_bytes tdsPacketPreLogin (buildPreloginMessage NUL)) io_EOF)
                  (Reader (payload_bytes tdsPacketResponse (buildPreloginMessage tdsEncryptOn)) io_EOF) [] [] in
  ∃ e' t w', @runProxyFlow ascii_tables (sample_env (inr io_EOF)) (sample_reg §"require") w = (Err e', w')
    ∧ dx_trace w' = dx_trace w ++ t
    ∧ sent_up t `prefix_of` tls_request
    ∧ ∀ l kind stage rid, Enqueue (RecordCredentialUsage l kind stage rid) ∉ t.
Proof.
  intros w. apply (@mssql_required_tls_protects_the_login ascii_tables (sample_env (inr io_EOF)) (sample_reg §"require") w io_EOF);
    by vm_compute.
Defined.

(** Every connection is marked on the session record: first
    [MarkProxyConnected], then exactly one terminal mark that matches the
    handler's result.  The handler always ends, under every schedule. *)
Theorem mssql_connection_is_marked_once `{Unicode} env reg w :
  ∃ t t' o w', handleSessionConn env reg w = (o, w')
    ∧ dx_trace w' = dx_trace w
        ++ Enqueue (MarkProxyConnected (launchContext reg) (env_remote_addr env)) :: t ++ closing (launchContext reg) o ++ t'
    ∧ forallb not_terminal (t ++ t') = true ∧ o ≠ OutOfFuel.
Proof. apply (session_conn_spec (tds_protocol env reg)); [apply _|apply tds_calm_flow|apply tds_ends_flow]. Qed.
