(* ===== verification/Store.v ===== *)
(** The database the sessions service runs on: the tables it reads and writes
    (apps/api/migrations/000001_core_v1.up.sql), the statements of
    apps/api/internal/sessions/service.go as functions on them, and the ways a
    statement can fail.

    PostgreSQL itself is not modelled: how it reads a uuid, the uuids it draws
    and its clock are the class [Postgres].  Each statement is one atomic step;
    the fault schedule says which of them the driver reports as failed, before
    or after the statement took effect. *)
From S2P Require Import Prelude GoStrings GoEncoding.

Class Postgres := {
  (** The canonical text of a uuid literal; [None] is a syntax error. *)
  pg_uuid : bytes → option bytes;
  (** The uuid and the time of the n-th statement. *)
  pg_random_uuid : nat → bytes;
  pg_now : nat → Z;
}.

(** The documented behaviour some theorems rely on: the canonical text of a uuid
    is a literal of itself, of hexadecimal digits and dashes (so it is UTF-8 and
    has no white space), and that is what drawn uuids are. *)
Class PostgresLaws `{Postgres} := {
  pg_uuid_canonical : ∀ t u, pg_uuid t = Some u → pg_uuid u = Some u;
  pg_uuid_text : ∀ t u, pg_uuid t = Some u → u ≠ [] ∧ TrimSpace u = u ∧ utf8_valid u = true;
  pg_random_canonical : ∀ n, pg_uuid (pg_random_uuid n) = Some (pg_random_uuid n);
}.

Abbreviation payload := (gmap bytes json).

Record asset_row := Asset { a_name : bytes; a_type : bytes; a_host : bytes; a_port : Z }.
Record session_row := SessionRow {
  s_user : bytes;
  s_asset : bytes;
  s_protocol : bytes;
  s_status : bytes;
  s_reason : option bytes;
  s_client_ip : option bytes;
  s_started : option Z;
  s_ended : option Z;
  s_created : Z;
}.
Record event_row := EventRow {
  ev_id : nat;
  ev_session : bytes;
  ev_type : bytes;
  ev_time : Z;
  ev_actor : option bytes;
  ev_payload : payload;
}.
Record audit_row := AuditRow {
  au_id : nat;
  au_time : Z;
  au_actor : bytes;
  au_asset : bytes;
  au_session : bytes;
  au_type : bytes;
  au_action : bytes;
  au_outcome : bytes;
  au_metadata : payload;
}.

(** What the driver reports for a statement that failed on the way. *)
Inductive fault := LostBefore (e : error) | LostAfter (e : error).

Record db := Db {
  d_users : gset bytes;
  d_assets : gmap bytes asset_row;
  d_sessions : gmap bytes session_row;
  d_events : list event_row;
  d_audit : list audit_row;
  d_steps : nat;
  d_faults : list (option fault);
}.

Definition pg_bad_uuid : error := ErrVar §"pgx: invalid uuid".
Definition pg_constraint : error := ErrVar §"pgx: constraint violation".

Section Statements.
Context `{Postgres}.

(** One statement: [q] gets the time, a number of its own and the tables. *)
Definition statement {A} (q : Z → nat → db → (A * db) + error) : M db A := λ s,
  let s1 := Db (d_users s) (d_assets s) (d_sessions s) (d_events s) (d_audit s)
               (S (d_steps s)) (tail (d_faults s)) in
  match mjoin (head (d_faults s)) with
  | Some (LostBefore e) => (Err e, s1)
  | f => match q (pg_now (d_steps s)) (d_steps s) s1 with
         | inr e => (Err e, s1)
         | inl (a, s2) => match f with
                          | Some (LostAfter e) => (Err e, s2)
                          | _ => (Ok a, s2)
                          end
         end
  end.

Definition with_sessions (s : db) (t : gmap bytes session_row) : db :=
  Db (d_users s) (d_assets s) t (d_events s) (d_audit s) (d_steps s) (d_faults s).
Definition with_event (s : db) (e : event_row) : db :=
  Db (d_users s) (d_assets s) (d_sessions s) (d_events s ++ [e]) (d_audit s) (d_steps s) (d_faults s).
Definition with_audit (s : db) (a : audit_row) : db :=
  Db (d_users s) (d_assets s) (d_sessions s) (d_events s) (d_audit s ++ [a]) (d_steps s) (d_faults s).

(** [INSERT INTO sessions ... RETURNING id]. *)
Definition insert_session (user asset protocol status reason client_ip : bytes) : M db bytes :=
  statement (λ now n s,
    match pg_uuid user, pg_uuid asset with
    | Some u, Some a =>
        let id := pg_random_uuid n in
        if bool_decide (u ∈ d_users s) && bool_decide (is_Some (d_assets s !! a))
           && bool_decide (d_sessions s !! id = None)
        then inl (id, with_sessions s (<[id := SessionRow u a protocol status (Some reason)
               (if bool_decide (client_ip = []) then None else Some client_ip) None None now]> (d_sessions s)))
        else inr pg_constraint
    | _, _ => inr pg_bad_uuid
    end).

(** [UPDATE sessions SET ... WHERE id = $1 AND guard]: the rows affected. *)
Definition update_session (id : bytes) (guard : session_row → bool) (set : Z → session_row → session_row)
    : M db nat :=
  statement (λ now _ s,
    match pg_uuid id with
    | None => inr pg_bad_uuid
    | Some u =>
        match d_sessions s !! u with
        | Some r => if guard r then inl (1%nat, with_sessions s (<[u := set now r]> (d_sessions s)))
                    else inl (0%nat, s)
        | None => inl (0%nat, s)
        end
    end).

(** [INSERT INTO session_events], whose foreign keys need the session and the
    actor. *)
Definition insert_event (id type : bytes) (actor : option bytes) (p : payload) : M db unit :=
  statement (λ now n s,
    match pg_uuid id, (match actor with Some a => Some <$> pg_uuid a | None => Some None end) with
    | Some u, Some act =>
        if bool_decide (is_Some (d_sessions s !! u))
           && match act with Some a => bool_decide (a ∈ d_users s) | None => true end
        then inl (tt, with_event s (EventRow n u type now act p))
        else inr pg_constraint
    | _, _ => inr pg_bad_uuid
    end).

(** [INSERT INTO audit_events]. *)
Definition insert_audit (user asset id type action outcome : bytes) (p : payload) : M db unit :=
  statement (λ now n s,
    match pg_uuid user, pg_uuid asset, pg_uuid id with
    | Some u, Some a, Some i =>
        if bool_decide (u ∈ d_users s) && bool_decide (is_Some (d_assets s !! a))
           && bool_decide (is_Some (d_sessions s !! i))
        then inl (tt, with_audit s (AuditRow n now u a i type action outcome p))
        else inr pg_constraint
    | _, _, _ => inr pg_bad_uuid
    end).

(** [SELECT ... FROM sessions s JOIN assets a ON a.id = s.asset_id WHERE s.id =
    $1 [AND s.user_id = $2] LIMIT 1]; [None] is [pgx.ErrNoRows]. *)
Definition select_session (id : bytes) (user : option bytes) : M db (option (bytes * session_row * asset_row)) :=
  statement (λ _ _ s,
    match pg_uuid id, (match user with Some x => Some <$> pg_uuid x | None => Some None end) with
    | Some u, Some who =>
        inl (match d_sessions s !! u with
             | Some r =>
                 if match who with Some x => bool_decide (s_user r = x) | None => true end
                 then match d_assets s !! s_asset r with
                      | Some a => Some (u, r, a)
                      | None => None
                      end
                 else None
             | None => None
             end, s)
    | _, _ => inr pg_bad_uuid
    end).

(** [SELECT EXISTS (SELECT 1 FROM session_events WHERE session_id = $1 AND
    event_type = ANY($2))]. *)
Definition select_has_event (id : bytes) (types : list bytes) : M db bool :=
  statement (λ _ _ s,
    match pg_uuid id with
    | None => inr pg_bad_uuid
    | Some u => inl (existsb (λ e, bool_decide (ev_session e = u) && bool_decide (ev_type e ∈ types))
                       (d_events s), s)
    end).

(** The time of a session's last event of a type ([MAX(event_time)]). *)
Definition last_event (s : db) (u type : bytes) : option Z :=
  fold_left (λ acc e,
    if bool_decide (ev_session e = u) && bool_decide (ev_type e = type)
    then Some (match acc with Some t => Z.max t (ev_time e) | None => ev_time e end) else acc)
    (d_events s) None.

(** Rows in the order of a key; ties are in an order PostgreSQL does not
    promise, here that of the table. *)
Fixpoint insert_by {A} (key : A → Z) (x : A) (l : list A) : list A :=
  match l with
  | [] => [x]
  | y :: t => if key x <? key y then x :: l else y :: insert_by key x t
  end.
Definition order_by {A} (key : A → Z) (l : list A) : list A :=
  fold_left (λ acc x, insert_by key x acc) l [].

(** The sweep's query: sessions of a status whose last event of a type is not
    after the cutoff, oldest first. *)
Definition select_stale (type status : bytes) (cutoff : Z) (limit : nat)
    : M db (list (bytes * session_row * asset_row)) :=
  statement (λ _ _ s,
    let rows := omap (λ p : bytes * session_row,
      let '(u, r) := p in
      match d_assets s !! s_asset r, last_event s u type with
      | Some a, Some t => if bool_decide (s_status r = status) && (t <=? cutoff)
                          then Some (t, (u, r, a)) else None
      | _, _ => None
      end) (map_to_list (d_sessions s)) in
    inl (take limit (map snd (order_by fst rows)), s)).
End Statements.
