(* ===== verification/Sessions.v ===== *)
(** The sessions service (apps/api/internal/sessions/service.go and
    audit_enrichment.go): launches, launch tokens, the marks the proxies make on
    a session, and the sweep of launches that never materialised. *)
From S2P Require Import Prelude GoStrings GoEncoding GoNet Tokens ProxyEvents Store.

Definition StatusPending : bytes := §"pending".
Definition StatusActive : bytes := §"active".
Definition StatusCompleted : bytes := §"completed".
Definition StatusFailed : bytes := §"failed".

Definition EventLaunchCreated : bytes := §"launch_created".
Definition EventConnectorReq : bytes := §"connector_launch_requested".
Definition EventConnectorSuccess : bytes := §"connector_launch_succeeded".
Definition EventConnectorFailed : bytes := §"connector_launch_failed".
Definition EventDBQuery : bytes := §"db_query".
Definition EventRedisCommand : bytes := §"redis_command".
Definition EventFileOperation : bytes := §"file_operation".
Definition EventProxyConnected : bytes := §"proxy_connected".
Definition EventUpstreamConn : bytes := §"upstream_connected".
Definition EventShellStarted : bytes := §"shell_started".
Definition EventSessionEnded : bytes := §"session_ended".
Definition EventSessionFailed : bytes := §"session_failed".
Definition auditEventSessionOpen : bytes := §"session_start".
Definition auditEventSessionDone : bytes := §"session_end".

(** * Labels (audit_enrichment.go) *)

Definition ProtocolAwareAction (action protocol launchType : bytes) : bytes :=
  let trimmed := TrimSpace action in
  let proto := TrimSpace protocol in
  let ltype := TrimSpace launchType in
  if bool_decide (trimmed = §"shell") then §"shell_session"
  else if bool_decide (trimmed = §"sftp") then §"sftp_session"
  else if bool_decide (trimmed = §"dbeaver") then §"database_session"
  else if bool_decide (trimmed = §"redis") then §"redis_session"
  else if negb (bool_decide (proto = [])) then proto ++ §"_session"
  else if negb (bool_decide (ltype = [])) then ltype ++ §"_session"
  else trimmed ++ §"_session".

Definition ProtocolAwareActionEnd (action : bytes) : bytes :=
  let trimmed := TrimSpace action in
  if bool_decide (trimmed = []) then §"session_end"
  else if bool_decide (trimmed = §"shell") then §"shell_session_end"
  else if bool_decide (trimmed = §"sftp") then §"sftp_session_end"
  else if bool_decide (trimmed = §"dbeaver") then §"database_session_end"
  else if bool_decide (trimmed = §"redis") then §"redis_session_end"
  else trimmed ++ §"_end".

Definition CredentialUsageAction (credentialType usageStage protocol action : bytes) : bytes :=
  let stage := TrimSpace usageStage in
  let proto := TrimSpace protocol in
  let act := TrimSpace action in
  let base :=
    if bool_decide (act = §"shell") then §"shell"
    else if bool_decide (act = §"sftp") then §"sftp"
    else if bool_decide (act = §"dbeaver") then §"database"
    else if bool_decide (act = §"redis") then §"redis"
    else if negb (bool_decide (proto = [])) then proto else §"upstream" in
  base ++ §"_" ++ stage.

Definition UpstreamAuthAction (protocol action : bytes) : bytes :=
  let proto := TrimSpace protocol in
  if bool_decide (proto = ProtocolSSH) then §"ssh_upstream_auth"
  else if bool_decide (proto = ProtocolSFTP) then §"sftp_upstream_auth"
  else if bool_decide (proto = ProtocolDB) then §"database_upstream_auth"
  else if bool_decide (proto = ProtocolRedis) then §"redis_upstream_auth"
  else §"upstream_auth".

(** [AuditMetadata]; the empty text is an absent field. *)
Record AuditMetadata := {
  am_InternalAction : bytes;
  am_ProtocolAction : bytes;
  am_SessionType : bytes;
  am_LaunchType : bytes;
  am_Protocol : bytes;
  am_UpstreamType : bytes;
  am_CredentialType : bytes;
  am_UsageStage : bytes;
  am_RequestID : bytes;
  am_RecordedAt : bytes;
}.

(** The string under a key, when it is one. *)
Definition string_at (m : payload) (k : bytes) : bytes :=
  match m !! k with Some (JStr s) => s | _ => [] end.

Definition EnrichAuditMetadata (protocol action launchType : bytes) (extra : payload) : AuditMetadata :=
  let proto := TrimSpace protocol in
  let act := TrimSpace action in
  let ltype := TrimSpace launchType in
  {| am_InternalAction := act;
     am_ProtocolAction := ProtocolAwareAction act proto ltype;
     am_SessionType :=
       if bool_decide (act = §"shell") then §"shell"
       else if bool_decide (act = §"sftp") then §"sftp"
       else if bool_decide (act = §"dbeaver") then §"database"
       else if bool_decide (act = §"redis") then §"redis"
       else if negb (bool_decide (proto = [])) then proto else §"unknown";
     am_LaunchType := ltype;
     am_Protocol := proto;
     am_UpstreamType :=
       if bool_decide (proto = ProtocolSSH) then §"ssh_proxy"
       else if bool_decide (proto = ProtocolSFTP) then §"sftp_proxy"
       else if bool_decide (proto = ProtocolDB) then §"db_proxy"
       else if bool_decide (proto = ProtocolRedis) then §"redis_proxy"
       else §"unknown";
     am_CredentialType := string_at extra §"credential_type";
     am_UsageStage := string_at extra §"usage_stage";
     am_RequestID := string_at extra §"request_id";
     am_RecordedAt := [] |}.

(** * Small helpers of service.go *)

Definition sessionEndAuditAction (action : bytes) : bytes :=
  let trimmed := TrimSpace action in
  if bool_decide (trimmed = []) then §"session_end" else trimmed ++ §"_end".

Definition launchTypeForAction (action : bytes) : bytes :=
  if bool_decide (action = §"shell") then §"shell"
  else if bool_decide (action = §"dbeaver") then §"dbeaver"
  else if bool_decide (action = §"sftp") then §"sftp"
  else action.

Definition actionFromReason (reason fallback : bytes) : bytes :=
  let action := TrimSpace (TrimPrefix reason §"action:") in
  if HasPrefix reason §"action:" && negb (bool_decide (action = [])) then action
  else TrimSpace fallback.

Definition normalizeIP (raw : bytes) : bytes :=
  let trimmed := TrimSpace raw in
  if bool_decide (trimmed = []) then []
  else match ParseIP (default trimmed (split_host trimmed)) with
       | Some a => ip_String a
       | None => []
       end.

Definition auditIdentityMetadata (l : LaunchContext) : payload :=
  let entry k v := let v := TrimSpace v in
                   if bool_decide (v = []) then (∅ : payload) else {[k := JStr v]} in
  entry §"target_asset_name" (l_AssetName l) ∪ entry §"target_host" (l_Host l)
  ∪ entry §"upstream_username" (l_UpstreamUsername l) ∪ entry §"protocol" (l_Protocol l).

(** [materializationEventsByAction], with the default of [launchMaterialized]. *)
Definition materialization_events (action : bytes) : list bytes :=
  let a := TrimSpace action in
  if bool_decide (a = §"shell") then [EventProxyConnected]
  else if bool_decide (a = §"dbeaver") then [EventConnectorSuccess; EventProxyConnected; EventDBQuery]
  else if bool_decide (a = §"sftp") then [EventProxyConnected; EventFileOperation]
  else if bool_decide (a = §"redis") then [EventProxyConnected; EventRedisCommand]
  else [EventProxyConnected].

Definition expectedMaterialization (action : bytes) : bytes :=
  let a := TrimSpace action in
  if bool_decide (a = §"shell") then EventProxyConnected
  else if bool_decide (a = §"dbeaver")
       then EventConnectorSuccess ++ §" or " ++ EventProxyConnected ++ §" or " ++ EventDBQuery
  else if bool_decide (a = §"sftp") then EventProxyConnected ++ §" or " ++ EventFileOperation
  else if bool_decide (a = §"redis") then EventProxyConnected ++ §" or " ++ EventRedisCommand
  else EventProxyConnected.

(** * The service *)

(** [Config], with defaults filled in by [NewService]; durations in
    nanoseconds. *)
Record Config := {
  cfg_LaunchTokenSecret : bytes;
  cfg_LaunchTokenTTL : Z;
  cfg_ConnectorSecret : option bytes;
  cfg_MaterializeTimeout : Z;
  cfg_ProxyHost : bytes;
  cfg_ProxyPort : Z;
  cfg_ProxyUsername : bytes;
}.

Record CreateLaunchInput := {
  in_UserID : bytes;
  in_AssetID : bytes;
  in_Action : bytes;
  in_Protocol : bytes;
  in_RequestID : bytes;
  in_ClientIP : bytes;
  in_UserAgent : bytes;
  in_RequestedAt : Z;   (* the caller's clock, or [time.Now] when it gave none *)
}.

(** The payload of a launch: which proxy to go to, and the token to show it.
    The database payload is attached by the handlers. *)
Record ShellLaunchPayload := ShellPayload {
  sh_ProxyHost : bytes;
  sh_ProxyPort : Z;
  sh_ProxyUsername : bytes;
  sh_UpstreamUsername : bytes;
  sh_TargetAssetName : bytes;
  sh_TargetHost : bytes;
  sh_Token : bytes;
}.
Record SFTPLaunchPayload := SFTPPayload {
  sf_Host : bytes;
  sf_Port : Z;
  sf_ProxyUsername : bytes;
  sf_UpstreamUsername : bytes;
  sf_TargetAssetName : bytes;
  sf_TargetHost : bytes;
  sf_Password : bytes;
  sf_Path : bytes;
}.
Record DBeaverLaunchPayload := DBeaverPayload {
  dv_Engine : bytes;
  dv_Host : bytes;
  dv_Port : Z;
  dv_Database : bytes;
  dv_Username : bytes;
  dv_UpstreamUsername : bytes;
  dv_TargetAssetName : bytes;
  dv_TargetHost : bytes;
  dv_Password : bytes;
  dv_SSLMode : bytes;
}.
Record RedisLaunchPayload := RedisPayload {
  rd_Host : bytes;
  rd_Port : Z;
  rd_Username : bytes;
  rd_Password : bytes;
  rd_Database : Z;
  rd_UseTLS : bool;
  rd_InsecureSkipVerifyTLS : bool;
}.
Record LaunchResult := {
  lr_SessionID : bytes;
  lr_Action : bytes;
  lr_AssetType : bytes;
  lr_LaunchType : bytes;
  lr_ExpiresAt : Z;
  lr_ConnectorToken : bytes;
  lr_Shell : option ShellLaunchPayload;
  lr_SFTP : option SFTPLaunchPayload;
  lr_DBeaver : option DBeaverLaunchPayload;
  lr_Redis : option RedisLaunchPayload;
}.

(** [AttachDBeaverPayload] and its like, which the handlers call. *)
Definition AttachDBeaverPayload (r : LaunchResult) (p : DBeaverLaunchPayload) : LaunchResult := {|
  lr_SessionID := lr_SessionID r; lr_Action := lr_Action r; lr_AssetType := TypeDatabase;
  lr_LaunchType := §"dbeaver"; lr_ExpiresAt := lr_ExpiresAt r;
  lr_ConnectorToken := lr_ConnectorToken r; lr_Shell := lr_Shell r; lr_SFTP := lr_SFTP r;
  lr_DBeaver := Some p; lr_Redis := lr_Redis r |}.
Definition AttachShellPayload (r : LaunchResult) (p : ShellLaunchPayload) : LaunchResult := {|
  lr_SessionID := lr_SessionID r; lr_Action := lr_Action r; lr_AssetType := TypeLinuxVM;
  lr_LaunchType := §"shell"; lr_ExpiresAt := lr_ExpiresAt r;
  lr_ConnectorToken := lr_ConnectorToken r; lr_Shell := Some p; lr_SFTP := lr_SFTP r;
  lr_DBeaver := lr_DBeaver r; lr_Redis := lr_Redis r |}.
Definition AttachSFTPPayload (r : LaunchResult) (p : SFTPLaunchPayload) : LaunchResult := {|
  lr_SessionID := lr_SessionID r; lr_Action := lr_Action r; lr_AssetType := TypeLinuxVM;
  lr_LaunchType := §"sftp"; lr_ExpiresAt := lr_ExpiresAt r;
  lr_ConnectorToken := lr_ConnectorToken r; lr_Shell := lr_Shell r; lr_SFTP := Some p;
  lr_DBeaver := lr_DBeaver r; lr_Redis := lr_Redis r |}.
Definition AttachRedisPayload (r : LaunchResult) (p : RedisLaunchPayload) : LaunchResult := {|
  lr_SessionID := lr_SessionID r; lr_Action := lr_Action r; lr_AssetType := TypeRedis;
  lr_LaunchType := §"redis"; lr_ExpiresAt := lr_ExpiresAt r;
  lr_ConnectorToken := lr_ConnectorToken r; lr_Shell := lr_Shell r; lr_SFTP := lr_SFTP r;
  lr_DBeaver := lr_DBeaver r; lr_Redis := Some p |}.

Section Service.
Context `{Unicode} `{Postgres} (cfg : Config).

Definition WriteEvent (sessionID eventType : bytes) (actor : option bytes) (p : payload) : M db unit :=
  if bool_decide (TrimSpace sessionID = []) || bool_decide (TrimSpace eventType = [])
  then fail (Errorf §"session id and event type are required")
  else wrap_err §"insert session event"
         (insert_event (TrimSpace sessionID) (TrimSpace eventType) actor p).

(** What [writeAudit] adds to the metadata it is given, where the key is free. *)
Definition audit_metadata (l : LaunchContext) (meta : payload) : payload :=
  meta ∪ {[§"request_id" := JStr (TrimSpace (l_RequestID l))]}
  ∪ {[§"protocol_action" := JStr (UpstreamAuthAction (l_Protocol l) (l_Action l))]}
  ∪ (if bool_decide (l_Protocol l = []) then ∅ else {[§"session_type" := JStr (l_Protocol l)]})
  ∪ (if bool_decide (l_Action l = []) then ∅ else {[§"launch_type" := JStr (l_Action l)]})
  ∪ auditIdentityMetadata l.
Definition writeAudit (l : LaunchContext) (eventType action outcome : bytes) (meta : payload) : M db unit :=
  wrap_err §"insert audit event"
    (insert_audit (l_UserID l) (l_AssetID l) (l_SessionID l) eventType action outcome
       (audit_metadata l meta)).

(** ** Launching *)

Definition claims_of (sid uid aid action rid : bytes) (expires : Z) : LaunchTokenClaims :=
  LaunchClaims sid uid aid action rid (expires / 10 ^ 9) [].
Definition sign_with (msg secret : bytes) (c : LaunchTokenClaims) : M db bytes :=
  match Sign secret c with inl t => ret t | inr e => fail (Wrap msg e) end.

Definition CreateLaunch (input : CreateLaunchInput) : M db LaunchResult :=
  let userID := TrimSpace (in_UserID input) in
  let assetID := TrimSpace (in_AssetID input) in
  let action := TrimSpace (in_Action input) in
  let protocol := TrimSpace (in_Protocol input) in
  let clientIP := normalizeIP (in_ClientIP input) in
  let userAgent := TrimSpace (in_UserAgent input) in
  let requestID := TrimSpace (in_RequestID input) in
  if bool_decide (userID = []) || bool_decide (assetID = []) || bool_decide (action = [])
     || bool_decide (protocol = [])
  then fail (Errorf §"user_id, asset_id, action, and protocol are required")
  else
    let! sessionID := wrap_err §"create session"
      (insert_session userID assetID protocol StatusPending (§"action:" ++ action) clientIP) in
    let expiresAt := in_RequestedAt input + cfg_LaunchTokenTTL cfg in
    do! WriteEvent sessionID EventLaunchCreated (Some userID)
      (list_to_map [(§"action", JStr action); (§"protocol", JStr protocol);
         (§"expires_at", JStr (RFC3339Nano expiresAt)); (§"client_ip", JStr clientIP);
         (§"user_agent", JStr userAgent); (§"request_id", JStr requestID);
         (§"created_via", JStr §"api")]) in
    let claims := claims_of sessionID userID assetID action requestID expiresAt in
    let! connector := match cfg_ConnectorSecret cfg with
                      | Some k => sign_with §"sign connector token" k claims
                      | None => ret []
                      end in
    let result := {| lr_SessionID := sessionID; lr_Action := action; lr_AssetType := [];
      lr_LaunchType := []; lr_ExpiresAt := expiresAt; lr_ConnectorToken := connector;
      lr_Shell := None; lr_SFTP := None; lr_DBeaver := None; lr_Redis := None |} in
    let token := sign_with §"sign launch token" (cfg_LaunchTokenSecret cfg) claims in
    if bool_decide (protocol = ProtocolSSH) && bool_decide (action = §"shell") then
      let! t := token in
      ret (AttachShellPayload result
        (ShellPayload (cfg_ProxyHost cfg) (cfg_ProxyPort cfg) (cfg_ProxyUsername cfg)
           (cfg_ProxyUsername cfg) [] (cfg_ProxyHost cfg) t))
    else if bool_decide (protocol = ProtocolSFTP) && bool_decide (action = §"sftp") then
      let! t := token in
      ret (AttachSFTPPayload result
        (SFTPPayload (cfg_ProxyHost cfg) (cfg_ProxyPort cfg) (cfg_ProxyUsername cfg)
           (cfg_ProxyUsername cfg) [] (cfg_ProxyHost cfg) t []))
    else if bool_decide (protocol = ProtocolRedis) && bool_decide (action = §"redis") then
      let! t := token in
      ret (AttachRedisPayload result (RedisPayload [] 0 [] t 0 false false))
    else ret result.

(** The launch context of a row, before the fields that come from elsewhere. *)
Definition context_of (row : bytes * session_row * asset_row) : LaunchContext :=
  let '(id, r, a) := row in {|
    l_SessionID := id;
    l_UserID := s_user r;
    l_AssetID := s_asset r;
    l_AssetName := a_name a;
    l_RequestID := [];
    l_Action := TrimPrefix (default [] (s_reason r)) §"action:";
    l_Protocol := s_protocol r;
    l_AssetType := a_type a;
    l_Host := a_host a;
    l_Port := a_port a;
    l_UpstreamUsername := [];
    l_Status := s_status r;
    l_ExpiresAt := 0 |}.

(** The checks of [ResolveLaunchToken] on a context and the claims. *)
Definition launch_allowed (l : LaunchContext) (c : LaunchTokenClaims) : bool :=
  let shell := bool_decide (l_Protocol l = ProtocolSSH) && bool_decide (lc_Action c = §"shell") in
  let sftp := bool_decide (l_Protocol l = ProtocolSFTP) && bool_decide (lc_Action c = §"sftp") in
  let redis := bool_decide (l_Protocol l = ProtocolRedis) && bool_decide (lc_Action c = §"redis") in
  bool_decide (l_UserID l = lc_UserID c) && bool_decide (l_AssetID l = lc_AssetID c)
  && bool_decide (l_Action l = lc_Action c)
  && (shell || sftp || redis)
  && (if redis then bool_decide (l_AssetType l = TypeRedis)
      else bool_decide (l_AssetType l = TypeLinuxVM))
  && (bool_decide (l_Status l = StatusPending) || bool_decide (l_Status l = StatusActive)).

Definition ResolveLaunchToken (now : Z) (token : bytes) : M db LaunchContext :=
  match Verify (cfg_LaunchTokenSecret cfg) now (TrimSpace token) with
  | inr e => fail (token_error e)
  | inl c =>
      let! row := wrap_err §"resolve launch session" (select_session (lc_SessionID c) None) in
      match row with
      | None => fail ErrUnauthorizedLaunch
      | Some row =>
          let l := context_of row in
          if negb (launch_allowed l c) then fail ErrUnauthorizedLaunch
          else ret {|
            l_SessionID := l_SessionID l; l_UserID := l_UserID l; l_AssetID := l_AssetID l;
            l_AssetName := l_AssetName l; l_RequestID := TrimSpace (lc_RequestID c);
            l_Action := l_Action l; l_Protocol := l_Protocol l; l_AssetType := l_AssetType l;
            l_Host := l_Host l; l_Port := l_Port l; l_UpstreamUsername := [];
            l_Status := l_Status l; l_ExpiresAt := lc_ExpiresAt c * 10 ^ 9 |}
      end
  end.

Definition GetSessionContextForUser (sessionID userID : bytes) : M db LaunchContext :=
  if bool_decide (TrimSpace sessionID = []) || bool_decide (TrimSpace userID = [])
  then fail (Errorf §"session id and user id are required")
  else
    let! row := wrap_err §"get session context"
      (select_session (TrimSpace sessionID) (Some (TrimSpace userID))) in
    match row with
    | None => fail ErrUnauthorizedLaunch
    | Some row => ret (context_of row)
    end.

(** ** Status changes *)

Definition set_status (status : bytes) (start finish : bool) (now : Z) (r : session_row) : session_row :=
  SessionRow (s_user r) (s_asset r) (s_protocol r) status (s_reason r) (s_client_ip r)
    (if start then Some (default now (s_started r)) else s_started r)
    (if finish then Some now else s_ended r) (s_created r).
Definition is_pending (r : session_row) : bool := bool_decide (s_status r = StatusPending).

Definition RecordConnectorLaunchEvent (sessionID userID eventType : bytes) (p : payload) : M db unit :=
  if negb (bool_decide (eventType ∈ [EventConnectorReq; EventConnectorSuccess; EventConnectorFailed]))
  then fail (Errorf (§"unsupported connector event type: " ++ eventType))
  else
    let! l := GetSessionContextForUser sessionID userID in
    do! WriteEvent (l_SessionID l) eventType (Some (l_UserID l)) p in
    if bool_decide (eventType = EventConnectorSuccess) then
      do! wrap_err §"mark connector-launched session active"
            (update_session (l_SessionID l) is_pending (set_status StatusActive true false)) in
      ret tt
    else ret tt.

Definition request_id (l : LaunchContext) : payload :=
  {[§"request_id" := JStr (TrimSpace (l_RequestID l))]}.

Definition MarkProxyConnected (l : LaunchContext) (remoteAddr : bytes) : M db unit :=
  do! wrap_err §"mark proxy connected"
        (update_session (l_SessionID l) is_pending (set_status StatusActive true false)) in
  WriteEvent (l_SessionID l) EventProxyConnected (Some (l_UserID l))
    (auditIdentityMetadata l ∪ {[§"remote_addr" := JStr remoteAddr]}
     ∪ {[§"remote_ip" := JStr (normalizeIP remoteAddr)]} ∪ request_id l).

Definition MarkUpstreamConnected (l : LaunchContext) : M db unit :=
  WriteEvent (l_SessionID l) EventUpstreamConn (Some (l_UserID l))
    (auditIdentityMetadata l ∪ {[§"upstream_host" := JStr (l_Host l)]}
     ∪ {[§"upstream_port" := JNum (Itoa (l_Port l))]} ∪ request_id l).

Definition MarkShellStarted (l : LaunchContext) : M db unit :=
  do! wrap_err §"mark session active"
        (update_session (l_SessionID l) (λ _, true) (set_status StatusActive true false)) in
  do! WriteEvent (l_SessionID l) EventShellStarted (Some (l_UserID l))
    (auditIdentityMetadata l ∪ {[§"protocol" := JStr (l_Protocol l)]}
     ∪ {[§"action" := JStr (l_Action l)]} ∪ request_id l) in
  writeAudit l auditEventSessionOpen
    (ProtocolAwareAction (l_Action l) (l_Protocol l) (l_Action l)) §"success" ∅.

Definition MarkEnded (l : LaunchContext) (reason : bytes) : M db unit :=
  do! wrap_err §"mark session completed"
        (update_session (l_SessionID l) (λ _, true) (set_status StatusCompleted true true)) in
  do! WriteEvent (l_SessionID l) EventSessionEnded (Some (l_UserID l))
    (auditIdentityMetadata l ∪ {[§"reason" := JStr (TrimSpace reason)]} ∪ request_id l) in
  writeAudit l auditEventSessionDone (sessionEndAuditAction (l_Action l)) §"success"
    {[§"reason" := JStr (TrimSpace reason)]}.

Definition MarkFailed (l : LaunchContext) (reason : bytes) : M db unit :=
  do! wrap_err §"mark session failed"
        (update_session (l_SessionID l) (λ _, true) (set_status StatusFailed false true)) in
  do! WriteEvent (l_SessionID l) EventSessionFailed (Some (l_UserID l))
    (auditIdentityMetadata l ∪ {[§"reason" := JStr (TrimSpace reason)]} ∪ request_id l) in
  writeAudit l auditEventSessionDone (sessionEndAuditAction (l_Action l)) §"failed"
    {[§"reason" := JStr (TrimSpace reason)]}.

Definition RecordCredentialUsage (now : Z) (l : LaunchContext) (credentialType usageStage requestID : bytes)
    : M db unit :=
  let stage := TrimSpace usageStage in
  let stage := if bool_decide (stage = []) then §"unknown" else stage in
  let ctype := TrimSpace credentialType in
  let ctype := if bool_decide (ctype = []) then §"unknown" else ctype in
  writeAudit l §"credential_usage" (CredentialUsageAction ctype stage (l_Protocol l) (l_Action l))
    §"success"
    (list_to_map [(§"session_id", JStr (l_SessionID l)); (§"user_id", JStr (l_UserID l));
       (§"asset_id", JStr (l_AssetID l)); (§"credential_type", JStr ctype);
       (§"usage_stage", JStr stage); (§"request_id", JStr (TrimSpace requestID));
       (§"recorded_at", JStr (RFC3339Nano now))]).

(** ** The sweep *)

Definition launchMaterialized (sessionID action : bytes) : M db bool :=
  select_has_event (TrimSpace sessionID) (materialization_events action).

(** One row of the sweep: whether it was marked. *)
Definition sweep_row (row : bytes * session_row * asset_row) : M db bool :=
  let '(id, r, a) := row in
  let l := context_of (id, r, a) in
  let! materialized := wrap_err §"check launch materialization"
    (launchMaterialized (l_SessionID l) (l_Action l)) in
  if materialized then ret false
  else
    let! n := wrap_err §"mark stale launch failed"
      (update_session (l_SessionID l) is_pending (set_status StatusFailed false true)) in
    if (n =? 0)%nat then ret false
    else
      let failPayload : payload :=
        {[§"reason" := JStr §"launch_materialization_timeout";
          §"expected_materialization" := JStr (expectedMaterialization (l_Action l))]} in
      do! WriteEvent (l_SessionID l) EventSessionFailed (Some (l_UserID l)) failPayload in
      do! writeAudit l auditEventSessionDone (sessionEndAuditAction (l_Action l)) §"failed" failPayload in
      ret true.
Fixpoint sweep_rows (rows : list (bytes * session_row * asset_row)) (marked : Z) : M db Z :=
  match rows with
  | [] => ret marked
  | row :: rest =>
      let! m := sweep_row row in
      sweep_rows rest (if m then marked + 1 else marked)
  end.

(** [FailUnmaterializedConnectorLaunches]: the number of sessions marked (lost
    to the caller when an error stops the sweep: it returns both). *)
Definition FailUnmaterializedConnectorLaunches (now timeout limit : Z) : M db Z :=
  let timeout := if timeout <=? 0 then cfg_MaterializeTimeout cfg else timeout in
  let timeout := if timeout <=? 0 then 45 * 10 ^ 9 else timeout in
  let limit := if limit <=? 0 then 200 else limit in
  let limit := if 2000 <? limit then 2000 else limit in
  let! rows := wrap_err §"query stale pending launches"
    (select_stale EventConnectorSuccess StatusPending (now - timeout) (Z.to_nat limit)) in
  sweep_rows rows 0.
End Service.
