(* ===== verification/SessionsSpec.v ===== *)
(** The sessions service's properties: what its operations may do to the
    tables, the life of a session row, launch tokens end to end, and the sweep. *)
From S2P Require Import Prelude GoStrings GoEncoding GoNet Tokens ProxyEvents Store Sessions.

(** * Operations *)

(** The events the proxies write directly. *)
Inductive proxy_event := DBQuery | RedisCommand | FileOperation | DataIn | DataOut | TerminalResize.
Definition proxy_event_type (k : proxy_event) : bytes :=
  match k with
  | DBQuery => EventDBQuery
  | RedisCommand => EventRedisCommand
  | FileOperation => EventFileOperation
  | DataIn => §"data_in"
  | DataOut => §"data_out"
  | TerminalResize => §"terminal_resize"
  end.

(** The calls other components make. *)
Inductive operation :=
| OpCreateLaunch (input : CreateLaunchInput)
| OpResolve (now : Z) (token : bytes)
| OpConnectorEvent (sid uid type : bytes) (p : payload)
| OpProxyEvent (k : proxy_event) (sid : bytes) (actor : option bytes) (p : payload)
| OpProxyConnected (l : LaunchContext) (addr : bytes)
| OpUpstreamConnected (l : LaunchContext)
| OpShellStarted (l : LaunchContext)
| OpEnded (l : LaunchContext) (reason : bytes)
| OpFailed (l : LaunchContext) (reason : bytes)
| OpCredentialUsage (now : Z) (l : LaunchContext) (ctype stage rid : bytes)
| OpSweep (now timeout limit : Z).

Section Operations.
Context `{Unicode} `{Postgres} (cfg : Config).

Definition exec (op : operation) : M db unit :=
  match op with
  | OpCreateLaunch input => do! CreateLaunch cfg input in ret tt
  | OpResolve now token => do! ResolveLaunchToken cfg now token in ret tt
  | OpConnectorEvent sid uid type p => RecordConnectorLaunchEvent sid uid type p
  | OpProxyEvent k sid actor p => WriteEvent sid (proxy_event_type k) actor p
  | OpProxyConnected l addr => MarkProxyConnected l addr
  | OpUpstreamConnected l => MarkUpstreamConnected l
  | OpShellStarted l => MarkShellStarted l
  | OpEnded l reason => MarkEnded l reason
  | OpFailed l reason => MarkFailed l reason
  | OpCredentialUsage now l ctype stage rid => RecordCredentialUsage now l ctype stage rid
  | OpSweep now timeout limit => do! FailUnmaterializedConnectorLaunches cfg now timeout limit in ret tt
  end.
(** A history: each call's effect stays, whatever it returns. *)
Definition history (ops : list operation) (s : db) : db := fold_left (λ s op, (exec op s).2) ops s.
End Operations.

(** * Relations every operation keeps *)

(** What may happen to a session row: its identity never changes, a start time
    is never moved, and the status only goes to an active or final one. *)
Definition row_step (r r' : session_row) : Prop :=
  s_user r' = s_user r ∧ s_asset r' = s_asset r ∧ s_protocol r' = s_protocol r
  ∧ s_reason r' = s_reason r ∧ s_client_ip r' = s_client_ip r ∧ s_created r' = s_created r
  ∧ (∀ t, s_started r = Some t → s_started r' = Some t)
  ∧ (is_Some (s_ended r) → is_Some (s_ended r'))
  ∧ (s_status r' = s_status r
     ∨ s_status r' ∈ [StatusActive; StatusCompleted; StatusFailed]).

#[export] Instance row_step_preorder : PreOrder row_step.
Proof.
  split; [by intros r; split_and!; auto|].
  intros r1 r2 r3 (?&?&?&?&?&?&Ha&Hb&Hc) (?&?&?&?&?&?&Hd&He&Hf).
  split_and!; try congruence; eauto. destruct Hf as [->|?]; [|by right].
  by destruct Hc; [left|right].
Qed.

(** The tables grow: events and audit rows are only appended, sessions are only
    added or stepped, users and assets are left alone. *)
Record grows (s s' : db) : Prop := {
  gr_users : d_users s' = d_users s;
  gr_assets : d_assets s' = d_assets s;
  gr_events : d_events s `prefix_of` d_events s';
  gr_audit : d_audit s `prefix_of` d_audit s';
  gr_rows : ∀ id r, d_sessions s !! id = Some r → ∃ r', d_sessions s' !! id = Some r' ∧ row_step r r';
}.

#[export] Instance grows_preorder : PreOrder grows.
Proof.
  split.
  - intros s. split; try done. intros id r Hr. exists r. by split; [|reflexivity].
  - intros s1 s2 s3 [U1 A1 E1 D1 R1] [U2 A2 E2 D2 R2]. split; try congruence; try by etransitivity.
    intros id r Hr. destruct (R1 id r Hr) as (r1 & H1 & Hs1). destruct (R2 id r1 H1) as (r2 & H2 & Hs2).
    exists r2. split; [done|]. by etransitivity.
Qed.

(** The changes of status the service makes. *)
Inductive transition (now : Z) (r : session_row) : session_row → Prop :=
| tr_active : transition now r (set_status StatusActive true false now r)
| tr_completed : transition now r (set_status StatusCompleted true true now r)
| tr_failed : transition now r (set_status StatusFailed false true now r).

Section Keeping.
Context `{Unicode} `{Postgres}.
Context (R : db → db → Prop) `{!PreOrder R}.

(** The types of event in question, which include all but the connector's. *)
Context (allowed : bytes → Prop).
Definition connector_types : list bytes := [EventConnectorReq; EventConnectorSuccess; EventConnectorFailed].
Context (service_types : ∀ ty, ty ∉ connector_types → allowed ty).

(** Relations that do not look at the step counter and the fault schedule. *)
Definition ignores_clock : Prop := ∀ s,
  R s (Db (d_users s) (d_assets s) (d_sessions s) (d_events s) (d_audit s)
          (S (d_steps s)) (tail (d_faults s))).

Lemma keeps_statement {A} (q : Z → nat → db → (A * db) + error) :
  ignores_clock → (∀ now n s a s', q now n s = inl (a, s') → R s s') → keeps R (statement q).
Proof.
  intros Hc Hq s. unfold statement. specialize (Hc s). set (s1 := Db _ _ _ _ _ _ _) in *.
  destruct (mjoin (head (d_faults s))) as [[e|e]|]; [done| |];
    destruct (q (pg_now (d_steps s)) (d_steps s) s1) as [[a s2]|e2] eqn:E; try done;
    (etransitivity; [exact Hc|by eapply Hq]).
Qed.

(** How [R] meets each kind of change. *)
Class Keeper := {
  kp_clock : ignores_clock;
  kp_session : ∀ s id r, d_sessions s !! id = None → s_status r = StatusPending →
    s_started r = None → s_ended r = None → s_user r ∈ d_users s → is_Some (d_assets s !! s_asset r) →
    R s (with_sessions s (<[id := r]> (d_sessions s)));
  kp_update : ∀ s id now r r', d_sessions s !! id = Some r → transition now r r' →
    R s (with_sessions s (<[id := r']> (d_sessions s)));
  kp_event : ∀ s e, allowed (ev_type e) → is_Some (d_sessions s !! ev_session e) →
    (∀ a, ev_actor e = Some a → a ∈ d_users s) → R s (with_event s e);
  kp_audit : ∀ s a, is_Some (d_sessions s !! au_session a) → is_Some (d_assets s !! au_asset a) →
    au_actor a ∈ d_users s → R s (with_audit s a);
}.

Context `{!Keeper}.

Lemma keep_insert_session u a p st re ip :
  st = StatusPending → keeps R (insert_session u a p st re ip).
Proof.
  intros ->. apply keeps_statement; [apply kp_clock|]. intros now n s x s' Hq.
  destruct (pg_uuid u) as [cu|]; [|done]. destruct (pg_uuid a) as [ca|]; [|done]. cbv zeta in Hq.
  destruct (_ && _) eqn:E; [|done]. gobool. injection Hq as <- <-. by apply kp_session.
Qed.
Lemma keep_insert_event id ty act p : allowed ty → keeps R (insert_event id ty act p).
Proof.
  intros Hty. apply keeps_statement; [apply kp_clock|]. intros now n s x s' Hq.
  destruct (pg_uuid id) as [u|]; [|done].
  destruct (match act with Some a => Some <$> pg_uuid a | None => Some None end) as [ca|]; [|done].
  destruct (_ && _) eqn:E; [|done]. gobool. injection Hq as <- <-.
  apply kp_event; [done..|]. cbn. intros a ->. by gobool.
Qed.
Lemma keep_insert_audit u a id ty ac o p : keeps R (insert_audit u a id ty ac o p).
Proof.
  apply keeps_statement; [apply kp_clock|]. intros now n s x s' Hq.
  destruct (pg_uuid u) as [cu|]; [|done]. destruct (pg_uuid a) as [ca|]; [|done].
  destruct (pg_uuid id) as [ci|]; [|done].
  destruct (_ && _) eqn:E; [|done]. gobool. injection Hq as <- <-. by apply kp_audit.
Qed.
Lemma keep_update id guard set :
  (∀ now r, guard r = true → transition now r (set now r)) → keeps R (update_session id guard set).
Proof.
  intros Ht. apply keeps_statement; [apply kp_clock|]. intros now n s x s' Hq.
  destruct (pg_uuid id) as [u|]; [|done]. destruct (d_sessions s !! u) as [r|] eqn:Er.
  - destruct (guard r) eqn:Eg; injection Hq as <- <-; [|reflexivity]. eapply kp_update; eauto.
  - injection Hq as <- <-. reflexivity.
Qed.
Lemma keep_select id user : keeps R (select_session id user).
Proof.
  apply keeps_statement; [apply kp_clock|]. intros now n s x s' Hq.
  destruct (pg_uuid id); [|done]. destruct (match user with Some _ => _ | None => _ end); [|done].
  injection Hq as <- <-. reflexivity.
Qed.
Lemma keep_has_event id types : keeps R (select_has_event id types).
Proof.
  apply keeps_statement; [apply kp_clock|]. intros now n s x s' Hq.
  destruct (pg_uuid id); [|done]. injection Hq as <- <-. reflexivity.
Qed.
Lemma keep_stale ty st cut lim : keeps R (select_stale ty st cut lim).
Proof.
  apply keeps_statement; [apply kp_clock|]. intros now n s x s' Hq. injection Hq as <- <-. reflexivity.
Qed.

Lemma keep_WriteEvent id ty act p : allowed (TrimSpace ty) → keeps R (WriteEvent id ty act p).
Proof. intros. unfold WriteEvent. case_match; [apply keeps_fail, _|by apply keeps_wrap_err, keep_insert_event]. Qed.
Lemma service_type ty : bool_decide (TrimSpace ty ∉ connector_types) = true → allowed (TrimSpace ty).
Proof. intros Hd. apply service_types. by apply bool_decide_eq_true in Hd. Qed.
Lemma keep_writeAudit l ty ac o m : keeps R (writeAudit l ty ac o m).
Proof. apply keeps_wrap_err, keep_insert_audit. Qed.
Lemma keep_active id guard :
  keeps R (update_session id guard (set_status StatusActive true false)).
Proof. apply keep_update. by constructor. Qed.

#[local] Hint Resolve keep_writeAudit keep_active keep_select : keeps.
#[local] Hint Extern 1 (keeps _ (WriteEvent _ _ _ _)) =>
  apply keep_WriteEvent, service_type; by vm_compute : keeps.
#[local] Hint Extern 1 (keeps _ (update_session _ _ _)) => apply keep_update; by constructor : keeps.

(** Go through the calls of an operation. *)
Ltac keeping :=
  repeat first
    [ solve [auto 2 with keeps typeclass_instances] | apply keeps_wrap_err
    | apply keeps_bind; [apply _| |intros ?] | progress cbv zeta | case_match ].

Lemma keep_CreateLaunch cfg input : keeps R (CreateLaunch cfg input).
Proof.
  unfold CreateLaunch. cbv zeta. destruct (_ || _); [apply keeps_fail, _|].
  apply keeps_bind; [apply _|by apply keeps_wrap_err, keep_insert_session|]. intros sid.
  unfold sign_with. keeping.
Qed.
Lemma keep_sweep_row row : keeps R (sweep_row row).
Proof.
  destruct row as [[id r] a]. cbn [sweep_row]. cbv zeta.
  apply keeps_bind; [apply _|apply keeps_wrap_err, keep_has_event|]. intros m. keeping.
Qed.
Lemma keep_sweep_rows rows marked : keeps R (sweep_rows rows marked).
Proof.
  revert marked. induction rows as [|row rows IH]; intros marked; cbn [sweep_rows]; [apply keeps_ret, _|].
  apply keeps_bind; [apply _|apply keep_sweep_row|]. intros m. apply IH.
Qed.

Lemma keep_exec cfg op :
  ((∀ ty, allowed ty) ∨ ∀ sid uid ty p, op ≠ OpConnectorEvent sid uid ty p) → keeps R (exec cfg op).
Proof.
  intros Hop. destruct op; cbn [exec].
  - apply keeps_bind; [apply _|apply keep_CreateLaunch|intros ?; apply keeps_ret, _].
  - unfold ResolveLaunchToken. keeping.
  - destruct Hop as [Hop|Hop]; [|by destruct (Hop sid uid type p)].
    unfold RecordConnectorLaunchEvent. destruct (negb _); [apply keeps_fail, _|].
    apply keeps_bind; [apply _|unfold GetSessionContextForUser; keeping|]. intros l.
    apply keeps_bind; [apply _|by apply keep_WriteEvent|]. intros _. keeping.
  - destruct k; keeping.
  - unfold MarkProxyConnected. keeping.
  - unfold MarkUpstreamConnected. keeping.
  - unfold MarkShellStarted. keeping.
  - unfold MarkEnded. keeping.
  - unfold MarkFailed. keeping.
  - apply keep_writeAudit.
  - apply keeps_bind; [apply _| |intros ?; apply keeps_ret, _]. unfold FailUnmaterializedConnectorLaunches.
    cbv zeta. apply keeps_bind; [apply _|apply keeps_wrap_err, keep_stale|]. intros rows.
    apply keep_sweep_rows.
Qed.
Lemma keep_history cfg ops s : (∀ ty, allowed ty) → R s (history cfg ops s).
Proof.
  intros Hall. revert s. induction ops as [|op ops IH]; intros s; [reflexivity|].
  etransitivity; [apply (keep_exec cfg op); auto|apply IH].
Qed.
End Keeping.

(** * Growth and well-formedness *)

(** Constants decide the goal, or contradict the last hypothesis. *)
Ltac by_text := apply (bool_decide_unpack _); by vm_compute.
Ltac no_text H := let P := type of H in exfalso; exact (bool_decide_eq_false_1 P ltac:(by vm_compute) H).

Section Instances.
Context `{Unicode} `{Postgres}.

Lemma transition_row now r r' : transition now r r' → row_step r r'.
Proof.
  intros []; split_and!; try done; cbn; try (intros t ->; done); try (by intros; eexists);
    try (right; by_text).
Qed.

Lemma grows_rows s t : (∀ id r, d_sessions s !! id = Some r → ∃ r', t !! id = Some r' ∧ row_step r r') →
  grows s (with_sessions s t).
Proof. intros Ht. by split. Qed.

#[export] Instance grows_keeper : Keeper grows (λ _, True).
Proof.
  split.
  - intros s. split; try done. intros id r Hr. exists r. by split; [|reflexivity].
  - intros s id r Hn _ _ _ _ _. apply grows_rows. intros id' r' Hr'. exists r'.
    split; [|reflexivity]. rewrite lookup_insert_ne; [done|]. intros ->. congruence.
  - intros s id now r r' Hr Ht. apply grows_rows. intros id' r1 Hr1.
    destruct (decide (id = id')) as [<-|Hne].
    + exists r'. rewrite lookup_insert_eq. split; [done|]. replace r1 with r by congruence.
      by eapply transition_row.
    + exists r1. by rewrite lookup_insert_ne.
  - intros s e _ _ _. split; cbn; try done; [by eexists|]. intros id r Hr. exists r. by split; [|reflexivity].
  - intros s a _ _ _. split; cbn; try done; [by eexists|]. intros id r Hr. exists r. by split; [|reflexivity].
Qed.

(** The life of a session row. *)
Definition row_life (r : session_row) : Prop :=
  s_status r ∈ [StatusPending; StatusActive; StatusCompleted; StatusFailed]
  ∧ (s_status r = StatusPending → s_started r = None ∧ s_ended r = None)
  ∧ (s_status r ∈ [StatusActive; StatusCompleted] → is_Some (s_started r))
  ∧ (s_status r ∈ [StatusCompleted; StatusFailed] → is_Some (s_ended r)).

(** The foreign keys of the schema, and the life of every row. *)
Record wf (s : db) : Prop := {
  wf_rows : ∀ id r, d_sessions s !! id = Some r →
    row_life r ∧ s_user r ∈ d_users s ∧ is_Some (d_assets s !! s_asset r);
  wf_events : ∀ e, e ∈ d_events s → is_Some (d_sessions s !! ev_session e)
    ∧ ∀ a, ev_actor e = Some a → a ∈ d_users s;
  wf_audit : ∀ a, a ∈ d_audit s → is_Some (d_sessions s !! au_session a)
    ∧ is_Some (d_assets s !! au_asset a) ∧ au_actor a ∈ d_users s;
}.

Lemma transition_life now r r' : row_life r → transition now r r' → row_life r'.
Proof.
  intros (Hst & Hp & Ha & He) []; unfold row_life, set_status; cbn;
    (split; [by_text|]); (split; [intros Hx; no_text Hx|]); split; try by eexists.
  all: intros Hx; no_text Hx.
Qed.

Lemma wf_sessions s t :
  (∀ id r, t !! id = Some r → row_life r ∧ s_user r ∈ d_users s ∧ is_Some (d_assets s !! s_asset r)) →
  (∀ id, is_Some (d_sessions s !! id) → is_Some (t !! id)) →
  wf s → wf (with_sessions s t).
Proof.
  intros Ht Hd [_ He Hau]. split; cbn; [done| |].
  - intros e Hin. destruct (He e Hin). split; [by apply Hd|done].
  - intros a Hin. destruct (Hau a Hin) as (?&?&?). split_and!; [by apply Hd|done..].
Qed.

#[export] Instance implies_preorder {A} (P : A → Prop) : PreOrder (λ x y, P x → P y).
Proof. split; [by intros ?|]. intros x y z; auto. Qed.

#[export] Instance wf_keeper : Keeper (λ s s', wf s → wf s') (λ _, True).
Proof.
  split.
  - intros s [Hr He Hau]. by split.
  - intros s id r Hn Hst Hs0 He0 Hu Ha Hwf. apply wf_sessions; [| |done].
    + intros id' r' [[<- <-]|[Hne Hr']]%lookup_insert_Some; [|by apply (wf_rows s Hwf id')].
      split; [|done]. unfold row_life. rewrite Hst, Hs0, He0.
      split_and!; try done; try by_text; intros Hx; no_text Hx.
    + intros id' Hs. destruct (decide (id = id')) as [<-|]; [by rewrite lookup_insert_eq|by rewrite lookup_insert_ne].
  - intros s id now r r' Hr Ht Hwf. apply wf_sessions; [| |done].
    + intros id' r1 [[<- <-]|[Hne Hr1]]%lookup_insert_Some; [|by apply (wf_rows s Hwf id')].
      destruct (wf_rows s Hwf id r Hr) as (Hl & Hu & Ha).
      split; [by eapply transition_life|]. by destruct Ht.
    + intros id' Hs. destruct (decide (id = id')) as [<-|]; [by rewrite lookup_insert_eq|by rewrite lookup_insert_ne].
  - intros s e _ Hs Ha [Hr He Hau]. split; cbn; [done| |done].
    intros e' [Hin| ->%list_elem_of_singleton]%elem_of_app; [by apply He|done].
  - intros s a Hs Has Hu [Hr He Hau]. split; cbn; [done..|].
    intros a' [Hin| ->%list_elem_of_singleton]%elem_of_app; [by apply Hau|done].
Qed.
End Instances.

(** * The sweep of launches *)

Section Sweep.
Context `{Unicode} `{Postgres} `{!PostgresLaws}.

(** A session whose launch the connector confirmed is not pending any more, as
    long as no statement has failed. *)
Record settled (s : db) : Prop := {
  se_clean : d_faults s = [];
  se_refs : ∀ e, e ∈ d_events s → is_Some (d_sessions s !! ev_session e);
  se_done : ∀ e r, e ∈ d_events s → ev_type e = EventConnectorSuccess →
    d_sessions s !! ev_session e = Some r → s_status r ≠ StatusPending;
}.

Definition tick (s : db) : db :=
  Db (d_users s) (d_assets s) (d_sessions s) (d_events s) (d_audit s) (S (d_steps s)) (tail (d_faults s)).

Lemma statement_clean {A} (q : Z → nat → db → (A * db) + error) s :
  d_faults s = [] →
  statement q s = match q (pg_now (d_steps s)) (d_steps s) (tick s) with
                  | inl (a, s') => (Ok a, s')
                  | inr e => (Err e, tick s)
                  end.
Proof. intros Hf. unfold statement, tick. rewrite Hf. cbn. by destruct (q _ _ _) as [[]|]. Qed.

Lemma settled_tick s : settled s → settled (tick s).
Proof. intros [Hc Hr Hd]. split; cbn; [by rewrite Hc|done..]. Qed.

Lemma not_pending now r r' : transition now r r' → s_status r' ≠ StatusPending.
Proof. intros [] Hx; no_text Hx. Qed.

#[export] Instance settled_keeper :
  Keeper (λ s s', settled s → settled s') (λ ty, ty ≠ EventConnectorSuccess).
Proof.
  split.
  - intros s. apply settled_tick.
  - intros s id r Hn _ _ _ _ _ [Hc Hr Hd]. split; cbn; [done| |].
    + intros e Hin. destruct (decide (id = ev_session e)) as [<-|];
        [by rewrite lookup_insert_eq|by rewrite lookup_insert_ne; auto].
    + intros e r' Hin Hty [[Hid _]|[_ Hl]]%lookup_insert_Some; [|by eapply Hd].
      apply Hr in Hin. rewrite <- Hid, Hn in Hin. by destruct Hin.
  - intros s id now r r' Hr Ht [Hc He Hd]. split; cbn; [done| |].
    + intros e Hin. destruct (decide (id = ev_session e)) as [<-|];
        [by rewrite lookup_insert_eq|by rewrite lookup_insert_ne; auto].
    + intros e r1 Hin Hty [[_ <-]|[_ Hl]]%lookup_insert_Some; [by eapply not_pending|by eapply Hd].
  - intros s e Hty Hs _ [Hc He Hd]. split; cbn; [done| |].
    + intros e' [Hin| ->%list_elem_of_singleton]%elem_of_app; auto.
    + intros e' r [Hin| ->%list_elem_of_singleton]%elem_of_app; eauto.
  - intros s a _ _ _ [Hc He Hd]. by split.
Qed.

Lemma success_not_service ty : ty ∉ connector_types → ty ≠ EventConnectorSuccess.
Proof. intros Hn ->. apply Hn. by_text. Qed.

Lemma connector_other ty : ty ∈ connector_types → ty ≠ EventConnectorSuccess →
  TrimSpace ty ≠ EventConnectorSuccess.
Proof.
  intros Hin Hne. apply elem_of_cons in Hin as [->|Hin]; [by_text|].
  apply elem_of_cons in Hin as [->|Hin]; [by destruct Hne|].
  apply elem_of_cons in Hin as [->|Hin]; [by_text|]. by apply elem_of_nil in Hin.
Qed.

(** A confirmed launch: the event and the change of status go together. *)
Lemma settled_connector sid uid ty p s : settled s → settled (RecordConnectorLaunchEvent sid uid ty p s).2.
Proof.
  intros Hs. unfold RecordConnectorLaunchEvent. destruct (negb _) eqn:Eneg; [done|].
  unfold GetSessionContextForUser. destruct (_ || _); [done|].
  unfold bind, wrap_err, select_session. cbv beta. rewrite statement_clean by apply Hs.
  assert (Hs1 : settled (tick s)) by by apply settled_tick. set (s1 := tick s) in *.
  destruct (pg_uuid (TrimSpace sid)) as [u|] eqn:Eu; [|done].
  destruct (Some <$> pg_uuid (TrimSpace uid)) as [who|]; [|done].
  destruct (d_sessions s1 !! u) as [r|] eqn:Er; [|done].
  destruct (match who with Some _ => _ | None => _ end); [|done].
  destruct (d_assets s1 !! s_asset r) as [a|]; [|done].
  cbn [ret context_of l_SessionID l_UserID].
  destruct (pg_uuid_text _ _ Eu) as (Hne & Htr & _). pose proof (pg_uuid_canonical _ _ Eu) as Hcan.
  unfold WriteEvent. destruct (bool_decide (TrimSpace u = []) || _); [done|].
  unfold wrap_err, insert_event. rewrite Htr, statement_clean, Hcan by apply Hs1.
  pose proof (settled_tick _ Hs1) as Hs2. set (s2 := tick s1) in *.
  destruct (Some <$> pg_uuid (s_user r)) as [act|]; [|done].
  destruct (_ && _) eqn:Ea; [|done].
  destruct (bool_decide (ty = EventConnectorSuccess)) eqn:Ety;
    [apply bool_decide_eq_true in Ety|apply bool_decide_eq_false in Ety].
  - unfold update_session. cbv beta. rewrite statement_clean, Hcan by apply Hs2.
    cbn [with_event tick d_users d_assets d_sessions d_events d_audit d_steps d_faults].
    destruct Hs2 as [Hc He Hd]. change (d_sessions s2) with (d_sessions s1) in *. rewrite Er.
    assert (Hc' : tail (d_faults s2) = []) by by rewrite Hc.
    destruct (is_pending r) eqn:Ep; (split; [exact Hc'|..]); cbn.
    + intros e [Hin| ->%list_elem_of_singleton]%elem_of_app; [|by rewrite lookup_insert_eq].
      destruct (decide (u = ev_session e)) as [<-|]; [by rewrite lookup_insert_eq|].
      rewrite lookup_insert_ne by done. by apply He.
    + intros e r1 Hin Hty [[_ <-]|[Hne' Hl]]%lookup_insert_Some;
        [exact (not_pending _ r _ (tr_active _ r))|].
      apply elem_of_app in Hin as [Hin| ->%list_elem_of_singleton]; [by eapply Hd|done].
    + intros e [Hin| ->%list_elem_of_singleton]%elem_of_app; [by apply He|by eexists].
    + intros e r1 [Hin| ->%list_elem_of_singleton]%elem_of_app Hty Hl; [by eapply Hd|].
      change (d_sessions s1 !! u = Some r1) in Hl. rewrite Er in Hl. injection Hl as <-. unfold is_pending in Ep. by gobool.
  - apply negb_false_iff, bool_decide_eq_true in Eneg. pose proof (connector_other ty Eneg Ety) as Hty.
    gobool. apply (kp_event (λ s s', settled s → settled s') (λ t, t ≠ EventConnectorSuccess)); try done.
    cbn. intros x ->. by gobool.
Qed.
End Sweep.

(** * Runs without faults, and successful runs *)

Section Runs.
Context `{Unicode} `{Postgres}.

(** A statement that succeeded took effect. *)
Lemma statement_ok {A} (q : Z → nat → db → (A * db) + error) s a s' :
  statement q s = (Ok a, s') → q (pg_now (d_steps s)) (d_steps s) (tick s) = inl (a, s').
Proof.
  unfold statement. fold (tick s). destruct (mjoin _) as [[e|e]|]; [done| |];
    destruct (q _ _ _) as [[b s2]|]; intros; simplify_eq; done.
Qed.
Lemma update_session_ok id guard set s n s' :
  update_session id guard set s = (Ok n, s') →
  ∃ u, pg_uuid id = Some u ∧ d_events s' = d_events s ∧ d_audit s' = d_audit s
    ∧ d_users s' = d_users s ∧ d_assets s' = d_assets s
    ∧ ((n = 0%nat ∧ d_sessions s' = d_sessions s)
       ∨ (n = 1%nat ∧ ∃ r, d_sessions s !! u = Some r ∧ guard r = true
            ∧ d_sessions s' = <[u := set (pg_now (d_steps s)) r]> (d_sessions s)))
    ∧ (n = 0%nat → ∀ r, d_sessions s !! u = Some r → guard r = false).
Proof.
  intros Hu%statement_ok. destruct (pg_uuid id) as [u|]; [|done]. exists u.
  change (d_sessions (tick s)) with (d_sessions s) in Hu.
  destruct (d_sessions s !! u) as [r|] eqn:Er; [destruct (guard r) eqn:Eg|]; injection Hu as <- <-;
    do 5 (split; [done|]).
  - split; [right|done]. split; [done|]. by exists r.
  - split; [by left|]. by intros _ r' [= <-].
  - split; [by left|done].
Qed.
Lemma WriteEvent_ok id ty act p s s' :
  WriteEvent id ty act p s = (Ok tt, s') →
  ∃ e u, pg_uuid (TrimSpace id) = Some u ∧ is_Some (d_sessions s !! u)
    ∧ d_events s' = d_events s ++ [e] ∧ ev_session e = u ∧ ev_type e = TrimSpace ty ∧ ev_payload e = p
    ∧ d_sessions s' = d_sessions s ∧ d_audit s' = d_audit s ∧ d_users s' = d_users s
    ∧ d_assets s' = d_assets s.
Proof.
  unfold WriteEvent. destruct (_ || _); [done|]. intros Hw%wrap_ok%statement_ok.
  destruct (pg_uuid (TrimSpace id)) as [u|]; [|done].
  destruct (match act with Some a => Some <$> pg_uuid a | None => Some None end) as [ca|]; [|done].
  destruct (_ && _) eqn:E; [|done]. injection Hw as <-. gobool.
  eexists _, u. split_and!; done.
Qed.
Lemma writeAudit_ok l ty ac o m s s' :
  writeAudit l ty ac o m s = (Ok tt, s') →
  ∃ a, d_audit s' = d_audit s ++ [a] ∧ au_type a = ty ∧ au_outcome a = o ∧ au_action a = ac
    ∧ pg_uuid (l_SessionID l) = Some (au_session a) ∧ au_metadata a = audit_metadata l m
    ∧ d_sessions s' = d_sessions s ∧ d_events s' = d_events s.
Proof.
  intros Hw%wrap_ok%statement_ok.
  destruct (pg_uuid (l_UserID l)) as [cu|]; [|done]. destruct (pg_uuid (l_AssetID l)) as [ca|]; [|done].
  destruct (pg_uuid (l_SessionID l)) as [ci|]; [|done].
  destruct (_ && _) eqn:E; [|done]. injection Hw as <-. eexists. split_and!; done.
Qed.

(** What a mark leaves when it reports success: the row's status, one event
    and one audit entry, all of the same session. *)
Definition recorded (s s' : db) (l : LaunchContext) (status ev audit outcome : bytes) : Prop :=
  ∃ r e a, d_sessions s' !! l_SessionID l = Some r ∧ s_status r = status
    ∧ d_events s' = d_events s ++ [e] ∧ ev_type e = ev ∧ ev_session e = l_SessionID l
    ∧ d_audit s' = d_audit s ++ [a] ∧ au_type a = audit ∧ au_outcome a = outcome
    ∧ au_session a = l_SessionID l ∧ au_metadata a !! §"protocol_action"
        = Some (JStr (UpstreamAuthAction (l_Protocol l) (l_Action l))).
End Runs.

Section Marks.
Context `{Unicode} `{Postgres} `{!PostgresLaws}.

Lemma audit_protocol_action l m : m !! §"protocol_action" = None →
  audit_metadata l m !! §"protocol_action" = Some (JStr (UpstreamAuthAction (l_Protocol l) (l_Action l))).
Proof.
  intros Hm. unfold audit_metadata. do 3 apply lookup_union_Some_l.
  rewrite lookup_union_r; [apply lookup_singleton_eq|]. apply lookup_union_None. split; [done|].
  apply lookup_singleton_ne. by_text.
Qed.

(** The three statements of a mark. *)
Lemma mark_ok l msg status start finish ev p audit action outcome meta s s' :
  pg_uuid (l_SessionID l) = Some (l_SessionID l) → TrimSpace ev = ev →
  meta !! §"protocol_action" = None →
  (do! wrap_err msg (update_session (l_SessionID l) (λ _, true) (set_status status start finish)) in
   do! WriteEvent (l_SessionID l) ev (Some (l_UserID l)) p in
   writeAudit l audit action outcome meta) s = (Ok tt, s') →
  recorded s s' l status ev audit outcome.
Proof.
  intros Hid Htr Hmeta Hrun. apply bind_ok in Hrun as (n & s1 & Hupd & Hrun).
  apply wrap_ok, update_session_ok in Hupd as (u & Hu & He1 & Ha1 & _ & _ & Hrow & Hz).
  apply bind_ok in Hrun as ([] & s2 & Hev & Haud).
  apply WriteEvent_ok in Hev as (e & u2 & Hu2 & [r Hex] & He2 & Hes & Het & _ & Hs2 & Ha2 & _).
  apply writeAudit_ok in Haud as (a & Ha3 & Hat & Hao & _ & Hau & Ham & Hs3 & He3).
  destruct (pg_uuid_text _ _ Hid) as (_ & Htu & _). rewrite Htu, Hid in Hu2. injection Hu2 as <-.
  rewrite Hid in Hu, Hau. injection Hu as <-. injection Hau as Hau.
  destruct Hrow as [[-> Hsame]|(-> & r0 & Hr0 & _ & Hs1)].
  { rewrite Hsame in Hex. by specialize (Hz eq_refl _ Hex). }
  exists (set_status status start finish (pg_now (d_steps s)) r0), e, a.
  rewrite Hs3, Hs2, Hs1, lookup_insert_eq, He3, He2, He1, Ha3, Ha2, Ha1, Het, Htr, Ham.
  split_and!; try done. by apply audit_protocol_action.
Qed.

Lemma reason_meta r : ({[§"reason" := JStr r]} : payload) !! §"protocol_action" = None.
Proof. apply lookup_singleton_ne. by_text. Qed.

(** ** Sessions that come back *)

(** The statements of a mark after its update leave the sessions alone. *)
Lemma mark_sessions l msg status start finish ev p audit action outcome meta s :
  d_faults s = [] → pg_uuid (l_SessionID l) = Some (l_SessionID l) →
  let m := (do! wrap_err msg (update_session (l_SessionID l) (λ _, true) (set_status status start finish)) in
   do! WriteEvent (l_SessionID l) ev (Some (l_UserID l)) p in
   writeAudit l audit action outcome meta) in
  d_faults (m s).2 = []
  ∧ ∀ r, d_sessions s !! l_SessionID l = Some r →
      d_sessions (m s).2 !! l_SessionID l = Some (set_status status start finish (pg_now (d_steps s)) r).
Proof.
  intros Hf Hid m.
  assert (Hrest : ∀ s, d_faults s = [] → d_faults ((do! WriteEvent (l_SessionID l) ev (Some (l_UserID l)) p in
      writeAudit l audit action outcome meta) s).2 = []
      ∧ d_sessions ((do! WriteEvent (l_SessionID l) ev (Some (l_UserID l)) p in
      writeAudit l audit action outcome meta) s).2 = d_sessions s).
  { intros s0 Hf0.
    set (R := λ s s' : db, d_faults s = [] → d_faults s' = [] ∧ d_sessions s' = d_sessions s).
    assert (HR : PreOrder R).
    { split; [by intros ??|]. intros x y z Hxy Hyz Hx. destruct (Hxy Hx) as [Hy ?].
      destruct (Hyz Hy). split; congruence. }
    assert (Hc : ignores_clock R) by (intros x Hx; cbn; by rewrite Hx).
    assert (Hk : keeps R (do! WriteEvent (l_SessionID l) ev (Some (l_UserID l)) p in
      writeAudit l audit action outcome meta)); [|by apply Hk].
    apply keeps_bind; [apply _| |intros _].
    - unfold WriteEvent. destruct (_ || _); [apply keeps_fail, _|]. apply keeps_wrap_err, keeps_statement; [done..|].
      intros now n x y x' Hq. destruct (pg_uuid (TrimSpace _)); [|done].
      destruct (pg_uuid (l_UserID l)); [|done]. cbn [fmap option_fmap option_map] in Hq.
      destruct (_ && _); [|done]. by injection Hq as <- <-.
    - apply keeps_wrap_err, keeps_statement; [done..|]. intros now n x y x' Hq.
      destruct (pg_uuid _); [|done]. destruct (pg_uuid _); [|done]. destruct (pg_uuid _); [|done].
      destruct (_ && _); [|done]. by injection Hq as <- <-. }
  assert (Hup : ∃ n s1, wrap_err msg (update_session (l_SessionID l) (λ _, true)
        (set_status status start finish)) s = (Ok n, s1) ∧ d_faults s1 = []
      ∧ ∀ r, d_sessions s !! l_SessionID l = Some r →
          d_sessions s1 !! l_SessionID l = Some (set_status status start finish (pg_now (d_steps s)) r)).
  { unfold wrap_err, update_session. cbv beta. rewrite statement_clean, Hid by done.
    change (d_sessions (tick s)) with (d_sessions s).
    destruct (d_sessions s !! l_SessionID l) as [r|] eqn:Er; eexists _, _; (split; [done|]); cbn; rewrite Hf.
    - split; [done|]. intros r' [= <-]. by rewrite lookup_insert_eq.
    - by split. }
  destruct Hup as (n & s1 & Hm & Hf1 & Hrow). unfold m, bind at 1 3. rewrite Hm.
  destruct (Hrest s1 Hf1) as [Hf2 Hs2]. split; [exact Hf2|]. intros r Hr. rewrite Hs2. by apply Hrow.
Qed.
End Marks.

(** * The sweep finds nothing *)

Section SweepLemmas.
Context `{Unicode} `{Postgres} `{!PostgresLaws}.

Lemma last_event_in s u ty t : last_event s u ty = Some t →
  ∃ e, e ∈ d_events s ∧ ev_session e = u ∧ ev_type e = ty.
Proof.
  unfold last_event. assert (Hg : ∀ l acc, fold_left (λ acc e,
      if bool_decide (ev_session e = u) && bool_decide (ev_type e = ty)
      then Some (match acc with Some t => Z.max t (ev_time e) | None => ev_time e end) else acc) l acc = Some t →
      is_Some acc ∨ ∃ e, e ∈ l ∧ ev_session e = u ∧ ev_type e = ty).
  { induction l as [|e l IH]; intros acc Hf; cbn in Hf; [left; by eexists|].
    apply IH in Hf as [Hs|(e' & Hin & ?)]; [|right; exists e'; split; [by right|done]].
    destruct (bool_decide _ && _) eqn:E; [|by left]. gobool. right. exists e. split; [by left|done]. }
  intros Hl%Hg. destruct Hl as [[? ?]|?]; done.
Qed.

Lemma omap_none {A B} (f : A → option B) l : (∀ x, x ∈ l → f x = None) → omap f l = [].
Proof.
  induction l as [|x l IH]; intros Hn; [done|]. cbn. rewrite Hn by by left.
  apply IH. intros y Hy. apply Hn. by right.
Qed.

Lemma sweep_nothing cfg s now timeout limit : settled s →
  FailUnmaterializedConnectorLaunches cfg now timeout limit s = (Ok 0, tick s).
Proof.
  intros Hs. unfold FailUnmaterializedConnectorLaunches. cbv zeta.
  unfold bind, wrap_err, select_stale. cbv beta. rewrite statement_clean by apply Hs.
  rewrite omap_none; [cbn [order_by fold_left map]; by rewrite take_nil|].
  intros [u r] Hin%elem_of_map_to_list. change (d_sessions (tick s)) with (d_sessions s) in Hin.
  destruct (d_assets (tick s) !! s_asset r); [|done].
  destruct (last_event (tick s) u EventConnectorSuccess) as [t|] eqn:El; [|done].
  apply last_event_in in El as (e & He & Hsu & Hty).
  rewrite bool_decide_false; [done|]. apply (se_done s Hs e r He Hty). by rewrite Hsu.
Qed.

Lemma settled_history cfg ops s : settled s → settled (history cfg ops s).
Proof.
  revert s. induction ops as [|op ops IH]; intros s Hs; [done|]. apply IH.
  destruct op; try by (apply (keep_exec (λ s s', settled s → settled s') (λ ty, ty ≠ EventConnectorSuccess)
    success_not_service cfg); [by right|done]).
  by apply settled_connector.
Qed.

(** ** Launch tokens *)



(** A token made by [CreateLaunch], as its claims. *)
Definition created_claims (input : CreateLaunchInput) (sid : bytes) (expires : Z) : LaunchTokenClaims :=
  claims_of sid (TrimSpace (in_UserID input)) (TrimSpace (in_AssetID input))
    (TrimSpace (in_Action input)) (TrimSpace (in_RequestID input)) expires.
Definition launch_token (res : LaunchResult) : option bytes :=
  match lr_Shell res, lr_SFTP res, lr_Redis res with
  | Some p, _, _ => Some (sh_Token p)
  | _, Some p, _ => Some (sf_Password p)
  | _, _, Some p => Some (rd_Password p)
  | _, _, _ => None
  end.

Lemma sign_with_ok msg k c t (s s' : db) : sign_with msg k c s = (Ok t, s') → Sign k c = inl t ∧ s' = s.
Proof. unfold sign_with. destruct (Sign k c); [|done]. by intros [= <- <-]. Qed.

Lemma insert_session_ok u a p st re ip s id s' :
  insert_session u a p st re ip s = (Ok id, s') →
  ∃ cu ca, pg_uuid u = Some cu ∧ pg_uuid a = Some ca ∧ id = pg_random_uuid (d_steps s)
    ∧ d_assets s' = d_assets s ∧ is_Some (d_assets s !! ca)
    ∧ d_sessions s' !! id = Some (SessionRow cu ca p st (Some re)
         (if bool_decide (ip = []) then None else Some ip) None None (pg_now (d_steps s))).
Proof.
  intros Hi%statement_ok. destruct (pg_uuid u) as [cu|]; [|done]. destruct (pg_uuid a) as [ca|]; [|done].
  cbv zeta in Hi. destruct (_ && _) eqn:E; [|done]. apply andb_true_iff in E as [E _].
  apply andb_true_iff in E as [_ E]. gobool. injection Hi as <- <-.
  exists cu, ca. split_and!; try done. cbn. by rewrite lookup_insert_eq.
Qed.

(** What a launch that succeeded leaves: a pending row for the canonical ids,
    and, for the three proxied kinds, a token signed for it. *)
Definition launched (cfg : Config) (input : CreateLaunchInput) (s : db) (res : LaunchResult) (s' : db) : Prop :=
  let expires := in_RequestedAt input + cfg_LaunchTokenTTL cfg in
  let protocol := TrimSpace (in_Protocol input) in
  let action := TrimSpace (in_Action input) in
  ∃ cu ca, pg_uuid (TrimSpace (in_UserID input)) = Some cu ∧ pg_uuid (TrimSpace (in_AssetID input)) = Some ca
    ∧ lr_SessionID res = pg_random_uuid (d_steps s) ∧ is_Some (d_assets s !! ca)
    ∧ d_assets s' = d_assets s
    ∧ (∃ ip at_, d_sessions s' !! lr_SessionID res = Some (SessionRow cu ca protocol
         StatusPending (Some (§"action:" ++ action)) ip None None at_))
    ∧ lr_Action res = action ∧ lr_ExpiresAt res = expires
    ∧ (∀ t, launch_token res = Some t →
         Sign (cfg_LaunchTokenSecret cfg) (created_claims input (lr_SessionID res) expires) = inl t
         ∧ (protocol, action, lr_AssetType res) ∈ [(ProtocolSSH, §"shell", TypeLinuxVM);
             (ProtocolSFTP, §"sftp", TypeLinuxVM); (ProtocolRedis, §"redis", TypeRedis)]).

Lemma CreateLaunch_ok cfg input s res s' :
  CreateLaunch cfg input s = (Ok res, s') → launched cfg input s res s'.
Proof.
  unfold CreateLaunch. cbv zeta. destruct (_ || _); [done|]. intros Hrun.
  apply bind_ok in Hrun as (sid & s1 & Hins%wrap_ok%insert_session_ok & Hrun).
  destruct Hins as (cu & ca & Hu & Ha & Hsid & Has & Hex & Hrow).
  apply bind_ok in Hrun as ([] & s2 & Hev%WriteEvent_ok & Hrun).
  destruct Hev as (e & u & _ & _ & _ & _ & _ & _ & Hs2 & _ & _ & Ha2).
  apply bind_ok in Hrun as (ct & s3 & Hct & Hrun).
  assert (s3 = s2) as ->.
  { destruct (cfg_ConnectorSecret cfg); [by apply sign_with_ok in Hct as [_ ?]|by injection Hct]. }
  rewrite <- Ha2 in Has. rewrite <- Hs2 in Hrow. clear Hct.
  assert (Hdone : ∀ r, lr_SessionID r = sid → lr_Action r = TrimSpace (in_Action input) →
    lr_ExpiresAt r = in_RequestedAt input + cfg_LaunchTokenTTL cfg → res = r → s' = s2 →
    (∀ t, launch_token r = Some t →
      Sign (cfg_LaunchTokenSecret cfg) (created_claims input sid (in_RequestedAt input + cfg_LaunchTokenTTL cfg)) = inl t
      ∧ (TrimSpace (in_Protocol input), TrimSpace (in_Action input), lr_AssetType r)
        ∈ [(ProtocolSSH, §"shell", TypeLinuxVM); (ProtocolSFTP, §"sftp", TypeLinuxVM); (ProtocolRedis, §"redis", TypeRedis)]) → launched cfg input s res s');
    [intros r Hr1 Hr2 Hr3 -> -> Hr4; exists cu, ca; rewrite Hr1; split_and!; [exact Hu|exact Ha|exact Hsid|exact Hex|exact Has|eauto|exact Hr2|exact Hr3|exact Hr4]|].
  do 3 (match type of Hrun with (if ?b then _ else _) _ = _ => destruct b eqn:E end;
    [apply andb_true_iff in E as [Ep Eact]; apply bool_decide_eq_true in Ep, Eact;
     apply bind_ok in Hrun as (t & s4 & Hsg & Hret); apply sign_with_ok in Hsg as [Hsg ->]; injection Hret as Hres Hst;
     refine (Hdone _ _ _ _ (eq_sym Hres) (eq_sym Hst) _); [done..|];
     intros t' [= <-]; split; [exact Hsg|]; rewrite Ep, Eact; by_text|clear E]).
  injection Hrun as Hres Hst. by refine (Hdone _ _ _ _ (eq_sym Hres) (eq_sym Hst) _).
Qed.
End SweepLemmas.

Section TokenFlow.
Context `{Unicode} `{Postgres} `{!PostgresLaws}.

Lemma created_claims_ok input sid expires :
  utf8_valid sid = true → utf8_valid (TrimSpace (in_UserID input)) = true →
  utf8_valid (TrimSpace (in_AssetID input)) = true → utf8_valid (TrimSpace (in_Action input)) = true →
  utf8_valid (TrimSpace (in_RequestID input)) = true → int64 (expires / 10 ^ 9) = true →
  launch_ok (created_claims input sid expires) = true.
Proof.
  unfold launch_ok, created_claims, claims_of.
  cbn [lc_SessionID lc_UserID lc_AssetID lc_Action lc_RequestID lc_ExpiresAt lc_Version].
  intros -> -> -> -> -> ->. by vm_compute.
Qed.

Lemma token_flow cfg input s res s1 t now a :
  CreateLaunch cfg input s = (Ok res, s1) → launch_token res = Some t → d_faults s1 = [] →
  pg_uuid (TrimSpace (in_UserID input)) = Some (TrimSpace (in_UserID input)) →
  pg_uuid (TrimSpace (in_AssetID input)) = Some (TrimSpace (in_AssetID input)) →
  d_assets s !! TrimSpace (in_AssetID input) = Some a → a_type a = lr_AssetType res →
  utf8_valid (TrimSpace (in_RequestID input)) = true →
  int64 (lr_ExpiresAt res / 10 ^ 9) = true → now < lr_ExpiresAt res / 10 ^ 9 →
  ∃ l s2, ResolveLaunchToken cfg now t s1 = (Ok l, s2)
    ∧ l_SessionID l = lr_SessionID res ∧ l_UserID l = TrimSpace (in_UserID input)
    ∧ l_AssetID l = TrimSpace (in_AssetID input) ∧ l_Action l = TrimSpace (in_Action input)
    ∧ l_Protocol l = TrimSpace (in_Protocol input) ∧ l_Status l = StatusPending
    ∧ l_Host l = a_host a ∧ l_Port l = a_port a.
Proof.
  intros Hc Ht Hf Hu Ha Has Hat Hrid Hint Hnow. apply CreateLaunch_ok in Hc.
  destruct Hc as (cu & ca & Hu' & Ha' & Hsid & _ & Hassets & (ip & at_ & Hrow) & Hact & Hexp & Htok).
  rewrite Hu in Hu'. injection Hu' as <-. rewrite Ha in Ha'. injection Ha' as <-.
  destruct (Htok t Ht) as [Hsign Hkind].
  destruct (pg_uuid_text _ _ Hu) as (_ & _ & Vu). destruct (pg_uuid_text _ _ Ha) as (_ & _ & Va).
  pose proof (pg_random_canonical (d_steps s)) as Hcan. rewrite <- Hsid in Hcan.
  destruct (pg_uuid_text _ _ Hcan) as (_ & _ & Vs). rewrite Hexp in *.
  set (c := created_claims input (lr_SessionID res) (in_RequestedAt input + cfg_LaunchTokenTTL cfg)) in *.
  assert (Vact : utf8_valid (TrimSpace (in_Action input)) = true).
  { repeat (apply elem_of_cons in Hkind as [[= _ -> _]|Hkind]; [by vm_compute|]). by apply elem_of_nil in Hkind. }
  assert (Hverify : Verify (cfg_LaunchTokenSecret cfg) now (TrimSpace t)
    = inl (LaunchClaims (lc_SessionID c) (lc_UserID c) (lc_AssetID c) (lc_Action c) (lc_RequestID c)
        (lc_ExpiresAt c) tokenVersion)).
  { rewrite (sign_trimmed _ _ _ Hsign), (verify_signed _ c) by (done || by apply created_claims_ok).
    change (lc_ExpiresAt c) with ((in_RequestedAt input + cfg_LaunchTokenTTL cfg) / 10 ^ 9).
    by rewrite (proj2 (Z.leb_gt _ _)). }
  unfold ResolveLaunchToken. rewrite Hverify. cbn [lc_SessionID].
  change (lc_SessionID c) with (lr_SessionID res).
  unfold bind, wrap_err, select_session. cbv beta. rewrite statement_clean, Hcan by done.
  change (d_sessions (tick s1)) with (d_sessions s1). change (d_assets (tick s1)) with (d_assets s1).
  rewrite Hrow. cbn [s_asset s_user]. rewrite Hassets, Has.
  assert (Hall : launch_allowed (context_of (lr_SessionID res, SessionRow (TrimSpace (in_UserID input))
      (TrimSpace (in_AssetID input)) (TrimSpace (in_Protocol input)) StatusPending
      (Some (§"action:" ++ TrimSpace (in_Action input))) ip None None at_, a))
      (LaunchClaims (lr_SessionID res) (lc_UserID c) (lc_AssetID c) (lc_Action c) (lc_RequestID c)
        (lc_ExpiresAt c) tokenVersion) = true).
  { unfold launch_allowed, context_of. cbn [l_UserID l_AssetID l_Action l_Protocol l_AssetType l_Status
      lc_UserID lc_AssetID lc_Action s_user s_asset s_reason s_protocol s_status default].
    unfold c, created_claims, claims_of. cbn [lc_UserID lc_AssetID lc_Action].
    pose proof (TrimPrefix_app §"action:" (TrimSpace (in_Action input))) as Htp. rewrite Hat.
    match goal with |- context [TrimPrefix ?x ?y] =>
      change (TrimPrefix x y) with (TrimPrefix (§"action:" ++ TrimSpace (in_Action input)) §"action:") end.
    rewrite Htp, !(bool_decide_true (_ = _)) by done. cbn [andb]. clear Htp.
    repeat (apply elem_of_cons in Hkind as [[= -> -> ->]|Hkind]; [by vm_compute|]).
    by apply elem_of_nil in Hkind. }
  rewrite Hall. cbn [negb]. eexists _, _. split; [done|].
  by split_and!.
Qed.
End TokenFlow.

(** * Properties *)

#[local] Existing Instance ascii_tables.

Section Samples.
(** A PostgreSQL for the witnesses: every non-blank trimmed UTF-8 text is a
    uuid, and it always draws the same one. *)
Definition sample_pg : Postgres := {|
  pg_uuid t := if bool_decide (t ≠ []) && bool_decide (TrimSpace t = t) && utf8_valid t then Some t else None;
  pg_random_uuid _ := §"s1";
  pg_now n := Z.of_nat n |}.
#[local] Existing Instance sample_pg.
Lemma sample_laws : PostgresLaws.
Proof.
  split.
  - intros t u. cbn. intros Hu. destruct (_ && _) eqn:E in Hu; [|done]. injection Hu as <-. by rewrite E.
  - intros t u. cbn. intros Hu. destruct (_ && _) eqn:E in Hu; [|done]. injection Hu as <-. by gobool.
  - intros n. by vm_compute.
Qed.
Definition sample_cfg : Config := {|
  cfg_LaunchTokenSecret := §"secret"; cfg_LaunchTokenTTL := 300 * 10 ^ 9; cfg_ConnectorSecret := None;
  cfg_MaterializeTimeout := 45 * 10 ^ 9; cfg_ProxyHost := §"pam.example"; cfg_ProxyPort := 2222;
  cfg_ProxyUsername := §"accessd" |}.
Definition sample_input : CreateLaunchInput := {|
  in_UserID := §"u1"; in_AssetID := §"a1"; in_Action := §"shell"; in_Protocol := §"ssh";
  in_RequestID := §"rq"; in_ClientIP := §"10.1.2.3:5000"; in_UserAgent := §"curl";
  in_RequestedAt := 1700000000 * 10 ^ 9 |}.
Definition sample_db : db :=
  Db {[§"u1"]} {[§"a1" := Asset §"vm" TypeLinuxVM §"10.0.0.9" 22]} ∅ [] [] 0 [].
Definition sample_context : LaunchContext := {|
  l_SessionID := §"s1"; l_UserID := §"u1"; l_AssetID := §"a1"; l_AssetName := §"vm"; l_RequestID := §"rq";
  l_Action := §"shell"; l_Protocol := §"ssh"; l_AssetType := TypeLinuxVM; l_Host := §"10.0.0.9"; l_Port := 22;
  l_UpstreamUsername := §"root"; l_Status := StatusPending; l_ExpiresAt := 0 |}.
Definition sample_result : LaunchResult :=
  match (CreateLaunch sample_cfg sample_input sample_db).1 with
  | Ok r => r
  | _ => {| lr_SessionID := []; lr_Action := []; lr_AssetType := []; lr_LaunchType := []; lr_ExpiresAt := 0;
            lr_ConnectorToken := []; lr_Shell := None; lr_SFTP := None; lr_DBeaver := None; lr_Redis := None |}
  end.
Definition sample_launched : db := (CreateLaunch sample_cfg sample_input sample_db).2.
Definition sample_token : bytes := default [] (launch_token sample_result).
(** The tables with one launched session. *)
Definition sample_pending_db : db :=
  Db {[§"u1"]} {[§"a1" := Asset §"vm" TypeLinuxVM §"10.0.0.9" 22]}
     {[§"s1" := SessionRow §"u1" §"a1" §"ssh" StatusPending (Some §"action:shell") None None None 3]}
     [] [] 7 [].
End Samples.

(** The documented timeout of launches that do not materialise never
    fires: in every history of calls whose statements all reach the database,
    from an empty one, a launch the connector confirmed is no longer pending
    (the confirmation itself makes the session active), so the sweep, which
    asks for pending sessions with a confirmation, marks nothing and changes
    nothing. *)
Theorem sweep_never_marks `{Unicode} `{Postgres} `{!PostgresLaws} cfg ops s0 now timeout limit :
  d_sessions s0 = ∅ → d_events s0 = [] → d_faults s0 = [] →
  let s := history cfg ops s0 in
  ∃ s', FailUnmaterializedConnectorLaunches cfg now timeout limit s = (Ok 0, s')
    ∧ d_sessions s' = d_sessions s ∧ d_events s' = d_events s ∧ d_audit s' = d_audit s.
Proof.
  intros Hs He Hf s. exists (tick s). split; [|done]. apply sweep_nothing, settled_history.
  split; [done|..]; rewrite He.
  - by intros e ?%elem_of_nil.
  - by intros e r ?%elem_of_nil.
Qed.

Lemma sweep_never_marks_witness :
  let ops := [OpCreateLaunch sample_input;
              OpConnectorEvent §"s1" §"u1" EventConnectorSuccess ∅] in
  let s := @history ascii_tables sample_pg sample_cfg ops sample_db in
  ∃ s', @FailUnmaterializedConnectorLaunches sample_pg sample_cfg (10 ^ 20) (45 * 10 ^ 9) 200 s = (Ok 0, s')
    ∧ d_sessions s' = d_sessions s ∧ d_events s' = d_events s ∧ d_audit s' = d_audit s.
Proof.
  intros ops. exact (@sweep_never_marks ascii_tables sample_pg sample_laws sample_cfg ops sample_db
    (10 ^ 20) (45 * 10 ^ 9) 200 eq_refl eq_refl eq_refl).
Defined.

(** A launch ends in a usable token: when [CreateLaunch] succeeds for an
    asset of the type that goes with the protocol (and canonical ids), the
    token it puts in the payload resolves, until it expires, to the context of
    exactly that launch, with the host and port of the asset. *)
Theorem launch_token_resolves `{Unicode} `{Postgres} `{!PostgresLaws} cfg input s res s1 t now a :
  CreateLaunch cfg input s = (Ok res, s1) → launch_token res = Some t → d_faults s1 = [] →
  pg_uuid (TrimSpace (in_UserID input)) = Some (TrimSpace (in_UserID input)) →
  pg_uuid (TrimSpace (in_AssetID input)) = Some (TrimSpace (in_AssetID input)) →
  d_assets s !! TrimSpace (in_AssetID input) = Some a → a_type a = lr_AssetType res →
  utf8_valid (TrimSpace (in_RequestID input)) = true →
  int64 (lr_ExpiresAt res / 10 ^ 9) = true → now < lr_ExpiresAt res / 10 ^ 9 →
  ∃ l s2, ResolveLaunchToken cfg now t s1 = (Ok l, s2)
    ∧ l_SessionID l = lr_SessionID res ∧ l_UserID l = TrimSpace (in_UserID input)
    ∧ l_AssetID l = TrimSpace (in_AssetID input) ∧ l_Action l = TrimSpace (in_Action input)
    ∧ l_Protocol l = TrimSpace (in_Protocol input) ∧ l_Status l = StatusPending
    ∧ l_Host l = a_host a ∧ l_Port l = a_port a.
Proof. apply token_flow. Qed.

Lemma launch_token_resolves_witness :
  ∃ l s2, @ResolveLaunchToken ascii_tables sample_pg sample_cfg 1700000100 sample_token sample_launched = (Ok l, s2)
    ∧ l_SessionID l = lr_SessionID sample_result ∧ l_UserID l = TrimSpace (in_UserID sample_input)
    ∧ l_AssetID l = TrimSpace (in_AssetID sample_input) ∧ l_Action l = TrimSpace (in_Action sample_input)
    ∧ l_Protocol l = TrimSpace (in_Protocol sample_input) ∧ l_Status l = StatusPending
    ∧ l_Host l = §"10.0.0.9" ∧ l_Port l = 22.
Proof.
  refine (@launch_token_resolves ascii_tables sample_pg sample_laws sample_cfg sample_input sample_db
    sample_result sample_launched sample_token 1700000100 (Asset §"vm" TypeLinuxVM §"10.0.0.9" 22)
    _ _ _ _ _ _ _ _ _ _); vm_compute; reflexivity.
Defined.



(** The tables only grow, in every history of calls and with every fault
    schedule: events and audit entries are appended and never changed or
    removed, no session disappears or changes user, asset, protocol or reason,
    a start time once set stays, and no session goes back to pending. *)
Theorem history_only_grows `{Unicode} `{Postgres} cfg ops s : grows s (history cfg ops s).
Proof. by apply (keep_history grows (λ _, True) (λ _ _, I)). Qed.

(** Every session row stays well-formed: from well-formed tables, every
    history of calls, with every fault schedule, leads to tables where pending
    sessions have no start and no end, active and completed ones a start,
    completed and failed ones an end, and every event and audit entry refers to
    an existing session and user. *)
Theorem history_keeps_tables_well_formed `{Unicode} `{Postgres} cfg ops s :
  wf s → wf (history cfg ops s).
Proof. by apply (keep_history (λ s s', wf s → wf s') (λ _, True) (λ _ _, I)). Qed.

Lemma history_keeps_tables_well_formed_witness :
  wf sample_db ∧ wf (@history ascii_tables sample_pg sample_cfg
    [OpCreateLaunch sample_input; OpShellStarted sample_context; OpEnded sample_context §"logout"] sample_db).
Proof.
  assert (Hwf : wf sample_db).
  { split; [intros id r Hr; change (d_sessions sample_db) with (∅ : gmap bytes session_row) in Hr;
      by rewrite lookup_empty in Hr|by intros e ?%elem_of_nil..]. }
  split; [exact Hwf|].
  exact (@history_keeps_tables_well_formed ascii_tables sample_pg sample_cfg _ sample_db Hwf).
Defined.

(** Marks that report success are on record: the row has the new status,
    exactly one event and one audit entry were appended, of the session and of
    the right types, and the audit entry names the protocol's upstream
    authentication.  With any fault schedule. *)
Theorem marks_are_recorded `{Unicode} `{Postgres} `{!PostgresLaws} l reason s s' :
  pg_uuid (l_SessionID l) = Some (l_SessionID l) →
  (MarkShellStarted l s = (Ok tt, s') →
     recorded s s' l StatusActive EventShellStarted auditEventSessionOpen §"success")
  ∧ (MarkEnded l reason s = (Ok tt, s') →
     recorded s s' l StatusCompleted EventSessionEnded auditEventSessionDone §"success")
  ∧ (MarkFailed l reason s = (Ok tt, s') →
     recorded s s' l StatusFailed EventSessionFailed auditEventSessionDone §"failed").
Proof.
  intros Hid. split_and!; intros Hm.
  - apply (mark_ok _ _ _ _ _ _ _ _ _ _ _ _ _ Hid) in Hm; [done|by vm_compute|apply lookup_empty].
  - apply (mark_ok _ _ _ _ _ _ _ _ _ _ _ _ _ Hid) in Hm; [done|by vm_compute|apply reason_meta].
  - apply (mark_ok _ _ _ _ _ _ _ _ _ _ _ _ _ Hid) in Hm; [done|by vm_compute|apply reason_meta].
Qed.

Lemma marks_are_recorded_witness :
  let s' := (@MarkEnded sample_pg sample_context §"logout" sample_pending_db).2 in
  recorded sample_pending_db s' sample_context StatusCompleted EventSessionEnded auditEventSessionDone §"success".
Proof.
  intros s'. refine (proj1 (proj2 (@marks_are_recorded ascii_tables sample_pg sample_laws sample_context
    §"logout" sample_pending_db s' _)) (run_ok _ _ tt _)); vm_compute; reflexivity.
Defined.

(** A session that has ended comes back: the marks do not look at the
    status, so a second connection of the session that starts its shell after
    the first one ended makes the completed session active again, with the end
    time still there. *)
Theorem completed_session_is_revived `{Unicode} `{Postgres} `{!PostgresLaws} l reason s r :
  d_faults s = [] → pg_uuid (l_SessionID l) = Some (l_SessionID l) →
  d_sessions s !! l_SessionID l = Some r →
  let s1 := (MarkEnded l reason s).2 in
  let s2 := (MarkShellStarted l s1).2 in
  (∃ r1, d_sessions s1 !! l_SessionID l = Some r1 ∧ s_status r1 = StatusCompleted)
  ∧ ∃ r2, d_sessions s2 !! l_SessionID l = Some r2 ∧ s_status r2 = StatusActive ∧ is_Some (s_ended r2).
Proof.
  intros Hf Hid Hr s1 s2.
  destruct (mark_sessions l §"mark session completed" StatusCompleted true true EventSessionEnded
    (auditIdentityMetadata l ∪ {[§"reason" := JStr (TrimSpace reason)]} ∪ request_id l)
    auditEventSessionDone (sessionEndAuditAction (l_Action l)) §"success"
    {[§"reason" := JStr (TrimSpace reason)]} s Hf Hid) as [Hf1 Hr1]. specialize (Hr1 r Hr).
  fold (MarkEnded l reason) in Hf1, Hr1. fold s1 in Hf1, Hr1.
  destruct (mark_sessions l §"mark session active" StatusActive true false EventShellStarted
    (auditIdentityMetadata l ∪ {[§"protocol" := JStr (l_Protocol l)]}
     ∪ {[§"action" := JStr (l_Action l)]} ∪ request_id l)
    auditEventSessionOpen (ProtocolAwareAction (l_Action l) (l_Protocol l) (l_Action l)) §"success" ∅ s1 Hf1 Hid)
    as [Hf2 Hr2]. specialize (Hr2 _ Hr1). fold (MarkShellStarted l) in Hr2. fold s2 in Hr2.
  split; eexists; by split_and!.
Qed.

Lemma completed_session_is_revived_witness :
  let s1 := (@MarkEnded sample_pg sample_context §"logout" sample_pending_db).2 in
  let s2 := (@MarkShellStarted sample_pg sample_context s1).2 in
  (∃ r1, d_sessions s1 !! §"s1" = Some r1 ∧ s_status r1 = StatusCompleted)
  ∧ ∃ r2, d_sessions s2 !! §"s1" = Some r2 ∧ s_status r2 = StatusActive ∧ is_Some (s_ended r2).
Proof.
  refine (@completed_session_is_revived ascii_tables sample_pg sample_laws sample_context §"logout"
    sample_pending_db
    (SessionRow §"u1" §"a1" §"ssh" StatusPending (Some §"action:shell") None None None 3)
    _ _ _); vm_compute; reflexivity.
Defined.
