(* ===== verification/PgServer.v ===== *)
(** PostgreSQL as the services that keep their rows in it see it: a server over
    tables of any type.

    As in Store.v its clock, the uuids it draws and how it reads one are the
    class [Postgres]; how it reads an inet, its [lower()], its text order and its
    jsonb are [PostgresText].  A statement is one atomic step and may fail by the fault
    schedule; inside a transaction [NOW()] is the time it began, and an error
    discards what the transaction wrote.  A text parameter must be UTF-8 without
    a zero byte, which the server documents and refuses otherwise. *)
From S2P Require Import Prelude GoStrings GoEncoding Store.

Class PostgresText := {
  pg_inet : bytes → option bytes;
  pg_lower : bytes → bytes;
  pg_text_le : bytes → bytes → bool;
  (** The text of a jsonb value, by that of its literal. *)
  pg_jsonb : bytes → option bytes;
}.

Definition pg_text (s : bytes) : bool := utf8_valid s && bool_decide (z2b 0 ∉ s).

(** A database over some tables, the numbers of its statements, the faults to
    come, and the time the open transaction began. *)
Record server (T : Type) := PgStore {
  pg_tables : T;
  pg_steps : nat;
  pg_faults : list (option fault);
  pg_began : option Z;
}.
Arguments PgStore {T}.
Arguments pg_tables {T}.
Arguments pg_steps {T}.
Arguments pg_faults {T}.
Arguments pg_began {T}.

Definition pg_bad_text : error := ErrVar §"pgx: invalid byte sequence".
Definition pg_no_rows : error := ErrVar §"pgx.ErrNoRows".

Section Queries.
Context `{Postgres, PostgresText}.

Definition pg_clock {T} (s : server T) : Z := default (pg_now (pg_steps s)) (pg_began s).

(** One statement: [q] gets the time, a number of its own and the tables. *)
Definition query {T A} (q : Z → nat → T → (A * T) + error) : M (server T) A := λ s,
  let s1 t := PgStore t (S (pg_steps s)) (tail (pg_faults s)) (pg_began s) in
  match mjoin (head (pg_faults s)) with
  | Some (LostBefore e) => (Err e, s1 (pg_tables s))
  | f => match q (pg_clock s) (pg_steps s) (pg_tables s) with
         | inr e => (Err e, s1 (pg_tables s))
         | inl (a, t) => match f with
                         | Some (LostAfter e) => (Err e, s1 t)
                         | _ => (Ok a, s1 t)
                         end
         end
  end.

(** [QueryRow]: no row is an error of its own. *)
Definition query_row {T A} (q : T → option A + error) : M (server T) A :=
  query (λ _ _ t, match q t with
                  | inr e => inr e
                  | inl None => inr pg_no_rows
                  | inl (Some a) => inl (a, t)
                  end).

(** [Begin], the body, [Commit], with [defer tx.Rollback]: the three errors
    are wrapped by the caller's texts. *)
Definition set_began {T} (b : option Z) (s : server T) : server T :=
  PgStore (pg_tables s) (pg_steps s) (pg_faults s) b.
Definition transaction {T A} (begin_msg commit_msg : bytes) (body : M (server T) A) : M (server T) A := λ s,
  match wrap_err begin_msg (query (λ now _ t, inl (now, t))) s with
  | (Ok now, s1) =>
      let abort s2 := PgStore (pg_tables s) (pg_steps s2) (pg_faults s2) None in
      match body (set_began (Some now) s1) with
      | (Ok a, s2) =>
          match mjoin (head (pg_faults s2)) with
          | Some (LostBefore e) =>
              (Err (Wrap commit_msg e), PgStore (pg_tables s) (S (pg_steps s2)) (tail (pg_faults s2)) None)
          | Some (LostAfter e) =>
              (Err (Wrap commit_msg e), PgStore (pg_tables s2) (S (pg_steps s2)) (tail (pg_faults s2)) None)
          | None => (Ok a, PgStore (pg_tables s2) (S (pg_steps s2)) (tail (pg_faults s2)) None)
          end
      | (Err e, s2) => (Err e, abort s2)
      | (Panic w, s2) => (Panic w, abort s2)
      | (OutOfFuel, s2) => (OutOfFuel, abort s2)
      end
  | (Err e, s1) => (Err e, s1)
  | (Panic w, s1) => (Panic w, s1)
  | (OutOfFuel, s1) => (OutOfFuel, s1)
  end.

(** The rows of a query in the server's text order, without repetitions when
    [DISTINCT]. *)
Fixpoint insert_text {A} (key : A → bytes) (x : A) (l : list A) : list A :=
  match l with
  | [] => [x]
  | y :: t => if pg_text_le (key y) (key x) then y :: insert_text key x t else x :: l
  end.
Definition order_text {A} (key : A → bytes) (l : list A) : list A :=
  fold_left (λ acc x, insert_text key x acc) l [].

End Queries.

Lemma insert_text_perm `{PostgresText} {A} (key : A → bytes) x l : insert_text key x l ≡ₚ x :: l.
Proof.
  induction l as [|y l IH]; [done|]. cbn. destruct (pg_text_le _ _); [|done].
  rewrite IH. by constructor.
Qed.

Lemma order_text_perm `{PostgresText} {A} (key : A → bytes) (l : list A) : order_text key l ≡ₚ l.
Proof.
  unfold order_text. rewrite <- (app_nil_r l) at 2. generalize (@nil A).
  induction l as [|x l IH]; intros acc; [done|]. cbn. rewrite IH, insert_text_perm.
  by rewrite Permutation_middle.
Qed.

(** ** Runs without faults *)

Lemma query_clean `{Postgres} {T A} (q : Z → nat → T → (A * T) + error) s :
  pg_faults s = [] →
  query q s = match q (pg_clock s) (pg_steps s) (pg_tables s) with
              | inr e => (Err e, PgStore (pg_tables s) (S (pg_steps s)) [] (pg_began s))
              | inl (a, t) => (Ok a, PgStore t (S (pg_steps s)) [] (pg_began s))
              end.
Proof. intros Hf. unfold query. rewrite Hf. cbn. by destruct (q _ _ _) as [[]|]. Qed.

Lemma query_ok `{Postgres} {T A} (q : Z → nat → T → (A * T) + error) s a s' :
  query q s = (Ok a, s') → q (pg_clock s) (pg_steps s) (pg_tables s) = inl (a, pg_tables s').
Proof.
  unfold query. destruct (mjoin _) as [[]|]; [done| |];
    destruct (q _ _ _) as [[]|]; intros; by simplify_eq/=.
Qed.

(** What a statement leaves behind is its own doing or nothing. *)
Lemma query_tables `{Postgres} {T A} (q : Z → nat → T → (A * T) + error) s :
  pg_tables (query q s).2 = pg_tables s ∨
  ∃ a, q (pg_clock s) (pg_steps s) (pg_tables s) = inl (a, pg_tables (query q s).2).
Proof.
  unfold query. destruct (mjoin _) as [[]|]; [by left| |];
    destruct (q _ _ _) as [[a t]|]; [right; by exists a|by left|right; by exists a|by left].
Qed.

Lemma query_run `{Postgres} {T A} (q : Z → nat → T → (A * T) + error) s o s' :
  query q s = (o, s') → pg_tables s' = pg_tables s ∨
  ∃ a, q (pg_clock s) (pg_steps s) (pg_tables s) = inl (a, pg_tables s').
Proof. intros E. pose proof (query_tables q s) as Ht. by rewrite E in Ht. Qed.

(** A statement had no effect and no result, or the effect and the result [q]
    gives, the result unless the answer was lost. *)
Lemma query_effect `{Postgres} {T A} (q : Z → nat → T → (A * T) + error) s o s' :
  query q s = (o, s') →
  (pg_tables s' = pg_tables s ∧ ∀ a, o ≠ Ok a) ∨
  ∃ a, q (pg_clock s) (pg_steps s) (pg_tables s) = inl (a, pg_tables s') ∧ ∀ a', o = Ok a' → a' = a.
Proof.
  unfold query. destruct (mjoin _) as [[]|].
  - intros [= <- <-]. by left.
  - destruct (q _ _ _) as [[a t]|]; intros [= <- <-]; [right|by left]. by exists a.
  - destruct (q _ _ _) as [[a t]|]; intros [= <- <-]; [right|by left]. exists a. by split; [|intros ? [=]].
Qed.

(** * An instance for the witnesses: any trimmed UTF-8 text is a uuid and an
    inet, the clock is the statement's number, and texts are in length order. *)
Definition demo_pg : Postgres := {|
  pg_uuid t := if bool_decide (t ≠ []) && bool_decide (TrimSpace t = t) && utf8_valid t then Some t else None;
  pg_random_uuid _ := §"n1";
  pg_now n := Z.of_nat n |}.
Definition demo_pg_text : PostgresText := {|
  pg_inet t := Some t;
  pg_lower t := map lower_byte t;
  pg_text_le s t := zlen s <=? zlen t;
  pg_jsonb t := Some t |}.
Lemma demo_pg_laws : @PostgresLaws demo_pg.
Proof.
  split.
  - intros t u. cbn. intros Hu. destruct (_ && _) eqn:E in Hu; [|done]. injection Hu as <-. by rewrite E.
  - intros t u. cbn. intros Hu. destruct (_ && _) eqn:E in Hu; [|done]. injection Hu as <-. by gobool.
  - intros n. by vm_compute.
Qed.
