(* ===== verification/Identity.v ===== *)
(** The identity database: the tables behind apps/api/internal/auth,
    apps/api/internal/access, apps/api/internal/assets and
    apps/api/internal/credentials (apps/api/migrations/000001, 000002, 000003
    and 000006 to 000008), and the audit statement they share.

    They are the tables of a PgServer.v server; a jsonb string must not hold a
    zero byte, which PostgreSQL documents and refuses. *)
From S2P Require Import Prelude GoStrings GoEncoding Store PgServer.

(** A string as [json.Marshal] writes it and jsonb reads it back: each byte that
    is not part of a UTF-8 sequence is U+FFFD. *)
Fixpoint json_runes (fuel : nat) (s : bytes) : bytes :=
  match fuel, s with
  | S fuel', _ :: s' =>
      match rune_len s with
      | Some n => take n s ++ json_runes fuel' (drop n s)
      | None => rune_error ++ json_runes fuel' s'
      end
  | _, _ => []
  end.
Definition json_text (s : bytes) : bytes := json_runes (length s) s.

Record user_row := UserRow {
  u_username : bytes;
  u_email : option bytes;
  u_display_name : option bytes;
  u_is_active : bool;
  u_auth_provider : bytes;
  u_password_hash : option bytes;
  u_created_at : Z;
  u_last_login_at : option Z;
}.
Record auth_session_row := AuthSession {
  as_user : bytes;
  as_expires_at : Z;
  as_revoked_at : option Z;
  as_last_seen_at : option Z;
}.
Record grant_row := GrantRow { g_effect : bytes; g_created_by : option bytes; g_created_at : Z }.
(** The unique key of a grant: subject type, subject, asset, action. *)
Record grant_key := GrantKey { g_type : bytes; g_subject : bytes; g_asset : bytes; g_action : bytes }.
Record point_row := PointRow {
  p_name : bytes;
  p_type : bytes;
  p_host : bytes;
  p_port : Z;
  p_metadata : bytes;
  p_status : bytes;
  p_created_by : option bytes;
  p_created_at : Z;
}.
Record credential_row := CredentialRow {
  cr_id : bytes;
  cr_algorithm : bytes;
  cr_key_id : bytes;
  cr_nonce : bytes;
  cr_encrypted : bytes;
  cr_aad : bytes;
  cr_metadata : bytes;
  cr_username : option bytes;
  cr_created_by : option bytes;
  cr_created_at : Z;
  cr_updated_at : Z;
  cr_last_rotated_at : option Z;
}.
Record group_row := GroupRow { gr_name : bytes; gr_description : option bytes }.
Record ldap_row := LdapRow {
  lr_provider_mode : bytes;
  lr_enabled : bool;
  lr_host : bytes;
  lr_port : Z;
  lr_url : bytes;
  lr_base_dn : bytes;
  lr_bind_dn : bytes;
  lr_bind_password : bytes;
  lr_user_search_filter : bytes;
  lr_username_attribute : bytes;
  lr_display_name_attribute : bytes;
  lr_surname_attribute : bytes;
  lr_email_attribute : bytes;
  lr_ssh_key_attribute : bytes;
  lr_avatar_attribute : bytes;
  lr_group_search_base_dn : bytes;
  lr_group_search_filter : bytes;
  lr_group_name_attribute : bytes;
  lr_group_role_mapping : bytes;
  lr_ca_cert_pem : bytes;
  lr_use_tls : bool;
  lr_start_tls : bool;
  lr_insecure_skip_verify : bool;
}.
Record login_audit_row := LoginAudit {
  la_type : bytes;
  la_action : bytes;
  la_outcome : bytes;
  la_actor : option bytes;
  la_asset : option bytes;
  la_source_ip : option bytes;
  la_user_agent : bytes;
  la_metadata : gmap bytes json;
}.

#[export] Instance grant_key_eq_dec : EqDecision grant_key.
Proof. solve_decision. Defined.
#[export] Program Instance grant_key_countable : Countable grant_key :=
  inj_countable' (λ k, (g_type k, g_subject k, g_asset k, g_action k))
    (λ p, let '(a, b, c, d) := p in GrantKey a b c d) _.
Next Obligation. by intros []. Qed.

Record tables := Tables {
  t_users : gmap bytes user_row;
  t_roles : gmap bytes bytes;
  t_user_roles : gset (bytes * bytes);
  t_user_groups : gset (bytes * bytes);
  t_assets : gmap bytes point_row;
  t_grants : gmap grant_key grant_row;
  t_auth_sessions : gmap bytes auth_session_row;
  t_ldap_settings : option ldap_row;
  t_audit_events : list login_audit_row;
  (** By asset and credential type, which are unique together. *)
  t_credentials : gmap (bytes * bytes) credential_row;
  t_groups : gmap bytes group_row;
}.

Definition with_users t x := Tables x (t_roles t) (t_user_roles t) (t_user_groups t) (t_assets t)
  (t_grants t) (t_auth_sessions t) (t_ldap_settings t) (t_audit_events t) (t_credentials t)
  (t_groups t).
Definition with_roles t x := Tables (t_users t) x (t_user_roles t) (t_user_groups t) (t_assets t)
  (t_grants t) (t_auth_sessions t) (t_ldap_settings t) (t_audit_events t) (t_credentials t)
  (t_groups t).
Definition with_user_roles t x := Tables (t_users t) (t_roles t) x (t_user_groups t) (t_assets t)
  (t_grants t) (t_auth_sessions t) (t_ldap_settings t) (t_audit_events t) (t_credentials t)
  (t_groups t).
Definition with_user_groups t x := Tables (t_users t) (t_roles t) (t_user_roles t) x (t_assets t)
  (t_grants t) (t_auth_sessions t) (t_ldap_settings t) (t_audit_events t) (t_credentials t)
  (t_groups t).
Definition with_assets t x := Tables (t_users t) (t_roles t) (t_user_roles t) (t_user_groups t) x
  (t_grants t) (t_auth_sessions t) (t_ldap_settings t) (t_audit_events t) (t_credentials t)
  (t_groups t).
Definition with_grants t x := Tables (t_users t) (t_roles t) (t_user_roles t) (t_user_groups t)
  (t_assets t) x (t_auth_sessions t) (t_ldap_settings t) (t_audit_events t) (t_credentials t)
  (t_groups t).
Definition with_auth_sessions t x := Tables (t_users t) (t_roles t) (t_user_roles t)
  (t_user_groups t) (t_assets t) (t_grants t) x (t_ldap_settings t) (t_audit_events t)
  (t_credentials t) (t_groups t).
Definition with_ldap_settings t x := Tables (t_users t) (t_roles t) (t_user_roles t)
  (t_user_groups t) (t_assets t) (t_grants t) (t_auth_sessions t) x (t_audit_events t)
  (t_credentials t) (t_groups t).
Definition with_audit_events t x := Tables (t_users t) (t_roles t) (t_user_roles t)
  (t_user_groups t) (t_assets t) (t_grants t) (t_auth_sessions t) (t_ldap_settings t) x
  (t_credentials t) (t_groups t).
Definition with_credentials t x := Tables (t_users t) (t_roles t) (t_user_roles t) (t_user_groups t)
  (t_assets t) (t_grants t) (t_auth_sessions t) (t_ldap_settings t) (t_audit_events t) x
  (t_groups t).

(** The identity database. *)
Abbreviation store := (server tables).

(** [INSERT INTO access_grants ... VALUES (..., 'allow', ...) ON CONFLICT ... DO
    UPDATE SET effect = 'allow', created_by = EXCLUDED.created_by]. *)
Definition allow_grant (t : tables) (now : Z) (k : grant_key) (by_ : option bytes) : tables :=
  with_grants t (<[k := GrantRow §"allow" by_ (match t_grants t !! k with Some r => g_created_at r | None => now end)]>
    (t_grants t)).

Section Queries.
Context `{Postgres, PostgresText}.

(** [INSERT INTO audit_events (...) VALUES (..., NULLIF($5, '')::inet, ...)]:
    the actor's uuid and the address are read by the server, and the metadata's
    strings are text inside a jsonb value. *)
Definition insert_audit_event (type action outcome : bytes) (actor : option bytes)
    (source_ip user_agent : bytes) (metadata : gmap bytes bytes) : M store unit :=
  query (λ _ _ t,
    match (match actor with Some a => Some <$> pg_uuid a | None => Some None end),
          (if bool_decide (source_ip = []) then Some None else Some <$> pg_inet source_ip) with
    | Some act, Some ip =>
        if forallb (λ p, bool_decide (z2b 0 ∉ p.2)) (map_to_list metadata) && pg_text user_agent
        then if match act with Some a => bool_decide (is_Some (t_users t !! a)) | None => true end
             then inl (tt, with_audit_events t (t_audit_events t ++
                    [LoginAudit type action outcome act None ip user_agent ((λ v, JStr (json_text v)) <$> metadata)]))
             else inr pg_constraint
        else inr pg_bad_text
    | _, _ => inr pg_bad_uuid
    end).
End Queries.

