(* ===== verification/RateLimiter.v ===== *)
(** The login rate limiter: apps/api/internal/auth/rate_limiter.go.

    A limiter keeps, per key, the times of the failures it has not yet pruned.
    Every method holds the mutex for its whole body and reads the clock inside,
    so a history is a sequence of whole operations at times that do not go back
    ([time.Now] has a monotonic reading, which [Before] compares).

    The contract is the abstract one of the source's comment: a key is blocked
    when at least [max] failures since its last reset are inside the window.
    The limiter refines it, whatever is pruned, asked or cleaned in between. *)
From stdpp Require Import sorting.
From S2P Require Import Prelude.

Record LoginRateLimiter := RateLimiter {
  rl_attempts : gmap bytes (list Z);
  rl_window : Z;
  rl_max : Z;
}.

Definition NewLoginRateLimiter (window maxAttempts : Z) : LoginRateLimiter :=
  let window := if window <=? 0 then 5 * 60 * 10 ^ 9 else window in
  let maxAttempts := if maxAttempts <=? 0 then 10 else maxAttempts in
  RateLimiter ∅ window maxAttempts.

(** The loop [for start < len(entries) && entries[start].Before(cutoff)]. *)
Fixpoint prune_start (entries : list Z) (cutoff : Z) : nat :=
  match entries with
  | t :: rest => if t <? cutoff then S (prune_start rest cutoff) else 0
  | [] => 0
  end.
Definition pruneLockedUnsafe (rl : LoginRateLimiter) (key : bytes) (now : Z) : list Z :=
  let entries := default [] (rl_attempts rl !! key) in
  let start := prune_start entries (now - rl_window rl) in
  if (start =? 0)%nat then entries else drop start entries.

Definition set_attempts (rl : LoginRateLimiter) (m : gmap bytes (list Z)) : LoginRateLimiter :=
  RateLimiter m (rl_window rl) (rl_max rl).

Definition RecordFailure (key : bytes) (now : Z) (rl : LoginRateLimiter) : LoginRateLimiter :=
  set_attempts rl (<[key := pruneLockedUnsafe rl key now ++ [now]]> (rl_attempts rl)).

Definition IsBlocked (key : bytes) (now : Z) (rl : LoginRateLimiter) : bool * LoginRateLimiter :=
  let recent := pruneLockedUnsafe rl key now in
  (rl_max rl <=? zlen recent, set_attempts rl (<[key := recent]> (rl_attempts rl))).

Definition Reset (key : bytes) (rl : LoginRateLimiter) : LoginRateLimiter :=
  set_attempts rl (delete key (rl_attempts rl)).

(** One turn of the loop over the map's keys; Go does not fix their order. *)
Definition cleanup_key (now : Z) (rl : LoginRateLimiter) (key : bytes) : LoginRateLimiter :=
  let recent := pruneLockedUnsafe rl key now in
  if bool_decide (recent = []) then set_attempts rl (delete key (rl_attempts rl))
  else set_attempts rl (<[key := recent]> (rl_attempts rl)).
Definition cleanup_keys (keys : list bytes) (now : Z) (rl : LoginRateLimiter) : LoginRateLimiter :=
  fold_left (cleanup_key now) keys rl.
Definition Cleanup (now : Z) (rl : LoginRateLimiter) : LoginRateLimiter :=
  cleanup_keys (map fst (map_to_list (rl_attempts rl))) now rl.

(** * Histories and the abstract limiter *)

Inductive rl_op :=
| OpFailure (key : bytes)
| OpAsk (key : bytes)
| OpReset (key : bytes)
| OpCleanup.

Definition rl_apply (rl : LoginRateLimiter) (e : Z * rl_op) : LoginRateLimiter :=
  match e.2 with
  | OpFailure k => RecordFailure k e.1 rl
  | OpAsk k => (IsBlocked k e.1 rl).2
  | OpReset k => Reset k rl
  | OpCleanup => Cleanup e.1 rl
  end.
Definition rl_run (rl : LoginRateLimiter) (h : list (Z * rl_op)) : LoginRateLimiter :=
  fold_left rl_apply h rl.

(** What the limiter promises: the failures of a key since its last reset. *)
Fixpoint failures_since_reset (key : bytes) (acc : list Z) (h : list (Z * rl_op)) : list Z :=
  match h with
  | [] => acc
  | (t, OpFailure k) :: h' =>
      failures_since_reset key (if bool_decide (k = key) then acc ++ [t] else acc) h'
  | (_, OpReset k) :: h' => failures_since_reset key (if bool_decide (k = key) then [] else acc) h'
  | _ :: h' => failures_since_reset key acc h'
  end.
Definition within (window now : Z) (times : list Z) : list Z := filter (λ t, now - window <= t) times.

(** The clock never goes back over a history and up to [now]. *)
Fixpoint clock_ok (from : Z) (h : list (Z * rl_op)) (now : Z) : bool :=
  match h with
  | [] => from <=? now
  | (t, _) :: h' => (from <=? t) && clock_ok t h' now
  end.

(** * Pruning *)

Lemma prune_is_drop rl key now :
  pruneLockedUnsafe rl key now =
  drop (prune_start (default [] (rl_attempts rl !! key)) (now - rl_window rl))
       (default [] (rl_attempts rl !! key)).
Proof.
  unfold pruneLockedUnsafe. by destruct (prune_start _ _).
Qed.

Lemma filter_keeps_all {A} (P : A → Prop) `{∀ x, Decision (P x)} (l : list A) :
  (∀ x, x ∈ l → P x) → filter P l = l.
Proof.
  induction l as [|x l IH]; intros Hl; [done|].
  rewrite filter_cons_True by (apply Hl; set_solver). f_equal. apply IH. set_solver.
Qed.

Lemma sorted_filter (P : Z → Prop) `{∀ x, Decision (P x)} (l : list Z) :
  StronglySorted Z.le l → StronglySorted Z.le (filter P l).
Proof.
  induction 1 as [|x l Hs IH Hall]; [constructor|].
  rewrite filter_cons. case_decide; [|done].
  constructor; [done|]. apply Forall_forall. intros y Hy. apply list_elem_of_filter in Hy as [_ Hy].
  rewrite Forall_forall in Hall. by apply Hall.
Qed.

Lemma drop_prune_start entries cutoff :
  StronglySorted Z.le entries →
  drop (prune_start entries cutoff) entries = filter (λ t, cutoff <= t) entries.
Proof.
  induction 1 as [|t rest Hs IH Hall]; [done|]. cbn [prune_start].
  destruct (Z.ltb_spec t cutoff).
  - rewrite filter_cons_False by lia. exact IH.
  - rewrite filter_cons_True by lia. change (drop 0 (t :: rest)) with (t :: rest).
    f_equal. symmetry. apply filter_keeps_all.
    intros x Hx. rewrite Forall_forall in Hall. specialize (Hall x Hx). lia.
Qed.

Lemma filter_cutoffs (c c' : Z) (l : list Z) :
  c <= c' → filter (λ t, c' <= t) (filter (λ t, c <= t) l) = filter (λ t, c' <= t) l.
Proof. intros Hc. rewrite list_filter_filter. apply list_filter_iff. intros t. lia. Qed.

(** * The simulation *)

(** A limiter [rl] keeps, for each key, the failures at or after some cutoff
    that the window has already left behind at time [now]. *)
Definition simulates (rl : LoginRateLimiter) (fails : bytes → list Z) (now : Z) : Prop :=
  ∀ key, StronglySorted Z.le (fails key) ∧ Forall (λ t, t <= now) (fails key) ∧
    ∃ c, c <= now - rl_window rl ∧
      default [] (rl_attempts rl !! key) = filter (λ t, c <= t) (fails key).

Lemma prune_simulates rl fails from now key :
  simulates rl fails from → from <= now →
  pruneLockedUnsafe rl key now = within (rl_window rl) now (fails key).
Proof.
  intros H Hle. destruct (H key) as (Hs & _ & c & Hc & E).
  rewrite prune_is_drop, E, drop_prune_start by by apply sorted_filter.
  apply filter_cutoffs. lia.
Qed.

Lemma simulates_later rl fails from now :
  simulates rl fails from → from <= now → simulates rl fails now.
Proof.
  intros H Hle key. destruct (H key) as (Hs & Hb & c & Hc & E). split_and!; [done| |].
  - eapply Forall_impl; [exact Hb|]. cbn. lia.
  - exists c. split; [lia|done].
Qed.

(** Replacing one key's entries by an admissible list. *)
Lemma simulates_set rl m fails fails' now key :
  simulates rl fails now →
  (∀ k, k ≠ key → m !! k = rl_attempts rl !! k ∧ fails' k = fails k) →
  StronglySorted Z.le (fails' key) → Forall (λ t, t <= now) (fails' key) →
  (∃ c, c <= now - rl_window rl ∧ default [] (m !! key) = filter (λ t, c <= t) (fails' key)) →
  simulates (set_attempts rl m) fails' now.
Proof.
  intros H Hother Hs Hb Hc k. destruct (decide (k = key)) as [->|Hk]; [done|].
  destruct (Hother k Hk) as [E ->]. cbn [set_attempts rl_attempts rl_window]. rewrite E. apply H.
Qed.

(** The abstract effect of one operation. *)
Definition fail_step (fails : bytes → list Z) (e : Z * rl_op) (key : bytes) : list Z :=
  failures_since_reset key (fails key) [e].

Lemma simulates_prune rl fails now key m :
  simulates rl fails now →
  (∀ k, k ≠ key → m !! k = rl_attempts rl !! k) →
  default [] (m !! key) = pruneLockedUnsafe rl key now →
  simulates (set_attempts rl m) fails now.
Proof.
  intros H Hm E. destruct (H key) as (Hs & Hb & _). apply (simulates_set rl m fails fails now key); auto.
  exists (now - rl_window rl). split; [lia|]. rewrite E. by eapply prune_simulates.
Qed.

Lemma simulates_cleanup keys rl fails now :
  simulates rl fails now → simulates (cleanup_keys keys now rl) fails now.
Proof.
  unfold cleanup_keys. revert rl. induction keys as [|k keys IH]; intros rl H; [done|].
  apply IH. unfold cleanup_key. case_bool_decide as Hn; apply (simulates_prune _ _ _ k); try done.
  - intros k' Hk. by rewrite lookup_delete_ne.
  - by rewrite lookup_delete_eq, Hn.
  - intros k' Hk. by rewrite lookup_insert_ne.
  - by rewrite lookup_insert_eq.
Qed.

Lemma cleanup_keys_settings keys now rl :
  rl_window (cleanup_keys keys now rl) = rl_window rl ∧
  rl_max (cleanup_keys keys now rl) = rl_max rl.
Proof.
  unfold cleanup_keys. revert rl. induction keys as [|k keys IH]; intros rl; [done|]. cbn [fold_left].
  destruct (IH (cleanup_key now rl k)) as [-> ->]. unfold cleanup_key. by case_bool_decide.
Qed.

Lemma rl_apply_settings rl e :
  rl_window (rl_apply rl e) = rl_window rl ∧ rl_max (rl_apply rl e) = rl_max rl.
Proof. destruct e as [t [k|k|k|]]; try done. apply cleanup_keys_settings. Qed.

Lemma simulates_step rl fails from e :
  0 <= rl_window rl → simulates rl fails from → from <= e.1 →
  simulates (rl_apply rl e) (fail_step fails e) e.1.
Proof.
  intros Hw H Hle. pose proof (simulates_later _ _ _ _ H Hle) as Ht.
  destruct e as [t [k|k|k|]]; cbn [fst] in *; cbn [rl_apply snd fst].
  - destruct (Ht k) as (Hs & Hb & _).
    apply (simulates_set _ _ fails _ _ k); unfold fail_step; cbn; rewrite ?bool_decide_true by done.
    + done.
    + intros k' Hk. rewrite lookup_insert_ne by congruence. by rewrite bool_decide_false by congruence.
    + apply StronglySorted_app_2; [|done|repeat constructor].
      intros x y Hx Hy%list_elem_of_singleton. subst. rewrite Forall_forall in Hb. by apply Hb.
    + apply Forall_app. split; [done|]. by constructor.
    + exists (t - rl_window rl). split; [lia|]. rewrite lookup_insert_eq. cbn.
      rewrite (prune_simulates _ _ _ _ _ Ht), filter_app by lia. unfold within.
      f_equal. rewrite filter_cons_True by lia. done.
  - apply (simulates_prune _ _ _ k); [done| |by rewrite lookup_insert_eq].
    intros k' Hk. by rewrite lookup_insert_ne.
  - apply (simulates_set _ _ fails _ _ k); unfold fail_step; cbn; rewrite ?bool_decide_true by done.
    + done.
    + intros k' Hk. rewrite lookup_delete_ne by congruence. by rewrite bool_decide_false by congruence.
    + constructor.
    + constructor.
    + exists (t - rl_window rl). split; [lia|]. by rewrite lookup_delete_eq.
  - by apply simulates_cleanup.
Qed.

Lemma failures_step key acc e h :
  failures_since_reset key acc (e :: h) =
  failures_since_reset key (failures_since_reset key acc [e]) h.
Proof. by destruct e as [t [k|k|k|]]. Qed.

Lemma simulates_run h rl fails from now :
  0 <= rl_window rl → simulates rl fails from → clock_ok from h now = true →
  simulates (rl_run rl h) (λ k, failures_since_reset k (fails k) h) now.
Proof.
  revert rl fails from. induction h as [|[t op] h IH]; intros rl fails from Hw H Hc; cbn in Hc.
  - apply Z.leb_le in Hc. by eapply simulates_later.
  - apply andb_true_iff in Hc as [Hle%Z.leb_le Hc].
    assert (0 <= rl_window (rl_apply rl (t, op))) as Hw' by by rewrite (proj1 (rl_apply_settings _ _)).
    pose proof (IH _ _ _ Hw' (simulates_step _ _ _ (t, op) Hw H Hle) Hc) as Hrun.
    intros k. rewrite failures_step. apply Hrun.
Qed.

Lemma rl_run_settings h rl : rl_window (rl_run rl h) = rl_window rl ∧ rl_max (rl_run rl h) = rl_max rl.
Proof.
  unfold rl_run. revert rl. induction h as [|e h IH]; intros rl; [done|]. cbn [fold_left].
  destruct (IH (rl_apply rl e)) as [-> ->]. apply rl_apply_settings.
Qed.

Lemma new_simulates w m from : simulates (NewLoginRateLimiter w m) (λ _, []) from.
Proof.
  intros k. split_and!; [constructor|constructor|]. exists (from - rl_window (NewLoginRateLimiter w m)).
  split; [lia|]. cbn. by rewrite lookup_empty.
Qed.

Lemma new_settings w m : 0 < rl_window (NewLoginRateLimiter w m) ∧ 0 < rl_max (NewLoginRateLimiter w m).
Proof. cbn. destruct (Z.leb_spec w 0), (Z.leb_spec m 0); lia. Qed.

(** What a limiter holds for a key after any history. *)
Lemma run_entries w m h from now key :
  clock_ok from h now = true →
  let rl := rl_run (NewLoginRateLimiter w m) h in
  pruneLockedUnsafe rl key now = within (rl_window rl) now (failures_since_reset key [] h).
Proof.
  intros Hc. cbn zeta. eapply (prune_simulates _ (λ k, failures_since_reset k [] h) now); [|lia].
  eapply (simulates_run h _ (λ _, []) from); [|apply new_simulates|done].
  pose proof (new_settings w m). lia.
Qed.

(** C36. The rate limiter refines its contract: after any history of failures,
    questions, resets and clean-ups, and for every window and maximum it is
    given (or defaults to), [IsBlocked] answers whether the failures of the key
    since its last reset that are at most a window old are as many as the
    maximum.  What was pruned, asked or cleaned in between does not matter. *)
Theorem rate_limiter_refines_window (window max : Z) (h : list (Z * rl_op)) (from now : Z) (key : bytes) :
  clock_ok from h now = true →
  let rl := rl_run (NewLoginRateLimiter window max) h in
  (IsBlocked key now rl).1 =
  (rl_max (NewLoginRateLimiter window max) <=?
   zlen (within (rl_window (NewLoginRateLimiter window max)) now (failures_since_reset key [] h))).
Proof.
  intros Hc. cbn zeta. unfold IsBlocked. cbn [fst].
  rewrite (run_entries _ _ _ _ _ _ Hc). by destruct (rl_run_settings h (NewLoginRateLimiter window max)) as [-> ->].
Qed.

Definition rl_demo_history : list (Z * rl_op) :=
  [(1, OpFailure §"user:ann"); (2, OpFailure §"user:ann"); (3, OpAsk §"user:bob"); (9, OpCleanup)].

Lemma rate_limiter_refines_window_witness :
  clock_ok 0 rl_demo_history 10 = true ∧
  (IsBlocked §"user:ann" 10 (rl_run (NewLoginRateLimiter 9 2) rl_demo_history)).1 = true.
Proof.
  split; [by vm_compute|].
  rewrite (rate_limiter_refines_window 9 2 rl_demo_history 0 10 §"user:ann" ltac:(by vm_compute)).
  by vm_compute.
Defined.

Lemma prune_lookup rl rl' key now :
  rl_window rl' = rl_window rl → rl_attempts rl' !! key = rl_attempts rl !! key →
  pruneLockedUnsafe rl' key now = pruneLockedUnsafe rl key now.
Proof. unfold pruneLockedUnsafe. by intros -> ->. Qed.

Lemma cleanup_key_other now rl k key :
  k ≠ key → rl_attempts (cleanup_key now rl k) !! key = rl_attempts rl !! key.
Proof.
  intros Hk. unfold cleanup_key. case_bool_decide; cbn.
  - by rewrite lookup_delete_ne.
  - by rewrite lookup_insert_ne.
Qed.

Lemma cleanup_removes keys now rl key :
  pruneLockedUnsafe rl key now = [] → (key ∈ keys ∨ rl_attempts rl !! key = None) →
  rl_attempts (cleanup_keys keys now rl) !! key = None.
Proof.
  unfold cleanup_keys. revert rl. induction keys as [|k keys IH]; intros rl Hp Hin.
  - destruct Hin as [Hin|Hn]; [by apply elem_of_nil in Hin|done].
  - cbn [fold_left]. destruct (decide (k = key)) as [->|Hk].
    + assert (rl_attempts (cleanup_key now rl key) !! key = None) as Hn.
      { unfold cleanup_key. rewrite bool_decide_true by done. cbn. by rewrite lookup_delete_eq. }
      apply IH; [|by right]. unfold pruneLockedUnsafe. by rewrite Hn.
    + pose proof (cleanup_key_other now rl k key Hk) as E.
      apply IH.
      * rewrite <- Hp. apply prune_lookup; [|done]. unfold cleanup_key. by case_bool_decide.
      * rewrite E. destruct Hin as [[Hin|Hin]%elem_of_cons|Hin]; [congruence|by left|by right].
Qed.

Lemma Cleanup_removes now rl key :
  pruneLockedUnsafe rl key now = [] → rl_attempts (Cleanup now rl) !! key = None.
Proof.
  intros Hp. apply cleanup_removes; [done|].
  destruct (rl_attempts rl !! key) as [l|] eqn:E; [left|by right].
  apply list_elem_of_fmap. exists (key, l). split; [done|]. by apply elem_of_map_to_list.
Qed.

Lemma within_none window now from times :
  Forall (λ t, t <= from) times → from + window < now → within window now times = [].
Proof.
  intros Hb Hlt. unfold within. induction Hb as [|t times Ht _ IH]; [done|].
  by rewrite filter_cons_False by lia.
Qed.

(** A lockout ends: once the window has passed since the last operation of
    any history, every key is admitted, and a clean-up then leaves nothing of it
    in the map, so an idle limiter does not grow. *)
Theorem lockout_ends (window max : Z) (h : list (Z * rl_op)) (from last now : Z) (key : bytes) :
  clock_ok from h last = true → last + rl_window (NewLoginRateLimiter window max) < now →
  let rl := rl_run (NewLoginRateLimiter window max) h in
  (IsBlocked key now rl).1 = false ∧ rl_attempts (Cleanup now rl) !! key = None.
Proof.
  intros Hc Hlt. cbn zeta. pose proof (new_settings window max) as [Hw Hm].
  pose proof (rl_run_settings h (NewLoginRateLimiter window max)) as [Ew Em].
  assert (simulates (rl_run (NewLoginRateLimiter window max) h)
            (λ k, failures_since_reset k [] h) last) as Hs.
  { eapply (simulates_run h _ (λ _, []) from); [lia|apply new_simulates|done]. }
  assert (pruneLockedUnsafe (rl_run (NewLoginRateLimiter window max) h) key now = []) as Hp.
  { rewrite (prune_simulates _ _ _ _ _ Hs) by lia. apply (within_none _ _ last); [apply Hs|].
    by rewrite Ew. }
  split; [|by apply Cleanup_removes].
  unfold IsBlocked. cbn [fst]. rewrite Hp, Em. by apply Z.leb_gt.
Qed.

Lemma lockout_ends_witness :
  (IsBlocked §"user:ann" 3 (rl_run (NewLoginRateLimiter 9 2) rl_demo_history)).1 = true ∧
  (IsBlocked §"user:ann" 19 (rl_run (NewLoginRateLimiter 9 2) rl_demo_history)).1 = false.
Proof.
  split; [by vm_compute|].
  apply (lockout_ends 9 2 rl_demo_history 0 9 19 §"user:ann" ltac:(by vm_compute) ltac:(by vm_compute)).
Defined.
