(* ===== verification/Access.v ===== *)
(** Access grants: apps/api/internal/access/service.go.

    Three statements on the identity database: granting an action to a user,
    listing the assets a user may use, and the check every session launch makes.
    The listing and the check are written as two different queries; the theorems
    show that they agree, and that a grant adds one permission and no other. *)
From S2P Require Import Prelude GoStrings GoEncoding Store PgServer Identity.

Definition ActionShell : bytes := §"shell".
Definition ActionSFTP : bytes := §"sftp".
Definition ActionDBeaver : bytes := §"dbeaver".
Definition ActionRedis : bytes := §"redis".

Definition isSupportedAction (action : bytes) : bool :=
  bool_decide (action = ActionShell) || bool_decide (action = ActionSFTP)
  || bool_decide (action = ActionDBeaver) || bool_decide (action = ActionRedis).

Record AccessPoint := Point {
  AssetID : bytes;
  AssetName : bytes;
  AssetType : bytes;
  Host : bytes;
  Port : Z;
  MetadataJSON : bytes;
  AllowedActions : list bytes;
}.

Definition ErrIDsRequired : error := Errorf §"user id and asset id are required".
Definition ErrUserIDRequired : error := Errorf §"user id is required".
Definition ErrUnsupportedAction : error := Errorf §"unsupported action: ".

Section Service.
Context `{Postgres, PostgresText}.

(** The condition both queries put on a grant of the user: an 'allow' for the
    user or for a group the user is in. *)
Definition grant_reaches (t : tables) (user : bytes) (g : grant_key * grant_row) : bool :=
  bool_decide (g_effect g.2 = §"allow") &&
  ((bool_decide (g_type g.1 = §"user") && bool_decide (g_subject g.1 = user)) ||
   (bool_decide (g_type g.1 = §"group") && bool_decide ((user, g_subject g.1) ∈ t_user_groups t))).

Definition GrantUserAction (userID assetID action : bytes) (createdBy : option bytes) : M store unit :=
  guard! negb (bool_decide (TrimSpace userID = []) || bool_decide (TrimSpace assetID = []))
    else ErrIDsRequired in
  guard! isSupportedAction action else ErrUnsupportedAction in
  wrap_err §"grant user action" (query (λ now _ t,
    match pg_uuid (TrimSpace userID), pg_uuid (TrimSpace assetID),
          (match createdBy with Some c => Some <$> pg_uuid c | None => Some None end) with
    | Some u, Some a, Some by_ =>
        if bool_decide (is_Some (t_assets t !! a))
           && match by_ with Some c => bool_decide (is_Some (t_users t !! c)) | None => true end
        then inl (tt, allow_grant t now (GrantKey §"user" u a action) by_)
        else inr pg_constraint
    | _, _, _ => inr pg_bad_uuid
    end)).

(** The rows of the listing: an asset and the actions of the grants on it that
    reach the user. *)
Definition actions_on (t : tables) (user asset : bytes) : list bytes :=
  order_text id (remove_dups (map (λ g, g_action g.1)
    (List.filter (λ g, bool_decide (g_asset g.1 = asset) && grant_reaches t user g) (map_to_list (t_grants t))))).
Definition allowed_point (t : tables) (user : bytes) (p : bytes * point_row) : option AccessPoint :=
  match actions_on t user p.1 with
  | [] => None
  | actions => Some (Point p.1 (p_name p.2) (p_type p.2) (p_host p.2) (p_port p.2) (p_metadata p.2) actions)
  end.
Definition AllowedAssetsForUser (userID : bytes) : M store (list AccessPoint) :=
  guard! negb (bool_decide (TrimSpace userID = [])) else ErrUserIDRequired in
  wrap_err §"query allowed assets" (query (λ _ _ t,
    match pg_uuid (TrimSpace userID) with
    | Some u => inl (order_text AssetName (omap (allowed_point t u) (map_to_list (t_assets t))), t)
    | None => inr pg_bad_uuid
    end)).

Definition can_perform (t : tables) (user asset action : bytes) : bool :=
  existsb (λ g, bool_decide (g_asset g.1 = asset) && bool_decide (g_action g.1 = action)
                && grant_reaches t user g) (map_to_list (t_grants t)).
Definition CanUserPerform (userID assetID action : bytes) : M store bool :=
  guard! negb (bool_decide (TrimSpace userID = []) || bool_decide (TrimSpace assetID = []))
    else ErrIDsRequired in
  guard! isSupportedAction action else ErrUnsupportedAction in
  wrap_err §"check access grant" (query (λ _ _ t,
    match pg_uuid (TrimSpace userID), pg_uuid (TrimSpace assetID) with
    | Some u, Some a => inl (can_perform t u a action, t)
    | _, _ => inr pg_bad_uuid
    end)).
End Service.

(** * The two queries agree *)

Section Facts.
Context `{Postgres, PostgresText}.

Lemma can_perform_spec t user asset action :
  can_perform t user asset action = true ↔
  ∃ k r, t_grants t !! k = Some r ∧ g_asset k = asset ∧ g_action k = action ∧
         grant_reaches t user (k, r) = true.
Proof.
  unfold can_perform. rewrite existsb_exists. split.
  - intros ([k r] & Hin & Hb). apply list_elem_of_In, elem_of_map_to_list in Hin.
    cbn [fst] in Hb. gobool. eauto 10.
  - intros (k & r & Hl & <- & <- & Hr). exists (k, r). split.
    + apply list_elem_of_In. by apply elem_of_map_to_list.
    + cbn [fst]. by rewrite !bool_decide_true, Hr by done.
Qed.

Lemma actions_on_spec t user asset action :
  action ∈ actions_on t user asset ↔ can_perform t user asset action = true.
Proof.
  unfold actions_on. rewrite (order_text_perm id), elem_of_remove_dups, can_perform_spec,
    list_elem_of_fmap. split.
  - intros ([k r] & -> & Hin). apply list_elem_of_In, filter_In in Hin as [Hin Hb].
    apply list_elem_of_In, elem_of_map_to_list in Hin. cbn [fst] in *. gobool. eauto 10.
  - intros (k & r & Hl & <- & <- & Hr). exists (k, r). split; [done|].
    apply list_elem_of_In, filter_In. split.
    + apply list_elem_of_In. by apply elem_of_map_to_list.
    + cbn [fst]. by rewrite bool_decide_true, Hr.
Qed.

Lemma actions_on_NoDup t user asset : NoDup (actions_on t user asset).
Proof. unfold actions_on. rewrite (order_text_perm id). apply NoDup_remove_dups. Qed.

Lemma allowed_point_spec t user p ap :
  allowed_point t user p = Some ap → AssetID ap = p.1 ∧ AllowedActions ap = actions_on t user p.1 ∧
    AllowedActions ap ≠ [].
Proof.
  unfold allowed_point. destruct (actions_on _ _ _) eqn:E; [done|]. by intros [= <-].
Qed.

Lemma points_NoDup t user (l : list (bytes * point_row)) :
  NoDup (l.*1) → NoDup (map AssetID (omap (allowed_point t user) l)).
Proof.
  induction l as [|p l IH]; [constructor|]. intros [Hni Hnd]%NoDup_cons. cbn [omap list_omap].
  destruct (allowed_point t user p) as [ap|] eqn:E; [|by apply IH].
  cbn [map]. constructor; [|by apply IH].
  intros (q & Eq & Hq)%list_elem_of_fmap. apply list_elem_of_omap in Hq as (p' & Hp' & Eq').
  apply allowed_point_spec in E as [E _]. apply allowed_point_spec in Eq' as [Eq' _].
  apply Hni. apply list_elem_of_fmap. exists p'. split; [congruence|done].
Qed.

(** A run of the check in a state where the driver reports no failure. *)
Lemma CanUserPerform_clean user asset action u a s :
  pg_faults s = [] → isSupportedAction action = true →
  pg_uuid (TrimSpace user) = Some u → pg_uuid (TrimSpace asset) = Some a →
  TrimSpace user ≠ [] → TrimSpace asset ≠ [] →
  (CanUserPerform user asset action s).1 = Ok (can_perform (pg_tables s) u a action).
Proof.
  intros Hf Hs Hu Ha Hun Han. unfold CanUserPerform.
  rewrite !bool_decide_false, Hs by done. cbn [negb orb]. unfold wrap_err.
  rewrite query_clean by done. by rewrite Hu, Ha.
Qed.
End Facts.

(** Every grant is on an asset (the foreign key), and every asset identifier is
    canonical. *)
Definition grants_ok `{Postgres} (t : tables) : Prop :=
  (∀ k r, t_grants t !! k = Some r → is_Some (t_assets t !! g_asset k)) ∧
  (∀ a p, t_assets t !! a = Some p → pg_uuid a = Some a).

Section Claims.
Context `{PostgresLaws, PostgresText}.

(** The listing and the check agree: the access points a user is shown are
    the assets with some action allowed, each once and each action once, and a
    point lists a supported action exactly when [CanUserPerform] answers yes for
    it, whatever spelling of the asset's identifier the check is given. *)
Theorem listed_actions_are_the_permitted_ones (s : store) (user u : bytes) (points : list AccessPoint) :
  pg_faults s = [] → grants_ok (pg_tables s) → TrimSpace user ≠ [] →
  pg_uuid (TrimSpace user) = Some u →
  (AllowedAssetsForUser user s).1 = Ok points →
  NoDup (map AssetID points) ∧
  (∀ p, p ∈ points → AllowedActions p ≠ [] ∧ NoDup (AllowedActions p)) ∧
  (∀ asset a action, isSupportedAction action = true → TrimSpace asset ≠ [] →
     pg_uuid (TrimSpace asset) = Some a →
     (CanUserPerform user asset action s).1 = Ok true ↔
     ∃ p, p ∈ points ∧ AssetID p = a ∧ action ∈ AllowedActions p).
Proof.
  intros Hf [Hfk Hca] Hne Hu Hrun. unfold AllowedAssetsForUser in Hrun.
  rewrite bool_decide_false in Hrun by done. cbn [negb] in Hrun. unfold wrap_err in Hrun.
  rewrite query_clean in Hrun by done. rewrite Hu in Hrun. cbn [fst] in Hrun. simplify_eq.
  pose proof (order_text_perm AssetName
    (omap (allowed_point (pg_tables s) u) (map_to_list (t_assets (pg_tables s))))) as Hp.
  split_and!.
  - rewrite (Permutation_map AssetID Hp). apply points_NoDup, NoDup_fst_map_to_list.
  - intros p. rewrite Hp. intros (q & _ & Hq)%list_elem_of_omap.
    apply allowed_point_spec in Hq as (_ & Ha & Hn). split; [done|]. rewrite Ha. apply actions_on_NoDup.
  - intros asset a action Hs Han Ha. rewrite (CanUserPerform_clean user asset action u a s) by done.
    split.
    + intros [= Hcan]. pose proof Hcan as (k & r & Hk & Hka & _ & _)%can_perform_spec.
      destruct (Hfk k r Hk) as [row Hrow]. rewrite Hka in Hrow. apply actions_on_spec in Hcan.
      destruct (allowed_point (pg_tables s) u (a, row)) as [ap|] eqn:E.
      * exists ap. rewrite Hp. pose proof (allowed_point_spec _ _ _ _ E) as (Hid & Hact & _).
        rewrite Hact. split_and!; [|done|done]. apply list_elem_of_omap. exists (a, row).
        split; [by apply elem_of_map_to_list|done].
      * unfold allowed_point in E. cbn [fst] in E. destruct (actions_on _ _ _); [|done].
        by apply elem_of_nil in Hcan.
    + intros (p & Hin & <- & Hact). rewrite Hp in Hin.
      apply list_elem_of_omap in Hin as (q & _ & Hq).
      apply allowed_point_spec in Hq as (Hid & Hacts & _). rewrite Hacts, <- Hid in Hact.
      f_equal. by apply actions_on_spec.
Qed.

(** A grant adds one permission: after [GrantUserAction] reports success,
    for every user, asset and action, the check answers yes exactly when it did
    before or when it asks for what was granted; in particular it overrides a
    'deny' stored under the same key, and nobody else gains or loses anything. *)
Theorem grant_adds_one_permission (s s' : store) (user asset action : bytes) (by_ : option bytes)
    (user' asset' action' u' a' : bytes) (before : bool) :
  pg_faults s = [] → GrantUserAction user asset action by_ s = (Ok tt, s') →
  pg_uuid (TrimSpace user') = Some u' → pg_uuid (TrimSpace asset') = Some a' →
  TrimSpace user' ≠ [] → TrimSpace asset' ≠ [] → isSupportedAction action' = true →
  (CanUserPerform user' asset' action' s).1 = Ok before →
  (CanUserPerform user' asset' action' s').1 =
  Ok (before || bool_decide (Some u' = pg_uuid (TrimSpace user) ∧ Some a' = pg_uuid (TrimSpace asset)
                             ∧ action' = action)).
Proof.
  intros Hf Hg Hu' Ha' Hun Han Hs' Hbefore.
  rewrite (CanUserPerform_clean user' asset' action' u' a' s) in Hbefore by done. simplify_eq.
  unfold GrantUserAction in Hg. destruct (negb _); [|done].
  destruct (isSupportedAction action); [|done]. unfold wrap_err in Hg.
  rewrite query_clean in Hg by done.
  destruct (pg_uuid (TrimSpace user)) as [u|]; [|done].
  destruct (pg_uuid (TrimSpace asset)) as [a|]; [|done].
  destruct (match by_ with Some c => Some <$> pg_uuid c | None => Some None end) as [by'|]; [|done].
  destruct (_ && _); [|done]. simplify_eq.
  rewrite (CanUserPerform_clean user' asset' action' u' a') by done. cbn [pg_tables]. f_equal.
  set (new := GrantKey §"user" u a action).
  apply eq_bool_prop_intro. rewrite orb_True, !Is_true_true, bool_decide_eq_true, !can_perform_spec.
  unfold allow_grant. cbn [t_grants with_grants]. set (row := GrantRow _ _ _). split.
  - intros (k & r & Hk & <- & <- & Hr). destruct (decide (k = new)) as [->|Hne].
    + right. rewrite lookup_insert_eq in Hk. simplify_eq. unfold grant_reaches in Hr. cbn in Hr.
      apply andb_true_iff in Hr as [_ [Hr|Hr]%orb_true_iff]; gobool; by subst.
    + left. rewrite lookup_insert_ne in Hk by congruence. exists k, r. done.
  - intros [(k & r & Hk & <- & <- & Hr)|([= ->] & [= ->] & ->)].
    + destruct (decide (k = new)) as [->|Hne].
      * exists new, row. rewrite lookup_insert_eq. split_and!; try done.
        unfold grant_reaches in *. apply andb_true_iff in Hr as [_ Hr]. by rewrite bool_decide_true.
      * exists k, r. rewrite lookup_insert_ne by congruence. done.
    + exists new, row. rewrite lookup_insert_eq. split_and!; try done.
      unfold grant_reaches. cbn [fst snd g_effect g_type g_subject new row].
      by rewrite (bool_decide_true (§"user" = §"user")), (bool_decide_true (u = u)).
Qed.

(** A 'deny' stored next to an 'allow' of another subject changes no answer: no
    query looks at it. *)
Lemma deny_rows_restrict_nothing (t : tables) k by_ at_ user asset action :
  t_grants t !! k = None →
  can_perform (with_grants t (<[k := GrantRow §"deny" by_ at_]> (t_grants t))) user asset action
  = can_perform t user asset action.
Proof.
  intros Hk. apply eq_bool_prop_intro. rewrite !Is_true_true, !can_perform_spec.
  cbn [t_grants with_grants]. split.
  - intros (k' & r & Hl & Ha & Hac & Hr). destruct (decide (k' = k)) as [->|Hne].
    + rewrite lookup_insert_eq in Hl. by simplify_eq.
    + rewrite lookup_insert_ne in Hl by congruence. eauto 10.
  - intros (k' & r & Hl & Ha & Hac & Hr). exists k', r. rewrite lookup_insert_ne by congruence. done.
Qed.
End Claims.

(** * Witnesses *)

#[local] Existing Instance demo_pg.
#[local] Existing Instance demo_pg_text.
#[local] Existing Instance demo_pg_laws.

Definition access_demo : store :=
  PgStore
    (Tables {[§"u1" := UserRow §"ann" None None true §"local" None 0 None]} ∅ ∅ {[(§"u1", §"g1")]}
       {[§"a1" := PointRow §"vm" §"linux_vm" §"10.0.0.9" 22 §"{}" §"active" None 0]}
       {[GrantKey §"group" §"g1" §"a1" ActionShell := GrantRow §"allow" None 0;
         GrantKey §"user" §"u1" §"a1" ActionSFTP := GrantRow §"deny" None 0]}
       ∅ None [] ∅ ∅) 0 [] None.

Definition access_demo_points : list AccessPoint :=
  match (AllowedAssetsForUser §"u1" access_demo).1 with Ok l => l | _ => [] end.

Lemma access_demo_ok : grants_ok (pg_tables access_demo).
Proof.
  split.
  - apply (bool_decide_unpack (map_Forall (λ k _, is_Some (t_assets (pg_tables access_demo) !! g_asset k)) _)).
    by vm_compute.
  - apply (bool_decide_unpack (map_Forall (λ a _, pg_uuid a = Some a) _)). by vm_compute.
Qed.

Lemma listed_actions_are_the_permitted_ones_witness :
  access_demo_points ≠ [] ∧
  ((CanUserPerform §"u1" §"a1" ActionShell access_demo).1 = Ok true ↔
   ∃ p, p ∈ access_demo_points ∧ AssetID p = §"a1" ∧ ActionShell ∈ AllowedActions p).
Proof.
  split; [by vm_compute|].
  refine (proj2 (proj2 (listed_actions_are_the_permitted_ones access_demo §"u1" §"u1" access_demo_points
    _ access_demo_ok _ _ _)) §"a1" §"a1" ActionShell _ _ _); by vm_compute.
Defined.

Lemma grant_adds_one_permission_witness :
  (CanUserPerform §"u1" §"a1" ActionSFTP
     (GrantUserAction §" u1" §"a1" ActionSFTP (Some §"u1") access_demo).2).1 = Ok true.
Proof.
  assert ((GrantUserAction §" u1" §"a1" ActionSFTP (Some §"u1") access_demo).1 = Ok tt) as Hg
    by by vm_compute.
  rewrite (grant_adds_one_permission access_demo _ _ _ _ _ §"u1" §"a1" ActionSFTP §"u1" §"a1" false
    eq_refl (run_ok _ _ _ Hg)); by vm_compute.
Defined.
