(* ===== verification/Assets.v ===== *)
(** The asset inventory: apps/api/internal/assets/service.go.

    Each operation is its validation and one statement on the assets table
    (apps/api/migrations/000001_core_v1.up.sql and 000003), whose triples of
    name, host and port are unique.  The theorems say that every operation keeps
    the table well formed and what it returns is the row that is stored. *)
From S2P Require Import Prelude GoStrings GoEncoding Store PgServer Identity.

Definition TypeLinuxVM : bytes := §"linux_vm".
Definition TypeDatabase : bytes := §"database".
Definition TypeRedis : bytes := §"redis".

Definition ErrAssetNotFound : error := ErrVar §"assets.ErrAssetNotFound".

Record asset := MkAsset {
  A_ID : bytes;
  A_Name : bytes;
  A_Type : bytes;
  A_Host : bytes;
  A_Port : Z;
  A_MetadataJSON : bytes;
  A_CreatedAt : Z;
}.

Record AssetInput := NewAsset {
  in_Name : bytes;
  in_Type : bytes;
  in_Host : bytes;
  in_Port : Z;
  in_MetadataJSON : bytes;
  in_CreatedBy : option bytes;
}.

Definition isSupportedType (assetType : bytes) : bool :=
  bool_decide (assetType ∈ [TypeLinuxVM; TypeDatabase; TypeRedis]).

(** [json.Valid]. *)
Definition json_valid (raw : bytes) : bool := bool_decide (is_Some (json_parse raw)).

Definition validateInput (input : AssetInput) : option error :=
  if bool_decide (TrimSpace (in_Name input) = []) then Some (Errorf §"asset name is required")
  else if bool_decide (TrimSpace (in_Host input) = []) then Some (Errorf §"asset host is required")
  else if (in_Port input <=? 0) || (65535 <? in_Port input) then Some (Errorf §"asset port is invalid")
  else if negb (isSupportedType (in_Type input))
  then Some (Errorf (§"unsupported asset type: " ++ in_Type input))
  else if (0 <? length (in_MetadataJSON input))%nat && negb (json_valid (in_MetadataJSON input))
  then Some (Errorf §"asset metadata_json must be valid json")
  else None.

Definition normalizedMetadata (raw : bytes) : bytes := if bool_decide (raw = []) then §"{}" else raw.

(** [if err := validateInput(input); err != nil { return err }]. *)
Definition checked {S A} (err : option error) (k : M S A) : M S A :=
  match err with Some e => fail e | None => k end.

Section Service.
Context `{Postgres, PostgresText}.

Definition asset_of (p : bytes * point_row) : asset :=
  MkAsset p.1 (p_name p.2) (p_type p.2) (p_host p.2) (p_port p.2) (p_metadata p.2) (p_created_at p.2).

(** The row the unique key of name, host and port finds. *)
Definition same_place (name host : bytes) (port : Z) (p : bytes * point_row) : bool :=
  bool_decide (p_name p.2 = name) && bool_decide (p_host p.2 = host) && (p_port p.2 =? port).
Definition find_place (t : tables) (name host : bytes) (port : Z) : option (bytes * point_row) :=
  head (List.filter (same_place name host port) (map_to_list (t_assets t))).

(** The parameters of a write as the server reads them: texts, a jsonb, and a
    reference to a user. *)
Definition reads_asset (t : tables) (name host metadata : bytes) (createdBy : option bytes)
    : (bytes * option bytes) + error :=
  if pg_text name && pg_text host
  then match pg_jsonb metadata, (match createdBy with Some c => Some <$> pg_uuid c | None => Some None end) with
       | Some m, Some by_ =>
           if match by_ with Some c => bool_decide (is_Some (t_users t !! c)) | None => true end
           then inl (m, by_) else inr pg_constraint
       | _, _ => inr pg_bad_text
       end
  else inr pg_bad_text.

Definition insert_asset (t : tables) (id : bytes) (r : point_row) : (asset * tables) + error :=
  if bool_decide (t_assets t !! id = None)
  then inl (asset_of (id, r), with_assets t (<[id := r]> (t_assets t)))
  else inr pg_constraint.

Definition Create (input : AssetInput) : M store asset :=
  checked (validateInput input)
  (wrap_err §"create asset" (query (λ now n t,
    let name := TrimSpace (in_Name input) in
    let host := TrimSpace (in_Host input) in
    match reads_asset t name host (normalizedMetadata (in_MetadataJSON input)) (in_CreatedBy input) with
    | inr e => inr e
    | inl (m, by_) =>
        match find_place t name host (in_Port input) with
        | Some _ => inr pg_constraint
        | None => insert_asset t (pg_random_uuid n)
                    (PointRow name (in_Type input) host (in_Port input) m §"active" by_ now)
        end
    end))).

(** A conflict on the place keeps the row's identity, name, place, status,
    creator and age. *)
Definition Upsert (input : AssetInput) : M store asset :=
  checked (validateInput input)
  (wrap_err §"upsert asset" (query (λ now n t,
    let name := TrimSpace (in_Name input) in
    let host := TrimSpace (in_Host input) in
    match reads_asset t name host (normalizedMetadata (in_MetadataJSON input)) (in_CreatedBy input) with
    | inr e => inr e
    | inl (m, by_) =>
        match find_place t name host (in_Port input) with
        | Some (id, r) =>
            let r' := PointRow (p_name r) (in_Type input) (p_host r) (p_port r) m (p_status r)
                        (p_created_by r) (p_created_at r) in
            inl (asset_of (id, r'), with_assets t (<[id := r']> (t_assets t)))
        | None => insert_asset t (pg_random_uuid n)
                    (PointRow name (in_Type input) host (in_Port input) m §"active" by_ now)
        end
    end))).

(** [WHERE COALESCE(status, 'active') <> 'deleted']. *)
Definition is_live (r : point_row) : bool := negb (bool_decide (p_status r = §"deleted")).

Definition live_asset (t : tables) (id : bytes) : option (bytes * point_row) :=
  match t_assets t !! id with Some r => if is_live r then Some (id, r) else None | None => None end.

(** [errors.Is(err, pgx.ErrNoRows)] becomes another error, others are wrapped. *)
Definition no_rows_as {S A} (missing : error) (msg : bytes) (m : M S A) : M S A := λ s,
  match m s with
  | (Err e, s') => (Err (if errors_is e §"pgx.ErrNoRows" then missing else Wrap msg e), s')
  | r => r
  end.

Definition GetByID (id : bytes) : M store asset :=
  no_rows_as ErrAssetNotFound §"get asset by id"
    (query_row (λ t, match pg_uuid (TrimSpace id) with
                     | None => inr pg_bad_uuid
                     | Some u => inl (asset_of <$> live_asset t u)
                     end)).

Definition Update (assetID : bytes) (input : AssetInput) : M store asset :=
  let id := TrimSpace assetID in
  guard! negb (bool_decide (id = [])) else Errorf §"asset id is required" in
  checked (validateInput input)
  (no_rows_as ErrAssetNotFound §"update asset" (query (λ now n t,
    let name := TrimSpace (in_Name input) in
    let host := TrimSpace (in_Host input) in
    match pg_uuid id, reads_asset t name host (normalizedMetadata (in_MetadataJSON input)) None with
    | None, _ => inr pg_bad_uuid
    | _, inr e => inr e
    | Some u, inl (m, _) =>
        match live_asset t u with
        | None => inr pg_no_rows
        | Some (_, r) =>
            if match find_place t name host (in_Port input) with
               | Some (other, _) => bool_decide (other = u) | None => true end
            then let r' := PointRow name (in_Type input) host (in_Port input) m (p_status r)
                             (p_created_by r) (p_created_at r) in
                 inl (asset_of (u, r'), with_assets t (<[u := r']> (t_assets t)))
            else inr pg_constraint
        end
    end))).

Definition List_ : M store (list asset) :=
  wrap_err §"list assets" (query (λ _ _ t,
    inl (order_text A_Name (map asset_of (List.filter (λ p, is_live p.2) (map_to_list (t_assets t)))), t))).
End Service.

(** * The invariant of the table *)

Definition asset_row_ok (r : point_row) : Prop :=
  p_name r ≠ [] ∧ TrimSpace (p_name r) = p_name r ∧ p_host r ≠ [] ∧ TrimSpace (p_host r) = p_host r ∧
  1 <= p_port r <= 65535 ∧ isSupportedType (p_type r) = true.
Definition assets_ok (t : tables) : Prop :=
  map_Forall (λ _ r, asset_row_ok r) (t_assets t) ∧
  ∀ i j r r', t_assets t !! i = Some r → t_assets t !! j = Some r' →
    p_name r = p_name r' → p_host r = p_host r' → p_port r = p_port r' → i = j.

Inductive asset_op :=
| OpCreate (input : AssetInput)
| OpUpsert (input : AssetInput)
| OpUpdate (id : bytes) (input : AssetInput).
Definition asset_input (op : asset_op) : AssetInput :=
  match op with OpCreate i | OpUpsert i | OpUpdate _ i => i end.

Section Facts.
Context `{Postgres, PostgresText}.

Definition asset_run (op : asset_op) : M store asset :=
  match op with
  | OpCreate input => Create input
  | OpUpsert input => Upsert input
  | OpUpdate id input => Update id input
  end.

Lemma find_place_some t name host port id r :
  find_place t name host port = Some (id, r) →
  t_assets t !! id = Some r ∧ p_name r = name ∧ p_host r = host ∧ p_port r = port.
Proof.
  unfold find_place. intros Hh. apply head_Some_elem_of, list_elem_of_In, List.filter_In in Hh as [Hin Hb].
  apply list_elem_of_In, elem_of_map_to_list in Hin. unfold same_place in Hb. cbn in Hb. by gobool.
Qed.
Lemma find_place_none t name host port id r :
  find_place t name host port = None → t_assets t !! id = Some r →
  p_name r = name → p_host r = host → p_port r = port → False.
Proof.
  unfold find_place. intros Hh Hid <- <- <-. apply elem_of_map_to_list, list_elem_of_In in Hid.
  destruct (List.filter _ _) eqn:E; [|done].
  assert (Hin : In (id, r) []); [|done]. rewrite <- E. apply List.filter_In. split; [done|].
  unfold same_place. cbn. rewrite !bool_decide_eq_true_2 by done. cbn. lia.
Qed.

Lemma validateInput_none input : validateInput input = None ↔
  TrimSpace (in_Name input) ≠ [] ∧ TrimSpace (in_Host input) ≠ [] ∧ 1 <= in_Port input <= 65535 ∧
  isSupportedType (in_Type input) = true ∧
  (in_MetadataJSON input = [] ∨ json_valid (in_MetadataJSON input) = true).
Proof.
  unfold validateInput. split.
  - do 5 (case_match; [done|]). intros _. gobool.
    assert (Hm : in_MetadataJSON input = [] ∨ json_valid (in_MetadataJSON input) = true).
    { destruct (json_valid _); [by right|]. destruct (in_MetadataJSON input); [by left|done]. }
    destruct (isSupportedType _); [|done]. repeat split; try done; lia.
  - intros (H1 & H2 & H3 & H4 & H5). rewrite !bool_decide_eq_false_2 by done.
    replace (_ || _) with false by lia. rewrite H4. cbn [negb].
    destruct H5 as [-> | ->]; [done|]. by rewrite andb_false_r.
Qed.

(** A row put in the place of itself, or in a free one, keeps the invariant. *)
Lemma assets_ok_insert t id r :
  assets_ok t → asset_row_ok r →
  (∀ j r', t_assets t !! j = Some r' → p_name r' = p_name r → p_host r' = p_host r → p_port r' = p_port r → j = id) →
  assets_ok (with_assets t (<[id := r]> (t_assets t))).
Proof.
  intros [Hall Hu] Hr Hf. split; cbn.
  - by apply map_Forall_insert_2.
  - intros i j ri rj. rewrite !lookup_insert_Some.
    intros [[<- <-]|[Hi Ei]] [[<- <-]|[Hj Ej]] H1 H2 H3; [done| |by eapply Hf|by eapply Hu].
    symmetry. by eapply Hf.
Qed.

(** What a call may write: the row [r] at [id], of the input's fields, at a place
    no other asset has. *)
Definition writes_row (t : tables) (op : asset_op) (id : bytes) (r : point_row) : Prop :=
  let input := asset_input op in
  p_name r = TrimSpace (in_Name input) ∧ p_host r = TrimSpace (in_Host input) ∧
  p_port r = in_Port input ∧ p_type r = in_Type input ∧
  pg_jsonb (normalizedMetadata (in_MetadataJSON input)) = Some (p_metadata r) ∧
  (∀ j r', t_assets t !! j = Some r' → p_name r' = p_name r → p_host r' = p_host r → p_port r' = p_port r → j = id) ∧
  match t_assets t !! id with
  | Some old => p_status r = p_status old ∧ p_created_at r = p_created_at old ∧ p_created_by r = p_created_by old
  | None => p_status r = §"active"
  end ∧
  match op with
  | OpCreate _ => t_assets t !! id = None
  | OpUpsert _ => True
  | OpUpdate x _ => pg_uuid (TrimSpace x) = Some id ∧ ∃ old, t_assets t !! id = Some old ∧ is_live old = true
  end.

Lemma checked_run {S A} err (k : M S A) (s s' : S) o :
  checked err k s = (o, s') → (err = None ∧ k s = (o, s')) ∨ (s' = s ∧ ∀ a, o ≠ Ok a).
Proof. destruct err; cbn; intros Hr; [right; by injection Hr as <- <-|by left]. Qed.
Lemma wrap_run {S A} msg (m : M S A) (s s' : S) o : wrap_err msg m s = (o, s') →
  ∃ o', m s = (o', s') ∧ ∀ a, o = Ok a ↔ o' = Ok a.
Proof. unfold wrap_err. destruct (m s) as [[]]; intros [= <- <-]; by eexists. Qed.
Lemma no_rows_run {S A} e msg (m : M S A) (s s' : S) o : no_rows_as e msg m s = (o, s') →
  ∃ o', m s = (o', s') ∧ ∀ a, o = Ok a ↔ o' = Ok a.
Proof. unfold no_rows_as. destruct (m s) as [[]]; intros [= <- <-]; by eexists. Qed.

Lemma insert_asset_ok t id r a t' : insert_asset t id r = inl (a, t') →
  t_assets t !! id = None ∧ a = asset_of (id, r) ∧ t' = with_assets t (<[id := r]> (t_assets t)).
Proof. unfold insert_asset. case_bool_decide; [|done]. by intros [= <- <-]. Qed.
Lemma reads_asset_ok t name host m by_ m' by' : reads_asset t name host m by_ = inl (m', by') → pg_jsonb m = Some m'.
Proof.
  unfold reads_asset. destruct (_ && _); [|done]. destruct (pg_jsonb m); [|done].
  destruct (match by_ with Some _ => _ | None => _ end); [|done]. destruct (match o with Some _ => _ | None => _ end); [|done].
  by intros [= <- <-].
Qed.

(** The row an accepted input writes is well formed. *)
Lemma input_row_ok input m status by_ created : validateInput input = None →
  asset_row_ok (PointRow (TrimSpace (in_Name input)) (in_Type input) (TrimSpace (in_Host input))
                  (in_Port input) m status by_ created).
Proof. rewrite validateInput_none. intros (? & ? & ? & ? & _). repeat split; cbn; try done; try lia; apply TrimSpace_idem. Qed.

(** A new row, in a free place. *)
Lemma insert_writes t op n m by_ now a t' :
  match op with OpUpdate _ _ => False | _ => True end →
  pg_jsonb (normalizedMetadata (in_MetadataJSON (asset_input op))) = Some m →
  find_place t (TrimSpace (in_Name (asset_input op))) (TrimSpace (in_Host (asset_input op))) (in_Port (asset_input op)) = None →
  insert_asset t (pg_random_uuid n)
    (PointRow (TrimSpace (in_Name (asset_input op))) (in_Type (asset_input op))
       (TrimSpace (in_Host (asset_input op))) (in_Port (asset_input op)) m §"active" by_ now) = inl (a, t') →
  ∃ id r, a = asset_of (id, r) ∧ writes_row t op id r ∧ t' = with_assets t (<[id := r]> (t_assets t)).
Proof.
  intros Hop Hm Hf (Hn & -> & ->)%insert_asset_ok. eexists _, _. split; [done|]. split; [|done].
  unfold writes_row. rewrite Hn. repeat (split; [done|]). cbn. split; [|by destruct op].
  intros j r' Hj H1 H2 H3. by destruct (find_place_none _ _ _ _ _ _ Hf Hj H1 H2 H3).
Qed.

(** A validated call of one statement, whatever wraps its error. *)
Lemma checked_effect {A} err (wrapped : M store A → M store A) q s o s' :
  (∀ (m : M store A) s s' o, wrapped m s = (o, s') → ∃ o', m s = (o', s') ∧ ∀ a, o = Ok a ↔ o' = Ok a) →
  checked err (wrapped (query q)) s = (o, s') →
  (pg_tables s' = pg_tables s ∧ ∀ a, o ≠ Ok a) ∨
  err = None ∧ ∃ a, q (pg_clock s) (pg_steps s) (pg_tables s) = inl (a, pg_tables s') ∧ ∀ a', o = Ok a' → a' = a.
Proof.
  intros Hw [[He (o' & Hrun & Ho)%Hw]|[-> ?]]%checked_run; [|by left].
  apply query_effect in Hrun as [[? Hno]|(a & Hq & Ha)]; [left|right].
  - split; [done|]. intros a ->. by eapply Hno, Ho.
  - split; [done|]. exists a. split; [done|]. intros a' ->. by apply Ha, Ho.
Qed.

(** What a call leaves: nothing, or one row written, and then a success returns
    that row. *)
Lemma asset_run_effect op s o s' : assets_ok (pg_tables s) → asset_run op s = (o, s') →
  (pg_tables s' = pg_tables s ∧ ∀ a, o ≠ Ok a) ∨
  validateInput (asset_input op) = None ∧ ∃ a, (∀ a', o = Ok a' → a' = a) ∧
  ∃ id r, a = asset_of (id, r) ∧ writes_row (pg_tables s) op id r ∧
    pg_tables s' = with_assets (pg_tables s) (<[id := r]> (t_assets (pg_tables s))).
Proof.
  intros [_ Hu]. destruct op as [input|input|x input]; cbn [asset_run asset_input].
  - intros [?|(Hv & a & Hq & Ha)]%(checked_effect _ _ _ _ _ _ (wrap_run _)); [by left|right].
    split; [done|]. exists a. split; [done|].
    cbv zeta in Hq. destruct (reads_asset _ _ _ _ _) as [[m by_]|] eqn:Er; [|done]. apply reads_asset_ok in Er.
    destruct (find_place _ _ _ _) eqn:Ef; [done|]. by eapply (insert_writes _ (OpCreate input)).
  - intros [?|(Hv & a & Hq & Ha)]%(checked_effect _ _ _ _ _ _ (wrap_run _)); [by left|right].
    split; [done|]. exists a. split; [done|].
    cbv zeta in Hq. destruct (reads_asset _ _ _ _ _) as [[m by_]|] eqn:Er; [|done]. apply reads_asset_ok in Er.
    destruct (find_place _ _ _ _) as [[id r]|] eqn:Ef; [|by eapply (insert_writes _ (OpUpsert input))].
    injection Hq as <- <-. apply find_place_some in Ef as (Hid & H1 & H2 & H3).
    eexists _, _. split; [done|]. split; [|done]. unfold writes_row. rewrite Hid. repeat (split; [done|]).
    cbn. split; [|done]. intros j r' Hj K1 K2 K3. by apply (Hu _ _ _ _ Hj Hid).
  - unfold Update. cbv zeta. destruct (negb _); [|intros [= <- <-]; by left].
    intros [?|(Hv & a & Hq & Ha)]%(checked_effect _ _ _ _ _ _ (no_rows_run _ _)); [by left|right].
    split; [done|]. exists a. split; [done|].
    cbv zeta in Hq. destruct (pg_uuid _) as [u|] eqn:Eu; [|done].
    destruct (reads_asset _ _ _ _ _) as [[m by_]|] eqn:Er; [|done]. apply reads_asset_ok in Er.
    unfold live_asset in Hq. destruct (t_assets (pg_tables s) !! u) as [r|] eqn:El; [|done].
    destruct (is_live r) eqn:Elive; [|done].
    destruct (match find_place _ _ _ _ with Some _ => _ | None => _ end) eqn:Ef; [|done].
    injection Hq as <- <-. eexists _, _. split; [done|]. split; [|done].
    unfold writes_row. rewrite El. repeat (split; [done|]). cbn. split; [|split; [done|split; [done|by exists r]]].
    intros j r' Hj H1 H2 H3. destruct (find_place _ _ _ _) as [[k rk]|] eqn:Ep.
    + apply bool_decide_eq_true in Ef as ->. apply find_place_some in Ep as (Hk & K1 & K2 & K3).
      eapply Hu; [done|done|congruence..].
    + by destruct (find_place_none _ _ _ _ _ _ Ep Hj H1 H2 H3).
Qed.
Lemma asset_run_ok op s : assets_ok (pg_tables s) → assets_ok (pg_tables (asset_run op s).2).
Proof.
  intros Hok. destruct (asset_run op s) as [o s'] eqn:Hrun.
  cbn [snd]. destruct (asset_run_effect op s o s' Hok Hrun) as [[-> _]|(Hv & a & _ & id & r & _ & Hw & ->)]; [done|].
  destruct Hw as (H1 & H2 & H3 & H4 & _ & Hu & _). apply assets_ok_insert; [done| |done].
  pose proof (input_row_ok (asset_input op) [] [] None 0 Hv) as (?&?&?&?&?&?). cbn in *.
  unfold asset_row_ok. by rewrite H1, H2, H3, H4.
Qed.

(** Any number of calls, with the server failing where it likes. *)
Definition asset_history (ops : list asset_op) (s : store) : store :=
  fold_left (λ s op, (asset_run op s).2) ops s.

(** The inventory stays well formed: after any history of creations, upserts
    and updates, whatever their inputs and wherever statements fail, every
    asset has a trimmed name and host, a port from 1 to 65535 and a supported
    type, and no two assets share name, host and port. *)
Theorem assets_stay_well_formed ops s :
  assets_ok (pg_tables s) → assets_ok (pg_tables (asset_history ops s)).
Proof. unfold asset_history. revert s. induction ops as [|op ops IH]; intros s Hs; cbn; [done|]. by apply IH, asset_run_ok. Qed.

Lemma GetByID_clean x s : pg_faults s = [] →
  (GetByID x s).1 = match pg_uuid (TrimSpace x) with
                    | None => Err (Wrap §"get asset by id" pg_bad_uuid)
                    | Some u => match live_asset (pg_tables s) u with
                                | Some p => Ok (asset_of p)
                                | None => Err ErrAssetNotFound
                                end
                    end.
Proof.
  intros Hf. unfold GetByID, no_rows_as, query_row. rewrite query_clean by done.
  destruct (pg_uuid _) as [u|]; [|done]. by destruct (live_asset _ _).
Qed.

(** A written asset reads back: what a successful call returns has the
    input's fields, and looking it up afterwards returns the same asset, unless
    the call is an upsert of an archived asset, which stays archived. *)
Theorem written_asset_reads_back op s a s' x :
  assets_ok (pg_tables s) → asset_run op s = (Ok a, s') → pg_faults s' = [] →
  pg_uuid (TrimSpace x) = Some (A_ID a) →
  A_Name a = TrimSpace (in_Name (asset_input op)) ∧ A_Host a = TrimSpace (in_Host (asset_input op)) ∧
  A_Port a = in_Port (asset_input op) ∧ A_Type a = in_Type (asset_input op) ∧
  pg_jsonb (normalizedMetadata (in_MetadataJSON (asset_input op))) = Some (A_MetadataJSON a) ∧
  ((GetByID x s').1 = Ok a ∨
   (∃ input old, op = OpUpsert input ∧ t_assets (pg_tables s) !! A_ID a = Some old ∧
      p_status old = §"deleted" ∧ (GetByID x s').1 = Err ErrAssetNotFound)).
Proof.
  intros Hok Hrun Hf Hx. rewrite GetByID_clean, Hx by done.
  destruct (asset_run_effect _ _ _ _ Hok Hrun) as [[_ Hno]|(Hv & a' & Ha & id & r & -> & Hw & ->)]; [by destruct (Hno a)|].
  rewrite (Ha a eq_refl) in *. cbn in *. unfold live_asset. cbn. rewrite lookup_insert_eq.
  destruct Hw as (-> & -> & -> & -> & -> & _ & Hst & Hop). repeat (split; [done|]).
  destruct (is_live r) eqn:El; [by left|right].
  unfold is_live in El. apply negb_false_iff, bool_decide_eq_true in El. rewrite El in Hst.
  destruct (t_assets (pg_tables s) !! id) as [old|]; [|done]. destruct Hst as (Hst & _).
  destruct op as [input|input|y input]; cbn in Hop; [done|by eauto 10|].
  destruct Hop as (_ & ? & [= <-] & Hl). unfold is_live in Hl. by rewrite <- Hst in Hl.
Qed.
End Facts.

(** * Witnesses *)

#[local] Existing Instance demo_pg.
#[local] Existing Instance demo_pg_text.

Definition assets_demo : store :=
  PgStore (Tables ∅ ∅ ∅ ∅ {[§"a1" := PointRow §"vm" §"linux_vm" §"10.0.0.9" 22 §"{}" §"active" None 0]}
             ∅ ∅ None [] ∅ ∅) 0 [] None.
Definition assets_demo_input : AssetInput := NewAsset §" db " §"database" §"10.0.0.7" 5432 [] None.

Lemma assets_demo_ok : assets_ok (pg_tables assets_demo).
Proof.
  split.
  - apply map_Forall_singleton. by vm_compute.
  - intros i j r r'. cbn. intros [<- _]%lookup_singleton_Some [<- _]%lookup_singleton_Some. done.
Qed.

Lemma assets_stay_well_formed_witness :
  assets_ok (pg_tables assets_demo) ∧
  assets_ok (pg_tables (asset_history
    [OpCreate assets_demo_input; OpCreate assets_demo_input; OpUpdate §"a1" assets_demo_input; OpUpsert assets_demo_input]
    assets_demo)).
Proof. split; [exact assets_demo_ok|apply assets_stay_well_formed, assets_demo_ok]. Defined.

Lemma written_asset_reads_back_witness :
  ∃ a s', asset_run (OpCreate assets_demo_input) assets_demo = (Ok a, s') ∧ A_Name a = §"db" ∧
    (GetByID §" n1" s').1 = Ok a.
Proof.
  eexists _, _. split; [by apply run_ok; vm_compute|]. split; [done|].
  pose proof (written_asset_reads_back (OpCreate assets_demo_input) assets_demo
    (MkAsset §"n1" §"db" §"database" §"10.0.0.7" 5432 §"{}" 0) _ §" n1" assets_demo_ok
    ltac:(by apply run_ok; vm_compute) ltac:(by vm_compute) ltac:(by vm_compute)) as (_&_&_&_&_&[Hg|(i&o&[=]&_)]).
  exact Hg.
Defined.
