(* ===== verification/Credentials.v ===== *)
(** Credentials at rest: apps/api/internal/credentials/crypto.go and service.go.

    The cipher is AES-256-GCM of GoAes.v under the vault key; the service keeps
    one credential per asset and type in the credentials table
    (apps/api/migrations/000001_core_v1.up.sql and 000003).  The random nonce of
    each call is an argument: it is what [io.ReadFull(rand.Reader, nonce)]
    yields. *)
From S2P Require Import Prelude GoStrings GoCrypto GoAes GoEncoding Store PgServer Identity Assets.

Definition algorithmAES256GCM : bytes := §"AES-256-GCM".

Record Cipher := MkCipher { key : bytes; keyID : bytes }.

Definition decodeOrDeriveKey (masterKey : bytes) : bytes + error :=
  let trimmed := TrimSpace masterKey in
  if bool_decide (trimmed = []) then inr (Errorf §"ACCESSD_VAULT_KEY is required")
  else match std_decode trimmed with
       | Some decoded =>
           if (length decoded =? 32)%nat then inl decoded
           else inr (Errorf §"ACCESSD_VAULT_KEY base64 value must decode to 32 bytes")
       | None => inl (sha256 trimmed)
       end.

Definition NewCipher (masterKey keyID : bytes) : Cipher + error :=
  let resolvedKeyID := if bool_decide (TrimSpace keyID = []) then §"v1" else TrimSpace keyID in
  match decodeOrDeriveKey masterKey with
  | inr err => inr err
  | inl key => inl (MkCipher key resolvedKeyID)
  end.

(** [aes.NewCipher]: the key's length is checked. *)
Definition aes_NewCipher {S} (key : bytes) : M S unit :=
  guard! aes_key_ok key else ErrVar §"aes.KeySizeError" in ret tt.

Definition Encrypt {S} (c : Cipher) (random : bytes + error) (plaintext aad : bytes) : M S (bytes * bytes) :=
  do! wrap_err §"create aes cipher" (aes_NewCipher (key c)) in
  match random with
  | inr e => fail (Wrap §"generate nonce" e)
  | inl nonce =>
      if gcm_fits plaintext then ret (nonce, gcm_seal (key c) nonce plaintext aad)
      else panic §"crypto/cipher: message too large for GCM"
  end.

Definition Decrypt {S} (c : Cipher) (nonce encrypted aad : bytes) : M S bytes :=
  do! wrap_err §"create aes cipher" (aes_NewCipher (key c)) in
  guard! (length nonce =? gcm_nonce_size)%nat else Errorf §"invalid nonce size" in
  match gcm_open (key c) nonce encrypted aad with
  | Some plaintext => ret plaintext
  | None => fail (Wrap §"decrypt credential secret" (ErrVar §"cipher: message authentication failed"))
  end.

(** * The service *)

Definition TypePassword : bytes := §"password".
Definition TypeSSHKey : bytes := §"ssh_key".
Definition TypeDBPassword : bytes := §"db_password".

Definition ErrCredentialNotFound : error := ErrVar §"credentials.ErrCredentialNotFound".

Record StoredCredential := Stored {
  sc_ID : bytes;
  sc_AssetID : bytes;
  sc_Type : bytes;
  sc_Username : bytes;
  sc_Algorithm : bytes;
  sc_KeyID : bytes;
  sc_CreatedAt : Z;
}.
Record CredentialMetadata := CredMetadata {
  cm_ID : bytes;
  cm_AssetID : bytes;
  cm_Type : bytes;
  cm_Username : bytes;
  cm_Algorithm : bytes;
  cm_KeyID : bytes;
  cm_Metadata : bytes;
  cm_CreatedAt : Z;
  cm_UpdatedAt : Z;
  cm_LastRotatedAt : option Z;
}.
Record CredentialInput := NewCredential {
  ci_AssetID : bytes;
  ci_Type : bytes;
  ci_Username : bytes;
  ci_Secret : bytes;
  ci_Metadata : bytes;
  ci_CreatedBy : option bytes;
}.
Record ResolvedCredential := Resolved {
  rc_AssetID : bytes;
  rc_Type : bytes;
  rc_Username : bytes;
  rc_Secret : bytes;
}.

Definition isSupportedType (t : bytes) : bool :=
  bool_decide (t ∈ [TypePassword; TypeSSHKey; TypeDBPassword]).

Definition validateCreateInput (input : CredentialInput) : option error :=
  if bool_decide (TrimSpace (ci_AssetID input) = []) then Some (Errorf §"asset id is required")
  else if bool_decide (TrimSpace (ci_Secret input) = []) then Some (Errorf §"secret is required")
  else if negb (isSupportedType (ci_Type input))
  then Some (Errorf (§"unsupported credential type: " ++ ci_Type input))
  else if (0 <? length (ci_Metadata input))%nat && negb (json_valid (ci_Metadata input))
  then Some (Errorf §"metadata must be valid json")
  else None.

Definition normalizeMetadata (raw : bytes) : bytes := if bool_decide (raw = []) then §"{}" else raw.

Definition credential_aad (input : CredentialInput) : bytes :=
  §"asset:" ++ TrimSpace (ci_AssetID input) ++ §":type:" ++ ci_Type input.

Section Service.
Context `{Postgres, PostgresText}.
Context (c : Cipher).

(** The parameters of the INSERT as the server reads them: the asset it refers
    to, and the row. *)
Definition credential_of (t : tables) (now : Z) (n : nat) (input : CredentialInput) (nonce encrypted aad : bytes)
    : (bytes * credential_row) + error :=
  match pg_uuid (TrimSpace (ci_AssetID input)), pg_jsonb (normalizeMetadata (ci_Metadata input)),
        (match ci_CreatedBy input with Some u => Some <$> pg_uuid u | None => Some None end) with
  | Some asset, Some metadata, Some by_ =>
      if pg_text (keyID c) && pg_text (TrimSpace (ci_Username input))
      then if bool_decide (is_Some (t_assets t !! asset))
              && match by_ with Some u => bool_decide (is_Some (t_users t !! u)) | None => true end
           then inl (asset, CredentialRow (pg_random_uuid n) algorithmAES256GCM (keyID c) nonce encrypted aad
                              metadata (Some (TrimSpace (ci_Username input))) by_ now now (Some now))
           else inr pg_constraint
      else inr pg_bad_text
  | _, _, _ => inr pg_bad_text
  end.

(** [RETURNING id, asset_id, credential_type, COALESCE(username, ''), ...]. *)
Definition stored_of (asset type : bytes) (r : credential_row) : StoredCredential :=
  Stored (cr_id r) asset type (default [] (cr_username r)) (cr_algorithm r) (cr_key_id r) (cr_created_at r).

Definition Create (random : bytes + error) (input : CredentialInput) : M store StoredCredential :=
  checked (validateCreateInput input)
  (let! (nonce, encrypted) :=
     wrap_err §"encrypt secret" (Encrypt c random (ci_Secret input) (credential_aad input)) in
   wrap_err §"create credential" (query (λ now n t,
     match credential_of t now n input nonce encrypted (credential_aad input) with
     | inr e => inr e
     | inl (asset, r) =>
         if bool_decide (t_credentials t !! (asset, ci_Type input) = None)
         then inl (stored_of asset (ci_Type input) r,
                   with_credentials t (<[(asset, ci_Type input) := r]> (t_credentials t)))
         else inr pg_constraint
     end))).

(** [ON CONFLICT (asset_id, credential_type) DO UPDATE]: the row keeps its
    identity and age. *)
Definition replace_credential (old r : credential_row) : credential_row :=
  CredentialRow (cr_id old) (cr_algorithm r) (cr_key_id r) (cr_nonce r) (cr_encrypted r) (cr_aad r)
    (cr_metadata r) (cr_username r) (cr_created_by r) (cr_created_at old) (cr_updated_at r) (cr_last_rotated_at r).

Definition Upsert (random : bytes + error) (input : CredentialInput) : M store StoredCredential :=
  checked (validateCreateInput input)
  (let! (nonce, encrypted) :=
     wrap_err §"encrypt secret" (Encrypt c random (ci_Secret input) (credential_aad input)) in
   wrap_err §"upsert credential" (query (λ now n t,
     match credential_of t now n input nonce encrypted (credential_aad input) with
     | inr e => inr e
     | inl (asset, r) =>
         let r' := match t_credentials t !! (asset, ci_Type input) with
                   | Some old => replace_credential old r | None => r end in
         inl (stored_of asset (ci_Type input) r',
              with_credentials t (<[(asset, ci_Type input) := r']> (t_credentials t)))
     end))).

Definition ResolveForAsset (assetID credentialType : bytes) : M store ResolvedCredential :=
  guard! negb (bool_decide (TrimSpace assetID = [])) else Errorf §"asset id is required" in
  guard! isSupportedType credentialType
    else Errorf (§"unsupported credential type: " ++ credentialType) in
  let! (asset, r) := no_rows_as ErrCredentialNotFound §"resolve credential" (query_row (λ t,
      match pg_uuid (TrimSpace assetID) with
      | None => inr pg_bad_uuid
      | Some u => inl (pair u <$> t_credentials t !! (u, credentialType))
      end)) in
  let! secret := Decrypt c (cr_nonce r) (cr_encrypted r) (cr_aad r) in
  ret (Resolved asset credentialType (default [] (cr_username r)) secret).

Definition metadata_of (p : bytes * bytes * credential_row) : CredentialMetadata :=
  let '(asset, type, r) := p in
  CredMetadata (cr_id r) asset type (default [] (cr_username r)) (cr_algorithm r) (cr_key_id r)
    (cr_metadata r) (cr_created_at r) (cr_updated_at r) (cr_last_rotated_at r).

Definition ListMetadataForAsset (assetID : bytes) : M store (list CredentialMetadata) :=
  let aid := TrimSpace assetID in
  guard! negb (bool_decide (aid = [])) else Errorf §"asset id is required" in
  wrap_err §"list credential metadata" (query (λ _ _ t,
    match pg_uuid aid with
    | None => inr pg_bad_uuid
    | Some u => inl (order_text cm_Type (map metadata_of
                  (List.filter (λ p, bool_decide (p.1.1 = u)) (map_to_list (t_credentials t)))), t)
    end)).
End Service.
