(* ===== verification/CredentialsSpec.v ===== *)
(** The credential store against its specification: a finite map from an asset
    and a type to a user name and a secret.  The table holds only sealed
    secrets; the theorems say that it refines the map, that looking up answers
    from the map on every branch, what the cipher accepts and which keys it
    has. *)
From S2P Require Import Prelude GoStrings GoCrypto GoAes GoEncoding Store PgServer Identity Assets Credentials.

(** Sealing is not computed by conversion. *)
#[local] Opaque gcm_seal gcm_open gcm_fits.

(** * The specification *)

Abbreviation vault := (gmap (bytes * bytes) (bytes * bytes)).

(** A row that holds a user name and a secret, under a cipher. *)
Definition row_holds (c : Cipher) (r : credential_row) (p : bytes * bytes) : Prop :=
  cr_username r = Some p.1 ∧ length (cr_nonce r) = gcm_nonce_size ∧ gcm_fits p.2 = true ∧
  cr_encrypted r = gcm_seal (key c) (cr_nonce r) p.2 (cr_aad r) ∧
  cr_algorithm r = algorithmAES256GCM ∧ cr_key_id r = keyID c.
Definition represents (c : Cipher) (t : tables) (v : vault) : Prop :=
  ∀ k, option_relation (row_holds c) (λ _, False) (λ _, False) (t_credentials t !! k) (v !! k).

Inductive vault_op :=
| PutNew (random : bytes + error) (input : CredentialInput)
| Put (random : bytes + error) (input : CredentialInput)
| Resolve (assetID credentialType : bytes)
| List_ (assetID : bytes).
Inductive vault_answer :=
| AStored (sc : StoredCredential)
| AResolved (rc : ResolvedCredential)
| AListed (items : list CredentialMetadata).

(** What [io.ReadFull] into a nonce yields. *)
Definition full_nonce (random : bytes + error) : Prop :=
  match random with inl n => length n = gcm_nonce_size | inr _ => True end.
Definition op_random (op : vault_op) : Prop :=
  match op with PutNew r _ | Put r _ => full_nonce r | _ => True end.

Section Spec.
Context `{Postgres, PostgresText}.
Context (c : Cipher).

Definition vault_run (op : vault_op) : M store vault_answer :=
  match op with
  | PutNew random input => let! sc := Create c random input in ret (AStored sc)
  | Put random input => let! sc := Upsert c random input in ret (AStored sc)
  | Resolve a ty => let! rc := ResolveForAsset c a ty in ret (AResolved rc)
  | List_ a => let! l := ListMetadataForAsset a in ret (AListed l)
  end.

(** The pair an input is stored under, and what is stored. *)
Definition input_key (input : CredentialInput) (k : bytes * bytes) : Prop :=
  pg_uuid (TrimSpace (ci_AssetID input)) = Some k.1 ∧ ci_Type input = k.2.
Definition input_value (input : CredentialInput) : bytes * bytes :=
  (TrimSpace (ci_Username input), ci_Secret input).

(** One call on the map: it may fail and change nothing; it may store, whether
    or not the answer arrives; a credential is created at a free pair only; what
    is resolved or listed is what the map holds. *)
Inductive vault_step (v : vault) : vault_op → outcome vault_answer → vault → Prop :=
| StepFails op o : (∀ a, o ≠ Ok a) → vault_step v op o v
| StepCreates random input k o :
    validateCreateInput input = None → input_key input k → v !! k = None →
    (∀ a, o = Ok a → ∃ sc, a = AStored sc ∧ (sc_AssetID sc, sc_Type sc) = k ∧ sc_Username sc = (input_value input).1) →
    vault_step v (PutNew random input) o (<[k := input_value input]> v)
| StepPuts random input k o :
    validateCreateInput input = None → input_key input k →
    (∀ a, o = Ok a → ∃ sc, a = AStored sc ∧ (sc_AssetID sc, sc_Type sc) = k ∧ sc_Username sc = (input_value input).1) →
    vault_step v (Put random input) o (<[k := input_value input]> v)
| StepResolves a ty u name secret :
    pg_uuid (TrimSpace a) = Some u → v !! (u, ty) = Some (name, secret) →
    vault_step v (Resolve a ty) (Ok (AResolved (Resolved u ty name secret))) v
| StepLists a u items :
    pg_uuid (TrimSpace a) = Some u →
    (∀ ty name, (∃ m, m ∈ items ∧ cm_AssetID m = u ∧ cm_Type m = ty ∧ cm_Username m = name) ↔
                ∃ secret, v !! (u, ty) = Some (name, secret)) →
    vault_step v (List_ a) (Ok (AListed items)) v.

(** The answer to a look-up, when no statement fails. *)
Definition vault_answer_of (v : vault) (a ty : bytes) : outcome ResolvedCredential :=
  if bool_decide (TrimSpace a = []) then Err (Errorf §"asset id is required")
  else if negb (isSupportedType ty) then Err (Errorf (§"unsupported credential type: " ++ ty))
  else match pg_uuid (TrimSpace a) with
       | None => Err (Wrap §"resolve credential" pg_bad_uuid)
       | Some u => match v !! (u, ty) with
                   | None => Err ErrCredentialNotFound
                   | Some (name, secret) => Ok (Resolved u ty name secret)
                   end
       end.

(** A history of calls, with their outcomes. *)
Fixpoint vault_history (ops : list vault_op) (s : store) : list (vault_op * outcome vault_answer) * store :=
  match ops with
  | [] => ([], s)
  | op :: rest =>
      let '(o, s1) := vault_run op s in
      let '(log, s2) := vault_history rest s1 in ((op, o) :: log, s2)
  end.
Inductive vault_steps : vault → list (vault_op * outcome vault_answer) → vault → Prop :=
| StepsNil v : vault_steps v [] v
| StepsCons v op o v1 log v2 : vault_step v op o v1 → vault_steps v1 log v2 → vault_steps v ((op, o) :: log) v2.
End Spec.

(** * The cipher *)

Lemma Encrypt_iff {S} c random plaintext aad (s s' : S) nonce encrypted :
  Encrypt c random plaintext aad s = (Ok (nonce, encrypted), s') ↔
  s' = s ∧ aes_key_ok (key c) = true ∧ random = inl nonce ∧ gcm_fits plaintext = true ∧
  encrypted = gcm_seal (key c) nonce plaintext aad.
Proof.
  unfold Encrypt, aes_NewCipher, bind, wrap_err, fail, ret, panic. destruct (aes_key_ok _); [|naive_solver].
  destruct random as [n|e]; [|naive_solver]. destruct (gcm_fits _); naive_solver.
Qed.

Lemma Decrypt_iff {S} c nonce encrypted aad (s s' : S) plaintext :
  Decrypt c nonce encrypted aad s = (Ok plaintext, s') ↔
  s' = s ∧ aes_key_ok (key c) = true ∧ length nonce = gcm_nonce_size ∧ gcm_fits plaintext = true ∧
  encrypted = gcm_seal (key c) nonce plaintext aad.
Proof.
  unfold Decrypt, aes_NewCipher, bind, wrap_err, fail, ret. destruct (aes_key_ok _) eqn:Hk; [|naive_solver].
  destruct (_ =? _)%nat eqn:Hn; [apply Nat.eqb_eq in Hn|apply Nat.eqb_neq in Hn; naive_solver].
  pose proof (gcm_open_iff (key c) nonce Hk Hn encrypted aad plaintext) as Ho.
  destruct (gcm_open _ _ _ _) as [p|].
  - split; [intros [= <- <-]; by destruct (proj1 Ho eq_refl)|].
    intros (-> & _ & _ & Hf). by injection (proj2 Ho Hf) as ->.
  - split; [done|]. intros (_ & _ & _ & Hf). by discriminate (proj2 Ho Hf).
Qed.

Lemma Decrypt_state {S} c nonce encrypted aad (s : S) : (Decrypt c nonce encrypted aad s).2 = s.
Proof.
  unfold Decrypt, aes_NewCipher, bind, wrap_err, fail, ret.
  destruct (aes_key_ok _); [|done]. destruct (_ =? _)%nat; [|done]. by destruct (gcm_open _ _ _ _).
Qed.

Lemma decodeOrDeriveKey_32 m k : decodeOrDeriveKey m = inl k → length k = 32%nat.
Proof.
  unfold decodeOrDeriveKey. cbv zeta. case_bool_decide; [done|]. destruct (std_decode _) as [d|].
  - destruct (_ =? _)%nat eqn:E; [|done]. intros [= <-]. by apply Nat.eqb_eq.
  - intros [= <-]. apply length_sha256.
Qed.
Lemma key_32_ok k : length k = 32%nat → aes_key_ok k = true.
Proof. unfold aes_key_ok. by intros ->. Qed.

Section Facts.
Context `{Postgres, PostgresText}.
Context (c : Cipher).

(** A write of the service: nothing, or the row with the sealed secret. *)
Lemma sealed_effect {A} err m1 m2 random secret aad (q : bytes → bytes → Z → nat → tables → (A * tables) + error) s o s' :
  checked err (let! (nonce, encrypted) := wrap_err m1 (Encrypt c random secret aad) in
               wrap_err m2 (query (q nonce encrypted))) s = (o, s') →
  (pg_tables s' = pg_tables s ∧ ∀ a, o ≠ Ok a) ∨
  err = None ∧ ∃ nonce, random = inl nonce ∧ gcm_fits secret = true ∧
    ∃ a, q nonce (gcm_seal (key c) nonce secret aad) (pg_clock s) (pg_steps s) (pg_tables s) = inl (a, pg_tables s') ∧
         ∀ a', o = Ok a' → a' = a.
Proof.
  intros [[He Hrun]|[-> ?]]%checked_run; [|by left]. unfold bind in Hrun.
  destruct (wrap_err m1 _ s) as [[[n e]|e|w|] s1] eqn:Ee.
  2,3,4: unfold wrap_err, Encrypt, aes_NewCipher, bind, ret, fail, panic in Ee;
    destruct (aes_key_ok _); [destruct random; [destruct (gcm_fits _)|]|]; simplify_eq/=;
    left; by split.
  apply wrap_ok, Encrypt_iff in Ee as (-> & _ & -> & Hf & ->).
  apply wrap_run in Hrun as (o' & [[? Hno]|(a & Hq & Ha)]%query_effect & Ho).
  - left. split; [done|]. intros a ->. by eapply Hno, Ho.
  - right. split; [done|]. exists n. split; [done|]. split; [done|]. exists a. split; [done|].
    intros a' ->. by apply Ha, Ho.
Qed.

Lemma credential_of_ok t now n input nonce encrypted aad asset r :
  credential_of c t now n input nonce encrypted aad = inl (asset, r) →
  pg_uuid (TrimSpace (ci_AssetID input)) = Some asset ∧ is_Some (t_assets t !! asset) ∧
  cr_username r = Some (TrimSpace (ci_Username input)) ∧ cr_nonce r = nonce ∧ cr_encrypted r = encrypted ∧
  cr_aad r = aad ∧ cr_algorithm r = algorithmAES256GCM ∧ cr_key_id r = keyID c.
Proof.
  unfold credential_of. destruct (pg_uuid _) as [u|]; [|done]. destruct (pg_jsonb _) as [m|]; [|done].
  destruct (match ci_CreatedBy input with Some _ => _ | None => _ end) as [by_|]; [|done].
  destruct (_ && _); [|done]. destruct (bool_decide (is_Some (t_assets t !! u))) eqn:Ea; [|done].
  apply bool_decide_eq_true in Ea. cbn [andb]. destruct (match by_ with Some _ => _ | None => _ end); [|done].
  by intros [= <- <-].
Qed.

Lemma represents_insert t v k r p :
  represents c t v → row_holds c r p →
  represents c (with_credentials t (<[k := r]> (t_credentials t))) (<[k := p]> v).
Proof.
  intros Hr Hp k'. cbn. destruct (decide (k = k')) as [<-|Hne].
  - by rewrite !lookup_insert_eq.
  - rewrite !lookup_insert_ne by done. apply Hr.
Qed.
Lemma represents_lookup t v k :
  represents c t v →
  (t_credentials t !! k = None ∧ v !! k = None) ∨
  ∃ r p, t_credentials t !! k = Some r ∧ v !! k = Some p ∧ row_holds c r p.
Proof. intros Hr. specialize (Hr k). destruct (t_credentials t !! k), (v !! k); cbn in Hr; eauto 10; done. Qed.

(** Answers of the calls that write. *)
Lemma lifted_answer {A} (m : M store A) (f : A → vault_answer) s o s' :
  (let! x := m in ret (f x)) s = (o, s') →
  ∃ o', m s = (o', s') ∧ (∀ a, o = Ok a → ∃ x, o' = Ok x ∧ a = f x) ∧ ((∀ x, o' ≠ Ok x) → ∀ a, o ≠ Ok a).
Proof.
  unfold bind, ret. destruct (m s) as [o' s1]. destruct o' as [x|e|w|]; intros [= <- <-]; eexists; split; try done;
    (split; [intros ? [=]; subst; by eexists|intros Hx ? [=]]). by eapply Hx.
Qed.

Lemma vault_run_write random input s o s' v :
  full_nonce random → represents c (pg_tables s) v →
  ∀ op, op = PutNew random input ∨ op = Put random input →
  vault_run c op s = (o, s') → ∃ v', vault_step v op o v' ∧ represents c (pg_tables s') v'.
Proof.
  intros Hn Hr op Hop Hrun.
  assert (Hput : (pg_tables s' = pg_tables s ∧ ∀ a, o ≠ Ok a) ∨
    ∃ k r, validateCreateInput input = None ∧ input_key input k ∧ row_holds c r (input_value input) ∧
      pg_tables s' = with_credentials (pg_tables s) (<[k := r]> (t_credentials (pg_tables s))) ∧
      (∀ a, o = Ok a → ∃ sc, a = AStored sc ∧ (sc_AssetID sc, sc_Type sc) = k ∧ sc_Username sc = (input_value input).1) ∧
      (op = PutNew random input → t_credentials (pg_tables s) !! k = None)).
  { destruct Hop as [-> | ->]; apply lifted_answer in Hrun as (o' & Hrun & Ho & Hno);
      (apply sealed_effect in Hrun as [[? Hx]|(Hv & n & -> & Hf & sc & Hq & Hsc)]; [left; by eauto|right]);
      destruct (credential_of _ _ _ _ _ _ _ _) as [[asset r]|] eqn:Ec; try done;
      apply credential_of_ok in Ec as (Hk & _ & Hu & H1 & H2 & H3 & H4 & H5).
    - case_bool_decide; [|done]. injection Hq as <- <-. exists (asset, ci_Type input), r.
      repeat (split; [done|]). split; [unfold row_holds; by rewrite H1, H2, H3|]. split; [done|]. split; [|done].
      intros a (x & -> & ->)%Ho. rewrite (Hsc x) by done.
      eexists. do 2 (split; [done|]). cbn. by rewrite Hu.
    - injection Hq as <- <-. set (r' := match _ !! (asset, ci_Type input) with Some old => replace_credential old r | None => r end) in *.
      assert (Hr' : row_holds c r' (input_value input)).
      { unfold row_holds, r'. destruct (_ !! _); cbn; by rewrite Hu, H1, H2, H3. }
      exists (asset, ci_Type input), r'. repeat (split; [done|]). split; [|done].
      intros a (x & -> & ->)%Ho. rewrite (Hsc x) by done. eexists. do 2 (split; [done|]).
      cbn [stored_of sc_Username]. by rewrite (proj1 Hr'). }
  destruct Hput as [[-> Hno]|(k & r & Hv & Hk & Hrow & -> & Ha & Hfree)]; [exists v; by split; [constructor|]|].
  exists (<[k := input_value input]> v). split; [|by apply represents_insert].
  destruct Hop as [-> | ->]; [|by constructor]. constructor; try done.
  destruct (represents_lookup _ _ k Hr) as [[_ ?]|(r0 & p & Hl & _)]; [done|]. by rewrite Hfree in Hl.
Qed.
(** Reading the row of a pair: the read changes nothing, and what it returns is
    the row. *)
Lemma read_row (q : tables → option (bytes * credential_row) + error) missing msg s o s' :
  no_rows_as missing msg (query_row q) s = (o, s') →
  pg_tables s' = pg_tables s ∧ ∀ x, o = Ok x → q (pg_tables s) = inl (Some x).
Proof.
  unfold query_row. intros (o' & Hrun & Ho)%no_rows_run. apply query_effect in Hrun as [[? Hno]|(x & Hq & Hx)].
  - split; [done|]. intros x ->. by destruct (Hno x); apply Ho.
  - destruct (q (pg_tables s)) as [[y|]|]; simplify_eq. split; [done|]. intros x' ->.
    by rewrite (Hx x' (proj1 (Ho x') eq_refl)).
Qed.

Lemma resolve_step a ty s o s' v : represents c (pg_tables s) v →
  ResolveForAsset c a ty s = (o, s') →
  pg_tables s' = pg_tables s ∧
  ∀ rc, o = Ok rc → ∃ u name secret, pg_uuid (TrimSpace a) = Some u ∧ v !! (u, ty) = Some (name, secret) ∧
                                     rc = Resolved u ty name secret.
Proof.
  intros Hr. unfold ResolveForAsset. destruct (negb _); [|by intros [= <- <-]].
  destruct (isSupportedType ty); [|by intros [= <- <-]]. unfold bind.
  destruct (no_rows_as _ _ _ s) as [[[u r]|e|w|] s1] eqn:Eq; apply read_row in Eq as [Ht Hq];
    [|by intros [= <- <-]..].
  specialize (Hq _ eq_refl). destruct (pg_uuid _) as [u'|]; [|done].
  destruct (represents_lookup _ _ (u', ty) Hr) as [[Hn _]|(r0 & [name secret] & Hl & Hv & Hrow)];
    [by rewrite Hn in Hq|]. rewrite Hl in Hq. injection Hq as <- <-.
  pose proof (Decrypt_state c (cr_nonce r0) (cr_encrypted r0) (cr_aad r0) s1) as Hs.
  destruct (Decrypt c _ _ _ s1) as [[pt|e|w|] s2] eqn:Ed; cbn in Hs; subst s2; intros [= <- <-]; try done.
  - apply Decrypt_iff in Ed as (_ & Hk & Hn & Hf & He). split; [done|]. intros rc [= <-].
    destruct Hrow as (Hu & _ & Hf' & He' & _). rewrite He in He'.
    apply (gcm_seal_inj _ _ Hk Hn _ _ _ Hf Hf') in He' as ->.
    cbn [fst snd] in *. exists u', name, secret. by rewrite Hu.
Qed.
Lemma listed_iff t v u : represents c t v →
  ∀ ty name,
  (∃ m, m ∈ order_text cm_Type (map metadata_of (List.filter (λ p, bool_decide (p.1.1 = u)) (map_to_list (t_credentials t))))
        ∧ cm_AssetID m = u ∧ cm_Type m = ty ∧ cm_Username m = name) ↔
  ∃ secret, v !! (u, ty) = Some (name, secret).
Proof.
  intros Hr ty name. setoid_rewrite order_text_perm. split.
  - intros (m & Hin & H1 & H2 & H3). apply list_elem_of_fmap in Hin as ([[a' ty'] r] & -> & Hin).
    apply list_elem_of_In, List.filter_In in Hin as [Hin _]. apply list_elem_of_In, elem_of_map_to_list in Hin.
    cbn in H1, H2, H3, Hin. subst. destruct (represents_lookup _ _ (u, ty) Hr) as [[Hn _]|(r0 & [n s] & Hl & Hv & Hu & _)].
    { by rewrite Hn in Hin. }
    rewrite Hl in Hin. injection Hin as ->. exists s. by rewrite Hu.
  - intros (secret & Hv). destruct (represents_lookup _ _ (u, ty) Hr) as [[_ Hn]|(r0 & [n s] & Hl & Hv' & Hu & _)];
      [by rewrite Hn in Hv|]. rewrite Hv in Hv'. injection Hv' as <- <-.
    exists (metadata_of (u, ty, r0)). split; [|by cbn; rewrite Hu].
    apply list_elem_of_fmap. exists (u, ty, r0). split; [done|].
    apply list_elem_of_In, List.filter_In. split; [by apply list_elem_of_In, elem_of_map_to_list|]. cbn.
    by rewrite bool_decide_eq_true_2.
Qed.

Lemma list_step a s o s' v : represents c (pg_tables s) v →
  ListMetadataForAsset a s = (o, s') →
  pg_tables s' = pg_tables s ∧
  ∀ items, o = Ok items → ∃ u, pg_uuid (TrimSpace a) = Some u ∧
    ∀ ty name, (∃ m, m ∈ items ∧ cm_AssetID m = u ∧ cm_Type m = ty ∧ cm_Username m = name) ↔
               ∃ secret, v !! (u, ty) = Some (name, secret).
Proof.
  intros Hr. unfold ListMetadataForAsset. cbv zeta. destruct (negb _); [|by intros [= <- <-]].
  intros (o' & [[Ht Hno]|(items & Hq & Hi)]%query_effect & Ho)%wrap_run.
  - split; [done|]. intros items ->. by destruct (Hno items); apply Ho.
  - destruct (pg_uuid _) as [u|]; [|done]. injection Hq as <- <-. split; [done|].
    intros items' ->. rewrite (Hi items' (proj1 (Ho _) eq_refl)). exists u. split; [done|]. by apply listed_iff.
Qed.

Lemma vault_run_step op s o s' v :
  op_random op → represents c (pg_tables s) v → vault_run c op s = (o, s') →
  ∃ v', vault_step v op o v' ∧ represents c (pg_tables s') v'.
Proof.
  intros Hn Hr Hrun. destruct op as [random input|random input|a ty|a];
    [by eapply vault_run_write; eauto..| |]; apply lifted_answer in Hrun as (o' & Hrun & Ho & Hno).
  - destruct (resolve_step _ _ _ _ _ _ Hr Hrun) as [-> Hok]. exists v. split; [|done].
    destruct o as [x| | |]; [|by constructor..]. destruct (Ho x eq_refl) as (rc & -> & ->).
    destruct (Hok rc eq_refl) as (u & name & secret & Hu & Hv & ->). by constructor.
  - destruct (list_step _ _ _ _ _ Hr Hrun) as [-> Hok]. exists v. split; [|done].
    destruct o as [x| | |]; [|by constructor..]. destruct (Ho x eq_refl) as (items & -> & ->).
    destruct (Hok items eq_refl) as (u & Hu & Hi). by econstructor.
Qed.

(** C26. Refinement: the credentials table behaves as a finite map from an asset
    and a type to a user name and a secret, over every history of creations,
    upserts, look-ups and listings and wherever statements fail.  A creation
    stores at a free pair only, an upsert replaces, a failed call changes
    nothing or stores (its answer was lost), and what is resolved or listed is
    what the map holds, although the table holds only sealed secrets. *)
Theorem credential_store_refines_map ops s v :
  Forall op_random ops → represents c (pg_tables s) v →
  ∃ v', vault_steps v (vault_history c ops s).1 v' ∧ represents c (pg_tables (vault_history c ops s).2) v'.
Proof.
  intros Hops. revert s v. induction Hops as [|op ops Hop _ IH]; intros s v Hr; cbn.
  - exists v. split; [constructor|done].
  - destruct (vault_run c op s) as [o s1] eqn:Hrun.
    destruct (vault_run_step _ _ _ _ _ Hop Hr Hrun) as (v1 & Hs & Hr1).
    destruct (IH s1 v1 Hr1) as (v2 & Hs2 & Hr2). destruct (vault_history c ops s1) as [log s2].
    exists v2. split; [|done]. by econstructor.
Qed.

Lemma resolve_clean a ty s v :
  aes_key_ok (key c) = true → pg_faults s = [] → represents c (pg_tables s) v →
  (ResolveForAsset c a ty s).1 = vault_answer_of v a ty.
Proof.
  intros Hk Hf Hr. unfold ResolveForAsset, vault_answer_of. case_bool_decide; [done|]. cbn [negb].
  destruct (isSupportedType ty); [|done]. cbn [negb]. unfold bind, no_rows_as, query_row.
  rewrite query_clean by done. destruct (pg_uuid _) as [u|]; [|done].
  destruct (represents_lookup _ _ (u, ty) Hr) as [[-> ->]|(r & [name secret] & -> & -> & Hu & Hn & Hfit & He & _)]; [done|].
  cbn [fmap option_fmap option_map]. set (s1 := PgStore _ _ _ _).
  pose proof (proj2 (Decrypt_iff c (cr_nonce r) (cr_encrypted r) (cr_aad r) s1 s1 secret)) as Hd.
  rewrite Hd by done. cbn in *. by rewrite Hu.
Qed.

(** Looking a credential up answers from the map on every branch: a blank
    asset and an unknown type are refused, an identifier PostgreSQL cannot
    read is its error, a free pair is [ErrCredentialNotFound] and a stored one
    gives back the user name and the secret. *)
Theorem resolve_answers_from_the_map a ty s v :
  aes_key_ok (key c) = true → pg_faults s = [] → represents c (pg_tables s) v →
  (ResolveForAsset c a ty s).1 = vault_answer_of v a ty.
Proof. apply resolve_clean. Qed.

(** Moving a sealed secret: the associated data that is to bind it to its
    asset and type is read from the row itself, so a row copied to another
    asset in the table resolves there, to the first asset's secret. *)
Theorem ciphertext_can_be_moved s v a ty u u' name secret r :
  aes_key_ok (key c) = true → pg_faults s = [] → represents c (pg_tables s) v →
  isSupportedType ty = true → TrimSpace a ≠ [] → pg_uuid (TrimSpace a) = Some u' →
  t_credentials (pg_tables s) !! (u, ty) = Some r → v !! (u, ty) = Some (name, secret) →
  let t := pg_tables s in
  let moved := PgStore (with_credentials t (<[(u', ty) := r]> (t_credentials t))) (pg_steps s) [] (pg_began s) in
  (ResolveForAsset c a ty moved).1 = Ok (Resolved u' ty name secret).
Proof.
  intros Hk Hf Hr Hty Ha Hu Hrow Hv t moved.
  destruct (represents_lookup _ _ (u, ty) Hr) as [[Hn _]|(r0 & p & Hl & Hv' & Hp)]; [by rewrite Hn in Hrow|].
  assert (r0 = r) as -> by congruence. assert (p = (name, secret)) as -> by congruence.
  rewrite (resolve_clean a ty moved (<[(u', ty) := (name, secret)]> v)); try done.
  - unfold vault_answer_of. by rewrite bool_decide_eq_false_2, Hty, Hu, lookup_insert_eq.
  - by apply represents_insert.
Qed.
End Facts.

(** C40. The vault key is always 32 bytes, or the process does not start: blank is
    an error; padded base64 must decode to 32 bytes, which are the key; any
    other text is hashed.  The key of [openssl rand -base64 32] is used as it
    is. *)
Theorem vault_key_is_32_bytes masterKey keyID :
  match NewCipher masterKey keyID with
  | inl c => length (key c) = 32%nat ∧ aes_key_ok (key c) = true ∧ Credentials.keyID c ≠ [] ∧
      (std_decode (TrimSpace masterKey) = Some (key c) ∨
       std_decode (TrimSpace masterKey) = None ∧ key c = sha256 (TrimSpace masterKey))
  | inr e => (TrimSpace masterKey = [] ∧ e = Errorf §"ACCESSD_VAULT_KEY is required") ∨
      (∃ d, std_decode (TrimSpace masterKey) = Some d ∧ length d ≠ 32%nat ∧
            e = Errorf §"ACCESSD_VAULT_KEY base64 value must decode to 32 bytes")
  end ∧
  ∀ k, length k = 32%nat → ∃ id, NewCipher (std_encode k) keyID = inl (MkCipher k id).
Proof.
  split.
  - unfold NewCipher. destruct (decodeOrDeriveKey masterKey) as [k|e] eqn:E.
    + pose proof (decodeOrDeriveKey_32 _ _ E) as H32. cbn [key Credentials.keyID].
      split; [done|]. split; [by apply key_32_ok|]. split; [by case_bool_decide|].
      unfold decodeOrDeriveKey in E. cbv zeta in E. case_bool_decide; [done|].
      destruct (std_decode _) as [d|]; [|right; by injection E as <-].
      destruct (_ =? _)%nat; [|done]. left. by injection E as ->.
    + unfold decodeOrDeriveKey in E. cbv zeta in E. case_bool_decide; [left; by injection E as <-|].
      destruct (std_decode _) as [d|]; [|done]. destruct (_ =? _)%nat eqn:En; [done|].
      apply Nat.eqb_neq in En. right. exists d. by injection E as <-.
  - intros k Hk. unfold NewCipher, decodeOrDeriveKey. cbv zeta.
    rewrite TrimSpace_std_encode, std_round_trip, Hk.
    rewrite bool_decide_eq_false_2; [by eexists|]. intros He.
    pose proof (std_round_trip k) as Hd. rewrite He in Hd. by injection Hd as <-.
Qed.

(** What the cipher opens: a text opens exactly when it is the sealed text of
    the result under the same key, nonce and associated data; so a changed tag
    or text, a nonce of another length and a wrong key are errors. *)
Theorem only_sealed_text_opens c nonce encrypted aad plaintext (s : store) :
  Decrypt c nonce encrypted aad s = (Ok plaintext, s) ↔
  aes_key_ok (key c) = true ∧ length nonce = gcm_nonce_size ∧ gcm_fits plaintext = true ∧
  Encrypt c (inl nonce) plaintext aad s = (Ok (nonce, encrypted), s).
Proof. rewrite Decrypt_iff, Encrypt_iff. naive_solver. Qed.

(** * Witnesses *)

#[local] Existing Instance demo_pg.
#[local] Existing Instance demo_pg_text.

Definition demo_cipher : Cipher := MkCipher (repeat "k"%byte 32) §"v1".
Definition demo_nonce : bytes := repeat "n"%byte 12.
Definition demo_credential : CredentialInput := NewCredential §" a1" §"password" §"root " §"hunter2" [] None.
Definition demo_row : credential_row :=
  CredentialRow §"n1" algorithmAES256GCM §"v1" demo_nonce
    (gcm_seal (key demo_cipher) demo_nonce §"hunter2" §"asset:a1:type:password") §"asset:a1:type:password"
    §"{}" (Some §"root") None 0 0 (Some 0).
Definition vault_demo : store :=
  PgStore (with_credentials (pg_tables assets_demo) {[(§"a1", §"password") := demo_row]}) 1 [] None.

Lemma demo_empty : represents demo_cipher (pg_tables assets_demo) ∅.
Proof. intros k. by rewrite !lookup_empty. Qed.
Lemma demo_represents : represents demo_cipher (pg_tables vault_demo) {[(§"a1", §"password") := (§"root", §"hunter2")]}.
Proof. apply (represents_insert _ (pg_tables assets_demo)); [apply demo_empty|]. by repeat split. Qed.

Lemma credential_store_refines_map_witness :
  map snd (vault_history demo_cipher [Put (inl demo_nonce) demo_credential; PutNew (inl demo_nonce) demo_credential;
             Resolve §"a1" §"password"] assets_demo).1 =
    [Ok (AStored (Stored §"n1" §"a1" §"password" §"root" algorithmAES256GCM §"v1" 0));
     Err (Wrap §"create credential" pg_constraint);
     Ok (AResolved (Resolved §"a1" §"password" §"root" §"hunter2"))] ∧
  ∃ v', vault_steps ∅ (vault_history demo_cipher [Put (inl demo_nonce) demo_credential] assets_demo).1 v'.
Proof.
  split; [by vm_compute|].
  destruct (credential_store_refines_map demo_cipher [Put (inl demo_nonce) demo_credential] assets_demo ∅) as (v' & Hv & _).
  - by constructor.
  - exact demo_empty.
  - by exists v'.
Defined.

Lemma resolve_answers_from_the_map_witness :
  (ResolveForAsset demo_cipher §" a1" §"password" vault_demo).1 = Ok (Resolved §"a1" §"password" §"root" §"hunter2") ∧
  (ResolveForAsset demo_cipher §"a1" §"ssh_key" vault_demo).1 = Err ErrCredentialNotFound.
Proof.
  split; (rewrite (resolve_answers_from_the_map demo_cipher _ _ vault_demo _ eq_refl eq_refl demo_represents)); by vm_compute.
Defined.

Lemma ciphertext_can_be_moved_witness :
  let t := pg_tables vault_demo in
  (ResolveForAsset demo_cipher §"a2" §"password"
    (PgStore (with_credentials t (<[(§"a2", §"password") := demo_row]> (t_credentials t))) 1 [] None)).1 =
  Ok (Resolved §"a2" §"password" §"root" §"hunter2").
Proof.
  apply (ciphertext_can_be_moved demo_cipher vault_demo _ §"a2" §"password" §"a1" §"a2" §"root" §"hunter2" demo_row
    eq_refl eq_refl demo_represents); by vm_compute.
Defined.
