(* ===== verification/Sftp.v ===== *)
(** The SFTP packets the SSH proxy reads while it relays them
    (apps/api/internal/sshproxy/server.go): their framing, the requests and the
    replies it recognises, the table that leads from a handle to the path it was
    opened with, and the event of a file operation. *)
From S2P Require Import Prelude GoStrings GoBinary GoEncoding GoNet ProxyEvents.

Definition sftpPacketInit : Z := 1.
Definition sftpPacketVersion : Z := 2.
Definition sftpPacketOpen : Z := 3.
Definition sftpPacketClose : Z := 4.
Definition sftpPacketRead : Z := 5.
Definition sftpPacketWrite : Z := 6.
Definition sftpPacketLstat : Z := 7.
Definition sftpPacketSetstat : Z := 9.
Definition sftpPacketOpendir : Z := 11.
Definition sftpPacketReaddir : Z := 12.
Definition sftpPacketRemove : Z := 13.
Definition sftpPacketMkdir : Z := 14.
Definition sftpPacketRmdir : Z := 15.
Definition sftpPacketRealpath : Z := 16.
Definition sftpPacketStat : Z := 17.
Definition sftpPacketRename : Z := 18.
Definition sftpPacketStatus : Z := 101.
Definition sftpPacketHandle : Z := 102.
Definition sftpPacketData : Z := 103.
Definition sftpPacketName : Z := 104.

Record sftpPendingRequest := PendingRequest {
  pr_Operation : bytes;
  pr_Path : bytes;
  pr_PathTo : bytes;
  pr_Handle : bytes;
  pr_Size : Z;
}.
Record sftpFileOperation := FileOperation {
  fo_Operation : bytes;
  fo_Path : bytes;
  fo_PathTo : bytes;
  fo_Size : Z;
}.

(** The maps behind the mutex. *)
Record sftpRelayState := RelayState {
  rs_pending : gmap Z sftpPendingRequest;
  rs_handles : gmap bytes bytes;
}.
Definition newSFTPRelayState : sftpRelayState := RelayState ∅ ∅.

Definition storePending (id : Z) (req : sftpPendingRequest) (s : sftpRelayState) : sftpRelayState :=
  RelayState (<[id := req]> (rs_pending s)) (rs_handles s).
Definition popPending (id : Z) (s : sftpRelayState) : option sftpPendingRequest * sftpRelayState :=
  (rs_pending s !! id, RelayState (delete id (rs_pending s)) (rs_handles s)).
Definition mapHandleToPath (handle path : bytes) (s : sftpRelayState) : sftpRelayState :=
  if bool_decide (TrimSpace handle = []) || bool_decide (TrimSpace path = []) then s
  else RelayState (rs_pending s) (<[handle := path]> (rs_handles s)).
Definition lookupPathByHandle (handle : bytes) (s : sftpRelayState) : bytes := default [] (rs_handles s !! handle).
Definition deleteHandle (handle : bytes) (s : sftpRelayState) : sftpRelayState :=
  RelayState (rs_pending s) (delete handle (rs_handles s)).

(** The string at an offset and the offset after it. *)
Definition readSFTPString (payload : bytes) (offset : nat) : option (bytes * nat) :=
  if (length payload <? offset + 4)%nat then None
  else
    let ln := be_value (slice payload offset (offset + 4)) in
    let start := (offset + 4)%nat in
    if zlen payload <? Z.of_nat start + ln then None
    else let end_ := (start + Z.to_nat ln)%nat in Some (slice payload start end_, end_).

(** ** Requests *)

Definition pending (operation path handle : bytes) (size : Z) : sftpPendingRequest :=
  PendingRequest operation path [] handle size.
(** One operation on a path. *)
Definition path_op (operation : bytes) (body : bytes) : list sftpFileOperation :=
  match readSFTPString body 0 with
  | Some (path, _) => [FileOperation operation path [] 0]
  | None => []
  end.

Definition parseSFTPClientPacket (payload : bytes) (state : sftpRelayState) : list sftpFileOperation * sftpRelayState :=
  if (length payload <? 1)%nat then ([], state)
  else
    let packetType := at_byte payload 0 in
    if packetType =? sftpPacketInit then ([], state)
    else if (length payload <? 5)%nat then ([], state)
    else
      let reqID := be_value (slice payload 1 5) in
      let body := drop 5 payload in
      if packetType =? sftpPacketOpen then
        match readSFTPString body 0 with
        | Some (path, _) => ([], storePending reqID (pending §"open" path [] 0) state)
        | None => ([], state)
        end
      else if packetType =? sftpPacketOpendir then
        match readSFTPString body 0 with
        | Some (path, _) =>
            ([FileOperation §"list" path [] 0], storePending reqID (pending §"opendir" path [] 0) state)
        | None => ([], state)
        end
      else if packetType =? sftpPacketRead then
        match readSFTPString body 0 with
        | Some (handle, offset) =>
            if (length body <? offset + 12)%nat then ([], state)
            else
              let size := be_value (slice body (offset + 8) (offset + 12)) in
              ([], storePending reqID (pending §"download_read" (lookupPathByHandle handle state) handle size) state)
        | None => ([], state)
        end
      else if packetType =? sftpPacketWrite then
        match readSFTPString body 0 with
        | Some (handle, offset) =>
            if (length body <? offset + 8)%nat then ([], state)
            else match readSFTPString body (offset + 8) with
                 | Some (data, _) =>
                     ([FileOperation §"upload_write" (lookupPathByHandle handle state) [] (zlen data)], state)
                 | None => ([], state)
                 end
        | None => ([], state)
        end
      else if packetType =? sftpPacketRemove then (path_op §"delete" body, state)
      else if packetType =? sftpPacketRename then
        match readSFTPString body 0 with
        | Some (oldPath, next) =>
            match readSFTPString body next with
            | Some (newPath, _) => ([FileOperation §"rename" oldPath newPath 0], state)
            | None => ([], state)
            end
        | None => ([], state)
        end
      else if packetType =? sftpPacketMkdir then (path_op §"mkdir" body, state)
      else if packetType =? sftpPacketRmdir then (path_op §"rmdir" body, state)
      else if (packetType =? sftpPacketStat) || (packetType =? sftpPacketLstat)
              || (packetType =? sftpPacketSetstat) || (packetType =? sftpPacketRealpath)
      then (path_op §"stat" body, state)
      else if packetType =? sftpPacketReaddir then
        match readSFTPString body 0 with
        | Some (handle, _) =>
            let path := lookupPathByHandle handle state in
            (if bool_decide (path = []) then [] else [FileOperation §"list" path [] 0], state)
        | None => ([], state)
        end
      else if packetType =? sftpPacketClose then
        match readSFTPString body 0 with
        | Some (handle, _) => ([], deleteHandle handle state)
        | None => ([], state)
        end
      else ([], state).

(** ** Replies *)

Definition parseSFTPServerPacket (payload : bytes) (state : sftpRelayState) : list sftpFileOperation * sftpRelayState :=
  if (length payload <? 1)%nat then ([], state)
  else
    let packetType := at_byte payload 0 in
    if (packetType =? sftpPacketVersion) || (length payload <? 5)%nat then ([], state)
    else
      let reqID := be_value (slice payload 1 5) in
      let body := drop 5 payload in
      if packetType =? sftpPacketHandle then
        match readSFTPString body 0 with
        | None => ([], state)
        | Some (handleRaw, _) =>
            match popPending reqID state with
            | (None, state) => ([], state)
            | (Some p, state) =>
                ([], if bool_decide (pr_Operation p = §"open") || bool_decide (pr_Operation p = §"opendir")
                     then mapHandleToPath handleRaw (pr_Path p) state else state)
            end
        end
      else if packetType =? sftpPacketData then
        match readSFTPString body 0 with
        | None => ([], state)
        | Some (data, _) =>
            match popPending reqID state with
            | (None, state) => ([], state)
            | (Some p, state) =>
                if negb (bool_decide (pr_Operation p = §"download_read")) then ([], state)
                else
                  let path := if bool_decide (pr_Path p = []) && negb (bool_decide (pr_Handle p = []))
                              then lookupPathByHandle (pr_Handle p) state else pr_Path p in
                  ([FileOperation §"download_read" path [] (zlen data)], state)
            end
        end
      else if (packetType =? sftpPacketStatus) || (packetType =? sftpPacketName) then ([], (popPending reqID state).2)
      else ([], state).

(** ** Framing *)

(** What one round of [Feed]'s loop finds at the front of the buffer. *)
Inductive front :=
| NeedMore                        (** less than a packet *)
| Unframed                        (** a length that is zero or too large: the buffer is dropped *)
| Packet (payload rest : bytes).
Definition max_packet : Z := 16 * 1024 * 1024.
Definition next_packet (buf : bytes) : front :=
  if (length buf <? 4)%nat then NeedMore
  else
    let packetLen := be_value (take 4 buf) in
    let total := 4 + packetLen in
    if (packetLen <=? 0) || (max_packet <? total) then Unframed
    else if zlen buf <? total then NeedMore
    else Packet (slice buf 4 (Z.to_nat total)) (drop (Z.to_nat total) buf).

(** ** The event *)

Definition buildFileOperationPayload (launch : LaunchContext) (op : sftpFileOperation) (when_ : Z) : gmap bytes json :=
  let payload : gmap bytes json := list_to_map
    [(§"session_id", JStr (l_SessionID launch)); (§"user_id", JStr (l_UserID launch));
     (§"asset_id", JStr (l_AssetID launch)); (§"operation", JStr (fo_Operation op));
     (§"path", JStr (TrimSpace (fo_Path op))); (§"event_time", JStr (RFC3339Nano when_));
     (§"request_id", JStr (TrimSpace (l_RequestID launch)))] in
  let payload := if bool_decide (TrimSpace (fo_PathTo op) = []) then payload
                 else <[§"path_to" := JStr (TrimSpace (fo_PathTo op))]> payload in
  if 0 <? fo_Size op then <[§"size" := JNum (Itoa (fo_Size op))]> payload else payload.
