(* ===== verification/SftpSpec.v ===== *)
(** What the SFTP reader of the SSH proxy recognises: requests as a client sends
    them, their encoding, what is expected to be recorded of each, and the
    framing of a stream of them. *)
From S2P Require Import Prelude GoStrings GoBinary GoEncoding GoNet ProxyEvents Sftp.

(** * Requests

    Grouped by the shape of their body; [rest] is what follows the part that
    the proxy reads (flags and attributes). *)
Inductive file_request :=
| InitRequest (rest : bytes)
| PathRequest (ty id : Z) (path rest : bytes)
| RenameRequest (id : Z) (oldPath newPath : bytes)
| ReadRequest (id : Z) (handle offset : bytes) (len : Z)
| WriteRequest (id : Z) (handle offset data : bytes)
| HandleRequest (ty id : Z) (handle : bytes)
| OtherRequest (ty id : Z) (body : bytes).

Definition sftp_string (s : bytes) : bytes := be_bytes 4 (zlen s) ++ s.
Definition message (ty id : Z) (body : bytes) : bytes := z2b ty :: be_bytes 4 id ++ body.
Definition request_payload (r : file_request) : bytes :=
  match r with
  | InitRequest rest => z2b sftpPacketInit :: rest
  | PathRequest ty id path rest => message ty id (sftp_string path ++ rest)
  | RenameRequest id a b => message sftpPacketRename id (sftp_string a ++ sftp_string b)
  | ReadRequest id handle offset len => message sftpPacketRead id (sftp_string handle ++ offset ++ be_bytes 4 len)
  | WriteRequest id handle offset data => message sftpPacketWrite id (sftp_string handle ++ offset ++ sftp_string data)
  | HandleRequest ty id handle => message ty id (sftp_string handle)
  | OtherRequest ty id body => message ty id body
  end.
Definition framed (payload : bytes) : bytes := be_bytes 4 (zlen payload) ++ payload.
Definition encode_request (r : file_request) : bytes := framed (request_payload r).

(** The verb of a request on a path: [None] for one that is not recorded. *)
Definition path_verbs : list (Z * option bytes) :=
  [(3, None); (11, Some §"list"); (13, Some §"delete"); (14, Some §"mkdir"); (15, Some §"rmdir");
   (7, Some §"stat"); (9, Some §"stat"); (16, Some §"stat"); (17, Some §"stat")].
Definition path_verb (ty : Z) : option (option bytes) :=
  snd <$> List.find (λ p, p.1 =? ty) path_verbs.
Definition recognised : list Z := [1; 3; 4; 5; 6; 7; 9; 11; 12; 13; 14; 15; 16; 17; 18].

Definition id_ok (id : Z) : Prop := 0 <= id < 2 ^ 32.
(** A request a packet of the proxy's size can hold. *)
Definition request_ok (r : file_request) : Prop :=
  4 + zlen (request_payload r) <= max_packet ∧
  match r with
  | InitRequest _ => True
  | PathRequest ty id _ _ => id_ok id ∧ is_Some (path_verb ty)
  | RenameRequest id _ _ => id_ok id
  | ReadRequest id _ offset len => id_ok id ∧ length offset = 8%nat ∧ 0 <= len < 2 ^ 32
  | WriteRequest id _ offset _ => id_ok id ∧ length offset = 8%nat
  | HandleRequest ty id _ => id_ok id ∧ (ty = sftpPacketClose ∨ ty = sftpPacketReaddir)
  | OtherRequest ty id _ => id_ok id ∧ 0 <= ty < 256 ∧ ty ∉ recognised
  end.

(** What is to be recorded of a request: for one on a handle, with some path. *)
Definition expects (r : file_request) (ops : list sftpFileOperation) : Prop :=
  match r with
  | InitRequest _ | ReadRequest _ _ _ _ | OtherRequest _ _ _ => ops = []
  | PathRequest ty _ path _ =>
      ops = match path_verb ty with Some (Some verb) => [FileOperation verb path [] 0] | _ => [] end
  | RenameRequest _ a b => ops = [FileOperation §"rename" a b 0]
  | WriteRequest _ _ _ data => ∃ path, ops = [FileOperation §"upload_write" path [] (zlen data)]
  | HandleRequest ty _ _ => ops = [] ∨ ty = sftpPacketReaddir ∧ ∃ path, ops = [FileOperation §"list" path [] 0]
  end.

(** * Strings *)

Lemma length_sftp_string s : length (sftp_string s) = (4 + length s)%nat.
Proof. unfold sftp_string. by rewrite length_app, length_be_bytes. Qed.
Lemma read_string pre s rest : zlen s < 2 ^ 32 →
  readSFTPString (pre ++ sftp_string s ++ rest) (length pre) = Some (s, (length pre + 4 + length s)%nat).
Proof.
  intros Hs. pose proof (zlen_nonneg s). unfold readSFTPString.
  rewrite (proj2 (Nat.ltb_ge _ _)) by (rewrite !length_app, length_sftp_string; lia). cbv zeta.
  unfold sftp_string. rewrite <- !app_assoc.
  rewrite (slice_app pre (be_bytes 4 (zlen s))) by (rewrite ?length_be_bytes; lia).
  rewrite be_value_bytes, Z.mod_small by lia.
  rewrite (proj2 (Z.ltb_ge _ _)) by (rewrite !zlen_app; unfold zlen; rewrite length_be_bytes; lia).
  unfold zlen. rewrite Nat2Z.id. do 2 f_equal.
  rewrite app_assoc. apply slice_app; rewrite length_app, length_be_bytes; lia.
Qed.
Lemma read_first s rest : zlen s < 2 ^ 32 → readSFTPString (sftp_string s ++ rest) 0 = Some (s, (4 + length s)%nat).
Proof. apply (read_string [] s rest). Qed.

(** The fields of a message. *)
Lemma message_fields ty id body : 0 <= ty < 256 → id_ok id →
  at_byte (message ty id body) 0 = ty ∧ be_value (slice (message ty id body) 1 5) = id ∧
  drop 5 (message ty id body) = body ∧ (length (message ty id body) <? 1)%nat = false ∧
  (length (message ty id body) <? 5)%nat = false.
Proof.
  intros Hty Hid. unfold message. split_and!.
  - unfold at_byte. cbn. by rewrite b2z_z2b, Z.mod_small.
  - change (z2b ty :: be_bytes 4 id ++ body) with ([z2b ty] ++ be_bytes 4 id ++ body).
    rewrite (slice_app [z2b ty] (be_bytes 4 id)) by (rewrite ?length_be_bytes; cbn; lia).
    rewrite be_value_bytes. by apply Z.mod_small.
  - change 5%nat with (1 + 4)%nat. cbn [Nat.add drop]. rewrite <- (length_be_bytes 4 id). apply drop_app_length.
  - done.
  - apply Nat.ltb_ge. rewrite length_cons, length_app, length_be_bytes. lia.
Qed.

Lemma path_verb_cases ty : is_Some (path_verb ty) →
  ty = 3 ∨ ty = 11 ∨ ty = 13 ∨ ty = 14 ∨ ty = 15 ∨ ty = 7 ∨ ty = 9 ∨ ty = 16 ∨ ty = 17.
Proof.
  unfold path_verb, path_verbs. cbn [List.find fst]. intros Hs.
  repeat match type of Hs with context [if ?a =? ty then _ else _] => destruct (Z.eqb_spec a ty); [lia|] end.
  by destruct Hs.
Qed.

Lemma fits s t : 4 + zlen (z2b t :: s) <= max_packet → zlen s < 2 ^ 32.
Proof. rewrite zlen_cons. unfold max_packet. lia. Qed.
Lemma zlen_be n z : zlen (be_bytes n z) = Z.of_nat n.
Proof. unfold zlen. by rewrite length_be_bytes. Qed.
Lemma zlen_string s : zlen (sftp_string s) = 4 + zlen s.
Proof. unfold sftp_string. by rewrite zlen_app, zlen_be. Qed.

(** Each request is read back as what is expected of it. *)
Lemma parse_request r state : request_ok r → expects r (parseSFTPClientPacket (request_payload r) state).1.
Proof.
  intros [Hsize Hok]. unfold max_packet in Hsize.
  destruct r as [rest|ty id path rest|id a b|id handle offset len|id handle offset data|ty id handle|ty id body];
    cbn [request_payload] in *.
  - cbn [expects]. unfold parseSFTPClientPacket. cbn [length]. by vm_compute.
  - destruct Hok as [Hid Hty]. unfold message in Hsize. rewrite zlen_cons, !zlen_app, zlen_be, zlen_string in Hsize.
    pose proof (zlen_nonneg rest). assert (Hs : zlen path < 2 ^ 32) by lia. apply path_verb_cases in Hty.
    assert (Hr : 0 <= ty < 256) by lia.
    destruct (message_fields ty id (sftp_string path ++ rest) Hr Hid) as (E1 & E2 & E3 & E4 & E5).
    unfold parseSFTPClientPacket. rewrite E4, E1, E5. cbv zeta. rewrite E2, E3. unfold path_op. rewrite read_first by done.
    repeat (destruct Hty as [->|Hty]; [reflexivity|]). subst. reflexivity.
  - unfold message in Hsize. rewrite zlen_cons, !zlen_app, zlen_be, !zlen_string in Hsize.
    pose proof (zlen_nonneg a). pose proof (zlen_nonneg b).
    destruct (message_fields sftpPacketRename id (sftp_string a ++ sftp_string b) ltac:(done) Hok) as (E1 & E2 & E3 & E4 & E5).
    unfold parseSFTPClientPacket. rewrite E4, E1, E5. cbv zeta. rewrite E2, E3. cbn -[readSFTPString sftp_string].
    rewrite read_first by lia. rewrite <- (length_sftp_string a), <- (app_nil_r (sftp_string b)), read_string by lia. done.
  - destruct Hok as (Hid & Hoff & Hlen). unfold message in Hsize. rewrite zlen_cons, !zlen_app, !zlen_be, zlen_string in Hsize.
    pose proof (zlen_nonneg offset).
    destruct (message_fields sftpPacketRead id (sftp_string handle ++ offset ++ be_bytes 4 len) ltac:(done) Hid) as (E1 & E2 & E3 & E4 & E5).
    unfold parseSFTPClientPacket. rewrite E4, E1, E5. cbv zeta. rewrite E2, E3. cbn -[readSFTPString sftp_string Nat.ltb].
    rewrite read_first by lia. match goal with |- context [if ?b then _ else _] => by destruct b end.
  - destruct Hok as (Hid & Hoff). unfold message in Hsize. rewrite zlen_cons, !zlen_app, !zlen_be, !zlen_string in Hsize.
    pose proof (zlen_nonneg offset). pose proof (zlen_nonneg handle). pose proof (zlen_nonneg data).
    destruct (message_fields sftpPacketWrite id (sftp_string handle ++ offset ++ sftp_string data) ltac:(done) Hid) as (E1 & E2 & E3 & E4 & E5).
    unfold parseSFTPClientPacket. rewrite E4, E1, E5. cbv zeta. rewrite E2, E3. cbn -[readSFTPString sftp_string Nat.ltb].
    rewrite read_first by lia.
    rewrite (proj2 (Nat.ltb_ge _ _)) by (rewrite !length_app, length_sftp_string; lia).
    rewrite app_assoc, <- (app_nil_r (sftp_string data)).
    replace (4 + length handle + 8)%nat with (length (sftp_string handle ++ offset)) by (rewrite length_app, length_sftp_string; lia).
    rewrite read_string by lia. by eexists.
  - destruct Hok as [Hid Hty]. unfold message in Hsize. rewrite zlen_cons, !zlen_app, zlen_be, zlen_string in Hsize.
    assert (Hr : 0 <= ty < 256) by (unfold sftpPacketClose, sftpPacketReaddir in Hty; lia).
    destruct (message_fields ty id (sftp_string handle) Hr Hid) as (E1 & E2 & E3 & E4 & E5).
    unfold parseSFTPClientPacket. rewrite E4, E1, E5. cbv zeta. rewrite E2, E3.
    rewrite <- (app_nil_r (sftp_string handle)), read_first by lia.
    destruct Hty as [->| ->]; cbn -[lookupPathByHandle]; [by left|]. case_bool_decide; [by left|right]. split; [done|by eexists].
  - destruct Hok as (Hid & Hty & Hrec).
    destruct (message_fields ty id body Hty Hid) as (E1 & E2 & E3 & E4 & E5).
    unfold parseSFTPClientPacket. rewrite E4, E1, E5. cbv zeta. rewrite E2, E3.
    unfold recognised in Hrec. rewrite !not_elem_of_cons in Hrec.
    unfold sftpPacketInit, sftpPacketOpen, sftpPacketOpendir, sftpPacketRead, sftpPacketWrite, sftpPacketRemove,
      sftpPacketRename, sftpPacketMkdir, sftpPacketRmdir, sftpPacketStat, sftpPacketLstat, sftpPacketSetstat,
      sftpPacketRealpath, sftpPacketReaddir, sftpPacketClose.
    rewrite !(proj2 (Z.eqb_neq ty _)) by (destruct_and?; done). done.
Qed.

(** * Framing *)

Lemma request_payload_pos r : 0 < zlen (request_payload r).
Proof.
  destruct r; cbn [request_payload]; unfold message; rewrite zlen_cons;
    match goal with |- 0 < 1 + zlen ?l => pose proof (zlen_nonneg l) end; lia.
Qed.

(** The front of a buffer that a frame starts or begins. *)
Lemma next_framed payload rest : 0 < zlen payload → 4 + zlen payload <= max_packet →
  next_packet (framed payload ++ rest) = Packet payload rest.
Proof.
  intros Hpos Hmax. unfold next_packet, framed. rewrite <- app_assoc.
  rewrite (proj2 (Nat.ltb_ge _ _)) by (rewrite !length_app, length_be_bytes; lia).
  rewrite take_app_length' by (by rewrite length_be_bytes). rewrite be_value_bytes.
  unfold max_packet in Hmax. rewrite Z.mod_small by lia. cbv zeta.
  rewrite (proj2 (Z.leb_gt _ _)), (proj2 (Z.ltb_ge _ _)) by (unfold max_packet; lia). cbn [orb].
  pose proof (zlen_nonneg rest). rewrite (proj2 (Z.ltb_ge _ _)) by (rewrite !zlen_app, zlen_be; lia).
  rewrite Z2Nat.inj_add by lia. unfold zlen. rewrite Nat2Z.id. f_equal.
  - apply slice_app; rewrite length_be_bytes; lia.
  - rewrite app_assoc. rewrite drop_app_length'; [done|]. rewrite length_app, length_be_bytes. lia.
Qed.
Lemma next_partial buf payload more : 0 < zlen payload → 4 + zlen payload <= max_packet →
  buf ++ more = framed payload ++ [] → more ≠ [] → next_packet buf = NeedMore.
Proof.
  intros Hpos Hmax Hb Hne. rewrite app_nil_r in Hb. unfold next_packet. destruct (_ <? 4)%nat eqn:E4; [done|].
  apply Nat.ltb_ge in E4. assert (Htake : take 4 buf = be_bytes 4 (zlen payload)).
  { assert (Ht : take 4 (buf ++ more) = be_bytes 4 (zlen payload))
      by (rewrite Hb; unfold framed; rewrite take_app_length' by (by rewrite length_be_bytes); done).
    by rewrite take_app_le in Ht. }
  rewrite Htake, be_value_bytes. unfold max_packet in Hmax. rewrite Z.mod_small by lia. cbv zeta.
  rewrite (proj2 (Z.leb_gt _ _)), (proj2 (Z.ltb_ge _ _)) by (unfold max_packet; lia). cbn [orb].
  assert (Hl : zlen buf + zlen more = 4 + zlen payload) by (rewrite <- zlen_app, Hb; unfold framed; by rewrite zlen_app, zlen_be).
  destruct more as [|x more]; [done|]. rewrite zlen_cons in Hl. pose proof (zlen_nonneg more).
  by rewrite (proj2 (Z.ltb_lt _ _)) by lia.
Qed.
