(* ===== verification/KnownHosts.v ===== *)
(** The upstream's host keys (apps/api/internal/sshproxy/server.go): the modes
    of the host key callback, the known_hosts file it writes, and the repair of
    that file after a mismatch.

    x/crypto's knownhosts is not part of the repository: it is the class
    [KnownHosts].  Its [KeyError] is a sentinel, of which only the log reads
    more. *)
From S2P Require Import Prelude GoStrings GoEncoding GoNet ProxyEvents.

Class KnownHosts := {
  kh_db : Type;
  (** [knownhosts.New] of the text of the file, and the callback it makes, of a
      host name, a remote address and a key. *)
  kh_New : bytes → kh_db + error;
  kh_check : kh_db → bytes → bytes → bytes → option error;
  (** [knownhosts.Line] of one address. *)
  kh_Line : bytes → bytes → bytes;
}.
Definition KeyError : bytes := §"knownhosts.KeyError".

Record Config := MkConfig {
  cfg_Username : bytes;
  cfg_UpstreamHostKeyMode : bytes;
  cfg_UpstreamKnownHostsPath : bytes;
  cfg_UpstreamHostKeyAutoFix : bool;
}.

(** [(&net.TCPAddr{IP: ip, Port: port}).String()]. *)
Definition TCPAddr_String (address : option ip) (port : Z) : bytes :=
  JoinHostPort (match address with Some a => ip_String a | None => [] end) (Itoa port).

(** ** The file

    [None]: there is none.  What its operations answer: a failing write
    leaves a prefix. *)
Record file := File { fi_text : option bytes; fi_faults : list (option (nat * error)) }.
Definition os_ErrNotExist : error := ErrVar §"os.ErrNotExist".

Definition file_op {A} (ok : option bytes → outcome A * option bytes) (failed : nat → option bytes → option bytes) : M file A :=
  λ f, match fi_faults f with
       | Some (k, e) :: rest => (Err e, File (failed k (fi_text f)) rest)
       | faults => let '(o, text) := ok (fi_text f) in (o, File text (tail faults))
       end.
Definition ReadFile : M file bytes :=
  file_op (λ t, (match t with Some b => Ok b | None => Err os_ErrNotExist end, t)) (λ _ t, t).
Definition WriteFile (b : bytes) : M file unit := file_op (λ _, (Ok tt, Some b)) (λ k _, Some (take k b)).
Definition MkdirAll : M file unit := file_op (λ t, (Ok tt, t)) (λ _ t, t).
(** [os.OpenFile(path, O_CREATE|O_RDONLY, 0600)]. *)
Definition create : M file unit := file_op (λ t, (Ok tt, Some (default [] t))) (λ _ t, t).

Definition ensureKnownHostsFile (path : bytes) : M file unit :=
  guard! negb (bool_decide (TrimSpace path = [])) else Errorf §"known_hosts path is required" in
  do! wrap_err §"create known_hosts directory" MkdirAll in
  wrap_err §"ensure known_hosts file" create.

(** ** Entries *)

Definition knownHostsAddrString (hostname remote : bytes) : bytes :=
  let trimmed := TrimSpace hostname in
  if HasPrefix trimmed §"[" && Contains trimmed §"]:" then trimmed
  else match SplitHostPort (TrimSpace remote) with
       | Some (host, port) => JoinHostPort host port
       | None => trimmed
       end.

(** The loop over the lines of the file: [out] and [replaced]. *)
Fixpoint replace_entry (pattern new : bytes) (lines : list bytes) (replaced : bool) : list bytes :=
  match lines with
  | [] => if replaced then [] else [new]
  | current :: rest =>
      let trimmed := TrimSpace current in
      if bool_decide (trimmed = []) then replace_entry pattern new rest replaced
      else if HasPrefix trimmed (pattern ++ §" ") then
        if replaced then replace_entry pattern new rest true else new :: replace_entry pattern new rest true
      else trimmed :: replace_entry pattern new rest replaced
  end.
Definition updated_text (pattern new existing : bytes) : bytes :=
  join ["010"%byte] (replace_entry pattern new (SplitByte existing "010"%byte) false) ++ ["010"%byte].

Section Keys.
Context `{Unicode} `{KnownHosts} (cfg : Config).

Definition upsertKnownHostEntry (hostname remote key : bytes) : M file unit :=
  let pattern := knownHostsAddrString hostname remote in
  let! r := try ReadFile in
  let write existing :=
    wrap_err §"write known_hosts entry" (WriteFile (updated_text pattern (kh_Line pattern key) existing)) in
  match r with
  | inl blob => write blob
  | inr e => if errors_is e §"os.ErrNotExist" then write [] else fail (Wrap §"read known_hosts" e)
  end.

(** A host key callback: [None] accepts every key. *)
Definition callback : Type := option (bytes → bytes → bytes → M file unit).
Definition base_callback (db : kh_db) (hostname remote key : bytes) : M file unit :=
  match kh_check db hostname remote key with None => ret tt | Some e => fail e end.
Definition accept_new (db : kh_db) (hostname remote key : bytes) : M file unit :=
  match kh_check db hostname remote key with
  | None => ret tt
  | Some e => if errors_is e KeyError then upsertKnownHostEntry hostname remote key else fail e
  end.

Definition buildUpstreamHostKeyCallback : M file callback :=
  let mode := ToLower (TrimSpace (cfg_UpstreamHostKeyMode cfg)) in
  if bool_decide (mode = §"insecure") then ret None
  else if bool_decide (mode = §"known-hosts") || bool_decide (mode = §"accept-new") then
    do! ensureKnownHostsFile (TrimSpace (cfg_UpstreamKnownHostsPath cfg)) in
    let! text := wrap_err §"build known_hosts callback" ReadFile in
    match kh_New text with
    | inr e => fail (Wrap §"build known_hosts callback" e)
    | inl db => ret (Some (if bool_decide (mode = §"known-hosts") then base_callback db else accept_new db))
    end
  else fail (Errorf (§"unsupported upstream host key mode: " ++ mode)).

(** ** The repair *)

Definition upstreamKnownHostPattern (host : bytes) (port : Z) : bytes :=
  let cleanHost := TrimSpace host in
  if port <=? 0 then cleanHost else JoinHostPort cleanHost (Itoa port).
Definition upsertUpstreamKnownHost (host : bytes) (port : Z) (key : bytes) : M file unit :=
  do! ensureKnownHostsFile (TrimSpace (cfg_UpstreamKnownHostsPath cfg)) in
  upsertKnownHostEntry (upstreamKnownHostPattern host port) (TCPAddr_String (ParseIP (TrimSpace host)) port) key.

(** A probe of the upstream: the error of the connection, or the key its
    handshake showed and the handshake's error. *)
Definition fetchSSHHostKey (probe : error + (option bytes * option error)) : bytes + error :=
  match probe with
  | inl e => inr e
  | inr (Some key, _) => inl key
  | inr (None, None) => inr (Errorf §"ssh handshake completed without host key capture")
  | inr (None, Some e) => inr (Wrap §"ssh handshake failed before host key capture" e)
  end.

Definition tryAutoRepairKnownHostsOnDialError (launch : LaunchContext) (probe : error + (option bytes * option error))
    (dialErr : error) : M file bool :=
  if negb (cfg_UpstreamHostKeyAutoFix cfg) then ret false
  else if EqualFold (TrimSpace (cfg_UpstreamHostKeyMode cfg)) §"insecure" then ret false
  else if negb (errors_is dialErr KeyError) then ret false
  else match fetchSSHHostKey probe with
       | inr e => fail (Wrap §"fetch upstream host key" e)
       | inl key => do! upsertUpstreamKnownHost (l_Host launch) (l_Port launch) key in ret true
       end.
End Keys.
