(* ===== verification/KnownHostsSpec.v ===== *)
(** What the known_hosts file of the SSH proxy comes to hold. *)
From S2P Require Import Prelude GoStrings GoEncoding GoNet GoTexts ProxyEvents KnownHosts.

#[local] Abbreviation newline := ("010"%byte).

(** The text of an entry, as sshd(8) has it and [knownhosts.Line] documents:
    the host, in brackets with its port when that is not 22, and the key. *)
Class KnownHostsLaws `{KnownHosts} := {
  kh_text : bytes → bytes;
  kh_line host port key : ":"%byte ∉ host → ":"%byte ∉ port →
    kh_Line (JoinHostPort host port) key =
      (if bool_decide (port = §"22") then host else §"[" ++ host ++ §"]:" ++ port) ++ §" " ++ kh_text key;
  kh_text_tight key : tight (kh_text key) = true;
  kh_text_line key : newline ∉ kh_text key;
}.

(** * The lines of a file *)

Definition blank (line : bytes) : bool := bool_decide (TrimSpace line = []).
Definition entries (text : bytes) : list bytes :=
  map TrimSpace (List.filter (λ l, negb (blank l)) (SplitByte text newline)).

Lemma SplitByte_parts s b : Forall (λ p, b ∉ p) (SplitByte s b).
Proof.
  induction s as [|x s IH]; cbn; [by repeat constructor; intros ?%elem_of_nil|].
  case_bool_decide; [constructor; [by intros ?%elem_of_nil|done]|].
  destruct (SplitByte s b) as [|w ws]; [by repeat constructor; set_solver|].
  inversion IH; subst. constructor; [set_solver|done].
Qed.
Lemma entries_lines text : Forall (λ l, newline ∉ l ∧ TrimSpace l = l ∧ l ≠ []) (entries text).
Proof.
  unfold entries. apply Forall_map. pose proof (SplitByte_parts text newline) as Hp.
  induction Hp as [|l ls Hl _ IH]; cbn; [done|]. destruct (blank l) eqn:E; cbn; [done|]. constructor; [|done].
  apply bool_decide_eq_false in E. split_and!; [by apply TrimSpace_notin|apply TrimSpace_idem|done].
Qed.

(** With no entry of the pattern the new line goes to the end. *)
Lemma replace_appends pattern new lines :
  Forall (λ l, HasPrefix l (pattern ++ §" ") = false) (map TrimSpace (List.filter (λ l, negb (blank l)) lines)) →
  replace_entry pattern new lines false = map TrimSpace (List.filter (λ l, negb (blank l)) lines) ++ [new].
Proof.
  induction lines as [|l ls IH]; [done|]. cbn [replace_entry List.filter].
  change (bool_decide (TrimSpace l = [])) with (blank l). destruct (blank l); cbn [negb map]; [exact IH|].
  intros [Hl Hls]%Forall_cons. by rewrite Hl, IH.
Qed.
Lemma updated_entries pattern new text :
  Forall (λ l, HasPrefix l (pattern ++ §" ") = false) (entries text) → tight new = true → newline ∉ new →
  entries (updated_text pattern new text) = entries text ++ [new].
Proof.
  intros Hno Ht Hn. unfold updated_text. rewrite replace_appends by done. fold (entries text).
  pose proof (entries_lines text) as Hl. set (ls := entries text) in *. clearbody ls. clear Hno.
  assert (Hall : Forall (λ l, newline ∉ l ∧ TrimSpace l = l ∧ l ≠ []) (ls ++ [new])).
  { apply Forall_app. split; [done|]. constructor; [|done]. split_and!; [done|by apply TrimSpace_tight|by intros ->]. }
  clear Hl. assert (Hne : ls ++ [new] ≠ []) by (by destruct ls). set (all := ls ++ [new]) in *. clearbody all.
  unfold entries. replace (join [newline] all ++ [newline]) with (join [newline] (all ++ [[]])).
  2:{ clear -Hne. induction all as [|a all IH]; [done|]. destruct all as [|b all]; [done|].
      change ((a :: b :: all) ++ [[]]) with (a :: ((b :: all) ++ [[]])). rewrite !join_cons by done. rewrite IH by done.
      by rewrite !app_assoc. }
  rewrite SplitByte_join; [|by destruct all|apply Forall_app; split; [by eapply Forall_impl; [exact Hall|naive_solver]|by repeat constructor; intros ?%elem_of_nil]].
  rewrite List.filter_app, map_app. cbn. rewrite app_nil_r. clear Hne.
  induction Hall as [|l all (_ & E & Hl) _ IH]; [done|]. cbn. unfold blank at 1. rewrite E, bool_decide_false by done. cbn.
  by rewrite E, IH.
Qed.

(** * Addresses *)

(** A host of the form of a name or of an IPv4 address. *)
Definition plain_host (host : bytes) : bool :=
  tight host && forallb (λ b, negb (bool_decide (b ∈ [":"; "["; "]"; newline]%byte))) host.
Lemma plain_host_notin host b : plain_host host = true → b ∈ [":"; "["; "]"; newline]%byte → b ∉ host.
Proof.
  intros [_ Hh]%andb_true_iff Hb Hin. rewrite forallb_forall in Hh. specialize (Hh b (proj1 (list_elem_of_In _ _) Hin)).
  by rewrite bool_decide_true in Hh.
Qed.
Lemma has_byte_false s b : b ∉ s → has_byte s b = false.
Proof. intros Hb. by apply bool_decide_eq_false. Qed.

Section Address.
Context (host : bytes) (port : Z) (Hhost : plain_host host = true) (Hport : 0 <= port).
#[local] Abbreviation remote := (JoinHostPort host (Itoa port)).

Lemma remote_text : remote = host ++ ":"%byte :: Itoa port.
Proof. unfold JoinHostPort. by rewrite has_byte_false by (apply plain_host_notin; [done|set_solver]). Qed.
Lemma port_notin b : is_digit b = false → b ∉ Itoa port.
Proof. by apply Itoa_notin. Qed.
Lemma remote_tight : TrimSpace remote = remote.
Proof.
  apply TrimSpace_tight. rewrite remote_text. apply (tight_app host (Itoa port) [":"%byte]).
  - by apply andb_true_iff in Hhost as [? _].
  - destruct (Itoa_digits port Hport). by apply digits_tight.
Qed.
Lemma remote_split : SplitHostPort remote = Some (host, Itoa port).
Proof.
  rewrite remote_text. unfold SplitHostPort, split_host. rewrite LastIndexByte_app by (by apply port_notin).
  assert (Hno : ∀ b, b ∈ ["["; "]"]%byte → b ∉ host ++ ":"%byte :: Itoa port).
  { intros b Hb. rewrite not_elem_of_app, not_elem_of_cons. split_and!; [apply plain_host_notin; [done|set_solver]|set_solver|].
    apply port_notin. apply elem_of_cons in Hb as [->|Hb]; [done|]. by apply list_elem_of_singleton in Hb as ->. }
  destruct (host ++ ":"%byte :: Itoa port) as [|x s] eqn:E; [by destruct host|].
  assert (Hx : x ≠ "["%byte) by (intros ->; apply (Hno "["%byte); [set_solver|by left]).
  assert (Hsplit : ∀ k, has_byte (drop k (x :: s)) "["%byte = false ∧ has_byte (drop k (x :: s)) "]"%byte = false).
  { intros k. split; apply has_byte_false; intros Hin; (eapply Hno; [|rewrite <- (take_drop k (x :: s)); apply elem_of_app; right; exact Hin]); set_solver. }
  assert (Ht : take (length host) (x :: s) = host) by (by rewrite <- E, take_app_length).
  assert (Hd : drop (S (length host)) (x :: s) = Itoa port).
  { rewrite <- E. replace (S (length host)) with (length (host ++ [":"%byte])) by (rewrite length_app; cbn; lia).
    change (":"%byte :: Itoa port) with ([":"%byte] ++ Itoa port). by rewrite app_assoc, drop_app_length. }
  assert (Hcol : has_byte host ":"%byte = false) by (apply has_byte_false, plain_host_notin; [done|set_solver]).
  destruct x; try done; rewrite Ht, Hcol; destruct (Hsplit 0%nat) as [-> ->]; cbn [orb]; by rewrite Hd.
Qed.
End Address.

(** * Entries that the proxy writes *)

Section Entries.
Context `{Unicode} `{KnownHostsLaws}.

(** The entry of an upstream. *)
Definition entry (host : bytes) (port : Z) (key : bytes) : bytes :=
  (if bool_decide (port = 22) then host else §"[" ++ host ++ §"]:" ++ Itoa port) ++ §" " ++ kh_text key.
(** Upstreams that show these keys in turn. *)
Fixpoint connections (db : kh_db) (hostname remote : bytes) (keys : list bytes) : M file unit :=
  match keys with [] => ret tt | key :: rest => do! accept_new db hostname remote key in connections db hostname remote rest end.

Context (host : bytes) (port : Z) (Hhost : plain_host host = true) (Hport : 0 <= port <= max_int64).
#[local] Abbreviation remote := (JoinHostPort host (Itoa port)).

Lemma Itoa_22 : Itoa port = §"22" ↔ port = 22.
Proof.
  split; [|by intros ->]. intros E. assert (Ha : Atoi (Itoa port) = Some 22) by by rewrite E.
  rewrite Atoi_Itoa in Ha by (unfold min_int64; lia). by injection Ha.
Qed.
Lemma line_entry key : kh_Line remote key = entry host port key.
Proof.
  rewrite kh_line; [|by apply plain_host_notin; [|set_solver]|apply port_notin; [lia|done]].
  unfold entry. do 2 case_bool_decide; try done; by exfalso; rewrite Itoa_22 in *.
Qed.
Lemma entry_tight key : tight (entry host port key) = true.
Proof.
  unfold entry. apply andb_true_iff in Hhost as [Ht _]. case_bool_decide.
  - apply tight_app; [done|apply kh_text_tight].
  - rewrite <- !app_assoc. change (§"[" ++ ?s) with ("["%byte :: s).
    rewrite !(app_assoc host), !(app_assoc (host ++ _)), !(app_assoc ((host ++ _) ++ _)).
    exact (tight_app §"[" (kh_text key) _ eq_refl (kh_text_tight key)).
Qed.
Lemma entry_line key : newline ∉ entry host port key.
Proof.
  assert (Hn : newline ∉ host) by (apply plain_host_notin; [done|set_solver]).
  assert (Hp : newline ∉ Itoa port) by (apply port_notin; [lia|done]). pose proof (kh_text_line key).
  unfold entry. case_bool_decide; rewrite !not_elem_of_app; split_and!; try done; (apply (bool_decide_unpack _); by vm_compute).
Qed.
(** The entry does not begin with the address the proxy looks for. *)
Lemma entry_pattern key : HasPrefix (entry host port key) (remote ++ §" ") = false.
Proof.
  destruct (HasPrefix _ _) eqn:E; [|done]. apply HasPrefix_iff in E as [t E]. rewrite remote_text in E by (done || lia).
  unfold entry in E. case_bool_decide; exfalso; rewrite <- ?app_assoc in E.
  - by apply app_inv_head in E.
  - assert (Hb : "["%byte ∉ host) by (apply plain_host_notin; [done|set_solver]).
    apply andb_true_iff in Hhost as [Ht _]. destruct host as [|x h]; [done|]. cbn in E. injection E as <- _. apply Hb. by left.
Qed.

Lemma upsert_appends hostname key text :
  HasPrefix (TrimSpace hostname) §"[" = false → Forall (λ l, HasPrefix l (remote ++ §" ") = false) (entries text) →
  ∃ text', upsertKnownHostEntry hostname remote key (File (Some text) []) = (Ok tt, File (Some text') []) ∧
    entries text' = entries text ++ [entry host port key].
Proof.
  intros Hb Hno. unfold upsertKnownHostEntry, knownHostsAddrString. rewrite Hb. cbn [andb].
  rewrite remote_tight, remote_split by (done || lia). rewrite line_entry. eexists. split; [reflexivity|].
  apply updated_entries; [done|apply entry_tight|apply entry_line].
Qed.

(** The proxy never replaces an entry of known_hosts.  In the mode accept-new,
    for an upstream reached at an IPv4 address or name, every connection that shows
    a key the file did not have when the proxy started is accepted and appends an
    entry - the same one again and again, since the keys are read once - and the
    entries that were there stay, those of rotated keys included: the pattern
    "host:port" it looks for is never how an entry begins ("host", or "[host]:port"). *)
Theorem known_hosts_entries_pile_up db hostname keys text :
  HasPrefix (TrimSpace hostname) §"[" = false →
  Forall (λ key, ∃ e, kh_check db hostname remote key = Some e ∧ errors_is e KeyError = true) keys →
  Forall (λ l, HasPrefix l (remote ++ §" ") = false) (entries text) →
  ∃ text', connections db hostname remote keys (File (Some text) []) = (Ok tt, File (Some text') []) ∧
    entries text' = entries text ++ map (entry host port) keys.
Proof.
  intros Hb Hk. revert text. induction Hk as [|key keys (e & Hc & He) _ IH]; intros text Hno.
  - exists text. by rewrite app_nil_r.
  - destruct (upsert_appends hostname key text Hb Hno) as (t1 & E1 & He1). destruct (IH t1) as (t2 & E2 & He2).
    + rewrite He1. apply Forall_app. split; [done|]. constructor; [apply entry_pattern|constructor].
    + exists t2. split.
      * cbn [connections]. unfold accept_new, bind. by rewrite Hc, He, E1.
      * by rewrite He2, He1, <- app_assoc.
Qed.
End Entries.

(** A repair knows an upstream with a name only by its port: what it writes does
    not depend on the name. *)
Lemma nameless_split port : 0 <= port →
  SplitHostPort (TrimSpace (TCPAddr_String None port)) = Some ([], Itoa port).
Proof.
  intros Hp. change (TCPAddr_String None port) with (":"%byte :: Itoa port). destruct (Itoa_digits port Hp) as [Hd Hne].
  assert (Hno : ∀ b, is_digit b = false → b ≠ ":"%byte → b ∉ ":"%byte :: Itoa port).
  { intros b Hb Hc. rewrite not_elem_of_cons. split; [done|]. by apply Itoa_notin. }
  rewrite TrimSpace_tight.
  2:{ pose proof (digits_tight _ Hd Hne) as Ht. unfold tight in *. destruct (Itoa port); [done|]. cbn [head] in *.
      rewrite last_cons_cons. destruct (last _); [|done]. by apply andb_true_iff in Ht as [_ ->]. }
  assert (Hlast : LastIndexByte (":"%byte :: Itoa port) ":"%byte = Some 0%nat)
    by (apply (LastIndexByte_app []); by apply Itoa_notin).
  unfold SplitHostPort, split_host. rewrite Hlast. cbn [take drop].
  rewrite !has_byte_false by (first [by apply Hno|by intros ?%elem_of_nil]). done.
Qed.
Lemma named_repairs_are_nameless `{Unicode} `{KnownHosts} cfg name name' port key f : 0 <= port →
  (∀ n, n ∈ [name; name'] → ParseIP (TrimSpace n) = None ∧ HasPrefix (TrimSpace (upstreamKnownHostPattern n port)) §"[" = false) →
  upsertUpstreamKnownHost cfg name port key f = upsertUpstreamKnownHost cfg name' port key f.
Proof.
  intros Hp Hn. destruct (Hn name) as [Hip Hb]; [set_solver|]. destruct (Hn name') as [Hip' Hb']; [set_solver|].
  unfold upsertUpstreamKnownHost, upsertKnownHostEntry, knownHostsAddrString. by rewrite Hb, Hb', Hip, Hip', nameless_split.
Qed.
