(* ===== verification/SshChannel.v ===== *)
(** A session channel between an SSH client and the upstream's session: the
    streams still to come, what the proxy does to the outside, and the loops that
    copy (apps/api/internal/sshproxy/server.go).

    A goroutine runs by turns, which a schedule interleaves; between two turns
    it holds no lock.  A write and what the loop does next with the bytes are
    separate turns, and so is every SFTP packet.  A stream whose end is [None]
    stays open: at its end a read blocks. *)
From S2P Require Import Prelude GoStrings GoEncoding GoIO ProxyEvents Sftp KnownHosts.

Definition EventDataIn : bytes := §"data_in".
Definition EventDataOut : bytes := §"data_out".

(** Calls into the sessions service; the proxy only warns when one fails. *)
Inductive ssh_call :=
| Session (c : call)
| ShellStarted (l : LaunchContext)
| RecordDataEvent (sessionID eventType stream data : bytes) (offset : Z)
| RecordTerminalResizeEvent (sessionID : bytes) (cols rows offset : Z)
| WriteFileOperation (sessionID actor : bytes) (payload : gmap bytes json).

(** Requests on the upstream's session. *)
Inductive upstream_request :=
| RequestPty (term : bytes) (rows cols : Z) (modes : gmap Z Z)
| WindowChange (rows cols : Z)
| Shell
| RequestSubsystem (name : bytes).
(** What the proxy proves who it is with. *)
Inductive auth_method := PublicKeys (key : bytes) | Password (secret : bytes).

Inductive ssh_effect :=
| ToStdin (b : bytes)
| CloseStdin
| ToStdout (b : bytes)
| ToStderr (b : bytes)
| ToSession (r : upstream_request)
| Reply (ok : bool)
| SendExitStatus (status : Z)
| Record_ (c : ssh_call)
(** [newChannel.Reject] and [Accept], and the offer of a credential to the upstream. *)
| RejectChannel (unknown_type : bool) (message : bytes)
| AcceptChannel
| Offer (user : bytes) (method : auth_method).

Record stream := Stream { st_buf : bytes; st_end : option error }.
(** [ssh.Request]. *)
Record request := Request { rq_Type : bytes; rq_WantReply : bool; rq_Payload : bytes }.

Record channel := Channel {
  ch_requests : list request;
  ch_stdin : stream;
  ch_stdout : stream;
  ch_stderr : stream;
  (** What the writes and the requests to come answer. *)
  ch_faults : list (option (nat * error));
  ch_trace : list ssh_effect;
  ch_relay : sftpRelayState;
  ch_files : file;
}.
Definition set_trace (faults : list (option (nat * error))) (trace : list ssh_effect) (w : channel) : channel :=
  Channel (ch_requests w) (ch_stdin w) (ch_stdout w) (ch_stderr w) faults trace (ch_relay w) (ch_files w).

Definition emit (e : ssh_effect) : M channel unit :=
  modify (λ w, set_trace (ch_faults w) (ch_trace w ++ [e]) w).
Definition record (c : ssh_call) : M channel unit := emit (Record_ c).
(** A write, of which a failure lets a prefix out. *)
Definition put_bytes (side : bytes → ssh_effect) (b : bytes) : M channel unit := λ w,
  match ch_faults w with
  | Some (k, e) :: faults => (Err e, set_trace faults (ch_trace w ++ [side (take k b)]) w)
  | faults => (Ok tt, set_trace (tail faults) (ch_trace w ++ [side b]) w)
  end.
(** A request to the upstream, which may refuse it. *)
Definition ask (r : upstream_request) : M channel unit := put_bytes (λ _, ToSession r) [].

(** ** The three lines *)

Inductive line := LIn | LOut | LErr.
#[export] Instance line_eq_dec : EqDecision line.
Proof. solve_decision. Defined.
Definition input (l : line) (w : channel) : stream :=
  match l with LIn => ch_stdin w | LOut => ch_stdout w | LErr => ch_stderr w end.
Definition set_input (l : line) (s : stream) (w : channel) : channel :=
  match l with
  | LIn => Channel (ch_requests w) s (ch_stdout w) (ch_stderr w) (ch_faults w) (ch_trace w) (ch_relay w) (ch_files w)
  | LOut => Channel (ch_requests w) (ch_stdin w) s (ch_stderr w) (ch_faults w) (ch_trace w) (ch_relay w) (ch_files w)
  | LErr => Channel (ch_requests w) (ch_stdin w) (ch_stdout w) s (ch_faults w) (ch_trace w) (ch_relay w) (ch_files w)
  end.
Definition output (l : line) (b : bytes) : ssh_effect :=
  match l with LIn => ToStdin b | LOut => ToStdout b | LErr => ToStderr b end.

(** [src.Read] and [dst.Write] of what it returned. *)
Inductive pumped := Blocked | Pumped (chunk : bytes) | Stopped (err : option error).
Definition pump (l : line) (cap n : nat) : M channel pumped :=
  let! w := get in
  match st_buf (input l w), st_end (input l w) with
  | [], None => ret Blocked
  | [], Some e => ret (Stopped (if bool_decide (e = io_EOF) then None else Some e))
  | buf, end_ =>
      let k := Nat.min cap (Nat.max 1 n) in
      do! modify (set_input l (Stream (drop k buf) end_)) in
      let! r := try (put_bytes (output l) (take k buf)) in
      ret match r with inl _ => Pumped (take k buf) | inr e => Stopped (Some e) end
  end.

(** A copying goroutine: about to read, with a chunk written, in the parser's
    loop, or finished; [buf] is the parser's buffer. *)
Inductive copier :=
| Reading (buf : bytes)
| Written (buf chunk : bytes)
| Parsing (buf : bytes)
| Finished (err : option error).

Section Copies.
(** [time.Now()] and the seconds since the recorder started, at a place of the
    trace (both in nanoseconds here). *)
Context (env_clock env_elapsed : nat → Z) (launch : LaunchContext).

(** [defer dst.Close()]. *)
Definition closing (closeDst : bool) (err : option error) : M channel copier :=
  do! if closeDst then emit CloseStdin else ret tt in ret (Finished err).

Definition copyWithEvents (l : line) (eventType name : bytes) (closeDst : bool) (n : nat) (c : copier) : M channel copier :=
  match c with
  | Reading buf =>
      let! r := pump l 4096 n in
      match r with
      | Blocked => ret c
      | Pumped chunk => ret (Written buf chunk)
      | Stopped err => closing closeDst err
      end
  | Written buf chunk =>
      let! w := get in
      do! record (RecordDataEvent (l_SessionID launch) eventType name chunk (env_elapsed (length (ch_trace w)))) in
      ret (Reading buf)
  | _ => ret c
  end.

(** [io.Copy]. *)
Definition copySFTPRaw (l : line) (n : nat) (c : copier) : M channel copier :=
  match c with
  | Reading buf =>
      let! r := pump l 32768 n in
      match r with
      | Blocked | Pumped _ => ret c
      | Stopped err => closing false err
      end
  | _ => ret c
  end.

Definition recordFileOperation (op : sftpFileOperation) : M channel unit :=
  if bool_decide (TrimSpace (fo_Operation op) = []) then ret tt
  else
    let! w := get in
    record (WriteFileOperation (l_SessionID launch) (l_UserID launch)
              (buildFileOperationPayload launch op (env_clock (length (ch_trace w))))).
Fixpoint record_all (ops : list sftpFileOperation) : M channel unit :=
  match ops with [] => ret tt | op :: rest => do! recordFileOperation op in record_all rest end.
Definition with_relay {A} (f : sftpRelayState → A * sftpRelayState) : M channel A := λ w,
  let '(a, s) := f (ch_relay w) in
  (Ok a, Channel (ch_requests w) (ch_stdin w) (ch_stdout w) (ch_stderr w) (ch_faults w) (ch_trace w) s (ch_files w)).
Definition handleSFTPClientPacket (payload : bytes) : M channel unit :=
  let! ops := with_relay (parseSFTPClientPacket payload) in record_all ops.
Definition handleSFTPServerPacket (payload : bytes) : M channel unit :=
  let! ops := with_relay (parseSFTPServerPacket payload) in record_all ops.

(** One round of [copyWithParser], of its [Feed], or one packet of [Feed]'s loop. *)
Definition copyWithParser (l : line) (closeDst : bool) (onPacket : bytes → M channel unit) (n : nat) (c : copier)
    : M channel copier :=
  match c with
  | Reading buf =>
      let! r := pump l (16 * 1024) n in
      match r with
      | Blocked => ret c
      | Pumped chunk => ret (Written buf chunk)
      | Stopped err => closing closeDst err
      end
  | Written buf chunk => ret (Parsing (buf ++ chunk))
  | Parsing buf =>
      match next_packet buf with
      | NeedMore => ret (Reading buf)
      | Unframed => ret (Reading [])
      | Packet payload rest => do! onPacket payload in ret (Parsing rest)
      end
  | Finished _ => ret c
  end.
Definition copySFTPClientToUpstream : nat → copier → M channel copier := copyWithParser LIn true handleSFTPClientPacket.
Definition copySFTPUpstreamToClient : nat → copier → M channel copier := copyWithParser LOut false handleSFTPServerPacket.
End Copies.
