(* ===== verification/Ssh.v ===== *)
(** The SSH and SFTP proxy (apps/api/internal/sshproxy/server.go): the
    authentication of a client by its launch token, the connection to the
    upstream, the bridge of a session channel, and the marks of the session.

    x/crypto's ssh is not part of the repository: the class [SshWire] has the
    payloads of its requests, and the environment what its handshakes and
    sessions answer.  The maximal age of a session, which closes the
    connection, is an error at the end of the streams. *)
From S2P Require Import Prelude GoStrings GoEncoding GoNet GoIO Tokens Store Sessions PgServer Identity Access Assets Credentials ProxyEvents Sftp KnownHosts SshChannel.

Class SshWire := {
  (** [ssh.Unmarshal] of the name of a subsystem. *)
  un_subsystem : bytes → bytes + error;
  (** Of pty-req: the terminal, columns, rows and the encoded modes. *)
  un_pty : bytes → (bytes * Z * Z * bytes) + error;
  (** Of window-change: columns and rows. *)
  un_window : bytes → (Z * Z) + error;
  (** The error of [ssh.ParsePrivateKey]. *)
  parse_private_key : bytes → option error;
  (** What [ssh.Dial] makes of an error of the host key callback. *)
  handshake_failed : error → error;
  (** The text of an error of another package. *)
  var_text : bytes → bytes;
}.

(** ** Permissions *)

Definition extensions (l : LaunchContext) : gmap bytes bytes := list_to_map
  [(§"session_id", l_SessionID l); (§"user_id", l_UserID l); (§"asset_id", l_AssetID l);
   (§"asset_name", l_AssetName l); (§"request_id", l_RequestID l); (§"host", l_Host l);
   (§"port", Itoa (l_Port l)); (§"protocol", l_Protocol l); (§"action", l_Action l)].
Definition defaultIfEmpty (v fallback : bytes) : bytes :=
  if bool_decide (TrimSpace v = []) then fallback else TrimSpace v.
(** [None]: no permissions, or none with extensions. *)
Definition launchFromPermissions (perms : option (gmap bytes bytes)) : LaunchContext + error :=
  match perms with
  | None => inr (Errorf §"missing ssh permissions")
  | Some ext =>
      let get_ key := TrimSpace (default [] (ext !! key)) in
      match Atoi (get_ §"port") with
      | None => inr (Errorf §"invalid launch port")
      | Some port => inl {|
          l_SessionID := get_ §"session_id"; l_UserID := get_ §"user_id"; l_AssetID := get_ §"asset_id";
          l_AssetName := get_ §"asset_name"; l_RequestID := get_ §"request_id";
          l_Action := defaultIfEmpty (get_ §"action") §"shell";
          l_Protocol := defaultIfEmpty (get_ §"protocol") ProtocolSSH; l_AssetType := [];
          l_Host := get_ §"host"; l_Port := port; l_UpstreamUsername := []; l_Status := []; l_ExpiresAt := 0 |}
      end
  end.

(** ** Authentication *)

Section Authentication.
Context `{Unicode} `{Postgres} (cfg : Config) (svc : Sessions.Config).

Definition authenticate (user token : bytes) (now : Z) : M db LaunchContext :=
  guard! bool_decide (user = cfg_Username cfg) else Errorf §"invalid proxy username" in
  ResolveLaunchToken svc now token.
Definition PasswordCallback (user password : bytes) (now : Z) : M db (gmap bytes bytes) :=
  let! launch := authenticate user password now in ret (extensions launch).
Definition KeyboardInteractiveCallback (user : bytes) (challenge : list bytes + error) (now : Z) : M db (gmap bytes bytes) :=
  match challenge with
  | inr e => fail e
  | inl [answer] => let! launch := authenticate user answer now in ret (extensions launch)
  | inl _ => fail (Errorf §"missing launch token")
  end.
End Authentication.

(** ** Requests on the channel *)

Fixpoint terminal_modes (encoded : bytes) (modes : gmap Z Z) : gmap Z Z :=
  match encoded with
  | [] => modes
  | opcode :: rest =>
      if b2z opcode =? 0 then modes
      else match rest with
           | a :: b :: c :: d :: rest =>
               terminal_modes rest
                 (<[b2z opcode := Z.lor (Z.shiftl (b2z a) 24) (Z.lor (Z.shiftl (b2z b) 16) (Z.lor (Z.shiftl (b2z c) 8) (b2z d)))]> modes)
           | _ => modes
           end
  end.
Definition parseTerminalModes (encoded : bytes) : gmap Z Z := terminal_modes encoded ∅.

(** How the upstream session ends, as [Wait] says. *)
Inductive exit := ExitZero | ExitError (status : Z) | WaitError (e : error).

Section Channel.
Context `{SshWire} (env_clock env_elapsed : nat → Z) (launch : LaunchContext).

Definition resized (columns rows : Z) : M channel unit :=
  let! w := get in
  record (RecordTerminalResizeEvent (l_SessionID launch) columns rows (env_elapsed (length (ch_trace w)))).
Definition handleSessionRequest (req : request) : M channel bool :=
  if bool_decide (rq_Type req = §"pty-req") then
    match un_pty (rq_Payload req) with
    | inr e => fail (Wrap §"invalid pty request payload" e)
    | inl (term, columns, rows, modes) =>
        do! wrap_err §"request upstream pty" (ask (RequestPty term rows columns (parseTerminalModes modes))) in
        do! resized columns rows in ret true
    end
  else if bool_decide (rq_Type req = §"window-change") then
    match un_window (rq_Payload req) with
    | inr e => fail (Wrap §"invalid window change payload" e)
    | inl (columns, rows) =>
        do! wrap_err §"forward window change" (ask (WindowChange rows columns)) in
        do! resized columns rows in ret true
    end
  else if bool_decide (rq_Type req = §"shell") then
    do! wrap_err §"start upstream shell" (ask Shell) in ret true
  else ret false.

(** The reply and whether the subsystem was started. *)
Definition handleSFTPRequest (req : request) : M channel (bool * bool) :=
  if bool_decide (rq_Type req = §"subsystem") then
    match un_subsystem (rq_Payload req) with
    | inr e => fail (Wrap §"invalid subsystem payload" e)
    | inl name =>
        if negb (bool_decide (TrimSpace name = §"sftp")) then ret (false, false)
        else do! wrap_err §"request upstream sftp subsystem" (ask (RequestSubsystem §"sftp")) in ret (true, true)
    end
  else if bool_decide (rq_Type req = §"env") then ret (true, false)
  else ret (false, false).

(** ** The bridge

    What the bridges of a shell and of SFTP differ in. *)
Record service := Service {
  sv_handle : request → M channel (bool * bool);
  sv_timeout : bytes;
  sv_started : M channel unit;
  sv_copy : line → nat → copier → M channel copier;
}.
Definition shell_service : service := {|
  sv_handle req := let! ok := handleSessionRequest req in ret (ok, bool_decide (rq_Type req = §"shell"));
  sv_timeout := §"shell_request_timeout";
  sv_started := record (ShellStarted launch);
  sv_copy l := match l with
    | LIn => copyWithEvents env_elapsed launch LIn EventDataIn §"stdin" true
    | LOut => copyWithEvents env_elapsed launch LOut EventDataOut §"stdout" false
    | LErr => copyWithEvents env_elapsed launch LErr EventDataOut §"stderr" false
    end |}.
Definition sftp_service : service := {|
  sv_handle := handleSFTPRequest;
  sv_timeout := §"sftp_subsystem_timeout";
  sv_started := ret tt;
  sv_copy l := match l with
    | LIn => copySFTPClientToUpstream env_clock launch
    | LOut => copySFTPUpstreamToClient env_clock launch
    | LErr => copySFTPRaw LErr
    end |}.

(** The calling goroutine: in its select, in [Wait], collecting the copies, or
    returned. *)
Inductive caller := Selecting | Waiting | Collecting (result : exit) | Returned (err : option error).
Record bridge := Bridge {
  br_requests : bool;              (** the goroutine that serves requests runs *)
  br_started : bool;               (** the channel shellStarted or subsystemStarted is full *)
  br_reqErr : option error;        (** what is in reqErrs *)
  br_copies : line → option copier;
  br_caller : caller;
}.
Definition new_bridge : bridge := Bridge true false None (λ _, None) Selecting.

(** One turn: of the request goroutine, of a copy, of the caller (with the case
    its select prefers), the timer, or the exit of the upstream. *)
Inductive turn := TRequest | TCopy (l : line) (n : nat) | TCaller (error_first : bool) | TTimer | TExit (result : exit).

Definition set_requests (rs : list request) (w : channel) : channel :=
  Channel rs (ch_stdin w) (ch_stdout w) (ch_stderr w) (ch_faults w) (ch_trace w) (ch_relay w) (ch_files w).
Definition serve_request (sv : service) (b : bridge) : M channel bridge :=
  let! w := get in
  match ch_requests w with
  | req :: rest =>
      if br_requests b then
        do! modify (set_requests rest) in
        let! r := try (sv_handle sv req) in
        let ok := match r with inl (ok, _) => ok | inr _ => false end in
        do! (if rq_WantReply req then emit (Reply ok) else ret tt) in
        match r with
        | inr e => ret (Bridge false (br_started b) (Some e) (br_copies b) (br_caller b))
        | inl (_, started) => ret (Bridge true (br_started b || started) (br_reqErr b) (br_copies b) (br_caller b))
        end
      else ret b
  | [] => ret b
  end.

Definition set_copy (l : line) (c : option copier) (copies : line → option copier) : line → option copier :=
  λ l', if decide (l' = l) then c else copies l'.
Definition copies_done (b : bridge) : bool :=
  let finished c := match c with Some (Finished _) => true | _ => false end in
  finished (br_copies b LIn) && finished (br_copies b LOut) && finished (br_copies b LErr).
Definition with_caller (c : caller) (b : bridge) : bridge :=
  Bridge (br_requests b) (br_started b) (br_reqErr b) (br_copies b) c.

Definition call_turn (sv : service) (error_first : bool) (b : bridge) : M channel bridge :=
  match br_caller b with
  | Selecting =>
      match br_started b, br_reqErr b with
      | true, Some e =>
          if error_first then ret (with_caller (Returned (Some (Wrap §"session_request_failed" e))) b)
          else do! sv_started sv in ret (Bridge (br_requests b) false (br_reqErr b) (λ _, Some (Reading [])) Waiting)
      | true, None => do! sv_started sv in ret (Bridge (br_requests b) false None (λ _, Some (Reading [])) Waiting)
      | false, Some e => ret (with_caller (Returned (Some (Wrap §"session_request_failed" e))) b)
      | false, None => ret b
      end
  | Collecting result =>
      if copies_done b then
        match result with
        | ExitZero => do! emit (SendExitStatus 0) in ret (with_caller (Returned None) b)
        | ExitError status => do! emit (SendExitStatus (wrap 32 status)) in ret (with_caller (Returned None) b)
        | WaitError e => ret (with_caller (Returned (Some (Wrap §"upstream_wait_failed" e))) b)
        end
      else ret b
  | _ => ret b
  end.

Definition bridge_turn (sv : service) (t : turn) (b : bridge) : M channel bridge :=
  match t with
  | TRequest => match br_caller b with Returned _ => ret b | _ => serve_request sv b end
  | TCopy l n =>
      match br_copies b l with
      | Some c =>
          let! c := sv_copy sv l n c in
          ret (Bridge (br_requests b) (br_started b) (br_reqErr b) (set_copy l (Some c) (br_copies b)) (br_caller b))
      | None => ret b
      end
  | TCaller error_first => call_turn sv error_first b
  | TTimer => match br_caller b with
              | Selecting => ret (with_caller (Returned (Some (Errorf (sv_timeout sv)))) b)
              | _ => ret b
              end
  | TExit result => match br_caller b with Waiting => ret (with_caller (Collecting result) b) | _ => ret b end
  end.
Fixpoint bridge_turns (sv : service) (sched : list turn) (b : bridge) : M channel bridge :=
  match sched with
  | [] => ret b
  | t :: rest => let! b := bridge_turn sv t b in bridge_turns sv rest b
  end.

(** [StdinPipe], [StdoutPipe] and [StderrPipe]; then the turns.  [None]: the
    bridge has not returned when the schedule ends. *)
Definition open_pipes (pipes : line → option error) : option error :=
  match pipes LIn, pipes LOut, pipes LErr with
  | Some e, _, _ => Some (Wrap §"open upstream stdin" e)
  | _, Some e, _ => Some (Wrap §"open upstream stdout" e)
  | _, _, Some e => Some (Wrap §"open upstream stderr" e)
  | _, _, _ => None
  end.
Definition run_bridge (sv : service) (pipes : line → option error) (sched : list turn) : M channel (option (option error)) :=
  match open_pipes pipes with
  | Some e => ret (Some (Some e))
  | None =>
      let! b := bridge_turns sv sched new_bridge in
      ret match br_caller b with Returned err => Some err | _ => None end
  end.
Definition bridgeSession := run_bridge shell_service.
Definition bridgeSFTPSession := run_bridge sftp_service.
End Channel.

(** ** The connection *)

(** [err.Error()]. *)
Fixpoint Error `{SshWire} (e : error) : bytes :=
  match e with
  | ErrVar name => var_text name
  | Errorf msg => msg
  | Wrap msg e => msg ++ §": " ++ Error e
  end.
Definition bridgeFailureReason `{Unicode} `{SshWire} (err : error) : bytes :=
  let text := ToLower (TrimSpace (Error err)) in
  if Contains text §"shell_request_timeout" then §"shell_request_timeout"
  else if Contains text §"sftp_subsystem_timeout" then §"sftp_subsystem_timeout"
  else if Contains text §"session_request_failed" then §"session_request_failed"
  else if Contains text §"upstream_wait_failed" then §"upstream_wait_failed"
  else §"bridge_failed".

(** One [ssh.Dial]: it fails before the key exchange, or the upstream shows a
    key from an address and then takes the credential or not. *)
Inductive dial := DialFailed (e : error) | Shown (remote key : bytes) (auth : option error).
Record environment := Environment {
  env_remote_addr : bytes;
  (** The types of the channels the client opens. *)
  env_channels : list bytes;
  env_accept : option error;
  (** [ResolveForAsset] of the asset and a type. *)
  env_credential : bytes → credential + error;
  (** The dial and the one after a repair, and the probe between them. *)
  env_dial : dial;
  env_redial : dial;
  env_probe : error + (option bytes * option error);
  env_session : option error;
  env_pipes : line → option error;
  env_schedule : list turn;
  env_clock : nat → Z;
  env_elapsed : nat → Z;
}.

Section Connection.
Context `{Unicode} `{KnownHosts} `{SshWire} (cfg : KnownHosts.Config) (hostKeyCallback : callback) (env : environment).

Definition in_files {A} (m : M file A) : M channel A :=
  zoom ch_files (λ f w, Channel (ch_requests w) (ch_stdin w) (ch_stdout w) (ch_stderr w) (ch_faults w) (ch_trace w) (ch_relay w) f) m.

Definition resolveLinuxUpstreamCredential : (credential * bytes) + error :=
  match env_credential env TypeSSHKey with
  | inl cred => inl (cred, TypeSSHKey)
  | inr err =>
      if negb (errors_is err §"credentials.ErrCredentialNotFound") then inr (Wrap §"resolve ssh credential" err)
      else match env_credential env TypePassword with
           | inl cred => inl (cred, TypePassword)
           | inr err => inr (Wrap §"resolve password credential" err)
           end
  end.

Definition dialUpstreamSSH (endpoint user : bytes) (method : auth_method) (d : dial) : M channel unit :=
  match d with
  | DialFailed e => fail e
  | Shown remote key auth =>
      let! r := try (in_files (match hostKeyCallback with None => ret tt | Some check => check endpoint remote key end)) in
      match r with
      | inr e => fail (handshake_failed e)
      | inl _ =>
          do! emit (Offer user method) in
          match auth with None => ret tt | Some e => fail e end
      end
  end.

Definition with_upstream_user (l : LaunchContext) (user : bytes) : LaunchContext := {|
  l_SessionID := l_SessionID l; l_UserID := l_UserID l; l_AssetID := l_AssetID l; l_AssetName := l_AssetName l;
  l_RequestID := l_RequestID l; l_Action := l_Action l; l_Protocol := l_Protocol l; l_AssetType := l_AssetType l;
  l_Host := l_Host l; l_Port := l_Port l; l_UpstreamUsername := user; l_Status := l_Status l;
  l_ExpiresAt := l_ExpiresAt l |}.

(** The method of the credential. *)
Definition auth_method_of (cred : credential) (credType : bytes) : auth_method + error :=
  if bool_decide (credType = TypeSSHKey) then
    match parse_private_key (cr_Secret cred) with
    | Some e => inr (Wrap §"parse ssh private key" e)
    | None => inl (PublicKeys (cr_Secret cred))
    end
  else inl (Password (cr_Secret cred)).

(** The name the proxy logged in with. *)
Definition connectUpstream (launch : LaunchContext) : M channel bytes :=
  match resolveLinuxUpstreamCredential with
  | inr e => fail e
  | inl (cred, credType) =>
      let launch := with_upstream_user launch (TrimSpace (cr_Username cred)) in
      do! record (Session (RecordCredentialUsage launch credType §"proxy_upstream_auth" (l_RequestID launch))) in
      guard! negb (bool_decide (TrimSpace (cr_Username cred) = []))
        else Errorf §"credential username is required for ssh" in
      match auth_method_of cred credType with
      | inr e => fail e
      | inl method =>
          let endpoint := JoinHostPort (l_Host launch) (Itoa (l_Port launch)) in
          let dial := dialUpstreamSSH endpoint (cr_Username cred) method in
          let! r := try (dial (env_dial env)) in
          let! r := match r with
            | inl _ => ret r
            | inr err =>
                let! repaired := try (in_files (tryAutoRepairKnownHostsOnDialError cfg launch (env_probe env) err)) in
                match repaired with
                | inl true => try (dial (env_redial env))
                | _ => ret r
                end
            end in
          match r with
          | inr err => fail (Wrap (§"dial upstream ssh " ++ endpoint) err)
          | inl _ =>
              match env_session env with
              | Some e => fail (Wrap §"open upstream session" e)
              | None => ret (TrimSpace (cr_Username cred))
              end
          end
      end
  end.

(** The channels up to the first session; the others are refused. *)
Fixpoint session_channel (types : list bytes) : M channel bool :=
  match types with
  | [] => ret false
  | ty :: rest =>
      if bool_decide (ty = §"session") then ret true
      else do! emit (RejectChannel true §"only session channels are supported") in session_channel rest
  end.

(** What happens after the handshake.  [false]: the bridge has not returned
    when the schedule ends. *)
Definition handleConn (perms : option (gmap bytes bytes)) : M channel bool :=
  match launchFromPermissions perms with
  | inr _ => ret true
  | inl launch =>
      let failed l reason := do! record (Session (MarkFailed l reason)) in ret true in
      do! record (Session (MarkProxyConnected launch (env_remote_addr env))) in
      let! found := session_channel (env_channels env) in
      if negb found then failed launch §"no_session_channel"
      else
        let! up := try (connectUpstream launch) in
        match up with
        | inr err =>
            do! emit (RejectChannel false (§"upstream connection failed: " ++ Error err)) in
            failed launch §"upstream_connect_failed"
        | inl user =>
            let launch := if bool_decide (TrimSpace user = []) then launch else with_upstream_user launch (TrimSpace user) in
            do! record (Session (MarkUpstreamConnected launch)) in
            match env_accept env with
            | Some _ => failed launch §"session_channel_accept_failed"
            | None =>
                do! emit AcceptChannel in
                let bridge := if bool_decide (l_Action launch = §"sftp")
                              then bridgeSFTPSession (env_clock env) launch
                              else bridgeSession (env_elapsed env) launch in
                let! r := bridge (env_pipes env) (env_schedule env) in
                match r with
                | None => ret false
                | Some (Some err) => failed launch (bridgeFailureReason err)
                | Some None => do! record (Session (MarkEnded launch §"client_disconnected")) in ret true
                end
            end
        end
  end.
End Connection.
