(* ===== verification/SshSpec.v ===== *)
(** What a bridge of the SSH proxy forwards and records, under every schedule of
    its goroutines and every failing write. *)
From S2P Require Import Prelude GoStrings GoBinary GoEncoding GoNet GoIO Tokens Store Sessions ProxyEvents Sftp SftpSpec KnownHosts SshChannel Ssh.

(** * Traces *)

(** The bytes that went out on a line. *)
Definition sent1 (l : line) (e : ssh_effect) : bytes :=
  match l, e with
  | LIn, ToStdin b | LOut, ToStdout b | LErr, ToStderr b => b
  | _, _ => []
  end.
Definition sent (l : line) (t : list ssh_effect) : bytes := concat (map (sent1 l) t).
(** The file operations recorded, and those of them that a client's packet makes. *)
Definition file_event (e : ssh_effect) : option (gmap bytes json) :=
  match e with Record_ (WriteFileOperation _ _ p) => Some p | _ => None end.
Definition is_download (p : gmap bytes json) : bool := 
  match p !! §"operation" with Some (JStr verb) => bool_decide (verb = §"download_read") | _ => false end.
Definition file_events (t : list ssh_effect) : list (gmap bytes json) := omap file_event t.
Definition client_events (t : list ssh_effect) : list (gmap bytes json) :=
  List.filter (λ p, negb (is_download p)) (file_events t).

Lemma sent_app l t u : sent l (t ++ u) = sent l t ++ sent l u.
Proof. unfold sent. by rewrite map_app, concat_app. Qed.
Lemma file_events_app t u : file_events (t ++ u) = file_events t ++ file_events u.
Proof. apply omap_app. Qed.
Lemma client_events_app t u : client_events (t ++ u) = client_events t ++ client_events u.
Proof. unfold client_events. by rewrite file_events_app, List.filter_app. Qed.

(** * Runs of the parts *)

Lemma pump_run l cap n w o w' : (0 < cap)%nat → pump l cap n w = (o, w') →
  (o = Ok Blocked ∧ w' = w ∧ input l w = Stream [] None) ∨
  (∃ e, o = Ok (Stopped (if bool_decide (e = io_EOF) then None else Some e)) ∧ w' = w ∧ input l w = Stream [] (Some e)) ∨
  ∃ chunk out rest faults, chunk ≠ [] ∧ st_buf (input l w) = chunk ++ rest ∧
    w' = set_trace faults (ch_trace w ++ [output l out]) (set_input l (Stream rest (st_end (input l w))) w) ∧
    (o = Ok (Pumped chunk) ∧ out = chunk ∨ ∃ e, o = Ok (Stopped (Some e)) ∧ out `prefix_of` chunk).
Proof.
  intros Hcap. unfold pump, bind, get. destruct (input l w) as [buf end_] eqn:Ei. cbn [st_buf st_end].
  destruct buf as [|x buf].
  - destruct end_ as [e|]; intros [= <- <-]; [right; left|left]; by eauto.
  - unfold modify, try, put_bytes. set (k := Nat.min cap (Nat.max 1 n)). intros Hrun. right. right.
    assert (Hk : (0 < k)%nat) by (unfold k; lia).
    assert (Hne : take k (x :: buf) ≠ []) by (destruct k; [lia|done]).
    assert (Hf : ch_faults (set_input l (Stream (drop k (x :: buf)) end_) w) = ch_faults w) by by destruct l.
    assert (Ht : ch_trace (set_input l (Stream (drop k (x :: buf)) end_) w) = ch_trace w) by by destruct l.
    rewrite Hf, Ht in Hrun.
    destruct (ch_faults w) as [|[[j e]|] faults] eqn:Ef; injection Hrun as <- <-.
    + exists (take k (x :: buf)), (take k (x :: buf)), (drop k (x :: buf)), []. rewrite take_drop. split_and!; try done. by left.
    + exists (take k (x :: buf)), (take j (take k (x :: buf))), (drop k (x :: buf)), faults.
      rewrite take_drop. split_and!; try done. right. exists e. split; [done|].
      exists (drop j (take k (x :: buf))). by rewrite take_drop.
    + exists (take k (x :: buf)), (take k (x :: buf)), (drop k (x :: buf)), faults. rewrite take_drop. split_and!; try done. by left.
Qed.

(** [only P w w']: the trace grew by events that satisfy [P], and the streams
    and the requests are only consumed elsewhere. *)
Definition only (P : ssh_effect → Prop) (w w' : channel) : Prop :=
  ∃ t, ch_trace w' = ch_trace w ++ t ∧ Forall P t.
#[export] Instance only_preorder P : PreOrder (only P).
Proof.
  split.
  - intros w. exists []. by rewrite app_nil_r.
  - intros u v w (s & Hs & Ps) (t & Ht & Pt). exists (s ++ t). rewrite Ht, Hs, app_assoc. split; [done|by apply Forall_app].
Qed.
Lemma only_weaken P Q w w' : (∀ e, P e → Q e) → only P w w' → only Q w w'.
Proof. intros HPQ (t & Ht & Hp). exists t. split; [done|by eapply Forall_impl]. Qed.

Section Only.
Context (P : ssh_effect → Prop).
Lemma only_emit e : P e → keeps (only P) (emit e).
Proof. intros He w. exists [e]. split; [done|by constructor]. Qed.
Lemma only_record c : P (Record_ c) → keeps (only P) (record c).
Proof. apply only_emit. Qed.
Lemma only_put side b : (∀ p, P (side p)) → keeps (only P) (put_bytes side b).
Proof.
  intros Hs w. unfold put_bytes. destruct (ch_faults w) as [|[[k e]|] fs]; eexists [_]; (split; [done|by constructor]).
Qed.
Lemma only_ask r : P (ToSession r) → keeps (only P) (ask r).
Proof. intros Hr. by apply only_put. Qed.
Lemma only_pump l cap n : (0 < cap)%nat → (∀ b, P (output l b)) → keeps (only P) (pump l cap n).
Proof.
  intros Hcap Hout w. destruct (pump l cap n w) as [o w'] eqn:E. cbn.
  apply pump_run in E as [(_ & -> & _)|[(e & _ & -> & _)|(chunk & out & rest & fs & _ & _ & -> & _)]]; [reflexivity..| |done].
  exists [output l out]. split; [done|by constructor].
Qed.
Lemma only_modify f : (∀ w, ch_trace (f w) = ch_trace w) → keeps (only P) (modify f).
Proof. intros Hf w. exists []. cbn. by rewrite Hf, app_nil_r. Qed.
Lemma only_with_relay {A} (f : sftpRelayState → A * sftpRelayState) : keeps (only P) (with_relay f).
Proof. intros w. unfold with_relay. destruct (f _). exists []. by rewrite app_nil_r. Qed.
End Only.
#[export] Hint Resolve only_emit only_record only_put only_ask only_pump only_modify only_with_relay only_preorder : keeps.

(** * What the upstream is asked *)

(** A shell session asks for a terminal, its size and a shell; an SFTP session for
    the subsystem sftp; neither marks the session. *)
Definition asks (sftp : bool) (e : ssh_effect) : Prop :=
  match e with
  | ToSession (RequestSubsystem name) => sftp = true ∧ name = §"sftp"
  | ToSession _ => sftp = false
  | Record_ (Session _) | Offer _ _ => False
  | _ => True
  end.
Definition starts (sftp : bool) (e : ssh_effect) : Prop :=
  e = ToSession (if sftp then RequestSubsystem §"sftp" else Shell).
Definition carries (e : ssh_effect) : Prop :=
  match e with ToStdin _ | ToStdout _ | ToStderr _ => True | _ => False end.
(** No byte passes before the start was asked for. *)
Fixpoint bytes_after_start (sftp : bool) (t : list ssh_effect) : Prop :=
  match t with [] => True | e :: rest => starts sftp e ∨ (¬ carries e ∧ bytes_after_start sftp rest) end.
Definition before_start (sftp : bool) (e : ssh_effect) : Prop := asks sftp e ∧ ¬ carries e.

Lemma after_quiet sftp t u : bytes_after_start sftp t → Forall (λ e, ¬ carries e) u → bytes_after_start sftp (t ++ u).
Proof.
  intros Ht Hu. induction t as [|e t IH]; cbn in *.
  - induction Hu; cbn; [done|by right].
  - destruct Ht as [?|[? ?]]; [by left|right]. auto.
Qed.
Lemma after_started sftp t u : bytes_after_start sftp t → Exists (starts sftp) t → bytes_after_start sftp (t ++ u).
Proof.
  intros Ht He. induction t as [|e t IH]; [by apply Exists_nil in He|]. cbn in *.
  destruct Ht as [?|[? ?]]; [by left|]. apply Exists_cons in He as [?|?]; [by left|right; auto].
Qed.

Section Confined.
Context `{SshWire} (sftp : bool).

(** What a service owes the bridge. *)
Record confined_service (sv : service) : Prop := {
  cs_handle : ∀ req, keeps (only (before_start sftp)) (sv_handle sv req);
  cs_starts : ∀ req w ok w' t, sv_handle sv req w = (Ok (ok, true), w') → ch_trace w' = ch_trace w ++ t → Exists (starts sftp) t;
  cs_started : keeps (only (before_start sftp)) (sv_started sv);
  cs_copy : ∀ l n c, keeps (only (asks sftp)) (sv_copy sv l n c);
}.

(** What a bridge has done since [w0]. *)
Definition confined_run (w0 : channel) (b : bridge) (w : channel) : Prop :=
  ∃ t, ch_trace w = ch_trace w0 ++ t ∧ Forall (asks sftp) t ∧ bytes_after_start sftp t ∧
    ((br_started b = true ∨ ∃ l c, br_copies b l = Some c) → Exists (starts sftp) t).

Lemma confined_quiet w0 b b' w w' : confined_run w0 b w → only (before_start sftp) w w' →
  (br_started b' = true ∨ (∃ l c, br_copies b' l = Some c) → br_started b = true ∨ ∃ l c, br_copies b l = Some c) →
  confined_run w0 b' w'.
Proof.
  intros (t & Ht & Ha & Hb & Hs) (u & Hu & Hq) Hb'. exists (t ++ u). rewrite Hu, Ht, app_assoc. split; [done|].
  split; [apply Forall_app; split; [done|by eapply Forall_impl; [exact Hq|intros ? []]]|].
  split; [apply after_quiet; [done|by eapply Forall_impl; [exact Hq|intros ? []]]|].
  intros Hx. apply Exists_app. left. auto.
Qed.

Lemma try_run {A} (m : M channel A) w o w' : try m w = (o, w') →
  (∃ a, o = Ok (inl a) ∧ m w = (Ok a, w')) ∨ (∃ e, o = Ok (inr e) ∧ m w = (Err e, w')) ∨
  (∃ y, o = Panic y ∧ m w = (Panic y, w')) ∨ o = OutOfFuel ∧ m w = (OutOfFuel, w').
Proof. unfold try. destruct (m w) as [[]]; intros [= <- <-]; eauto 10. Qed.
Lemma only_after P {A} (m : M channel A) w o w' : keeps (only P) m → m w = (o, w') → only P w w'.
Proof. intros Hm E. specialize (Hm w). by rewrite E in Hm. Qed.

Lemma serve_confined sv w0 b w b' w' : confined_service sv → confined_run w0 b w →
  serve_request sv b w = (Ok b', w') → confined_run w0 b' w'.
Proof.
  intros Hsv Hc. unfold serve_request. unfold bind at 1, get. destruct (ch_requests w) as [|req rest]; [by intros [= <- <-]|].
  destruct (br_requests b); [|by intros [= <- <-]]. intros E. apply bind_ok in E as ([] & w1 & Em & E).
  injection Em as <-. apply bind_ok in E as (r & w2 & Et & E). apply bind_ok in E as ([] & w3 & Er & E).
  set (w1 := set_requests rest w) in *.
  assert (Hq3 : only (before_start sftp) w2 w3).
  { eapply only_after; [|exact Er]. destruct (rq_WantReply req); [|apply keeps_ret, _]. apply only_emit. split; [done|by intros []]. }
  apply try_run in Et as [((ok, started) & [= ->] & Eh)|[(e & [= ->] & Eh)|[(? & ? & _)|[? _]]]]; [| |done..].
  - injection E as <- <-. pose proof (only_after _ _ _ _ _ (cs_handle _ Hsv req) Eh) as Hq2.
    assert (Hq : only (before_start sftp) w w3) by (etransitivity; [exact Hq2|exact Hq3]).
    destruct started; [|apply (confined_quiet w0 b _ w w3); [done..|]; cbn; by rewrite orb_false_r].
    destruct Hq2 as (t2 & Ht2 & Hp2). pose proof (cs_starts _ Hsv _ _ _ _ _ Eh Ht2) as Hex.
    change (ch_trace w1) with (ch_trace w) in Ht2.
    destruct Hq3 as (t3 & Ht3 & Hp3). destruct Hc as (t & Ht & Ha & Hb & Hs).
    exists (t ++ t2 ++ t3). rewrite Ht3, Ht2, Ht, <- !app_assoc. split; [done|].
    split; [rewrite !Forall_app; split_and!; [done|by eapply Forall_impl; [exact Hp2|intros ? []]|by eapply Forall_impl; [exact Hp3|intros ? []]]|].
    split; [apply after_quiet; [done|apply Forall_app; split; [by eapply Forall_impl; [exact Hp2|intros ? []]|by eapply Forall_impl; [exact Hp3|intros ? []]]]|].
    intros _. rewrite !Exists_app. by right; left.
  - injection E as <- <-. pose proof (only_after _ _ _ _ _ (cs_handle _ Hsv req) Eh) as Hq2.
    apply (confined_quiet w0 b _ w w3); [done|etransitivity; [exact Hq2|exact Hq3]|done].
Qed.

Lemma call_confined sv w0 ef b w b' w' : confined_service sv → confined_run w0 b w →
  call_turn sv ef b w = (Ok b', w') → confined_run w0 b' w'.
Proof.
  intros Hsv Hc. unfold call_turn.
  assert (Hgo : br_started b = true → (do! sv_started sv in ret (Bridge (br_requests b) false (br_reqErr b) (λ _, Some (Reading [])) Waiting)) w = (Ok b', w') →
    confined_run w0 b' w').
  { intros Hstart E. apply bind_ok in E as ([] & w1 & Es & E). injection E as <- <-.
    apply (confined_quiet w0 b _ w w1); [done|by eapply only_after; [apply (cs_started _ Hsv)|exact Es]|]. intros _. by left. }
  assert (Hsame : ∀ c, confined_run w0 (with_caller c b) w) by (intros c; exact Hc).
  destruct (br_caller b); try by intros [= <- <-].
  - destruct (br_started b) eqn:Est, (br_reqErr b) as [e|] eqn:Ee; try by intros [= <- <-].
    + destruct ef; [by intros [= <- <-]|]. by apply Hgo.
    + by apply Hgo.
  - destruct (copies_done b); [|by intros [= <- <-]].
    destruct result as [|st|e]; [| |by intros [= <- <-]]; intros E; apply bind_ok in E as ([] & w1 & Es & E); injection E as <- <-;
      (apply (confined_quiet w0 b _ w w1); [done| |done]); eapply only_after; [|exact Es| |exact Es];
      apply only_emit; (split; [done|by intros []]).
Qed.

Lemma turn_confined sv w0 t b w b' w' : confined_service sv → confined_run w0 b w →
  bridge_turn sv t b w = (Ok b', w') → confined_run w0 b' w'.
Proof.
  intros Hsv Hc. destruct t as [|l n|ef| |result]; cbn [bridge_turn].
  - destruct (br_caller b); try (intros E; by eapply serve_confined). by intros [= <- <-].
  - destruct (br_copies b l) as [c|] eqn:Ec; [|by intros [= <- <-]]. intros E. apply bind_ok in E as (c' & w1 & Er & E).
    injection E as <- <-. destruct (only_after _ _ _ _ _ (cs_copy _ Hsv l n c) Er) as (u & Hu & Ha').
    destruct Hc as (t & Ht & Ha & Hb & Hs). exists (t ++ u). rewrite Hu, Ht, app_assoc. split; [done|].
    assert (Hex : Exists (starts sftp) t) by (apply Hs; right; by exists l, c).
    split; [by apply Forall_app|]. split; [by apply after_started|]. intros _. apply Exists_app. by left.
  - intros E. by eapply call_confined.
  - destruct (br_caller b); by intros [= <- <-].
  - destruct (br_caller b); by intros [= <- <-].
Qed.
Lemma turns_confined sv w0 sched : confined_service sv → ∀ b w b' w', confined_run w0 b w →
  bridge_turns sv sched b w = (Ok b', w') → confined_run w0 b' w'.
Proof.
  intros Hsv. induction sched as [|t sched IH]; intros b w b' w' Hc; cbn; [by intros [= <- <-]|].
  intros E. apply bind_ok in E as (b1 & w1 & Et & E). eapply IH; [|exact E]. by eapply turn_confined.
Qed.
Lemma bridge_confined sv pipes sched w r w' : confined_service sv → run_bridge sv pipes sched w = (Ok r, w') →
  ∃ t, ch_trace w' = ch_trace w ++ t ∧ Forall (asks sftp) t ∧ bytes_after_start sftp t.
Proof.
  intros Hsv. unfold run_bridge. destruct (open_pipes pipes).
  - intros [= <- <-]. exists []. by rewrite app_nil_r.
  - intros E. apply bind_ok in E as (b & w1 & Et & E). injection E as _ <-.
    destruct (turns_confined sv w sched Hsv new_bridge w b w1) as (t & Ht & Ha & Hb & _); [|done|by exists t].
    exists []. rewrite app_nil_r. split_and!; try done. intros [?|(l & c & ?)]; done.
Qed.
End Confined.

(** * Induction over the turns of a bridge *)

(** A request handled and answered. *)
Definition handled (sv : service) (w w' : channel) : Prop :=
  ∃ req rest o w2, try (sv_handle sv req) (set_requests rest w) = (Ok o, w2) ∧
    (w' = w2 ∨ ∃ ok, w' = set_trace (ch_faults w2) (ch_trace w2 ++ [Reply ok]) w2).
(** A move of the caller that nothing else shows. *)
Definition moves (b : bridge) (c : caller) : Prop :=
  match br_caller b, c with
  | Selecting, Returned (Some _) | Waiting, Collecting _ => True
  | Collecting (WaitError _), Returned (Some _) => copies_done b = true
  | _, _ => False
  end.

Lemma bridge_induction (sv : service) (I : bridge → channel → Prop) :
  (∀ b b' w w', I b w → br_copies b' = br_copies b → br_caller b' = br_caller b → handled sv w w' → I b' w') →
  (∀ b l n c c' w w', I b w → br_copies b l = Some c → sv_copy sv l n c w = (Ok c', w') →
     I (Bridge (br_requests b) (br_started b) (br_reqErr b) (set_copy l (Some c') (br_copies b)) (br_caller b)) w') →
  (∀ b b' w w', I b w → br_caller b = Selecting → br_caller b' = Waiting → br_copies b' = (λ _, Some (Reading [])) →
     sv_started sv w = (Ok tt, w') → I b' w') →
  (∀ b c w, I b w → moves b c → I (with_caller c b) w) →
  (∀ b w result status, I b w → br_caller b = Collecting result → copies_done b = true →
     I (with_caller (Returned None) b) (set_trace (ch_faults w) (ch_trace w ++ [SendExitStatus status]) w)) →
  ∀ sched b w b' w', I b w → bridge_turns sv sched b w = (Ok b', w') → I b' w'.
Proof.
  intros Hserve Hcopy Hstart Hmove Hexit. induction sched as [|t sched IH]; intros b w b' w' Hi; cbn; [by intros [= <- <-]|].
  intros E. apply bind_ok in E as (b1 & w1 & Et & E). eapply IH; [|exact E]. clear IH E. destruct t as [|l n|ef| |result]; cbn [bridge_turn] in Et.
  - assert (Hs : serve_request sv b w = (Ok b1, w1) → I b1 w1).
    { unfold serve_request. unfold bind at 1, get. destruct (ch_requests w) as [|req rest]; [by intros [= <- <-]|].
      destruct (br_requests b); [|by intros [= <- <-]]. intros E. apply bind_ok in E as ([] & w2 & Em & E).
      injection Em as <-. apply bind_ok in E as (r & w3 & Er & E). apply bind_ok in E as ([] & w4 & Ew & E).
      apply (Hserve b _ w); [done|by destruct r as [[]|]; injection E as <- _|by destruct r as [[]|]; injection E as <- _|].
      exists req, rest, r, w3. split; [exact Er|]. assert (w1 = w4) as -> by (destruct r as [[]|]; by injection E as _ <-).
      destruct (rq_WantReply req); injection Ew as <-; [right; by eexists|by left]. }
    destruct (br_caller b); try (by apply Hs). by injection Et as <- <-.
  - destruct (br_copies b l) as [c|] eqn:Ec; [|by injection Et as <- <-]. apply bind_ok in Et as (c' & w2 & Er & E).
    injection E as <- <-. by eapply Hcopy.
  - unfold call_turn in Et.
    assert (Hgo : br_caller b = Selecting →
      (do! sv_started sv in ret (Bridge (br_requests b) false (br_reqErr b) (λ _, Some (Reading [])) Waiting)) w = (Ok b1, w1) → I b1 w1).
    { intros Hsel E. apply bind_ok in E as ([] & w2 & Es & E). injection E as <- <-. by eapply (Hstart b). }
    destruct (br_caller b) eqn:Ec; try by injection Et as <- <-.
    + assert (Hret : ∀ e, I (with_caller (Returned (Some e)) b) w) by (intros e; apply Hmove; [done|]; unfold moves; by rewrite Ec).
      destruct (br_started b), (br_reqErr b) as [e|] eqn:Ee.
      * destruct ef; [by injection Et as <- <-|by apply Hgo].
      * by apply Hgo.
      * by injection Et as <- <-.
      * by injection Et as <- <-.
    + destruct (copies_done b) eqn:Ed; [|by injection Et as <- <-].
      destruct result as [|st|e].
      * injection Et as <- <-. by eapply Hexit.
      * injection Et as <- <-. by eapply Hexit.
      * injection Et as <- <-. apply Hmove; [done|]. unfold moves. by rewrite Ec.
  - destruct (br_caller b) eqn:Ec; try (by injection Et as <- <-). injection Et as <- <-. apply Hmove; [done|]. unfold moves. by rewrite Ec.
  - destruct (br_caller b) eqn:Ec; try (by injection Et as <- <-). injection Et as <- <-. apply Hmove; [done|]. unfold moves. by rewrite Ec.
Qed.

(** ** The two services *)

Section Services.
Context `{Unicode} `{KnownHosts} `{SshWire} (env_clock env_elapsed : nat → Z) (launch : LaunchContext).

Lemma quiet_handle sftp req : sftp = false → keeps (only (before_start sftp)) (handleSessionRequest env_elapsed launch req).
Proof.
  intros ->. unfold handleSessionRequest, resized.
  repeat case_bool_decide; [destruct (un_pty _) as [[[[??]?]?]|]|destruct (un_window _) as [[??]|]| |];
    repeat (apply keeps_bind; [apply _| |intros ?]); auto with keeps.
  all: try (apply keeps_wrap_err, only_ask; split; [done|by intros []]).
  all: apply only_record; split; [done|by intros []].
Qed.
Lemma quiet_sftp_handle req : keeps (only (before_start true)) (handleSFTPRequest req).
Proof.
  unfold handleSFTPRequest. repeat case_bool_decide; try apply keeps_ret, _.
  destruct (un_subsystem _); [|apply keeps_fail, _]. destruct (negb _); [apply keeps_ret, _|].
  apply keeps_bind; [apply _| |intros ?; apply keeps_ret, _]. apply keeps_wrap_err, only_ask. split; [done|by intros []].
Qed.
Lemma asks_copyWithEvents sftp l ty name closing_ n c :
  keeps (only (asks sftp)) (copyWithEvents env_elapsed launch l ty name closing_ n c).
Proof.
  unfold copyWithEvents, closing. destruct c; try apply keeps_ret, _.
  - apply keeps_bind; [apply _|apply only_pump; [by apply Nat.ltb_lt|by destruct l]|]. intros [|?|?]; [apply keeps_ret, _..|].
    apply keeps_bind; [apply _| |intros ?; apply keeps_ret, _]. destruct closing_; [by apply only_emit|apply keeps_ret, _].
  - apply keeps_bind; [apply _|apply keeps_get, _|intros w]. apply keeps_bind; [apply _|by apply only_record|intros ?; apply keeps_ret, _].
Qed.
Lemma asks_record_all sftp ops : keeps (only (asks sftp)) (record_all env_clock launch ops).
Proof.
  induction ops as [|op ops IH]; [apply keeps_ret, _|]. cbn. apply keeps_bind; [apply _| |intros ?; exact IH].
  unfold recordFileOperation. case_bool_decide; [apply keeps_ret, _|].
  apply keeps_bind; [apply _|apply keeps_get, _|intros w]. by apply only_record.
Qed.
Lemma asks_copyWithParser sftp l cl on n c : (∀ p, keeps (only (asks sftp)) (on p)) →
  keeps (only (asks sftp)) (copyWithParser l cl on n c).
Proof.
  intros Hon. unfold copyWithParser, closing. destruct c as [buf|buf chunk|buf|]; try apply keeps_ret, _.
  - apply keeps_bind; [apply _|apply only_pump; [by apply Nat.ltb_lt|by destruct l]|]. intros [|?|?]; [apply keeps_ret, _..|].
    apply keeps_bind; [apply _| |intros ?; apply keeps_ret, _]. destruct cl; [by apply only_emit|apply keeps_ret, _].
  - destruct (next_packet buf); [apply keeps_ret, _..|]. apply keeps_bind; [apply _|apply Hon|intros ?; apply keeps_ret, _].
Qed.

Lemma shell_confined : confined_service false (shell_service env_elapsed launch).
Proof.
  split; cbn [shell_service sv_handle sv_started sv_copy].
  - intros req. apply keeps_bind; [apply _|by apply quiet_handle|intros ?; apply keeps_ret, _].
  - intros req w ok w' t E Ht. apply bind_ok in E as (ok' & w1 & E & Hr). injection Hr as <- Hty <-.
    apply bool_decide_eq_true in Hty. unfold handleSessionRequest in E. rewrite Hty in E. cbn -[ask] in E.
    apply bind_ok in E as ([] & w2 & Ea%wrap_ok & E). injection E as _ <-.
    unfold ask, put_bytes in Ea. destruct (ch_faults w) as [|[[]|]]; [|done|]; injection Ea as <-; cbn in Ht;
      apply app_inv_head in Ht as <-; by left.
  - apply only_record. split; [done|by intros []].
  - intros [] n c; apply asks_copyWithEvents.
Qed.
Lemma sftp_confined : confined_service true (sftp_service env_clock launch).
Proof.
  split; cbn [sftp_service sv_handle sv_started sv_copy].
  - apply quiet_sftp_handle.
  - intros req w ok w' t E Ht. unfold handleSFTPRequest in E. case_bool_decide; [|by case_bool_decide].
    destruct (un_subsystem _); [|done]. destruct (negb _); [done|].
    apply bind_ok in E as ([] & w2 & Ea%wrap_ok & E). injection E as _ <-.
    unfold ask, put_bytes in Ea. destruct (ch_faults w) as [|[[]|]]; [|done|]; injection Ea as <-; cbn in Ht;
      apply app_inv_head in Ht as <-; by left.
  - apply keeps_ret, _.
  - intros [] n c.
    + apply asks_copyWithParser. intros p. apply keeps_bind; [apply _|apply only_with_relay|intros ?; apply asks_record_all].
    + apply asks_copyWithParser. intros p. apply keeps_bind; [apply _|apply only_with_relay|intros ?; apply asks_record_all].
    + unfold copySFTPRaw, closing. destruct c; try apply keeps_ret, _.
      apply keeps_bind; [apply _|apply only_pump; [by apply Nat.ltb_lt|done]|]. intros [|?|?]; [apply keeps_ret, _..|].
      apply keeps_bind; [apply _|apply keeps_ret, _|intros ?; apply keeps_ret, _].
Qed.
End Services.

(** * Runs that answer

    [settles m]: a value or an error; [total m]: a value. *)
Definition settles {S A} (m : M S A) : Prop := ∀ s, is_ok (m s).1 = true ∨ is_err (m s).1 = true.
Definition total {S A} (m : M S A) : Prop := ∀ s, is_ok (m s).1 = true.

Lemma total_settles {S A} (m : M S A) : total m → settles m.
Proof. intros Hm s. by left. Qed.
Lemma total_ret {S A} (a : A) : total (S:=S) (ret a).
Proof. by intros s. Qed.
Lemma total_bind {S A B} (m : M S A) (k : A → M S B) : total m → (∀ a, total (k a)) → total (bind m k).
Proof. intros Hm Hk s. unfold bind. specialize (Hm s). destruct (m s) as [[]]; try done. apply Hk. Qed.
Lemma total_try {S A} (m : M S A) : settles m → total (try m).
Proof. intros Hm s. unfold try. specialize (Hm s). by destruct (m s) as [[]], Hm. Qed.
Lemma total_modify {S} (f : S → S) : total (modify f).
Proof. by intros s. Qed.
Lemma total_get {S} : total (S:=S) get.
Proof. by intros s. Qed.
Lemma settles_fail {S A} e : settles (S:=S) (A:=A) (fail e).
Proof. intros s. by right. Qed.
Lemma settles_bind {S A B} (m : M S A) (k : A → M S B) : settles m → (∀ a, settles (k a)) → settles (bind m k).
Proof. intros Hm Hk s. unfold bind. specialize (Hm s). destruct (m s) as [[]], Hm; try done; [apply Hk..|by right]. Qed.
Lemma settles_wrap {S A} msg (m : M S A) : settles m → settles (wrap_err msg m).
Proof. intros Hm s. unfold wrap_err. specialize (Hm s). destruct (m s) as [[]], Hm; try done; [by left..|by right]. Qed.
Lemma settles_put side b : settles (put_bytes side b).
Proof. intros w. unfold put_bytes. destruct (ch_faults w) as [|[[]|]]; [by left|by right|by left]. Qed.
Lemma settles_files {A} (m : M file A) : settles m → settles (in_files m).
Proof. intros Hm w. unfold in_files, zoom. specialize (Hm (ch_files w)). destruct (m _) as [[]], Hm; try done; [by left..|by right]. Qed.
Lemma total_emit e : total (emit e).
Proof. apply total_modify. Qed.
Create HintDb answers discriminated.
#[export] Hint Resolve total_ret total_modify total_get total_emit settles_fail settles_wrap settles_put total_settles : answers.
#[export] Hint Extern 4 (total (if _ then _ else _)) => match goal with |- total (if ?b then _ else _) => destruct b end : answers.
#[export] Hint Extern 4 (settles (if _ then _ else _)) => match goal with |- settles (if ?b then _ else _) => destruct b end : answers.
Ltac answers :=
  repeat match goal with
  | |- total (bind _ _) => apply total_bind; [|intros ?]
  | |- settles (bind _ _) => apply settles_bind; [|intros ?]
  | |- total (try _) => apply total_try
  | |- total (match ?x with _ => _ end) => destruct x
  | |- settles (match ?x with _ => _ end) => destruct x
  end; eauto with answers.

Section Answers.
Context `{Unicode} `{KnownHosts} `{SshWire} (env_clock env_elapsed : nat → Z) (launch : LaunchContext).

Lemma total_pump l cap n : total (pump l cap n).
Proof. unfold pump. answers. Qed.
Lemma total_record_all ops : total (record_all env_clock launch ops).
Proof. induction ops as [|op ops IH]; cbn; [apply total_ret|]. unfold recordFileOperation, record. answers. Qed.
Lemma total_with_relay {A} (f : sftpRelayState → A * sftpRelayState) : total (with_relay f).
Proof. intros w. unfold with_relay. by destruct (f _). Qed.
#[local] Hint Resolve total_pump total_record_all total_with_relay : answers.

Record total_service (sv : service) : Prop := {
  ts_handle : ∀ req, settles (sv_handle sv req);
  ts_started : total (sv_started sv);
  ts_copy : ∀ l n c, total (sv_copy sv l n c);
}.
Lemma shell_total : total_service (shell_service env_elapsed launch).
Proof.
  split; cbn [shell_service sv_handle sv_started sv_copy].
  - intros req. unfold handleSessionRequest, resized, ask, record. answers.
  - unfold record. answers.
  - intros l n c. destruct l; unfold copyWithEvents, closing, record; answers.
Qed.
Lemma sftp_total : total_service (sftp_service env_clock launch).
Proof.
  split; cbn [sftp_service sv_handle sv_started sv_copy].
  - intros req. unfold handleSFTPRequest, ask. answers.
  - answers.
  - intros l n c. destruct l; unfold copySFTPClientToUpstream, copySFTPUpstreamToClient, copySFTPRaw, copyWithParser, closing,
      handleSFTPClientPacket, handleSFTPServerPacket; answers.
Qed.
Lemma total_turn sv t b : total_service sv → total (bridge_turn sv t b).
Proof.
  intros [Hh Hs Hc]. destruct t; cbn [bridge_turn]; unfold serve_request, call_turn; answers.
Qed.
Lemma total_bridge sv pipes sched : total_service sv → total (run_bridge sv pipes sched).
Proof.
  intros Hsv. unfold run_bridge. destruct (open_pipes pipes); [apply total_ret|].
  apply total_bind; [|intros ?; apply total_ret]. generalize new_bridge. induction sched as [|t sched IH]; intros b; cbn; [apply total_ret|].
  apply total_bind; [by apply total_turn|intros ?; apply IH].
Qed.
End Answers.
