(* ===== verification/SshClaims.v ===== *)
(** A connection of the SSH proxy from the handshake to its mark: what the
    upstream is asked and shown, and what the session's record says. *)
From S2P Require Import Prelude GoStrings GoBinary GoEncoding GoNet GoIO Tokens Store Sessions PgServer Identity Access Assets Credentials ProxyEvents Sftp SftpSpec KnownHosts SshChannel Ssh SshSpec.

(** * Before the bridge *)

Definition setup (e : ssh_effect) : Prop :=
  match e with
  | Offer _ _ | RejectChannel _ _ | AcceptChannel => True
  | Record_ (Session (MarkUpstreamConnected _)) | Record_ (Session (RecordCredentialUsage _ _ _ _)) => True
  | _ => False
  end.
Definition terminal (e : ssh_effect) : Prop :=
  match e with Record_ (Session (MarkEnded _ _)) | Record_ (Session (MarkFailed _ _)) => True | _ => False end.

Section Files.
Context `{Unicode} `{KnownHosts} (cfg : KnownHosts.Config).

Lemma settles_file_op {A} (ok : option bytes → outcome A * option bytes) failed :
  (∀ t, is_ok (ok t).1 = true ∨ is_err (ok t).1 = true) → settles (file_op ok failed).
Proof.
  intros Hok f. unfold file_op. specialize (Hok (fi_text f)).
  destruct (fi_faults f) as [|[[]|]]; [|by right|]; destruct (ok _) as [o t]; exact Hok.
Qed.
Lemma settles_read : settles ReadFile.
Proof. apply settles_file_op. intros [b|]; [by left|by right]. Qed.
Lemma settles_write b : settles (WriteFile b).
Proof. apply settles_file_op. by left. Qed.
Lemma settles_ensure path : settles (ensureKnownHostsFile path).
Proof.
  unfold ensureKnownHostsFile. destruct (negb _); [|apply settles_fail].
  apply settles_bind; [|intros ?]; apply settles_wrap, settles_file_op; by left.
Qed.
Lemma settles_upsert hostname remote key : settles (upsertKnownHostEntry hostname remote key).
Proof.
  unfold upsertKnownHostEntry. apply settles_bind; [apply total_settles, total_try, settles_read|].
  intros [blob|e]; [apply settles_wrap, settles_write|]. destruct (errors_is _ _); [apply settles_wrap, settles_write|apply settles_fail].
Qed.
Lemma settles_repair launch probe err : settles (tryAutoRepairKnownHostsOnDialError cfg launch probe err).
Proof.
  unfold tryAutoRepairKnownHostsOnDialError, upsertUpstreamKnownHost. destruct (negb (cfg_UpstreamHostKeyAutoFix cfg)); [apply total_settles, total_ret|].
  destruct (EqualFold _ _); [apply total_settles, total_ret|]. destruct (negb _); [apply total_settles, total_ret|]. destruct (fetchSSHHostKey probe); [|apply settles_fail].
  apply settles_bind; [|intros ?; apply total_settles, total_ret].
  apply settles_bind; [apply settles_ensure|intros ?; apply settles_upsert].
Qed.
End Files.

Section Connection.
Context `{Unicode} `{KnownHosts} `{SshWire} (cfg : KnownHosts.Config) (cb : callback) (env : environment).
(** Whatever the callback, it answers. *)
Context (cb_settles : ∀ check, cb = Some check → ∀ hostname remote key, settles (check hostname remote key)).

Lemma only_files P {A} (m : M file A) : keeps (only P) (in_files m).
Proof. intros w. unfold in_files, zoom. destruct (m _). exists []. by rewrite app_nil_r. Qed.
Lemma setup_dial endpoint user method d : keeps (only setup) (dialUpstreamSSH cb endpoint user method d).
Proof.
  unfold dialUpstreamSSH. destruct d as [e|remote key auth]; [apply keeps_fail, _|].
  apply keeps_bind; [apply _|apply keeps_try, only_files|]. intros [?|e]; [|apply keeps_fail, _].
  apply keeps_bind; [apply _|by apply only_emit|intros ?]. destruct auth; [apply keeps_fail, _|apply keeps_ret, _].
Qed.
Lemma settles_dial endpoint user method d : settles (dialUpstreamSSH cb endpoint user method d).
Proof.
  unfold dialUpstreamSSH. destruct d as [e|remote key auth]; [apply settles_fail|].
  apply settles_bind.
  - apply total_settles, total_try, settles_files. destruct cb as [check|] eqn:E; [by apply cb_settles|apply total_settles, total_ret].
  - intros [?|e]; [|apply settles_fail]. apply settles_bind; [apply total_settles, total_emit|intros ?].
    destruct auth; [apply settles_fail|apply total_settles, total_ret].
Qed.
Lemma setup_connect launch : keeps (only setup) (connectUpstream cfg cb env launch).
Proof.
  unfold connectUpstream. destruct (resolveLinuxUpstreamCredential env) as [[cred ty]|e]; [|apply keeps_fail, _]. cbv zeta.
  apply keeps_bind; [apply _|by apply only_record|intros _]. destruct (negb _); [|apply keeps_fail, _].
  destruct (auth_method_of cred ty) as [method|e]; [|apply keeps_fail, _].
  apply keeps_bind; [apply _|apply keeps_try, setup_dial|intros r].
  apply keeps_bind; [apply _| |].
  - destruct r as [?|err]; [apply keeps_ret, _|]. apply keeps_bind; [apply _|apply keeps_try, only_files|].
    intros [[]|?]; [apply keeps_try, setup_dial|apply keeps_ret, _..].
  - intros [?|err]; [|apply keeps_fail, _]. destruct (env_session env); [apply keeps_fail, _|apply keeps_ret, _].
Qed.
Lemma settles_connect launch : settles (connectUpstream cfg cb env launch).
Proof.
  unfold connectUpstream. destruct (resolveLinuxUpstreamCredential env) as [[cred ty]|e]; [|apply settles_fail]. cbv zeta.
  apply settles_bind; [apply total_settles, total_emit|intros _]. destruct (negb _); [|apply settles_fail].
  destruct (auth_method_of cred ty) as [method|e]; [|apply settles_fail].
  apply settles_bind; [apply total_settles, total_try, settles_dial|intros r].
  apply settles_bind.
  - destruct r as [?|err]; [apply total_settles, total_ret|].
    apply settles_bind; [apply total_settles, total_try, settles_files, settles_repair|].
    intros [[]|?]; [apply total_settles, total_try, settles_dial|apply total_settles, total_ret..].
  - intros [?|err]; [|apply settles_fail]. destruct (env_session env); [apply settles_fail|apply total_settles, total_ret].
Qed.
Lemma setup_channels types : keeps (only setup) (session_channel types).
Proof.
  induction types as [|ty types IH]; cbn; [apply keeps_ret, _|]. case_bool_decide; [apply keeps_ret, _|].
  apply keeps_bind; [apply _|by apply only_emit|intros _; exact IH].
Qed.
Lemma total_channels types : total (session_channel types).
Proof. induction types as [|ty types IH]; cbn; answers. Qed.

(** One mark that ends the session, of this launch. *)
Definition marked (launch : LaunchContext) (marks : list ssh_effect) : Prop :=
  ∃ l, l_SessionID l = l_SessionID launch ∧ l_UserID l = l_UserID launch ∧ l_AssetID l = l_AssetID launch ∧
    ((∃ reason, marks = [Record_ (Session (MarkFailed l reason))]) ∨
     marks = [Record_ (Session (MarkEnded l §"client_disconnected"))]).
(** What a connection does for a launch. *)
Definition connection (launch : LaunchContext) (done : bool) (t : list ssh_effect) : Prop :=
  let sftp := bool_decide (l_Action launch = §"sftp") in
  ∃ before during marks,
    t = Record_ (Session (MarkProxyConnected launch (env_remote_addr env))) :: before ++ during ++ marks ∧
    Forall setup before ∧ Forall (asks sftp) during ∧ bytes_after_start sftp during ∧
    if done then marked launch marks else marks = [].

Lemma total_run {S A} (m : M S A) s : total m → ∃ a s', m s = (Ok a, s').
Proof. intros Hm. specialize (Hm s). destruct (m s) as [[a| | |] s']; try done. by exists a, s'. Qed.
Lemma failed_connection launch l reason w0 w before :
  l_SessionID l = l_SessionID launch → l_UserID l = l_UserID launch → l_AssetID l = l_AssetID launch →
  ch_trace w = ch_trace w0 ++ Record_ (Session (MarkProxyConnected launch (env_remote_addr env))) :: before →
  Forall setup before →
  ∃ done w', (do! record (Session (MarkFailed l reason)) in ret true) w = (Ok done, w') ∧
    ∃ t, ch_trace w' = ch_trace w0 ++ t ∧ connection launch done t.
Proof.
  intros H1' H2' H3' Ht Hb. eexists true, _. split; [reflexivity|]. eexists. split; [cbn; rewrite Ht, <- app_assoc; reflexivity|].
  exists before, [], [Record_ (Session (MarkFailed l reason))]. split_and!; try done. exists l. split_and!; try done. left. by eexists.
Qed.
Lemma bridge_ends launch l w0 w before :
  l_SessionID l = l_SessionID launch → l_UserID l = l_UserID launch → l_AssetID l = l_AssetID launch →
  l_Action l = l_Action launch →
  ch_trace w = ch_trace w0 ++ Record_ (Session (MarkProxyConnected launch (env_remote_addr env))) :: before →
  Forall setup before →
  let bridge := if bool_decide (l_Action l = §"sftp") then bridgeSFTPSession (env_clock env) l else bridgeSession (env_elapsed env) l in
  ∃ done w',
    (let! r := bridge (env_pipes env) (env_schedule env) in
     match r with
     | None => ret false
     | Some (Some err) => do! record (Session (MarkFailed l (bridgeFailureReason err))) in ret true
     | Some None => do! record (Session (MarkEnded l §"client_disconnected")) in ret true
     end) w = (Ok done, w') ∧
    ∃ t, ch_trace w' = ch_trace w0 ++ t ∧ connection launch done t.
Proof.
  intros H1' H2' H3' Ha Ht Hb bridge.
  assert (Hbr : ∃ r w1 u, bridge (env_pipes env) (env_schedule env) w = (Ok r, w1) ∧ ch_trace w1 = ch_trace w ++ u ∧
    Forall (asks (bool_decide (l_Action launch = §"sftp"))) u ∧ bytes_after_start (bool_decide (l_Action launch = §"sftp")) u).
  { unfold bridge. rewrite Ha. case_bool_decide.
    - destruct (total_run _ w (total_bridge (sftp_service (env_clock env) l) (env_pipes env) (env_schedule env) (sftp_total _ _))) as (r & w1 & E).
      destruct (bridge_confined true _ _ _ _ _ _ (sftp_confined _ _) E) as (u & ? & ? & ?). by exists r, w1, u.
    - destruct (total_run _ w (total_bridge (shell_service (env_elapsed env) l) (env_pipes env) (env_schedule env) (shell_total _ _))) as (r & w1 & E).
      destruct (bridge_confined false _ _ _ _ _ _ (shell_confined _ _) E) as (u & ? & ? & ?). by exists r, w1, u. }
  destruct Hbr as (r & w1 & u & E & Hu & Hasks & Hstart). unfold bind at 1. rewrite E.
  destruct r as [[err|]|]; eexists _, _; (split; [reflexivity|]); eexists; (split; [cbn; rewrite Hu, Ht, <- !app_assoc; reflexivity|]).
  - exists before, u, [Record_ (Session (MarkFailed l (bridgeFailureReason err)))].
    split_and!; try done. exists l. split_and!; try done. left. by eexists.
  - exists before, u, [Record_ (Session (MarkEnded l §"client_disconnected"))].
    split_and!; try done. exists l. split_and!; try done. by right.
  - exists before, u, []. split_and!; try done. by rewrite app_nil_r.
Qed.

Lemma handleConn_run perms w : ∃ done w', handleConn cfg cb env perms w = (Ok done, w') ∧
  ∃ t, ch_trace w' = ch_trace w ++ t ∧
    match launchFromPermissions perms with inr _ => t = [] | inl launch => connection launch done t end.
Proof.
  unfold handleConn. destruct (launchFromPermissions perms) as [launch|e].
  2: { eexists true, w. split; [done|]. exists []. by rewrite app_nil_r. }
  cbv zeta. unfold bind at 1. cbn [record emit modify]. set (w1 := set_trace _ _ w).
  assert (Ht1 : ch_trace w1 = ch_trace w ++ [Record_ (Session (MarkProxyConnected launch (env_remote_addr env)))]) by done.
  destruct (total_run _ w1 (total_channels (env_channels env))) as (found & w2 & Ec). unfold bind at 1. rewrite Ec.
  destruct (only_after _ _ _ _ _ (setup_channels (env_channels env)) Ec) as (before & Ht2 & Hb2).
  assert (Ht : ch_trace w2 = ch_trace w ++ Record_ (Session (MarkProxyConnected launch (env_remote_addr env))) :: before)
    by (by rewrite Ht2, Ht1, <- app_assoc).
  destruct (negb found); [by apply (failed_connection launch launch _ w w2 before)|].
  destruct (total_run _ w2 (total_try _ (settles_connect launch))) as (up & w3 & Eu). unfold bind at 1. rewrite Eu.
  destruct (only_after _ _ _ _ _ (keeps_try _ _ (setup_connect launch)) Eu) as (more & Ht3 & Hb3).
  assert (Hb : Forall setup (before ++ more)) by (by apply Forall_app).
  assert (Ht' : ch_trace w3 = ch_trace w ++ Record_ (Session (MarkProxyConnected launch (env_remote_addr env))) :: before ++ more)
    by (by rewrite Ht3, Ht, <- app_assoc).
  destruct up as [user|err].
  - set (l := if bool_decide (TrimSpace user = []) then launch else with_upstream_user launch (TrimSpace user)).
    assert (Hl : l_SessionID l = l_SessionID launch ∧ l_UserID l = l_UserID launch ∧ l_AssetID l = l_AssetID launch ∧ l_Action l = l_Action launch)
      by (unfold l; case_bool_decide; done). destruct Hl as (L1 & L2 & L3 & L4).
    unfold bind at 1. cbn [record emit modify]. destruct (env_accept env) as [e|].
    + eapply (failed_connection launch l _ _ _ ((before ++ more) ++ [Record_ (Session (MarkUpstreamConnected l))])); try done.
      * cbn. by rewrite Ht', <- app_assoc.
      * apply Forall_app. split; [done|by repeat constructor].
    + unfold bind at 1. cbn [emit modify].
      eapply (bridge_ends launch l _ _ ((before ++ more) ++ [Record_ (Session (MarkUpstreamConnected l)); AcceptChannel])); try done.
      * cbn. rewrite Ht', <- !app_assoc. cbn. by rewrite <- !app_assoc.
      * apply Forall_app. split; [done|by repeat constructor].
  - unfold bind at 1. cbn [emit modify].
    eapply (failed_connection launch launch _ _ _ ((before ++ more) ++ [RejectChannel false (§"upstream connection failed: " ++ Error err)])); try done.
    + cbn. by rewrite Ht', <- app_assoc.
    + apply Forall_app. split; [done|by repeat constructor].
Qed.
End Connection.

(** * Host keys *)

Section HostKeys.
Context `{Unicode} `{KnownHosts} `{SshWire}.

(** In the mode known-hosts the callback is a check against the file as it was
    when the proxy started. *)
Lemma known_hosts_callback cfg f cb f' : ToLower (TrimSpace (cfg_UpstreamHostKeyMode cfg)) = §"known-hosts" →
  buildUpstreamHostKeyCallback cfg f = (Ok cb, f') →
  ∃ db, kh_New (default [] (fi_text f)) = inl db ∧ cb = Some (base_callback db).
Proof.
  unfold buildUpstreamHostKeyCallback. cbv zeta. intros ->. cbn [orb]. rewrite bool_decide_false by done.
  rewrite bool_decide_true by done. cbn [orb]. intros E.
  apply bind_ok in E as ([] & f1 & Ee & E). apply bind_ok in E as (text & f2 & Er%wrap_ok & E).
  destruct (kh_New text) as [db|] eqn:Ek; [|done]. injection E as <- _. exists db. split; [|done].
  unfold ensureKnownHostsFile in Ee. destruct (negb _) in Ee; [|done].
  apply bind_ok in Ee as ([] & f0 & Em%wrap_ok & Ec%wrap_ok).
  assert (fi_text f0 = fi_text f) as E0 by (unfold MkdirAll, file_op in Em; destruct (fi_faults f) as [|[[]|]]; [|done|]; by injection Em as <-).
  assert (fi_text f1 = Some (default [] (fi_text f0))) as E1
    by (unfold create, file_op in Ec; destruct (fi_faults f0) as [|[[]|]]; [|done|]; by injection Ec as <-).
  unfold ReadFile, file_op in Er. rewrite E1, E0 in Er. destruct (fi_faults f1) as [|[[]|]]; [|done|]; by injection Er as <-.
Qed.

(** An offer of a credential in a trace; [offers K]: a run makes one only when
    [K] holds. *)
Definition offered (t : list ssh_effect) : Prop := ∃ user method, Offer user method ∈ t.
Definition offers (K : Prop) (w w' : channel) : Prop := ∃ t, ch_trace w' = ch_trace w ++ t ∧ (offered t → K).
#[export] Instance offers_preorder K : PreOrder (offers K).
Proof.
  split.
  - intros w. exists []. rewrite app_nil_r. split; [done|]. by intros (? & ? & ?%elem_of_nil).
  - intros u v w (s & Hs & Ks) (t & Ht & Kt). exists (s ++ t). rewrite Ht, Hs, app_assoc. split; [done|].
    intros (user & method & [Hin|Hin]%elem_of_app); [apply Ks|apply Kt]; by eexists _, _.
Qed.
Lemma offers_files K {A} (m : M file A) : keeps (offers K) (in_files m).
Proof.
  intros w. unfold in_files, zoom. destruct (m _). exists []. rewrite app_nil_r. split; [done|].
  by intros (? & ? & ?%elem_of_nil).
Qed.
Lemma offers_emit (K : Prop) e : (∀ user method, e = Offer user method → K) → keeps (offers K) (emit e).
Proof. intros He w. exists [e]. split; [done|]. intros (user & method & <-%list_elem_of_singleton). by eapply He. Qed.

Definition known (db : kh_db) (endpoint : bytes) (d : dial) : Prop :=
  ∃ remote key auth, d = Shown remote key auth ∧ kh_check db endpoint remote key = None.
Lemma strict_dial db endpoint user method d :
  keeps (offers (known db endpoint d)) (dialUpstreamSSH (Some (base_callback db)) endpoint user method d).
Proof.
  unfold dialUpstreamSSH. destruct d as [e|remote key auth]; [apply keeps_fail, _|].
  unfold base_callback. destruct (kh_check db endpoint remote key) as [e|] eqn:Ek.
  - intros w. exists []. rewrite app_nil_r. split; [done|]. by intros (? & ? & ?%elem_of_nil).
  - apply keeps_bind; [apply _|apply keeps_try, offers_files|]. intros [?|e]; [|apply keeps_fail, _].
    apply keeps_bind; [apply _|apply offers_emit; intros; by exists remote, key, auth|intros ?].
    destruct auth; [apply keeps_fail, _|apply keeps_ret, _].
Qed.
Lemma files_trace {A} (m : M file A) w o w' : try (in_files m) w = (o, w') → ch_trace w' = ch_trace w.
Proof. unfold try, in_files, zoom. destruct (m (ch_files w)) as [[]]; intros; by simplify_eq. Qed.
Lemma dial_offers cb endpoint user method d w w' :
  dialUpstreamSSH cb endpoint user method d w = (Ok tt, w') → ∃ t, ch_trace w' = ch_trace w ++ t ∧ offered t.
Proof.
  unfold dialUpstreamSSH. destruct d as [e|remote key auth]; [done|]. intros E.
  apply bind_ok in E as (r & w1 & Et & E). destruct r as [?|?]; [|done].
  apply bind_ok in E as ([] & w2 & Ee & E). injection Ee as <-. destruct auth; [done|]. injection E as <-.
  apply files_trace in Et as <-.
  eexists. split; [reflexivity|]. exists user, method. by apply list_elem_of_singleton.
Qed.

Lemma connect_offers cfg env launch db :
  let endpoint := JoinHostPort (l_Host launch) (Itoa (l_Port launch)) in
  keeps (offers (known db endpoint (env_dial env) ∨ known db endpoint (env_redial env)))
    (connectUpstream cfg (Some (base_callback db)) env launch).
Proof.
  intros endpoint. unfold connectUpstream. destruct (resolveLinuxUpstreamCredential env) as [[cred ty]|e]; [|apply keeps_fail, _].
  cbv zeta. apply keeps_bind; [apply _|by apply offers_emit|intros _]. destruct (negb _); [|apply keeps_fail, _].
  destruct (auth_method_of cred ty) as [method|e]; [|apply keeps_fail, _].
  assert (Hweak : ∀ (K K' : Prop) A (m : M channel A), (K → K') → keeps (offers K) m → keeps (offers K') m).
  { intros K K' A m HK Hm w'. destruct (Hm w') as (t & Ht & Hk). exists t. split; [done|]. auto. }
  apply keeps_bind; [apply _| |intros r].
  - apply keeps_try. eapply Hweak; [|apply strict_dial]. by left.
  - apply keeps_bind; [apply _| |].
    + destruct r as [?|err]; [apply keeps_ret, _|]. apply keeps_bind; [apply _|apply keeps_try, offers_files|].
      intros [[]|?]; [|apply keeps_ret, _..]. apply keeps_try. eapply Hweak; [|apply strict_dial]. by right.
    + intros [?|err]; [|apply keeps_fail, _]. destruct (env_session env); [apply keeps_fail, _|apply keeps_ret, _].
Qed.

(** A connection that succeeds has offered the credential. *)
Lemma connect_offered cfg cb env launch w user w' : connectUpstream cfg cb env launch w = (Ok user, w') →
  ∃ t, ch_trace w' = ch_trace w ++ t ∧ offered t.
Proof.
  unfold connectUpstream. destruct (resolveLinuxUpstreamCredential env) as [[cred ty]|e]; [|done]. cbv zeta. intros E.
  apply bind_ok in E as ([] & w1 & Eu & E). injection Eu as <-. destruct (negb _); [|done].
  destruct (auth_method_of cred ty) as [method|e]; [|done].
  apply bind_ok in E as (r & w2 & Ed & E). apply bind_ok in E as (r' & w3 & Er & E).
  destruct r' as [[]|err]; [|done]. assert (w' = w3) as -> by (destruct (env_session env); [done|by injection E as _ <-]).
  set (w1 := set_trace _ _ w) in Ed.
  destruct (only_after _ _ _ _ _ (keeps_try _ _ (setup_dial cb _ _ _ _)) Ed) as (t2 & Ht2 & _).
  assert (Hgoal : ∃ t, ch_trace w3 = ch_trace w1 ++ t ∧ offered t).
  { apply try_run in Ed as [([] & [= ->] & Ed)|[(e & [= ->] & Ed)|[(? & ? & _)|[? _]]]]; [| |done..].
    - injection Er as <-. by eapply dial_offers.
    - apply bind_ok in Er as (rep & w4 & Ep & Er).
      apply files_trace in Ep as Ht4.
      destruct rep as [[]|]; [|done..]. apply try_run in Er as [([] & _ & Er)|[(e' & ? & _)|[(? & ? & _)|[? _]]]]; [|done..].
      apply dial_offers in Er as (u & Hu & Ho). exists (t2 ++ u). rewrite Hu, Ht4, Ht2, app_assoc. split; [done|].
      destruct Ho as (? & ? & ?). eexists _, _. apply elem_of_app. by right. }
  destruct Hgoal as (t & Ht & user' & method' & Hin). eexists (_ :: t). rewrite Ht. unfold w1. cbn. rewrite <- app_assoc.
  split; [reflexivity|]. exists user', method'. apply elem_of_cons. by right.
Qed.
End HostKeys.

Section Claims.
Context `{Unicode} `{KnownHosts} `{SshWire}.

Lemma built_settles cfg f cb f' : buildUpstreamHostKeyCallback cfg f = (Ok cb, f') →
  ∀ check, cb = Some check → ∀ hostname remote key, settles (check hostname remote key).
Proof.
  unfold buildUpstreamHostKeyCallback. cbv zeta. case_bool_decide; [intros [= <- _]; done|]. destruct (_ || _); [|done].
  intros E. apply bind_ok in E as (? & f1 & _ & E). apply bind_ok in E as (text & f2 & _ & E).
  destruct (kh_New text) as [db|]; [|done]. injection E as <- _. intros check [= <-] hostname remote key.
  case_bool_decide; unfold base_callback, accept_new; destruct (kh_check db hostname remote key) as [e|];
    try apply total_settles, total_ret; try apply settles_fail.
  destruct (errors_is e KeyError); [apply settles_upsert|apply settles_fail].
Qed.

(** C4. A connection with the SSH proxy does what its launch allows and is
    accounted for: whatever the client requests, the upstream answers, fails or
    lets through and however the goroutines interleave, the connection of a
    launch for SFTP asks the upstream for the subsystem sftp only, that of any
    other launch for a terminal, its size and a shell only; no byte passes
    before that was asked for; the credential is offered before, and the
    session is marked as connected first and, once the bridge has returned, as
    failed or ended exactly once.  Without a launch nothing happens. *)
Theorem ssh_connections_are_confined cfg f cb f' env perms w :
  buildUpstreamHostKeyCallback cfg f = (Ok cb, f') →
  ∃ done w', handleConn cfg cb env perms w = (Ok done, w') ∧ ∃ t, ch_trace w' = ch_trace w ++ t ∧
    match launchFromPermissions perms with inr _ => t = [] | inl launch => connection env launch done t end.
Proof. intros Hb. apply handleConn_run. by eapply built_settles. Qed.

(** C25. In the mode known-hosts a credential is offered only to an upstream
    whose key the known_hosts file accepted when the proxy started: whatever
    the repair writes to the file in between, the retry is checked against the
    same keys, so an upstream that shows a key unknown at the start is refused
    every time, and a login that succeeds was offered to a known key. *)
Theorem strict_mode_offers_only_to_known_keys cfg f cb f' env launch w o w' :
  ToLower (TrimSpace (cfg_UpstreamHostKeyMode cfg)) = §"known-hosts" →
  buildUpstreamHostKeyCallback cfg f = (Ok cb, f') → connectUpstream cfg cb env launch w = (o, w') →
  ∃ db t, kh_New (default [] (fi_text f)) = inl db ∧ ch_trace w' = ch_trace w ++ t ∧
    (offered t → ∃ remote key auth, (env_dial env = Shown remote key auth ∨ env_redial env = Shown remote key auth) ∧
       kh_check db (JoinHostPort (l_Host launch) (Itoa (l_Port launch))) remote key = None) ∧
    (∀ user, o = Ok user → offered t).
Proof.
  intros Hmode Hb Hc. destruct (known_hosts_callback _ _ _ _ Hmode Hb) as (db & Hdb & ->). exists db.
  destruct (connect_offers cfg env launch db w) as (t & Ht & HK). rewrite Hc in Ht. cbn [snd] in Ht. exists t. split_and!; [done..| |].
  - intros [(r & k & a & -> & Hk)|(r & k & a & -> & Hk)]%HK; exists r, k, a; (split; [|done]); [by left|by right].
  - intros user ->. destruct (connect_offered _ _ _ _ _ _ _ Hc) as (u & Hu & Ho). rewrite Ht in Hu.
    by apply app_inv_head in Hu as ->.
Qed.
End Claims.
