(* ===== verification/SftpClaims.v ===== *)
(** The audit of SFTP and shell sessions through the SSH proxy: what the record
    of a session holds of what passed, under every schedule. *)
From S2P Require Import Prelude GoStrings GoBinary GoEncoding GoNet GoIO Tokens Store Sessions ProxyEvents Sftp SftpSpec KnownHosts SshChannel Ssh SshSpec.

(** * The events of operations *)

(** [p] is the event of the operation at some time. *)
Definition made (launch : LaunchContext) (p : gmap bytes json) (op : sftpFileOperation) : Prop :=
  ∃ now, p = buildFileOperationPayload launch op now.

Lemma payload_operation launch op now :
  buildFileOperationPayload launch op now !! §"operation" = Some (JStr (fo_Operation op)).
Proof.
  unfold buildFileOperationPayload. cbv zeta.
  assert (Hb : ∀ m : gmap bytes json, m !! §"operation" = Some (JStr (fo_Operation op)) →
    (if 0 <? fo_Size op then <[§"size" := JNum (Itoa (fo_Size op))]> m else m) !! §"operation" = Some (JStr (fo_Operation op))).
  { intros m Hm. destruct (0 <? fo_Size op); [|done]. by rewrite lookup_insert_ne. }
  apply Hb. assert (Hbase : (list_to_map
    [(§"session_id", JStr (l_SessionID launch)); (§"user_id", JStr (l_UserID launch));
     (§"asset_id", JStr (l_AssetID launch)); (§"operation", JStr (fo_Operation op));
     (§"path", JStr (TrimSpace (fo_Path op))); (§"event_time", JStr (RFC3339Nano now));
     (§"request_id", JStr (TrimSpace (l_RequestID launch)))] : gmap bytes json) !! §"operation" = Some (JStr (fo_Operation op))).
  { cbn [list_to_map foldr fst snd]. do 3 rewrite lookup_insert_ne by done. apply lookup_insert_eq. }
  case_bool_decide; [exact Hbase|]. by rewrite lookup_insert_ne.
Qed.
Lemma made_download launch p op : made launch p op → is_download p = bool_decide (fo_Operation op = §"download_read").
Proof. intros [now ->]. unfold is_download. by rewrite payload_operation. Qed.

Definition event_of (launch : LaunchContext) (p : gmap bytes json) : ssh_effect :=
  Record_ (WriteFileOperation (l_SessionID launch) (l_UserID launch) p).
Lemma record_all_run clock launch ops w : Forall (λ op, TrimSpace (fo_Operation op) ≠ []) ops →
  ∃ evs, record_all clock launch ops w = (Ok tt, set_trace (ch_faults w) (ch_trace w ++ map (event_of launch) evs) w) ∧
    Forall2 (made launch) evs ops.
Proof.
  intros Hops. revert w. induction Hops as [|op ops Hop _ IH]; intros w; cbn [record_all].
  - exists []. split; [|done]. cbn. rewrite app_nil_r. by destruct w.
  - unfold recordFileOperation. rewrite bool_decide_false by done. unfold bind at 1 2, get. cbn [record emit modify].
    set (p := buildFileOperationPayload launch op _). set (w1 := set_trace _ _ w).
    destruct (IH w1) as (evs & E & Hm). exists (p :: evs). rewrite E. split; [|constructor; [by eexists|done]].
    f_equal. unfold w1, set_trace. cbn. by rewrite <- app_assoc.
Qed.
Lemma file_events_of launch evs : file_events (map (event_of launch) evs) = evs.
Proof. induction evs as [|p evs IH]; [done|]. cbn. f_equal. exact IH. Qed.
Lemma sent_events l launch evs : sent l (map (event_of launch) evs) = [].
Proof. induction evs as [|p evs IH]; [done|]. unfold sent in *. cbn. destruct l; exact IH. Qed.

Lemma path_verb_ok ty verb : path_verb ty = Some (Some verb) → TrimSpace verb ≠ [] ∧ verb ≠ §"download_read".
Proof.
  unfold path_verb, path_verbs. cbn [List.find fst].
  repeat match goal with |- context [if ?a =? ty then _ else _] => destruct (a =? ty); [by intros [= <-]|] end. done.
Qed.
Lemma expects_ok r ops : expects r ops →
  Forall (λ op, TrimSpace (fo_Operation op) ≠ []) ops ∧ Forall (λ op, fo_Operation op ≠ §"download_read") ops.
Proof.
  destruct r as [rest|ty id path rest|id a b|id handle offset len|id handle offset data|ty id handle|ty id body]; cbn [expects];
    try (intros ->; by repeat constructor).
  - intros ->. destruct (path_verb ty) as [[verb|]|] eqn:E; [|by split..]. apply path_verb_ok in E as [? ?]. split; by repeat constructor.
  - intros [path ->]. by repeat constructor.
  - intros [->|(_ & path & ->)]; by repeat constructor.
Qed.
Lemma client_events_of launch evs ops : Forall2 (made launch) evs ops →
  Forall (λ op, fo_Operation op ≠ §"download_read") ops → client_events (map (event_of launch) evs) = evs.
Proof.
  unfold client_events. rewrite file_events_of. intros Hm. induction Hm as [|p op evs ops Hp _ IH]; [done|].
  intros [Hop Hops]%Forall_cons. cbn. rewrite (made_download _ _ _ Hp), bool_decide_false by done. cbn. f_equal. auto.
Qed.

(** * Beside the client's packets *)

(** An event that is no byte for the upstream and no record of a request. *)
Definition aside_event (e : ssh_effect) : Prop :=
  sent1 LIn e = [] ∧ match file_event e with Some p => is_download p = true | None => True end.
Definition aside (w w' : channel) : Prop := ch_stdin w' = ch_stdin w ∧ only aside_event w w'.
#[export] Instance aside_preorder : PreOrder aside.
Proof.
  split; [done|]. intros u v w [E1 O1] [E2 O2]. split; [congruence|]. by transitivity v.
Qed.
Lemma aside_events t : Forall aside_event t → sent LIn t = [] ∧ client_events t = [].
Proof.
  unfold sent, client_events, file_events. induction 1 as [|e t [Hs Hf] _ [IH1 IH2]]; [done|]. cbn -[sent1 file_event]. rewrite Hs, IH1. split; [done|].
  destruct (file_event e) as [p|]; cbn; [|done]. by rewrite Hf.
Qed.

Section Aside.
Context `{SshWire} (clock : nat → Z) (launch : LaunchContext).

Lemma aside_emit e : aside_event e → keeps aside (emit e).
Proof. intros He w. split; [done|]. exists [e]. split; [done|by constructor]. Qed.
Lemma aside_ask r : keeps aside (ask r).
Proof.
  intros w. unfold ask, put_bytes. destruct (ch_faults w) as [|[[]|]]; (split; [done|]); eexists; (split; [reflexivity|]);
    by repeat constructor.
Qed.
Lemma aside_pump l cap n : (0 < cap)%nat → l ≠ LIn → keeps aside (pump l cap n).
Proof.
  intros Hcap Hl w. destruct (pump l cap n w) as [o w'] eqn:E. cbn.
  apply pump_run in E as [(_ & -> & _)|[(e & _ & -> & _)|(chunk & out & rest & fs & _ & _ & -> & _)]]; [reflexivity..| |done].
  split; [by destruct l|]. exists [output l out]. split; [by destruct l|]. constructor; [|done]. by destruct l.
Qed.
Lemma server_ops payload state op : op ∈ (parseSFTPServerPacket payload state).1 → fo_Operation op = §"download_read".
Proof.
  unfold parseSFTPServerPacket. destruct (_ <? 1)%nat; [by intros ?%elem_of_nil|]. cbv zeta.
  destruct (_ || _); [by intros ?%elem_of_nil|].
  destruct (_ =? sftpPacketHandle).
  { destruct (readSFTPString _ _) as [[]|]; [|by intros ?%elem_of_nil]. unfold popPending.
    destruct (rs_pending state !! _); by intros ?%elem_of_nil. }
  destruct (_ =? sftpPacketData).
  { destruct (readSFTPString _ _) as [[data n]|]; [|by intros ?%elem_of_nil]. unfold popPending.
    destruct (rs_pending state !! _); [|by intros ?%elem_of_nil]. destruct (negb _); [by intros ?%elem_of_nil|].
    by intros ->%list_elem_of_singleton. }
  destruct (_ || _); by intros ?%elem_of_nil.
Qed.
Lemma aside_server payload : keeps aside (handleSFTPServerPacket clock launch payload).
Proof.
  intros w. unfold handleSFTPServerPacket, bind, with_relay. destruct (parseSFTPServerPacket payload (ch_relay w)) as [ops s] eqn:E.
  set (w1 := Channel _ _ _ _ _ _ _ _).
  assert (Hops : Forall (λ op, fo_Operation op = §"download_read") ops).
  { apply Forall_forall. intros op Hin. apply (server_ops payload (ch_relay w)). by rewrite E. }
  destruct (record_all_run clock launch ops w1) as (evs & -> & Hm); [eapply Forall_impl; [exact Hops|by intros ? ->]|].
  split; [done|]. exists (map (event_of launch) evs). split; [done|].
  clear E. induction Hm as [|p op evs ops Hp _ IH]; [constructor|]. apply Forall_cons in Hops as [Hop Hops].
  constructor; [|by apply IH]. split; [done|]. cbn. by rewrite (made_download _ _ _ Hp), bool_decide_true.
Qed.
Lemma aside_out n c : keeps aside (copySFTPUpstreamToClient clock launch n c).
Proof.
  unfold copySFTPUpstreamToClient, copyWithParser, closing. destruct c as [buf|buf chunk|buf|]; try apply keeps_ret, _.
  - apply keeps_bind; [apply _|apply aside_pump; [by apply Nat.ltb_lt|done]|]. intros [|?|?]; [apply keeps_ret, _..|].
    apply keeps_bind; [apply _|apply keeps_ret, _|intros ?; apply keeps_ret, _].
  - destruct (next_packet buf); [apply keeps_ret, _..|].
    apply keeps_bind; [apply _|apply aside_server|intros ?; apply keeps_ret, _].
Qed.
Lemma aside_err n c : keeps aside (copySFTPRaw LErr n c).
Proof.
  unfold copySFTPRaw, closing. destruct c as [buf|buf chunk|buf|]; try apply keeps_ret, _.
  apply keeps_bind; [apply _|apply aside_pump; [by apply Nat.ltb_lt|done]|]. intros [|?|?]; [apply keeps_ret, _..|].
  apply keeps_bind; [apply _|apply keeps_ret, _|intros ?; apply keeps_ret, _].
Qed.
Lemma aside_request req : keeps aside (handleSFTPRequest req).
Proof.
  unfold handleSFTPRequest. repeat case_bool_decide; try apply keeps_ret, _.
  destruct (un_subsystem _); [|apply keeps_fail, _]. destruct (negb _); [apply keeps_ret, _|].
  apply keeps_bind; [apply _|apply keeps_wrap_err, aside_ask|intros ?; apply keeps_ret, _].
Qed.
Lemma aside_handled w w' : handled (sftp_service clock launch) w w' → aside w w'.
Proof.
  intros (req & rest & o & w2 & Et & Hw). transitivity w2.
  - transitivity (set_requests rest w); [split; [done|]; exists []; by rewrite app_nil_r|].
    assert (K : keeps aside (try (sv_handle (sftp_service clock launch) req))) by apply keeps_try, aside_request.
    specialize (K (set_requests rest w)). by rewrite Et in K.
  - destruct Hw as [->|[ok ->]]; [reflexivity|]. split; [done|]. eexists. split; [reflexivity|]. by repeat constructor.
Qed.
End Aside.

(** * The record of a client's requests *)

Section Audit.
Context `{SshWire} (clock : nat → Z) (launch : LaunchContext).
Context (reqs : list file_request) (reqs_ok : Forall request_ok reqs).

Definition encoded (l : list file_request) : bytes := concat (map encode_request l).
(** The record of [done] requests. *)
Definition logged (events : list (gmap bytes json)) (done : list file_request) : Prop :=
  ∃ opss, Forall2 expects done opss ∧ Forall2 (made launch) events (concat opss).
(** Less than the next request. *)
Definition partial (buf : bytes) (rest : list file_request) : Prop :=
  match rest with [] => buf = [] | r :: _ => (length buf < length (encode_request r))%nat end.

(** Where the requests are, with the copy of the client's bytes in a stage. *)
Definition place (c : option copier) (out left : bytes) (done rest : list file_request) : Prop :=
  match c with
  | None => done = [] ∧ out = [] ∧ left = encoded rest
  | Some (Reading buf) => out = encoded done ++ buf ∧ buf ++ left = encoded rest ∧ partial buf rest
  | Some (Written buf chunk) => out = encoded done ++ buf ++ chunk ∧ buf ++ chunk ++ left = encoded rest
  | Some (Parsing buf) => out = encoded done ++ buf ∧ buf ++ left = encoded rest
  | Some (Finished err) => ∃ extra, out = encoded done ++ extra ∧ extra `prefix_of` encoded rest ∧
      (err = None → left = [] ∧ partial extra rest)
  end.
Definition audited (w0 : channel) (b : bridge) (w : channel) : Prop :=
  ∃ t done rest, ch_trace w = ch_trace w0 ++ t ∧ reqs = done ++ rest ∧
    logged (client_events t) done ∧ place (br_copies b LIn) (sent LIn t) (st_buf (ch_stdin w)) done rest.

Lemma audited_aside w0 b b' w w' : audited w0 b w → aside w w' →
  (br_copies b' LIn = br_copies b LIn ∨ br_copies b LIn = None ∧ br_copies b' LIn = Some (Reading [])) → audited w0 b' w'.
Proof.
  intros (t & done & rest & Ht & Hr & Hl & Hp) [Hin (u & Hu & Ha)] Hc. apply aside_events in Ha as [Hs Hf].
  exists (t ++ u), done, rest. rewrite Hu, Ht, app_assoc, sent_app, client_events_app, Hs, Hf, Hin, !app_nil_r.
  split_and!; [done..|]. destruct Hc as [->|[Hn ->]]; [done|]. rewrite Hn in Hp. destruct Hp as (-> & -> & ->).
  cbn [place]. split_and!; [done|done|]. destruct rest as [|r rest]; unfold partial; [done|].
  unfold encode_request, framed. rewrite length_app, length_be_bytes. cbn [length]. apply Nat.lt_lt_add_r; lia.
Qed.

Lemma encoded_app l k : encoded (l ++ k) = encoded l ++ encoded k.
Proof. unfold encoded. by rewrite map_app, concat_app. Qed.

(** What the parser's loop finds. *)
Lemma next_request buf left rest : Forall request_ok rest → buf ++ left = encoded rest →
  (next_packet buf = NeedMore ∧ partial buf rest) ∨
  ∃ r rest' buf', rest = r :: rest' ∧ next_packet buf = Packet (request_payload r) buf' ∧
    buf = encode_request r ++ buf' ∧ buf' ++ left = encoded rest'.
Proof.
  intros Hok Hb. destruct rest as [|r rest].
  - left. cbn in Hb. apply app_nil in Hb as [-> _]. done.
  - cbn [encoded map concat] in Hb. fold (encoded rest) in Hb. apply Forall_cons in Hok as [[Hsize _] _].
    pose proof (request_payload_pos r) as Hpos.
    destruct (decide (length buf < length (encode_request r))%nat) as [Hlt|Hge].
    + left. split; [|done]. apply (next_partial buf (request_payload r) (drop (length buf) (encode_request r))); [done|done| |].
      * rewrite app_nil_r. apply (f_equal (take (length buf))) in Hb. rewrite take_app_length, take_app_le in Hb by lia.
        rewrite Hb at 1. apply take_drop.
      * intros Hnil. apply (f_equal length) in Hnil. rewrite length_drop in Hnil. change (length (@nil byte)) with 0%nat in Hnil. lia.
    + right. exists r, rest, (drop (length (encode_request r)) buf).
      assert (Hbuf : buf = encode_request r ++ drop (length (encode_request r)) buf).
      { apply (f_equal (take (length (encode_request r)))) in Hb. rewrite take_app_length, take_app_le in Hb by lia.
        rewrite <- Hb at 1. symmetry. apply take_drop. }
      split; [done|]. split; [|split; [done|]].
      * rewrite Hbuf at 1. by apply next_framed.
      * rewrite Hbuf in Hb. rewrite <- app_assoc in Hb. by apply app_inv_head in Hb.
Qed.

Lemma audited_in w0 b w c n c' w' b' : audited w0 b w → br_copies b LIn = Some c →
  copySFTPClientToUpstream clock launch n c w = (Ok c', w') → br_copies b' LIn = Some c' → audited w0 b' w'.
Proof.
  intros (t & done & rest & Ht & Hr & Hl & Hp) Hc Hrun Hc'. rewrite Hc in Hp. unfold audited. rewrite Hc'.
  assert (Hrest : Forall request_ok rest) by (rewrite Hr in reqs_ok; by apply Forall_app in reqs_ok as [_ ?]).
  unfold copySFTPClientToUpstream, copyWithParser in Hrun. destruct c as [buf|buf chunk|buf|err]; cbn [place] in Hp.
  - destruct Hp as (Ho & Hin & Hpart). apply bind_ok in Hrun as (r & w1 & Epump & Hrun).
    apply pump_run in Epump as [([= ->] & -> & Hs)|[(e & [= ->] & -> & Hs)|(chunk & out & left & fs & Hne & Hbuf & -> & Hcase)]];
      [| | |by apply Nat.ltb_lt].
    + injection Hrun as <- <-. exists t, done, rest. by split_and!.
    + unfold closing in Hrun. apply bind_ok in Hrun as ([] & w2 & Ee & Hrun). injection Ee as <-. injection Hrun as <- <-.
      exists (t ++ [CloseStdin]), done, rest. cbn [set_trace ch_trace ch_stdin]. rewrite Ht, app_assoc, sent_app, client_events_app, !app_nil_r.
      cbn [input] in Hs. rewrite Hs in Hin. cbn in Hin. rewrite app_nil_r in Hin. split_and!; [done..|]. cbn. exists buf.
      split_and!; [done|by rewrite Hin|]. intros _. by rewrite Hs.
    + cbn [input] in Hbuf. rewrite Hbuf in Hin. destruct Hcase as [[[= ->] ->]|(e & [= ->] & Hpre)].
      * injection Hrun as <- <-. exists (t ++ [ToStdin chunk]), done, rest. cbn [set_trace ch_trace ch_stdin set_input output].
        rewrite Ht, app_assoc, sent_app, client_events_app, app_nil_r. split_and!; [done..|]. cbn. rewrite app_nil_r, Ho, <- app_assoc.
        by split.
      * unfold closing in Hrun. apply bind_ok in Hrun as ([] & w2 & Ee & Hrun). injection Ee as <-. injection Hrun as <- <-.
        exists (t ++ [ToStdin out] ++ [CloseStdin]), done, rest. cbn [set_trace ch_trace ch_stdin set_input output].
        rewrite Ht, <- !app_assoc, sent_app, client_events_app, app_nil_r. split_and!; [done..|]. cbn. exists (buf ++ out).
        rewrite !app_nil_r, Ho, <- app_assoc. split_and!; [done| |done].
        destruct Hpre as [k ->]. rewrite <- Hin. exists (k ++ left). by rewrite <- !app_assoc.
  - injection Hrun as <- <-. exists t, done, rest. split_and!; [done..|]. cbn. destruct Hp as [Ho Hin]. by rewrite <- app_assoc.
  - destruct Hp as (Ho & Hin). destruct (next_request buf _ rest Hrest Hin) as [[Hn Hpart]|(r & rest' & buf' & -> & Hn & -> & Hin')];
      rewrite Hn in Hrun.
    + injection Hrun as <- <-. exists t, done, rest. by split_and!.
    + apply bind_ok in Hrun as ([] & w1 & Eh & Hrun). injection Hrun as <- <-.
      unfold handleSFTPClientPacket, bind, with_relay in Eh.
      apply Forall_cons in Hrest as [Hrok _]. pose proof (parse_request r (ch_relay w) Hrok) as Hex.
      destruct (parseSFTPClientPacket (request_payload r) (ch_relay w)) as [ops s]. cbn [fst] in Hex.
      destruct (expects_ok _ _ Hex) as [Hne Hnd].
      match type of Eh with record_all _ _ _ ?x = _ => destruct (record_all_run clock launch ops x Hne) as (evs & E & Hm) end.
      rewrite E in Eh. injection Eh as <-. cbn [set_trace ch_trace ch_stdin].
      exists (t ++ map (event_of launch) evs), (done ++ [r]), rest'.
      rewrite Ht, app_assoc, sent_app, sent_events, client_events_app, (client_events_of launch evs ops) by done.
      split; [done|]. split; [by rewrite Hr, <- app_assoc|]. split.
      * destruct Hl as (opss & Hops & Hmade). exists (opss ++ [ops]). split; [by apply Forall2_app; [|repeat constructor]|].
        rewrite concat_app. cbn. rewrite app_nil_r. by apply Forall2_app.
      * cbn. rewrite app_nil_r, Ho, encoded_app. cbn. rewrite app_nil_r, <- app_assoc. by split.
  - injection Hrun as <- <-. exists t, done, rest. by split_and!.
Qed.

(** The copies start when the caller leaves its select. *)
Definition fresh (b : bridge) : Prop := br_caller b = Selecting → br_copies b LIn = None.

Lemma audited_turns w0 sched b w b' w' : fresh b → audited w0 b w →
  bridge_turns (sftp_service clock launch) sched b w = (Ok b', w') → audited w0 b' w'.
Proof.
  intros Hf Ha Hrun. cut (audited w0 b' w' ∧ fresh b'); [by intros []|].
  assert (Hi : audited w0 b w ∧ fresh b) by done. clear Ha Hf. revert Hi Hrun.
  apply (bridge_induction (sftp_service clock launch) (λ b w, audited w0 b w ∧ fresh b)); clear b w b' w' sched.
  - intros b b' w w' [Ha Hf] Hc Hcall Hh. split; [|unfold fresh in *; by rewrite Hc, Hcall].
    eapply audited_aside; [exact Ha|by eapply aside_handled|left; by rewrite Hc].
  - intros b l n c c' w w' [Ha Hf] Hc Hrun. destruct l; cbn [sftp_service sv_copy] in Hrun.
    + split; [by eapply audited_in|]. intros Hsel. cbn in Hsel. by rewrite (Hf Hsel) in Hc.
    + split; [|exact Hf]. eapply audited_aside; [exact Ha| |by left].
      pose proof (aside_out clock launch n c w) as K. by rewrite Hrun in K.
    + split; [|exact Hf]. eapply audited_aside; [exact Ha| |by left].
      pose proof (aside_err n c w) as K. by rewrite Hrun in K.
  - intros b b' w w' [Ha Hf] Hsel Hw Hc Hrun. split; [|unfold fresh; by rewrite Hw]. injection Hrun as <-.
    eapply audited_aside; [exact Ha|done|]. right. rewrite Hc. split; [by apply Hf|done].
  - intros b c w [Ha Hf] Hm. split; [exact Ha|]. unfold fresh, moves in *. cbn. intros ->. by destruct (br_caller b) as [| |[]|].
  - intros b w result status [Ha Hf] Hc Hd. split; [|done]. eapply audited_aside; [exact Ha| |by left].
    split; [done|]. eexists. split; [reflexivity|]. by repeat constructor.
Qed.
End Audit.

(** The copy of the client's bytes waits for more, or has come to the end. *)
Definition idle (c : option copier) : Prop :=
  match c with Some (Written _ _) | Some (Parsing _) | Some (Finished (Some _)) => False | _ => True end.

(** C5. The record of an SFTP session is exact for the client's requests: for
    every sequence of requests a client sends, however they are cut into reads,
    whatever the upstream answers and fails and however the goroutines
    interleave, the file operations recorded (but for the downloads, which
    replies record) are, in order, those expected of the requests forwarded so
    far, but for the last ones while the parser has not caught up: deletes,
    renames, new and removed directories and listings with their paths, uploads
    with their sizes.  What is expected of a request to set attributes is a
    "stat", and of any other type (a link, the attributes of an open file, an
    extension such as posix-rename) nothing. *)
Theorem sftp_requests_are_recorded `{SshWire} clock launch reqs sched w b w' :
  Forall request_ok reqs → st_buf (ch_stdin w) = encoded reqs →
  bridge_turns (sftp_service clock launch) sched new_bridge w = (Ok b, w') →
  ∃ t done rest extra, ch_trace w' = ch_trace w ++ t ∧ reqs = done ++ rest ∧
    logged launch (client_events t) done ∧ sent LIn t = encoded done ++ extra ∧ extra `prefix_of` encoded rest ∧
    (idle (br_copies b LIn) → partial extra rest).
Proof.
  intros Hok Hin Hrun.
  destruct (audited_turns clock launch reqs Hok w sched new_bridge w b w') as (t & served & rest & Ht & Hr & Hl & Hp); try done.
  { exists [], [], reqs. rewrite app_nil_r. split_and!; try done. by exists []. }
  destruct (br_copies b LIn) as [[buf|buf chunk|buf|err]|]; cbn [place idle] in *.
  - destruct Hp as (Ho & Hb & Hpart). exists t, served, rest, buf. split_and!; try done. rewrite <- Hb. by eexists.
  - destruct Hp as (Ho & Hb). exists t, served, rest, (buf ++ chunk). split_and!; try done. rewrite <- Hb, app_assoc. by eexists.
  - destruct Hp as (Ho & Hb). exists t, served, rest, buf. split_and!; try done. rewrite <- Hb. by eexists.
  - destruct Hp as (extra & Ho & Hpre & Hfin). exists t, served, rest, extra. split_and!; try done.
    destruct err; [done|]. intros _. by apply Hfin.
  - destruct Hp as (-> & Ho & _). exists t, [], rest, []. split_and!; try done; [by exists (encoded rest)|].
    intros _. destruct rest as [|r rest]; [done|]. unfold partial, encode_request, framed. rewrite length_app, length_be_bytes.
    cbn [length]. lia.
Qed.

(** * Downloads *)

(** The reply with the data of a read. *)
Definition data_reply (id : Z) (data : bytes) : bytes := framed (message sftpPacketData id (sftp_string data)).
Definition running_bridge : bridge := Bridge true false None (λ _, Some (Reading [])) Waiting.
(** The turns of a copy that reads [n] bytes and handles one packet. *)
Definition packet_turns (l : line) (n : nat) : list turn := [TCopy l n; TCopy l 0; TCopy l 0; TCopy l 0].

Lemma pump_all l cap w buf end_ : input l w = Stream buf end_ → buf ≠ [] → (length buf <= cap)%nat → ch_faults w = [] →
  pump l cap (length buf) w = (Ok (Pumped buf), set_trace [] (ch_trace w ++ [output l buf]) (set_input l (Stream [] end_) w)).
Proof.
  intros Hi Hne Hcap Hf. unfold pump, bind, get. rewrite Hi. cbn [st_buf st_end]. destruct buf as [|x buf]; [done|].
  replace (Nat.min cap (Nat.max 1 (length (x :: buf)))) with (length (x :: buf)) by (cbn [length] in *; lia).
  rewrite firstn_all, drop_all. unfold modify, try, put_bytes.
  replace (ch_faults (set_input l (Stream [] end_) w)) with (@nil (option (nat * error))) by (destruct l; cbn; congruence).
  destruct l; reflexivity.
Qed.

Section Downloads.
Context `{SshWire} (clock : nat → Z) (launch : LaunchContext) (id : Z) (handle offset data : bytes) (len : Z).
Context (Hid : id_ok id) (Hoff : length offset = 8%nat) (Hlen : 0 <= len < 2 ^ 32).
#[local] Abbreviation read_request := (ReadRequest id handle offset len).
Context (Hread : (length (encode_request read_request) <= 16 * 1024)%nat) (Hdata : (length (data_reply id data) <= 16 * 1024)%nat).

Lemma small_request : request_ok read_request.
Proof.
  split; [|done]. unfold encode_request, framed in Hread. rewrite length_app, length_be_bytes in Hread.
  unfold zlen, max_packet. lia.
Qed.
Lemma small_reply : 0 < zlen (message sftpPacketData id (sftp_string data)) ∧
  4 + zlen (message sftpPacketData id (sftp_string data)) <= max_packet ∧ zlen data < 2 ^ 32.
Proof.
  unfold data_reply, framed in Hdata. rewrite length_app, length_be_bytes in Hdata. unfold max_packet.
  assert (Hz : zlen (message sftpPacketData id (sftp_string data)) <= 16 * 1024) by (unfold zlen; lia).
  pose proof (zlen_nonneg data). unfold message in *. rewrite zlen_cons, zlen_app, zlen_be, zlen_string in *. lia.
Qed.

(** What the parser does with the request and with the reply. *)
Lemma parse_read state : (parseSFTPClientPacket (request_payload read_request) state) =
  ([], storePending id (pending §"download_read" (lookupPathByHandle handle state) handle len) state).
Proof.
  cbn [request_payload].
  destruct (message_fields sftpPacketRead id (sftp_string handle ++ offset ++ be_bytes 4 len) ltac:(done) Hid) as (E1 & E2 & E3 & E4 & E5).
  pose proof small_request as [Hsize _]. cbn [request_payload] in Hsize. unfold message, max_packet in Hsize.
  rewrite zlen_cons, !zlen_app, !zlen_be, zlen_string in Hsize. pose proof (zlen_nonneg handle).
  unfold parseSFTPClientPacket. rewrite E4, E1, E5. cbv zeta. rewrite E2, E3. cbn -[readSFTPString sftp_string Nat.ltb be_bytes slice].
  assert (Hzo : zlen offset = 8) by (unfold zlen; lia).
  rewrite read_first by lia. rewrite (proj2 (Nat.ltb_ge _ _)) by (rewrite !length_app, length_sftp_string, length_be_bytes; lia).
  do 4 f_equal. rewrite app_assoc, <- (app_nil_r (be_bytes 4 len)).
  rewrite (slice_app (sftp_string handle ++ offset)) by (rewrite length_app, length_sftp_string, ?length_be_bytes; lia).
  by rewrite be_value_bytes, Z.mod_small.
Qed.
Lemma parse_data state : (parseSFTPServerPacket (message sftpPacketData id (sftp_string data)) state) =
  match rs_pending state !! id with
  | Some p => if negb (bool_decide (pr_Operation p = §"download_read")) then ([], (popPending id state).2)
              else ([FileOperation §"download_read"
                       (if bool_decide (pr_Path p = []) && negb (bool_decide (pr_Handle p = []))
                        then lookupPathByHandle (pr_Handle p) (popPending id state).2 else pr_Path p) [] (zlen data)],
                    (popPending id state).2)
  | None => ([], (popPending id state).2)
  end.
Proof.
  destruct small_reply as (_ & _ & Hd).
  destruct (message_fields sftpPacketData id (sftp_string data) ltac:(done) Hid) as (E1 & E2 & E3 & E4 & E5).
  unfold parseSFTPServerPacket. rewrite E4, E1, E5. cbv zeta. rewrite E2, E3.
  rewrite <- (app_nil_r (sftp_string data)), read_first by done. cbn -[bool_decide]. by destruct (rs_pending state !! id).
Qed.

Lemma turns_app sv s1 s2 b w b1 w1 : bridge_turns sv s1 b w = (Ok b1, w1) →
  bridge_turns sv (s1 ++ s2) b w = bridge_turns sv s2 b1 w1.
Proof.
  revert b w. induction s1 as [|t s1 IH]; intros b w; cbn; [by intros [= -> ->]|].
  intros E. apply bind_ok in E as (b2 & w2 & Et & E). unfold bind. rewrite Et. by apply IH.
Qed.
Lemma copy_turn sv l n b w c c' w' : br_copies b l = Some c → sv_copy sv l n c w = (Ok c', w') →
  ∃ b1, bridge_turn sv (TCopy l n) b w = (Ok b1, w') ∧ br_copies b1 l = Some c' ∧
    ∀ k, k ≠ l → br_copies b1 k = br_copies b k.
Proof.
  intros Hc E. cbn [bridge_turn]. rewrite Hc. unfold bind. rewrite E. eexists. split; [reflexivity|]. cbn. unfold set_copy.
  split; [by rewrite decide_True|]. intros k Hk. by rewrite decide_False.
Qed.

(** A frame that arrives in one piece: it is written, then its packet handled. *)
Lemma one_packet l closeDst on payload end_ b w w' :
  sv_copy (sftp_service clock launch) l = copyWithParser l closeDst on →
  0 < zlen payload → 4 + zlen payload <= max_packet → (length (framed payload) <= 16 * 1024)%nat →
  br_copies b l = Some (Reading []) → input l w = Stream (framed payload) end_ → ch_faults w = [] →
  on payload (set_trace [] (ch_trace w ++ [output l (framed payload)]) (set_input l (Stream [] end_) w)) = (Ok tt, w') →
  ∃ b', bridge_turns (sftp_service clock launch) (packet_turns l (length (framed payload))) b w = (Ok b', w') ∧
    ∀ k, br_copies b' k = br_copies b k.
Proof.
  intros Hsv Hpos Hmax Hfit Hb Hin Hf Hon.
  assert (Hne : framed payload ≠ []) by (unfold framed; by destruct (be_bytes 4 _) eqn:E; [apply (f_equal length) in E; rewrite length_be_bytes in E|]).
  set (w1 := set_trace [] (ch_trace w ++ [output l (framed payload)]) (set_input l (Stream [] end_) w)) in *.
  destruct (copy_turn (sftp_service clock launch) l (length (framed payload)) b w (Reading []) (Written [] (framed payload)) w1 Hb) as (b1 & E1 & C1 & K1).
  { rewrite Hsv. cbn [copyWithParser]. unfold bind. by rewrite (pump_all l _ w (framed payload) end_). }
  destruct (copy_turn (sftp_service clock launch) l 0 b1 w1 _ (Parsing ([] ++ framed payload)) w1 C1) as (b2 & E2 & C2 & K2); [by rewrite Hsv|].
  destruct (copy_turn (sftp_service clock launch) l 0 b2 w1 _ (Parsing []) w' C2) as (b3 & E3 & C3 & K3).
  { rewrite Hsv. cbn [copyWithParser]. rewrite app_nil_l, <- (app_nil_r (framed payload)), next_framed by done. unfold bind. by rewrite Hon. }
  destruct (copy_turn (sftp_service clock launch) l 0 b3 w' _ (Reading []) w' C3) as (b4 & E4 & C4 & K4); [by rewrite Hsv|].
  exists b4. split.
  - unfold packet_turns. cbn [bridge_turns]. unfold bind. by rewrite E1, E2, E3, E4.
  - intros k. destruct (decide (k = l)) as [->|Hk]; [by rewrite C4|]. by rewrite K4, K3, K2, K1.
Qed.
Lemma read_packet b w end_ : br_copies b LIn = Some (Reading []) → ch_stdin w = Stream (encode_request read_request) end_ →
  ch_faults w = [] → ∃ b' w',
  bridge_turns (sftp_service clock launch) (packet_turns LIn (length (encode_request read_request))) b w = (Ok b', w') ∧
  (∀ k, br_copies b' k = br_copies b k) ∧ ch_faults w' = [] ∧ ch_stdout w' = ch_stdout w ∧
  ch_trace w' = ch_trace w ++ [ToStdin (encode_request read_request)] ∧
  ch_relay w' = storePending id (pending §"download_read" (lookupPathByHandle handle (ch_relay w)) handle len) (ch_relay w).
Proof.
  intros Hb Hin Hf. pose proof small_request as [Hmax _].
  edestruct (one_packet LIn true (handleSFTPClientPacket clock launch) (request_payload read_request) end_ b w) as (b' & E & Hk);
    [done|apply request_payload_pos|exact Hmax|exact Hread|exact Hb|exact Hin|exact Hf| |].
  - unfold handleSFTPClientPacket, bind, with_relay. cbn [set_trace set_input ch_relay]. rewrite parse_read. reflexivity.
  - eexists b', _. split; [exact E|]. by split_and!.
Qed.
Lemma data_packet b w end_ : br_copies b LOut = Some (Reading []) → ch_stdout w = Stream (data_reply id data) end_ →
  ch_faults w = [] → ∃ b' w' evs,
  bridge_turns (sftp_service clock launch) (packet_turns LOut (length (data_reply id data))) b w = (Ok b', w') ∧
  (∀ k, br_copies b' k = br_copies b k) ∧ ch_faults w' = [] ∧ ch_stdin w' = ch_stdin w ∧
  ch_trace w' = ch_trace w ++ ToStdout (data_reply id data) :: map (event_of launch) evs ∧
  Forall2 (made launch) evs (parseSFTPServerPacket (message sftpPacketData id (sftp_string data)) (ch_relay w)).1 .
Proof.
  intros Hb Hin Hf. destruct small_reply as (Hpos & Hmax & _).
  set (w1 := set_trace [] (ch_trace w ++ [ToStdout (data_reply id data)]) (set_input LOut (Stream [] end_) w)).
  assert (Hops : Forall (λ op, TrimSpace (fo_Operation op) ≠ [])
    (parseSFTPServerPacket (message sftpPacketData id (sftp_string data)) (ch_relay w)).1).
  { apply Forall_forall. intros op Hop. apply server_ops in Hop. by rewrite Hop. }
  destruct (parseSFTPServerPacket (message sftpPacketData id (sftp_string data)) (ch_relay w)) as [ops s] eqn:Ep. cbn [fst] in *.
  destruct (record_all_run clock launch ops (Channel (ch_requests w1) (ch_stdin w1) (ch_stdout w1) (ch_stderr w1) (ch_faults w1) (ch_trace w1) s (ch_files w1)) Hops)
    as (evs & Erec & Hm).
  edestruct (one_packet LOut false (handleSFTPServerPacket clock launch) (message sftpPacketData id (sftp_string data)) end_ b w) as (b' & E & Hk);
    [done|exact Hpos|exact Hmax|exact Hdata|exact Hb|exact Hin|exact Hf| |].
  - unfold handleSFTPServerPacket, bind, with_relay. cbn [output set_trace set_input ch_relay]. rewrite Ep. exact Erec.
  - eexists b', _, evs. split; [exact E|]. split_and!; try done. cbn. by rewrite <- app_assoc.
Qed.
(** The other order: the reply is looked at while the request waits. *)
Lemma unrecorded w : ch_faults w = [] → ch_stdin w = Stream (encode_request read_request) None →
  ch_stdout w = Stream (data_reply id data) None → rs_pending (ch_relay w) !! id = None →
  ∃ sched b' w', bridge_turns (sftp_service clock launch) sched running_bridge w = (Ok b', w') ∧
    (∀ l, br_copies b' l = Some (Reading [])) ∧
    ch_trace w' = ch_trace w ++ [ToStdin (encode_request read_request); ToStdout (data_reply id data)].
Proof.
  intros Hf Hin Hout Hpend. pose proof small_request as [Hmax _]. set (frame := encode_request read_request) in *.
  assert (Hne : frame ≠ []) by (unfold frame, encode_request, framed; by destruct (be_bytes 4 _) eqn:E; [apply (f_equal length) in E; rewrite length_be_bytes in E|]).
  set (w1 := set_trace [] (ch_trace w ++ [ToStdin frame]) (set_input LIn (Stream [] None) w)).
  destruct (copy_turn (sftp_service clock launch) LIn (length frame) running_bridge w (Reading []) (Written [] frame) w1 eq_refl)
    as (b1 & E1 & C1 & K1).
  { cbn [sftp_service sv_copy]. unfold copySFTPClientToUpstream, copyWithParser, bind. by rewrite (pump_all LIn _ w frame None). }
  destruct (data_packet b1 w1 None) as (b2 & w2 & evs & E2 & K2 & F2 & I2 & T2 & M2); [by rewrite K1|done|done|].
  rewrite parse_data in M2. change (ch_relay w1) with (ch_relay w) in M2. rewrite Hpend in M2. inversion M2; subst evs.
  destruct (copy_turn (sftp_service clock launch) LIn 0 b2 w2 (Written [] frame) (Parsing ([] ++ frame)) w2) as (b3 & E3 & C3 & K3); [by rewrite K2|done|].
  assert (Hpk : handleSFTPClientPacket clock launch (request_payload read_request) w2 = (Ok tt, Channel (ch_requests w2) (ch_stdin w2) (ch_stdout w2)
    (ch_stderr w2) (ch_faults w2) (ch_trace w2) (storePending id (pending §"download_read" (lookupPathByHandle handle (ch_relay w2)) handle len) (ch_relay w2)) (ch_files w2))).
  { unfold handleSFTPClientPacket, bind, with_relay. by rewrite parse_read. }
  set (w3 := Channel _ _ _ _ _ _ _ _) in Hpk.
  destruct (copy_turn (sftp_service clock launch) LIn 0 b3 w2 _ (Parsing []) w3 C3) as (b4 & E4 & C4 & K4).
  { cbn [sftp_service sv_copy]. unfold copySFTPClientToUpstream, copyWithParser. unfold frame, encode_request.
    rewrite app_nil_l, <- (app_nil_r (framed _)), next_framed by (done || apply request_payload_pos). unfold bind. by rewrite Hpk. }
  destruct (copy_turn (sftp_service clock launch) LIn 0 b4 w3 _ (Reading []) w3 C4) as (b5 & E5 & C5 & K5); [done|].
  exists ([TCopy LIn (length frame)] ++ packet_turns LOut (length (data_reply id data)) ++ [TCopy LIn 0; TCopy LIn 0; TCopy LIn 0]), b5, w3.
  split_and!.
  - cbn [app]. cbn [bridge_turns]. unfold bind at 1. rewrite E1. rewrite (turns_app _ _ _ _ _ _ _ E2). cbn [bridge_turns]. unfold bind. by rewrite E3, E4, E5.
  - intros l. destruct (decide (l = LIn)) as [->|Hl]; [done|]. by rewrite K5, K4, K3, K2, K1.
  - cbn. rewrite T2. cbn. by rewrite <- app_assoc.
Qed.
End Downloads.

(** Whether a download is recorded is a race: the proxy passes bytes on
    before it looks at them, so when the upstream's reply to a read comes back
    before the request has been looked at, the data reaches the client and
    nothing is recorded, under one interleaving of the two copies; under
    another, of the same request and reply, the download is recorded with its
    size. *)
Theorem downloads_can_go_unrecorded `{SshWire} clock launch id handle offset data len w :
  id_ok id → length offset = 8%nat → 0 <= len < 2 ^ 32 →
  let request := encode_request (ReadRequest id handle offset len) in
  (length request <= 16 * 1024)%nat → (length (data_reply id data) <= 16 * 1024)%nat →
  ch_faults w = [] → ch_stdin w = Stream request None → ch_stdout w = Stream (data_reply id data) None →
  rs_pending (ch_relay w) !! id = None →
  let outcome sched t := ∃ b' w', bridge_turns (sftp_service clock launch) sched running_bridge w = (Ok b', w') ∧
    (∀ l, br_copies b' l = Some (Reading [])) ∧ ch_trace w' = ch_trace w ++ t in
  (∃ sched, outcome sched [ToStdin request; ToStdout (data_reply id data)]) ∧
  ∃ sched p path, outcome sched [ToStdin request; ToStdout (data_reply id data); event_of launch p] ∧
    made launch p (FileOperation §"download_read" path [] (zlen data)).
Proof.
  intros Hid Hoff Hlen request Hread Hdata Hf Hin Hout Hpend outcome. split.
  - destruct (unrecorded clock launch id handle offset data len Hid Hoff Hlen Hread Hdata w) as (sched & b' & w' & E & Hc & Ht); try done.
    exists sched, b', w'. by split_and!.
  - destruct (read_packet clock launch id handle offset data len Hid Hoff Hlen Hread Hdata running_bridge w None) as (b1 & w1 & E1 & K1 & F1 & O1 & T1 & R1); [done..|].
    destruct (data_packet clock launch id handle offset data len Hoff Hread Hdata b1 w1 None) as (b2 & w2 & evs & E2 & K2 & _ & _ & T2 & M2); [by rewrite K1|by rewrite O1|done|].
    rewrite (parse_data id handle offset data len Hid Hoff Hread Hdata), R1 in M2. cbn [storePending rs_pending] in M2. rewrite lookup_insert_eq in M2.
    cbn [pending pr_Operation] in M2. rewrite bool_decide_true in M2 by done. cbn [negb fst] in M2.
    inversion M2 as [|p op evs' ops' Hp Hnil]; subst. inversion Hnil; subst.
    eexists (packet_turns LIn _ ++ packet_turns LOut _), p, _. split; [|exact Hp]. exists b2, w2. split_and!.
    + rewrite (turns_app _ _ _ _ _ _ _ E1). exact E2.
    + intros l. by rewrite K2, K1.
    + rewrite T2, T1. by rewrite <- app_assoc.
Qed.
