(* ===== verification/SshTranscript.v ===== *)
(** The transcript of a shell session through the SSH proxy, and how a session
    ends. *)
From S2P Require Import Prelude GoStrings GoBinary GoEncoding GoNet GoIO Tokens Store Sessions ProxyEvents Sftp SftpSpec KnownHosts SshChannel Ssh SshSpec.

(** * The transcript *)

Definition line_name (l : line) : bytes := match l with LIn => §"stdin" | LOut => §"stdout" | LErr => §"stderr" end.
Definition line_type (l : line) : bytes := match l with LIn => EventDataIn | _ => EventDataOut end.
(** The data recorded of a line, for the session and under the type it should be. *)
Definition recorded1 (sessionID : bytes) (l : line) (e : ssh_effect) : bytes :=
  match e with
  | Record_ (RecordDataEvent sid ty name data _) =>
      if bool_decide (sid = sessionID) && bool_decide (ty = line_type l) && bool_decide (name = line_name l) then data else []
  | _ => []
  end.
Definition recorded (sessionID : bytes) (l : line) (t : list ssh_effect) : bytes := concat (map (recorded1 sessionID l) t).
(** What was sent and is not recorded: the chunk of a copy that is about to
    record it, and what a write let out before it failed. *)
Definition unrecorded (c : option copier) (lost : bytes) : Prop :=
  match c with
  | Some (Written _ chunk) => lost = chunk
  | Some (Finished (Some _)) => (length lost <= 4096)%nat
  | _ => lost = []
  end.

Lemma recorded_app sid l t u : recorded sid l (t ++ u) = recorded sid l t ++ recorded sid l u.
Proof. unfold recorded. by rewrite map_app, concat_app. Qed.

Section Shell.
Context `{SshWire} (elapsed : nat → Z) (launch : LaunchContext).
#[local] Abbreviation sid := (l_SessionID launch).
#[local] Abbreviation sv := (shell_service elapsed launch).

Definition transcribed (w0 : channel) (b : bridge) (w : channel) : Prop :=
  ∃ t, ch_trace w = ch_trace w0 ++ t ∧
    ∀ l, ∃ lost, sent l t = recorded sid l t ++ lost ∧ unrecorded (br_copies b l) lost.

(** An event of no line. *)
Definition plain (e : ssh_effect) : Prop := ∀ l, sent1 l e = [] ∧ recorded1 sid l e = [].
Lemma plain_events t l : Forall plain t → sent l t = [] ∧ recorded sid l t = [].
Proof.
  unfold sent, recorded. induction 1 as [|e t He _ [IH1 IH2]]; [done|]. cbn -[sent1 recorded1].
  destruct (He l) as [-> ->]. by rewrite IH1, IH2.
Qed.
Lemma transcribed_plain w0 b b' w w' : transcribed w0 b w → only plain w w' →
  (∀ l, br_copies b' l = br_copies b l ∨ br_copies b l = None ∧ br_copies b' l = Some (Reading [])) → transcribed w0 b' w'.
Proof.
  intros (t & Ht & Hl) (u & Hu & Hp) Hc. exists (t ++ u). rewrite Hu, Ht, app_assoc. split; [done|]. intros l.
  destruct (Hl l) as (lost & Hs & Hlost). destruct (plain_events u l Hp) as [E1 E2]. exists lost.
  rewrite sent_app, recorded_app, E1, E2, !app_nil_r. split; [done|].
  destruct (Hc l) as [->|[E ->]]; [done|]. by rewrite E in Hlost.
Qed.
Lemma plain_no_line e : match e with ToStdin _ | ToStdout _ | ToStderr _ | Record_ (RecordDataEvent _ _ _ _ _) => False | _ => True end → plain e.
Proof. intros He l. by destruct e as [| | | | | | |[]| | |], l. Qed.
Lemma plain_handled w w' : handled sv w w' → only plain w w'.
Proof.
  intros (req & rest & o & w2 & E & Hw). trans w2.
  - change (ch_trace w) with (ch_trace (set_requests rest w)).
    assert (Hq : keeps (only plain) (try (sv_handle sv req))).
    { apply keeps_try. cbn [shell_service sv_handle]. apply keeps_bind; [apply _| |intros ?; apply keeps_ret, _].
      unfold handleSessionRequest, resized.
      repeat case_bool_decide; [destruct (un_pty _) as [[[[??]?]?]|]|destruct (un_window _) as [[??]|]| |];
        repeat (apply keeps_bind; [apply _| |intros ?]); auto with keeps.
      all: try (by apply keeps_wrap_err, only_ask, plain_no_line).
      all: by apply only_record, plain_no_line. }
    specialize (Hq (set_requests rest w)). rewrite E in Hq. exact Hq.
  - destruct Hw as [->|(ok & ->)]; [reflexivity|]. exists [Reply ok]. split; [done|]. constructor; [by apply plain_no_line|constructor].
Qed.

Lemma output_sent l l' b : sent1 l' (output l b) = if decide (l' = l) then b else [].
Proof. by destruct l, l'. Qed.
Lemma output_not_recorded l l' b : recorded1 sid l' (output l b) = [].
Proof. by destruct l. Qed.
Lemma data_recorded l l' b at_ :
  recorded1 sid l' (Record_ (RecordDataEvent sid (line_type l) (line_name l) b at_)) = if decide (l' = l) then b else [].
Proof. cbn. rewrite bool_decide_true by done. by destruct l, l'. Qed.

(** What is written when a pump stops is at most a buffer of it. *)
Lemma pump_out l cap n w o w' : pump l cap n w = (o, w') →
  ch_trace w' = ch_trace w ∨ ∃ out, ch_trace w' = ch_trace w ++ [output l out] ∧ (length out <= cap)%nat.
Proof.
  unfold pump, bind, get. destruct (st_buf (input l w)) as [|x buf]; [destruct (st_end _); intros [= <- <-]; by left|].
  unfold modify, try, put_bytes. set (k := Nat.min cap (Nat.max 1 n)). intros Hrun. right.
  assert (Hk : (k <= cap)%nat) by (unfold k; lia).
  set (w1 := set_input _ _ w) in Hrun. assert (Ht : ch_trace w1 = ch_trace w) by by unfold w1; destruct l.
  rewrite Ht in Hrun. destruct (ch_faults w1) as [|[[j e]|] fs]; injection Hrun as <- <-; eexists; (split; [done|]);
    rewrite ?length_take; lia.
Qed.

(** What a turn of a copy sends and records. *)
Definition copy_step (l : line) (c c' : copier) (w w' : channel) : Prop :=
  ∃ u, ch_trace w' = ch_trace w ++ u ∧ (∀ l', l' ≠ l → sent l' u = [] ∧ recorded sid l' u = []) ∧
    ∀ lost, unrecorded (Some c) lost → ∃ lost', lost ++ sent l u = recorded sid l u ++ lost' ∧ unrecorded (Some c') lost'.
Lemma copy_step_still l c w : copy_step l c c w w.
Proof. exists []. rewrite app_nil_r. split_and!; [done..|]. intros lost Hl. exists lost. by rewrite app_nil_r. Qed.
Lemma closing_step cl err w c' w' : closing cl err w = (Ok c', w') → c' = Finished err ∧ ∃ u, ch_trace w' = ch_trace w ++ u ∧ ∀ l, sent l u = [] ∧ recorded sid l u = [].
Proof.
  unfold closing. destruct cl; intros [= <- <-]; (split; [done|]).
  - exists [CloseStdin]. split; [done|]. by intros [].
  - exists []. by rewrite app_nil_r.
Qed.
Lemma copies_step l cl n c w c' w' :
  copyWithEvents elapsed launch l (line_type l) (line_name l) cl n c w = (Ok c', w') → copy_step l c c' w w'.
Proof.
  unfold copyWithEvents. destruct c as [buf|buf chunk|buf|err]; try (intros [= <- <-]; apply copy_step_still).
  - intros E. apply bind_ok in E as (r & w1 & Ep & E). pose proof (pump_out _ _ _ _ _ _ Ep) as Hcap.
    apply pump_run in Ep as [(Er & -> & _)|[(e & Er & -> & _)|(chunk & out & rest & fs & Hne & Hbuf & -> & Hr)]]; [| | |by apply Nat.ltb_lt].
    + injection Er as ->. injection E as <- <-. apply copy_step_still.
    + injection Er as ->. cbn in E. apply closing_step in E as [-> (u & Hu & Hn)].
      exists u. split; [done|]. split; [by intros l' _|]. intros lost Hl. cbn in Hl. subst lost. exists [].
      destruct (Hn l) as [-> ->]. split; [done|]. by case_bool_decide; cbn; [|apply Nat.le_0_l].
    + set (w1 := set_trace _ _ _) in *. change (ch_trace w1) with (ch_trace w ++ [output l out]) in Hcap.
      assert (Ht1 : ch_trace w1 = ch_trace w ++ [output l out]) by done. clearbody w1.
      assert (Hone : ∀ l', sent l' [output l out] = (if decide (l' = l) then out else []) ∧ recorded sid l' [output l out] = []).
      { intros l'. unfold sent, recorded. cbn [map concat]. rewrite !app_nil_r. split; [apply output_sent|apply output_not_recorded]. }
      assert (Hlen : (length out <= 4096)%nat).
      { destruct Hcap as [Hc|(out' & Hc & Hle)].
        - rewrite <- (app_nil_r (ch_trace w)) in Hc at 2. by apply app_inv_head in Hc.
        - apply app_inv_head in Hc. by destruct l; injection Hc as ->. }
      clear Hcap. destruct Hr as [[Er ->]|(e & Er & Hpre)]; injection Er as ->.
      * injection E as <- <-. exists [output l chunk]. split; [done|]. split.
        { intros l' Hl'. destruct (Hone l') as [-> ->]. by rewrite decide_False. }
        intros lost Hl. cbn in Hl. subst lost. exists chunk. destruct (Hone l) as [-> ->]. by rewrite decide_True.
      * apply closing_step in E as [-> (u & Hu & Hn)]. exists ([output l out] ++ u).
        rewrite Hu, Ht1, app_assoc. split; [done|]. split.
        { intros l' Hl'. rewrite sent_app, recorded_app. destruct (Hn l') as [-> ->], (Hone l') as [-> ->]. by rewrite decide_False. }
        intros lost Hl. cbn in Hl. subst lost. exists out. rewrite sent_app, recorded_app.
        destruct (Hn l) as [-> ->], (Hone l) as [-> ->]. rewrite decide_True by done. by rewrite !app_nil_r.
  - intros E. injection E as <- <-. eexists. split; [reflexivity|].
    assert (Hone : ∀ l' at_, sent l' [Record_ (RecordDataEvent sid (line_type l) (line_name l) chunk at_)] = [] ∧
      recorded sid l' [Record_ (RecordDataEvent sid (line_type l) (line_name l) chunk at_)] = if decide (l' = l) then chunk else []).
    { intros l' at_. unfold sent, recorded. cbn [map concat]. rewrite !app_nil_r. split; [by destruct l'|apply data_recorded]. }
    split.
    + intros l' Hl'. destruct (Hone l' (elapsed (length (ch_trace w)))) as [-> ->]. by rewrite decide_False.
    + intros lost Hl. cbn in Hl. subst lost. exists []. destruct (Hone l (elapsed (length (ch_trace w)))) as [-> ->].
      rewrite decide_True by done. by rewrite !app_nil_r.
Qed.

(** Before the shell starts nothing is copied. *)
Definition quiet_start (b : bridge) : Prop := br_caller b = Selecting → ∀ l, br_copies b l = None.
Lemma transcript_turns w0 : ∀ sched b w b' w', transcribed w0 b w ∧ quiet_start b →
  bridge_turns sv sched b w = (Ok b', w') → transcribed w0 b' w' ∧ quiet_start b'.
Proof.
  apply (bridge_induction sv (λ b w, transcribed w0 b w ∧ quiet_start b)).
  - intros b b' w w' [Ht Hq] Hc Hcl Hh. split.
    + eapply transcribed_plain; [exact Ht|by apply plain_handled|]. intros l. rewrite Hc. by left.
    + unfold quiet_start. by rewrite Hc, Hcl.
  - intros b l n c c' w w' [(t & Htr & Hl) Hq] Hc E. split.
    + assert (Hst : copy_step l c c' w w') by (destruct l; cbn [shell_service sv_copy] in E; by eapply copies_step).
      destruct Hst as (u & Hu & Ho & Hs). exists (t ++ u). rewrite Hu, Htr, app_assoc. split; [done|]. intros l'. cbn [br_copies].
      rewrite sent_app, recorded_app. unfold set_copy. destruct (Hl l') as (lost & Hsent & Hlost). destruct (decide (l' = l)) as [->|Hne].
      * rewrite Hc in Hlost. destruct (Hs lost Hlost) as (lost' & Happ & Hlost'). exists lost'.
        rewrite Hsent, <- !app_assoc, Happ. done.
      * destruct (Ho l' Hne) as [-> ->]. rewrite !app_nil_r. by exists lost.
    + intros Hsel. cbn in Hsel. specialize (Hq Hsel l). by rewrite Hc in Hq.
  - intros b b' w w' [Ht Hq] Hsel Hw Hc E. split.
    + eapply transcribed_plain; [exact Ht| |].
      * cbn in E. injection E as <-. eexists. split; [reflexivity|]. constructor; [by apply plain_no_line|constructor].
      * intros l. right. rewrite Hc. split; [by apply Hq|done].
    + intros Hs'. by rewrite Hw in Hs'.
  - intros b c w [Ht Hq] Hm. split; [exact Ht|]. intros Hs. cbn in Hs. subst c. unfold moves in Hm. by destruct (br_caller b) as [| |[]|].
  - intros b w result status [Ht Hq] Hcl Hd. split; [|by intros].
    eapply transcribed_plain; [exact Ht| |by left]. eexists. split; [reflexivity|]. constructor; [by apply plain_no_line|constructor].
Qed.

(** C24.  The transcript of a shell session is exact.  Whatever the client and the
    upstream send, whatever the schedule of the proxy's goroutines and whichever
    writes fail, the bytes that went out on each of stdin, stdout and stderr are,
    in order, the data recorded for this session under that stream's name and
    direction - followed by the one chunk the copy is about to record, or, once a
    write has failed, by the at most 4096 bytes which that write let out.  In
    particular a copy that ended at the end of its stream has recorded all it sent. *)
Theorem shell_transcript_is_exact sched w b' w' : bridge_turns sv sched new_bridge w = (Ok b', w') →
  ∃ t, ch_trace w' = ch_trace w ++ t ∧
    ∀ l, ∃ lost, sent l t = recorded sid l t ++ lost ∧ unrecorded (br_copies b' l) lost.
Proof.
  intros E. apply transcript_turns with (w0 := w) in E as [Ht _]; [exact Ht|]. split; [|by intros].
  exists []. rewrite app_nil_r. split; [done|]. intros l. by exists [].
Qed.
End Shell.

(** * The end of a session *)

Section Exit.
Context `{SshWire} (env_clock env_elapsed : nat → Z) (launch : LaunchContext).

Definition no_exit (e : ssh_effect) : Prop := ∀ status, e ≠ SendExitStatus status.
(** The client's side stays as it is, and no exit status is sent. *)
Definition waits (w w' : channel) : Prop := ch_stdin w' = ch_stdin w ∧ only no_exit w w'.
#[export] Instance waits_preorder : PreOrder waits.
Proof.
  split; [by intros w|]. intros u v w [Hs Ht] [Hs' Ht']. split; [by rewrite Hs'|by etransitivity].
Qed.
Lemma waits_emit e : no_exit e → keeps waits (emit e).
Proof. intros He w. split; [done|by apply only_emit]. Qed.
Lemma waits_record c : keeps waits (record c).
Proof. by apply waits_emit. Qed.
Lemma waits_ask r : keeps waits (ask r).
Proof. intros w. split; [|by apply only_ask]. unfold ask, put_bytes. by destruct (ch_faults w) as [|[[]|]]. Qed.
Lemma waits_pump l cap n : l ≠ LIn → (0 < cap)%nat → keeps waits (pump l cap n).
Proof.
  intros Hl Hcap w. split; [|by apply only_pump; [|by destruct l]]. unfold pump, bind, get.
  destruct (st_buf (input l w)); [by destruct (st_end (input l w))|]. unfold modify, try, put_bytes. destruct l; [done|..]; cbn;
    by destruct (ch_faults w) as [|[[]|]].
Qed.
Lemma waits_with_relay {A} (f : sftpRelayState → A * sftpRelayState) : keeps waits (with_relay f).
Proof. intros w. split; [unfold with_relay; by destruct (f _)|apply only_with_relay]. Qed.
Lemma waits_record_all ops : keeps waits (record_all env_clock launch ops).
Proof.
  induction ops as [|op ops IH]; [apply keeps_ret, _|]. cbn. apply keeps_bind; [apply _| |intros ?; exact IH].
  unfold recordFileOperation. case_bool_decide; [apply keeps_ret, _|].
  apply keeps_bind; [apply _|apply keeps_get, _|intros w]. apply waits_record.
Qed.
Lemma waits_closing cl e : keeps waits (closing cl e).
Proof. apply keeps_bind; [apply _| |intros ?; apply keeps_ret, _]. destruct cl; [by apply waits_emit|apply keeps_ret, _]. Qed.

Record patient_service (sv : service) : Prop := {
  ps_handle : ∀ req, keeps waits (sv_handle sv req);
  ps_started : keeps waits (sv_started sv);
  ps_copy : ∀ l n c, l ≠ LIn → keeps waits (sv_copy sv l n c);
  ps_stdin : ∀ n buf w, ch_stdin w = Stream [] None → sv_copy sv LIn n (Reading buf) w = (Ok (Reading buf), w);
}.
Lemma shell_patient : patient_service (shell_service env_elapsed launch).
Proof.
  split; cbn [shell_service sv_handle sv_started sv_copy].
  - intros req. apply keeps_bind; [apply _| |intros ?; apply keeps_ret, _]. unfold handleSessionRequest, resized.
    repeat case_bool_decide; [destruct (un_pty _) as [[[[??]?]?]|]|destruct (un_window _) as [[??]|]| |];
      repeat (apply keeps_bind; [apply _| |intros ?]);
      first [apply keeps_ret, _ | apply keeps_get, _ | apply keeps_fail, _ | apply waits_record | apply keeps_wrap_err, waits_ask].
  - apply waits_record.
  - intros l n c Hl. destruct l; [done|..]; unfold copyWithEvents; destruct c; try apply keeps_ret, _.
    1,3: apply keeps_bind; [apply _|apply waits_pump; [done|by apply Nat.ltb_lt]|]; intros [|?|?]; [apply keeps_ret, _..|apply waits_closing].
    all: apply keeps_bind; [apply _|apply keeps_get, _|intros w]; apply keeps_bind; [apply _|apply waits_record|intros ?; apply keeps_ret, _].
  - intros n buf w Hw. unfold copyWithEvents, pump, bind, get. cbn [input]. by rewrite Hw.
Qed.
Lemma sftp_patient : patient_service (sftp_service env_clock launch).
Proof.
  split; cbn [sftp_service sv_handle sv_started sv_copy].
  - intros req. unfold handleSFTPRequest. repeat case_bool_decide; try apply keeps_ret, _.
    destruct (un_subsystem _); [|apply keeps_fail, _]. destruct (negb _); [apply keeps_ret, _|].
    apply keeps_bind; [apply _| |intros ?; apply keeps_ret, _]. apply keeps_wrap_err, waits_ask.
  - apply keeps_ret, _.
  - intros l n c Hl. destruct l; [done|..]; unfold copySFTPUpstreamToClient, copyWithParser, copySFTPRaw; destruct c as [buf|?|buf|?]; try apply keeps_ret, _.
    1,3: apply keeps_bind; [apply _|apply waits_pump; [done|by apply Nat.ltb_lt]|]; intros [|?|?]; [apply keeps_ret, _..|apply waits_closing].
    destruct (next_packet buf); [apply keeps_ret, _..|]. apply keeps_bind; [apply _| |intros ?; apply keeps_ret, _].
    apply keeps_bind; [apply _|apply waits_with_relay|intros ?; apply waits_record_all].
  - intros n buf w Hw. unfold copySFTPClientToUpstream, copyWithParser, pump, bind, get. cbn [input]. by rewrite Hw.
Qed.

(** The caller waits for the upstream or for the copies, one of which reads the client. *)
Definition waiting (b : bridge) (w : channel) : Prop :=
  ch_stdin w = Stream [] None ∧ (∃ buf, br_copies b LIn = Some (Reading buf)) ∧
  (br_caller b = Waiting ∨ ∃ result, br_caller b = Collecting result).
Lemma waiting_turns sv w0 : patient_service sv → ∀ sched b w b' w', waiting b w ∧ only no_exit w0 w →
  bridge_turns sv sched b w = (Ok b', w') → waiting b' w' ∧ only no_exit w0 w'.
Proof.
  intros [Hh Hst Hc Hin]. apply (bridge_induction sv (λ b w, waiting b w ∧ only no_exit w0 w)).
  - intros b b' w w' [(Hs & Hb & Hcl) Ho] Ec Ecl (req & rest & o & w2 & E & Hw).
    assert (Hww : waits w w').
    { trans w2.
      - pose proof (keeps_try waits (sv_handle sv req) (Hh req) (set_requests rest w)) as Hk. rewrite E in Hk. exact Hk.
      - destruct Hw as [->|(ok & ->)]; [reflexivity|]. split; [done|]. exists [Reply ok]. split; [done|]. by repeat constructor. }
    destruct Hww as [Hs' Ho']. split; [|by etransitivity]. unfold waiting. by rewrite Hs', Ec, Ecl.
  - intros b l n c c' w w' [(Hs & (buf & Hb) & Hcl) Ho] Ec E. destruct (decide (l = LIn)) as [->|Hl].
    + rewrite Hb in Ec. injection Ec as <-. rewrite Hin in E by done. injection E as <- <-. split; [|done].
      split_and!; [done| |done]. exists buf. cbn. unfold set_copy. by rewrite decide_True.
    + pose proof (Hc l n c Hl w) as [Hs' Ho']. rewrite E in Hs', Ho'. cbn in Hs', Ho'. split; [|by etransitivity].
      split_and!; [by rewrite Hs'| |done]. exists buf. cbn. unfold set_copy. by rewrite decide_False.
  - intros b b' w w' [(_ & _ & Hcl) _] Hsel. rewrite Hsel in Hcl. by destruct Hcl as [|[]].
  - intros b c w [(Hs & Hb & Hcl) Ho] Hm. split; [|done]. split_and!; [done..|]. cbn. unfold moves, copies_done in Hm.
    destruct Hb as (buf & Hb). rewrite Hb in Hm. destruct Hcl as [E|(result & E)]; rewrite E in Hm.
    + destruct c; try done. right. by eexists.
    + by destruct result, c as [| | |[]].
  - intros b w result status [(_ & (buf & Hb) & _) _] _ Hd. unfold copies_done in Hd. by rewrite Hb in Hd.
Qed.

(** C31.  The exit of the upstream does not end the session of a silent client.  From a
    bridge that waits while its copy of stdin reads a client that sends nothing and
    keeps its side open, no schedule - the exit of the upstream, with whatever
    status, the end of its streams, a failing write to the client included - makes
    the bridge return or tell the client an exit status: it ends only with the
    client's next byte, its disconnection, or the maximal age of the session. *)
Theorem exit_waits_for_the_client sv sched b w b' w' :
  sv = shell_service env_elapsed launch ∨ sv = sftp_service env_clock launch →
  ch_stdin w = Stream [] None → br_copies b LIn = Some (Reading []) → br_caller b = Waiting →
  bridge_turns sv sched b w = (Ok b', w') →
  (br_caller b' = Waiting ∨ ∃ result, br_caller b' = Collecting result) ∧
  ∃ t, ch_trace w' = ch_trace w ++ t ∧ Forall (λ e, ∀ status, e ≠ SendExitStatus status) t.
Proof.
  intros Hsv Hs Hb Hcl E. assert (Hp : patient_service sv) by (destruct Hsv as [-> | ->]; [apply shell_patient|apply sftp_patient]).
  apply (waiting_turns sv w Hp) in E as [(_ & _ & Hcl') Ht]; [done|]. split; [|reflexivity].
  split_and!; [done|by eexists|by left].
Qed.
End Exit.
