(* ===== verification/SshExamples.v ===== *)
(** Sessions of the SSH proxy, run: the theorems at concrete inputs. *)
From S2P Require Import Prelude GoStrings GoBinary GoEncoding GoNet GoTexts GoIO Tokens Store Sessions PgServer Identity Access Assets Credentials ProxyEvents Sftp SftpSpec KnownHosts KnownHostsSpec SshChannel Ssh SshSpec SshClaims SftpClaims SshTranscript.

#[local] Existing Instance ascii_tables.

(** A file of lines, a key in which is the rest of a line after its host. *)
Definition sample_key_text (key : bytes) : bytes :=
  §"ssh-ed25519 " ++ map (λ b, if bool_decide (b = "010"%byte) then " "%byte else b) key ++ §"=".
Definition sample_normal (address : bytes) : bytes :=
  match LastIndexByte address ":"%byte with
  | Some i => let host := take i address in let port := drop (S i) address in
              if bool_decide (port = §"22") then host else §"[" ++ host ++ §"]:" ++ port
  | None => address
  end.
Definition sample_known_hosts : KnownHosts := {|
  kh_db := list bytes;
  kh_New text := inl (SplitByte text "010"%byte);
  kh_check db hostname remote key :=
    if bool_decide (sample_normal hostname ++ §" " ++ sample_key_text key ∈ db) then None
    else Some (ErrVar KeyError);
  kh_Line address key := sample_normal address ++ §" " ++ sample_key_text key;
|}.
#[local] Existing Instance sample_known_hosts.
#[local, program] Instance sample_known_hosts_laws : KnownHostsLaws := {| kh_text := sample_key_text |}.
Next Obligation.
  intros host port key Hh Hp. cbn. unfold JoinHostPort, sample_normal. rewrite has_byte_false by done.
  change (§":" ++ port) with (":"%byte :: port). rewrite LastIndexByte_app by done. rewrite take_app_length.
  assert (Hd : drop (S (length host)) (host ++ ":"%byte :: port) = port); [|by rewrite Hd].
  clear. induction host as [|x h IH]; [done|exact IH].
Qed.
Next Obligation. intros key. exact (tight_app §"ssh-ed25519" §"=" (§" " ++ map _ key) eq_refl eq_refl). Qed.
Next Obligation.
  intros key Hin. unfold sample_key_text in Hin. rewrite !elem_of_app in Hin. destruct Hin as [Hin|[Hin|Hin]].
  - by apply (bool_decide_unpack (_ ∉ _)) in Hin; [|vm_compute].
  - apply list_elem_of_fmap in Hin as (b & E & _). by case_bool_decide.
  - by apply (bool_decide_unpack (_ ∉ _)) in Hin; [|vm_compute].
Qed.

Definition sample_wire : SshWire := {|
  un_subsystem payload := inl payload;
  un_pty payload := inl (payload, 80, 24, ["053"; "000"; "000"; "000"; "001"; "000"]%byte);
  un_window payload := inr (Errorf §"ssh: short read");
  parse_private_key _ := None;
  handshake_failed e := Wrap §"ssh: handshake failed" e;
  var_text name := name;
|}.
#[local] Existing Instance sample_wire.

Definition sample_launch : LaunchContext := {|
  l_SessionID := §"s1"; l_UserID := §"u1"; l_AssetID := §"a1"; l_AssetName := §"vm"; l_RequestID := §"r1";
  l_Action := §"shell"; l_Protocol := §"ssh"; l_AssetType := []; l_Host := §"10.0.0.8"; l_Port := 22;
  l_UpstreamUsername := []; l_Status := []; l_ExpiresAt := 0 |}.
Definition sample_config (mode : bytes) : KnownHosts.Config := MkConfig §"accessd" mode §"/var/lib/accessd/known_hosts" true.
Definition sample_file : file := File (Some (kh_Line §"10.0.0.8:22" §"key1" ++ ["010"%byte])) [].

(** A shell in which the client types and the upstream answers and exits. *)
Definition sample_schedule : list turn :=
  [TRequest; TRequest; TCaller true; TCopy LIn 3; TCopy LIn 0; TCopy LOut 5; TCopy LOut 0; TCopy LIn 3; TCopy LErr 1; TCopy LOut 9;
   TExit (ExitError 2); TCaller true].
Definition sample_environment (key : bytes) : environment := {|
  env_remote_addr := §"10.1.1.1:50000"; env_channels := [§"direct-tcpip"; §"session"]; env_accept := None;
  env_credential ty := if bool_decide (ty = TypePassword) then inl (Credential §"root" §"pw")
                       else inr (ErrVar §"credentials.ErrCredentialNotFound");
  env_dial := Shown §"10.0.0.8:22" key None; env_redial := Shown §"10.0.0.8:22" key None;
  env_probe := inr (Some key, None); env_session := None; env_pipes _ := None; env_schedule := sample_schedule;
  env_clock _ := 0; env_elapsed _ := 0 |}.
Definition sample_channel (stdin : option error) : channel := Channel
  [Request §"pty-req" true §"xterm"; Request §"shell" true []]
  (Stream §"ls" stdin) (Stream §"bin" (Some io_EOF)) (Stream [] (Some io_EOF)) [] [] newSFTPRelayState sample_file.

Definition sample_callback : callback :=
  match (buildUpstreamHostKeyCallback (sample_config §"known-hosts") sample_file).1 with Ok cb => cb | _ => None end.
Lemma sample_callback_ok : buildUpstreamHostKeyCallback (sample_config §"known-hosts") sample_file =
  (Ok sample_callback, (buildUpstreamHostKeyCallback (sample_config §"known-hosts") sample_file).2).
Proof.
  assert (E : is_ok (buildUpstreamHostKeyCallback (sample_config §"known-hosts") sample_file).1 = true) by (by vm_compute).
  unfold sample_callback. revert E. generalize (buildUpstreamHostKeyCallback (sample_config §"known-hosts") sample_file).
  by intros [[]].
Qed.
Definition sample_run (key : bytes) : outcome bool * channel :=
  handleConn (sample_config §"known-hosts") sample_callback (sample_environment key) (Some (extensions sample_launch))
    (sample_channel (Some io_EOF)).
Definition summary (e : ssh_effect) : bytes :=
  match e with
  | ToStdin b | ToStdout b | ToStderr b => b
  | CloseStdin => §"close" | ToSession Shell => §"shell" | ToSession _ => §"ask" | Reply _ => §"reply"
  | SendExitStatus _ => §"exit" | RejectChannel _ _ => §"reject" | AcceptChannel => §"accept" | Offer u _ => §"offer " ++ u
  | Record_ (Session (MarkProxyConnected _ _)) => §"proxy" | Record_ (Session (MarkUpstreamConnected _)) => §"upstream"
  | Record_ (Session (MarkEnded _ reason)) => §"ended " ++ reason | Record_ (Session (MarkFailed _ reason)) => §"failed " ++ reason
  | Record_ (Session _) => §"usage" | Record_ (ShellStarted _) => §"started"
  | Record_ (RecordDataEvent _ _ _ b _) => §"data " ++ b | Record_ _ => §"other"
  end.

Lemma ssh_connections_are_confined_witness :
  map summary (ch_trace (sample_run §"key1").2) =
    [§"proxy"; §"reject"; §"usage"; §"offer root"; §"upstream"; §"accept"; §"ask"; §"other"; §"reply"; §"shell"; §"reply"; §"started";
      §"ls"; §"data ls"; §"bin"; §"data bin"; §"close"; §"exit"; §"ended client_disconnected"] ∧
  ∃ done w', sample_run §"key1" = (Ok done, w') ∧ ∃ t, ch_trace w' = [] ++ t ∧
    match launchFromPermissions (Some (extensions sample_launch)) with
    | inr _ => t = []
    | inl launch => connection (sample_environment §"key1") launch done t
    end.
Proof.
  split; [by vm_compute|].
  exact (ssh_connections_are_confined (sample_config §"known-hosts") sample_file sample_callback _ (sample_environment §"key1")
    (Some (extensions sample_launch)) (sample_channel (Some io_EOF)) sample_callback_ok).
Defined.

(** An upstream with another key: the repair writes the key down, and the retry
    is refused all the same. *)
Lemma strict_mode_offers_only_to_known_keys_witness :
  let run := connectUpstream (sample_config §"known-hosts") sample_callback (sample_environment §"key2") sample_launch
               (sample_channel None) in
  is_err run.1 = true ∧
  fi_text (ch_files run.2) = Some (kh_Line §"10.0.0.8:22" §"key1" ++ ["010"%byte] ++ kh_Line §"10.0.0.8:22" §"key2" ++ ["010"%byte]) ∧
  ∃ t, ch_trace run.2 = [] ++ t ∧ ¬ offered t.
Proof.
  destruct (strict_mode_offers_only_to_known_keys (sample_config §"known-hosts") sample_file sample_callback _
    (sample_environment §"key2") sample_launch (sample_channel None) _ _ ltac:(by vm_compute) sample_callback_ok
    (surjective_pairing _)) as (db & t & Hdb & Ht & Hoff & _).
  split; [by vm_compute|]. split; [by vm_compute|]. exists t. split; [exact Ht|].
  intros Ho. destruct (Hoff Ho) as (remote & key & auth & Hshown & Hk). injection Hdb as <-.
  destruct Hshown as [Hs|Hs]; injection Hs as <- <- <-; by vm_compute in Hk.
Defined.

(** The bridge at the end of a run. *)
Definition bridge_of (o : outcome bridge) : bridge := match o with Ok b => b | _ => new_bridge end.
Lemma bridge_run (m : M channel bridge) w : is_ok (m w).1 = true → m w = (Ok (bridge_of (m w).1), (m w).2).
Proof. by destruct (m w) as [[]]. Qed.

(** ** SFTP *)

Definition sample_requests : list file_request :=
  [InitRequest (be_bytes 4 3); PathRequest sftpPacketRemove 1 §"/tmp/a" []; RenameRequest 2 §"/tmp/b" §"/tmp/c"].
Definition sample_sftp_channel (input output : bytes) : channel :=
  Channel [] (Stream input None) (Stream output None) (Stream [] None) [] [] newSFTPRelayState sample_file.
(** The upstream accepts the subsystem, and the client's requests come in two reads. *)
Definition sample_sftp_schedule : list turn :=
  [TRequest; TCaller true; TCopy LIn 20] ++ repeat (TCopy LIn 0) 3 ++ [TCopy LIn 900] ++ repeat (TCopy LIn 0) 4.
Definition sample_sftp_start (input output : bytes) : channel :=
  set_requests [Request §"subsystem" true §"sftp"] (sample_sftp_channel input output).
Definition sample_sftp_first : channel := sample_sftp_start (encoded sample_requests) [].
Definition sample_sftp_run : outcome bridge * channel :=
  bridge_turns (sftp_service (λ _, 0) sample_launch) sample_sftp_schedule new_bridge sample_sftp_first.
Definition sample_sftp_bridge : bridge := bridge_of sample_sftp_run.1.
Lemma sample_requests_ok : Forall request_ok sample_requests.
Proof. repeat constructor. all: try lia. all: try by vm_compute. exists (Some §"delete"). by vm_compute. Qed.
Lemma sample_sftp_ok : bridge_turns (sftp_service (λ _, 0) sample_launch) sample_sftp_schedule new_bridge sample_sftp_first =
  (Ok sample_sftp_bridge, sample_sftp_run.2).
Proof. apply bridge_run. by vm_compute. Qed.
Lemma sftp_requests_are_recorded_witness :
  map (λ p, p !! §"operation") (client_events (ch_trace sample_sftp_run.2)) = [Some (JStr §"delete"); Some (JStr §"rename")] ∧
  ∃ t served rest extra, ch_trace sample_sftp_run.2 = ch_trace sample_sftp_first ++ t ∧ sample_requests = served ++ rest ∧
    logged sample_launch (client_events t) served ∧ sent LIn t = encoded served ++ extra ∧ extra `prefix_of` encoded rest ∧
    (idle (br_copies sample_sftp_bridge LIn) → partial extra rest).
Proof.
  split; [by vm_compute|].
  exact (sftp_requests_are_recorded (λ _, 0) sample_launch sample_requests sample_sftp_schedule sample_sftp_first
    sample_sftp_bridge sample_sftp_run.2 sample_requests_ok eq_refl sample_sftp_ok).
Defined.

(** One read of 16 bytes whose data comes back at once. *)
Definition sample_read : bytes := encode_request (ReadRequest 7 §"h" (be_bytes 8 0) 16).
Lemma downloads_can_go_unrecorded_witness :
  let w := sample_sftp_channel sample_read (data_reply 7 §"secret") in
  let outcome sched t := ∃ b' w', bridge_turns (sftp_service (λ _, 0) sample_launch) sched running_bridge w = (Ok b', w') ∧
    (∀ l, br_copies b' l = Some (Reading [])) ∧ ch_trace w' = [] ++ t in
  (∃ sched, outcome sched [ToStdin sample_read; ToStdout (data_reply 7 §"secret")]) ∧
  ∃ sched p path, outcome sched [ToStdin sample_read; ToStdout (data_reply 7 §"secret"); event_of sample_launch p] ∧
    made sample_launch p (FileOperation §"download_read" path [] 6).
Proof.
  cbv zeta. apply (downloads_can_go_unrecorded (λ _, 0) sample_launch 7 §"h" (be_bytes 8 0) §"secret" 16
    (sample_sftp_channel sample_read (data_reply 7 §"secret"))); try by vm_compute.
  all: by apply Nat.leb_le; vm_compute.
Defined.

(** ** The transcript of a session, and its end *)

(** The client types and waits with its side open; the upstream answers and exits. *)
Definition sample_shell (stdin : bytes) : channel :=
  Channel [Request §"shell" true []] (Stream stdin None) (Stream §"bin" (Some io_EOF)) (Stream [] (Some io_EOF)) [] []
    newSFTPRelayState sample_file.
Definition sample_turns : list turn :=
  [TCopy LIn 2; TCopy LOut 9; TCopy LOut 0; TCopy LOut 0; TCopy LErr 0; TExit ExitZero; TCaller true; TCopy LIn 9; TCaller true].
Definition sample_service : service := shell_service (λ _, 0) sample_launch.
Definition sample_transcript : outcome bridge * channel :=
  bridge_turns sample_service (TRequest :: TCaller true :: sample_turns) new_bridge (sample_shell §"ls").

Lemma shell_transcript_is_exact_witness :
  map summary (ch_trace sample_transcript.2) =
    [§"shell"; §"reply"; §"started"; §"ls"; §"bin"; §"data bin"; §"data ls"] ∧
  ∃ t, ch_trace sample_transcript.2 = ch_trace (sample_shell §"ls") ++ t ∧
    ∀ l, ∃ lost, sent l t = recorded §"s1" l t ++ lost ∧ unrecorded (br_copies (bridge_of sample_transcript.1) l) lost.
Proof.
  split; [by vm_compute|].
  assert (E : bridge_turns sample_service (TRequest :: TCaller true :: sample_turns) new_bridge (sample_shell §"ls") =
    (Ok (bridge_of sample_transcript.1), sample_transcript.2)) by (apply bridge_run; by vm_compute).
  exact (shell_transcript_is_exact (λ _, 0) sample_launch (TRequest :: TCaller true :: sample_turns) (sample_shell §"ls") _ _ E).
Defined.

Definition sample_wait : outcome bridge * channel := bridge_turns sample_service sample_turns running_bridge (sample_shell []).
Lemma exit_waits_for_the_client_witness :
  (br_caller (bridge_of sample_wait.1) = Waiting ∨ ∃ result, br_caller (bridge_of sample_wait.1) = Collecting result) ∧
  ∃ t, ch_trace sample_wait.2 = ch_trace (sample_shell []) ++ t ∧ Forall (λ e, ∀ status, e ≠ SendExitStatus status) t.
Proof.
  assert (E : bridge_turns sample_service sample_turns running_bridge (sample_shell []) =
    (Ok (bridge_of sample_wait.1), sample_wait.2)) by (apply bridge_run; by vm_compute).
  exact (exit_waits_for_the_client (λ _, 0) (λ _, 0) sample_launch sample_service sample_turns running_bridge (sample_shell [])
    _ _ (or_introl eq_refl) eq_refl eq_refl eq_refl E).
Defined.

(** An upstream whose key changed, and which connects three times. *)
Definition sample_db : list bytes := [kh_Line §"10.0.0.8:22" §"key1"].
Lemma known_hosts_entries_pile_up_witness :
  ∃ text', connections sample_db §"10.0.0.8:22" (JoinHostPort §"10.0.0.8" (Itoa 22)) [§"key2"; §"key3"; §"key2"] sample_file =
      (Ok tt, File (Some text') []) ∧
    entries text' = [§"10.0.0.8 ssh-ed25519 key1="; §"10.0.0.8 ssh-ed25519 key2="; §"10.0.0.8 ssh-ed25519 key3=";
                     §"10.0.0.8 ssh-ed25519 key2="].
Proof.
  destruct (known_hosts_entries_pile_up §"10.0.0.8" 22 ltac:(by vm_compute) ltac:(unfold max_int64; lia) sample_db §"10.0.0.8:22"
    [§"key2"; §"key3"; §"key2"] (kh_Line §"10.0.0.8:22" §"key1" ++ ["010"%byte]) ltac:(by vm_compute)) as (text' & Hrun & He).
  - repeat constructor; (exists (ErrVar KeyError); split; by vm_compute).
  - assert (E : entries (kh_Line §"10.0.0.8:22" §"key1" ++ ["010"%byte]) = [§"10.0.0.8 ssh-ed25519 key1="]) by (by vm_compute).
    rewrite E. repeat constructor. 
  - exists text'. split; [exact Hrun|]. rewrite He. by vm_compute.
Defined.
