(* ===== verification/Ldap.v ===== *)
(** LDAP text handling: the configuration, the group-to-role mapping, the names
    and filters a login searches with, and the attributes it reads
    (apps/api/internal/auth/ldap_provider.go,
    apps/api/internal/auth/provider_runtime_config.go).

    The directory and the client library are parameters: the class [Directory]
    holds what they answer to the n-th request, [EscapeFilter] and the reading
    of an entry's attribute.  Its laws are documented behaviour of go-ldap. *)
From S2P Require Import Prelude GoStrings GoEncoding GoNet Store PgServer Identity.

Record LDAPConfig := {
  URL : bytes;
  cfg_Host : bytes;
  cfg_Port : Z;
  BaseDN : bytes;
  BindDN : bytes;
  BindPassword : bytes;
  CACertFile : bytes;
  CACertPEM : bytes;
  UserSearchFilter : bytes;
  UsernameAttribute : bytes;
  DisplayNameAttribute : bytes;
  SurnameAttribute : bytes;
  EmailAttribute : bytes;
  SSHKeyAttribute : bytes;
  AvatarAttribute : bytes;
  UseTLS : bool;
  StartTLS : bool;
  InsecureSkipVerify : bool;
  GroupSearchBaseDN : bytes;
  GroupSearchFilter : bytes;
  GroupNameAttribute : bytes;
  GroupRoleMappingRaw : bytes;
}.

(** A [tls.Config] with [MinVersion] TLS 1.2: whether verification is off and
    the certificates added to the system's. *)
Record TLSConfig := { tls_skip_verify : bool; tls_root_pem : option bytes }.

(** An entry: its DN and [GetAttributeValue]. *)
Record Entry := { DN : bytes; GetAttributeValue : bytes → bytes }.

(** An [*ldap.Error] by its result code. *)
Definition LDAPResultInvalidCredentials : Z := 49.
Definition ErrorNetwork : Z := 200.

Class Directory := {
  EscapeFilter : bytes → bytes;
  dir_dial : nat → bytes → option TLSConfig → option error;
  dir_start_tls : nat → TLSConfig → option error;
  (** Bind with a name and a password: [None] is success. *)
  dir_bind : nat → bytes → bytes → option Z;
  (** Search as an identity ([[]] is anonymous): base, filter, attributes and
      size limit. *)
  dir_search : nat → bytes → bytes → bytes → list bytes → Z → list Entry + Z;
  read_file : bytes → bytes + error;
  pem_has_certificate : bytes → bool;
}.

Section Texts.
Context `{Unicode} `{Directory}.

(** ** Filters *)

(** [strings.NewReplacer(pairs...).Replace]: one pass, the earlier pair first. *)
Fixpoint first_prefix (pairs : list (bytes * bytes)) (s : bytes) : option (bytes * bytes) :=
  match pairs with
  | [] => None
  | (old, new) :: ps => if HasPrefix s old then Some (new, drop (length old) s) else first_prefix ps s
  end.
Fixpoint replace_runs (fuel : nat) (pairs : list (bytes * bytes)) (s : bytes) : bytes :=
  match fuel, s with
  | S f, x :: s' =>
      match first_prefix pairs s with
      | Some (new, rest) => new ++ replace_runs f pairs rest
      | None => x :: replace_runs f pairs s'
      end
  | _, _ => []
  end.
Definition Replace (pairs : list (bytes * bytes)) (s : bytes) : bytes := replace_runs (length s) pairs s.

Definition defaultLDAPUserSearchFilter : bytes := §"(&(objectClass=user)({{username_attr}}={{username}}))".
Definition defaultLDAPGroupSearchFilter : bytes := §"(&(objectClass=group)(member={{user_dn}}))".

Definition renderFilter (cfg : LDAPConfig) (template username userDN defaultFilter : bytes) : bytes :=
  let filter := TrimSpace template in
  let filter := if bool_decide (filter = []) then TrimSpace defaultFilter else filter in
  Replace [(§"{{username}}", EscapeFilter username);
           (§"{{username_attr}}", TrimSpace (UsernameAttribute cfg));
           (§"{{user_dn}}", EscapeFilter userDN)] filter.

Fixpoint containsString (items : list bytes) (value : bytes) : bool :=
  match items with
  | [] => false
  | item :: rest => bool_decide (item = value) || containsString rest value
  end.

(** The loop of [appendAttribute] over the candidates: [seen] starts with the
    keys of the existing attributes. *)
Fixpoint append_attributes (seen existing candidates : list bytes) : list bytes :=
  match candidates with
  | [] => existing
  | candidate :: rest =>
      let value := TrimSpace candidate in
      if bool_decide (value = []) then append_attributes seen existing rest
      else
        let key := ToLower value in
        if containsString seen key then append_attributes seen existing rest
        else append_attributes (key :: seen) (existing ++ [value]) rest
  end.
Definition appendAttribute (existing candidates : list bytes) : list bytes :=
  append_attributes (map (λ v, ToLower (TrimSpace v)) existing) existing candidates.

Definition ldapLookupUsernameAttributes (primary : bytes) : list bytes :=
  appendAttribute [] [primary; §"sAMAccountName"; §"uid"; §"userPrincipalName"; §"mail"; §"cn"].

Definition ldapUsernameCandidates (username : bytes) : list bytes :=
  let trimmed := TrimSpace username in
  if bool_decide (trimmed = []) then []
  else
    let candidates := [trimmed] in
    let candidates :=
      if bool_decide (escape_byte ∈ trimmed) then
        let part := TrimSpace (default [] (last (SplitByte trimmed escape_byte))) in
        if bool_decide (part = []) then candidates else candidates ++ [part]
      else candidates in
    let candidates :=
      if bool_decide ("@"%byte ∈ trimmed) then
        let localPart := TrimSpace (default [] (head (SplitByte trimmed "@"%byte))) in
        if bool_decide (localPart = []) then candidates else candidates ++ [localPart]
      else candidates in
    fold_left (λ unique value, if containsString unique value then unique else unique ++ [value]) candidates [].

(** The filters [lookupUser] tries, in order. *)
Definition fallback_filter (attr candidate : bytes) : bytes :=
  §"(&(objectClass=user)(" ++ EscapeFilter attr ++ §"=" ++ EscapeFilter candidate ++ §"))".
Definition user_filters (cfg : LDAPConfig) (username : bytes) : list bytes :=
  fold_left (λ filters f, if containsString filters f then filters else filters ++ [f])
    (flat_map (λ candidate, map (λ attr, fallback_filter attr candidate)
                              (ldapLookupUsernameAttributes (UsernameAttribute cfg)))
       (ldapUsernameCandidates username))
    [renderFilter cfg (UserSearchFilter cfg) username [] defaultLDAPUserSearchFilter].
Definition user_attrs (cfg : LDAPConfig) : list bytes :=
  let attrs := appendAttribute [] [UsernameAttribute cfg] in
  let attrs := appendAttribute attrs [DisplayNameAttribute cfg; §"displayName"; §"cn"; §"name"] in
  let attrs := appendAttribute attrs [SurnameAttribute cfg; §"sn"] in
  appendAttribute attrs [EmailAttribute cfg; §"mail"; §"userPrincipalName"].

(** ** Entries *)

Fixpoint firstNonEmptyAttributeValue (entry : Entry) (candidates : list bytes) : bytes :=
  match candidates with
  | [] => []
  | candidate :: rest =>
      let attr := TrimSpace candidate in
      if bool_decide (attr = []) then firstNonEmptyAttributeValue entry rest
      else
        let value := TrimSpace (GetAttributeValue entry attr) in
        if bool_decide (value = []) then firstNonEmptyAttributeValue entry rest else value
  end.

Definition group_key_add (keys : list bytes) (value : bytes) : list bytes :=
  let key := ToLower (TrimSpace value) in
  if bool_decide (key = []) then keys
  else if containsString keys key then keys else keys ++ [key].
Definition groupMappingKeys (entry : Entry) (groupNameAttribute : bytes) : list bytes :=
  group_key_add (group_key_add [] (DN entry)) (GetAttributeValue entry groupNameAttribute).

Record ldapUserProfile := Profile {
  pf_DN : bytes;
  pf_Username : bytes;
  pf_DisplayName : bytes;
  pf_Email : bytes;
}.

Definition entry_profile (cfg : LDAPConfig) (username : bytes) (entry : Entry) : ldapUserProfile :=
  let firstName := firstNonEmptyAttributeValue entry [DisplayNameAttribute cfg; §"displayName"; §"cn"; §"name"] in
  let lastName := firstNonEmptyAttributeValue entry [SurnameAttribute cfg; §"sn"] in
  let displayName :=
    if bool_decide (TrimSpace firstName = []) then TrimSpace lastName
    else if negb (bool_decide (TrimSpace lastName = []))
            && negb (EqualFold (TrimSpace lastName) (TrimSpace firstName))
    then TrimSpace (firstName ++ §" " ++ lastName) else TrimSpace firstName in
  let name := TrimSpace (GetAttributeValue entry (UsernameAttribute cfg)) in
  Profile (DN entry) (if bool_decide (name = []) then username else name) displayName
    (firstNonEmptyAttributeValue entry [EmailAttribute cfg; §"mail"; §"userPrincipalName"]).

(** ** The group-to-role mapping *)

Definition ErrGroupRoleEntry : error := Errorf §"invalid ldap group_role_mapping entry ".

Definition role_char (b : byte) : bool :=
  in_range b 97 122 || in_range b 65 90 || is_digit b
  || bool_decide (b = "_"%byte) || bool_decide (b = "."%byte) || bool_decide (b = ":"%byte)
  || bool_decide (b = "-"%byte).
(** [^[a-zA-Z0-9_.:-]+$]. *)
Definition ldapRoleTokenPattern (role : bytes) : bool := negb (bool_decide (role = [])) && forallb role_char role.

Fixpoint clean_roles (roles : list bytes) : list bytes + error :=
  match roles with
  | [] => inl []
  | role :: rest =>
      let role := TrimSpace role in
      if bool_decide (role = []) then clean_roles rest
      else if negb (ldapRoleTokenPattern role) then inr ErrGroupRoleEntry
      else match clean_roles rest with inl more => inl (role :: more) | inr e => inr e end
  end.

Definition parseGroupRoleEntry (entry : bytes) : (bytes * list bytes) + error :=
  let trimmed := TrimSpace entry in
  match LastIndexByte trimmed "="%byte with
  | None => inr ErrGroupRoleEntry
  | Some lastEq =>
      if (lastEq =? 0)%nat || (length trimmed - 1 <=? lastEq)%nat then inr ErrGroupRoleEntry
      else
        let groupName := ToLower (TrimSpace (take lastEq trimmed)) in
        let rolesRaw := TrimSpace (drop (S lastEq) trimmed) in
        if bool_decide (groupName = []) then inr ErrGroupRoleEntry
        else if bool_decide (rolesRaw = []) then inr ErrGroupRoleEntry
        else match clean_roles (SplitByte rolesRaw "|"%byte) with
             | inr e => inr e
             | inl [] => inr ErrGroupRoleEntry
             | inl roles => inl (groupName, roles)
             end
  end.

Definition known_roles : list bytes := [§"admin"; §"operator"; §"auditor"; §"user"].
Definition isCompleteGroupRoleEntry (roles : list bytes) : bool :=
  match roles with
  | [] => false
  | [role] => containsString known_roles (ToLower (TrimSpace role))
  | _ => true
  end.

(** The loop over the comma-separated parts: the entries found and the buffer. *)
Definition split_step (st : list bytes * bytes) (part : bytes) : list bytes * bytes :=
  let '(entries, buffer) := st in
  let segment := TrimSpace part in
  if bool_decide (segment = []) then st
  else
    let buffer := if bool_decide (buffer = []) then segment else buffer ++ §"," ++ segment in
    match parseGroupRoleEntry buffer with
    | inl (_, roles) => if isCompleteGroupRoleEntry roles then (entries ++ [buffer], []) else (entries, buffer)
    | inr _ => (entries, buffer)
    end.
Definition splitGroupRoleEntries (raw : bytes) : list bytes + error :=
  let '(entries, buffer) := fold_left split_step (SplitByte raw ","%byte) ([], []) in
  if negb (bool_decide (TrimSpace buffer = [])) then inr ErrGroupRoleEntry
  else if bool_decide (entries = []) then inr ErrGroupRoleEntry
  else inl entries.

Fixpoint appendUnique (existing newValues : list bytes) : list bytes :=
  match newValues with
  | [] => existing
  | role :: rest => appendUnique (if containsString existing role then existing else existing ++ [role]) rest
  end.

Definition add_mapping (m : gmap bytes (list bytes)) (e : bytes * list bytes) : gmap bytes (list bytes) :=
  <[e.1 := appendUnique (default [] (m !! e.1)) e.2]> m.
Fixpoint map_entries (entries : list bytes) (m : gmap bytes (list bytes)) : gmap bytes (list bytes) + error :=
  match entries with
  | [] => inl m
  | entry :: rest =>
      match parseGroupRoleEntry entry with
      | inr e => inr e
      | inl p => map_entries rest (add_mapping m p)
      end
  end.
Definition parseGroupRoleMapping (raw : bytes) : gmap bytes (list bytes) + error :=
  let raw := TrimSpace raw in
  if bool_decide (raw = []) then inl ∅
  else match splitGroupRoleEntries raw with
       | inr e => inr e
       | inl entries => map_entries entries ∅
       end.

(** The roles of a user's groups. *)
Definition mapped_roles (m : gmap bytes (list bytes)) (groupAttr : bytes) (entries : list Entry) : gset bytes :=
  list_to_set (flat_map (λ entry, flat_map (λ key, default [] (m !! key)) (groupMappingKeys entry groupAttr))
                 entries).

(** ** Connection settings *)

Definition ldap_address (cfg : LDAPConfig) : bytes :=
  let address := TrimSpace (URL cfg) in
  if bool_decide (address = []) then
    (if UseTLS cfg then §"ldaps" else §"ldap") ++ §"://" ++ cfg_Host cfg ++ §":" ++ Itoa (cfg_Port cfg)
  else address.

Definition buildLDAPTLSConfig (cfg : LDAPConfig) : TLSConfig + error :=
  let caPEM := TrimSpace (CACertPEM cfg) in
  let caFile := TrimSpace (CACertFile cfg) in
  if bool_decide (caPEM = []) && bool_decide (caFile = [])
  then inl {| tls_skip_verify := InsecureSkipVerify cfg; tls_root_pem := None |}
  else
    match (if bool_decide (caFile = []) then inl caPEM
           else match read_file caFile with
                | inl data => inl data
                | inr e => inr (Wrap §"read ldap ca cert file " e)
                end) with
    | inr e => inr e
    | inl pemData =>
        if pem_has_certificate pemData
        then inl {| tls_skip_verify := InsecureSkipVerify cfg; tls_root_pem := Some pemData |}
        else inr (if bool_decide (caFile = []) then Errorf §"ldap ca cert pem is invalid"
                  else Errorf §"ldap ca cert file ")
    end.

Definition or_default (s d : bytes) : bytes := if bool_decide (TrimSpace s = []) then d else TrimSpace s.

(** The settings an administrator stored, over the deployment's: the part of
    [resolveAuthConfigFromAdmin] after its query. *)
Definition provider_mode_of (r : ldap_row) : bytes :=
  let mode := ToLower (TrimSpace (lr_provider_mode r)) in
  let mode := if containsString [[]; §"local"; §"ldap"; §"hybrid"] mode then mode else §"local" in
  let mode := if lr_enabled r then mode else §"local" in
  if bool_decide (mode = []) then §"local" else mode.
Definition resolved_ldap (r : ldap_row) : LDAPConfig := {|
  URL := TrimSpace (lr_url r);
  cfg_Host := TrimSpace (lr_host r);
  cfg_Port := if lr_port r <=? 0 then 389 else lr_port r;
  BaseDN := TrimSpace (lr_base_dn r);
  BindDN := TrimSpace (lr_bind_dn r);
  BindPassword := TrimSpace (lr_bind_password r);
  CACertFile := [];
  CACertPEM := TrimSpace (lr_ca_cert_pem r);
  UserSearchFilter := or_default (lr_user_search_filter r) §"(&(objectClass=user)({{username_attr}}={{username}}))";
  UsernameAttribute := or_default (lr_username_attribute r) §"sAMAccountName";
  DisplayNameAttribute := or_default (lr_display_name_attribute r) §"displayName";
  SurnameAttribute := or_default (lr_surname_attribute r) §"sn";
  EmailAttribute := or_default (lr_email_attribute r) §"mail";
  SSHKeyAttribute := or_default (lr_ssh_key_attribute r) §"SshPublicKey";
  AvatarAttribute := or_default (lr_avatar_attribute r) §"jpegPhoto";
  UseTLS := lr_use_tls r;
  StartTLS := lr_start_tls r;
  InsecureSkipVerify := lr_insecure_skip_verify r;
  GroupSearchBaseDN := TrimSpace (lr_group_search_base_dn r);
  GroupSearchFilter := or_default (lr_group_search_filter r) §"(&(objectClass=group)(member={{user_dn}}))";
  GroupNameAttribute := or_default (lr_group_name_attribute r) §"cn";
  GroupRoleMappingRaw := TrimSpace (lr_group_role_mapping r) |}.
End Texts.
