(* ===== verification/LdapSpec.v ===== *)
(** What the LDAP text handling promises: search filters keep the shape their
    template gives them whatever name a client sends, and the group-to-role
    mapping reads back what was written, with the cases where it does not. *)
From S2P Require Import Prelude GoStrings GoEncoding GoNet GoTexts Store PgServer Identity Ldap.

(** * Filters keep their shape *)

(** A filter template cut at its placeholders. *)
Inductive piece := Text (b : byte) | TheUsername | TheAttribute | TheUserDN.

Definition placeholders : list (bytes * piece) :=
  [(§"{{username}}", TheUsername); (§"{{username_attr}}", TheAttribute); (§"{{user_dn}}", TheUserDN)].
Fixpoint first_placeholder (ps : list (bytes * piece)) (s : bytes) : option (piece * bytes) :=
  match ps with
  | [] => None
  | (old, p) :: rest => if HasPrefix s old then Some (p, drop (length old) s) else first_placeholder rest s
  end.
Fixpoint cut_template (fuel : nat) (s : bytes) : list piece :=
  match fuel, s with
  | S f, x :: s' =>
      match first_placeholder placeholders s with
      | Some (p, rest) => p :: cut_template f rest
      | None => Text x :: cut_template f s'
      end
  | _, _ => []
  end.
Definition fill (username attr dn : bytes) (p : piece) : bytes :=
  match p with Text b => [b] | TheUsername => username | TheAttribute => attr | TheUserDN => dn end.

(** The documented behaviour of [EscapeFilter] (RFC 4515): its output has no
    parenthesis, asterisk or zero byte. *)
Definition filter_meta (b : byte) : bool :=
  bool_decide (b = "("%byte) || bool_decide (b = ")"%byte) || bool_decide (b = "*"%byte)
  || bool_decide (b = z2b 0).
Class DirectoryLaws `{Directory} := {
  escape_has_no_meta : ∀ s, forallb (λ b, negb (filter_meta b)) (EscapeFilter s) = true;
}.

Section Filters.
Context `{Unicode} `{Directory}.

Lemma replace_cuts username attr dn fuel s :
  replace_runs fuel [(§"{{username}}", username); (§"{{username_attr}}", attr); (§"{{user_dn}}", dn)] s
  = flat_map (fill username attr dn) (cut_template fuel s).
Proof.
  revert s. induction fuel as [|f IH]; intros s; [done|]. destruct s as [|x s]; [done|].
  cbn [replace_runs cut_template first_prefix first_placeholder placeholders].
  repeat (destruct (HasPrefix _ _); [cbn [flat_map fill]; by rewrite IH|]).
  cbn [flat_map fill]. by rewrite IH.
Qed.

(** No name a client sends changes the shape of a search filter: the
    template is cut into literal text and placeholders before the name is
    known, the name only fills placeholders, escaped, so it brings no
    parenthesis, asterisk or zero byte of its own, and a placeholder written
    inside a name is not expanded again. *)
Theorem filter_shape_is_fixed `{!DirectoryLaws} (cfg : LDAPConfig) (template default_ : bytes) :
  ∃ pieces, ∀ username userDN,
    renderFilter cfg template username userDN default_ =
      flat_map (fill (EscapeFilter username) (TrimSpace (UsernameAttribute cfg)) (EscapeFilter userDN)) pieces ∧
    forallb (λ b, negb (filter_meta b)) (EscapeFilter username) = true ∧
    forallb (λ b, negb (filter_meta b)) (EscapeFilter userDN) = true.
Proof.
  unfold renderFilter, Replace. eexists. intros username userDN.
  split_and!; [apply replace_cuts|apply escape_has_no_meta|apply escape_has_no_meta].
Qed.
End Filters.

(** * The group-to-role mapping *)

Lemma role_char_plain b : role_char b = true → plain_byte b = true.
Proof. destruct b; first [by vm_compute|by intros []%diff_false_true]. Qed.
Lemma role_char_not b c : role_char c = false → role_char b = true → b ≠ c.
Proof. intros Hc Hb ->. congruence. Qed.

Lemma token_notin c role : role_char c = false → ldapRoleTokenPattern role = true → c ∉ role.
Proof.
  unfold ldapRoleTokenPattern. intros Hc [_ Hr]%andb_true_iff Hin.
  rewrite forallb_forall in Hr. apply list_elem_of_In, Hr in Hin. congruence.
Qed.

Lemma token_tight role : ldapRoleTokenPattern role = true → tight role = true.
Proof.
  unfold ldapRoleTokenPattern, tight. intros [Hn Hr]%andb_true_iff. gobool.
  rewrite forallb_forall in Hr.
  destruct role as [|a role]; [done|]. cbn [head].
  destruct (last (a :: role)) as [b|] eqn:Hl; [|by apply last_None in Hl].
  apply andb_true_iff. split; apply role_char_plain, Hr; [by left|].
  apply list_elem_of_In. by apply last_Some_elem_of.
Qed.

Lemma containsString_spec items v : containsString items v = true ↔ v ∈ items.
Proof.
  induction items as [|x items IH]; cbn [containsString].
  - split; [done|]. by intros ?%elem_of_nil.
  - rewrite orb_true_iff, bool_decide_eq_true, IH, elem_of_cons. naive_solver.
Qed.

(** A mapping as an administrator writes it: a group's name or DN, cut at its
    commas, and its roles. *)
Definition group_text (segs : list bytes) : bytes := join §"," segs.
Definition entry_text (e : list bytes * list bytes) : bytes :=
  group_text e.1 ++ §"=" ++ join §"|" e.2.
Definition mapping_text (es : list (list bytes * list bytes)) : bytes := join §"," (map entry_text es).

Section Mapping.
Context `{Unicode} `{Directory}.

(** The text so far reads as a complete entry. *)
Definition closes (buffer : bytes) : bool :=
  match parseGroupRoleEntry buffer with inl (_, roles) => isCompleteGroupRoleEntry roles | inr _ => false end.

(** An entry that can be written so that it is read back: each piece of the
    group's name begins and ends with a visible byte, the roles are role tokens
    that the reader takes for a whole entry, and no shorter piece of a DN does. *)
Definition entry_ok (e : list bytes * list bytes) : bool :=
  negb (bool_decide (e.1 = [])) && negb (bool_decide (ToLower (group_text e.1) = []))
  && forallb (λ seg, tight seg && bool_decide (","%byte ∉ seg)) e.1
  && forallb ldapRoleTokenPattern e.2 && isCompleteGroupRoleEntry e.2
  && forallb (λ k, negb (closes (group_text (take k e.1)))) (seq 1 (length e.1 - 1)).

Lemma group_text_tight segs :
  segs ≠ [] → forallb (λ seg, tight seg && bool_decide (","%byte ∉ seg)) segs = true →
  tight (group_text segs) = true.
Proof.
  unfold group_text. induction segs as [|s segs IH]; [done|]. cbn [forallb]. intros _ Hs.
  apply andb_true_iff in Hs as [[Ht _]%andb_true_iff Hs].
  destruct (decide (segs = [])) as [->|Hne]; [done|].
  rewrite join_cons by done. apply tight_app; [done|]. by apply IH.
Qed.

Lemma roles_tight roles :
  roles ≠ [] → forallb ldapRoleTokenPattern roles = true → tight (join §"|" roles) = true.
Proof.
  induction roles as [|r roles IH]; [done|]. cbn [forallb]. intros _ [Hr Hrs]%andb_true_iff.
  destruct (decide (roles = [])) as [->|Hne]; [by apply token_tight|].
  rewrite join_cons by done. apply tight_app; [by apply token_tight|]. by apply IH.
Qed.

Lemma clean_roles_tokens roles : forallb ldapRoleTokenPattern roles = true → clean_roles roles = inl roles.
Proof.
  induction roles as [|r roles IH]; [done|]. cbn [forallb clean_roles]. intros [Hr Hrs]%andb_true_iff.
  rewrite (TrimSpace_tight r) by by apply token_tight. rewrite IH by done.
  rewrite Hr. cbn [negb]. case_bool_decide as Hn; [|done]. by rewrite Hn in Hr.
Qed.

Lemma roles_notin c roles :
  role_char c = false → c ≠ "|"%byte → forallb ldapRoleTokenPattern roles = true → c ∉ join §"|" roles.
Proof.
  intros Hc Hb. induction roles as [|r roles IH]; [intros _; apply not_elem_of_nil|].
  cbn [forallb]. intros [Hr Hrs]%andb_true_iff.
  pose proof (token_notin c r Hc Hr) as Hn.
  destruct (decide (roles = [])) as [->|Hne]; [done|].
  rewrite join_cons by done. rewrite !not_elem_of_app. split_and!; [done| |by apply IH].
  by apply not_elem_of_cons; split; [|apply not_elem_of_nil].
Qed.

Lemma complete_nonempty roles : isCompleteGroupRoleEntry roles = true → roles ≠ [].
Proof. by destruct roles. Qed.

Lemma parse_entry_text segs roles :
  entry_ok (segs, roles) = true →
  parseGroupRoleEntry (entry_text (segs, roles)) = inl (ToLower (group_text segs), roles).
Proof.
  unfold entry_ok, entry_text. cbn [fst snd]. intros Hok.
  apply andb_true_iff in Hok as [[[[[Hs Hl]%andb_true_iff Hseg]%andb_true_iff Hr]%andb_true_iff
    Hc]%andb_true_iff _].
  gobool. apply complete_nonempty in Hc as Hne.
  pose proof (group_text_tight segs Hs Hseg) as Hg. pose proof (roles_tight roles Hne Hr) as Hrt.
  unfold parseGroupRoleEntry. rewrite (TrimSpace_tight (group_text segs ++ §"=" ++ _)) by by apply tight_app.
  change (§"=" ++ join §"|" roles) with ("="%byte :: join §"|" roles).
  rewrite LastIndexByte_app by by apply roles_notin.
  assert (length (group_text segs) ≠ 0%nat) by by destruct (group_text segs).
  assert (length (join §"|" roles) ≠ 0%nat) by by destruct (join §"|" roles).
  rewrite (proj2 (Nat.eqb_neq _ _)) by done. cbn [orb].
  rewrite length_app. cbn [length]. rewrite (proj2 (Nat.leb_gt _ _)) by lia.
  rewrite take_app_length. rewrite (TrimSpace_tight (group_text segs)) by done.
  rewrite (bool_decide_false (ToLower _ = [])) by done.
  replace (drop _ _) with (join §"|" roles).
  2:{ rewrite (cons_middle "="%byte), app_assoc.
      rewrite drop_app_length' by (rewrite length_app; cbn; lia). done. }
  rewrite (TrimSpace_tight (join _ _)) by done.
  rewrite (bool_decide_false (join _ _ = [])) by by destruct (join §"|" roles).
  change (§"|") with ["|"%byte].
  rewrite SplitByte_join, clean_roles_tokens; [|done|done|].
  - by destruct roles.
  - rewrite forallb_forall in Hr. apply Forall_forall. intros x Hx.
    apply (token_notin "|"%byte x); [done|]. by apply Hr, list_elem_of_In.
Qed.

(** ** Splitting a whole mapping *)

Definition comma_tail (tail : bytes) : Prop := tail = [] ∨ ∃ more, tail = ","%byte :: more.
Definition tail_parts (tail : bytes) : list bytes :=
  match tail with [] => [] | _ :: more => SplitByte more ","%byte end.

Lemma SplitByte_tail s tail :
  ","%byte ∉ s → comma_tail tail → SplitByte (s ++ tail) ","%byte = s :: tail_parts tail.
Proof.
  intros Hs [->|[more ->]]; [|by apply SplitByte_cons_notin].
  rewrite app_nil_r. by apply SplitByte_notin.
Qed.

Lemma group_text_snoc pre s : pre ≠ [] → group_text (pre ++ [s]) = group_text pre ++ §"," ++ s.
Proof.
  unfold group_text. induction pre as [|p pre IH]; [done|]. intros _.
  destruct (decide (pre = [])) as [->|Hne]; [done|].
  cbn [app]. rewrite !join_cons by (done || by destruct pre). rewrite IH by done. by rewrite !app_assoc.
Qed.

Definition segs_ok (segs : list bytes) : bool :=
  forallb (λ seg, tight seg && bool_decide (","%byte ∉ seg)) segs.

Lemma segs_ok_app l k : segs_ok (l ++ k) = segs_ok l && segs_ok k.
Proof. apply forallb_app. Qed.

Lemma buffer_step pre text :
  segs_ok pre = true →
  (if bool_decide (group_text pre = []) then text else group_text pre ++ §"," ++ text)
  = match pre with [] => text | _ => group_text pre ++ §"," ++ text end.
Proof.
  intros Hp. destruct pre as [|p pre]; [done|]. rewrite bool_decide_false; [done|].
  pose proof (group_text_tight (p :: pre) ltac:(done) Hp) as Ht. by destruct (group_text (p :: pre)).
Qed.

Lemma split_step_segment es pre s :
  segs_ok (pre ++ [s]) = true → closes (group_text (pre ++ [s])) = false →
  split_step (es, group_text pre) s = (es, group_text (pre ++ [s])).
Proof.
  rewrite segs_ok_app. intros [Hp Hs]%andb_true_iff Hc. cbn in Hs.
  apply andb_true_iff in Hs as [[Ht _]%andb_true_iff _].
  unfold split_step. rewrite (TrimSpace_tight s Ht).
  rewrite (bool_decide_false (s = [])) by by intros ->.
  rewrite buffer_step by done.
  replace (match pre with [] => s | _ :: _ => group_text pre ++ §"," ++ s end) with (group_text (pre ++ [s]))
    by (destruct pre; [done|]; by rewrite group_text_snoc).
  unfold closes in Hc. destruct (parseGroupRoleEntry _) as [[g rs]|]; [|done]. by rewrite Hc.
Qed.

Lemma split_step_last es pre s roles :
  entry_ok (pre ++ [s], roles) = true →
  split_step (es, group_text pre) (s ++ §"=" ++ join §"|" roles) = (es ++ [entry_text (pre ++ [s], roles)], []).
Proof.
  intros Hok. pose proof (parse_entry_text _ _ Hok) as Hparse.
  unfold entry_ok in Hok. cbn [fst snd] in Hok.
  apply andb_true_iff in Hok as [[[[_ Hseg]%andb_true_iff Hr]%andb_true_iff Hc]%andb_true_iff _].
  change (segs_ok (pre ++ [s]) = true) in Hseg. rewrite segs_ok_app in Hseg.
  apply andb_true_iff in Hseg as [Hp Hs]. cbn in Hs.
  apply andb_true_iff in Hs as [[Ht _]%andb_true_iff _].
  pose proof (roles_tight roles (complete_nonempty _ Hc) Hr) as Hrt.
  unfold split_step. rewrite (TrimSpace_tight (s ++ _)) by by apply tight_app.
  rewrite (bool_decide_false (_ ++ _ = [])) by by destruct s.
  rewrite buffer_step by done.
  replace (match pre with [] => _ | _ :: _ => _ end) with (entry_text (pre ++ [s], roles)).
  - by rewrite Hparse, Hc.
  - unfold entry_text. cbn [fst snd]. destruct pre; [done|].
    rewrite group_text_snoc by done. by rewrite !app_assoc.
Qed.

Lemma take_prefix_open pre s rest roles :
  entry_ok (pre ++ s :: rest, roles) = true → rest ≠ [] → closes (group_text (pre ++ [s])) = false.
Proof.
  unfold entry_ok. cbn [fst snd]. intros [_ Ho]%andb_true_iff Hr.
  rewrite forallb_forall in Ho. specialize (Ho (S (length pre))).
  rewrite (cons_middle s), app_assoc, take_app_length' in Ho
    by (rewrite length_app; cbn; lia). gobool.
  apply negb_true_iff, Ho, in_seq. rewrite !length_app. cbn [length].
  destruct rest; [done|cbn; lia].
Qed.

Lemma split_entry segs : ∀ pre roles es tail,
  entry_ok (pre ++ segs, roles) = true → segs ≠ [] → comma_tail tail →
  fold_left split_step (SplitByte (group_text segs ++ §"=" ++ join §"|" roles ++ tail) ","%byte) (es, group_text pre)
  = fold_left split_step (tail_parts tail) (es ++ [entry_text (pre ++ segs, roles)], []).
Proof.
  induction segs as [|s segs IH]; intros pre roles es tail Hok Hne Htail; [done|]. clear Hne.
  pose proof Hok as Hseg. unfold entry_ok in Hseg. cbn [fst snd] in Hseg.
  apply andb_true_iff in Hseg as [[[[_ Hseg]%andb_true_iff Hr]%andb_true_iff Hc]%andb_true_iff _].
  change (segs_ok (pre ++ s :: segs) = true) in Hseg.
  destruct (decide (segs = [])) as [->|Hne].
  - cbn [group_text join]. rewrite !app_assoc, SplitByte_tail; [|clear IH|done].
    + cbn [fold_left]. rewrite <- app_assoc, split_step_last by done. done.
    + rewrite segs_ok_app in Hseg. cbn in Hseg. gobool.
      apply not_elem_of_app. split; [|by apply roles_notin].
      apply not_elem_of_app. split; [done|]. by apply (bool_decide_unpack _); vm_compute.
  - assert (group_text (s :: segs) = s ++ ","%byte :: group_text segs) as -> by by apply join_cons.
    rewrite <- app_assoc. cbn [app]. rewrite SplitByte_cons_notin.
    2:{ rewrite segs_ok_app in Hseg. cbn in Hseg. by gobool. }
    cbn [fold_left]. rewrite split_step_segment.
    + replace (pre ++ s :: segs) with ((pre ++ [s]) ++ segs) in * by (by rewrite <- app_assoc).
      by apply IH.
    + rewrite (cons_middle s), app_assoc, segs_ok_app in Hseg. by apply andb_true_iff in Hseg as [? _].
    + by eapply take_prefix_open.
Qed.

Lemma split_mapping es : ∀ done_,
  forallb entry_ok es = true → es ≠ [] →
  fold_left split_step (SplitByte (mapping_text es) ","%byte) (done_, []) = (done_ ++ map entry_text es, []).
Proof.
  induction es as [|[segs roles] es IH]; intros done_ Hok Hne; [done|]. clear Hne.
  cbn [forallb] in Hok. apply andb_true_iff in Hok as [He Hes].
  assert (segs ≠ []) as Hsegs.
  { unfold entry_ok in He. by destruct segs. }
  destruct (decide (es = [])) as [->|Hne].
  - unfold mapping_text. cbn [map join]. unfold entry_text at 1. cbn [fst snd].
    rewrite <- (app_nil_r (join §"|" roles)).
    apply (split_entry segs [] roles done_ []); [done|done|by left].
  - unfold mapping_text. cbn [map]. rewrite join_cons by by destruct es.
    unfold entry_text at 1. cbn [fst snd]. rewrite <- !app_assoc.
    change (§"," ++ join §"," (map entry_text es)) with (","%byte :: mapping_text es).
    etransitivity; [apply (split_entry segs [] roles done_ (","%byte :: mapping_text es)); [done|done|right; eauto]|].
    cbn [tail_parts app]. rewrite IH by done. by rewrite <- app_assoc.
Qed.

Lemma map_entries_texts es m :
  forallb entry_ok es = true →
  map_entries (map entry_text es) m = inl (fold_left add_mapping (map (λ e, (ToLower (group_text e.1), e.2)) es) m).
Proof.
  revert m. induction es as [|[segs roles] es IH]; intros m; [done|]. cbn [forallb map map_entries].
  intros [He Hes]%andb_true_iff. by rewrite parse_entry_text, IH.
Qed.

Lemma entry_text_tight e : entry_ok e = true → tight (entry_text e) = true.
Proof.
  destruct e as [segs roles]. unfold entry_ok, entry_text. cbn [fst snd]. intros Hok.
  apply andb_true_iff in Hok as [[[[[Hs Hl]%andb_true_iff Hseg]%andb_true_iff Hr]%andb_true_iff
    Hc]%andb_true_iff _]. gobool.
  apply tight_app; [by apply group_text_tight|]. apply roles_tight; [|done].
  by apply complete_nonempty.
Qed.

Lemma mapping_text_tight es : forallb entry_ok es = true → es ≠ [] → tight (mapping_text es) = true.
Proof.
  unfold mapping_text. induction es as [|e es IH]; [done|]. cbn [forallb map].
  intros [He Hes]%andb_true_iff _. destruct (decide (es = [])) as [->|Hne]; [by apply entry_text_tight|].
  rewrite join_cons by by destruct es. apply tight_app; [by apply entry_text_tight|]. by apply IH.
Qed.

(** A group-to-role mapping is read back as it was written: entries with
    several roles or one known role, whose group is a name or a DN no leading
    piece of which reads as an entry itself, give exactly the map of lower-case
    group names to their roles, entries of one group merged without repetition. *)
Theorem parseGroupRoleMapping_mapping_text (es : list (list bytes * list bytes)) :
  forallb entry_ok es = true → es ≠ [] →
  parseGroupRoleMapping (mapping_text es) =
  inl (fold_left add_mapping (map (λ e, (ToLower (group_text e.1), e.2)) es) ∅).
Proof.
  intros Hok Hne. pose proof (mapping_text_tight es Hok Hne) as Ht.
  unfold parseGroupRoleMapping. rewrite (TrimSpace_tight _ Ht), bool_decide_false by by intros E; rewrite E in Ht.
  unfold splitGroupRoleEntries. rewrite split_mapping by done. cbn [app].
  rewrite (bool_decide_false (map _ _ = [])) by by destruct es.
  change (negb (bool_decide (TrimSpace [] = []))) with false. cbv iota. by apply map_entries_texts.
Qed.
End Mapping.

(** * Witnesses and misreadings *)

#[local] Existing Instance ascii_tables.
Definition demo_directory : Directory := {|
  EscapeFilter s := filter (λ b, filter_meta b = false) s;
  dir_dial _ _ _ := None;
  dir_start_tls _ _ := None;
  dir_bind _ _ pw := if bool_decide (pw = §"wrong") then Some 49 else None;
  dir_search _ _ _ _ _ _ := inl [];
  read_file _ := inl [];
  pem_has_certificate _ := true |}.
#[local] Existing Instance demo_directory.

Lemma demo_directory_laws : DirectoryLaws.
Proof.
  split. intros s. apply forallb_forall. intros b Hb%list_elem_of_In.
  cbn in Hb. apply list_elem_of_filter in Hb as [-> _]. done.
Qed.

#[local] Existing Instance demo_directory_laws.

Definition demo_ldap_config : LDAPConfig :=
  resolved_ldap (LdapRow §"ldap" true §"ldap.corp" 389 [] §"dc=corp" [] [] [] [] [] [] [] [] [] [] [] []
    §"pam-ops=operator" [] false false false).

Lemma filter_shape_is_fixed_witness :
  ∃ pieces, renderFilter demo_ldap_config [] §"*)(uid=*" [] defaultLDAPUserSearchFilter
    = flat_map (fill §"uid=" §"sAMAccountName" []) pieces.
Proof.
  destruct (filter_shape_is_fixed demo_ldap_config [] defaultLDAPUserSearchFilter)
    as [pieces Hp].
  exists pieces. destruct (Hp §"*)(uid=*" []) as [-> _]. reflexivity.
Defined.

Definition demo_mapping : list (list bytes * list bytes) :=
  [([§"PAM Operators"], [§"operator"]);
   ([§"cn=pam-admins"; §"ou=groups"; §"dc=corp"; §"dc=com"], [§"admin"; §"auditor"])].

Lemma parseGroupRoleMapping_mapping_text_witness :
  parseGroupRoleMapping §"PAM Operators=operator,cn=pam-admins,ou=groups,dc=corp,dc=com=admin|auditor" =
  inl {[§"pam operators" := [§"operator"]; §"cn=pam-admins,ou=groups,dc=corp,dc=com" := [§"admin"; §"auditor"]]}.
Proof.
  change (§"PAM Operators=operator,cn=pam-admins,ou=groups,dc=corp,dc=com=admin|auditor")
    with (mapping_text demo_mapping).
  rewrite (parseGroupRoleMapping_mapping_text demo_mapping) by by vm_compute.
  apply (bool_decide_unpack _). by vm_compute.
Defined.

(** Two mappings an administrator may well write are read as something
    else, without an error: a DN whose first part names a known role is cut
    there (its group becomes "cn" with that role, and the rest of the DN another
    group), and an entry with one role of the administrator's own swallows the
    next entry, whose group then has the first entry's text in its name. *)
Theorem group_role_mappings_can_be_misread :
  parseGroupRoleMapping §"cn=admin,ou=groups,dc=corp=operator" =
    inl {[§"cn" := [§"admin"]; §"ou=groups,dc=corp" := [§"operator"]]} ∧
  parseGroupRoleMapping §"dbas=db_admin,pam-ops=operator" =
    inl {[§"dbas=db_admin,pam-ops" := [§"operator"]]}.
Proof. split; apply (bool_decide_unpack _); by vm_compute. Qed.
