(* ===== verification/Auth.v ===== *)
(** Logging in: the providers, the service, its sessions, its audit and the
    middleware (apps/api/internal/auth/service.go, local_provider.go,
    ldap_provider.go, provider_factory.go, provider_runtime_config.go, audit.go,
    types.go).

    A call runs in a world: the identity database, the rate limiter, and a
    counter of the calls made outside (clock, random bytes, password hashing,
    directory), whose answers are parameters indexed by it.  A request runs
    from its first statement to its last; requests that overlap are considered
    statement by statement where a theorem says so.  Log lines are not
    modelled. *)
From S2P Require Import Prelude GoStrings GoCrypto GoEncoding Store PgServer Identity RateLimiter Ldap.

(** The process: its clock, [rand.Read] of 32 bytes, and [ctx.Err()]. *)
Class Host := {
  host_now : nat → Z;
  host_random : nat → bytes + error;
  host_ctx_err : nat → option error;
}.
(** golang.org/x/crypto/bcrypt at the default cost; the n-th hash draws a salt. *)
Class Bcrypt := {
  GenerateFromPassword : nat → bytes → bytes + error;
  CompareHashAndPassword : bytes → bytes → bool;
}.

Record world := World { w_store : store; w_limiter : LoginRateLimiter; w_calls : nat }.

Definition on_store {A} (m : M store A) : M world A :=
  zoom w_store (λ s w, World s (w_limiter w) (w_calls w)) m.
Definition outside {A} (f : nat → A) : M world A := λ w,
  (Ok (f (w_calls w)), World (w_store w) (w_limiter w) (S (w_calls w))).
Definition on_limiter {A} (f : LoginRateLimiter → A * LoginRateLimiter) : M world A := λ w,
  let '(a, rl) := f (w_limiter w) in (Ok a, World (w_store w) rl (w_calls w)).
Definition lift {A} (r : A + error) : M world A := match r with inl a => ret a | inr e => fail e end.

(** ** Data *)

Record User := MkUser {
  ID : bytes;
  Username : bytes;
  Email : bytes;
  DisplayName : bytes;
  Roles : list bytes;
  CreatedAt : Z;
}.
Record CurrentUser := MkCurrentUser {
  cu_ID : bytes;
  cu_Username : bytes;
  cu_Email : bytes;
  cu_DisplayName : bytes;
  cu_AuthProvider : bytes;
  cu_Roles : list bytes;
}.
Fixpoint has_role (roles : list bytes) (role : bytes) : bool :=
  match roles with
  | [] => false
  | candidate :: rest => bool_decide (candidate = role) || has_role rest role
  end.
Definition HasRole (u : CurrentUser) (role : bytes) : bool := has_role (cu_Roles u) role.

Record AuthConfig := {
  SessionCookieName : bytes;
  SessionTTL : Z;
  SessionSecure : bool;
  SessionSameSite : bytes;
  DevAdminUsername : bytes;
  DevAdminPassword : bytes;
  DevAdminEmail : bytes;
  DevAdminName : bytes;
  ProviderMode : bytes;
  LDAP : LDAPConfig;
}.
Inductive SameSite := SameSiteNone | SameSiteStrict | SameSiteLax.
Record Cookie := MkCookie {
  c_Name : bytes;
  c_Value : bytes;
  c_Path : bytes;
  c_HttpOnly : bool;
  c_Secure : bool;
  c_SameSite : SameSite;
  c_Expires : Z;
  c_MaxAge : Z;
}.
Record LoginRequest := {
  lq_Username : bytes;
  lq_Password : bytes;
  lq_SourceIP : bytes;
  lq_UserAgent : bytes;
}.
Record ChangePasswordRequest := {
  cp_UserID : bytes;
  cp_CurrentPassword : bytes;
  cp_NewPassword : bytes;
  cp_SourceIP : bytes;
  cp_UserAgent : bytes;
}.

(** ** Errors *)

Definition ErrInvalidCredentials : error := ErrVar §"auth.ErrInvalidCredentials".
Definition ErrUnauthorized : error := ErrVar §"auth.ErrUnauthorized".
Definition ErrUserNotFound : error := ErrVar §"auth.ErrUserNotFound".
Definition ErrRateLimited : error := ErrVar §"auth.ErrRateLimited".
Definition ErrPasswordChangeNotAllowed : error := ErrVar §"auth.ErrPasswordChangeNotAllowed".
Definition ErrInvalidCurrentPassword : error := ErrVar §"auth.ErrInvalidCurrentPassword".
Definition ErrInvalidNewPassword : error := ErrVar §"auth.ErrInvalidNewPassword".

Inductive ldapAuthFailureKind := ldapUserNotFound | ldapInvalidPassword | ldapBindSearchConfig | ldapTLSOrConnectivity.
(** [ldapAuthError.Error]. *)
Definition ldap_text (k : ldapAuthFailureKind) : bytes :=
  match k with
  | ldapUserNotFound => §"ldap authentication failed: user not found"
  | ldapInvalidPassword => §"ldap authentication failed: invalid password"
  | ldapBindSearchConfig => §"ldap authentication failed: bind/search configuration issue"
  | ldapTLSOrConnectivity => §"ldap authentication failed: tls/connectivity issue"
  end.
(** A [*ldapAuthError], by its text and what it unwraps to. *)
Definition ldapAuthError (k : ldapAuthFailureKind) (err : error) : error :=
  Wrap (ldap_text k)
    match k with ldapUserNotFound | ldapInvalidPassword => ErrInvalidCredentials | _ => err end.
(** [errors.As(err, &ldapErr)]. *)
Definition ldap_kind_of (msg : bytes) : option ldapAuthFailureKind :=
  if bool_decide (msg = ldap_text ldapUserNotFound) then Some ldapUserNotFound
  else if bool_decide (msg = ldap_text ldapInvalidPassword) then Some ldapInvalidPassword
  else if bool_decide (msg = ldap_text ldapBindSearchConfig) then Some ldapBindSearchConfig
  else if bool_decide (msg = ldap_text ldapTLSOrConnectivity) then Some ldapTLSOrConnectivity
  else None.
Fixpoint as_ldap_error (e : error) : option ldapAuthFailureKind :=
  match e with
  | Wrap msg e' => match ldap_kind_of msg with Some k => Some k | None => as_ldap_error e' end
  | _ => None
  end.
(** The [*ldap.Error] of a result code. *)
Definition ldap_error (code : Z) : error := ErrVar (§"ldap:" ++ Itoa code).

Definition nullIfEmpty (value : bytes) : option bytes :=
  if bool_decide (TrimSpace value = []) then None else Some (TrimSpace value).
Definition hashSessionToken (token : bytes) : bytes := sha256 token.

Section Auth.
Context `{Unicode} `{Postgres, PostgresText} `{Host} `{Bcrypt} `{Directory}.

(** ** Statements on users, roles and sessions *)

Definition users_named (t : tables) (p : user_row → bool) : list (bytes * user_row) :=
  List.filter (λ q, p q.2) (map_to_list (t_users t)).
Definition user_named (t : tables) (username : bytes) : option (bytes * user_row) :=
  head (users_named t (λ r, bool_decide (u_username r = username))).

Definition roles_of (t : tables) (user : bytes) : list bytes :=
  order_text id (omap (λ p : bytes * bytes, if bool_decide (p.1 = user) then t_roles t !! p.2 else None)
                   (elements (t_user_roles t))).
(** [loadRoles], the same query in the service and in both providers. *)
Definition loadRoles (userID : bytes) : M store (list bytes) :=
  query (λ _ _ t, match pg_uuid userID with
                  | Some u => inl (roles_of t u, t)
                  | None => inr pg_bad_uuid
                  end).

Definition update_user (userID : bytes) (ok : bool) (set : user_row → user_row) : M store unit :=
  query (λ _ _ t, match pg_uuid userID with
                  | None => inr pg_bad_uuid
                  | Some u => if ok then inl (tt, with_users t (alter set u (t_users t))) else inr pg_bad_text
                  end).
Definition set_last_login (now : Z) (r : user_row) : user_row :=
  UserRow (u_username r) (u_email r) (u_display_name r) (u_is_active r) (u_auth_provider r)
    (u_password_hash r) (u_created_at r) (Some now).
Definition set_password (hash : bytes) (r : user_row) : user_row :=
  UserRow (u_username r) (u_email r) (u_display_name r) (u_is_active r) (u_auth_provider r)
    (Some hash) (u_created_at r) (u_last_login_at r).
Definition set_local_password (hash : bytes) (r : user_row) : user_row :=
  UserRow (u_username r) (u_email r) (u_display_name r) (u_is_active r) §"local"
    (Some hash) (u_created_at r) (u_last_login_at r).
Definition set_ldap_login (email name : option bytes) (now : Z) (r : user_row) : user_row :=
  UserRow (u_username r) email name true §"ldap" (u_password_hash r) (u_created_at r) (Some now).

(** ** The local provider *)

Definition select_local_user (username : bytes) : M store (bytes * user_row) :=
  query_row (λ t, if pg_text username
    then inl (head (users_named t (λ r, bool_decide (u_username r = username) && u_is_active r
                                        && bool_decide (u_auth_provider r = §"local"))))
    else inr pg_bad_text).

Definition LocalAuthenticate (username password : bytes) : M world User :=
  let username := TrimSpace username in
  guard! negb (bool_decide (username = []) || bool_decide (TrimSpace password = []))
    else ErrInvalidCredentials in
  let! found := try (on_store (select_local_user username)) in
  match found with
  | inr _ => fail ErrInvalidCredentials
  | inl (id, r) =>
      let passwordHash := default [] (u_password_hash r) in
      guard! negb (bool_decide (passwordHash = [])) else ErrInvalidCredentials in
      guard! CompareHashAndPassword passwordHash password else ErrInvalidCredentials in
      let! roles := wrap_err §"load roles" (on_store (loadRoles id)) in
      let! now := outside host_now in
      do! try (on_store (update_user id true (set_last_login now))) in
      ret (MkUser id (u_username r) (default [] (u_email r)) (default [] (u_display_name r)) roles (u_created_at r))
  end.

(** ** The LDAP provider *)

Record LDAPProvider := MkLDAP { lp_cfg : LDAPConfig; lp_groupRoleMap : gmap bytes (list bytes) }.
Definition NewLDAPProvider (cfg : LDAPConfig) : LDAPProvider + error :=
  match parseGroupRoleMapping (GroupRoleMappingRaw cfg) with
  | inl m => inl (MkLDAP cfg m)
  | inr e => inr e
  end.

Definition no_error (o : option error) : M world unit :=
  match o with Some e => fail e | None => ret tt end.

Definition dial (cfg : LDAPConfig) : M world unit :=
  let address := ldap_address cfg in
  let! tlsConfig := lift (buildLDAPTLSConfig cfg) in
  let! err := outside (λ n, dir_dial n address
    (if HasPrefix (ToLower address) §"ldaps://" then Some tlsConfig else None)) in
  do! no_error err in
  if StartTLS cfg then
    let! err := outside (λ n, dir_start_tls n tlsConfig) in
    no_error err
  else ret tt.

Definition bind_as (dn password : bytes) : M world (option Z) := outside (λ n, dir_bind n dn password).

Definition search_kind (code : Z) : ldapAuthFailureKind :=
  if code =? ErrorNetwork then ldapTLSOrConnectivity else ldapBindSearchConfig.

(** The loop of [lookupUser] over the filters. *)
Fixpoint lookup_filters (cfg : LDAPConfig) (who username : bytes) (filters : list bytes) : M world ldapUserProfile :=
  match filters with
  | [] => fail (ldapAuthError ldapUserNotFound ErrInvalidCredentials)
  | filter :: rest =>
      let! result := outside (λ n, dir_search n who (BaseDN cfg) filter (user_attrs cfg) 2) in
      match result with
      | inr code => fail (ldapAuthError (search_kind code) (Wrap §"ldap user search failed" (ldap_error code)))
      | inl [] => lookup_filters cfg who username rest
      | inl [entry] =>
          let! err := outside host_ctx_err in
          do! no_error err in
          ret (entry_profile cfg username entry)
      | inl _ => fail (ldapAuthError ldapBindSearchConfig (Errorf §"ldap user search returned "))
      end
  end.
Definition lookupUser (cfg : LDAPConfig) (who username : bytes) : M world ldapUserProfile :=
  lookup_filters cfg who username (user_filters cfg username).

Definition resolveMappedRoles (p : LDAPProvider) (who : bytes) (profile : ldapUserProfile) : M world (list bytes) :=
  let cfg := lp_cfg p in
  if bool_decide (lp_groupRoleMap p = ∅) then ret []
  else
    let baseDN := TrimSpace (GroupSearchBaseDN cfg) in
    let baseDN := if bool_decide (baseDN = []) then BaseDN cfg else baseDN in
    let groupAttr := TrimSpace (GroupNameAttribute cfg) in
    let groupAttr := if bool_decide (groupAttr = []) then §"cn" else groupAttr in
    let filter := renderFilter cfg (GroupSearchFilter cfg) (pf_Username profile) (pf_DN profile)
                    defaultLDAPGroupSearchFilter in
    let! result := outside (λ n, dir_search n who baseDN filter [groupAttr] 0) in
    match result with
    | inr code => fail (ldapAuthError (search_kind code) (Wrap §"ldap group search failed" (ldap_error code)))
    | inl entries =>
        let! err := outside host_ctx_err in
        do! no_error err in
        ret (elements (mapped_roles (lp_groupRoleMap p) groupAttr entries))
    end.

(** [INSERT INTO user_roles SELECT $1, r.id FROM roles r WHERE r.name = $2
    ON CONFLICT DO NOTHING]. *)
Definition role_ids (t : tables) (name : bytes) : list bytes :=
  map fst (List.filter (λ p, bool_decide (p.2 = name)) (map_to_list (t_roles t))).
Definition assign_role (userID name : bytes) : M store unit :=
  query (λ _ _ t, match pg_uuid userID with
    | None => inr pg_bad_uuid
    | Some u =>
        if negb (pg_text name) then inr pg_bad_text
        else if negb (bool_decide (role_ids t name = [])) && negb (bool_decide (is_Some (t_users t !! u)))
        then inr pg_constraint
        else inl (tt, with_user_roles t (list_to_set (map (λ r, (u, r)) (role_ids t name)) ∪ t_user_roles t))
    end).
Definition ensureRoleAssignment (userID roleName : bytes) : M store unit :=
  let roleName := TrimSpace roleName in
  if bool_decide (roleName = []) then ret tt
  else
    let! roleExists := wrap_err §"check role " (query (λ _ _ t,
      if pg_text roleName then inl (negb (bool_decide (role_ids t roleName = [])), t) else inr pg_bad_text)) in
    if negb roleExists then ret tt
    else wrap_err §"assign role " (assign_role userID roleName).
Fixpoint assign_roles (userID : bytes) (roles : list bytes) : M store unit :=
  match roles with
  | [] => ret tt
  | role :: rest => do! ensureRoleAssignment userID role in assign_roles userID rest
  end.

Definition pg_opt_text (o : option bytes) : bool := match o with Some s => pg_text s | None => true end.
Definition insert_ldap_user (username : bytes) (email name : option bytes) (now : Z) : M store (bytes * Z) :=
  query (λ clock n t,
    let id := pg_random_uuid n in
    if negb (pg_text username && pg_opt_text email && pg_opt_text name) then inr pg_bad_text
    else if bool_decide (is_Some (t_users t !! id)) || negb (bool_decide (user_named t username = None))
    then inr pg_constraint
    else inl ((id, clock), with_users t
           (<[id := UserRow username email name true §"ldap" None clock (Some now)]> (t_users t)))).

Definition sync_body (now : Z) (profile : ldapUserProfile) (mappedRoles : list bytes) : M store User :=
  let email := nullIfEmpty (pf_Email profile) in
  let name := nullIfEmpty (pf_DisplayName profile) in
  let! existing := try (query_row (λ t,
    if pg_text (pf_Username profile) then inl (user_named t (pf_Username profile)) else inr pg_bad_text)) in
  let! who := (match existing with
    | inl (id, r) =>
        do! wrap_err §"update ldap user"
              (update_user id (pg_opt_text email && pg_opt_text name) (set_ldap_login email name now)) in
        ret (id, u_created_at r)
    | inr e =>
        guard! errors_is e §"pgx.ErrNoRows" else Wrap §"lookup local user" e in
        let! who := wrap_err §"create local user for ldap identity"
          (insert_ldap_user (pf_Username profile) email name now) in
        do! ensureRoleAssignment who.1 §"user" in
        ret who
    end) in
  do! assign_roles who.1 mappedRoles in
  let! roles := wrap_err §"load roles" (loadRoles who.1) in
  ret (MkUser who.1 (pf_Username profile) (pf_Email profile) (pf_DisplayName profile) roles who.2).
Definition syncLocalUser (profile : ldapUserProfile) (mappedRoles : list bytes) : M world User :=
  let! now := outside host_now in
  on_store (transaction §"begin transaction" §"commit ldap user sync transaction" (sync_body now profile mappedRoles)).

Definition LDAPAuthenticate (p : LDAPProvider) (username password : bytes) : M world User :=
  let cfg := lp_cfg p in
  let username := TrimSpace username in
  let password := TrimSpace password in
  guard! negb (bool_decide (username = []) || bool_decide (password = [])) else ErrInvalidCredentials in
  let! dialled := try (dial cfg) in
  match dialled with
  | inr e => fail (ldapAuthError ldapTLSOrConnectivity (Wrap §"connect to ldap server" e))
  | inl _ =>
      let! bound := (if bool_decide (BindDN cfg = []) then ret None else bind_as (BindDN cfg) (BindPassword cfg)) in
      match bound with
      | Some code => fail (ldapAuthError ldapBindSearchConfig (Wrap §"bind ldap service account" (ldap_error code)))
      | None =>
          let! profile := lookupUser cfg (BindDN cfg) username in
          let! bound := bind_as (pf_DN profile) password in
          match bound with
          | Some code =>
              if code =? LDAPResultInvalidCredentials
              then fail (ldapAuthError ldapInvalidPassword (ldap_error code))
              else fail (ldapAuthError ldapBindSearchConfig (Wrap §"bind ldap user" (ldap_error code)))
          | None =>
              let! bound := (if bool_decide (BindDN cfg = []) then ret None
                             else bind_as (BindDN cfg) (BindPassword cfg)) in
              match bound with
              | Some code =>
                  fail (ldapAuthError ldapBindSearchConfig (Wrap §"re-bind ldap service account" (ldap_error code)))
              | None =>
                  let who := if bool_decide (BindDN cfg = []) then pf_DN profile else BindDN cfg in
                  let! mappedRoles := resolveMappedRoles p who profile in
                  syncLocalUser profile mappedRoles
              end
          end
      end
  end.

(** ** Providers *)

Inductive Provider :=
| LocalProvider
| TheLDAPProvider (p : LDAPProvider)
| FallbackProvider (primary fallback : Provider).

Fixpoint Name (p : Provider) : bytes :=
  match p with
  | LocalProvider => §"local"
  | TheLDAPProvider _ => §"ldap"
  | FallbackProvider p q => Name p ++ §"->" ++ Name q
  end.
Fixpoint Authenticate (p : Provider) (username password : bytes) : M world User :=
  match p with
  | LocalProvider => LocalAuthenticate username password
  | TheLDAPProvider p => LDAPAuthenticate p username password
  | FallbackProvider primary fallback =>
      let! r := try (Authenticate primary username password) in
      match r with
      | inl user => ret user
      | inr _ => Authenticate fallback username password
      end
  end.

Definition ErrUnsupportedMode : error := Errorf §"unsupported auth provider mode ".
Definition NewProvider (cfg : AuthConfig) : Provider + error :=
  let mode := ToLower (TrimSpace (ProviderMode cfg)) in
  if bool_decide (mode = []) || bool_decide (mode = §"local") then inl LocalProvider
  else if bool_decide (mode = §"ldap") then
    match NewLDAPProvider (LDAP cfg) with inl p => inl (TheLDAPProvider p) | inr e => inr e end
  else if bool_decide (mode = §"hybrid") then
    match NewLDAPProvider (LDAP cfg) with
    | inl p => inl (FallbackProvider (TheLDAPProvider p) LocalProvider)
    | inr e => inr e
    end
  else inr ErrUnsupportedMode.
End Auth.
