(* ===== verification/Admin.v ===== *)
(** The administration of users, roles, groups, grants and assets
    (apps/api/internal/admin/service.go) on the identity database.

    bcrypt draws a salt: the operations that hash take its number.  The
    description of a role and the table asset_protocols, which no other code
    reads, are not kept. *)
From S2P Require Import Prelude GoStrings GoEncoding Store PgServer Identity RateLimiter Ldap Auth Access Assets.

Definition ErrUserNotFound : error := ErrVar §"admin.ErrUserNotFound".
Definition ErrRoleNotFound : error := ErrVar §"admin.ErrRoleNotFound".
Definition ErrGroupNotFound : error := ErrVar §"admin.ErrGroupNotFound".
Definition ErrAssetNotFound : error := ErrVar §"admin.ErrAssetNotFound".

Record UserSummary := MkUserSummary {
  us_ID : bytes;
  us_Username : bytes;
  us_Email : bytes;
  us_DisplayName : bytes;
  us_AuthProvider : bytes;
  us_IsActive : bool;
  us_Roles : list bytes;
}.
Record Role := MkRole { ro_ID : bytes; ro_Name : bytes }.
Record GroupSummary := MkGroupSummary {
  gs_ID : bytes;
  gs_Name : bytes;
  gs_Description : bytes;
  gs_MemberCount : Z;
}.
(** The fields of a summary, and the groups. *)
Record UserDetail := MkUserDetail { ud_User : UserSummary; ud_Groups : list GroupSummary }.
Record GroupMember := MkGroupMember {
  gm_ID : bytes;
  gm_Username : bytes;
  gm_Email : bytes;
  gm_DisplayName : bytes;
}.
Record AssetSummary := MkAssetSummary {
  asu_ID : bytes;
  asu_Name : bytes;
  asu_Type : bytes;
  asu_Host : bytes;
  asu_Port : Z;
  asu_GrantCount : Z;
  asu_CredentialCount : Z;
}.
Record GrantRecord := MkGrantRecord {
  gt_SubjectType : bytes;
  gt_SubjectID : bytes;
  gt_SubjectName : bytes;
  gt_AssetID : bytes;
  gt_AssetName : bytes;
  gt_Action : bytes;
  gt_Effect : bytes;
  gt_CreatedAt : Z;
}.
Record EffectiveAction := MkEffectiveAction { ea_Action : bytes; ea_Sources : list bytes }.
Record EffectiveAccess := MkEffectiveAccess {
  ef_AssetID : bytes;
  ef_AssetName : bytes;
  ef_Actions : list EffectiveAction;
}.
Record CredentialAuditInput := MkCredentialAudit {
  ca_ActorUserID : bytes;
  ca_AssetID : bytes;
  ca_CredentialType : bytes;
  ca_Username : bytes;
  ca_MetadataKeys : list bytes;
  ca_SourceIP : bytes;
  ca_UserAgent : bytes;
}.
Record effectiveAccessRow := EffectiveRow { er_assetID : bytes; er_assetName : bytes; er_action : bytes; er_source : bytes }.
Record CreateUserInput := MkCreateUser {
  cu_in_Username : bytes;
  cu_in_Password : bytes;
  cu_in_Email : bytes;
  cu_in_DisplayName : bytes;
}.
Record UpdateUserInput := MkUpdateUser { uu_Email : option bytes; uu_DisplayName : option bytes }.

Definition isActionAllowedForAssetType (action assetType : bytes) : bool :=
  let ty := TrimSpace assetType in
  if bool_decide (ty = §"linux_vm") then bool_decide (action = §"shell") || bool_decide (action = §"sftp")
  else if bool_decide (ty = §"database") then bool_decide (action = §"dbeaver")
  else if bool_decide (ty = §"redis") then bool_decide (action = §"redis")
  else false.

(** [strconv.Quote] of a text that is not printable ASCII. *)
Class UnicodeQuote := { uni_quote : bytes → bytes }.
Definition is_plain (b : byte) : bool :=
  (32 <=? b2z b) && (b2z b <? 127) && negb (b2z b =? 34) && negb (b2z b =? 92).
Definition Quote `{UnicodeQuote} (s : bytes) : bytes :=
  if forallb is_plain s then quote_byte :: s ++ [quote_byte] else uni_quote s.

Section Service.
Context `{Postgres, PostgresText} `{Bcrypt} `{UnicodeQuote}.

(** A read of which the parameter is a uuid. *)
Definition read_by_id {A} (msg id : bytes) (q : tables → bytes → A) : M store A :=
  wrap_err msg (query (λ _ _ t, match pg_uuid id with Some u => inl (q t u, t) | None => inr pg_bad_uuid end)).
Definition userExists (userID : bytes) : M store bool :=
  read_by_id §"check user exists" userID (λ t u, bool_decide (is_Some (t_users t !! u))).
Definition groupExists (groupID : bytes) : M store bool :=
  read_by_id §"check group exists" groupID (λ t u, bool_decide (is_Some (t_groups t !! u))).
Definition assetExists (assetID : bytes) : M store bool :=
  read_by_id §"check asset exists" assetID
    (λ t u, match t_assets t !! u with Some r => is_live r | None => false end).

Definition assetTypeByID (assetID : bytes) : M store bytes :=
  let! ty := no_rows_as ErrAssetNotFound §"fetch asset type"
    (query_row (λ t, match pg_uuid assetID with
                     | Some u => inl (p_type <$> t_assets t !! u)
                     | None => inr pg_bad_uuid
                     end)) in
  ret (TrimSpace ty).
Definition roleIDByName (roleName : bytes) : M store bytes :=
  query_row (λ t, if pg_text roleName
    then inl (fst <$> head (List.filter (λ p, bool_decide (p.2 = roleName)) (map_to_list (t_roles t))))
    else inr pg_bad_text).

(** ** Reports *)

Definition summary_of (t : tables) (p : bytes * user_row) : UserSummary :=
  MkUserSummary p.1 (u_username p.2) (default [] (u_email p.2)) (default [] (u_display_name p.2))
    (u_auth_provider p.2) (u_is_active p.2) (roles_of t p.1).
Definition ListUsers : M store (list UserSummary) :=
  wrap_err §"list users" (query (λ _ _ t,
    inl (order_text us_Username (map (summary_of t) (map_to_list (t_users t))), t))).

(** The groups a user is in, as two joined tables. *)
Definition groups_of (t : tables) (user : bytes) : list (bytes * group_row) :=
  omap (λ p : bytes * bytes, if bool_decide (p.1 = user) then pair p.2 <$> t_groups t !! p.2 else None)
    (elements (t_user_groups t)).
Definition GetUserDetail (userID : bytes) : M store UserDetail :=
  let! user := no_rows_as ErrUserNotFound §"get user detail"
    (query_row (λ t, match pg_uuid (TrimSpace userID) with
                     | Some u => inl ((λ r, summary_of t (u, r)) <$> t_users t !! u)
                     | None => inr pg_bad_uuid
                     end)) in
  let! groups := read_by_id §"list user groups" (us_ID user) (λ t u,
    order_text gs_Name (map (λ g, MkGroupSummary g.1 (gr_name g.2) (default [] (gr_description g.2)) 0) (groups_of t u))) in
  ret (MkUserDetail user groups).
Definition ListRoles : M store (list Role) :=
  wrap_err §"list roles" (query (λ _ _ t,
    inl (order_text ro_Name (map (λ p, MkRole p.1 p.2) (map_to_list (t_roles t))), t))).

Definition members (t : tables) (group : bytes) : list bytes :=
  omap (λ p : bytes * bytes, if bool_decide (p.2 = group) then Some p.1 else None) (elements (t_user_groups t)).
Definition ListGroups : M store (list GroupSummary) :=
  wrap_err §"list groups" (query (λ _ _ t,
    inl (order_text gs_Name (map (λ g, MkGroupSummary g.1 (gr_name g.2) (default [] (gr_description g.2))
                                         (zlen (members t g.1))) (map_to_list (t_groups t))), t))).

(** The check that opens an operation on a user, a group or an asset. *)
Definition existing {A} (ok : bool) (msg : bytes) (check : M store bool) (missing : error) (m : M store A) : M store A :=
  guard! ok else Errorf msg in
  let! exists_ := check in
  guard! exists_ else missing in m.
Definition given (id : bytes) : bool := negb (bool_decide (id = [])).

Definition ListGroupMembers (groupID : bytes) : M store (list GroupMember) :=
  let gid := TrimSpace groupID in
  existing (given gid) §"group id is required" (groupExists gid) ErrGroupNotFound
    (read_by_id §"list group members" gid (λ t g,
      order_text gm_Username (omap (λ u, (λ r, MkGroupMember u (u_username r) (default [] (u_email r))
                                                 (default [] (u_display_name r))) <$> t_users t !! u) (members t g)))).

(** The grants of a report: [name] is the subject's, [None] when an inner join
    leaves the row out. *)
Definition grant_record (t : tables) (name : grant_key → option bytes) (g : grant_key * grant_row) : option GrantRecord :=
  a ← t_assets t !! g_asset g.1;
  n ← name g.1;
  Some (MkGrantRecord (g_type g.1) (g_subject g.1) n (g_asset g.1) (p_name a) (g_action g.1) (g_effect g.2) (g_created_at g.2)).
Definition grant_records (t : tables) (which : grant_key → bool) (name : grant_key → option bytes) : list GrantRecord :=
  omap (grant_record t name) (List.filter (λ g, which g.1) (map_to_list (t_grants t))).
(** [ORDER BY a.name, ag.action], and with the subject before them. *)
Definition by_asset (l : list GrantRecord) : list GrantRecord := order_text gt_AssetName (order_text gt_Action l).
Definition by_subject (l : list GrantRecord) : list GrantRecord :=
  order_text gt_SubjectType (order_text gt_SubjectName (order_text gt_Action l)).
Definition group_name (t : tables) (k : grant_key) : option bytes := gr_name <$> t_groups t !! g_subject k.
Definition user_name (t : tables) (k : grant_key) : option bytes := u_username <$> t_users t !! g_subject k.
Definition subject_name (t : tables) (k : grant_key) : option bytes :=
  Some (default (g_subject k)
    (if bool_decide (g_type k = §"user") then user_name t k
     else if bool_decide (g_type k = §"group") then group_name t k else None)).

Definition ListGroupGrants (groupID : bytes) : M store (list GrantRecord) :=
  let gid := TrimSpace groupID in
  existing (given gid) §"group id is required" (groupExists gid) ErrGroupNotFound
    (read_by_id §"list group grants" gid (λ t g, by_asset
      (grant_records t (λ k, bool_decide (g_type k = §"group") && bool_decide (g_subject k = g)) (group_name t)))).
Definition ListAssetGrants (assetID : bytes) : M store (list GrantRecord) :=
  let aid := TrimSpace assetID in
  existing (given aid) §"asset id is required" (assetExists aid) ErrAssetNotFound
    (read_by_id §"list asset grants" aid (λ t a, by_subject
      (grant_records t (λ k, bool_decide (g_asset k = a)) (subject_name t)))).
Definition ListUserDirectGrants (userID : bytes) : M store (list GrantRecord) :=
  let uid := TrimSpace userID in
  existing (given uid) §"user id is required" (userExists uid) ErrUserNotFound
    (read_by_id §"list user grants" uid (λ t u, by_asset
      (grant_records t (λ k, bool_decide (g_type k = §"user") && bool_decide (g_subject k = u)) (user_name t)))).

Definition count {K V} `{Countable K} (p : K → bool) (m : gmap K V) : Z :=
  zlen (List.filter (λ e, p e.1) (map_to_list m)).
Definition ListAssets : M store (list AssetSummary) :=
  wrap_err §"list assets" (query (λ _ _ t,
    inl (order_text asu_Name (map (λ p : bytes * point_row,
           MkAssetSummary p.1 (p_name p.2) (p_type p.2) (p_host p.2) (p_port p.2)
             (count (λ k, bool_decide (g_asset k = p.1)) (t_grants t))
             (count (λ k : bytes * bytes, bool_decide (k.1 = p.1)) (t_credentials t)))
         (List.filter (λ p, is_live p.2) (map_to_list (t_assets t)))), t))).

(** ** Roles *)

Definition role_of (roleName : bytes) : M store bytes := λ s,
  match roleIDByName roleName s with
  | (Err e, s') => (Err (if errors_is e §"pgx.ErrNoRows" then ErrRoleNotFound else e), s')
  | r => r
  end.
Definition change_role (msg userID roleName : bytes) (q : tables → bytes → bytes → (unit * tables) + error) : M store unit :=
  let uid := TrimSpace userID in
  let role := TrimSpace roleName in
  existing (given uid && given role) §"user id and role name are required" (userExists uid) ErrUserNotFound
    (let! roleID := role_of role in
     wrap_err msg (query (λ _ _ t, match pg_uuid uid with Some u => q t u roleID | None => inr pg_bad_uuid end))).
Definition AssignRoleToUser (userID roleName : bytes) : M store unit :=
  change_role §"assign role to user" userID roleName (λ t u r,
    if bool_decide (is_Some (t_users t !! u)) && bool_decide (is_Some (t_roles t !! r))
    then inl (tt, with_user_roles t ({[(u, r)]} ∪ t_user_roles t)) else inr pg_constraint).
Definition RemoveRoleFromUser (userID roleName : bytes) : M store unit :=
  change_role §"remove role from user" userID roleName (λ t u r,
    inl (tt, with_user_roles t (t_user_roles t ∖ {[(u, r)]}))).

(** ** Grants *)

Definition GrantUserAllow (userID assetID action : bytes) (createdBy : option bytes) : M store unit :=
  let uid := TrimSpace userID in
  let aid := TrimSpace assetID in
  let act := TrimSpace action in
  guard! given uid && given aid && given act else Errorf §"user id, asset id, and action are required" in
  existing (isSupportedAction act) (§"unsupported action: " ++ act) (userExists uid) ErrUserNotFound
    (let! exists_ := assetExists aid in
     guard! exists_ else ErrAssetNotFound in
     let! assetType := assetTypeByID aid in
     guard! isActionAllowedForAssetType act assetType
       else Errorf (§"action " ++ Quote act ++ §" is not allowed for asset type " ++ Quote assetType) in
     wrap_err §"grant user allow access" (query (λ now _ t,
       match pg_uuid uid, pg_uuid aid, (match createdBy with Some c => Some <$> pg_uuid c | None => Some None end) with
       | Some u, Some a, Some by_ =>
           if bool_decide (is_Some (t_assets t !! a))
              && match by_ with Some c => bool_decide (is_Some (t_users t !! c)) | None => true end
           then inl (tt, allow_grant t now (GrantKey §"user" u a act) by_)
           else inr pg_constraint
       | _, _, _ => inr pg_bad_uuid
       end))).
Definition RevokeUserAllow (userID assetID action : bytes) : M store unit :=
  let uid := TrimSpace userID in
  let aid := TrimSpace assetID in
  let act := TrimSpace action in
  existing (given uid && given aid && given act) §"user id, asset id, and action are required" (userExists uid) ErrUserNotFound
    (wrap_err §"revoke user allow access" (query (λ _ _ t,
       match pg_uuid uid, pg_uuid aid with
       | Some u, Some a =>
           if pg_text act then inl (tt, with_grants t (delete (GrantKey §"user" u a act) (t_grants t))) else inr pg_bad_text
       | _, _ => inr pg_bad_uuid
       end))).

(** ** Effective access *)

(** The two halves of the [UNION ALL]: the user's own grants, and those of the
    groups the user is in. *)
Definition direct_row (t : tables) (user : bytes) (g : grant_key * grant_row) : option effectiveAccessRow :=
  if bool_decide (g_effect g.2 = §"allow") && bool_decide (g_type g.1 = §"user") && bool_decide (g_subject g.1 = user)
  then (λ a, EffectiveRow (g_asset g.1) (p_name a) (g_action g.1) §"direct") <$> t_assets t !! g_asset g.1 else None.
Definition group_row_of (t : tables) (user : bytes) (g : grant_key * grant_row) : option effectiveAccessRow :=
  if bool_decide (g_effect g.2 = §"allow") && bool_decide (g_type g.1 = §"group")
     && bool_decide ((user, g_subject g.1) ∈ t_user_groups t)
  then a ← t_assets t !! g_asset g.1; n ← group_name t g.1;
       Some (EffectiveRow (g_asset g.1) (p_name a) (g_action g.1) (§"group:" ++ n))
  else None.
Definition effective_rows (t : tables) (user : bytes) : list effectiveAccessRow :=
  let grants := map_to_list (t_grants t) in
  order_text er_assetName (order_text er_action (order_text er_source
    (omap (direct_row t user) grants ++ omap (group_row_of t user) grants))).

(** [assets] and [assetOrder] of the aggregation: in order of appearance, the
    asset with its name in the first row and the set of sources of each action. *)
Definition asset_states : Type := list (bytes * (bytes * gmap bytes (gset bytes))).
Definition add_source (action source : bytes) (actions : gmap bytes (gset bytes)) : gmap bytes (gset bytes) :=
  <[action := {[source]} ∪ default ∅ (actions !! action)]> actions.
Fixpoint add_row (row : effectiveAccessRow) (states : asset_states) : asset_states :=
  match states with
  | [] => [(er_assetID row, (er_assetName row, add_source (er_action row) (er_source row) ∅))]
  | (id, (name, actions)) :: rest =>
      if bool_decide (id = er_assetID row)
      then (id, (name, add_source (er_action row) (er_source row) actions)) :: rest
      else (id, (name, actions)) :: add_row row rest
  end.
Definition effective_of (state : bytes * (bytes * gmap bytes (gset bytes))) : EffectiveAccess :=
  let '(id, (name, actions)) := state in
  MkEffectiveAccess id name (map (λ action, MkEffectiveAction action (sort_strings (elements (default ∅ (actions !! action)))))
                               (sort_strings (elements (dom actions)))).
Definition aggregateEffectiveAccess (rows : list effectiveAccessRow) : list EffectiveAccess :=
  map effective_of (fold_left (λ states row, add_row row states) rows []).

Definition UserEffectiveAccess (userID : bytes) : M store (list EffectiveAccess) :=
  let uid := TrimSpace userID in
  existing (given uid) §"user id is required" (userExists uid) ErrUserNotFound
    (let! flat := read_by_id §"resolve user effective access" uid effective_rows in
     ret (aggregateEffectiveAccess flat)).

(** ** Users *)

Definition bcryptHash (salt : nat) (password : bytes) : M store bytes :=
  match GenerateFromPassword salt password with inl h => ret h | inr e => fail e end.

Definition CreateUser (salt : nat) (input : CreateUserInput) : M store UserSummary :=
  let username := TrimSpace (cu_in_Username input) in
  let password := TrimSpace (cu_in_Password input) in
  let email := TrimSpace (cu_in_Email input) in
  let displayName := TrimSpace (cu_in_DisplayName input) in
  guard! given username else Errorf §"username is required" in
  guard! negb ((length username <? 2)%nat || (64 <? length username)%nat)
    else Errorf §"username must be between 2 and 64 characters" in
  guard! given password else Errorf §"password is required" in
  guard! negb (length password <? 8)%nat else Errorf §"password must be at least 8 characters" in
  let! hash := wrap_err §"hash password" (bcryptHash salt password) in
  let! r := try (query (λ now n t,
    if pg_text username && pg_text hash && pg_text email && pg_text displayName
    then match user_named t username with
         | Some _ => inr pg_constraint
         | None =>
             let id := pg_random_uuid n in
             if bool_decide (t_users t !! id = None)
             then inl (id, with_users t (<[id := UserRow username (if bool_decide (email = []) then None else Some email)
                         (if bool_decide (displayName = []) then None else Some displayName) true §"local"
                         (Some hash) now None]> (t_users t)))
             else inr pg_constraint
         end
    else inr pg_bad_text)) in
  match r with
  | inr e =>
      (** [strings.Contains(err.Error(), ...)]: a violated constraint. *)
      if bool_decide (e = pg_constraint) then fail (Errorf (§"username " ++ Quote username ++ §" already exists"))
      else fail (Wrap §"create user" e)
  | inl userID => ret (MkUserSummary userID username email displayName §"local" true [])
  end.

(** A statement on one user's row. *)
Definition write_user (msg userID : bytes) (ok : bool) (set : user_row → user_row) : M store unit :=
  wrap_err msg (update_user userID ok set).
Definition set_profile (email displayName : bytes) (r : user_row) : user_row :=
  UserRow (u_username r) (if bool_decide (email = []) then u_email r else Some email)
    (if bool_decide (displayName = []) then u_display_name r else Some displayName)
    (u_is_active r) (u_auth_provider r) (u_password_hash r) (u_created_at r) (u_last_login_at r).
Definition set_active (active : bool) (r : user_row) : user_row :=
  UserRow (u_username r) (u_email r) (u_display_name r) active (u_auth_provider r) (u_password_hash r)
    (u_created_at r) (u_last_login_at r).

Definition UpdateUser (userID : bytes) (input : UpdateUserInput) : M store unit :=
  let id := TrimSpace userID in
  existing (given id) §"user id is required" (userExists id) ErrUserNotFound
    (let email := TrimSpace (default [] (uu_Email input)) in
     let display := TrimSpace (default [] (uu_DisplayName input)) in
     write_user §"update user" id (pg_text email && pg_text display) (set_profile email display)).
Definition SetUserActive (userID : bytes) (active : bool) : M store unit :=
  let id := TrimSpace userID in
  existing (given id) §"user id is required" (userExists id) ErrUserNotFound
    (write_user §"set user active" id true (set_active active)).
Definition ResetUserPassword (salt : nat) (userID newPassword : bytes) : M store unit :=
  let id := TrimSpace userID in
  let password := TrimSpace newPassword in
  guard! given id else Errorf §"user id is required" in
  existing (negb (length password <? 8)%nat) §"password must be at least 8 characters" (userExists id) ErrUserNotFound
    (let! hash := wrap_err §"hash password" (bcryptHash salt password) in
     write_user §"reset user password" id (pg_text hash) (set_password hash)).

(** ** Assets *)

(** [name LIKE '% [deleted-%]']. *)
Definition names_deleted (name : bytes) : bool :=
  HasSuffix name §"]" && Contains (removelast name) §" [deleted-".
Definition archive (id : bytes) (r : point_row) : point_row :=
  PointRow (if names_deleted (p_name r) then p_name r else p_name r ++ §" [deleted-" ++ take 8 id ++ §"]")
    (p_type r) (p_host r) (p_port r) (p_metadata r) §"deleted" (p_created_by r) (p_created_at r).
Definition exec_for (msg id : bytes) (q : tables → bytes → tables + error) : M store unit :=
  wrap_err msg (query (λ _ _ t, match pg_uuid id with
    | Some a => match q t a with inl t' => inl (tt, t') | inr e => inr e end
    | None => inr pg_bad_uuid
    end)).
Definition DeleteAsset (assetID : bytes) : M store unit :=
  let id := TrimSpace assetID in
  existing (given id) §"asset id is required" (assetExists id) ErrAssetNotFound
    (transaction §"begin transaction" §"commit archive asset"
      (do! exec_for §"delete asset grants" id (λ t a,
         inl (with_grants t (filter (λ g, g_asset g.1 ≠ a) (t_grants t)))) in
       do! exec_for §"delete asset credentials" id (λ t a,
         inl (with_credentials t (filter (λ c, c.1.1 ≠ a) (t_credentials t)))) in
       do! exec_for §"delete asset protocols" id (λ t a, inl t) in
       exec_for §"archive asset" id (λ t a,
         match t_assets t !! a with
         | None => inl t
         | Some r =>
             let r' := archive a r in
             if match find_place t (p_name r') (p_host r') (p_port r') with
                | Some (other, _) => bool_decide (other = a) | None => true end
             then inl (with_assets t (<[a := r']> (t_assets t))) else inr pg_constraint
         end))).

(** ** Audit *)

Definition RecordCredentialUpsertAudit (input : CredentialAuditInput) : M store unit :=
  let actor := TrimSpace (ca_ActorUserID input) in
  let asset := TrimSpace (ca_AssetID input) in
  let ty := TrimSpace (ca_CredentialType input) in
  let ip := TrimSpace (ca_SourceIP input) in
  let agent := TrimSpace (ca_UserAgent input) in
  guard! given actor && given asset && given ty
    else Errorf §"actor user id, asset id, and credential type are required" in
  wrap_err §"insert admin credential audit event" (query (λ _ _ t,
    match pg_uuid actor, pg_uuid asset, (if bool_decide (ip = []) then Some None else Some <$> pg_inet ip) with
    | Some act, Some a, Some source =>
        if forallb (λ v, bool_decide (z2b 0 ∉ v)) (ty :: ca_MetadataKeys input) && pg_text agent
        then if bool_decide (is_Some (t_users t !! act)) && bool_decide (is_Some (t_assets t !! a))
             then inl (tt, with_audit_events t (t_audit_events t ++
                    [LoginAudit §"admin_action" §"credential_upsert" §"success" (Some act) (Some a) source agent
                       (list_to_map [(§"credential_type", JStr (json_text ty));
                          (§"username_set", JBool (negb (bool_decide (TrimSpace (ca_Username input) = []))));
                          (§"metadata_keys", JArr (map (λ k, JStr (json_text k)) (ca_MetadataKeys input)))])]))
             else inr pg_constraint
        else inr pg_bad_text
    | _, _, _ => inr pg_bad_uuid
    end)).
End Service.
