(* ===== verification/Http.v ===== *)
(** The handlers of apps/api/internal/handlers as functions on a state: a
    handler writes one answer, [writeJSON(w, code, payload)], and a statement
    after it is an early return.  The answer of a request is a value: the status
    with the payload of a success, or with the text of an error.

    Also how a body is read, [json.NewDecoder(r.Body).Decode] into a struct. *)
From S2P Require Import Prelude GoStrings GoEncoding Tokens.

Inductive reply (A : Type) :=
| Reply (code : Z) (payload : A)
| ReplyError (code : Z) (msg : bytes).
Arguments Reply {A} code payload.
Arguments ReplyError {A} code msg.

Definition StatusOK : Z := 200.
Definition StatusAccepted : Z := 202.
Definition StatusBadRequest : Z := 400.
Definition StatusUnauthorized : Z := 401.
Definition StatusForbidden : Z := 403.
Definition StatusNotFound : Z := 404.
Definition StatusInternalServerError : Z := 500.

(** A part of a handler: it goes on with a value, or has answered. *)
Definition part (S R A : Type) : Type := M S (A + reply R).

Section Parts.
Context {S R : Type}.
Definition go_on {A} (a : A) : part S R A := ret (inl a).
Definition answer {A} (p : reply R) : part S R A := ret (inr p).
Definition stop {A} (code : Z) (msg : bytes) : part S R A := answer (ReplyError code msg).
Definition and_then {A B} (m : part S R A) (k : A → part S R B) : part S R B :=
  let! r := m in match r with inl a => k a | inr p => ret (inr p) end.
(** [v, err := m(); if err != nil { h(err); return }]. *)
Definition attempt {A} (m : M S A) (h : error → reply R) : part S R A :=
  let! r := try m in ret match r with inl a => inl a | inr e => inr (h e) end.
Definition or_500 {A} (m : M S A) (msg : bytes) : part S R A :=
  attempt m (λ _, ReplyError StatusInternalServerError msg).
(** A pure call that may fail. *)
Definition or_stop {A} (r : A + error) (code : Z) (msg : bytes) : part S R A :=
  match r with inl a => go_on a | inr _ => stop code msg end.
Definition need {A} (o : option A) (code : Z) (msg : bytes) : part S R A :=
  match o with Some a => go_on a | None => stop code msg end.
Definition require (b : bool) (code : Z) (msg : bytes) : part S R unit :=
  if b then go_on tt else stop code msg.
(** A handler is a part that always answers. *)
Definition handler (m : part S R (reply R)) : M S (reply R) :=
  let! r := m in ret match r with inl p => p | inr p => p end.
End Parts.

Notation "'step!' x ':=' m 'in' k" := (and_then m (λ x, k))
  (at level 10, x pattern, m at level 100, k at level 200,
   format "'[v' 'step!'  x  ':='  m  'in' '/' k ']'") : monad_scope.
Notation "'then!' m 'in' k" := (and_then m (λ _, k))
  (at level 10, m at level 100, k at level 200,
   format "'[v' 'then!'  m  'in' '/' k ']'") : monad_scope.

(** A struct decoded from a JSON value, given how one field is assigned. *)
Definition decode_value `{Unicode} {T} (zero : T) (names : list bytes) (assign : bytes → json → T → option T)
    (v : json) : option T :=
  match v with
  | JObj fs =>
      fold_left (λ acc f,
        c ← acc;
        match struct_field names f.1 with
        | Some n => assign n f.2 c
        | None => Some c
        end) fs (Some zero)
  | JNull => Some zero
  | _ => None
  end.
(** [json.Unmarshal] takes the whole text, [Decoder.Decode] the first value: an
    object ends at its brace, any other value at a space or the end. *)
Definition Unmarshal `{Unicode} {T} (zero : T) names assign (body : bytes) : option T :=
  v ← json_parse body; decode_value (T:=T) zero names assign v.
Definition Decode `{Unicode} {T} (zero : T) names assign (body : bytes) : option T :=
  '(v, rest) ← parse_value (S (2 * length body)) max_depth body;
  match v, rest with
  | JObj _, _ | JArr _, _ | _, [] => decode_value (T:=T) zero names assign v
  | _, b :: _ => if is_json_space b then decode_value zero names assign v else None
  end.
