(* ===== verification/Launch.v ===== *)
(** The launch of a session (apps/api/internal/handlers/sessions.go: Launch and
    what it calls), on one database and the proxies: the asset, the access
    check, the session row with its tokens, the credential, the registration of
    the session with its proxy, and the answer. *)
From S2P Require Import Prelude GoStrings GoEncoding GoNet Tokens ProxyEvents Store PgServer Identity RateLimiter Ldap Auth Http Access Assets Credentials Redis Mysql Pg Mssql Mongo Sessions.

(** * The state *)

Inductive registration :=
| RegisterMysql (reg : Mysql.SessionRegistration)
| RegisterMssql (reg : Mssql.SessionRegistration)
| RegisterMongo (reg : Mongo.SessionRegistration)
| RegisterPg (reg : Pg.SessionRegistration)
| RegisterRedis (reg : Redis.SessionRegistration).

(** One database under the services, and the registrations made so far.  The
    sessions service sees the users and the assets through its own view. *)
Record site := Site {
  si_tables : tables;
  si_sessions : gmap bytes session_row;
  si_events : list event_row;
  si_audit : list audit_row;
  si_steps : nat;
  si_faults : list (option fault);
  si_registered : list registration;
}.
Definition as_store (s : site) : store := PgStore (si_tables s) (si_steps s) (si_faults s) None.
Definition from_store (t : store) (s : site) : site :=
  Site (pg_tables t) (si_sessions s) (si_events s) (si_audit s) (pg_steps t) (pg_faults t) (si_registered s).
Definition asset_view (r : point_row) : asset_row := Asset (p_name r) (p_type r) (p_host r) (p_port r).
Definition as_db (s : site) : db :=
  Db (dom (t_users (si_tables s))) (asset_view <$> t_assets (si_tables s)) (si_sessions s) (si_events s)
    (si_audit s) (si_steps s) (si_faults s).
Definition from_db (d : db) (s : site) : site :=
  Site (si_tables s) (d_sessions d) (d_events d) (d_audit d) (d_steps d) (d_faults d) (si_registered s).
Definition in_store {A} (m : M store A) : M site A := zoom as_store from_store m.
Definition in_sessions {A} (m : M db A) : M site A := zoom as_db from_db m.

(** A proxy service, as the handler's call of [RegisterSession] meets it: the
    port it listens on, or the error of a shutdown or of [net.Listen]. *)
Record proxy := Proxy { px_PublicHost : bytes; px_listen : Z + error }.
Record proxies := Proxies {
  px_mysql : option proxy;
  px_mssql : option proxy;
  px_mongo : option proxy;
  px_pg : option proxy;
  px_redis : option proxy;
}.
Definition RegisterSession (p : proxy) (reg : registration + error) : M site (bytes * Z) :=
  match reg with
  | inr e => fail e
  | inl r =>
      match px_listen p with
      | inr e => fail e
      | inl port =>
          do! modify (λ s, Site (si_tables s) (si_sessions s) (si_events s) (si_audit s) (si_steps s)
                             (si_faults s) (si_registered s ++ [r])) in
          ret (px_PublicHost p, port)
      end
  end.
Definition register_as {R} (f : R → registration) (r : R + error) : registration + error :=
  match r with inl reg => inl (f reg) | inr e => inr e end.

(** What a request brings: the user of its session, the body and the headers,
    and the clock of the two calls that read it. *)
Record launch_request := LaunchRequest {
  lq_user : option CurrentUser;
  lq_body : bytes;
  lq_request_id : bytes;
  lq_remote_addr : bytes;
  lq_user_agent : bytes;
  lq_now : Z;
  lq_later : Z;
}.

Record launchPayloadUnion := LaunchPayload {
  lp_ProxyHost : bytes;
  lp_ProxyPort : Z;
  lp_Username : bytes;
  lp_ProxyUsername : bytes;
  lp_UpstreamUsername : bytes;
  lp_TargetAssetName : bytes;
  lp_TargetHost : bytes;
  lp_Token : bytes;
  lp_Path : bytes;
  lp_Engine : bytes;
  lp_Host : bytes;
  lp_Port : Z;
  lp_Database : bytes;
  lp_Password : bytes;
  lp_SSLMode : bytes;
  lp_RedisHost : bytes;
  lp_RedisPort : Z;
  lp_RedisUsername : bytes;
  lp_RedisPassword : bytes;
  lp_RedisDatabase : Z;
  lp_RedisTLS : bool;
  lp_RedisInsecureSkipVerifyTLS : bool;
  lp_ExpiresAt : bytes;
}.
Definition no_payload : launchPayloadUnion :=
  LaunchPayload [] 0 [] [] [] [] [] [] [] [] [] 0 [] [] [] [] 0 [] [] 0 false false [].
Record launchResponse := LaunchResponse {
  lre_SessionID : bytes;
  lre_LaunchType : bytes;
  lre_AssetName : bytes;
  lre_AssetHost : bytes;
  lre_ConnectorToken : bytes;
  lre_Launch : launchPayloadUnion;
}.

(** * Metadata of an asset *)

Record dbAssetMetadata := DBMeta { me_Engine : bytes; me_Database : bytes; me_SSLMode : bytes }.
Record redisAssetMetadata := RedisMeta { mr_Database : Z; mr_TLS : bool; mr_InsecureSkipVerifyTLS : bool }.

Definition isReadOnlyAuditor (u : CurrentUser) : bool := HasRole u §"auditor" && negb (HasRole u §"admin").

Definition protocolForLaunch (assetType action : bytes) : bytes + error :=
  if bool_decide (assetType = Assets.TypeLinuxVM) && bool_decide (action = ActionShell) then inl ProtocolSSH
  else if bool_decide (assetType = Assets.TypeLinuxVM) && bool_decide (action = ActionSFTP) then inl ProtocolSFTP
  else if bool_decide (assetType = Assets.TypeDatabase) && bool_decide (action = ActionDBeaver) then inl ProtocolDB
  else if bool_decide (assetType = Assets.TypeRedis) && bool_decide (action = ActionRedis) then inl ProtocolRedis
  else inr (Errorf (§"unsupported launch combination for asset_type=" ++ assetType ++ §" action=" ++ action)).

Definition dbeaverClientPassword (connectorToken sessionID : bytes) : bytes :=
  let fallback := if bool_decide (TrimSpace sessionID = []) then §"accessd" else TrimSpace sessionID in
  let token := TrimSpace connectorToken in
  if bool_decide (token = []) then fallback
  else if (128 <? length token)%nat then fallback else token.

Section Metadata.
Context `{Unicode}.

Definition normalizeMSSQLSSLMode (raw : bytes) : bytes :=
  let mode := ToLower (TrimSpace raw) in
  if bool_decide (mode = []) then §"disable"
  else if bool_decide (mode ∈ [§"require"; §"required"; §"true"; §"encrypt"; §"verify-ca"; §"verify-full";
                               §"verify_ca"; §"verify_identity"]) then §"disable"
  else mode.

Definition canonical_engine (engine : bytes) : bytes :=
  let e := if bool_decide (TrimSpace engine = []) then §"postgres" else ToLower (TrimSpace engine) in
  if bool_decide (e ∈ [§"postgres"; §"postgresql"]) then §"postgres"
  else if bool_decide (e ∈ [§"mssql"; §"sqlserver"; §"sql_server"]) then §"mssql"
  else if bool_decide (e ∈ [§"mongo"; §"mongodb"]) then §"mongo" else e.

(** The metadata as it is stored, and as the launch reads it. *)
Definition stored_db_metadata (raw : bytes) : option dbAssetMetadata :=
  Unmarshal (DBMeta [] [] []) [§"engine"; §"database"; §"ssl_mode"] (λ n v m,
    if bool_decide (n = §"engine") then x ← to_string (me_Engine m) v; Some (DBMeta x (me_Database m) (me_SSLMode m))
    else if bool_decide (n = §"database")
    then x ← to_string (me_Database m) v; Some (DBMeta (me_Engine m) x (me_SSLMode m))
    else x ← to_string (me_SSLMode m) v; Some (DBMeta (me_Engine m) (me_Database m) x)) raw.
Definition parseDBMetadata (raw : bytes) : option dbAssetMetadata :=
  if bool_decide (raw = []) then Some (DBMeta [] [] [])
  else
    meta ← stored_db_metadata raw;
    let engine := canonical_engine (me_Engine meta) in
    let mode := TrimSpace (me_SSLMode meta) in
    Some (DBMeta engine (TrimSpace (me_Database meta))
            (if bool_decide (engine = §"mssql") then normalizeMSSQLSSLMode mode else mode)).

Definition to_bool (old : bool) (v : json) : option bool :=
  match v with JBool b => Some b | JNull => Some old | _ => None end.
Definition parseRedisMetadata (raw : bytes) : option redisAssetMetadata :=
  if bool_decide (raw = []) then Some (RedisMeta 0 false false)
  else
    meta ← Unmarshal (RedisMeta 0 false false) [§"database"; §"tls"; §"insecure_skip_verify_tls"] (λ n v m,
      if bool_decide (n = §"database")
      then x ← to_int64 (mr_Database m) v; Some (RedisMeta x (mr_TLS m) (mr_InsecureSkipVerifyTLS m))
      else if bool_decide (n = §"tls")
      then x ← to_bool (mr_TLS m) v; Some (RedisMeta (mr_Database m) x (mr_InsecureSkipVerifyTLS m))
      else x ← to_bool (mr_InsecureSkipVerifyTLS m) v; Some (RedisMeta (mr_Database m) (mr_TLS m) x)) raw;
    Some (RedisMeta (Z.max 0 (mr_Database meta)) (mr_TLS meta) (mr_InsecureSkipVerifyTLS meta)).

Definition parseSFTPMetadata (raw : bytes) : option bytes :=
  if bool_decide (raw = []) then Some []
  else TrimSpace <$> Unmarshal [] [§"path"] (λ _ v p, to_string p v) raw.
End Metadata.

(** * The answer *)

Definition errMissingLaunchPayload (launchType : bytes) : error :=
  Errorf (§"missing launch payload for launch_type=" ++ launchType).

Definition buildLaunchResponse (r : LaunchResult) : launchResponse + error :=
  let expires := RFC3339Nano (lr_ExpiresAt r) in
  let missing := inr (errMissingLaunchPayload (lr_LaunchType r)) in
  let resp name host p := inl (LaunchResponse (lr_SessionID r) (lr_LaunchType r) name host (lr_ConnectorToken r) p) in
  if bool_decide (lr_LaunchType r = §"shell") then
    match lr_Shell r with
    | None => missing
    | Some p => resp (sh_TargetAssetName p) (sh_TargetHost p)
        (LaunchPayload (sh_ProxyHost p) (sh_ProxyPort p) (sh_UpstreamUsername p) (sh_ProxyUsername p)
           (sh_UpstreamUsername p) (sh_TargetAssetName p) (sh_TargetHost p) (sh_Token p) [] [] [] 0 [] [] []
           [] 0 [] [] 0 false false expires)
    end
  else if bool_decide (lr_LaunchType r = §"dbeaver") then
    match lr_DBeaver r with
    | None => missing
    | Some p => resp (dv_TargetAssetName p) (dv_TargetHost p)
        (LaunchPayload [] 0 (dv_Username p) [] (dv_UpstreamUsername p) (dv_TargetAssetName p) (dv_TargetHost p)
           [] [] (dv_Engine p) (dv_Host p) (dv_Port p) (dv_Database p) (dv_Password p) (dv_SSLMode p)
           [] 0 [] [] 0 false false expires)
    end
  else if bool_decide (lr_LaunchType r = §"sftp") then
    match lr_SFTP r with
    | None => missing
    | Some p => resp (sf_TargetAssetName p) (sf_TargetHost p)
        (LaunchPayload [] 0 (sf_UpstreamUsername p) (sf_ProxyUsername p) (sf_UpstreamUsername p)
           (sf_TargetAssetName p) (sf_TargetHost p) [] (sf_Path p) [] (sf_Host p) (sf_Port p) [] (sf_Password p) []
           [] 0 [] [] 0 false false expires)
    end
  else if bool_decide (lr_LaunchType r = §"redis") then
    match lr_Redis r with
    | None => missing
    | Some p => resp [] []
        (LaunchPayload [] 0 [] [] [] [] [] [] [] [] [] 0 [] [] [] (rd_Host p) (rd_Port p) (rd_Username p)
           (rd_Password p) (rd_Database p) (rd_UseTLS p) (rd_InsecureSkipVerifyTLS p) expires)
    end
  else missing.

(** * The handler *)

Section Handler.
Context `{Unicode} `{Postgres} `{PostgresText}.
Context (cipher : Cipher) (cfg : Config) (px : proxies).

Abbreviation part A := (Http.part site launchResponse A).

Definition decode_launch (body : bytes) : option (bytes * bytes) :=
  Decode ([], []) [§"asset_id"; §"action"] (λ n v r,
    if bool_decide (n = §"asset_id") then x ← to_string r.1 v; Some (x, r.2)
    else x ← to_string r.2 v; Some (r.1, x)) body.

Section Request.
Context (rq : launch_request) (user : CurrentUser) (asset : Assets.asset) (action : bytes).

(** [ResolveForAsset] on the asset of the launch. *)
Definition credential_for (ty : bytes) : M site ResolvedCredential :=
  in_store (ResolveForAsset cipher (A_ID asset) ty).

Definition launch_context (launch : LaunchResult) (protocol assetType : bytes) : LaunchContext := {|
  l_SessionID := lr_SessionID launch;
  l_UserID := cu_ID user;
  l_AssetID := A_ID asset;
  l_AssetName := [];
  l_RequestID := [];
  l_Action := action;
  l_Protocol := protocol;
  l_AssetType := assetType;
  l_Host := A_Host asset;
  l_Port := A_Port asset;
  l_UpstreamUsername := [];
  l_Status := [];
  l_ExpiresAt := 0 |}.
Definition record_usage (launch : LaunchResult) (protocol assetType credentialType : bytes) : part unit :=
  or_500 (in_sessions (RecordCredentialUsage (lq_later rq) (launch_context launch protocol assetType)
                         credentialType §"launch_prepare" (lq_request_id rq)))
    §"failed to record credential usage audit".

(** The registration with the proxy of the engine. *)
Definition register_database (launch : LaunchResult) (meta : dbAssetMetadata) (username : bytes) : part (bytes * Z) :=
  let register proxy missing reg :=
    step! p := need proxy StatusInternalServerError missing in
    or_500 (RegisterSession p reg) §"failed to allocate database proxy endpoint" in
  let sid := lr_SessionID launch in
  if bool_decide (me_Engine meta ∈ [§"mysql"; §"mariadb"]) then
    register (px_mysql px) §"mysql proxy is not configured" (register_as RegisterMysql (Mysql.normalizeRegistration {|
      Mysql.m_SessionID := sid; Mysql.m_UserID := cu_ID user; Mysql.m_AssetID := A_ID asset;
      Mysql.m_AssetName := TrimSpace (A_Name asset); Mysql.m_Engine := me_Engine meta;
      Mysql.m_Database := me_Database meta; Mysql.m_SSLMode := me_SSLMode meta;
      Mysql.m_UpstreamHost := A_Host asset; Mysql.m_UpstreamPort := A_Port asset;
      Mysql.m_Username := username; Mysql.m_RequestID := lq_request_id rq |}))
  else if bool_decide (me_Engine meta ∈ [§"mssql"; §"sqlserver"; §"sql_server"]) then
    register (px_mssql px) §"mssql proxy is not configured" (register_as RegisterMssql (Mssql.normalizeRegistration {|
      Mssql.m_SessionID := sid; Mssql.m_UserID := cu_ID user; Mssql.m_AssetID := A_ID asset;
      Mssql.m_AssetName := TrimSpace (A_Name asset); Mssql.m_Engine := me_Engine meta;
      Mssql.m_Database := me_Database meta; Mssql.m_SSLMode := me_SSLMode meta;
      Mssql.m_UpstreamHost := A_Host asset; Mssql.m_UpstreamPort := A_Port asset;
      Mssql.m_Username := username; Mssql.m_RequestID := lq_request_id rq |}))
  else if bool_decide (me_Engine meta ∈ [§"mongo"; §"mongodb"]) then
    register (px_mongo px) §"mongo proxy is not configured" (register_as RegisterMongo (Mongo.normalizeRegistration {|
      g_SessionID := sid; g_UserID := cu_ID user; g_AssetID := A_ID asset;
      g_AssetName := TrimSpace (A_Name asset); g_Engine := me_Engine meta;
      g_Database := me_Database meta; g_SSLMode := me_SSLMode meta;
      g_UpstreamHost := A_Host asset; g_UpstreamPort := A_Port asset; g_RequestID := lq_request_id rq |}))
  else
    register (px_pg px) §"database proxy is not configured" (register_as RegisterPg (Pg.normalizeRegistration {|
      p_SessionID := sid; p_UserID := cu_ID user; p_AssetID := A_ID asset;
      p_AssetName := TrimSpace (A_Name asset); p_Engine := me_Engine meta;
      p_Database := me_Database meta; p_SSLMode := me_SSLMode meta;
      p_UpstreamHost := A_Host asset; p_UpstreamPort := A_Port asset;
      p_Username := username; p_RequestID := lq_request_id rq |})).

Definition launch_database (launch : LaunchResult) : part LaunchResult :=
  step! cred := or_500 (credential_for TypeDBPassword) §"failed to resolve database credential" in
  step! meta := need (parseDBMetadata (A_MetadataJSON asset)) StatusBadRequest §"database asset metadata is invalid" in
  then! record_usage launch ProtocolDB Assets.TypeDatabase TypeDBPassword in
  let mongo := bool_decide (me_Engine meta ∈ [§"mongo"; §"mongodb"]) in
  step! (proxyHost, proxyPort) := register_database launch meta (TrimSpace (rc_Username cred)) in
  go_on (AttachDBeaverPayload launch
    (DBeaverPayload (me_Engine meta) proxyHost proxyPort (me_Database meta)
       (if mongo then [] else §"accessd") (TrimSpace (rc_Username cred)) (TrimSpace (A_Name asset))
       (TrimSpace (A_Host asset))
       (if mongo then [] else dbeaverClientPassword (lr_ConnectorToken launch) (lr_SessionID launch))
       (me_SSLMode meta))).

(** The credential of a machine: its key, or its password if it has none. *)
Definition linux_credential : M site ResolvedCredential := λ s,
  match credential_for TypeSSHKey s with
  | (Err e, s') => if errors_is e §"credentials.ErrCredentialNotFound" then credential_for TypePassword s'
                   else (Err e, s')
  | r => r
  end.

Definition launch_linux (launch : LaunchResult) : part LaunchResult :=
  step! cred := or_500 linux_credential §"failed to resolve linux credential" in
  let upstreamUsername := TrimSpace (rc_Username cred) in
  step! launch :=
    if bool_decide (action = ActionShell) then
      step! p := need (lr_Shell launch) StatusInternalServerError §"failed to allocate shell proxy endpoint" in
      go_on (AttachShellPayload launch
        (ShellPayload (sh_ProxyHost p) (sh_ProxyPort p) (sh_ProxyUsername p) upstreamUsername
           (TrimSpace (A_Name asset)) (TrimSpace (A_Host asset)) (sh_Token p)))
    else go_on launch in
  if bool_decide (action = ActionSFTP) then
    step! p := need (lr_SFTP launch) StatusInternalServerError §"failed to allocate sftp proxy endpoint" in
    go_on (AttachSFTPPayload launch
      (SFTPPayload (sf_Host p) (sf_Port p) (sf_ProxyUsername p) upstreamUsername
         (TrimSpace (A_Name asset)) (TrimSpace (A_Host asset)) (sf_Password p) (sf_Path p)))
  else go_on launch.

Definition launch_sftp (launch : LaunchResult) : part LaunchResult :=
  step! path := need (parseSFTPMetadata (A_MetadataJSON asset)) StatusBadRequest §"sftp asset metadata is invalid" in
  step! p := need (lr_SFTP launch) StatusInternalServerError §"failed to allocate sftp proxy endpoint" in
  go_on (AttachSFTPPayload launch
    (SFTPPayload (sf_Host p) (sf_Port p) (sf_ProxyUsername p) (sf_UpstreamUsername p)
       (sf_TargetAssetName p) (sf_TargetHost p) (sf_Password p) path)).

Definition launch_redis (launch : LaunchResult) : part LaunchResult :=
  step! cred := or_500 (credential_for TypePassword) §"failed to resolve redis credential" in
  step! proxy := need (px_redis px) StatusInternalServerError §"redis proxy is not configured" in
  step! token := need match lr_Redis launch with
                      | Some p => if bool_decide (TrimSpace (rd_Password p) = []) then None else Some (rd_Password p)
                      | None => None
                      end StatusInternalServerError §"redis launch token was not issued" in
  step! meta := need (parseRedisMetadata (A_MetadataJSON asset)) StatusBadRequest §"redis asset metadata is invalid" in
  then! record_usage launch ProtocolRedis Assets.TypeRedis TypePassword in
  step! (proxyHost, proxyPort) := or_500 (RegisterSession proxy
      (register_as RegisterRedis (Redis.normalizeRegistration {|
         r_SessionID := lr_SessionID launch; r_UserID := cu_ID user; r_AssetID := A_ID asset;
         r_AssetName := TrimSpace (A_Name asset); r_UpstreamHost := A_Host asset; r_UpstreamPort := A_Port asset;
         r_UseTLS := mr_TLS meta; r_InsecureSkipVerifyTLS := mr_InsecureSkipVerifyTLS meta;
         r_Database := mr_Database meta; r_ClientAuthToken := token; r_RequestID := lq_request_id rq |})))
    §"failed to allocate redis proxy endpoint" in
  go_on (AttachRedisPayload launch
    (RedisPayload proxyHost proxyPort (TrimSpace (rc_Username cred)) token (mr_Database meta) false false)).
End Request.

(** The request up to the launch: who asks, for what, and may they. *)
Definition admission (rq : launch_request) : part (CurrentUser * Assets.asset * bytes * bytes * bytes) :=
  step! user := need (lq_user rq) StatusUnauthorized §"unauthorized" in
  then! require (negb (isReadOnlyAuditor user)) StatusForbidden §"forbidden" in
  step! (id, action) := need (decode_launch (lq_body rq)) StatusBadRequest §"invalid json body" in
  let assetID := TrimSpace id in
  let action := TrimSpace action in
  then! require (negb (bool_decide (assetID = []) || bool_decide (action = []))) StatusBadRequest
          §"asset_id and action are required" in
  step! asset := attempt (in_store (GetByID assetID)) (λ err,
      if bool_decide (err = ErrAssetNotFound) then ReplyError StatusNotFound §"asset not found"
      else ReplyError StatusInternalServerError §"failed to resolve asset") in
  step! protocol := match protocolForLaunch (A_Type asset) action with
                    | inl p => go_on p
                    | inr (Errorf msg) => stop StatusBadRequest msg
                    | inr _ => stop StatusBadRequest []
                    end in
  step! allowed := or_500 (in_store (CanUserPerform (cu_ID user) assetID action)) §"failed to check access" in
  then! require allowed StatusForbidden §"access denied" in
  go_on (user, asset, assetID, action, protocol).

Definition launch_input (rq : launch_request) (user : CurrentUser) (assetID action protocol : bytes) : CreateLaunchInput := {|
  in_UserID := cu_ID user;
  in_AssetID := assetID;
  in_Action := action;
  in_Protocol := protocol;
  in_RequestID := lq_request_id rq;
  in_ClientIP := lq_remote_addr rq;
  in_UserAgent := lq_user_agent rq;
  in_RequestedAt := lq_now rq |}.

(** What the kind of asset adds to the launch. *)
Definition prepare (rq : launch_request) (user : CurrentUser) (asset : Assets.asset) (action : bytes)
    (launch : LaunchResult) : part LaunchResult :=
  step! launch :=
    if bool_decide (A_Type asset = Assets.TypeDatabase) && bool_decide (action = ActionDBeaver)
    then launch_database rq user asset action launch else go_on launch in
  step! launch :=
    if bool_decide (A_Type asset = Assets.TypeLinuxVM)
       && (bool_decide (action = ActionShell) || bool_decide (action = ActionSFTP))
    then launch_linux asset action launch else go_on launch in
  step! launch :=
    if bool_decide (A_Type asset = Assets.TypeLinuxVM) && bool_decide (action = ActionSFTP)
    then launch_sftp asset launch else go_on launch in
  if bool_decide (A_Type asset = Assets.TypeRedis) && bool_decide (action = ActionRedis)
  then launch_redis rq user asset action launch else go_on launch.

Definition ConnectorTokenEnabled : bool := bool_decide (is_Some (cfg_ConnectorSecret cfg)).

Definition Launch (rq : launch_request) : M site (reply launchResponse) :=
  handler (
    step! (user, asset, assetID, action, protocol) := admission rq in
    step! launch := or_500 (in_sessions (CreateLaunch cfg (launch_input rq user assetID action protocol)))
                      §"failed to create launch session" in
    step! launch := prepare rq user asset action launch in
    step! resp := or_stop (buildLaunchResponse launch) StatusInternalServerError §"failed to build launch response" in
    then! require (negb (ConnectorTokenEnabled && bool_decide (TrimSpace (lre_ConnectorToken resp) = [])))
            StatusInternalServerError §"failed to issue connector token for launch" in
    go_on (Reply StatusOK resp)).
End Handler.
