(* ===== verification/LaunchSpec.v ===== *)
(** What the launch handler guarantees: nothing happens without access, what
    happens is one pending session of the caller and a registration of it, and
    the answer does not depend on the secret. *)
From S2P Require Import Prelude GoStrings GoAes GoEncoding GoNet Tokens ProxyEvents Store PgServer Identity RateLimiter Ldap Auth Http Access Assets Credentials CredentialsSpec Redis Mysql Pg TdsWire Mssql Mongo Sessions SessionsSpec Launch.

(** * Frames *)

(** Nothing but the statement counter changed. *)
Definition quiet (s s' : site) : Prop :=
  si_tables s' = si_tables s ∧ si_sessions s' = si_sessions s ∧ si_events s' = si_events s ∧
  si_audit s' = si_audit s ∧ si_registered s' = si_registered s.
#[export] Instance quiet_preorder : PreOrder quiet.
Proof. split; [by intros s|]. intros x y z (H1&H2&H3&H4&H5) (K1&K2&K3&K4&K5). unfold quiet. split_and!; congruence. Qed.

(** Whose session a registration is. *)
Definition reg_owner (r : registration) : bytes * bytes * bytes :=
  match r with
  | RegisterMysql r => (Mysql.m_SessionID r, Mysql.m_UserID r, Mysql.m_AssetID r)
  | RegisterMssql r => (Mssql.m_SessionID r, Mssql.m_UserID r, Mssql.m_AssetID r)
  | RegisterMongo r => (g_SessionID r, g_UserID r, g_AssetID r)
  | RegisterPg r => (p_SessionID r, p_UserID r, p_AssetID r)
  | RegisterRedis r => (r_SessionID r, r_UserID r, r_AssetID r)
  end.
(** Only registrations of one owner, and audit rows, were added. *)
Definition serves (owner : bytes * bytes * bytes) (s s' : site) : Prop :=
  si_tables s' = si_tables s ∧ si_sessions s' = si_sessions s ∧
  ∃ l, si_registered s' = si_registered s ++ l ∧ Forall (λ r, reg_owner r = owner) l.
#[export] Instance serves_preorder owner : PreOrder (serves owner).
Proof.
  split.
  - intros s. repeat split. exists []. by rewrite app_nil_r.
  - intros x y z (H1&H2&l&H3&H4) (K1&K2&m&K3&K4). split; [congruence|]. split; [congruence|].
    exists (l ++ m). rewrite K3, H3, app_assoc. split; [done|]. by apply Forall_app.
Qed.
Lemma quiet_serves owner s s' : quiet s s' → serves owner s s'.
Proof. intros (?&?&_&_&?). repeat split; [done..|]. exists []. by rewrite app_nil_r. Qed.
Lemma keeps_weaken {S A} (R T : S → S → Prop) (m : M S A) : (∀ s s', R s s' → T s s') → keeps R m → keeps T m.
Proof. intros H Hm s. apply H, Hm. Qed.

(** ** Parts of handlers *)

Section Parts.
Context {S R : Type} (P : S → S → Prop) `{!PreOrder P}.
Lemma keeps_go_on {A} (a : A) : keeps P (go_on (R:=R) a).
Proof. apply keeps_ret, _. Qed.
Lemma keeps_stop {A} code msg : keeps P (stop (S:=S) (R:=R) (A:=A) code msg).
Proof. apply keeps_ret, _. Qed.
Lemma keeps_and_then {A B} (m : part S R A) (k : A → part S R B) :
  keeps P m → (∀ a, keeps P (k a)) → keeps P (and_then m k).
Proof. intros Hm Hk. apply keeps_bind; [apply _|done|]. intros [a|p]; [apply Hk|apply keeps_ret, _]. Qed.
Lemma keeps_attempt {A} (m : M S A) (h : error → reply R) : keeps P m → keeps P (attempt m h).
Proof. intros Hm. apply keeps_bind; [apply _|by apply keeps_try|]. intros r. apply keeps_ret, _. Qed.
Lemma keeps_or_500 {A} (m : M S A) msg : keeps P m → keeps P (or_500 (R:=R) m msg).
Proof. apply keeps_attempt. Qed.
Lemma keeps_need {A} (o : option A) code msg : keeps P (need (S:=S) (R:=R) o code msg).
Proof. destruct o; apply keeps_ret, _. Qed.
Lemma keeps_require b code msg : keeps P (require (S:=S) (R:=R) b code msg).
Proof. destruct b; apply keeps_ret, _. Qed.
Lemma keeps_or_stop {A} (r : A + error) code msg : keeps P (or_stop (S:=S) (R:=R) r code msg).
Proof. destruct r; apply keeps_ret, _. Qed.

(** Inversion of a part that goes on. *)
Lemma and_then_inl {A B} (m : part S R A) (k : A → part S R B) s b s' :
  and_then m k s = (Ok (inl b), s') → ∃ a s1, m s = (Ok (inl a), s1) ∧ k a s1 = (Ok (inl b), s').
Proof. intros ([a|p] & s1 & Hm & Hk)%bind_ok; [eauto|done]. Qed.
Lemma attempt_inl {A} (m : M S A) (h : error → reply R) s a s' :
  attempt m h s = (Ok (inl a), s') → m s = (Ok a, s').
Proof. unfold attempt, try, bind, ret. destruct (m s) as [[]]; intros; by simplify_eq. Qed.
Lemma need_inl {A} (o : option A) code msg s a s' : need (S:=S) (R:=R) o code msg s = (Ok (inl a), s') → o = Some a ∧ s' = s.
Proof. destruct o; by intros [= -> <-]. Qed.
Lemma require_inl b code msg s a s' : require (S:=S) (R:=R) b code msg s = (Ok (inl a), s') → b = true ∧ s' = s.
Proof. destruct b; by intros [= _ <-]. Qed.
End Parts.
#[export] Hint Resolve keeps_go_on keeps_stop keeps_and_then keeps_attempt keeps_or_500 keeps_need
  keeps_require keeps_or_stop : keeps.

(** ** The services on a site *)

(** A read of the store: its tables stay. *)
Definition reads {A} (m : M store A) : Prop := ∀ t, pg_tables (m t).2 = pg_tables t.
Lemma keeps_in_store {A} (m : M store A) : reads m → keeps quiet (in_store m).
Proof. intros Hm s. unfold in_store, zoom. specialize (Hm (as_store s)). destruct (m _) as [o t]. by repeat split. Qed.

Definition same_sessions (d d' : db) : Prop := d_sessions d' = d_sessions d.
#[export] Instance same_sessions_preorder : PreOrder same_sessions.
Proof. split; [done|]. intros x y z H K. unfold same_sessions in *. congruence. Qed.
Lemma keeps_in_sessions {A} owner (m : M db A) : keeps same_sessions m → keeps (serves owner) (in_sessions m).
Proof.
  intros Hm s. unfold in_sessions, zoom. specialize (Hm (as_db s)). destruct (m _) as [o d]. cbn in Hm.
  repeat split; [done|]. exists []. by rewrite app_nil_r.
Qed.

Section Facts.
Context `{Unicode} `{Postgres} `{PostgresText}.

Lemma reads_query {A} (q : Z → nat → tables → (A * tables) + error) :
  (∀ now n t a t', q now n t = inl (a, t') → t' = t) → reads (query q).
Proof. intros Hq t. destruct (query_tables q t) as [?|(a & E)]; [done|]. by apply Hq in E. Qed.
Lemma reads_wrap {A} msg (m : M store A) : reads m → reads (wrap_err msg m).
Proof. intros Hm t. unfold wrap_err. specialize (Hm t). by destruct (m t) as [[]]. Qed.
Lemma reads_no_rows {A} e msg (m : M store A) : reads m → reads (no_rows_as e msg m).
Proof. intros Hm t. unfold no_rows_as. specialize (Hm t). by destruct (m t) as [[]]. Qed.
Lemma reads_row {A} (q : tables → option A + error) : reads (query_row q).
Proof. apply reads_query. intros now n t a t'. destruct (q t) as [[]|]; by intros [= _ <-]. Qed.

Lemma reads_GetByID x : reads (GetByID x).
Proof. apply reads_no_rows, reads_row. Qed.
Lemma reads_CanUserPerform u a act : reads (CanUserPerform u a act).
Proof.
  unfold CanUserPerform. destruct (negb _); [|done]. destruct (Access.isSupportedAction _); [|done].
  apply reads_wrap, reads_query. intros now n t b t'. repeat case_match; by intros [= _ <-].
Qed.
Lemma reads_Resolve c a ty : reads (ResolveForAsset c a ty).
Proof.
  intros t. unfold ResolveForAsset. destruct (negb _); [|done]. destruct (Credentials.isSupportedType _); [|done].
  unfold bind. set (rows := λ t0 : tables, _ : option _ + error).
  pose proof (reads_no_rows ErrCredentialNotFound §"resolve credential" (query_row rows) (reads_row rows) t) as Hr.
  destruct (no_rows_as _ _ _ t) as [[[u r]| | |] t1]; cbn in Hr; try done.
  pose proof (Decrypt_state c (cr_nonce r) (cr_encrypted r) (cr_aad r) t1) as Hd.
  destruct (Decrypt _ _ _ _ _) as [[]]; cbn in Hd; subst; done.
Qed.

Lemma keeps_statement_same {A} (q : Z → nat → db → (A * db) + error) :
  (∀ now n d a d', q now n d = inl (a, d') → d_sessions d' = d_sessions d) → keeps same_sessions (statement q).
Proof.
  intros Hq. apply (keeps_statement same_sessions); [done|]. intros. by eapply Hq.
Qed.
Lemma statement_effect {A} (q : Z → nat → db → (A * db) + error) d o d' :
  statement q d = (o, d') →
  let d1 := Db (d_users d) (d_assets d) (d_sessions d) (d_events d) (d_audit d) (S (d_steps d)) (tail (d_faults d)) in
  (d' = d1 ∧ ∀ a, o ≠ Ok a) ∨
  ∃ a, q (pg_now (d_steps d)) (d_steps d) d1 = inl (a, d') ∧ ∀ a', o = Ok a' → a' = a.
Proof.
  intros Hs d1. unfold statement in Hs. fold d1 in Hs. destruct (mjoin _) as [[]|].
  - injection Hs as <- <-. by left.
  - destruct (q _ _ d1) as [[a d2]|]; injection Hs as <- <-; [right; by exists a|by left].
  - destruct (q _ _ d1) as [[a d2]|]; injection Hs as <- <-; [right|by left]. exists a. by split; [|intros ? [=]].
Qed.

Lemma same_event id ty act p : keeps same_sessions (WriteEvent id ty act p).
Proof.
  unfold WriteEvent. apply keeps_if; [apply keeps_fail, _|].
  apply keeps_wrap_err, keeps_statement_same. intros. repeat case_match; by simplify_eq.
Qed.
Lemma same_sign msg k c : keeps same_sessions (sign_with msg k c).
Proof. unfold sign_with. destruct (Sign k c); intros d; reflexivity. Qed.
Lemma same_audit l ty ac o m : keeps same_sessions (writeAudit l ty ac o m).
Proof.
  apply keeps_wrap_err, keeps_statement_same. intros. repeat case_match; by simplify_eq.
Qed.
(** The row of a launch. *)
Definition launch_row (input : CreateLaunchInput) (cu ca : bytes) (r : session_row) : Prop :=
  pg_uuid (TrimSpace (in_UserID input)) = Some cu ∧ pg_uuid (TrimSpace (in_AssetID input)) = Some ca ∧
  s_user r = cu ∧ s_asset r = ca ∧ s_protocol r = TrimSpace (in_Protocol input) ∧ s_status r = StatusPending ∧
  s_reason r = Some (§"action:" ++ TrimSpace (in_Action input)).

Lemma CreateLaunch_session cfg input d o d' :
  CreateLaunch cfg input d = (o, d') →
  (d_sessions d' = d_sessions d ∧ ∀ r, o ≠ Ok r) ∨
  ∃ cu ca row, launch_row input cu ca row ∧ d_sessions d !! pg_random_uuid (d_steps d) = None ∧
    d_sessions d' = <[pg_random_uuid (d_steps d) := row]> (d_sessions d) ∧
    ∀ r, o = Ok r → lr_SessionID r = pg_random_uuid (d_steps d).
Proof.
  intros Hrun. assert (Hid : ∀ r, o = Ok r → lr_SessionID r = pg_random_uuid (d_steps d)).
  { intros r ->. apply CreateLaunch_ok in Hrun as (cu & ca & _ & _ & Hid & _). exact Hid. }
  revert Hrun. unfold CreateLaunch. cbv zeta. destruct (_ || _); [intros [= <- <-]; by left|]. unfold bind at 1.
  match goal with |- context [wrap_err _ (insert_session ?u ?a ?p ?st ?re ?ip) d] =>
    destruct (wrap_err §"create session" (insert_session u a p st re ip) d) as [o1 d1] eqn:Ei end.
  apply wrap_run in Ei as (o2 & Ei & Ho).
  intros Hrun. assert (Hsame : d_sessions d' = d_sessions d1 ∧ (∀ r, o = Ok r → ∃ sid, o1 = Ok sid)).
  { destruct o1 as [sid|e|w|]; [|by injection Hrun as <- <-..]. split; [|by eauto].
    match type of Hrun with ?m d1 = _ => assert (Hm : keeps same_sessions m) end.
    2: { specialize (Hm d1). by rewrite Hrun in Hm. }
    repeat (first [apply same_event | apply same_sign | apply keeps_ret; apply _ | apply keeps_if
                  | apply keeps_bind; [apply _| |intros ?] | case_match]). }
  destruct Hsame as [Hsame Hok]. apply statement_effect in Ei as [[-> Hno]|(sid & Hq & Hsid)].
  { left. split; [done|]. intros r Hr. destruct (Hok r Hr) as [sid ->]. by destruct (Hno sid); apply Ho. }
  right. destruct (pg_uuid _) as [cu|] eqn:Eu; [|done]. destruct (pg_uuid (TrimSpace (in_AssetID _))) as [ca|] eqn:Ea; [|done].
  cbv zeta in Hq. destruct (_ && _) eqn:Eb in Hq; [|done]. gobool. injection Hq as <- <-.
  exists cu, ca. eexists. split; [|split; [|split; [exact Hsame|exact Hid]]]; [|done]. by repeat split.
Qed.

(** ** Registrations *)

Lemma RegisterSession_serves owner p reg :
  (∀ r, reg = inl r → reg_owner r = owner) → keeps (serves owner) (RegisterSession p reg).
Proof.
  intros Hr s. destruct reg as [r|e]; [|reflexivity]. cbn. destruct (px_listen p); [|reflexivity].
  repeat split. exists [r]. split; [done|]. constructor; [by apply Hr|done].
Qed.

(** What survives normalisation, by cases on its checks. *)
Ltac normalized :=
  intros ? Hn; unfold register_as in Hn;
  unfold Mysql.normalizeRegistration, Mssql.normalizeRegistration, Mongo.normalizeRegistration,
    Pg.normalizeRegistration, Redis.normalizeRegistration in Hn; cbv zeta in Hn;
  repeat match type of Hn with context [if ?b then _ else _] => destruct b; try discriminate Hn end;
  injection Hn as <-; reflexivity.

Lemma registered_owner sid uid aid name eng dbn mode host port usr rid :
  let owner := (TrimSpace sid, TrimSpace uid, TrimSpace aid) in
  (∀ r, register_as RegisterMysql (Mysql.normalizeRegistration (Mysql.Build_SessionRegistration sid uid aid name eng dbn mode host port usr rid)) = inl r → reg_owner r = owner) ∧
  (∀ r, register_as RegisterMssql (Mssql.normalizeRegistration (Mssql.Build_SessionRegistration sid uid aid name eng dbn mode host port usr rid)) = inl r → reg_owner r = owner) ∧
  (∀ r, register_as RegisterMongo (Mongo.normalizeRegistration (Mongo.Build_SessionRegistration sid uid aid name eng dbn mode host port rid)) = inl r → reg_owner r = owner) ∧
  (∀ r, register_as RegisterPg (Pg.normalizeRegistration (Pg.Build_SessionRegistration sid uid aid name eng dbn mode host port usr rid)) = inl r → reg_owner r = owner).
Proof. cbv zeta. split_and!; normalized. Qed.

Section Prepared.
Context (cipher : Cipher) (px : proxies) (rq : launch_request) (user : CurrentUser) (asset : Assets.asset).
Context (action : bytes) (launch : LaunchResult).
Abbreviation owner := (TrimSpace (lr_SessionID launch), TrimSpace (cu_ID user), TrimSpace (A_ID asset)).

Lemma credential_serves ty : keeps (serves owner) (credential_for cipher asset ty).
Proof. eapply keeps_weaken; [apply quiet_serves|apply keeps_in_store, reads_Resolve]. Qed.
Lemma usage_serves protocol ty cty : keeps (serves owner) (record_usage rq user asset action launch protocol ty cty).
Proof. apply keeps_or_500; [apply _|]. apply keeps_in_sessions, same_audit. Qed.

Lemma register_database_serves meta username :
  keeps (serves owner) (register_database px rq user asset launch meta username).
Proof.
  pose proof (registered_owner (lr_SessionID launch) (cu_ID user) (A_ID asset) (TrimSpace (A_Name asset))
    (me_Engine meta) (me_Database meta) (me_SSLMode meta) (A_Host asset) (A_Port asset) username (lq_request_id rq))
    as (O1 & O2 & O3 & O4).
  unfold register_database. cbv zeta.
  repeat apply keeps_if; (apply keeps_and_then; [apply _|apply keeps_need; apply _|intros p];
    apply keeps_or_500; [apply _|]; apply RegisterSession_serves; assumption).
Qed.

Lemma launch_database_serves : keeps (serves owner) (launch_database cipher px rq user asset action launch).
Proof.
  unfold launch_database.
  apply keeps_and_then; [apply _|apply keeps_or_500; [apply _|apply credential_serves]|intros cred].
  apply keeps_and_then; [apply _|apply keeps_need; apply _|intros meta].
  apply keeps_and_then; [apply _|apply usage_serves|intros _]. cbv zeta.
  apply keeps_and_then; [apply _|apply register_database_serves|intros [h p]]. apply keeps_go_on, _.
Qed.

Lemma linux_credential_serves : keeps (serves owner) (linux_credential cipher asset).
Proof.
  intros s. unfold linux_credential. pose proof (credential_serves TypeSSHKey s) as C1.
  destruct (credential_for cipher asset TypeSSHKey s) as [[r|e|w|] s1]; cbn [snd] in C1 |- *; try done.
  destruct (errors_is _ _); [|done]. etransitivity; [exact C1|apply credential_serves].
Qed.

Lemma launch_linux_serves : keeps (serves owner) (launch_linux cipher asset action launch).
Proof.
  unfold launch_linux.
  apply keeps_and_then; [apply _|apply keeps_or_500; [apply _|apply linux_credential_serves]|intros cred]. cbv zeta.
  apply keeps_and_then; [apply _| |intros l].
  - apply keeps_if; [|apply keeps_go_on, _].
    apply keeps_and_then; [apply _|apply keeps_need; apply _|intros p]. apply keeps_go_on, _.
  - apply keeps_if; [|apply keeps_go_on, _].
    apply keeps_and_then; [apply _|apply keeps_need; apply _|intros p]. apply keeps_go_on, _.
Qed.

Lemma launch_redis_serves : keeps (serves owner) (launch_redis cipher px rq user asset action launch).
Proof.
  unfold launch_redis.
  apply keeps_and_then; [apply _|apply keeps_or_500; [apply _|apply credential_serves]|intros cred].
  do 3 (apply keeps_and_then; [apply _|apply keeps_need; apply _|intros ?]).
  apply keeps_and_then; [apply _|apply usage_serves|intros _].
  apply keeps_and_then; [apply _| |intros [h p]]; [|apply keeps_go_on, _].
  apply keeps_or_500; [apply _|]. apply RegisterSession_serves. normalized.
Qed.
End Prepared.

(** The parts keep the session's identity. *)
Lemma launch_linux_id cipher asset action launch s l s' :
  launch_linux cipher asset action launch s = (Ok (inl l), s') → lr_SessionID l = lr_SessionID launch.
Proof.
  unfold launch_linux. intros (cred & s1 & _ & Hk)%and_then_inl. cbv zeta in Hk.
  apply and_then_inl in Hk as (l1 & s2 & K1 & K2).
  assert (E1 : lr_SessionID l1 = lr_SessionID launch).
  { destruct (bool_decide (action = ActionShell)); [|by injection K1 as <- _].
    apply and_then_inl in K1 as (p & s3 & _ & K1). by injection K1 as <- _. }
  destruct (bool_decide (action = ActionSFTP)); [|injection K2 as <- _; exact E1].
  apply and_then_inl in K2 as (p & s3 & _ & K2). injection K2 as <- _. exact E1.
Qed.
Lemma launch_sftp_id asset launch s l s' :
  launch_sftp asset launch s = (Ok (inl l), s') → lr_SessionID l = lr_SessionID launch.
Proof.
  unfold launch_sftp. intros (path & s1 & _ & (p & s2 & _ & K)%and_then_inl)%and_then_inl. by injection K as <- _.
Qed.
Lemma launch_database_id cipher px rq user asset action launch s l s' :
  launch_database cipher px rq user asset action launch s = (Ok (inl l), s') → lr_SessionID l = lr_SessionID launch.
Proof.
  unfold launch_database. intros (c & s1 & _ & (m & s2 & _ & (u & s3 & _ & K)%and_then_inl)%and_then_inl)%and_then_inl.
  cbv zeta in K. apply and_then_inl in K as ([h p] & s4 & _ & K). by injection K as <- _.
Qed.

(** A part that has run, whatever comes after it: its result keeps the identity
    and the frame. *)
Lemma prepare_serves cipher px rq user asset action launch :
  keeps (serves (TrimSpace (lr_SessionID launch), TrimSpace (cu_ID user), TrimSpace (A_ID asset)))
    (prepare cipher px rq user asset action launch).
Proof.
  set (owner := (_, _, _)). unfold prepare.
  assert (Hstep : ∀ (m : part site launchResponse LaunchResult) (k : LaunchResult → part site launchResponse LaunchResult),
    keeps (serves owner) m → (∀ s l s', m s = (Ok (inl l), s') → lr_SessionID l = lr_SessionID launch) →
    (∀ l, lr_SessionID l = lr_SessionID launch → keeps (serves owner) (k l)) →
    keeps (serves owner) (and_then m k)).
  { intros m k Hm Hid Hk s. unfold and_then, bind. specialize (Hm s). specialize (Hid s).
    destruct (m s) as [[[l|p]| | |] s1]; cbn [snd] in *; try done.
    etransitivity; [exact Hm|]. apply Hk. by eapply Hid. }
  apply Hstep.
  { apply keeps_if; [apply launch_database_serves|apply keeps_go_on, _]. }
  { intros s l s'. destruct (_ && _); [apply launch_database_id|by intros [= <- _]]. }
  intros l1 E1. apply Hstep.
  { apply keeps_if; [|apply keeps_go_on, _]. pose proof (launch_linux_serves cipher user asset action l1) as Hl.
    unfold owner. by rewrite E1 in Hl. }
  { intros s l s'. destruct (_ && _); [intros ->%launch_linux_id; done|by intros [= <- _]]. }
  intros l2 E2. apply Hstep.
  { apply keeps_if; [|apply keeps_go_on, _]. unfold launch_sftp.
    do 2 (apply keeps_and_then; [apply _|apply keeps_need; apply _|intros ?]). apply keeps_go_on, _. }
  { intros s l s'. destruct (_ && _); [intros ->%launch_sftp_id; done|by intros [= <- _]]. }
  intros l3 E3. apply keeps_if; [|apply keeps_go_on, _].
  pose proof (launch_redis_serves cipher px rq user asset action l3) as Hl. unfold owner. by rewrite E3 in Hl.
Qed.

(** ** Admission *)

(** What the handler has checked when it starts to act: who asks, for which
    asset, and that a grant allows it. *)
Definition permitted (t : tables) (rq : launch_request) (user : CurrentUser) (assetID action protocol u a : bytes)
    (row : point_row) : Prop :=
  lq_user rq = Some user ∧ isReadOnlyAuditor user = false ∧
  (∃ id act, decode_launch (lq_body rq) = Some (id, act) ∧ assetID = TrimSpace id ∧ action = TrimSpace act) ∧
  pg_uuid (TrimSpace (cu_ID user)) = Some u ∧ pg_uuid assetID = Some a ∧
  t_assets t !! a = Some row ∧ is_live row = true ∧
  protocolForLaunch (p_type row) action = inl protocol ∧ can_perform t u a action = true.

Lemma admit_quiet rq : keeps quiet (admission rq).
Proof.
  unfold admission.
  apply keeps_and_then; [apply _|apply keeps_need; apply _|intros user].
  apply keeps_and_then; [apply _|apply keeps_require; apply _|intros _].
  apply keeps_and_then; [apply _|apply keeps_need; apply _|intros [id act]]. cbv zeta.
  apply keeps_and_then; [apply _|apply keeps_require; apply _|intros _].
  apply keeps_and_then; [apply _|apply keeps_attempt; [apply _|apply keeps_in_store, reads_GetByID]|intros asset].
  apply keeps_and_then; [apply _| |intros protocol].
  { destruct (protocolForLaunch _ _) as [p|[]]; first [apply keeps_go_on, _|apply keeps_stop, _]. }
  apply keeps_and_then; [apply _|apply keeps_or_500; [apply _|apply keeps_in_store, reads_CanUserPerform]|intros b].
  apply keeps_and_then; [apply _|apply keeps_require; apply _|intros _]. apply keeps_go_on, _.
Qed.

Lemma in_store_inv {A} (m : M store A) s a s' : in_store m s = (Ok a, s') →
  ∃ t', m (as_store s) = (Ok a, t') ∧ s' = from_store t' s.
Proof. unfold in_store, zoom. destruct (m _) as [o t']. intros [= -> <-]. by exists t'. Qed.

Lemma GetByID_inv x t a t' : GetByID x t = (Ok a, t') →
  ∃ u row, pg_uuid (TrimSpace x) = Some u ∧ t_assets (pg_tables t) !! u = Some row ∧ is_live row = true ∧
           a = asset_of (u, row).
Proof.
  intros (o & Hq & Ho)%no_rows_run. destruct (Ho a) as [Hoa _]. rewrite (Hoa eq_refl) in Hq. apply query_ok in Hq.
  destruct (pg_uuid _) as [u|]; [|done]. unfold live_asset in Hq.
  destruct (t_assets (pg_tables t) !! u) as [row|] eqn:El; [|done]. destruct (is_live row) eqn:Ev; [|done].
  cbn in Hq. injection Hq as <- _. by exists u, row.
Qed.
Lemma CanUserPerform_inv user asset action t t' : CanUserPerform user asset action t = (Ok true, t') →
  ∃ u a, pg_uuid (TrimSpace user) = Some u ∧ pg_uuid (TrimSpace asset) = Some a ∧
         can_perform (pg_tables t) u a action = true.
Proof.
  unfold CanUserPerform. destruct (negb _); [|done]. destruct (Access.isSupportedAction _); [|done].
  intros Hq%wrap_ok%query_ok. destruct (pg_uuid _) as [u|]; [|done].
  destruct (pg_uuid (TrimSpace asset)) as [a|]; [|done]. injection Hq as Hq _. by exists u, a.
Qed.

Lemma admit_ok rq s user asset assetID action protocol s1 :
  admission rq s = (Ok (inl (user, asset, assetID, action, protocol)), s1) →
  ∃ u a row, permitted (si_tables s) rq user assetID action protocol u a row ∧ asset = asset_of (a, row) ∧
             TrimSpace assetID = assetID ∧ TrimSpace action = action.
Proof.
  unfold admission. intros (user' & s2 & [Hu ->]%need_inl & Hrun)%and_then_inl.
  apply and_then_inl in Hrun as (? & s3 & [Haud ->]%require_inl & Hrun).
  apply and_then_inl in Hrun as ([id act] & s4 & [Hd ->]%need_inl & Hrun). cbv zeta in Hrun.
  apply and_then_inl in Hrun as (? & s5 & [_ ->]%require_inl & Hrun).
  apply and_then_inl in Hrun as (asset' & s6 & (t1 & Hg & ->)%attempt_inl%in_store_inv & Hrun).
  apply and_then_inl in Hrun as (p & s7 & Hp & Hrun).
  apply and_then_inl in Hrun as (allowed & s8 & (t2 & Hc & ->)%attempt_inl%in_store_inv & Hrun).
  apply and_then_inl in Hrun as (? & s9 & [-> ->]%require_inl & Hrun). injection Hrun as -> -> <- <- -> _.
  destruct (protocolForLaunch _ _) as [q|[]] eqn:Ep; try done. injection Hp as -> <-.
  pose proof (reads_GetByID (TrimSpace id) (as_store s)) as Ht. rewrite Hg in Ht. cbn in Ht.
  apply GetByID_inv in Hg as (a & row & Ha & Hrow & Hlive & ->). apply CanUserPerform_inv in Hc as (u & a' & Huu & Ha' & Hcan).
  rewrite TrimSpace_idem in *. rewrite Ha in Ha'. injection Ha' as <-. cbn in Hcan. rewrite Ht in Hcan.
  exists u, a, row. split; [|by rewrite !TrimSpace_idem]. apply negb_true_iff in Haud.
  split_and!; try done. by exists id, act.
Qed.

(** ** The launch as a whole *)

Lemma and_then_run {R A B} (m : part site R A) (k : A → part site R B) s o s' : and_then m k s = (o, s') →
  (∃ a s1, m s = (Ok (inl a), s1) ∧ k a s1 = (o, s')) ∨
  (m s).2 = s' ∧ (∀ b, o ≠ Ok (inl b)) ∧ ∀ p, o = Ok (inr p) → m s = (Ok (inr p), s').
Proof.
  unfold and_then, bind. destruct (m s) as [[[a|p]| | |] s1]; [intros Hk; left; by exists a, s1|..];
    intros [= <- <-]; right; (split; [done|]); (split; [by intros b [=]|]); intros q [=]; by subst.
Qed.
Lemma handler_run {R} (m : part site R (reply R)) s o s' : handler m s = (o, s') →
  ∃ o', m s = (o', s') ∧ ∀ p, o = Ok p → o' = Ok (inl p) ∨ o' = Ok (inr p).
Proof.
  unfold handler, bind, ret. destruct (m s) as [[[p|p]| | |] s1]; intros [= <- <-]; eexists; (split; [reflexivity|]);
    intros q; try done; intros [= <-]; auto.
Qed.
(** Parts that stop only with errors. *)
Definition no_success {R A} (m : part site R A) : Prop := ∀ s code r s', m s ≠ (Ok (inr (Reply code r)), s').
Lemma no_success_and_then {R A B} (m : part site R A) (k : A → part site R B) :
  no_success m → (∀ a, no_success (k a)) → no_success (and_then m k).
Proof.
  intros Hm Hk s code r s' E. apply bind_ok in E as ([a|p] & s1 & Em & Ek); [by eapply Hk|].
  injection Ek as -> ->. by eapply Hm.
Qed.
Lemma no_success_attempt {R A} (m : M site A) (h : error → reply R) :
  (∀ e code r, h e ≠ Reply code r) → no_success (attempt m h).
Proof. intros Hh s code r s'. unfold attempt, try, bind, ret. destruct (m s) as [[]]; try done. intros [= E _]. by eapply Hh. Qed.
Lemma no_success_go_on {R A} (a : A) : no_success (go_on (S:=site) (R:=R) a).
Proof. by intros s code r s' [=]. Qed.
Lemma no_success_need {R A} (o : option A) code msg : no_success (need (R:=R) o code msg).
Proof. by destruct o; intros s c r s' [=]. Qed.
Lemma no_success_require {R} b code msg : no_success (require (R:=R) b code msg).
Proof. by destruct b; intros s c r s' [=]. Qed.
Lemma no_success_or_stop {R A} (o : A + error) code msg : no_success (or_stop (R:=R) o code msg).
Proof. by destruct o; intros s c r s' [=]. Qed.
Lemma no_success_or_500 {R A} (m : M site A) msg : no_success (or_500 (R:=R) m msg).
Proof. by apply no_success_attempt. Qed.
Lemma admit_no_success rq : no_success (admission rq).
Proof.
  unfold admission. apply no_success_and_then; [apply no_success_need|intros user].
  apply no_success_and_then; [apply no_success_require|intros _].
  apply no_success_and_then; [apply no_success_need|intros [id act]]. cbv zeta.
  apply no_success_and_then; [apply no_success_require|intros _].
  apply no_success_and_then; [apply no_success_attempt; intros e c r; by destruct (bool_decide _)|intros asset].
  apply no_success_and_then; [intros s c r s'; by destruct (protocolForLaunch _ _) as [|[]]|intros protocol].
  apply no_success_and_then; [apply no_success_or_500|intros b].
  apply no_success_and_then; [apply no_success_require|intros _]. apply no_success_go_on.
Qed.

Lemma launch_redis_id cipher px rq user asset action launch s l s' :
  launch_redis cipher px rq user asset action launch s = (Ok (inl l), s') → lr_SessionID l = lr_SessionID launch.
Proof.
  unfold launch_redis. intros (c & s1 & _ & K)%and_then_inl.
  do 4 apply and_then_inl in K as (? & ? & _ & K). apply and_then_inl in K as ([h q] & s2 & _ & K).
  by injection K as <- _.
Qed.
Lemma prepare_id cipher px rq user asset action launch s l s' :
  prepare cipher px rq user asset action launch s = (Ok (inl l), s') → lr_SessionID l = lr_SessionID launch.
Proof.
  unfold prepare. intros (l1 & s1 & K1 & K)%and_then_inl. apply and_then_inl in K as (l2 & s2 & K2 & K).
  apply and_then_inl in K as (l3 & s3 & K3 & K4).
  transitivity (lr_SessionID l3); [|transitivity (lr_SessionID l2); [|transitivity (lr_SessionID l1)]].
  - destruct (_ && _) in K4; [by apply launch_redis_id in K4|by injection K4 as <- _].
  - destruct (_ && _) in K3; [by apply launch_sftp_id in K3|by injection K3 as <- _].
  - destruct (_ && _) in K2; [by apply launch_linux_id in K2|by injection K2 as <- _].
  - destruct (_ && _) in K1; [by apply launch_database_id in K1|by injection K1 as <- _].
Qed.
Lemma buildLaunchResponse_id l resp : buildLaunchResponse l = inl resp → lre_SessionID resp = lr_SessionID l.
Proof. unfold buildLaunchResponse. cbv zeta. repeat case_match; by intros [= <-]. Qed.

(** After the session is made: only its registrations, and a success that
    names it. *)
Definition finish_launch (cipher : Cipher) (cfg : Config) (px : proxies) (rq : launch_request) (user : CurrentUser)
    (asset : Assets.asset) (action : bytes) (launch : LaunchResult) : part site launchResponse (reply launchResponse) :=
  step! launch := prepare cipher px rq user asset action launch in
  step! resp := or_stop (buildLaunchResponse launch) StatusInternalServerError §"failed to build launch response" in
  then! require (negb (ConnectorTokenEnabled cfg && bool_decide (TrimSpace (lre_ConnectorToken resp) = [])))
          StatusInternalServerError §"failed to issue connector token for launch" in
  go_on (Reply StatusOK resp).
Lemma finish_serves cipher cfg px rq user asset action launch :
  keeps (serves (TrimSpace (lr_SessionID launch), TrimSpace (cu_ID user), TrimSpace (A_ID asset)))
    (finish_launch cipher cfg px rq user asset action launch).
Proof.
  apply keeps_and_then; [apply _|apply prepare_serves|intros l].
  apply keeps_and_then; [apply _|apply keeps_or_stop, _|intros resp].
  apply keeps_and_then; [apply _|apply keeps_require, _|intros _]. apply keeps_go_on, _.
Qed.
Lemma finish_reply cipher cfg px rq user asset action launch s p s' :
  finish_launch cipher cfg px rq user asset action launch s = (Ok (inl p), s') →
  ∃ resp, p = Reply StatusOK resp ∧ lre_SessionID resp = lr_SessionID launch.
Proof.
  intros (l & s1 & Hp & K)%and_then_inl. apply and_then_inl in K as (resp & s2 & Hr & K).
  apply and_then_inl in K as (? & s3 & _ & K). injection K as <- _. exists resp. split; [done|].
  destruct (buildLaunchResponse l) eqn:E; [|done]. injection Hr as <- _.
  rewrite (buildLaunchResponse_id _ _ E). by apply prepare_id in Hp.
Qed.

Lemma no_success_if {R A} (b : bool) (m1 m2 : part site R A) : no_success m1 → no_success m2 → no_success (if b then m1 else m2).
Proof. by destruct b. Qed.
#[local] Ltac errors_only :=
  repeat match goal with
  | |- no_success (and_then _ _) => apply no_success_and_then; [|intros ?]
  | |- no_success (go_on _) => apply no_success_go_on
  | |- no_success (need _ _ _) => apply no_success_need
  | |- no_success (require _ _ _) => apply no_success_require
  | |- no_success (or_stop _ _ _) => apply no_success_or_stop
  | |- no_success (or_500 _ _) => apply no_success_or_500
  | |- no_success (if _ then _ else _) => apply no_success_if
  | x : _ * _ |- _ => destruct x
  | |- _ => progress cbv zeta
  end.
Lemma register_database_no_success px rq user asset launch meta username :
  no_success (register_database px rq user asset launch meta username).
Proof. unfold register_database. errors_only. Qed.
Lemma prepare_no_success cipher px rq user asset action launch :
  no_success (prepare cipher px rq user asset action launch).
Proof.
  pose proof register_database_no_success.
  unfold prepare, launch_database, launch_linux, launch_sftp, launch_redis, record_usage. errors_only; auto.
Qed.
Lemma finish_no_success cipher cfg px rq user asset action launch :
  no_success (finish_launch cipher cfg px rq user asset action launch).
Proof. unfold finish_launch. errors_only. apply prepare_no_success. Qed.

Lemma protocolForLaunch_trimmed ty act p : protocolForLaunch ty act = inl p → TrimSpace p = p.
Proof. unfold protocolForLaunch. repeat case_match; intros [= <-]; by vm_compute. Qed.

(** One new session of a user on an asset, and what was registered for it. *)
Definition one_session (user : CurrentUser) (action protocol u a sid : bytes) (s s' : site) : Prop :=
  si_sessions s !! sid = None ∧
  (∃ row, si_sessions s' = <[sid := row]> (si_sessions s) ∧ s_user row = u ∧ s_asset row = a ∧
     s_protocol row = protocol ∧ s_status row = StatusPending ∧ s_reason row = Some (§"action:" ++ action)) ∧
  ∃ l, si_registered s' = si_registered s ++ l ∧ Forall (λ r, reg_owner r = (sid, TrimSpace (cu_ID user), a)) l.

Lemma launched_row rq user assetID action protocol cu ca row u a :
  launch_row (launch_input rq user assetID action protocol) cu ca row →
  pg_uuid (TrimSpace (cu_ID user)) = Some u → pg_uuid assetID = Some a →
  TrimSpace assetID = assetID → TrimSpace action = action → TrimSpace protocol = protocol →
  s_user row = u ∧ s_asset row = a ∧ s_protocol row = protocol ∧ s_status row = StatusPending ∧
  s_reason row = Some (§"action:" ++ action).
Proof.
  unfold launch_row, launch_input. cbn [in_UserID in_AssetID in_Protocol in_Action].
  intros (Hcu & Hca & R1 & R2 & R3 & R4 & R5) Hu Ha Ta Tact Tp. rewrite Ta, Tp, Tact in *. split_and!; congruence.
Qed.

Context `{!PostgresLaws}.

(** What a launch may do, and what it answers. *)
Definition launch_effect (rq : launch_request) (s : site) (o : outcome (reply launchResponse)) (s' : site) : Prop :=
  si_tables s' = si_tables s ∧
  ((si_sessions s' = si_sessions s ∧ si_registered s' = si_registered s ∧ ∀ code resp, o ≠ Ok (Reply code resp)) ∨
   ∃ user assetID action protocol u a row sid,
     permitted (si_tables s) rq user assetID action protocol u a row ∧
     one_session user action protocol u a sid s s' ∧
     ∀ code resp, o = Ok (Reply code resp) → code = StatusOK ∧ lre_SessionID resp = sid).
Lemma Launch_run cipher cfg px rq s o s' : Launch cipher cfg px rq s = (o, s') → launch_effect rq s o s'.
Proof.
  unfold launch_effect. intros (o1 & Hrun & Ho)%handler_run.
  apply and_then_run in Hrun as [([[[[user asset] assetID] action] protocol] & s1 & Ha & Hrun)|(<- & Hno & Hstop)].
  2: { pose proof (admit_quiet rq s) as (Q1&Q2&_&_&Q5). split; [done|]. left. split_and!; [done..|].
       intros code resp E. destruct (Ho _ E) as [->| ->]; [by eapply Hno|].
       by eapply admit_no_success, Hstop. }
  pose proof (admit_quiet rq s) as (Q1&Q2&_&_&Q5). rewrite Ha in Q1, Q2, Q5. cbn [snd] in Q1, Q2, Q5.
  apply admit_ok in Ha as (u & a & row & Hperm & -> & Htid & Hta).
  pose proof Hperm as (_ & _ & _ & Hu & Hida & _ & _ & Hprot & _). apply protocolForLaunch_trimmed in Hprot.
  destruct (in_sessions (CreateLaunch cfg (launch_input rq user assetID action protocol)) s1) as [oc s2] eqn:Ec.
  pose proof Ec as Ed. unfold in_sessions, zoom in Ed.
  destruct (CreateLaunch cfg _ (as_db s1)) as [oc' d2] eqn:Ecl. injection Ed as -> <-.
  apply CreateLaunch_session in Ecl. cbn [as_db d_sessions d_steps] in Ecl.
  assert (Hrow : ∀ cu ca r, launch_row (launch_input rq user assetID action protocol) cu ca r → _)
    by (intros cu ca r Hr; exact (launched_row _ _ _ _ _ _ _ _ _ _ Hr Hu Hida Htid Hta Hprot)).
  apply and_then_run in Hrun as [(launch & s3 & Hc%attempt_inl & Hrun)|(Hs' & Hno & Hstop)].
  - rewrite Ec in Hc. injection Hc as -> <-.
    destruct Ecl as [[_ Hn]|(cu & ca & srow & Hr%Hrow & Hfresh & Hins & Hid)]; [by destruct (Hn launch)|].
    pose proof (finish_serves cipher cfg px rq user (asset_of (a, row)) action launch (from_db d2 s1)) as Hserve.
    change (finish_launch cipher cfg px rq user (asset_of (a, row)) action launch (from_db d2 s1) = (o1, s')) in Hrun.
    rewrite Hrun, (Hid _ eq_refl) in Hserve. destruct Hserve as (T & SS & l & L & F).
    cbn [snd from_db si_tables si_sessions si_registered] in *.
    destruct (pg_uuid_text _ _ (pg_random_canonical (si_steps s1))) as (_ & Tsid & _).
    destruct (pg_uuid_text _ _ Hida) as (_ & Ta & _). change (A_ID (asset_of (a, row))) with a in F.
    rewrite Tsid, Ta in F. split; [congruence|]. right.
    exists user, assetID, action, protocol, u, a, row, (pg_random_uuid (si_steps s1)).
    split; [exact Hperm|]. rewrite Q2 in *. split.
    { split; [done|]. split; [|exists l; by rewrite L, Q5]. exists srow. by rewrite SS. }
    intros code resp E. destruct (Ho _ E) as [->| ->]; [|by apply finish_no_success in Hrun].
    apply finish_reply in Hrun as (resp' & [= -> ->] & Hlre). split; [done|]. by rewrite Hlre, (Hid _ eq_refl).
  - assert (s' = from_db d2 s1) as ->.
    { rewrite <- Hs'. unfold or_500, attempt, try, bind, ret. rewrite Ec. by destruct oc. }
    assert (Hnone : ∀ code resp, o ≠ Ok (Reply code resp)).
    { intros code resp E. destruct (Ho _ E) as [->| ->]; [by eapply Hno|]. by eapply no_success_or_500, Hstop. }
    cbn [from_db si_tables si_sessions si_registered]. split; [done|].
    destruct Ecl as [[-> _]|(cu & ca & srow & Hr%Hrow & Hfresh & Hins & Hid)]; [left; by split_and!|].
    right. exists user, assetID, action, protocol, u, a, row, (pg_random_uuid (si_steps s1)).
    split; [exact Hperm|]. rewrite Q2 in *. split; [|intros code resp E; by destruct (Hnone code resp)].
    split; [done|]. split; [by exists srow|]. exists []. cbn [from_db si_registered]. by rewrite app_nil_r.
Qed.

(** C3. A launch does something only for a user whom a grant allows it: whatever
    fails, the tables of users, assets, grants and credentials stay as they
    are; and either no session was made, nothing was registered and the answer
    is an error, or the request came from a user who is not a read-only
    auditor and whom a grant allows the action on a live asset of the right
    type.  Then there is one new session, pending, at a fresh id, of that user
    and asset; every registration made with a proxy is of that session; and
    a success is a 200 that names it. *)
Theorem launches_need_access cipher cfg px rq s o s' :
  Launch cipher cfg px rq s = (o, s') →
  si_tables s' = si_tables s ∧
  ((si_sessions s' = si_sessions s ∧ si_registered s' = si_registered s ∧ ∀ code resp, o ≠ Ok (Reply code resp)) ∨
   ∃ user assetID action protocol u a row sid,
     permitted (si_tables s) rq user assetID action protocol u a row ∧
     one_session user action protocol u a sid s s' ∧
     ∀ code resp, o = Ok (Reply code resp) → code = StatusOK ∧ lre_SessionID resp = sid).
Proof. apply Launch_run. Qed.

(** ** TLS of an MSSQL launch *)

Lemma required_mode_coerced mode :
  RequireTLS (classifySSLMode mode) = true → normalizeMSSQLSSLMode (TrimSpace mode) = §"disable".
Proof.
  unfold classifySSLMode, normalizeMSSQLSSLMode. cbv zeta. rewrite TrimSpace_idem.
  generalize (ToLower (TrimSpace mode)). intros t Hr.
  destruct (decide (t ∈ [§"require"; §"required"; §"true"; §"encrypt"; §"verify-ca"; §"verify-full";
                         §"verify_ca"; §"verify_identity"])) as [Hin|Hout].
  - rewrite (bool_decide_true (t ∈ [§"require"; _; _; _; _; _; _; _])) by exact Hin. by destruct (bool_decide (t = [])).
  - exfalso. revert Hr. repeat (case_bool_decide; [try done; intros _; destruct Hout; rewrite !elem_of_cons in *; tauto|]). done.
Qed.
Lemma mssql_metadata raw m : stored_db_metadata raw = Some m → canonical_engine (me_Engine m) = §"mssql" →
  RequireTLS (classifySSLMode (me_SSLMode m)) = true →
  ∃ meta, parseDBMetadata raw = Some meta ∧ me_Engine meta = §"mssql" ∧ me_SSLMode meta = §"disable".
Proof.
  intros Hs He Hr. unfold parseDBMetadata. rewrite bool_decide_false; [|intros ->; by vm_compute in Hs].
  rewrite Hs. cbn [mbind option_bind]. cbv zeta. rewrite He, (required_mode_coerced _ Hr).
  eexists. split; [reflexivity|]. done.
Qed.

(** Registrations of one kind were added. *)
Lemma keeps_need_then {A B} (P : site → site → Prop) `{!PreOrder P} (o : option A) code msg
    (k : A → part site launchResponse B) :
  (∀ a, o = Some a → keeps P (k a)) → keeps P (and_then (need o code msg) k).
Proof. intros Hk s. destruct o as [a|]; [by apply (Hk a)|reflexivity]. Qed.
Definition adds (good : registration → Prop) (s s' : site) : Prop :=
  ∃ l, si_registered s' = si_registered s ++ l ∧ Forall good l.
#[export] Instance adds_preorder good : PreOrder (adds good).
Proof.
  split; [intros s; exists []; by rewrite app_nil_r|]. intros x y z (l & L & F) (k & K & G). exists (l ++ k).
  rewrite K, L, app_assoc. split; [done|]. by apply Forall_app.
Qed.
Lemma quiet_adds good s s' : quiet s s' → adds good s s'.
Proof. intros (_&_&_&_&E). exists []. by rewrite app_nil_r. Qed.
Lemma in_sessions_adds {A} good (m : M db A) : keeps (adds good) (in_sessions m).
Proof. intros s. exists []. unfold in_sessions, zoom. destruct (m _). by rewrite app_nil_r. Qed.
Lemma RegisterSession_adds good p reg : (∀ r, reg = inl r → good r) → keeps (adds good) (RegisterSession p reg).
Proof.
  intros Hr s. destruct reg as [r|e]; [|reflexivity]. cbn. destruct (px_listen p); [|reflexivity].
  exists [r]. split; [done|]. constructor; [by apply Hr|done].
Qed.

(** C32. What a launch registers for an MSSQL asset that is configured to require
    TLS — a mode of which the proxy's own [classifySSLMode] says that TLS is
    required — has the mode "disable": the proxy will neither require nor ask
    for TLS on the upstream. *)
Theorem required_tls_is_dropped cipher px rq user asset action launch m s o s' :
  stored_db_metadata (A_MetadataJSON asset) = Some m → canonical_engine (me_Engine m) = §"mssql" →
  RequireTLS (classifySSLMode (me_SSLMode m)) = true →
  launch_database cipher px rq user asset action launch s = (o, s') →
  adds (λ r, ∃ reg, r = RegisterMssql reg ∧ classifySSLMode (Mssql.m_SSLMode reg) = SSLMode false false false) s s'.
Proof.
  intros Hs He Hr Hrun. destruct (mssql_metadata _ _ Hs He Hr) as (meta & Hmeta & Heng & Hmode).
  set (good := λ r, _).
  assert (Hk : keeps (adds good) (launch_database cipher px rq user asset action launch));
    [|by specialize (Hk s); rewrite Hrun in Hk].
  unfold launch_database. rewrite Hmeta.
  apply keeps_and_then; [apply _|apply keeps_or_500; [apply _|]|intros cred].
  { eapply keeps_weaken; [apply quiet_adds|apply keeps_in_store, reads_Resolve]. }
  apply keeps_need_then; [apply _|intros ? [= <-]].
  apply keeps_and_then; [apply _|apply keeps_or_500; [apply _|]; apply in_sessions_adds|intros _]. cbv zeta.
  apply keeps_and_then; [apply _| |intros [h p]; apply keeps_go_on, _].
  unfold register_database. cbv zeta. rewrite Heng, bool_decide_false, bool_decide_true by (by apply (bool_decide_unpack _); vm_compute).
  apply keeps_and_then; [apply _|apply keeps_need, _|intros q]. apply keeps_or_500; [apply _|].
  apply RegisterSession_adds. intros r Hn. unfold register_as, Mssql.normalizeRegistration in Hn. cbv zeta in Hn.
  repeat match type of Hn with context [if ?b then _ else _] => destruct b; try discriminate Hn end.
  injection Hn as <-. eexists. split; [reflexivity|]. change (Mssql.m_SSLMode _) with (TrimSpace (me_SSLMode meta)).
  rewrite Hmode. by vm_compute.
Qed.
End Facts.

(** * Witnesses: a user who may open a database of MS SQL and a shell, a proxy,
    and a request for each. *)

#[local] Existing Instance demo_pg.
#[local] Existing Instance demo_pg_text.
#[local] Existing Instance demo_pg_laws.
#[local] Existing Instance ascii_tables.

Definition launch_credential (asset ty name secret : bytes) : credential_row :=
  let aad := §"asset:" ++ asset ++ §":type:" ++ ty in
  CredentialRow §"n0" algorithmAES256GCM §"v1" demo_nonce (gcm_seal (key demo_cipher) demo_nonce secret aad) aad
    §"{}" (Some name) None 0 0 (Some 0).
(** JSON texts, with other quotes. *)
Definition quoted (s : bytes) : bytes := ReplaceByte s "'"%byte [quote_byte].
Definition launch_demo_tables : tables :=
  Tables {[§"u1" := UserRow §"ann" None None true §"local" None 0 None]} ∅ ∅ ∅
    {[§"a1" := PointRow §"vm" §"linux_vm" §"10.0.0.9" 22 §"{}" §"active" None 0;
      §"d1" := PointRow §"erp" §"database" §"10.0.0.7" 1433
                 (quoted §"{'engine':'sqlserver','database':'erp','ssl_mode':'require'}") §"active" None 0]}
    {[GrantKey §"user" §"u1" §"a1" ActionShell := GrantRow §"allow" None 0;
      GrantKey §"user" §"u1" §"d1" ActionDBeaver := GrantRow §"allow" None 0]}
    ∅ None [] {[(§"a1", §"password") := launch_credential §"a1" §"password" §"root" §"hunter2";
                (§"d1", §"db_password") := launch_credential §"d1" §"db_password" §"sa" §"s3cret"]} ∅.
Definition launch_demo : site := Site launch_demo_tables ∅ [] [] 0 [] [].
Definition launch_demo_config : Config := {|
  cfg_LaunchTokenSecret := §"secret"; cfg_LaunchTokenTTL := 60 * 10 ^ 9; cfg_ConnectorSecret := None;
  cfg_MaterializeTimeout := 0; cfg_ProxyHost := §"proxy"; cfg_ProxyPort := 2222; cfg_ProxyUsername := §"accessd" |}.
Definition launch_demo_proxies : proxies :=
  Proxies None (Some (Proxy §"proxy" (inl 40001))) None None None.
Definition launch_demo_request (body : bytes) : launch_request :=
  LaunchRequest (Some (MkCurrentUser §"u1" §"ann" [] [] §"local" [§"operator"])) body §"req-1" §"192.0.2.1:5000" §"UI" 0 0.
Definition launch_demo_run (body : bytes) :=
  Launch demo_cipher launch_demo_config launch_demo_proxies (launch_demo_request body) launch_demo.

Definition launch_demo_shell : bytes := quoted §"{'asset_id':'a1','action':'shell'}".
Definition launch_demo_dbeaver : bytes := quoted §"{'asset_id':'d1','action':'dbeaver'}".
Definition launch_demo_forbidden : bytes := quoted §"{'asset_id':'a1','action':'sftp'}".
(** The status, the session and the name for a client of a success. *)
Definition answered (o : outcome (reply launchResponse)) : option (Z * bytes * bytes) :=
  match o with Ok (Reply code r) => Some (code, lre_SessionID r, lp_Username (lre_Launch r)) | _ => None end.
Lemma launch_answers :
  (launch_demo_run launch_demo_forbidden).1 = Ok (ReplyError 403 §"access denied") ∧
  answered (launch_demo_run launch_demo_shell).1 = Some (200, §"n1", §"root") ∧
  answered (launch_demo_run launch_demo_dbeaver).1 = Some (200, §"n1", §"accessd").
Proof. split_and!; by vm_compute. Qed.

Lemma launches_need_access_witness :
  let s' := (launch_demo_run launch_demo_shell).2 in
  si_tables s' = launch_demo_tables ∧ ∃ protocol row sid,
    permitted launch_demo_tables (launch_demo_request launch_demo_shell)
      (MkCurrentUser §"u1" §"ann" [] [] §"local" [§"operator"]) §"a1" §"shell" protocol §"u1" §"a1" row ∧
    one_session (MkCurrentUser §"u1" §"ann" [] [] §"local" [§"operator"]) §"shell" protocol §"u1" §"a1" sid launch_demo s'.
Proof.
  destruct (launches_need_access demo_cipher launch_demo_config launch_demo_proxies
    (launch_demo_request launch_demo_shell) launch_demo _ _ (surjective_pairing _)) as [Ht [(_ & _ & Hno)|Hyes]].
  - exfalso. destruct launch_answers as (_ & Hs & _). unfold launch_demo_run in Hs. revert Hs Hno.
    generalize (Launch demo_cipher launch_demo_config launch_demo_proxies (launch_demo_request launch_demo_shell) launch_demo).1.
    intros [[code resp|]| | |] Hs Hno; try discriminate Hs. exact (Hno code resp eq_refl).
  - split; [exact Ht|]. destruct Hyes as (user & id & act & protocol & u & a & row & sid & Hp & Hone & _).
    destruct Hp as (Hu & Haud & (id' & act' & Hd & -> & ->) & Hp). injection Hu as <-.
    vm_compute in Hd. injection Hd as <- <-. destruct Hp as (Hu & Ha & Hp).
    vm_compute in Hu, Ha. injection Hu as <-. injection Ha as <-. exists protocol, row, sid.
    split; [|exact Hone]. unfold permitted.
    refine (conj eq_refl (conj Haud (conj _ (conj _ (conj _ Hp))))); [exists §"a1", §"shell"; split_and!|..]; by vm_compute.
Defined.

Definition launch_demo_pending : site :=
  Site launch_demo_tables {[§"n1" := SessionRow §"u1" §"d1" §"db" §"pending" None None None None 0]} [] [] 1 [] [].
Definition launch_demo_mssql :=
  launch_database demo_cipher launch_demo_proxies (launch_demo_request launch_demo_dbeaver)
    (MkCurrentUser §"u1" §"ann" [] [] §"local" [§"operator"])
    (asset_of (§"d1", PointRow §"erp" §"database" §"10.0.0.7" 1433
      (quoted §"{'engine':'sqlserver','database':'erp','ssl_mode':'require'}") §"active" None 0))
    §"dbeaver" (Build_LaunchResult §"n1" §"dbeaver" [] [] 0 [] None None None None) launch_demo_pending.
Lemma required_tls_is_dropped_witness :
  length (si_registered launch_demo_mssql.2) = 1%nat ∧
  adds (λ r, ∃ reg, r = RegisterMssql reg ∧ classifySSLMode (Mssql.m_SSLMode reg) = SSLMode false false false)
    launch_demo_pending launch_demo_mssql.2.
Proof.
  split; [by vm_compute|]. unfold launch_demo_mssql.
  refine (required_tls_is_dropped _ _ _ _ _ _ _ (DBMeta §"sqlserver" §"erp" §"require") _ _ _ _ _ _ (surjective_pairing _));
    by vm_compute.
Defined.
