(* ===== verification/LaunchSecret.v ===== *)
(** The answer to a launch does not depend on the secrets in the vault: two
    sites that differ in nothing but the sealed secrets are indistinguishable,
    and each part of the handler takes such sites to such sites with the same
    outcome. *)
From S2P Require Import Prelude GoStrings GoAes GoEncoding GoNet Tokens ProxyEvents Store PgServer Identity RateLimiter Ldap Auth Http Access Assets Credentials CredentialsSpec Redis Mysql Pg TdsWire Mssql Mongo Sessions SessionsSpec Launch LaunchSpec.

#[local] Opaque gcm_seal gcm_open gcm_fits.

(** * Indistinguishable sites *)

(** Two vaults under one cipher with the same user names. *)
Definition same_names (c : Cipher) (t1 t2 : tables) : Prop :=
  ∃ v1 v2, represents c t1 v1 ∧ represents c t2 v2 ∧ ∀ k, fst <$> v1 !! k = fst <$> v2 !! k.
Record indistinguishable (c : Cipher) (s1 s2 : site) : Prop := {
  in_tables : with_credentials (si_tables s1) ∅ = with_credentials (si_tables s2) ∅;
  in_vaults : same_names c (si_tables s1) (si_tables s2);
  in_sessions_same : si_sessions s1 = si_sessions s2;
  in_events : si_events s1 = si_events s2;
  in_audit : si_audit s1 = si_audit s2;
  in_steps : si_steps s1 = si_steps s2;
  in_faults : si_faults s1 = si_faults s2;
  in_registered : si_registered s1 = si_registered s2;
}.

(** The same outcome up to a relation of the values. *)
Definition outcome_rel {A B} (R : A → B → Prop) (o1 : outcome A) (o2 : outcome B) : Prop :=
  match o1, o2 with
  | Ok a, Ok b => R a b
  | Err e1, Err e2 => e1 = e2
  | Panic w1, Panic w2 => w1 = w2
  | OutOfFuel, OutOfFuel => True
  | _, _ => False
  end.
Definition hides {A} (c : Cipher) (R : A → A → Prop) (m : M site A) : Prop :=
  ∀ s1 s2, indistinguishable c s1 s2 →
    outcome_rel R (m s1).1 (m s2).1 ∧ indistinguishable c (m s1).2 (m s2).2.

Section Hides.
Context (c : Cipher).

Lemma hides_ret {A} (R : A → A → Prop) (a : A) : R a a → hides c R (ret a).
Proof. by intros Ha s1 s2 Hs. Qed.
Lemma hides_bind {A B} (R : A → A → Prop) (T : B → B → Prop) (m : M site A) (k : A → M site B) :
  hides c R m →
  (∀ a1 a2 s1 s2, R a1 a2 → indistinguishable c s1 s2 →
     outcome_rel T (k a1 s1).1 (k a2 s2).1 ∧ indistinguishable c (k a1 s1).2 (k a2 s2).2) →
  hides c T (bind m k).
Proof.
  intros Hm Hk s1 s2 Hs. specialize (Hm s1 s2 Hs) as [Ho Hs']. unfold bind.
  destruct (m s1) as [[] ?], (m s2) as [[] ?]; cbn in *; try done. by apply Hk.
Qed.
Lemma hides_eq_bind {A B} (T : B → B → Prop) (m : M site A) (k : A → M site B) :
  hides c eq m → (∀ a, hides c T (k a)) → hides c T (bind m k).
Proof. intros Hm Hk. eapply hides_bind; [done|]. intros a ? s1 s2 <- Hs. by apply Hk. Qed.
Lemma hides_try {A} (R : A → A → Prop) (m : M site A) : hides c R m →
  hides c (λ r1 r2, match r1, r2 with inl a1, inl a2 => R a1 a2 | inr e1, inr e2 => e1 = e2 | _, _ => False end) (try m).
Proof.
  intros Hm s1 s2 Hs. specialize (Hm s1 s2 Hs) as [Ho Hs']. unfold try.
  destruct (m s1) as [[] ?], (m s2) as [[] ?]; cbn in *; try done.
Qed.

(** ** Parts *)

Definition part_rel {A X} (R : A → A → Prop) (r1 r2 : A + X) : Prop :=
  match r1, r2 with inl a1, inl a2 => R a1 a2 | inr p1, inr p2 => p1 = p2 | _, _ => False end.
Definition part_hides {A X} (R : A → A → Prop) (m : part site X A) : Prop := hides c (part_rel R) m.

Lemma part_go_on {A X} (R : A → A → Prop) (a : A) : R a a → part_hides R (go_on (R:=X) a).
Proof. intros Ha. by apply hides_ret. Qed.
Lemma part_and_then {A B X} (R : A → A → Prop) (T : B → B → Prop) (m : part site X A) (k : A → part site X B) :
  part_hides R m →
  (∀ a1 a2 s1 s2, R a1 a2 → indistinguishable c s1 s2 →
     outcome_rel (part_rel T) (k a1 s1).1 (k a2 s2).1 ∧ indistinguishable c (k a1 s1).2 (k a2 s2).2) →
  part_hides T (and_then m k).
Proof.
  intros Hm Hk. eapply hides_bind; [exact Hm|]. intros [a1|p1] [a2|p2] s1 s2 HR Hs; try done. by apply Hk.
Qed.
Lemma part_eq_and_then {A B X} (T : B → B → Prop) (m : part site X A) (k : A → part site X B) :
  part_hides eq m → (∀ a, part_hides T (k a)) → part_hides T (and_then m k).
Proof. intros Hm Hk. eapply part_and_then; [done|]. intros a ? s1 s2 <- Hs. by apply Hk. Qed.
Lemma part_attempt {A X} (R : A → A → Prop) (m : M site A) (h : error → reply X) :
  hides c R m → part_hides R (attempt m h).
Proof.
  intros Hm. eapply hides_bind; [by apply hides_try|]. intros [a1|e1] [a2|e2] s1 s2 HR Hs; try done.
  cbn in HR. subst. by split.
Qed.
Lemma part_or_500 {A X} (R : A → A → Prop) (m : M site A) msg : hides c R m → part_hides R (or_500 (R:=X) m msg).
Proof. apply part_attempt. Qed.
Lemma part_need {A X} (o : option A) code msg : part_hides eq (need (R:=X) o code msg).
Proof. destruct o; by apply hides_ret. Qed.
Lemma part_require {X} b code msg : part_hides eq (require (R:=X) b code msg).
Proof. destruct b; by apply hides_ret. Qed.
Lemma part_or_stop {A X} (o : A + error) code msg : part_hides eq (or_stop (R:=X) o code msg).
Proof. destruct o; by apply hides_ret. Qed.
Lemma part_if {A X} (R : A → A → Prop) (b : bool) (m1 m2 : part site X A) :
  part_hides R m1 → part_hides R m2 → part_hides R (if b then m1 else m2).
Proof. by destruct b. Qed.
Lemma hides_handler {X} (m : part site X (reply X)) : part_hides eq m → hides c eq (handler m).
Proof.
  intros Hm. eapply hides_bind; [exact Hm|]. intros [a1|e1] [a2|e2] s1 s2 HR Hs; try done; cbn in HR; by subst.
Qed.
End Hides.

(** * The services *)

Section Facts.
Context `{Unicode} `{Postgres} `{PostgresText}.
Context (c : Cipher).

(** A statement on tables whose answer does not come from the vault. *)
Lemma indistinguishable_tables t s1 s2 f1 f2 b1 b2 :
  indistinguishable c s1 s2 → f1 = f2 →
  indistinguishable c (from_store (PgStore (si_tables s1) t f1 b1) s1) (from_store (PgStore (si_tables s2) t f2 b2) s2).
Proof. intros [] ->. by constructor. Qed.
Lemma hides_read {A} (R : A → A → Prop) (q : Z → nat → tables → (A * tables) + error) :
  (∀ now n t a t', q now n t = inl (a, t') → t' = t) →
  (∀ now n s1 s2, indistinguishable c s1 s2 →
     match q now n (si_tables s1), q now n (si_tables s2) with
     | inl (a1, _), inl (a2, _) => R a1 a2 | inr e1, inr e2 => e1 = e2 | _, _ => False end) →
  hides c R (in_store (query q)).
Proof.
  intros Hq HR s1 s2 Hs. pose proof Hs as []. unfold in_store, zoom, query, as_store, pg_clock. cbn.
  rewrite in_faults0, in_steps0. destruct (mjoin _) as [[]|] eqn:Ef; cbn;
    [split; [done|]; by apply indistinguishable_tables|..];
    specialize (HR (pg_now (si_steps s2)) (si_steps s2) s1 s2 Hs);
    destruct (q _ _ (si_tables s1)) as [[a1 t1]|e1] eqn:E1, (q _ _ (si_tables s2)) as [[a2 t2]|e2] eqn:E2;
    try apply Hq in E1; try apply Hq in E2; subst; cbn; try done; (split; [done|]); by apply indistinguishable_tables.
Qed.

Lemma hides_no_rows {A} (R : A → A → Prop) missing msg (m : M store A) :
  hides c R (in_store m) → hides c R (in_store (no_rows_as missing msg m)).
Proof.
  intros Hm s1 s2 Hs. specialize (Hm s1 s2 Hs) as [Ho Hs']. revert Ho Hs'. unfold in_store, zoom, no_rows_as.
  destruct (m (as_store s1)) as [[] ?], (m (as_store s2)) as [[] ?]; cbn; try done. by intros ->.
Qed.
Lemma hides_wrap {A} (R : A → A → Prop) msg (m : M store A) :
  hides c R (in_store m) → hides c R (in_store (wrap_err msg m)).
Proof.
  intros Hm s1 s2 Hs. specialize (Hm s1 s2 Hs) as [Ho Hs']. revert Ho Hs'. unfold in_store, zoom, wrap_err.
  destruct (m (as_store s1)) as [[] ?], (m (as_store s2)) as [[] ?]; cbn; try done. by intros ->.
Qed.
Lemma hides_guard {A} (R : A → A → Prop) (b : bool) e (m : M store A) :
  hides c R (in_store m) → hides c R (in_store (if b then m else fail e)).
Proof. destruct b; [done|]. intros _ s1 s2 Hs. pose proof Hs as []. split; [done|]. by constructor. Qed.
Lemma hides_row {A} (R : A → A → Prop) (q : tables → option A + error) :
  (∀ s1 s2, indistinguishable c s1 s2 →
     match q (si_tables s1), q (si_tables s2) with
     | inl o1, inl o2 => option_Forall2 R o1 o2 | inr e1, inr e2 => e1 = e2 | _, _ => False end) →
  hides c R (in_store (query_row q)).
Proof.
  intros Hq. apply hides_read.
  - intros now n t a t'. destruct (q t) as [[]|]; by intros [= _ <-].
  - intros now n s1 s2 Hs. specialize (Hq s1 s2 Hs).
    destruct (q (si_tables s1)) as [[]|], (q (si_tables s2)) as [[]|]; cbn; try done; inversion Hq; by subst.
Qed.

(** What the tables are but for the vault. *)
Lemma same_tables s1 s2 : indistinguishable c s1 s2 →
  t_assets (si_tables s1) = t_assets (si_tables s2) ∧ t_users (si_tables s1) = t_users (si_tables s2) ∧
  t_grants (si_tables s1) = t_grants (si_tables s2) ∧
  t_user_groups (si_tables s1) = t_user_groups (si_tables s2).
Proof. intros [Ht]. unfold with_credentials in Ht. injection Ht. by intros. Qed.
Lemma same_db s1 s2 : indistinguishable c s1 s2 → as_db s1 = as_db s2.
Proof. intros Hs. destruct (same_tables _ _ Hs) as (Ea & Eu & _). destruct Hs. unfold as_db. by rewrite Ea, Eu; f_equal. Qed.

Lemma hides_in_sessions {A} (m : M db A) : hides c eq (in_sessions m).
Proof.
  intros s1 s2 Hs. unfold in_sessions, zoom. rewrite (same_db _ _ Hs). destruct (m (as_db s2)) as [o d].
  split; [by destruct o|]. destruct Hs. by constructor.
Qed.
Lemma hides_GetByID x : hides c eq (in_store (GetByID x)).
Proof.
  apply hides_no_rows, hides_row. intros s1 s2 (Ea & _)%same_tables. destruct (pg_uuid _) as [u|]; [|done].
  unfold live_asset. rewrite Ea. by destruct (_ !! u).
Qed.
Lemma hides_CanUserPerform u a act : hides c eq (in_store (CanUserPerform u a act)).
Proof.
  apply hides_guard, hides_guard, hides_wrap, hides_read.
  - intros now n t b t'. repeat case_match; by intros [= _ <-].
  - intros now n s1 s2 (_ & _ & Eg & Egr)%same_tables. destruct (pg_uuid (TrimSpace u)), (pg_uuid (TrimSpace a)); try done.
    unfold can_perform, grant_reaches. by rewrite Eg, Egr.
Qed.
Lemma hides_RegisterSession p r : hides c eq (RegisterSession p r).
Proof.
  destruct r as [r|e]; [|by intros s1 s2 Hs]. intros s1 s2 Hs. unfold RegisterSession.
  destruct (px_listen p); [|by split]. destruct Hs. split; [done|]. constructor; cbn; congruence.
Qed.

(** Two credentials of one name. *)
Definition same_credential (r1 r2 : ResolvedCredential) : Prop := rc_Username r1 = rc_Username r2.
Hypothesis key_ok : aes_key_ok (key c) = true.
Lemma opens {S} r p (s : S) : row_holds c r p → Decrypt c (cr_nonce r) (cr_encrypted r) (cr_aad r) s = (Ok p.2, s).
Proof. intros (_ & Hn & Hf & He & _). by apply Decrypt_iff. Qed.
Lemma hides_credential asset ty : hides c same_credential (credential_for c asset ty).
Proof.
  apply hides_guard, hides_guard. set (q := λ t : tables, _ : option (bytes * credential_row) + error).
  assert (Hq : hides c (λ p1 p2, ∃ name secret1 secret2, row_holds c p1.2 (name, secret1) ∧ row_holds c p2.2 (name, secret2))
    (in_store (no_rows_as ErrCredentialNotFound §"resolve credential" (query_row q)))).
  { apply hides_no_rows, hides_row. intros s1 s2 Hs. unfold q. destruct (pg_uuid _) as [u|]; [|done].
    destruct (in_vaults _ _ _ Hs) as (v1 & v2 & R1 & R2 & Hsame). specialize (Hsame (u, ty)).
    destruct (represents_lookup _ _ _ (u, ty) R1) as [[-> E1]|(r1 & [name1 p1] & -> & E1 & W1)],
      (represents_lookup _ _ _ (u, ty) R2) as [[-> E2]|(r2 & [name2 p2] & -> & E2 & W2)];
      rewrite E1, E2 in Hsame; cbn in Hsame; simplify_eq; constructor. cbn. eauto. }
  intros s1 s2 Hs. specialize (Hq s1 s2 Hs) as [Ho Hs']. revert Ho Hs'. unfold in_store, zoom, bind.
  destruct (no_rows_as _ _ (query_row q) (as_store s1)) as [[[u1 r1]| | |] t1],
    (no_rows_as _ _ (query_row q) (as_store s2)) as [[[u2 r2]| | |] t2]; cbn; try done.
  intros (name & secret1 & secret2 & W1 & W2) Hs'. rewrite (opens _ _ _ W1), (opens _ _ _ W2). cbn.
  destruct W1 as [E1 _], W2 as [E2 _]. split; [|done]. unfold same_credential. cbn in *. by rewrite E1, E2.
Qed.
Lemma hides_linux_credential asset : hides c same_credential (linux_credential c asset).
Proof.
  intros s1 s2 Hs. unfold linux_credential. pose proof (hides_credential asset TypeSSHKey s1 s2 Hs) as [Ho Hs'].
  destruct (credential_for c asset TypeSSHKey s1) as [[] ?], (credential_for c asset TypeSSHKey s2) as [[] ?]; cbn in *; try done.
  subst. destruct (errors_is _ _); [by apply hides_credential|by split].
Qed.

(** ** The handler *)

(** The rest of a part sees the name of a credential only. *)
Lemma part_credential {B X} (T : B → B → Prop) (m : part site X ResolvedCredential) (k : ResolvedCredential → part site X B) :
  part_hides c same_credential m → (∀ r1 r2, same_credential r1 r2 → k r1 = k r2) → (∀ r, part_hides c T (k r)) →
  part_hides c T (and_then m k).
Proof. intros Hm Hk Hh. eapply part_and_then; [exact Hm|]. intros r1 r2 s1 s2 Hr Hs. rewrite (Hk r1 r2 Hr). by apply Hh. Qed.

#[local] Ltac part_steps :=
  repeat match goal with
  | |- part_hides _ _ (and_then (need _ _ _) _) => apply part_eq_and_then; [apply part_need|intros ?]
  | |- part_hides _ _ (and_then (require _ _ _) _) => apply part_eq_and_then; [apply part_require|intros _]
  | |- part_hides _ _ (and_then (or_stop _ _ _) _) => apply part_eq_and_then; [apply part_or_stop|intros ?]
  | |- part_hides _ _ (and_then (or_500 (credential_for _ _ _) _) _) =>
      apply part_credential; [apply part_or_500, hides_credential| |intros ?]
  | |- part_hides _ _ (and_then (or_500 (linux_credential _ _) _) _) =>
      apply part_credential; [apply part_or_500, hides_linux_credential| |intros ?]
  | |- part_hides _ _ (and_then (or_500 (in_sessions _) _) _) =>
      apply part_eq_and_then; [apply part_or_500, hides_in_sessions|intros ?]
  | |- part_hides _ _ (and_then (or_500 (RegisterSession _ _) _) _) =>
      apply part_eq_and_then; [apply part_or_500, hides_RegisterSession|intros ?]
  | |- part_hides _ _ (or_500 (RegisterSession _ _) _) => apply part_or_500, hides_RegisterSession
  | |- part_hides _ _ (and_then (if _ then _ else _) _) => apply part_eq_and_then; [apply part_if|intros ?]
  | |- part_hides _ _ (go_on _) => by apply part_go_on
  | |- part_hides _ _ (if _ then _ else _) => apply part_if
  | x : _ * _ |- _ => destruct x
  | |- ∀ r1 r2, same_credential r1 r2 → _ => intros ? ? ->; reflexivity
  | |- _ => progress cbv zeta
  end.

Section Request.
Context (cfg : Config) (px : proxies) (rq : launch_request) (user : CurrentUser) (asset : Assets.asset) (action : bytes).

Lemma hides_register_database launch meta username : part_hides c eq (register_database px rq user asset launch meta username).
Proof. unfold register_database. part_steps. Qed.
Lemma hides_launch_database launch : part_hides c eq (launch_database c px rq user asset action launch).
Proof.
  unfold launch_database, record_usage. part_steps.
  apply part_eq_and_then; [apply hides_register_database|intros [h p]; by apply part_go_on].
Qed.
Lemma hides_launch_linux launch : part_hides c eq (launch_linux c asset action launch).
Proof. unfold launch_linux. part_steps. Qed.
Lemma hides_launch_sftp launch : part_hides c eq (launch_sftp asset launch).
Proof. unfold launch_sftp. part_steps. Qed.
Lemma hides_launch_redis launch : part_hides c eq (launch_redis c px rq user asset action launch).
Proof. unfold launch_redis, record_usage. part_steps. Qed.
Lemma hides_finish launch : part_hides c eq (finish_launch c cfg px rq user asset action launch).
Proof.
  pose proof hides_launch_database. pose proof hides_launch_linux. pose proof hides_launch_sftp. pose proof hides_launch_redis.
  unfold finish_launch, prepare. apply part_eq_and_then; [|intros l]; part_steps; auto.
Qed.
End Request.

Lemma hides_admit rq : part_hides c eq (admission rq).
Proof.
  unfold admission. part_steps. apply part_eq_and_then; [apply part_attempt, hides_GetByID|intros asset].
  apply part_eq_and_then; [destruct (protocolForLaunch _ _) as [|[]]; by apply hides_ret|intros protocol].
  apply part_eq_and_then; [apply part_or_500, hides_CanUserPerform|intros b]. part_steps.
Qed.

(** C12. The answer to a launch does not depend on the secrets: on two sites that
    differ in the sealed credentials only, and whose vaults hold the same user
    names under the same pairs, every request has the same answer — a connector
    token, a password for the client, everything — and leaves the same
    sessions, events, audit trail and registrations with the proxies. *)
Theorem launch_hides_secrets cfg px rq s1 s2 :
  indistinguishable c s1 s2 →
  (Launch c cfg px rq s1).1 = (Launch c cfg px rq s2).1 ∧
  indistinguishable c (Launch c cfg px rq s1).2 (Launch c cfg px rq s2).2.
Proof.
  intros Hs. assert (Hh : hides c eq (Launch c cfg px rq)); [|destruct (Hh s1 s2 Hs) as [Ho Hs'];
    split; [by destruct (Launch c cfg px rq s1).1, (Launch c cfg px rq s2).1; cbn in Ho; try done; f_equal|done]].
  apply hides_handler. apply part_eq_and_then; [apply hides_admit|intros [[[[user asset] assetID] action] protocol]].
  apply part_eq_and_then; [apply part_or_500, hides_in_sessions|intros launch]. apply hides_finish.
Qed.
End Facts.

(** * Witness: the database of the demonstration with another secret. *)

#[local] Existing Instance demo_pg.
#[local] Existing Instance demo_pg_text.
#[local] Existing Instance ascii_tables.

Definition with_secret (secret : bytes) : site :=
  Site (with_credentials launch_demo_tables {[(§"d1", §"db_password") := launch_credential §"d1" §"db_password" §"sa" secret]})
    ∅ [] [] 0 [] [].
Lemma demo_indistinguishable secret1 secret2 : gcm_fits secret1 = true → gcm_fits secret2 = true →
  indistinguishable demo_cipher (with_secret secret1) (with_secret secret2).
Proof.
  intros Hf1 Hf2. constructor; try reflexivity.
  assert (Hrep : ∀ secret, gcm_fits secret = true →
    represents demo_cipher (si_tables (with_secret secret)) {[(§"d1", §"db_password") := (§"sa", secret)]}).
  { intros secret Hf k. unfold with_secret. cbn [si_tables].
    destruct (decide (k = (§"d1", §"db_password"))) as [->|Hk].
    - rewrite lookup_singleton_eq. cbn. rewrite lookup_singleton_eq. by repeat split.
    - rewrite lookup_singleton_ne by done. cbn. by rewrite lookup_singleton_ne. }
  exists {[(§"d1", §"db_password") := (§"sa", secret1)]}, {[(§"d1", §"db_password") := (§"sa", secret2)]}.
  split; [by apply Hrep|]. split; [by apply Hrep|]. intros k. by rewrite <- !lookup_fmap, !map_fmap_singleton.
Qed.
Lemma launch_hides_secrets_witness :
  let run secret := Launch demo_cipher launch_demo_config launch_demo_proxies (launch_demo_request launch_demo_dbeaver)
                      (with_secret secret) in
  answered (run §"s3cret").1 = Some (200, §"n1", §"accessd") ∧ (run §"s3cret").1 = (run §"another secret").1.
Proof.
  cbv zeta. split; [by vm_compute|].
  refine (proj1 (launch_hides_secrets demo_cipher _ launch_demo_config launch_demo_proxies
    (launch_demo_request launch_demo_dbeaver) (with_secret _) (with_secret _) _)); [by vm_compute|].
  apply demo_indistinguishable; by vm_compute.
Defined.
