(* ===== verification/AuthService.v ===== *)
(** The authentication service: which provider a login uses, the login itself
    with its rate limit, session and audit, and everything a session then does
    (apps/api/internal/auth/service.go, audit.go, provider_runtime_config.go). *)
From S2P Require Import Prelude GoStrings GoCrypto GoEncoding Store PgServer Identity RateLimiter Ldap Auth.

Record Service := { svc_cfg : AuthConfig; svc_provider : Provider }.

Definition AuditLoginSuccess : bytes := §"login_success".
Definition AuditLoginFailed : bytes := §"login_failed".
Definition AuditLoginFailedInvalidPass : bytes := §"login_failed_invalid_password".
Definition AuditLoginFailedUserNotFound : bytes := §"login_failed_user_not_found".
Definition AuditLoginFailedLDAPError : bytes := §"login_failed_ldap_error".
Definition AuditLoginFailedRateLimited : bytes := §"login_failed_rate_limited".
Definition AuditPasswordChangeSuccess : bytes := §"password_change_success".
Definition AuditPasswordChangeFailed : bytes := §"password_change_failed".

Definition parseSameSite `{Unicode} (raw : bytes) : SameSite :=
  let raw := ToLower (TrimSpace raw) in
  if bool_decide (raw = §"none") then SameSiteNone
  else if bool_decide (raw = §"strict") then SameSiteStrict
  else SameSiteLax.

Definition classifyLoginFailure (err : error) : bytes * bytes :=
  match as_ldap_error err with
  | Some ldapUserNotFound => (AuditLoginFailedUserNotFound, §"user_not_found")
  | Some ldapInvalidPassword => (AuditLoginFailedInvalidPass, §"invalid_password")
  | Some ldapTLSOrConnectivity => (AuditLoginFailedLDAPError, §"ldap_tls_or_connectivity")
  | Some ldapBindSearchConfig => (AuditLoginFailedLDAPError, §"ldap_bind_or_search_config")
  | None =>
      if errors_is err §"auth.ErrInvalidCredentials" then (AuditLoginFailed, §"invalid_credentials")
      else (AuditLoginFailed, §"provider_error")
  end.

Definition rateLimitKey `{Unicode} (username : bytes) : bytes := §"user:" ++ ToLower username.

(** What the middleware answers: an error of its own or what the handler makes
    of the request. *)
Inductive response A := AuthError (status : Z) (message : bytes) | Served (a : A).
Arguments AuthError {A}.
Arguments Served {A}.

Section AuthService.
Context `{Unicode} `{Postgres, PostgresText} `{Host} `{Bcrypt} `{Directory}.

Definition NewService (cfg : AuthConfig) : Service := {|
  svc_cfg := cfg;
  svc_provider := match NewProvider cfg with inl p => p | inr _ => LocalProvider end |}.
Definition new_limiter : LoginRateLimiter := NewLoginRateLimiter (5 * 60 * 10 ^ 9) 10.

(** ** Which provider *)

Definition with_mode (cfg : AuthConfig) (mode : bytes) (ldap : LDAPConfig) : AuthConfig := {|
  SessionCookieName := SessionCookieName cfg; SessionTTL := SessionTTL cfg;
  SessionSecure := SessionSecure cfg; SessionSameSite := SessionSameSite cfg;
  DevAdminUsername := DevAdminUsername cfg; DevAdminPassword := DevAdminPassword cfg;
  DevAdminEmail := DevAdminEmail cfg; DevAdminName := DevAdminName cfg;
  ProviderMode := mode; LDAP := ldap |}.

(** A missing row or a missing table ([42P01]) means local logins. *)
Definition resolveAuthConfigFromAdmin (base : AuthConfig) : M store AuthConfig :=
  let! row := try (query_row (λ t, inl (t_ldap_settings t))) in
  match row with
  | inr e =>
      if errors_is e §"pgx.ErrNoRows" || errors_is e §"pg:42P01" then ret (with_mode base §"local" (LDAP base))
      else fail (Wrap §"query ldap_settings" e)
  | inl r => ret (with_mode base (provider_mode_of r) (resolved_ldap r))
  end.

(** [SELECT COALESCE(auth_provider, 'local') FROM users WHERE lower(username) =
    lower($1) ORDER BY username LIMIT 1]. *)
Definition mapped_provider (t : tables) (username : bytes) : option bytes :=
  option_map (λ p : bytes * user_row, u_auth_provider p.2) (head (order_text (λ p : bytes * user_row, u_username p.2)
    (users_named t (λ r, bool_decide (pg_lower (u_username r) = pg_lower username))))).
Definition lookupMappedAuthProvider (username : bytes) : M store (option bytes) :=
  let! r := try (query_row (λ t,
    if pg_text (TrimSpace username) then inl (mapped_provider t (TrimSpace username)) else inr pg_bad_text)) in
  match r with
  | inl provider => ret (Some (ToLower (TrimSpace provider)))
  | inr e => if errors_is e §"pgx.ErrNoRows" then ret None else fail (Wrap §"query user auth provider" e)
  end.

Definition resolveProviderForLogin (s : Service) (username : bytes) : M store Provider :=
  let! cfg := try (resolveAuthConfigFromAdmin (svc_cfg s)) in
  match cfg with
  | inr _ => ret (svc_provider s)
  | inl resolvedCfg =>
      let mode := ToLower (TrimSpace (ProviderMode resolvedCfg)) in
      let mode := if bool_decide (mode = []) then §"local" else mode in
      let! mapped := try (lookupMappedAuthProvider username) in
      let ldap wrapped :=
        match NewLDAPProvider (LDAP resolvedCfg) with inl p => wrapped (TheLDAPProvider p) | inr _ => LocalProvider end in
      ret match mapped with
          | inl (Some provider) => if bool_decide (provider = §"ldap") then ldap id else LocalProvider
          | _ =>
              if bool_decide (mode = §"ldap") then ldap id
              else if bool_decide (mode = §"hybrid") then ldap (λ p, FallbackProvider p LocalProvider)
              else LocalProvider
          end
  end.

(** ** Sessions *)

Definition newSessionToken : M world bytes :=
  let! raw := outside host_random in
  let! raw := lift raw in
  ret (b64_encode raw).

Definition revoke (now : Z) (r : auth_session_row) : auth_session_row :=
  AuthSession (as_user r) (as_expires_at r) (Some now) (as_last_seen_at r).
Definition touch (now : Z) (r : auth_session_row) : auth_session_row :=
  AuthSession (as_user r) (as_expires_at r) (as_revoked_at r) (Some now).
Definition live (now : Z) (r : auth_session_row) : bool :=
  bool_decide (as_revoked_at r = None) && (now <? as_expires_at r).

Definition revoke_sessions (userID : bytes) : M store unit :=
  query (λ now _ t, match pg_uuid userID with
    | None => inr pg_bad_uuid
    | Some u => inl (tt, with_auth_sessions t
        ((λ r, if bool_decide (as_user r = u) && live now r then revoke now r else r) <$> t_auth_sessions t))
    end).
Definition insert_session (userID tokenHash : bytes) (expiresAt : Z) : M store unit :=
  query (λ now _ t, match pg_uuid userID with
    | None => inr pg_bad_uuid
    | Some u =>
        if bool_decide (is_Some (t_users t !! u)) && bool_decide (t_auth_sessions t !! tokenHash = None)
        then inl (tt, with_auth_sessions t
               (<[tokenHash := AuthSession u expiresAt None (Some now)]> (t_auth_sessions t)))
        else inr pg_constraint
    end).
Definition storeSession (userID sessionToken : bytes) (expiresAt : Z) : M store unit :=
  transaction §"begin auth session tx" §"commit auth session tx" (
    do! wrap_err §"revoke prior auth sessions" (revoke_sessions userID) in
    wrap_err §"store auth session" (insert_session userID (hashSessionToken sessionToken) expiresAt)).

(** ** Audit *)

Definition recordLoginAudit (eventType username : bytes) (userID : option bytes)
    (sourceIP userAgent outcome providerName : bytes) : M world unit :=
  do! try (on_store (insert_audit_event eventType §"login" outcome userID sourceIP userAgent
    {[§"username" := username; §"provider" := providerName]})) in
  ret tt.
Definition recordPasswordChangeAudit (userID username sourceIP userAgent outcome : bytes) : M world unit :=
  do! try (on_store (insert_audit_event
    (if bool_decide (outcome = §"success") then AuditPasswordChangeSuccess else AuditPasswordChangeFailed)
    §"password_change" outcome (Some userID) sourceIP userAgent
    {[§"username" := username; §"provider" := §"local"]})) in
  ret tt.

(** ** Logging in *)

(** [int(ttl.Seconds())]. *)
Definition max_age (ttl : Z) : Z := Z.quot ttl (10 ^ 9).
Definition session_cookie (cfg : AuthConfig) (token : bytes) (expiresAt : Z) : Cookie :=
  MkCookie (SessionCookieName cfg) token §"/" true (SessionSecure cfg)
    (parseSameSite (SessionSameSite cfg)) expiresAt (max_age (SessionTTL cfg)).

(** The part of [LoginWithContext] after a successful authentication. *)
Definition open_session (s : Service) (req : LoginRequest) (username : bytes) (provider : Provider) (user : User)
    : M world (User * Cookie) :=
  let cfg := svc_cfg s in
  let! sessionToken := wrap_err §"generate session token" newSessionToken in
  let! now := outside host_now in
  let expiresAt := now + SessionTTL cfg in
  do! on_store (storeSession (ID user) sessionToken expiresAt) in
  do! recordLoginAudit AuditLoginSuccess username (Some (ID user)) (lq_SourceIP req) (lq_UserAgent req)
        §"success" (Name provider) in
  ret (user, session_cookie cfg sessionToken expiresAt).

Definition LoginWithContext (s : Service) (req : LoginRequest) : M world (User * Cookie) :=
  let username := TrimSpace (lq_Username req) in
  let key := rateLimitKey username in
  let! now := outside host_now in
  let! blocked := on_limiter (IsBlocked key now) in
  if blocked : bool then
    do! recordLoginAudit AuditLoginFailedRateLimited username None (lq_SourceIP req) (lq_UserAgent req)
          §"rate_limited" §"rate_limiter" in
    fail ErrRateLimited
  else
    let! provider := on_store (resolveProviderForLogin s username) in
    let! r := try (Authenticate provider username (lq_Password req)) in
    match r with
    | inr err =>
        let! now := outside host_now in
        do! on_limiter (λ rl, (tt, RecordFailure key now rl)) in
        let '(auditType, reason) := classifyLoginFailure err in
        do! recordLoginAudit auditType username None (lq_SourceIP req) (lq_UserAgent req) reason (Name provider) in
        if errors_is err §"auth.ErrInvalidCredentials" then fail ErrInvalidCredentials
        else fail (Wrap §"authenticate with provider " err)
    | inl user =>
        do! on_limiter (λ rl, (tt, Reset key rl)) in
        open_session s req username provider user
    end.
Definition Login (s : Service) (username password : bytes) : M world (User * Cookie) :=
  LoginWithContext s {| lq_Username := username; lq_Password := password; lq_SourceIP := []; lq_UserAgent := [] |}.

(** ** Using and ending a session *)

Definition Logout (sessionToken : bytes) : M store unit :=
  wrap_err §"revoke session" (query (λ now _ t,
    inl (tt, with_auth_sessions t (alter (λ r,
      if bool_decide (as_revoked_at r = None) then revoke now r else r)
      (hashSessionToken sessionToken) (t_auth_sessions t))))).

Definition session_user (now : Z) (t : tables) (tokenHash : bytes) : option (bytes * user_row) :=
  match t_auth_sessions t !! tokenHash with
  | Some r =>
      if live now r then
        match t_users t !! as_user r with
        | Some u => if u_is_active u then Some (as_user r, u) else None
        | None => None
        end
      else None
  | None => None
  end.
Definition ResolveCurrentUser (sessionToken : bytes) : M store CurrentUser :=
  let token := TrimSpace sessionToken in
  guard! negb (bool_decide (token = [])) else ErrUnauthorized in
  let tokenHash := hashSessionToken token in
  let! found := try (query (λ now _ t, match session_user now t tokenHash with
    | Some u => inl (u, t)
    | None => inr pg_no_rows
    end)) in
  match found with
  | inr _ => fail ErrUnauthorized
  | inl (id, u) =>
      let! roles := wrap_err §"load current user roles" (loadRoles id) in
      do! try (query (λ now _ t,
        inl (tt, with_auth_sessions t (alter (touch now) tokenHash (t_auth_sessions t))))) in
      ret (MkCurrentUser id (u_username u) (default [] (u_email u)) (default [] (u_display_name u))
             (u_auth_provider u) roles)
  end.

Definition ClearSessionCookie (s : Service) : Cookie :=
  MkCookie (SessionCookieName (svc_cfg s)) [] §"/" true (SessionSecure (svc_cfg s))
    (parseSameSite (SessionSameSite (svc_cfg s))) 0 (-1).

(** ** Middleware *)


(** [cookie] is the request's cookie of the service's name, if any. *)
Definition Authenticated {A} (cookie : option bytes) (next : CurrentUser → M store (response A)) : M store (response A) :=
  match cookie with
  | None => ret (AuthError 401 §"missing session")
  | Some value =>
      let! r := try (ResolveCurrentUser value) in
      match r with
      | inr _ => ret (AuthError 401 §"unauthorized")
      | inl user => next user
      end
  end.
Definition RequireRoles {A} (allowedRoles : list bytes) (cookie : option bytes)
    (next : CurrentUser → M store (response A)) : M store (response A) :=
  Authenticated cookie (λ currentUser,
    if existsb (HasRole currentUser) allowedRoles then next currentUser
    else ret (AuthError 403 §"forbidden")).

(** ** Changing a password *)

Definition ChangePassword (req : ChangePasswordRequest) : M world unit :=
  let userID := TrimSpace (cp_UserID req) in
  let currentPassword := TrimSpace (cp_CurrentPassword req) in
  let newPassword := TrimSpace (cp_NewPassword req) in
  guard! negb (bool_decide (userID = [])) else ErrUnauthorized in
  guard! negb (zlen newPassword <? 8) else ErrInvalidNewPassword in
  let! found := try (on_store (query_row (λ t, match pg_uuid userID with
    | Some u => inl (t_users t !! u)
    | None => inr pg_bad_uuid
    end))) in
  match found with
  | inr e => if errors_is e §"pgx.ErrNoRows" then fail ErrUserNotFound
             else fail (Wrap §"load user for password change" e)
  | inl r =>
      let audit := recordPasswordChangeAudit userID (u_username r) (cp_SourceIP req) (cp_UserAgent req) in
      let passwordHash := default [] (u_password_hash r) in
      if negb (bool_decide (u_auth_provider r = §"local")) then
        do! audit §"failed_non_local_user" in
        fail ErrPasswordChangeNotAllowed
      else if bool_decide (passwordHash = []) || negb (CompareHashAndPassword passwordHash currentPassword) then
        do! audit §"failed_invalid_current_password" in
        fail ErrInvalidCurrentPassword
      else
        let! h := outside (λ n, GenerateFromPassword n newPassword) in
        let! newHash := wrap_err §"hash new password" (lift h) in
        do! wrap_err §"update user password hash"
              (on_store (update_user userID (pg_text newHash) (set_password newHash))) in
        audit §"success"
  end.

(** ** Start-up *)

Definition upsert_role (name : bytes) : M store unit :=
  query (λ _ n t,
    if bool_decide (role_ids t name = []) then
      if bool_decide (t_roles t !! pg_random_uuid n = None)
      then inl (tt, with_roles t (<[pg_random_uuid n := name]> (t_roles t)))
      else inr pg_constraint
    else inl (tt, t)).
Fixpoint upsert_roles (names : list bytes) : M store unit :=
  match names with
  | [] => ret tt
  | name :: rest => do! wrap_err §"upsert role " (upsert_role name) in upsert_roles rest
  end.
Definition ensureDefaultRoles : M store unit :=
  upsert_roles [§"admin"; §"operator"; §"auditor"; §"user"].

(** [INSERT INTO users ... ON CONFLICT (username) DO NOTHING RETURNING id]. *)
Definition seed_admin (cfg : AuthConfig) (hash : bytes) : M store bytes :=
  let! r := query (λ clock n t,
    let id := pg_random_uuid n in
    let email := nullIfEmpty (DevAdminEmail cfg) in
    let name := nullIfEmpty (DevAdminName cfg) in
    if negb (pg_text (DevAdminUsername cfg) && pg_opt_text email && pg_opt_text name && pg_text hash)
    then inr pg_bad_text
    else if negb (bool_decide (user_named t (DevAdminUsername cfg) = None)) then inl (None, t)
    else if bool_decide (is_Some (t_users t !! id)) then inr pg_constraint
    else inl (Some id, with_users t
           (<[id := UserRow (DevAdminUsername cfg) email name true §"local" (Some hash) clock None]> (t_users t)))) in
  match r with Some id => ret id | None => fail pg_no_rows end.

Definition Bootstrap (cfg : AuthConfig) : M world unit :=
  do! on_store ensureDefaultRoles in
  let! h := outside (λ n, GenerateFromPassword n (DevAdminPassword cfg)) in
  let! passwordHash := wrap_err §"hash dev admin password" (lift h) in
  let! seeded := try (on_store (seed_admin cfg passwordHash)) in
  let! userID := (match seeded with
    | inl id => ret id
    | inr e =>
        guard! errors_is e §"pgx.ErrNoRows" else Wrap §"seed dev admin user" e in
        let! existing := wrap_err §"find dev admin user" (on_store (query_row (λ t,
          if pg_text (DevAdminUsername cfg) then inl (user_named t (DevAdminUsername cfg)) else inr pg_bad_text))) in
        let '(userID, r) := existing in
        let existingHash := default [] (u_password_hash r) in
        let existingProvider := u_auth_provider r in
        if bool_decide (existingHash = []) || bool_decide (existingProvider = [])
           || EqualFold existingProvider §"local" then
          if bool_decide (existingHash = []) || negb (CompareHashAndPassword existingHash (DevAdminPassword cfg)) then
            do! wrap_err §"set missing dev admin password hash"
                  (on_store (update_user userID (pg_text passwordHash) (set_local_password passwordHash))) in
            ret userID
          else ret userID
        else ret userID
    end) in
  wrap_err §"assign admin role" (on_store (assign_role userID §"admin")).

Definition GetUserByUsername (username : bytes) : M store User :=
  let! found := try (query_row (λ t,
    if pg_text (TrimSpace username) then inl (user_named t (TrimSpace username)) else inr pg_bad_text)) in
  match found with
  | inr e => if errors_is e §"pgx.ErrNoRows" then fail ErrUserNotFound
             else fail (Wrap §"get user by username" e)
  | inl (id, r) =>
      let! roles := wrap_err §"load user roles" (loadRoles id) in
      ret (MkUser id (u_username r) (default [] (u_email r)) (default [] (u_display_name r)) roles (u_created_at r))
  end.
End AuthService.
