(* ===== verification/AuthSpec.v ===== *)
(** What the authentication service promises: the invariants of its sessions
    over any history of requests, what a granted login or request rests on,
    and where the code does less than its comments say. *)
From S2P Require Import Prelude GoStrings GoCrypto GoEncoding Store PgServer Identity RateLimiter Ldap Auth AuthService.

(** The server's clock does not go back. *)
Class PostgresClock `{Postgres} := {
  pg_now_mono : ∀ m n, (m <= n)%nat → pg_now m <= pg_now n;
}.

(** * Requests and histories *)

Inductive auth_op :=
| OpLogin (req : LoginRequest)
| OpLogout (token : bytes)
| OpResolve (token : bytes)
| OpChangePassword (req : ChangePasswordRequest)
| OpBootstrap
| OpGetUser (username : bytes).

Section History.
Context `{Unicode} `{Postgres, PostgresText} `{Host} `{Bcrypt} `{Directory} (svc : Service).

Definition run_auth (op : auth_op) (w : world) : world :=
  match op with
  | OpLogin req => (LoginWithContext svc req w).2
  | OpLogout tok => (on_store (Logout tok) w).2
  | OpResolve tok => (on_store (ResolveCurrentUser tok) w).2
  | OpChangePassword req => (ChangePassword req w).2
  | OpBootstrap => (Bootstrap (svc_cfg svc) w).2
  | OpGetUser name => (on_store (GetUserByUsername name) w).2
  end.
Definition auth_history (ops : list auth_op) (w : world) : world := fold_left (λ w op, run_auth op w) ops w.
End History.

(** * Framing

    A relation on tables that the statements on users, roles and the audit
    preserve is carried by every call made of them; it is enough to look at the
    statements on sessions to carry it over every history. *)
Class RolesFree (T : relation tables) := {
  un_preorder :: PreOrder T;
  un_roles : ∀ t m, T t (with_roles t m);
  un_user_roles : ∀ t m, T t (with_user_roles t m);
  un_audit : ∀ t l, T t (with_audit_events t l);
}.
Class Unrelated `{Postgres} (T : relation tables) := {
  un_roles_free :: RolesFree T;
  un_alter : ∀ t f u, T t (with_users t (alter f u (t_users t)));
  un_insert : ∀ t n r, T t (with_users t (<[pg_random_uuid n := r]> (t_users t)));
}.

Definition stepped (T : relation tables) (s s' : store) : Prop :=
  T (pg_tables s) (pg_tables s') ∧ (pg_steps s <= pg_steps s')%nat ∧ (pg_began s = None → pg_began s' = None).
#[export] Instance stepped_preorder T `{!PreOrder T} : PreOrder (stepped T).
Proof.
  split.
  - intros s. by split_and!.
  - intros a b c (E & L & B) (E' & L' & B'). split_and!; [by etransitivity|lia|auto].
Qed.

(** A statement that keeps a relation on the tables. *)
Definition idle {A} (T : relation tables) (q : Z → nat → tables → (A * tables) + error) : Prop :=
  ∀ now n t a t', q now n t = inl (a, t') → T t t'.

Ltac idling :=
  let E := fresh "E" in intros ? ? ? ? ? E; cbv beta zeta in E;
  repeat match type of E with
  | context [match ?x with _ => _ end] => destruct x; try done
  end; simplify_eq; first [reflexivity | apply un_alter | apply un_insert | apply un_roles | apply un_user_roles | apply un_audit].

Section Frame.
Context `{Unicode} `{Postgres, PostgresText} `{Host} `{Bcrypt} `{Directory}.

Lemma query_steps {A} (q : Z → nat → tables → (A * tables) + error) s :
  pg_steps (query q s).2 = S (pg_steps s) ∧ pg_began (query q s).2 = pg_began s.
Proof.
  unfold query. destruct (mjoin _) as [[]|]; [done| |]; by destruct (q _ _ _) as [[]|].
Qed.

Context (T : relation tables).

Section Any.
Context `{!PreOrder T}.

Lemma alone_query {A} (q : Z → nat → tables → (A * tables) + error) : idle T q → keeps (stepped T) (query q).
Proof.
  intros Hq s. destruct (query_steps q s) as [Es Eb]. split_and!.
  - destruct (query_tables q s) as [->|[a E]]; [done|]. by apply Hq in E.
  - rewrite Es. lia.
  - by rewrite Eb.
Qed.

Lemma alone_query_row {A} (q : tables → option A + error) : keeps (stepped T) (query_row q).
Proof. apply alone_query. idling. Qed.
Lemma alone_loadRoles u : keeps (stepped T) (loadRoles u).
Proof. apply alone_query. idling. Qed.

Lemma alone_transaction {A} bm cm (body : M store A) :
  keeps (stepped T) body → keeps (stepped T) (transaction bm cm body).
Proof.
  intros Hb s. unfold transaction.
  assert (keeps (stepped T) (wrap_err bm (query (λ now (_ : nat) t, inl (now, t))))) as Hbegin.
  { apply keeps_wrap_err. apply alone_query. idling. }
  specialize (Hbegin s). destruct (wrap_err bm _ s) as [[now| | |] s1]; try done.
  destruct Hbegin as (E1 & L1 & _). specialize (Hb (set_began (Some now) s1)).
  destruct (body _) as [[a|e|y|] s2]; destruct Hb as (E2 & L2 & _); cbn [set_began pg_tables pg_steps snd] in *.
  - destruct (mjoin _) as [[]|]; unfold stepped; cbn [snd pg_tables pg_steps pg_began];
      split_and!; try done; try lia; by etransitivity.
  - unfold stepped; cbn [snd pg_tables pg_steps pg_began]; split_and!; (done || lia).
  - unfold stepped; cbn [snd pg_tables pg_steps pg_began]; split_and!; (done || lia).
  - unfold stepped; cbn [snd pg_tables pg_steps pg_began]; split_and!; (done || lia).
Qed.
End Any.

Section Roles.
Context `{!RolesFree T}.

Lemma alone_assign_role u name : keeps (stepped T) (assign_role u name).
Proof. apply alone_query. idling. Qed.
Lemma alone_audit ty ac o act ip ua m : keeps (stepped T) (insert_audit_event ty ac o act ip ua m).
Proof. apply alone_query. idling. Qed.
Lemma alone_upsert_role name : keeps (stepped T) (upsert_role name).
Proof. apply alone_query. idling. Qed.
End Roles.

Section Users.
Context `{!Unrelated T}.

Lemma alone_update_user u ok set : keeps (stepped T) (update_user u ok set).
Proof. apply alone_query. idling. Qed.
Lemma alone_insert_ldap u e n t : keeps (stepped T) (insert_ldap_user u e n t).
Proof. apply alone_query. idling. Qed.
End Users.
End Frame.

Create HintDb alone discriminated.
#[export] Hint Resolve alone_query_row alone_loadRoles alone_update_user alone_assign_role alone_insert_ldap
  alone_audit alone_upsert_role alone_transaction : alone.

#[export] Hint Extern 1 (PreOrder _) => typeclasses eauto : alone.
#[export] Hint Extern 1 (RolesFree _) => typeclasses eauto : alone.
#[export] Hint Extern 1 (Unrelated _) => typeclasses eauto : alone.

(** A relation on stores and one on limiters, on the worlds that hold them,
    whose counter only goes up. *)
Definition of_world (R : relation store) (L : relation LoginRateLimiter) (w w' : world) : Prop :=
  R (w_store w) (w_store w') ∧ L (w_limiter w) (w_limiter w') ∧ (w_calls w <= w_calls w')%nat.
#[export] Instance of_world_preorder R L `{!PreOrder R, !PreOrder L} : PreOrder (of_world R L).
Proof.
  split; unfold of_world; [intros w; split_and!; (reflexivity || lia)|].
  intros a b c (Ra & La & Ca) (Rb & Lb & Cb). split_and!; [by etransitivity|by etransitivity|lia].
Qed.
Definition any_limiter (_ _ : LoginRateLimiter) : Prop := True.
#[export] Instance any_limiter_preorder : PreOrder any_limiter.
Proof. by split. Qed.

(** Break a request into the calls it makes. *)
Ltac walk :=
  repeat first
    [ solve [auto 4 with keeps alone] | apply keeps_wrap_err | apply keeps_try
    | apply keeps_bind; [apply _| |intros ?] | progress cbv zeta
    | match goal with |- keeps _ (match ?x with _ => _ end) => destruct x end ].

Section Walk.
Context `{Unicode} `{Postgres, PostgresText} `{Host} `{Bcrypt} `{Directory}.
Context (R : relation store) (L : relation LoginRateLimiter) `{!PreOrder R, !PreOrder L}.

Lemma keeps_on_store {A} (m : M store A) : keeps R m → keeps (of_world R L) (on_store m).
Proof.
  intros Hm w. unfold on_store, zoom, of_world. specialize (Hm (w_store w)).
  destruct (m (w_store w)). split_and!; [done|reflexivity|done].
Qed.
Lemma keeps_outside {A} (f : nat → A) : keeps (of_world R L) (outside f).
Proof. intros w. unfold of_world. cbn. split_and!; (reflexivity || lia). Qed.
Lemma keeps_on_limiter {A} (f : LoginRateLimiter → A * LoginRateLimiter) :
  (∀ rl, L rl (f rl).2) → keeps (of_world R L) (on_limiter f).
Proof.
  intros Hf w. unfold of_world, on_limiter. specialize (Hf (w_limiter w)). destruct (f _).
  cbn. split_and!; (reflexivity || done).
Qed.
Lemma keeps_lift {A} (r : A + error) : keeps (of_world R L) (lift r).
Proof. destruct r; intros w; cbn; reflexivity. Qed.
Lemma keeps_no_error o : keeps (of_world R L) (no_error o).
Proof. destruct o; intros w; cbn; reflexivity. Qed.
End Walk.
#[export] Hint Resolve keeps_on_store keeps_outside keeps_on_limiter keeps_lift keeps_no_error : keeps.

Section Requests.
Context `{Unicode} `{Postgres, PostgresText} `{Host} `{Bcrypt} `{Directory}.
Context (T : relation tables).

Section Roles.
Context `{!RolesFree T}.

Lemma alone_ensureRole u name : keeps (stepped T) (ensureRoleAssignment u name).
Proof. unfold ensureRoleAssignment. walk. apply (alone_query T); idling. Qed.
Lemma alone_assign_roles u names : keeps (stepped T) (assign_roles u names).
Proof.
  induction names as [|n names IH]; cbn [assign_roles]; [walk|].
  apply keeps_bind; [typeclasses eauto|apply alone_ensureRole|done].
Qed.
Lemma alone_upsert_roles names : keeps (stepped T) (upsert_roles names).
Proof. induction names; cbn [upsert_roles]; walk. Qed.
End Roles.

Context `{!Unrelated T}.
#[local] Hint Resolve alone_ensureRole alone_assign_roles : alone.
Lemma alone_sync now pf roles : keeps (stepped T) (sync_body now pf roles).
Proof. unfold sync_body. walk. Qed.
#[local] Hint Resolve alone_sync alone_upsert_roles : alone.

(** A relation on stores that such steps imply. *)
Context (R : relation store) (L : relation LoginRateLimiter) `{!PreOrder R, !PreOrder L}.
Context (R_alone : ∀ s s', stepped T s s' → R s s').

Lemma keeps_alone {A} (m : M store A) : keeps (stepped T) m → keeps (of_world R L) (on_store m).
Proof. intros Hm. apply (keeps_on_store _ _). intros s. apply R_alone, Hm. Qed.

#[local] Hint Resolve keeps_alone : alone.

Lemma keeps_local u p : keeps (of_world R L) (LocalAuthenticate u p).
Proof. unfold LocalAuthenticate, select_local_user. walk. Qed.

Lemma keeps_dial cfg : keeps (of_world R L) (dial cfg).
Proof. unfold dial. walk. Qed.
Lemma keeps_lookup cfg who u filters : keeps (of_world R L) (lookup_filters cfg who u filters).
Proof. induction filters; cbn [lookup_filters]; walk. Qed.
Lemma keeps_resolveRoles p who pf : keeps (of_world R L) (resolveMappedRoles p who pf).
Proof. unfold resolveMappedRoles. walk. Qed.
#[local] Hint Resolve keeps_dial keeps_lookup keeps_resolveRoles : keeps.
Lemma keeps_ldap p u pw : keeps (of_world R L) (LDAPAuthenticate p u pw).
Proof. unfold LDAPAuthenticate, lookupUser, syncLocalUser, bind_as. walk. Qed.
#[local] Hint Resolve keeps_local keeps_ldap : keeps.
Lemma keeps_Authenticate p u pw : keeps (of_world R L) (Authenticate p u pw).
Proof. induction p; cbn [Authenticate]; walk. Qed.

Lemma alone_resolveProvider svc u : keeps (stepped T) (resolveProviderForLogin svc u).
Proof. unfold resolveProviderForLogin, resolveAuthConfigFromAdmin, lookupMappedAuthProvider. walk. Qed.
Lemma alone_seed cfg h : keeps (stepped T) (seed_admin cfg h).
Proof. unfold seed_admin. walk. apply (alone_query T); idling. Qed.
#[local] Hint Resolve keeps_Authenticate : keeps.
#[local] Hint Resolve alone_resolveProvider alone_seed : alone.

Lemma keeps_login_audit ty u id ip ua o pn : keeps (of_world R L) (recordLoginAudit ty u id ip ua o pn).
Proof. unfold recordLoginAudit. walk. Qed.
Lemma keeps_password_audit id u ip ua o : keeps (of_world R L) (recordPasswordChangeAudit id u ip ua o).
Proof. unfold recordPasswordChangeAudit. walk. Qed.
#[local] Hint Resolve keeps_login_audit keeps_password_audit : keeps.

Lemma keeps_ChangePassword req : keeps (of_world R L) (ChangePassword req).
Proof. unfold ChangePassword. walk. Qed.
Lemma keeps_Bootstrap cfg : keeps (of_world R L) (Bootstrap cfg).
Proof. unfold Bootstrap, ensureDefaultRoles. walk. Qed.
Lemma keeps_GetUser name : keeps (of_world R L) (on_store (GetUserByUsername name)).
Proof. apply keeps_alone. unfold GetUserByUsername. walk. Qed.

Context (R_store : ∀ u tok exp, keeps R (storeSession u tok exp)).
Context (R_logout : ∀ tok, keeps R (Logout tok)).
Context (R_touch : ∀ h, keeps R (query (λ now _ t,
  inl (tt, with_auth_sessions t (alter (touch now) h (t_auth_sessions t)))))).

Lemma keeps_R_alone {A} (m : M store A) : keeps (stepped T) m → keeps R m.
Proof. intros Hm s. apply R_alone, Hm. Qed.
#[local] Hint Resolve keeps_R_alone : alone.
#[local] Hint Resolve R_store R_logout R_touch : keeps.

Lemma keeps_open svc req u p user : keeps (of_world R L) (open_session svc req u p user).
Proof. unfold open_session, newSessionToken. walk. Qed.
#[local] Hint Resolve keeps_open : keeps.
Context (L_any : ∀ a b, L a b).
#[local] Hint Resolve L_any : keeps.
Lemma keeps_Login svc req : keeps (of_world R L) (LoginWithContext svc req).
Proof. unfold LoginWithContext. walk. Qed.
Lemma keeps_Resolve tok : keeps R (ResolveCurrentUser tok).
Proof.
  unfold ResolveCurrentUser. walk. apply keeps_R_alone, (alone_query T); idling.
Qed.

Lemma keeps_auth_history svc ops w : of_world R L w (auth_history svc ops w).
Proof.
  unfold auth_history. revert w. induction ops as [|op ops IH]; intros w; [reflexivity|].
  cbn [fold_left]. transitivity (run_auth svc op w); [|apply IH]. destruct op; cbn [run_auth].
  - apply keeps_Login.
  - apply (keeps_on_store _ _). apply R_logout.
  - apply (keeps_on_store _ _). apply keeps_Resolve.
  - apply keeps_ChangePassword.
  - apply keeps_Bootstrap.
  - apply keeps_GetUser.
Qed.
End Requests.

(** * The one session of a user *)

Definition same_sessions (t t' : tables) : Prop := t_auth_sessions t' = t_auth_sessions t.
#[export] Instance same_sessions_unrelated `{Postgres} : Unrelated same_sessions.
Proof. do 2 (split; try done). split; [done|]. intros a b c. unfold same_sessions. congruence. Qed.
Definition sessions_alone : relation store := stepped same_sessions.

Section Sessions.
Context `{Unicode} `{Postgres, PostgresText} `{Host} `{Bcrypt} `{Directory}.

(** A transaction leaves the tables as they were or as its body left them at
    the time it began. *)
Lemma transaction_cases {A} bm cm (body : M store A) s o s' :
  transaction bm cm body s = (o, s') → keeps (λ a b, (pg_steps a <= pg_steps b)%nat) body →
  (pg_steps s <= pg_steps s')%nat ∧ (pg_began s = None → pg_began s' = None) ∧
  ((pg_tables s' = pg_tables s ∧ is_ok o = false) ∨
   ∃ a s1 s2, body (set_began (Some (pg_clock s)) s1) = (Ok a, s2) ∧ pg_tables s1 = pg_tables s ∧
     pg_tables s' = pg_tables s2 ∧ (o = Ok a ∨ is_err o = true)).
Proof.
  unfold transaction. intros Ht Hk.
  set (q := λ (now : Z) (_ : nat) (t : tables), inl (now, t)) in Ht.
  destruct (query_steps q s) as [Es Eb].
  assert (pg_tables (query q s).2 = pg_tables s) as Et.
  { destruct (query_tables q s) as [E|[a E]]; [done|]. unfold q in E. by simplify_eq. }
  pose proof (query_ok q s) as Hok. unfold wrap_err in Ht.
  destruct (query q s) as [[now|e|y|] s1] eqn:Eq; cbn [snd] in *; simplify_eq;
    try (split_and!; [lia|congruence|left; by rewrite Et]).
  specialize (Hok now s1 eq_refl). unfold q in Hok. injection Hok as Hnow _.
  specialize (Hk (set_began (Some now) s1)).
  destruct (body _) as [[a|e|y|] s2] eqn:Ebody; cbn [snd set_began pg_steps] in Hk.
  - destruct (mjoin _) as [[e|e]|]; simplify_eq; cbn [pg_steps pg_began pg_tables];
      (split_and!; [lia|done|]).
    + by left.
    + right. eauto 10.
    + right. eauto 10.
  - simplify_eq. cbn [pg_steps pg_began pg_tables]. split_and!; [lia|done|]. by left.
  - simplify_eq. cbn [pg_steps pg_began pg_tables]. split_and!; [lia|done|]. by left.
  - simplify_eq. cbn [pg_steps pg_began pg_tables]. split_and!; [lia|done|]. by left.
Qed.

Lemma steps_preorder : PreOrder (λ a b : store, (pg_steps a <= pg_steps b)%nat).
Proof. split; [intros a; lia|intros a b c; lia]. Qed.
Lemma steps_query {A} (q : Z → nat → tables → (A * tables) + error) :
  keeps (λ a b, (pg_steps a <= pg_steps b)%nat) (query q).
Proof. intros s. destruct (query_steps q s) as [-> _]. lia. Qed.

(** The sessions after a new one is stored for a user at a time. *)
Definition stored (u h : bytes) (expires now : Z) (m : gmap bytes auth_session_row) : gmap bytes auth_session_row :=
  <[h := AuthSession u expires None (Some now)]>
    ((λ r, if bool_decide (as_user r = u) && live now r then revoke now r else r) <$> m).

Lemma storeSession_cases u tok exp s o s' :
  storeSession u tok exp s = (o, s') → pg_began s = None →
  (pg_steps s <= pg_steps s')%nat ∧ pg_began s' = None ∧
  ((pg_tables s' = pg_tables s ∧ is_ok o = false) ∨
   ∃ uu, pg_uuid u = Some uu ∧ is_Some (t_users (pg_tables s) !! uu) ∧
     t_auth_sessions (pg_tables s) !! hashSessionToken tok = None ∧
     pg_tables s' = with_auth_sessions (pg_tables s)
       (stored uu (hashSessionToken tok) exp (pg_now (pg_steps s)) (t_auth_sessions (pg_tables s)))).
Proof.
  intros Hs Hb. apply transaction_cases in Hs as (Hl & Hbegan & Hc).
  2:{ pose proof steps_preorder. repeat (apply keeps_bind; [done| |intros ?]); apply keeps_wrap_err, steps_query. }
  split_and!; [done|auto|]. destruct Hc as [?|(a & s1 & s2 & Hbody & E1 & E2 & _)]; [by left|right].
  apply bind_ok in Hbody as ([] & s3 & Hr & Hi).
  assert (Hw : ∀ B msg (m : M store B) x b y, wrap_err msg m x = (Ok b, y) → m x = (Ok b, y)).
  { intros B msg m x b y. unfold wrap_err. by destruct (m x) as [[]]. }
  apply Hw in Hr, Hi. clear Hw.
  assert (pg_began s3 = Some (pg_clock s)) as Eb3.
  { destruct (query_steps (λ (now : Z) (_ : nat) (t : tables), match pg_uuid u with
      | None => inr pg_bad_uuid
      | Some u => inl (tt, with_auth_sessions t
        ((λ r, if bool_decide (as_user r = u) && live now r then revoke now r else r) <$> t_auth_sessions t))
      end) (set_began (Some (pg_clock s)) s1)) as [_ E]. unfold revoke_sessions in Hr. rewrite Hr in E. done. }
  apply query_ok in Hr, Hi. cbn [set_began pg_tables] in Hr. rewrite E1 in Hr.
  destruct (pg_uuid u) as [uu|]; [|done]. injection Hr as Hr. rewrite <- Hr in Hi.
  destruct (_ && _) eqn:Hc; [|done]. injection Hi as _ Hi. gobool. exists uu.
  cbn [t_users t_auth_sessions with_auth_sessions] in *.
  rewrite lookup_fmap, fmap_None in *. split_and!; [done|done|done|].
  rewrite E2, <- Hi. unfold with_auth_sessions, stored, pg_clock. cbn. rewrite Eb3. cbn [default].
  unfold pg_clock. by rewrite Hb.
Qed.

(** At most one session of a user can be used: of two that are not revoked, one
    has expired. *)
Definition one_live (s : store) : Prop :=
  pg_began s = None ∧ ∀ h1 h2 r1 r2, h1 ≠ h2 →
    t_auth_sessions (pg_tables s) !! h1 = Some r1 → t_auth_sessions (pg_tables s) !! h2 = Some r2 →
    as_user r1 = as_user r2 → as_revoked_at r1 = None → as_revoked_at r2 = None →
    as_expires_at r1 <= pg_now (pg_steps s) ∨ as_expires_at r2 <= pg_now (pg_steps s).

(** Only the revocation of rows can differ: the sessions of [m'] are those of
    [m], revoked or not. *)
Definition weaker (r r' : auth_session_row) : Prop :=
  as_user r' = as_user r ∧ as_expires_at r' = as_expires_at r ∧
  (as_revoked_at r' = None → as_revoked_at r = None).

Lemma one_live_weaker `{!PostgresClock} s s' :
  (pg_steps s <= pg_steps s')%nat → pg_began s' = None →
  (∀ h r', t_auth_sessions (pg_tables s') !! h = Some r' →
     ∃ r, t_auth_sessions (pg_tables s) !! h = Some r ∧ weaker r r') →
  one_live s → one_live s'.
Proof.
  intros Hl Hb Hw [_ Hone]. split; [done|]. intros h1 h2 r1 r2 Hne M1 M2 Hu Hr1 Hr2.
  destruct (Hw _ _ M1) as (q1 & Hq1 & Eu1 & Ee1 & Er1). destruct (Hw _ _ M2) as (q2 & Hq2 & Eu2 & Ee2 & Er2).
  rewrite Ee1, Ee2. pose proof (pg_now_mono _ _ Hl).
  destruct (Hone h1 h2 q1 q2 Hne Hq1 Hq2 ltac:(congruence) (Er1 Hr1) (Er2 Hr2)); [left|right]; lia.
Qed.

Lemma one_live_alone `{!PostgresClock} s s' : sessions_alone s s' → one_live s → one_live s'.
Proof.
  intros (E & Hl & Hb) Hone. pose proof (proj1 Hone) as Hbs. eapply (one_live_weaker s); [done|auto| |done].
  intros h r'. rewrite E. intros Hr. exists r'. done.
Qed.

Lemma alter_weaker (f : auth_session_row → auth_session_row) (h : bytes) (m : gmap bytes auth_session_row) :
  (∀ r, weaker r (f r)) → ∀ (k : bytes) r', alter f h m !! k = Some r' → ∃ r, m !! k = Some r ∧ weaker r r'.
Proof.
  intros Hf k r'. destruct (decide (h = k)) as [->|Hne].
  - rewrite lookup_alter_eq. intros (r & -> & Hr)%fmap_Some. exists r. subst. done.
  - rewrite lookup_alter_ne by done. intros Hr. exists r'. done.
Qed.

Lemma one_live_alter `{!PostgresClock} (f : Z → auth_session_row → auth_session_row) h s :
  (∀ now r, weaker r (f now r)) → one_live s →
  one_live (query (λ now _ t, inl (tt, with_auth_sessions t (alter (f now) h (t_auth_sessions t)))) s).2.
Proof.
  intros Hf Hone. set (m := query _).
  assert (pg_steps (m s).2 = S (pg_steps s) ∧ pg_began (m s).2 = pg_began s) as [Es Eb] by apply query_steps.
  assert (pg_tables (m s).2 = pg_tables s ∨
          ∃ now, t_auth_sessions (pg_tables (m s).2) = alter (f now) h (t_auth_sessions (pg_tables s))) as Ht.
  { destruct (query_tables (λ now (_ : nat) t,
      inl (tt, with_auth_sessions t (alter (f now) h (t_auth_sessions t)))) s) as [E|[a E]]; [by left|right].
    exists (pg_clock s). injection E as _ E. unfold m. by rewrite <- E. }
  apply (one_live_weaker s); [lia| | |done].
  - rewrite Eb. apply Hone.
  - intros k r'. destruct Ht as [->|[now ->]]; [intros; by exists r'|]. by apply alter_weaker.
Qed.

Lemma one_live_logout `{!PostgresClock} tok s : one_live s → one_live (Logout tok s).2.
Proof.
  intros Hone. unfold Logout. set (q := query _).
  replace (wrap_err _ q s).2 with (q s).2 by by unfold wrap_err; destruct (q s) as [[]].
  apply one_live_alter; [|done]. intros now r. by case_bool_decide.
Qed.

Lemma one_live_store `{!PostgresClock} u tok exp s : one_live s → one_live (storeSession u tok exp s).2.
Proof.
  intros Hone. pose proof (proj1 Hone) as Hb. destruct (storeSession u tok exp s) as [o s'] eqn:E.
  cbn [snd]. apply storeSession_cases in E as (Hl & Hb' & Hc); [|done].
  destruct Hc as [[E _]|(uu & Hu & _ & Hfresh & E)].
  { apply (one_live_alone s); [|done]. split_and!; [by rewrite E|done|done]. }
  pose proof (pg_now_mono _ _ Hl) as Hclock.
  split; [done|]. rewrite E. cbn [with_auth_sessions t_auth_sessions]. unfold stored.
  assert (Hold : ∀ h r, ((λ r, if bool_decide (as_user r = uu) && live (pg_now (pg_steps s)) r
      then revoke (pg_now (pg_steps s)) r else r) <$> t_auth_sessions (pg_tables s)) !! h = Some r →
      as_revoked_at r = None → t_auth_sessions (pg_tables s) !! h = Some r ∧
      (as_user r = uu → as_expires_at r <= pg_now (pg_steps s))).
  { intros h r. rewrite lookup_fmap. intros (q & -> & ->)%fmap_Some.
    destruct (bool_decide (as_user q = uu)) eqn:Eu; cbn [andb]; unfold live.
    - destruct (bool_decide (as_revoked_at q = None)) eqn:Er; cbn [andb].
      + destruct (_ <? _) eqn:Ex; [done|]. intros _. split; [done|]. by apply Z.ltb_ge in Ex.
      + intros Hr. rewrite bool_decide_true in Er by done. done.
    - intros _. split; [done|]. intros Hu'. rewrite bool_decide_true in Eu by done. done. }
  intros h1 h2 r1 r2 Hne M1 M2 Hsame Hr1 Hr2.
  apply lookup_insert_Some in M1 as [[<- <-]|[Hn1 M1]]; apply lookup_insert_Some in M2 as [[<- <-]|[Hn2 M2]].
  - done.
  - right. apply Hold in M2 as [_ M2]; [|done]. cbn in Hsame. specialize (M2 ltac:(congruence)). lia.
  - left. apply Hold in M1 as [_ M1]; [|done]. cbn in Hsame. specialize (M1 ltac:(congruence)). lia.
  - apply Hold in M1 as [M1 _]; [|done]. apply Hold in M2 as [M2 _]; [|done].
    destruct (proj2 Hone h1 h2 r1 r2 Hne M1 M2 Hsame Hr1 Hr2); [left|right]; lia.
Qed.

#[local] Instance one_live_preorder : PreOrder (λ s s', one_live s → one_live s').
Proof. split; [by intros s|]. intros a b c Hab Hbc Ha. auto. Qed.

(** C35. A user has at most one usable session: after any history of logins,
    logouts, requests, password changes and restarts, whatever statements fail
    in between, of two sessions of one user that are not revoked one has expired. *)
Theorem one_live_session_per_user `{!PostgresClock} (svc : Service) (ops : list auth_op) (w : world) :
  one_live (w_store w) → one_live (w_store (auth_history svc ops w)).
Proof.
  apply (keeps_auth_history same_sessions (λ s s', one_live s → one_live s') any_limiter); try done.
  - intros s s' Hs. by apply one_live_alone.
  - intros u tok exp s. apply one_live_store.
  - intros tok s. apply one_live_logout.
  - intros h s. by apply one_live_alter.
Qed.
End Sessions.
