(* ===== verification/AuthLogin.v ===== *)
(** What a granted login rests on and what it gives: the password that was
    checked, the session that can then be used, the failures that are counted,
    and the ways a directory login reaches a local account. *)
From S2P Require Import Prelude GoStrings GoCrypto GoEncoding Store PgServer Identity RateLimiter Ldap LdapSpec Auth AuthService AuthSpec AuthClaims.
From S2P Require Import Tokens.

(** The identifiers of users are canonical uuids. *)
Definition users_ok `{Postgres} (t : tables) : Prop := ∀ id r, t_users t !! id = Some r → pg_uuid id = Some id.
Definition keeps_users_ok `{Postgres} (t t' : tables) : Prop := users_ok t → users_ok t'.
#[export] Instance keeps_users_ok_unrelated `{PostgresLaws} : Unrelated keeps_users_ok.
Proof.
  unfold keeps_users_ok. split; [split; [split; [by intros t|intros a b c; auto]|by intros ? ? Hok..]| |].
  - intros t f u Hok id r. cbn. destruct (decide (u = id)) as [->|Hne].
    + rewrite lookup_alter_eq. intros (q & Hq & _)%fmap_Some. by eapply Hok.
    + rewrite lookup_alter_ne by done. apply Hok.
  - intros t n r Hok id r'. cbn. intros [[<- _]|[_ Hr]]%lookup_insert_Some; [apply pg_random_canonical|].
    by eapply Hok.
Qed.

(** The users are left alone. *)
Definition same_users (t t' : tables) : Prop := t_users t' = t_users t.
#[export] Instance same_users_roles_free : RolesFree same_users.
Proof. split; try done. split; [done|]. intros a b c. unfold same_users. congruence. Qed.

Section Login.
Context `{Unicode} `{PostgresLaws} `{PostgresText} `{Host} `{Bcrypt} `{Directory}.

Lemma keeps_tables {A} (T : relation tables) (m : M store A) s a s' :
  keeps (stepped T) m → m s = (Ok a, s') → T (pg_tables s) (pg_tables s').
Proof. intros Hm E. specialize (Hm s). rewrite E in Hm. apply Hm. Qed.

Lemma users_named_In t p q : q ∈ users_named t p ↔ t_users t !! q.1 = Some q.2 ∧ p q.2 = true.
Proof.
  unfold users_named. destruct q as [id r]. rewrite list_elem_of_In, filter_In, <- list_elem_of_In.
  by rewrite elem_of_map_to_list.
Qed.
Lemma head_In {A} (l : list A) x : head l = Some x → x ∈ l.
Proof. destruct l; [done|]. intros [= ->]. by left. Qed.

(** A local account with the name and a stored hash of the password. *)
Definition local_evidence (t : tables) (id name password : bytes) : Prop :=
  ∃ r hash, t_users t !! id = Some r ∧ u_username r = name ∧ u_is_active r = true ∧
    u_auth_provider r = §"local" ∧ u_password_hash r = Some hash ∧
    CompareHashAndPassword hash password = true.
(** The directory took the password for some name. *)
Definition directory_evidence (password : bytes) : Prop :=
  TrimSpace password ≠ [] ∧ ∃ n dn, dir_bind n dn (TrimSpace password) = None.

Lemma query_row_ok {A} (q : tables → option A + error) s a s' :
  query_row q s = (Ok a, s') → q (pg_tables s) = inl (Some a) ∧ pg_tables s' = pg_tables s.
Proof.
  intros Hq%query_ok. destruct (q (pg_tables s)) as [[]|]; intros; by simplify_eq.
Qed.

(** A write of one user whose failure is only logged. *)
Lemma try_update_user id ok set s x s' :
  try (update_user id ok set) s = (Ok x, s') → pg_uuid id = Some id →
  t_users (pg_tables s') = t_users (pg_tables s) ∨ t_users (pg_tables s') = alter set id (t_users (pg_tables s)).
Proof.
  unfold try. destruct (update_user id ok set s) as [o s1] eqn:E. intros Ht Hid.
  assert (s' = s1) as -> by by destruct o; simplify_eq.
  apply query_run in E as [->|[a E]]; [by left|].
  rewrite Hid in E. destruct ok; [|done]. injection E as _ <-. by right.
Qed.

Lemma Local_ok name password w user w' :
  LocalAuthenticate name password w = (Ok user, w') → users_ok (pg_tables (w_store w)) →
  local_evidence (pg_tables (w_store w')) (ID user) (TrimSpace name) password ∧
  Username user = TrimSpace name.
Proof.
  unfold LocalAuthenticate. destruct (negb _); [|done]. intros E Hok.
  apply bind_ok in E as (found & w1 & Ef & E). apply try_ok in Ef.
  destruct found as [[id r]|]; [|done]. apply on_store_ok in Ef as (Ef & _ & _).
  apply query_row_ok in Ef as [Ef Et1].
  destruct (pg_text _); [|done]. injection Ef as Ef. apply head_In, users_named_In in Ef as [Hr Hp].
  cbn [fst snd] in Hr, Hp. apply andb_true_iff in Hp as [[Hn Ha]%andb_true_iff Hprov]. gobool.
  destruct (u_password_hash r) as [hash|] eqn:Eh; [|by rewrite bool_decide_true in E].
  change (default [] (Some hash)) with hash in E.
  destruct (negb _); [|done]. destruct (CompareHashAndPassword hash password) eqn:Ec; [|done].
  apply bind_ok in E as (roles & w2 & El & E). apply wrap_ok, on_store_ok in El as (El & _ & _).
  apply loadRoles_ok in El as (uu & Euu & _ & Et2).
  apply bind_ok in E as (now & w3 & Eo & E). unfold outside in Eo. injection Eo as _ <-.
  apply bind_ok in E as (x & w4 & Eu & E). injection E as <- <-. cbn [ID Username].
  split; [|done]. pose proof (Hok id r Hr) as Hid.
  assert (try (update_user id true (set_last_login now)) (w_store w2) = (Ok x, w_store w4)) as Eu'.
  { clear - Eu. unfold try, on_store, zoom in *. cbn [w_store] in *.
    destruct (update_user _ _ _ _) as [[]?]; by simplify_eq/=. }
  apply try_update_user in Eu'; [|done].
  assert (t_users (pg_tables (w_store w2)) !! id = Some r) as Hr2 by by rewrite Et2, Et1.
  destruct Eu' as [E|E]; unfold local_evidence; rewrite E.
  - exists r, hash. done.
  - exists (set_last_login now r), hash. rewrite lookup_alter_eq, Hr2. done.
Qed.

(** ** A directory login *)

(** Roles are only added to users. *)
Definition roles_grow (t t' : tables) : Prop :=
  t_users t' = t_users t ∧ t_roles t' = t_roles t ∧ t_user_roles t ⊆ t_user_roles t'.
#[local] Instance roles_grow_preorder : PreOrder roles_grow.
Proof.
  split; [by intros t|]. intros a b c (E1 & E2 & E3) (F1 & F2 & F3).
  split_and!; [congruence|congruence|set_solver].
Qed.

Lemma grow_assign_role u name : keeps (stepped roles_grow) (assign_role u name).
Proof.
  apply alone_query; [apply _|]. intros now n t a t' E. destruct (pg_uuid u); [|done].
  destruct (negb _); [done|]. destruct (_ && _); [done|]. injection E as _ <-. split_and!; try done.
  cbn. set_solver.
Qed.
Lemma grow_ensureRole u name : keeps (stepped roles_grow) (ensureRoleAssignment u name).
Proof.
  unfold ensureRoleAssignment. cbv zeta. destruct (bool_decide _); [apply keeps_ret, _|].
  apply keeps_bind; [apply _| |].
  - apply keeps_wrap_err, alone_query; [apply _|]. intros now n t a t' E.
    destruct (pg_text _); by simplify_eq.
  - intros b. destruct (negb b); [apply keeps_ret, _|]. apply keeps_wrap_err, grow_assign_role.
Qed.
Lemma grow_assign_roles u names : keeps (stepped roles_grow) (assign_roles u names).
Proof.
  induction names as [|name names IH]; cbn [assign_roles]; [apply keeps_ret, _|].
  apply keeps_bind; [apply _|apply grow_ensureRole|done].
Qed.

Lemma update_user_ok id ok set s x s' :
  update_user id ok set s = (Ok x, s') → pg_uuid id = Some id →
  pg_tables s' = with_users (pg_tables s) (alter set id (t_users (pg_tables s))).
Proof.
  intros E%query_ok Hid. rewrite Hid in E. destruct ok; [|done]. by injection E as _ <-.
Qed.

Lemma roles_of_grow t t' u role : roles_grow t t' → role ∈ roles_of t u → role ∈ roles_of t' u.
Proof.
  intros (_ & Er & Eu). unfold roles_of. rewrite !(order_text_perm id), !list_elem_of_omap.
  intros (p & Hp & Hr). exists p. rewrite elem_of_elements in *. rewrite Er. set_solver.
Qed.

(** The account of a directory login: the row with the directory's name, as it
    was but for its address, its display name, its provider and its being
    active, or a new row. *)
Lemma sync_ok now pf names s user s' :
  sync_body now pf names s = (Ok user, s') → users_ok (pg_tables s) →
  Username user = pf_Username pf ∧
  (∃ r, t_users (pg_tables s') !! ID user = Some r ∧ u_username r = pf_Username pf ∧
     u_is_active r = true ∧ u_auth_provider r = §"ldap") ∧
  ∀ id r0, user_named (pg_tables s) (pf_Username pf) = Some (id, r0) →
    ID user = id ∧ ∀ role, role ∈ roles_of (pg_tables s) id → role ∈ Roles user.
Proof.
  unfold sync_body. cbv zeta. intros E Hok.
  apply bind_ok in E as (existing & s1 & Ee & E). apply try_ok in Ee.
  apply bind_ok in E as (who & s2 & Ew & E).
  apply bind_ok in E as ([] & s3 & Ea & E). apply bind_ok in E as (roles & s4 & El & E).
  injection E as <- <-. cbn [Username ID Roles].
  apply wrap_ok, loadRoles_ok in El as (uu & Huu & -> & Et4).
  apply (keeps_tables _ _ _ _ _ (grow_assign_roles who.1 names)) in Ea as Hg3.
  pose proof Hg3 as (Eu3 & _ & _). rewrite Et4, Eu3. split; [done|].
  destruct existing as [[id r]|e].
  - apply query_row_ok in Ee as [Ee Et1]. destruct (pg_text _); [|done]. injection Ee as Ee.
    apply bind_ok in Ew as ([] & s2' & Eup & Ew). injection Ew as <- <-. cbn [fst] in *.
    pose proof Ee as Hrow. apply head_In, users_named_In in Hrow as [Hrow Hname].
    cbn [fst snd] in Hrow, Hname. gobool. pose proof (Hok id r Hrow) as Hid.
    apply wrap_ok, update_user_ok in Eup; [|done]. rewrite Et1 in Eup.
    assert (uu = id) as -> by congruence. split.
    + eexists. rewrite Eup. cbn [with_users t_users]. rewrite lookup_alter_eq, Hrow.
      split; [reflexivity|]. done.
    + intros id' r0 Hnamed. rewrite Ee in Hnamed. injection Hnamed as <- <-. split; [done|].
      intros role Hrole. apply (roles_of_grow _ _ _ _ Hg3). rewrite Eup.
      unfold roles_of in *. done.
  - destruct (errors_is e _) eqn:Ex; [|done].
    apply bind_ok in Ew as (who' & s1' & Ei & Ew). apply bind_ok in Ew as ([] & s2' & Er & Ew).
    injection Ew as <- <-. apply wrap_ok in Ei. apply query_ok in Ei.
    apply (keeps_tables _ _ _ _ _ (grow_ensureRole _ _)) in Er as (Eu2 & _ & _).
    cbv zeta in Ei. destruct (negb (_ && _)); [done|]. destruct (_ || _) eqn:Hc; [done|]. injection Ei as <- Ei.
    cbn [fst] in *. rewrite <- Ei in Eu2. cbn [with_users t_users] in Eu2. rewrite Eu2. split.
    + eexists. rewrite lookup_insert_eq. done.
    + intros id r0 Hnamed. exfalso. apply query_run in Ee as [Et|[a Et]].
      * rewrite <- Et in Hnamed. rewrite orb_false_iff in Hc. destruct Hc as [_ Hc].
        rewrite Hnamed in Hc. by rewrite bool_decide_false in Hc.
      * destruct (pg_text _); [|done]. rewrite Hnamed in Et. injection Et as _ Et.
        rewrite <- Et in Hc. rewrite orb_false_iff in Hc. destruct Hc as [_ Hc].
        rewrite Hnamed in Hc. by rewrite bool_decide_false in Hc.
Qed.

Lemma keeps_users_ok_Authenticate p name password w o w' :
  Authenticate p name password w = (o, w') → users_ok (pg_tables (w_store w)) → users_ok (pg_tables (w_store w')).
Proof.
  intros E. pose proof (keeps_Authenticate keeps_users_ok (stepped keeps_users_ok) any_limiter (λ _ _ x, x) p name password w) as Hk.
  rewrite E in Hk. apply Hk.
Qed.

Lemma same_store {A} (m : M world A) w o w' :
  keeps (of_world eq eq) m → m w = (o, w') → w_store w' = w_store w.
Proof. intros Hm E. specialize (Hm w). rewrite E in Hm. by destruct Hm as [-> _]. Qed.

Lemma steps_sync now pf names : keeps (λ a b : store, (pg_steps a <= pg_steps b)%nat) (sync_body now pf names).
Proof. intros s. apply (alone_sync keeps_users_ok now pf names s). Qed.

Lemma Ldap_ok p name password w user w' :
  LDAPAuthenticate p name password w = (Ok user, w') → users_ok (pg_tables (w_store w)) →
  directory_evidence password ∧
  (∃ r, t_users (pg_tables (w_store w')) !! ID user = Some r ∧ u_username r = Username user ∧
     u_is_active r = true ∧ u_auth_provider r = §"ldap") ∧
  ∀ id r0, user_named (pg_tables (w_store w)) (Username user) = Some (id, r0) →
    ID user = id ∧ ∀ role, role ∈ roles_of (pg_tables (w_store w)) id → role ∈ Roles user.
Proof.
  unfold LDAPAuthenticate. cbv zeta. destruct (negb _) eqn:Hg; [|done]. intros E Hok.
  apply negb_true_iff, orb_false_iff in Hg as [_ Hpw]. gobool.
  apply bind_ok in E as (d & w1 & Ed & E).
  apply same_store in Ed as E1; [|apply keeps_try, keeps_dial; apply _].
  destruct d as [[]|]; [|done].
  apply bind_ok in E as (b1 & w2 & Eb1 & E).
  apply same_store in Eb1 as E2;
    [|destruct (bool_decide _); [apply keeps_ret, _|apply keeps_outside; apply _]].
  destruct b1 as [?|]; [done|].
  apply bind_ok in E as (pf & w3 & El & E). apply same_store in El as E3; [|apply keeps_lookup; apply _].
  apply bind_ok in E as (b2 & w4 & Eb2 & E). unfold bind_as, outside in Eb2. injection Eb2 as Hbind <-.
  destruct b2 as [code|]; [by destruct (code =? _)|].
  apply bind_ok in E as (b3 & w5 & Eb3 & E).
  apply same_store in Eb3 as E5;
    [|destruct (bool_decide _); [apply keeps_ret, _|apply keeps_outside; apply _]].
  destruct b3 as [?|]; [done|].
  apply bind_ok in E as (names & w6 & Er & E). apply same_store in Er as E6; [|apply keeps_resolveRoles; apply _].
  apply bind_ok in E as (now & w7 & En & E). unfold outside in En. injection En as _ <-.
  apply on_store_ok in E as (E & _ & _). cbn [w_store] in E, E5.
  rewrite E6, E5, E3, E2, E1 in E.
  split; [split; [done|eauto]|].
  apply transaction_cases in E as (_ & _ & [[_ ?]|(u & s1 & s2 & Hb & Es1 & Es2 & Hu)]); [done| |apply steps_sync].
  destruct Hu as [[= <-]|?]; [|done].
  apply sync_ok in Hb as (Hn & Hrow & Hold); cbn [set_began pg_tables] in *; rewrite Es1 in *; [|done].
  rewrite Es2, Hn. split; [done|]. intros id r0 Hnamed. by apply (Hold id r0).
Qed.

(** The account of a granted login. *)
Definition account (t : tables) (user : User) : Prop :=
  ∃ r, t_users t !! ID user = Some r ∧ u_username r = Username user ∧ u_is_active r = true.

Lemma Authenticate_ok p name password w user w' :
  Authenticate p name password w = (Ok user, w') → users_ok (pg_tables (w_store w)) →
  account (pg_tables (w_store w')) user ∧
  (local_evidence (pg_tables (w_store w')) (ID user) (TrimSpace name) password ∨ directory_evidence password).
Proof.
  revert w. induction p as [|p|p IHp q IHq]; intros w E Hok; cbn [Authenticate] in E.
  - apply Local_ok in E as [He Hn]; [|done]. split; [|by left].
    destruct He as (r & hash & Hr & Hname & Ha & _). exists r. split_and!; congruence.
  - apply Ldap_ok in E as (Hd & (r & Hr & Hn & Ha & _) & _); [|done]. split; [exists r; done|by right].
  - apply bind_ok in E as (x & w1 & Ex & E). apply try_ok in Ex. destruct x as [u|e].
    + injection E as <- <-. by eapply IHp.
    + eapply IHq; [exact E|]. by eapply keeps_users_ok_Authenticate.
Qed.

(** ** The login *)

Lemma on_limiter_ok {A} (f : LoginRateLimiter → A * LoginRateLimiter) w a w' :
  on_limiter f w = (Ok a, w') →
  w_store w' = w_store w ∧ w_calls w' = w_calls w ∧ f (w_limiter w) = (a, w_limiter w').
Proof. unfold on_limiter. destruct (f _) as [b rl]. by intros [= <- <-]. Qed.
Lemma outside_ok {A} (f : nat → A) w a w' :
  outside f w = (Ok a, w') →
  w_store w' = w_store w ∧ w_limiter w' = w_limiter w ∧ a = f (w_calls w) ∧ w_calls w' = S (w_calls w).
Proof. unfold outside. by intros [= <- <-]. Qed.

Lemma keeps_users_store u tok exp : keeps (stepped same_users) (storeSession u tok exp).
Proof.
  apply alone_transaction; [apply _|]. apply keeps_bind; [apply _| |intros _]; apply keeps_wrap_err, alone_query;
    try apply _; intros now n t a t' E; destruct (pg_uuid u); try done; [by simplify_eq|].
  destruct (_ && _); by simplify_eq.
Qed.
Lemma keeps_users_login_audit ty u id ip ua o pn : keeps (of_world (stepped same_users) any_limiter) (recordLoginAudit ty u id ip ua o pn).
Proof.
  unfold recordLoginAudit. apply keeps_bind; [apply _| |intros _; apply keeps_ret, _].
  apply keeps_try, keeps_on_store, alone_audit; apply _.
Qed.
Lemma keeps_users_open svc req u p user : keeps (of_world (stepped same_users) any_limiter) (open_session svc req u p user).
Proof.
  unfold open_session, newSessionToken.
  walk; first [apply keeps_on_store, keeps_users_store | apply keeps_users_login_audit]; apply _.
Qed.

(** The steps of a granted login. *)
Lemma Login_steps svc req w user cookie w' :
  LoginWithContext svc req w = (Ok (user, cookie), w') →
  ∃ provider s1 w1 w2 w3,
    (IsBlocked (rateLimitKey (TrimSpace (lq_Username req))) (host_now (w_calls w)) (w_limiter w)).1 = false ∧
    resolveProviderForLogin svc (TrimSpace (lq_Username req)) (w_store w) = (Ok provider, s1) ∧
    w_store w1 = s1 ∧
    Authenticate provider (TrimSpace (lq_Username req)) (lq_Password req) w1 = (Ok user, w2) ∧
    w_store w3 = w_store w2 ∧
    open_session svc req (TrimSpace (lq_Username req)) provider user w3 = (Ok (user, cookie), w').
Proof.
  unfold LoginWithContext. cbv zeta. set (name := TrimSpace _). set (key := rateLimitKey name). intros E.
  apply bind_ok in E as (now & w1 & Eo & E). apply outside_ok in Eo as (Es1 & El1 & -> & _).
  apply bind_ok in E as (blocked & w2 & Eb & E). apply on_limiter_ok in Eb as (Es2 & _ & Eb).
  rewrite El1 in Eb. destruct blocked.
  { apply bind_ok in E as (? & ? & _ & E). done. }
  apply bind_ok in E as (provider & w3 & Ep & E). apply on_store_ok in Ep as (Ep & _ & _).
  rewrite Es2, Es1 in Ep.
  apply bind_ok in E as (r & w4 & Ea & E). apply try_ok in Ea. destruct r as [u|e].
  - apply bind_ok in E as ([] & w5 & El & E). apply on_limiter_ok in El as (Es5 & _ & _).
    assert (u = user) as ->.
    { clear - E. unfold open_session in E. do 4 (apply bind_ok in E as (? & ? & _ & E)).
      by injection E as <- _ _. }
    exists provider, (w_store w3), w3, w4, w5. by rewrite Eb.
  - apply bind_ok in E as (? & ? & _ & E). apply bind_ok in E as (? & ? & _ & E).
    destruct (classifyLoginFailure e). apply bind_ok in E as (? & ? & _ & E).
    by destruct (errors_is _ _).
Qed.

(** C13. No login without a checked password: whatever statements fail, whatever
    the directory answers and whichever provider the settings choose, a login
    that is granted was not rate limited, and either a stored hash of an active
    local account with the name that was sent accepted the password, or the
    directory accepted a bind with the password, which was not blank; and the
    account it opens is active. *)
Theorem granted_logins_rest_on_a_password (svc : Service) (req : LoginRequest) (w w' : world)
    (user : User) (cookie : Cookie) :
  users_ok (pg_tables (w_store w)) →
  LoginWithContext svc req w = (Ok (user, cookie), w') →
  (IsBlocked (rateLimitKey (TrimSpace (lq_Username req))) (host_now (w_calls w)) (w_limiter w)).1 = false ∧
  account (pg_tables (w_store w')) user ∧
  (local_evidence (pg_tables (w_store w')) (ID user) (TrimSpace (lq_Username req)) (lq_Password req) ∨
   directory_evidence (lq_Password req)).
Proof.
  intros Hok E. apply Login_steps in E as (provider & s1 & w1 & w2 & w3 & Hb & Hp & Es1 & Ha & Es3 & Ho).
  split; [done|].
  apply (keeps_tables _ _ _ _ _ (alone_resolveProvider keeps_users_ok svc _)) in Hp.
  apply Authenticate_ok in Ha as [Hacc He]; [|rewrite Es1; by apply Hp].
  pose proof (keeps_users_open svc req (TrimSpace (lq_Username req)) provider user w3) as Hu.
  rewrite Ho in Hu. destruct Hu as ((Hu & _ & _) & _). cbn [snd] in Hu. unfold same_users in Hu. rewrite Es3 in Hu.
  unfold account, local_evidence in *. rewrite Hu. rewrite TrimSpace_idem in He. done.
Qed.

(** ** A local account needs its local password *)

Lemma query_row_clean {A} (q : tables → option A + error) s :
  pg_faults s = [] →
  ∃ s', query_row q s = (match q (pg_tables s) with
                         | inl (Some a) => Ok a | inl None => Err pg_no_rows | inr e => Err e end, s') ∧
    pg_tables s' = pg_tables s ∧ pg_faults s' = [].
Proof.
  intros Hf. unfold query_row. rewrite query_clean by done.
  destruct (q (pg_tables s)) as [[]|]; eexists; done.
Qed.

Lemma resolveAuthConfig_total svc s :
  pg_faults s = [] →
  ∃ cfg s', resolveAuthConfigFromAdmin (svc_cfg svc) s = (Ok cfg, s') ∧
    pg_tables s' = pg_tables s ∧ pg_faults s' = [].
Proof.
  intros Hf. unfold resolveAuthConfigFromAdmin.
  destruct (query_row_clean (λ t, inl (t_ldap_settings t)) s Hf) as (s1 & E & Et & Ef).
  unfold bind, try. rewrite E. destruct (t_ldap_settings (pg_tables s)) as [r|].
  - eexists _, s1. split; [reflexivity|done].
  - change (errors_is pg_no_rows §"pgx.ErrNoRows") with true. cbn [orb].
    eexists _, s1. split; [reflexivity|done].
Qed.

Lemma mapped_local_resolves_local svc name s p provider s' :
  pg_faults s = [] → pg_text name = true → TrimSpace name = name →
  mapped_provider (pg_tables s) name = Some p → ToLower (TrimSpace p) ≠ §"ldap" →
  resolveProviderForLogin svc name s = (Ok provider, s') → provider = LocalProvider.
Proof.
  intros Hf Htext Htrim Hmap Hp E. unfold resolveProviderForLogin in E.
  destruct (resolveAuthConfig_total svc s Hf) as (cfg & s1 & Ec & Et & Ef).
  unfold bind at 1, try at 1 in E. rewrite Ec in E. cbv zeta in E.
  unfold bind at 1, try at 1 in E. unfold lookupMappedAuthProvider in E.
  destruct (query_row_clean (λ t, if pg_text (TrimSpace name) then inl (mapped_provider t (TrimSpace name))
    else inr pg_bad_text) s1 Ef) as (s2 & Eq & _).
  rewrite Htrim, Htext, Et, Hmap in Eq.
  unfold bind at 1, try at 1 in E. rewrite Htrim, Htext in E. rewrite Eq in E.
  injection E as <- _. by rewrite bool_decide_false.
Qed.

(** A name of a local account logs in with that account's password only:
    when the users table maps the name, in any case, to a provider other than
    LDAP, then whatever the settings' mode, the directory is not asked, and a
    granted login is for an active local account of exactly that name whose
    stored hash accepts the password. *)
Theorem mapped_local_names_need_the_local_password (svc : Service) (req : LoginRequest) (w w' : world)
    (user : User) (cookie : Cookie) (p : bytes) :
  users_ok (pg_tables (w_store w)) → pg_faults (w_store w) = [] →
  pg_text (TrimSpace (lq_Username req)) = true →
  mapped_provider (pg_tables (w_store w)) (TrimSpace (lq_Username req)) = Some p →
  ToLower (TrimSpace p) ≠ §"ldap" →
  LoginWithContext svc req w = (Ok (user, cookie), w') →
  local_evidence (pg_tables (w_store w')) (ID user) (TrimSpace (lq_Username req)) (lq_Password req).
Proof.
  intros Hok Hf Htext Hmap Hp E.
  apply Login_steps in E as (provider & s1 & w1 & w2 & w3 & _ & Hres & Es1 & Ha & Es3 & Ho).
  assert (provider = LocalProvider) as ->
    by (eapply mapped_local_resolves_local; [exact Hf|exact Htext|apply TrimSpace_idem|done|done|exact Hres]).
  apply (keeps_tables _ _ _ _ _ (alone_resolveProvider keeps_users_ok svc _)) in Hres.
  cbn [Authenticate] in Ha. apply Local_ok in Ha as [He _]; [|rewrite Es1; by apply Hres].
  pose proof (keeps_users_open svc req (TrimSpace (lq_Username req)) LocalProvider user w3) as Hu.
  rewrite Ho in Hu. destruct Hu as ((Hu & _ & _) & _). cbn [snd] in Hu. unfold same_users in Hu. rewrite Es3 in Hu.
  unfold local_evidence in *. rewrite Hu. by rewrite TrimSpace_idem in He.
Qed.


(** ** The session of a login *)

Class HostLaws := {
  host_random_length : ∀ n raw, host_random n = inl raw → length raw = 32%nat;
  host_clock_mono : ∀ m n, (m <= n)%nat → host_now m <= host_now n;
}.

Lemma b64_nonempty s : s ≠ [] → b64_encode s ≠ [].
Proof. destruct s as [|a [|b [|c s]]]; [done|done|done|done]. Qed.

Lemma audit_tables ty ac o act ip ua m w x w' :
  try (on_store (insert_audit_event ty ac o act ip ua m)) w = (Ok x, w') →
  t_users (pg_tables (w_store w')) = t_users (pg_tables (w_store w)) ∧
  t_auth_sessions (pg_tables (w_store w')) = t_auth_sessions (pg_tables (w_store w)).
Proof.
  intros E. pose proof (alone_audit same_users ty ac o act ip ua m (w_store w)) as (Eu & _).
  pose proof (alone_audit same_sessions ty ac o act ip ua m (w_store w)) as (Es & _).
  unfold try, on_store, zoom in E. destruct (insert_audit_event _ _ _ _ _ _ _ _) as [oo s1].
  cbn [snd] in *. destruct oo; simplify_eq/=; done.
Qed.

Lemma keeps_began {A} (m : M world A) T L w o w' :
  keeps (of_world (stepped T) L) m → m w = (o, w') → pg_began (w_store w) = None → pg_began (w_store w') = None.
Proof. intros Hm E. specialize (Hm w). rewrite E in Hm. apply Hm. Qed.

Lemma Resolve_clean token s id row :
  pg_faults s = [] → TrimSpace token = token → token ≠ [] →
  session_user (pg_clock s) (pg_tables s) (hashSessionToken token) = Some (id, row) → pg_uuid id = Some id →
  (ResolveCurrentUser token s).1 =
  Ok (MkCurrentUser id (u_username row) (default [] (u_email row)) (default [] (u_display_name row))
        (u_auth_provider row) (roles_of (pg_tables s) id)).
Proof.
  intros Hf Htrim Hne Hu Hid. unfold ResolveCurrentUser. rewrite Htrim, bool_decide_false by done. cbn [negb].
  unfold bind at 1, try at 1. rewrite query_clean by done. rewrite Hu.
  unfold bind at 1, wrap_err, loadRoles. rewrite query_clean by done. rewrite Hid.
  unfold bind at 1, try. rewrite query_clean by done. done.
Qed.

(** What [open_session] leaves: the session's row and the cookie. *)
Lemma open_session_ok svc req name provider user w user' cookie w' :
  open_session svc req name provider user w = (Ok (user', cookie), w') → pg_began (w_store w) = None →
  ∃ n raw now uu created, host_random n = inl raw ∧ pg_uuid (ID user) = Some uu ∧
    cookie = session_cookie (svc_cfg svc) (b64_encode raw) (now + SessionTTL (svc_cfg svc)) ∧
    t_users (pg_tables (w_store w')) = t_users (pg_tables (w_store w)) ∧
    t_auth_sessions (pg_tables (w_store w')) !! hashSessionToken (b64_encode raw) =
      Some (AuthSession uu (now + SessionTTL (svc_cfg svc)) None (Some created)).
Proof.
  unfold open_session. intros E Hb. apply bind_ok in E as (token & w1 & Et & E). apply wrap_ok in Et.
  unfold newSessionToken in Et. apply bind_ok in Et as (r & w1' & Er & Et).
  apply outside_ok in Er as (Es1 & _ & -> & _).
  apply bind_ok in Et as (raw & w1'' & Elift & Et). injection Et as <- <-.
  assert (host_random (w_calls w) = inl raw ∧ w1'' = w1') as [Hraw ->].
  { unfold lift in Elift. destruct (host_random _); [|done]. by injection Elift as -> ->. }
  apply bind_ok in E as (now & w2 & En & E). apply outside_ok in En as (Es2 & _ & _ & _).
  apply bind_ok in E as ([] & w3 & Es & E). apply on_store_ok in Es as (Es & _ & _).
  apply bind_ok in E as ([] & w4 & Ea & E). injection E as <- <- <-.
  unfold recordLoginAudit in Ea. apply bind_ok in Ea as (x & w5 & Ea & Ex). injection Ex as <-.
  apply audit_tables in Ea as [Eu Ess]. rewrite Eu, Ess.
  apply storeSession_cases in Es as (_ & _ & [[_ ?]|(uu & Huu & _ & _ & Et)]);
    [done| |by rewrite Es2, Es1].
  exists (w_calls w), raw, now, uu, (pg_now (pg_steps (w_store w2))). rewrite Et.
  cbn [with_auth_sessions t_users t_auth_sessions]. unfold stored. rewrite lookup_insert_eq, Es2, Es1. done.
Qed.

(** A granted login gives a session that works: the cookie is HTTP-only and
    for the whole site, its value is drawn at random, only its hash is stored,
    and before it expires the token resolves, with no statement failing, to the
    user who logged in, with the roles that user has. *)
Theorem login_sessions_resolve `{!HostLaws} (svc : Service) (req : LoginRequest) (w w' : world)
    (user : User) (cookie : Cookie) :
  users_ok (pg_tables (w_store w)) → pg_began (w_store w) = None →
  LoginWithContext svc req w = (Ok (user, cookie), w') →
  pg_faults (w_store w') = [] → pg_clock (w_store w') < c_Expires cookie →
  c_HttpOnly cookie = true ∧ c_Path cookie = §"/" ∧ c_Name cookie = SessionCookieName (svc_cfg svc) ∧
  (∃ n raw, host_random n = inl raw ∧ c_Value cookie = b64_encode raw) ∧
  ∃ u, (ResolveCurrentUser (c_Value cookie) (w_store w')).1 = Ok u ∧ cu_ID u = ID user ∧
    cu_Username u = Username user ∧ cu_Roles u = roles_of (pg_tables (w_store w')) (ID user).
Proof.
  intros Hok Hbegan E Hf Hclock.
  apply Login_steps in E as (provider & s1 & w1 & w2 & w3 & _ & Hres & Es1 & Ha & Es3 & Ho).
  pose proof (alone_resolveProvider keeps_users_ok svc (TrimSpace (lq_Username req)) (w_store w)) as (Hok1 & _ & Hb1).
  rewrite Hres in Hok1, Hb1. cbn [snd] in Hok1, Hb1. rewrite <- Es1 in Hok1, Hb1.
  pose proof (keeps_users_ok_Authenticate _ _ _ _ _ _ Ha (Hok1 Hok)) as Hok2.
  assert (pg_began (w_store w3) = None) as Hb3.
  { rewrite Es3. eapply (keeps_began _ keeps_users_ok any_limiter); [|exact Ha|auto].
    by apply (keeps_Authenticate keeps_users_ok (stepped keeps_users_ok) any_limiter (λ _ _ x, x)). }
  apply Authenticate_ok in Ha as [(row & Hrow & Hname & Hact) _]; [|auto].
  apply open_session_ok in Ho as (n & raw & now & uu & created & Hraw & Huu & -> & Eu & Hses); [|done].
  cbn [session_cookie c_HttpOnly c_Path c_Name c_Value c_Expires] in *.
  rewrite Es3 in Eu. pose proof (Hok2 _ _ Hrow) as Hid. assert (uu = ID user) as -> by congruence.
  split_and!; [done|done|done|eauto|].
  rewrite (Resolve_clean _ _ (ID user) row); [eexists; split; [reflexivity|done]|done| | | |done].
  - apply TrimSpace_plain, Tokens.b64_plain.
  - apply b64_nonempty. intros ->. apply host_random_length in Hraw. done.
  - apply session_user_spec. eexists. split; [exact Hses|]. cbn. rewrite Eu. done.
Qed.
End Login.
