(* ===== verification/AuthAttempts.v ===== *)
(** Attempts: how failures are counted and block, logins that overlap, and
    password changes; and the witnesses of the authentication theorems. *)
From S2P Require Import Prelude GoStrings GoCrypto GoEncoding GoTexts Store PgServer Identity RateLimiter Ldap LdapSpec Auth AuthService AuthSpec AuthClaims AuthLogin.

(** * Calls that never return an error *)

Definition never_err {S A} (m : M S A) : Prop := ∀ s e s', m s ≠ (Err e, s').

Lemma bind_err {S A B} (m : M S A) (k : A → M S B) s e s' :
  bind m k s = (Err e, s') → m s = (Err e, s') ∨ ∃ a s1, m s = (Ok a, s1) ∧ k a s1 = (Err e, s').
Proof. unfold bind. destruct (m s) as [[]]; intros; simplify_eq; eauto. Qed.

Lemma never_ret {S A} (a : A) : never_err (S:=S) (ret a).
Proof. by intros s e s'. Qed.
Lemma never_try {S A} (m : M S A) : never_err (try m).
Proof. intros s e s'. unfold try. by destruct (m s) as [[]]. Qed.
Lemma never_bind {S A B} (m : M S A) (k : A → M S B) :
  never_err m → (∀ a, never_err (k a)) → never_err (bind m k).
Proof. intros Hm Hk s e s' [E|(a & s1 & _ & E)]%bind_err; [by eapply Hm|by eapply Hk]. Qed.
Lemma never_outside {A} (f : nat → A) : never_err (outside f).
Proof. by intros w e w'. Qed.
Lemma never_on_limiter {A} (f : LoginRateLimiter → A * LoginRateLimiter) : never_err (on_limiter f).
Proof. intros w e w'. unfold on_limiter. by destruct (f _). Qed.
Lemma never_on_store {A} (m : M store A) : never_err m → never_err (on_store m).
Proof.
  intros Hm w e w'. unfold on_store, zoom. destruct (m (w_store w)) as [o s] eqn:E.
  intros [= -> _]. by eapply Hm.
Qed.

(** An error that wraps another. *)
Definition wraps (e : error) : Prop := ∃ msg e', e = Wrap msg e'.
Definition only_wraps {S A} (m : M S A) : Prop := ∀ s e s', m s = (Err e, s') → wraps e.

Lemma wraps_never {S A} (m : M S A) : never_err m → only_wraps m.
Proof. intros Hm s e s' E. by apply Hm in E. Qed.
Lemma wraps_wrap {S A} msg (m : M S A) : only_wraps (wrap_err msg m).
Proof.
  intros s e s'. unfold wrap_err. destruct (m s) as [[]]; intros; simplify_eq. by eexists _, _.
Qed.
Lemma wraps_bind {S A B} (m : M S A) (k : A → M S B) :
  only_wraps m → (∀ a, only_wraps (k a)) → only_wraps (bind m k).
Proof. intros Hm Hk s e s' [E|(a & s1 & _ & E)]%bind_err; [by eapply Hm|by eapply Hk]. Qed.

Section Attempts.
Context `{Unicode} `{PostgresLaws} `{PostgresText} `{Host} `{Bcrypt} `{Directory}.

Lemma wraps_on_store {A} (m : M store A) : only_wraps m → only_wraps (on_store m).
Proof.
  intros Hm w e w'. unfold on_store, zoom. destruct (m (w_store w)) as [o s] eqn:E.
  intros [= -> _]. by eapply Hm.
Qed.
Lemma wraps_transaction {A} bm cm (body : M store A) : only_wraps body → only_wraps (transaction bm cm body).
Proof.
  intros Hb s e s'. unfold transaction. pose proof (wraps_wrap bm (query (λ now (_ : nat) (t : tables), inl (now, t)))) as Hw.
  destruct (wrap_err bm _ s) as [[now|e1|y|] s1] eqn:E1; [|intros [= <- _]; by eapply Hw|done..].
  destruct (body _) as [[a|e2|y|] s2] eqn:E2; [|intros [= <- _]; by eapply Hb|done..].
  destruct (mjoin _) as [[]|]; intros; simplify_eq; by eexists _, _.
Qed.

Lemma answers_audit ty ac o act ip ua m s :
  is_ok (insert_audit_event ty ac o act ip ua m s).1 = true ∨ is_err (insert_audit_event ty ac o act ip ua m s).1 = true.
Proof. apply answers_query. Qed.
Lemma never_audit ty u id ip ua o pn : never_err (recordLoginAudit ty u id ip ua o pn).
Proof. apply never_bind; [apply never_try|intros; apply never_ret]. Qed.
Lemma never_resolveProvider svc name : never_err (resolveProviderForLogin svc name).
Proof.
  unfold resolveProviderForLogin. apply never_bind; [apply never_try|]. intros [cfg|e]; [|apply never_ret].
  apply never_bind; [apply never_try|]. intros r. apply never_ret.
Qed.
Lemma wraps_open svc req name p user : only_wraps (open_session svc req name p user).
Proof.
  unfold open_session. apply wraps_bind; [apply wraps_wrap|intros token].
  apply wraps_bind; [apply wraps_never, never_outside|intros now].
  apply wraps_bind; [|intros _; apply wraps_never, never_bind; [apply never_audit|intros; apply never_ret]].
  apply wraps_on_store, wraps_transaction. apply wraps_bind; [apply wraps_wrap|intros _; apply wraps_wrap].
Qed.

(** ** Failures are counted *)

Definition any_store (_ _ : store) : Prop := True.
#[local] Instance any_store_preorder : PreOrder any_store.
Proof. by split. Qed.
Lemma same_limiter {A} (m : M world A) w o w' :
  keeps (of_world any_store eq) m → m w = (o, w') → w_limiter w' = w_limiter w ∧ (w_calls w <= w_calls w')%nat.
Proof. intros Hm E. specialize (Hm w). rewrite E in Hm. by destruct Hm as (_ & -> & ?). Qed.

Lemma Login_failed svc req w w' :
  LoginWithContext svc req w = (Err ErrInvalidCredentials, w') →
  let key := rateLimitKey (TrimSpace (lq_Username req)) in
  let asked := IsBlocked key (host_now (w_calls w)) (w_limiter w) in
  ∃ n, (w_calls w < n < w_calls w')%nat ∧ asked.1 = false ∧
    w_limiter w' = RecordFailure key (host_now n) asked.2.
Proof.
  unfold LoginWithContext. cbv zeta. set (name := TrimSpace _). set (key := rateLimitKey name). intros E.
  apply bind_err in E as [E|(now & w1 & Eo & E)]; [by apply never_outside in E|].
  apply outside_ok in Eo as (_ & El1 & -> & Ec1).
  apply bind_err in E as [E|(blocked & w2 & Eb & E)]; [by apply never_on_limiter in E|].
  apply on_limiter_ok in Eb as (_ & Ec2 & Eb). rewrite El1 in Eb. rewrite Eb. cbn [fst snd].
  destruct blocked.
  { apply bind_err in E as [E|(? & ? & _ & E)]; [exfalso; by eapply never_audit|done]. }
  apply bind_err in E as [E|(provider & w3 & Ep & E)].
  { exfalso. exact (never_on_store _ (never_resolveProvider svc name) _ _ _ E). }
  apply on_store_ok in Ep as (_ & El3 & Ec3).
  apply bind_err in E as [E|(r & w4 & Ea & E)]; [by apply never_try in E|].
  apply same_limiter in Ea as [El4 Ec4].
  2:{ by apply keeps_try, (keeps_Authenticate keeps_users_ok any_store eq). }
  destruct r as [u|e].
  { apply bind_err in E as [E|([] & w5 & _ & E)]; [by apply never_on_limiter in E|].
    by apply wraps_open in E as (? & ? & ?). }
  apply bind_err in E as [E|(now & w5 & Eo & E)]; [by apply never_outside in E|].
  apply outside_ok in Eo as (_ & El5 & -> & Ec5).
  apply bind_err in E as [E|([] & w6 & Ef & E)]; [by apply never_on_limiter in E|].
  apply on_limiter_ok in Ef as (_ & Ec6 & Ef). injection Ef as Ef.
  destruct (classifyLoginFailure e) as [ty reason].
  apply bind_err in E as [E|(x & w7 & Ea & E)]; [by apply never_audit in E|].
  apply same_limiter in Ea as [El7 Ec7]; [|by apply (keeps_login_audit keeps_users_ok any_store eq)].
  assert (w' = w7) as -> by (destruct (errors_is _ _); [by injection E as ->|done]).
  exists (w_calls w4). split_and!; [lia|lia|done|].
  rewrite El7, <- Ef, El5, El4, El3. done.
Qed.

(** ** Ten wrong passwords *)

Lemma failures_app key acc h k :
  failures_since_reset key acc (h ++ k) = failures_since_reset key (failures_since_reset key acc h) k.
Proof.
  revert acc. induction h as [|e h IH]; intros acc; [done|].
  cbn [app]. rewrite failures_step, IH, <- failures_step. done.
Qed.
Lemma clock_ok_app from h mid k now :
  clock_ok from h mid = true → clock_ok mid k now = true → clock_ok from (h ++ k) now = true.
Proof.
  revert from. induction h as [|[t op] h IH]; intros from Hh Hk; cbn [app clock_ok] in *.
  - destruct k as [|[t op] k]; cbn in *; gobool; [apply Z.leb_le; lia|].
    apply andb_true_iff. split; [apply Z.leb_le; lia|done].
  - apply andb_true_iff in Hh as [-> Hh]. cbn. by apply IH.
Qed.
Lemma rl_run_app rl h k : rl_run rl (h ++ k) = rl_run (rl_run rl h) k.
Proof. apply fold_left_app. Qed.

(** Attempts one after another under one key, each answered with invalid
    credentials. *)
Fixpoint wrong_attempts (svc : Service) (key : bytes) (reqs : list LoginRequest) (w w' : world) : Prop :=
  match reqs with
  | [] => w' = w
  | req :: rest =>
      rateLimitKey (TrimSpace (lq_Username req)) = key ∧
      ∃ w1, LoginWithContext svc req w = (Err ErrInvalidCredentials, w1) ∧ wrong_attempts svc key rest w1 w'
  end.

Lemma wrong_attempts_history `{!HostLaws} svc key from reqs : ∀ w w' h,
  wrong_attempts svc key reqs w w' → w_limiter w = rl_run new_limiter h →
  clock_ok from h (host_now (w_calls w)) = true →
  (w_calls w <= w_calls w')%nat ∧
  ∃ h' ts, w_limiter w' = rl_run new_limiter (h ++ h') ∧
    clock_ok from (h ++ h') (host_now (w_calls w')) = true ∧
    failures_since_reset key [] (h ++ h') = failures_since_reset key [] h ++ ts ∧
    length ts = length reqs ∧ Forall (λ t, host_now (w_calls w) <= t) ts.
Proof.
  induction reqs as [|req reqs IH]; intros w w' h Hr Hl Hc; cbn [wrong_attempts] in Hr.
  - subst w'. split; [done|]. exists [], []. rewrite app_nil_r. split_and!; try done. by rewrite app_nil_r.
  - destruct Hr as (Hkey & w1 & E & Hr). apply Login_failed in E as (n & Hn & _ & El).
    cbv zeta in El. rewrite Hkey in El.
    set (t1 := host_now (w_calls w)) in *. set (t2 := host_now n) in *.
    assert (t1 <= t2) as Ht by (apply host_clock_mono; lia).
    assert (t2 <= host_now (w_calls w1)) as Ht' by (apply host_clock_mono; lia).
    set (step := [(t1, OpAsk key); (t2, OpFailure key)]).
    destruct (IH w1 w' (h ++ step) Hr) as (Hle & h' & ts & Hl' & Hc' & Hf & Hlen & Hall).
    + rewrite rl_run_app, <- Hl, El. done.
    + apply (clock_ok_app _ _ t1); [done|]. cbn. rewrite !andb_true_iff, !Z.leb_le. lia.
    + split; [lia|]. exists (step ++ h'), (t2 :: ts). rewrite (app_assoc h step h').
      split_and!; [done|done| |by cbn; rewrite Hlen|].
      * rewrite Hf, failures_app. cbn. rewrite bool_decide_true by done. by rewrite <- app_assoc.
      * constructor; [lia|]. eapply Forall_impl; [exact Hall|]. cbn. intros t Hle2.
        assert (t1 <= host_now (w_calls w1)) by lia. lia.
Qed.

Lemma within_all window now lo ts :
  Forall (λ t, lo <= t) ts → now - window <= lo → within window now ts = ts.
Proof.
  intros Hall Hle. unfold within. induction Hall as [|t ts Ht _ IH]; [done|].
  rewrite filter_cons_True by lia. by rewrite IH.
Qed.

(** Ten wrong passwords block: after ten or more attempts under one key
    that were answered with invalid credentials, the first of them at most five
    minutes ago and whatever happened under the key before, the next attempt is
    refused as rate limited, the right password or not: no provider is
    consulted, no user and no session is touched, and the clock is the only
    thing asked. *)
Theorem ten_wrong_passwords_block `{!HostLaws} (svc : Service) (key : bytes) (reqs : list LoginRequest)
    (req : LoginRequest) (h : list (Z * rl_op)) (from : Z) (w w' : world) :
  w_limiter w = rl_run new_limiter h → clock_ok from h (host_now (w_calls w)) = true →
  wrong_attempts svc key reqs w w' → (10 <= length reqs)%nat →
  host_now (w_calls w') - 5 * 60 * 10 ^ 9 <= host_now (w_calls w) →
  rateLimitKey (TrimSpace (lq_Username req)) = key →
  ∃ w'', LoginWithContext svc req w' = (Err ErrRateLimited, w'') ∧ w_calls w'' = S (w_calls w') ∧
    t_users (pg_tables (w_store w'')) = t_users (pg_tables (w_store w')) ∧
    t_auth_sessions (pg_tables (w_store w'')) = t_auth_sessions (pg_tables (w_store w')).
Proof.
  intros Hl Hc Hr Hlen Hwin Hkey.
  destruct (wrong_attempts_history svc key from reqs w w' h Hr Hl Hc)
    as (_ & h' & ts & Hl' & Hc' & Hf & Hlt & Hall).
  assert ((IsBlocked key (host_now (w_calls w')) (w_limiter w')).1 = true) as Hb.
  { unfold IsBlocked. cbn [fst]. rewrite Hl'.
    pose proof (run_entries (5 * 60 * 10 ^ 9) 10 (h ++ h') from (host_now (w_calls w')) key Hc') as Hp.
    cbv zeta in Hp. change (NewLoginRateLimiter (5 * 60 * 10 ^ 9) 10) with new_limiter in Hp. rewrite Hp.
    destruct (rl_run_settings (h ++ h') new_limiter) as [-> ->].
    change (rl_max new_limiter) with 10. change (rl_window new_limiter) with (5 * 60 * 10 ^ 9).
    rewrite Hf. unfold within. rewrite filter_app. change (filter _ ts) with (within (5 * 60 * 10 ^ 9) (host_now (w_calls w')) ts).
    rewrite (within_all _ _ _ _ Hall) by lia. rewrite zlen_app. apply Z.leb_le.
    pose proof (zlen_nonneg (filter (λ t, host_now (w_calls w') - 5 * 60 * 10 ^ 9 <= t)
      (failures_since_reset key [] h))). unfold zlen at 2. rewrite Hlt. lia. }
  unfold LoginWithContext. cbv zeta. rewrite Hkey. unfold bind at 1, outside. unfold bind at 1, on_limiter.
  cbn [w_calls w_limiter w_store].
  destruct (IsBlocked key (host_now (w_calls w')) (w_limiter w')) as [b rl] eqn:Eb. cbn [fst] in Hb. subst b.
  set (w1 := World (w_store w') rl (S (w_calls w'))).
  unfold recordLoginAudit.
  match goal with |- context [try ?m] => destruct (try m w1) as [o w2] eqn:Et end.
  unfold bind at 1 2. rewrite Et.
  assert (is_ok o = true ∧ w_calls w2 = w_calls w1) as [Ho Ecalls].
  { unfold try, on_store, zoom in Et. match type of Et with context [insert_audit_event ?a ?b ?c ?d ?e ?f ?g ?x] =>
      pose proof (answers_audit a b c d e f g x) as Ha; destruct (insert_audit_event a b c d e f g x) as [oo s2] end.
    cbn in Ha. destruct oo; injection Et as <- <-; naive_solver. }
  destruct o as [x| | |]; [|done..]. apply audit_tables in Et as [Eu Es].
  exists w2. split; [done|]. split; [by rewrite Ecalls|]. done.
Qed.

(** ** Aliases *)

Definition alias (name : bytes) (n : Z) : bytes := name ++ §"@" ++ Itoa n.

(** The limit does not follow a directory account: to every name without a
    backslash or an at sign there are endless names to log in with, one per
    number, each of which the directory is searched for under the plain name
    too, and each of which is counted under a key of its own. *)
Theorem aliases_are_counted_apart (name : bytes) (m n : Z) :
  tight name = true → forallb is_ascii name = true → escape_byte ∉ name → "@"%byte ∉ name →
  0 <= m <= max_int64 → 0 <= n <= max_int64 → m ≠ n →
  name ∈ ldapUsernameCandidates (alias name m) ∧ name ∈ ldapUsernameCandidates (alias name n) ∧
  rateLimitKey (TrimSpace (alias name m)) ≠ rateLimitKey (TrimSpace (alias name n)).
Proof.
  intros Ht Ha Hesc Hat Hm Hn Hne.
  assert (Htrim : ∀ k, 0 <= k → TrimSpace (alias name k) = alias name k).
  { intros k Hk. destruct (Itoa_digits k Hk) as [Hd Hi].
    apply TrimSpace_tight. apply tight_app; [done|]. by apply digits_tight. }
  assert (Hcand : ∀ k, 0 <= k → name ∈ ldapUsernameCandidates (alias name k)).
  { intros k Hk. unfold ldapUsernameCandidates. rewrite Htrim by done. unfold alias.
    rewrite (bool_decide_false (_ = [])) by by destruct name.
    rewrite (bool_decide_false (escape_byte ∈ _)).
    2:{ rewrite !not_elem_of_app. split_and!; [done|by apply (bool_decide_unpack _); vm_compute|].
        apply Itoa_notin; [done|by vm_compute]. }
    rewrite (bool_decide_true ("@"%byte ∈ _)) by (rewrite !elem_of_app; right; left; by left).
    change (§"@" ++ Itoa k) with ("@"%byte :: Itoa k). rewrite SplitByte_cons_notin by done.
    match goal with |- context [default [] (head (name :: ?t))] => change (default [] (head (name :: t))) with name end.
    rewrite (TrimSpace_tight name Ht). rewrite (bool_decide_false (name = [])) by by intros ->.
    cbn [app fold_left containsString]. rewrite bool_decide_false; [cbn; set_solver|].
    intros E. apply (f_equal length) in E. rewrite length_app in E. cbn in E. lia. }
  split_and!; [apply Hcand; lia|apply Hcand; lia|]. rewrite !Htrim by lia. unfold rateLimitKey.
  intros E. apply app_inj_1 in E as [_ E]; [|done]. unfold alias, ToLower in E.
  destruct (Itoa_digits m) as [Hdm _]; [lia|]. destruct (Itoa_digits n) as [Hdn _]; [lia|].
  apply lower_digits in Hdm as [Em Am]. apply lower_digits in Hdn as [En An].
  rewrite !forallb_app, Ha, Am, An in E. cbn [andb] in E. change (forallb is_ascii §"@") with true in E.
  cbn [andb] in E. rewrite !map_app, Em, En in E.
  apply app_inv_head in E. apply app_inv_head in E.
  assert (Some m = Some n) by (rewrite <- (Atoi_Itoa m), <- (Atoi_Itoa n), E; unfold min_int64; done || lia).
  congruence.
Qed.

(** ** Logins that overlap *)

(** The statements of two logins of one user whose transactions run at the
    same time: under READ COMMITTED each revokes what it can see before the
    other has stored its session. *)
Definition overlapping_logins (u h1 h2 : bytes) (e1 e2 : Z) : M store unit :=
  do! revoke_sessions u in
  do! revoke_sessions u in
  do! insert_session u h1 e1 in
  insert_session u h2 e2.

Lemma revoke_clean u s :
  pg_faults s = [] → pg_uuid u = Some u →
  ∃ m, revoke_sessions u s =
    (Ok tt, PgStore (with_auth_sessions (pg_tables s) m) (S (pg_steps s)) [] (pg_began s)) ∧
    ∀ h, t_auth_sessions (pg_tables s) !! h = None → m !! h = None.
Proof.
  intros Hf Hu. unfold revoke_sessions. rewrite query_clean, Hu by done. eexists. split; [reflexivity|].
  intros h Hh. by rewrite lookup_fmap, Hh.
Qed.
Lemma insert_clean u h e s :
  pg_faults s = [] → pg_uuid u = Some u → is_Some (t_users (pg_tables s) !! u) →
  t_auth_sessions (pg_tables s) !! h = None →
  insert_session u h e s =
    (Ok tt, PgStore (with_auth_sessions (pg_tables s)
      (<[h := AuthSession u e None (Some (pg_clock s))]> (t_auth_sessions (pg_tables s))))
      (S (pg_steps s)) [] (pg_began s)).
Proof.
  intros Hf Hu Hr Hh. unfold insert_session. rewrite query_clean, Hu by done.
  by rewrite !bool_decide_true.
Qed.

(** Two logins that overlap leave the user two sessions that both work: the
    revocation of earlier sessions holds for one login after the other only. *)
Theorem overlapping_logins_leave_two_sessions (s : store) (u h1 h2 : bytes) (e1 e2 : Z) (row : user_row) :
  pg_faults s = [] → pg_uuid u = Some u → t_users (pg_tables s) !! u = Some row → u_is_active row = true →
  h1 ≠ h2 → t_auth_sessions (pg_tables s) !! h1 = None → t_auth_sessions (pg_tables s) !! h2 = None →
  ∃ s', overlapping_logins u h1 h2 e1 e2 s = (Ok tt, s') ∧
    (pg_clock s' < e1 → session_user (pg_clock s') (pg_tables s') h1 = Some (u, row)) ∧
    (pg_clock s' < e2 → session_user (pg_clock s') (pg_tables s') h2 = Some (u, row)).
Proof.
  intros Hf Hu Hrow Hact Hne Hh1 Hh2. unfold overlapping_logins.
  destruct (revoke_clean u s Hf Hu) as (m1 & E1 & F1).
  unfold bind at 1. rewrite E1. set (s1 := PgStore _ _ _ _).
  destruct (revoke_clean u s1 eq_refl Hu) as (m2 & E2 & F2).
  unfold bind at 1. rewrite E2. set (s2 := PgStore _ _ _ _).
  assert (Hfresh : ∀ h, t_auth_sessions (pg_tables s) !! h = None → t_auth_sessions (pg_tables s2) !! h = None)
    by (intros h Hh; apply F2, F1, Hh).
  unfold bind at 1. rewrite (insert_clean u h1 e1 s2) by first [done|by exists row|by apply Hfresh].
  rewrite insert_clean; [|done|done|by exists row|].
  2:{ cbn. rewrite lookup_insert_ne by done. by apply Hfresh. }
  eexists. split; [reflexivity|]. cbn [pg_tables]. split; intros Hc; apply session_user_spec;
    cbn [t_auth_sessions t_users with_auth_sessions].
  - rewrite lookup_insert_ne, lookup_insert_eq by done. eexists. split; [reflexivity|]. done.
  - rewrite lookup_insert_eq. eexists. split; [reflexivity|]. done.
Qed.

(** ** Changing a password *)

(** The documented promise of bcrypt: a hash accepts the password it is of. *)
Class BcryptLaws := {
  bcrypt_accepts : ∀ n p h, GenerateFromPassword n p = inl h → CompareHashAndPassword h p = true;
}.

(** A password changes for who knows the old one: a change that is
    acknowledged was for an existing local account whose hash accepted the
    current password, and leaves that account with a hash that accepts the new
    one, of at least eight bytes, both as typed without surrounding white
    space; no other user changes, and no session does: those opened with the
    old password keep working. *)
Theorem password_change_needs_the_old_one `{!BcryptLaws} (req : ChangePasswordRequest) (w w' : world) :
  users_ok (pg_tables (w_store w)) → ChangePassword req w = (Ok tt, w') →
  ∃ id r hash,
    pg_uuid (TrimSpace (cp_UserID req)) = Some id ∧
    t_users (pg_tables (w_store w)) !! id = Some r ∧ u_auth_provider r = §"local" ∧
    CompareHashAndPassword (default [] (u_password_hash r)) (TrimSpace (cp_CurrentPassword req)) = true ∧
    CompareHashAndPassword hash (TrimSpace (cp_NewPassword req)) = true ∧
    8 <= zlen (TrimSpace (cp_NewPassword req)) ∧
    t_users (pg_tables (w_store w')) = <[id := set_password hash r]> (t_users (pg_tables (w_store w))) ∧
    t_auth_sessions (pg_tables (w_store w')) = t_auth_sessions (pg_tables (w_store w)).
Proof.
  intros Hok. unfold ChangePassword. cbv zeta. destruct (negb _); [|done].
  destruct (negb (_ <? 8)) eqn:Hlen; [|done]. gobool. intros E.
  apply bind_ok in E as (found & w1 & Ef & E). apply try_ok in Ef. destruct found as [r|e].
  2:{ by destruct (errors_is _ _). }
  apply on_store_ok in Ef as (Ef & _ & _). apply query_row_ok in Ef as [Ef Et1].
  destruct (pg_uuid _) as [id|] eqn:Hid; [|done]. injection Ef as Hr.
  destruct (negb _) eqn:Hlocal.
  { apply bind_ok in E as (? & ? & _ & E). done. }
  destruct (_ || _) eqn:Hcheck.
  { apply bind_ok in E as (? & ? & _ & E). done. }
  apply bind_ok in E as (h & w2 & Eo & E). apply outside_ok in Eo as (Es2 & _ & Hh & _).
  apply bind_ok in E as (hash & w3 & Elift & E). apply wrap_ok in Elift.
  assert (h = inl hash ∧ w3 = w2) as [-> ->].
  { unfold lift in Elift. destruct h; [|done]. by injection Elift as -> ->. }
  apply bind_ok in E as ([] & w4 & Eu & E). apply wrap_ok, on_store_ok in Eu as (Eu & _ & _).
  apply query_ok in Eu. rewrite Hid in Eu. destruct (pg_text hash); [|done]. injection Eu as Eu.
  unfold recordPasswordChangeAudit in E. apply bind_ok in E as (x & w5 & Ea & E). injection E as <-.
  apply audit_tables in Ea as [Eus Ess]. gobool.
  exists id, r, hash. split_and!; try done.
  - by eapply bcrypt_accepts.
  - rewrite Eus, <- Eu. cbn [with_users t_users]. rewrite Es2, Et1.
    apply map_eq. intros k. destruct (decide (id = k)) as [->|Hk].
    + by rewrite lookup_alter_eq, lookup_insert_eq, Hr.
    + by rewrite lookup_alter_ne, lookup_insert_ne.
  - rewrite Ess, <- Eu. cbn [with_users t_auth_sessions]. by rewrite Es2, Et1.
Qed.
End Attempts.

(** * Witnesses

    A database with a local administrator, one of whose directory namesakes
    exists too, an active local user and a deactivated one. *)

#[local] Existing Instance ascii_tables.
#[local] Existing Instance demo_pg.
#[local] Existing Instance demo_pg_text.
#[local] Existing Instance demo_pg_laws.

Definition demo_host : Host := {|
  host_now n := Z.of_nat n;
  host_random n := inl (repeat "k"%byte 32);
  host_ctx_err _ := None |}.
Definition demo_bcrypt : Bcrypt := {|
  GenerateFromPassword _ p := inl (§"h:" ++ p);
  CompareHashAndPassword h p := bool_decide (h = §"h:" ++ p) |}.
(** A directory that knows the user admin, whose password is dirpw. *)
Definition corp_directory : Directory := {|
  EscapeFilter s := filter (λ b, filter_meta b = false) s;
  dir_dial _ _ _ := None;
  dir_start_tls _ _ := None;
  dir_bind _ _ pw := if bool_decide (pw = §"dirpw") then None else Some 49;
  dir_search _ _ _ f _ _ :=
    inl (if Contains f §"=admin)"
         then [{| DN := §"cn=admin,dc=corp";
                  GetAttributeValue a := if bool_decide (a = §"sAMAccountName") then §"admin" else [] |}]
         else []);
  read_file _ := inl [];
  pem_has_certificate _ := true |}.
#[local] Existing Instance demo_host.
#[local] Existing Instance demo_bcrypt.
#[local] Existing Instance corp_directory.

Lemma demo_host_laws : HostLaws.
Proof. split; [by intros n raw [= <-]|]. intros m n Hmn. cbn. lia. Qed.
Lemma demo_bcrypt_laws : BcryptLaws.
Proof. split. intros n p h [= <-]. by apply bool_decide_eq_true. Qed.
Lemma demo_clock : PostgresClock.
Proof. split. intros m n Hmn. cbn. lia. Qed.
#[local] Existing Instance demo_host_laws.
#[local] Existing Instance demo_bcrypt_laws.
#[local] Existing Instance demo_clock.

Definition demo_users : gmap bytes user_row :=
  {[§"u1" := UserRow §"admin" None None true §"local" (Some §"h:breakglass") 0 None;
    §"u2" := UserRow §"ann" None None true §"local" (Some §"h:right") 0 None;
    §"u3" := UserRow §"old" None None false §"local" (Some §"h:gone") 0 None]}.
Definition demo_ldap_row : ldap_row :=
  LdapRow §"hybrid" true §"ldap.corp" 389 [] §"dc=corp" [] [] [] [] [] [] [] [] [] [] [] [] [] []
    false false false.
Definition demo_world : world :=
  World (PgStore (Tables demo_users {[§"r1" := §"admin"]} {[(§"u1", §"r1")]} ∅ ∅ ∅ ∅ (Some demo_ldap_row) [] ∅ ∅)
           0 [] None) new_limiter 0.
Definition demo_service : Service := {|
  svc_cfg := {| SessionCookieName := §"accessd_session"; SessionTTL := 3600; SessionSecure := true;
                SessionSameSite := §"lax"; DevAdminUsername := §"admin"; DevAdminPassword := §"breakglass";
                DevAdminEmail := []; DevAdminName := []; ProviderMode := §"local"; LDAP := demo_ldap_config |};
  svc_provider := LocalProvider |}.
Definition demo_request (name password : bytes) : LoginRequest :=
  {| lq_Username := name; lq_Password := password; lq_SourceIP := §"10.0.0.1"; lq_UserAgent := §"curl" |}.
Definition demo_login (name password : bytes) : outcome (User * Cookie) :=
  (LoginWithContext demo_service (demo_request name password) demo_world).1.

Lemma demo_users_ok : users_ok (pg_tables (w_store demo_world)).
Proof. apply (bool_decide_unpack (map_Forall (λ id _, pg_uuid id = Some id) _)). by vm_compute. Qed.

Definition demo_granted (name password : bytes) : User * Cookie :=
  match demo_login name password with
  | Ok p => p
  | _ => (MkUser [] [] [] [] [] 0, MkCookie [] [] [] false false SameSiteLax 0 0)
  end.
Definition demo_after (name password : bytes) : world :=
  (LoginWithContext demo_service (demo_request name password) demo_world).2.

Lemma demo_login_run name password :
  is_ok (demo_login name password) = true →
  LoginWithContext demo_service (demo_request name password) demo_world =
    (Ok ((demo_granted name password).1, (demo_granted name password).2), demo_after name password).
Proof.
  intros Hok. apply run_ok. unfold demo_granted. unfold demo_login in *.
  destruct (LoginWithContext _ _ _).1 as [[]| | |]; done.
Qed.

Lemma granted_logins_rest_on_a_password_witness :
  demo_login §"ann" §"wrong" = Err ErrInvalidCredentials ∧
  account (pg_tables (w_store (demo_after §" ann" §"right"))) (demo_granted §" ann" §"right").1.
Proof.
  split; [by vm_compute|].
  apply (granted_logins_rest_on_a_password demo_service (demo_request §" ann" §"right") demo_world _ _ _
    demo_users_ok (demo_login_run §" ann" §"right" ltac:(by vm_compute))).
Defined.

Lemma mapped_local_names_need_the_local_password_witness :
  demo_login §"admin" §"dirpw" = Err ErrInvalidCredentials ∧
  local_evidence (pg_tables (w_store (demo_after §"admin" §"breakglass")))
    (ID (demo_granted §"admin" §"breakglass").1) §"admin" §"breakglass".
Proof.
  split; [by vm_compute|].
  apply (mapped_local_names_need_the_local_password demo_service (demo_request §"admin" §"breakglass") demo_world
    (demo_after §"admin" §"breakglass") _ (demo_granted §"admin" §"breakglass").2 §"local" demo_users_ok eq_refl
    ltac:(by vm_compute) ltac:(by vm_compute) ltac:(by vm_compute)
    (demo_login_run §"admin" §"breakglass" ltac:(by vm_compute))).
Defined.



Lemma login_sessions_resolve_witness :
  ∃ u, (ResolveCurrentUser (c_Value (demo_granted §"ann" §"right").2) (w_store (demo_after §"ann" §"right"))).1 = Ok u
       ∧ cu_ID u = §"u2".
Proof.
  destruct (login_sessions_resolve demo_service (demo_request §"ann" §"right") demo_world _ _ _ demo_users_ok
    eq_refl (demo_login_run §"ann" §"right" ltac:(by vm_compute)) ltac:(by vm_compute) ltac:(by vm_compute))
    as (_ & _ & _ & _ & u & Hu & Hid & _).
  exists u. split; [exact Hu|]. rewrite Hid. by vm_compute.
Defined.

Lemma demo_one_live : one_live (w_store demo_world).
Proof. split; [done|]. intros h1 h2 r1 r2 _ Hl. exfalso. exact (lookup_empty_Some (M:=gmap bytes) h1 r1 Hl). Qed.

Definition demo_ops : list auth_op :=
  [OpLogin (demo_request §"ann" §"right"); OpLogin (demo_request §"ann" §"wrong"); OpBootstrap].

Lemma one_live_session_per_user_witness :
  one_live (w_store (auth_history demo_service demo_ops demo_world)).
Proof. apply (one_live_session_per_user demo_service demo_ops demo_world demo_one_live). Defined.

Lemma logout_is_final_witness :
  (ResolveCurrentUser (c_Value (demo_granted §"ann" §"right").2)
     (w_store (auth_history demo_service demo_ops
        (on_store (Logout (c_Value (demo_granted §"ann" §"right").2)) (demo_after §"ann" §"right")).2))).1
  = Err ErrUnauthorized.
Proof.
  set (token := c_Value (demo_granted §"ann" §"right").2).
  assert ((Logout token (w_store (demo_after §"ann" §"right"))).1 = Ok tt) as E by by vm_compute.
  apply (logout_is_final demo_service token (w_store (demo_after §"ann" §"right"))
    (Logout token (w_store (demo_after §"ann" §"right"))).2 _ demo_ops).
  - by vm_compute.
  - by vm_compute.
  - apply (bool_decide_unpack _). by vm_compute.
  - exact (run_ok _ _ _ E).
  - unfold on_store, zoom. by destruct (Logout token (w_store (demo_after §"ann" §"right"))).
Defined.

Fixpoint demo_attempts (svc : Service) (reqs : list LoginRequest) (w : world) : world :=
  match reqs with [] => w | r :: rest => demo_attempts svc rest (LoginWithContext svc r w).2 end.
Fixpoint demo_all_wrong (svc : Service) (key : bytes) (reqs : list LoginRequest) (w : world) : bool :=
  match reqs with
  | [] => true
  | r :: rest =>
      bool_decide (rateLimitKey (TrimSpace (lq_Username r)) = key)
      && match (LoginWithContext svc r w).1 with Err e => bool_decide (e = ErrInvalidCredentials) | _ => false end
      && demo_all_wrong svc key rest (LoginWithContext svc r w).2
  end.
Lemma demo_all_wrong_spec svc key reqs w :
  demo_all_wrong svc key reqs w = true → wrong_attempts svc key reqs w (demo_attempts svc reqs w).
Proof.
  revert w. induction reqs as [|r reqs IH]; intros w; cbn [demo_all_wrong wrong_attempts demo_attempts]; [done|].
  intros [[Hk He]%andb_true_iff Hr]%andb_true_iff. gobool. split; [done|].
  exists (LoginWithContext svc r w).2. split; [|by apply IH].
  destruct (LoginWithContext svc r w) as [[]]; cbn in He; try done. gobool. by subst.
Qed.

Definition ten_guesses : list LoginRequest := repeat (demo_request §"ann" §"wrong") 10.

Definition demo_locked : world := demo_attempts demo_service ten_guesses demo_world.
Lemma demo_ten_wrong : wrong_attempts demo_service §"user:ann" ten_guesses demo_world demo_locked.
Proof. apply demo_all_wrong_spec. by vm_compute. Qed.
Lemma demo_recent : host_now (w_calls demo_locked) - 5 * 60 * 10 ^ 9 <= host_now (w_calls demo_world).
Proof. apply (bool_decide_unpack _). by vm_compute. Qed.

Lemma ten_wrong_passwords_block_witness :
  ∃ w'', LoginWithContext demo_service (demo_request §"Ann" §"right") demo_locked = (Err ErrRateLimited, w'').
Proof.
  assert (clock_ok 0 [] (host_now (w_calls demo_world)) = true) as Hc by by vm_compute.
  assert (rateLimitKey (TrimSpace (lq_Username (demo_request §"Ann" §"right"))) = §"user:ann") as Hk by by vm_compute.
  assert (10 <= length ten_guesses)%nat as Hten by by (cbn; lia).
  destruct (ten_wrong_passwords_block demo_service §"user:ann" ten_guesses (demo_request §"Ann" §"right") [] 0
    demo_world demo_locked eq_refl Hc demo_ten_wrong Hten demo_recent Hk) as (w'' & E & _).
  exists w''. exact E.
Defined.

Lemma aliases_are_counted_apart_witness :
  §"ann" ∈ ldapUsernameCandidates (alias §"ann" 1) ∧
  rateLimitKey (TrimSpace (alias §"ann" 1)) ≠ rateLimitKey (TrimSpace (alias §"ann" 2)).
Proof.
  destruct (aliases_are_counted_apart §"ann" 1 2) as (Hc & _ & Hk);
    [by vm_compute|by vm_compute|apply (bool_decide_unpack _); by vm_compute
    |apply (bool_decide_unpack _); by vm_compute|by vm_compute|by vm_compute|done|].
  split; [exact Hc|exact Hk].
Defined.

Lemma overlapping_logins_leave_two_sessions_witness :
  ∃ s', overlapping_logins §"u2" §"k1" §"k2" 100 100 (w_store demo_world) = (Ok tt, s').
Proof.
  destruct (overlapping_logins_leave_two_sessions (w_store demo_world) §"u2" §"k1" §"k2" 100 100
    (UserRow §"ann" None None true §"local" (Some §"h:right") 0 None)) as (s' & E & _);
    [by vm_compute|by vm_compute|by vm_compute|by vm_compute|done|by vm_compute|by vm_compute|].
  exists s'. exact E.
Defined.

Definition demo_change : ChangePasswordRequest :=
  {| cp_UserID := §"u2"; cp_CurrentPassword := §"right "; cp_NewPassword := §" longer-one "; cp_SourceIP := [];
     cp_UserAgent := [] |}.

Lemma password_change_needs_the_old_one_witness :
  ∃ hash, CompareHashAndPassword hash §"longer-one" = true ∧
    t_users (pg_tables (w_store (ChangePassword demo_change demo_world).2)) !! §"u2" =
      Some (UserRow §"ann" None None true §"local" (Some hash) 0 None).
Proof.
  assert ((ChangePassword demo_change demo_world).1 = Ok tt) as E by by vm_compute.
  destruct (password_change_needs_the_old_one demo_change demo_world _ demo_users_ok (run_ok _ _ _ E))
    as (id & r & hash & Hid & Hr & _ & _ & Hh & _ & Hu & _).
  assert (id = §"u2") as -> by (vm_compute in Hid; by injection Hid as <-).
  exists hash. split; [exact Hh|]. rewrite Hu, lookup_insert_eq.
  assert (r = UserRow §"ann" None None true §"local" (Some §"h:right") 0 None) as ->; [|done].
  assert (t_users (pg_tables (w_store demo_world)) !! §"u2" =
    Some (UserRow §"ann" None None true §"local" (Some §"h:right") 0 None)) as Hr' by by vm_compute.
  congruence.
Defined.
