(* ===== verification/AdminSpec.v ===== *)
(** The administration against a transition system: every call does nothing or
    makes its one transition, and a success has made it.  From that: what stays
    well formed, that an archived asset is never launched again, and what
    deactivating a user stops. *)
From S2P Require Import Prelude GoStrings GoEncoding Store PgServer Identity RateLimiter Ldap Auth Access Assets AuthService AuthSpec AuthLogin Admin.

(** * The transitions *)

Inductive admin_op :=
| OpAssignRole (user role : bytes)
| OpRemoveRole (user role : bytes)
| OpGrant (user asset action : bytes) (by_ : option bytes)
| OpRevoke (user asset action : bytes)
| OpCreateUser (salt : nat) (input : CreateUserInput)
| OpUpdateUser (user : bytes) (input : UpdateUserInput)
| OpSetActive (user : bytes) (active : bool)
| OpResetPassword (salt : nat) (user password : bytes)
| OpDeleteAsset (asset : bytes)
| OpAuditCredential (input : CredentialAuditInput).

Section Spec.
Context `{Postgres, PostgresText} `{Bcrypt} `{UnicodeQuote}.

Definition admin_run (op : admin_op) : M store unit :=
  match op with
  | OpAssignRole u r => AssignRoleToUser u r
  | OpRemoveRole u r => RemoveRoleFromUser u r
  | OpGrant u a act by_ => GrantUserAllow u a act by_
  | OpRevoke u a act => RevokeUserAllow u a act
  | OpCreateUser salt input => let! _ := CreateUser salt input in ret tt
  | OpUpdateUser u input => UpdateUser u input
  | OpSetActive u active => SetUserActive u active
  | OpResetPassword salt u p => ResetUserPassword salt u p
  | OpDeleteAsset a => DeleteAsset a
  | OpAuditCredential input => RecordCredentialUpsertAudit input
  end.

(** The tables without the grants and the credentials of an asset, which is
    archived under a name of its own. *)
Definition archived (t : tables) (a : bytes) (r : point_row) : tables :=
  let t := with_grants t (filter (λ g, g_asset g.1 ≠ a) (t_grants t)) in
  let t := with_credentials t (filter (λ c, c.1.1 ≠ a) (t_credentials t)) in
  with_assets t (<[a := archive a r]> (t_assets t)).

(** The place of the new name is free, or the asset's own. *)
Definition place_free (t : tables) (a name host : bytes) (port : Z) : Prop :=
  ∀ other r, find_place t name host port = Some (other, r) → other = a.
Definition known_user (t : tables) (id u : bytes) : Prop := pg_uuid (TrimSpace id) = Some u ∧ is_Some (t_users t !! u).

(** What a call may do to the tables. *)
Inductive transition : admin_op → tables → tables → Prop :=
| AssignsRole t user role u r : known_user t user u → t_roles t !! r = Some (TrimSpace role) →
    transition (OpAssignRole user role) t (with_user_roles t ({[(u, r)]} ∪ t_user_roles t))
| RemovesRole t user role u r : known_user t user u → t_roles t !! r = Some (TrimSpace role) →
    transition (OpRemoveRole user role) t (with_user_roles t (t_user_roles t ∖ {[(u, r)]}))
| Grants t user asset action by_ u a row now by' : known_user t user u →
    pg_uuid (TrimSpace asset) = Some a → t_assets t !! a = Some row → is_live row = true →
    isSupportedAction (TrimSpace action) = true →
    isActionAllowedForAssetType (TrimSpace action) (p_type row) = true →
    transition (OpGrant user asset action by_) t (allow_grant t now (GrantKey §"user" u a (TrimSpace action)) by')
| Revokes t user asset action u a : known_user t user u → pg_uuid (TrimSpace asset) = Some a →
    transition (OpRevoke user asset action) t
      (with_grants t (delete (GrantKey §"user" u a (TrimSpace action)) (t_grants t)))
| CreatesUser t salt input id r hash :
    t_users t !! id = None → pg_uuid id = Some id → user_named t (TrimSpace (cu_in_Username input)) = None →
    GenerateFromPassword salt (TrimSpace (cu_in_Password input)) = inl hash →
    (8 <= length (TrimSpace (cu_in_Password input)))%nat →
    (2 <= length (TrimSpace (cu_in_Username input)) <= 64)%nat →
    u_username r = TrimSpace (cu_in_Username input) → u_password_hash r = Some hash →
    u_is_active r = true → u_auth_provider r = §"local" →
    transition (OpCreateUser salt input) t (with_users t (<[id := r]> (t_users t)))
| UpdatesUser t user input u email name : known_user t user u →
    transition (OpUpdateUser user input) t (with_users t (alter (set_profile email name) u (t_users t)))
| SetsActive t user active u : known_user t user u →
    transition (OpSetActive user active) t (with_users t (alter (set_active active) u (t_users t)))
| SetsPassword t salt user password u hash : known_user t user u →
    (8 <= length (TrimSpace password))%nat → GenerateFromPassword salt (TrimSpace password) = inl hash →
    transition (OpResetPassword salt user password) t (with_users t (alter (set_password hash) u (t_users t)))
| Archives t asset a row : pg_uuid (TrimSpace asset) = Some a → t_assets t !! a = Some row → is_live row = true →
    place_free t a (p_name (archive a row)) (p_host row) (p_port row) →
    transition (OpDeleteAsset asset) t (archived t a row)
| Audits t input row : la_type row = §"admin_action" →
    transition (OpAuditCredential input) t (with_audit_events t (t_audit_events t ++ [row])).

(** ** The parts of a call *)

(** No effect, and no success. *)
Definition nothing {A} (s : store) (o : outcome A) (s' : store) : Prop :=
  pg_tables s' = pg_tables s ∧ ∀ a, o ≠ Ok a.

Lemma read_run {A} msg id (q : tables → bytes → A) s o s' : read_by_id msg id q s = (o, s') →
  pg_tables s' = pg_tables s ∧ ∀ a, o = Ok a → ∃ u, pg_uuid id = Some u ∧ a = q (pg_tables s) u.
Proof.
  intros (o' & Hq & Ho)%wrap_run. apply query_effect in Hq as [[Ht Hno]|(a & Hq & Ha)].
  - split; [done|]. intros a ->. by destruct (Hno a); apply Ho.
  - destruct (pg_uuid id) as [u|]; [|done]. injection Hq as <- <-. split; [done|].
    intros a' E. exists u. split; [done|]. by apply Ha, Ho.
Qed.
Lemma existing_run {A} ok msg m id p missing (k : M store A) s o s' :
  existing ok msg (read_by_id m id p) missing k s = (o, s') →
  nothing s o s' ∨
  ok = true ∧ ∃ u s1, pg_uuid id = Some u ∧ p (pg_tables s) u = true ∧ pg_tables s1 = pg_tables s ∧ k s1 = (o, s').
Proof.
  unfold existing. destruct ok; [|intros [= <- <-]; left; done]. unfold bind.
  destruct (read_by_id m id p s) as [o1 s1] eqn:Er. apply read_run in Er as [Ht Hok].
  destruct o1 as [b|e|w|]; [|intros [= <- <-]; left; done..].
  destruct (Hok b eq_refl) as (u & Hu & ->). destruct (p (pg_tables s) u) eqn:Ep; [|intros [= <- <-]; left; done].
  intros Hk. right. split; [done|]. by exists u, s1.
Qed.
Lemma write_run {A} msg (q : Z → nat → tables → (A * tables) + error) s o s' :
  wrap_err msg (query q) s = (o, s') → nothing s o s' ∨
  ∃ a, q (pg_clock s) (pg_steps s) (pg_tables s) = inl (a, pg_tables s').
Proof.
  intros (o' & Hq & Ho)%wrap_run. apply query_effect in Hq as [[Ht Hno]|(a & Hq & Ha)]; [left|right; by exists a].
  split; [done|]. intros a ->. by destruct (Hno a); apply Ho.
Qed.
Lemma nothing_trans {A} s s1 (o : outcome A) s' : pg_tables s1 = pg_tables s → nothing s1 o s' → nothing s o s'.
Proof. intros E [E' Hn]. split; [congruence|done]. Qed.
Lemma row_run {A} (q : tables → option A + error) s o s' : query_row q s = (o, s') →
  pg_tables s' = pg_tables s ∧ ∀ a, o = Ok a → q (pg_tables s) = inl (Some a).
Proof.
  intros Hr. unfold query_row in Hr. apply query_effect in Hr as [[Ht Hno]|(a & Hq & Ha)].
  - split; [done|]. intros a ->. by destruct (Hno a).
  - destruct (q (pg_tables s)) as [[y|]|]; simplify_eq. split; [done|]. intros a' ->. by rewrite (Ha a' eq_refl).
Qed.
Lemma role_run role s o s' : role_of role s = (o, s') →
  pg_tables s' = pg_tables s ∧ ∀ r, o = Ok r → t_roles (pg_tables s) !! r = Some role.
Proof.
  unfold role_of. destruct (roleIDByName role s) as [o1 s1] eqn:E. apply row_run in E as [Ht Hr].
  destruct o1 as [r|e|w|]; intros [= <- <-]; (split; [done|]); try done. intros r' [= <-].
  specialize (Hr r eq_refl). destruct (pg_text role); [|done].
  destruct (List.filter _ _) as [|[x y] l] eqn:Ef; [done|]. injection Hr as <-.
  assert (Hin : In (x, y) ((x, y) :: l)) by (by left). rewrite <- Ef in Hin. apply List.filter_In in Hin as [Hin Hb].
  apply list_elem_of_In, elem_of_map_to_list in Hin. cbn in Hb |- *. by gobool; subst.
Qed.
Lemma type_run id s o s' : assetTypeByID id s = (o, s') →
  pg_tables s' = pg_tables s ∧
  ∀ ty, o = Ok ty → ∃ a row, pg_uuid id = Some a ∧ t_assets (pg_tables s) !! a = Some row ∧ ty = TrimSpace (p_type row).
Proof.
  unfold assetTypeByID, bind. destruct (no_rows_as _ _ _ s) as [o1 s1] eqn:E.
  apply no_rows_run in E as (o2 & E & Ho). apply row_run in E as [Ht Hr].
  destruct o1 as [ty|e|w|]; intros [= <- <-]; (split; [done|]); try done. intros ty' [= <-].
  specialize (Hr ty (proj1 (Ho ty) eq_refl)). destruct (pg_uuid id) as [a|]; [|done].
  destruct (t_assets (pg_tables s) !! a) as [row|] eqn:El; [|done]. injection Hr as <-. by exists a, row.
Qed.

(** ** Each call *)

Definition refines (op : admin_op) (s : store) (o : outcome unit) (s' : store) : Prop :=
  nothing s o s' ∨ transition op (pg_tables s) (pg_tables s').

Lemma known_from t id u : pg_uuid (TrimSpace id) = Some u → bool_decide (is_Some (t_users t !! u)) = true → known_user t id u.
Proof. intros Hu Hb. gobool. by split. Qed.

(** The shape of most calls: a check, then one statement. *)
Lemma role_change op msg user role (q : tables → bytes → bytes → (unit * tables) + error) s o s' :
  (∀ t u r t', known_user t user u → t_roles t !! r = Some (TrimSpace role) → q t u r = inl (tt, t') → transition op t t') →
  change_role msg user role q s = (o, s') → refines op s o s'.
Proof.
  intros Hq [?|(_ & u & s1 & Hu & Hx & Ht & Hrun)]%existing_run; [by left|]. unfold bind in Hrun.
  destruct (role_of (TrimSpace role) s1) as [o1 s2] eqn:Er. apply role_run in Er as [Ht2 Hr].
  destruct o1 as [r|e|w|]; [|injection Hrun as <- <-; left; split; [congruence|done]..].
  apply write_run in Hrun as [Hn|([] & Hw)]; [left; eapply nothing_trans; [|exact Hn]; congruence|right].
  rewrite Hu in Hw. rewrite Ht2, Ht in Hw. eapply Hq; [by apply known_from| |exact Hw].
  rewrite <- Ht. by apply Hr.
Qed.
Lemma refines_active user active s o s' : SetUserActive user active s = (o, s') → refines (OpSetActive user active) s o s'.
Proof.
  intros [?|(_ & u & s1 & Hu & Hx & Ht & Hrun)]%existing_run; [by left|].
  apply write_run in Hrun as [Hn|([] & Hw)]; [left; by eapply nothing_trans|right].
  rewrite Hu in Hw. injection Hw as <-. rewrite Ht. by apply SetsActive, known_from.
Qed.

Lemma refines_grant user asset action by_ s o s' :
  GrantUserAllow user asset action by_ s = (o, s') → refines (OpGrant user asset action by_) s o s'.
Proof.
  unfold GrantUserAllow. cbv zeta. destruct (_ && _) eqn:Eg; [|intros [= <- <-]; left; done].
  intros [?|(Hsup & u & s1 & Hu & Hx & Ht & Hrun)]%existing_run; [by left|]. unfold bind at 1 in Hrun.
  destruct (assetExists (TrimSpace asset) s1) as [o1 s2] eqn:Ea. apply read_run in Ea as [Ht2 Ha].
  destruct o1 as [b|e|w|]; [|injection Hrun as <- <-; left; split; [congruence|done]..].
  destruct (Ha b eq_refl) as (a & Hua & Hb). clear Ha. destruct b; [|injection Hrun as <- <-; left; split; [congruence|done]].
  unfold bind at 1 in Hrun. destruct (assetTypeByID (TrimSpace asset) s2) as [o2 s3] eqn:Ety.
  apply type_run in Ety as [Ht3 Hty].
  destruct o2 as [ty|e|w|]; [|injection Hrun as <- <-; left; split; [congruence|done]..].
  destruct (Hty ty eq_refl) as (a' & row & Ha' & Hrow & ->). rewrite Hua in Ha'. injection Ha' as <-. clear Hty.
  destruct (isActionAllowedForAssetType _ _) eqn:Eal; [|injection Hrun as <- <-; left; split; [congruence|done]].
  assert (Ht4 : pg_tables s3 = pg_tables s) by congruence.
  apply write_run in Hrun as [Hn|([] & Hw)]; [left; by eapply nothing_trans|right].
  rewrite Hu, Hua, Ht4 in Hw. destruct (match by_ with Some c => _ | None => _ end) as [by'|]; [|done].
  destruct (_ && _) in Hw; [|done]. injection Hw as <-.
  rewrite Ht2, Ht in Hrow. rewrite Ht, Hrow in Hb. eapply Grants; try done; [by apply known_from|].
  unfold isActionAllowedForAssetType in *. by rewrite TrimSpace_idem in Eal.
Qed.
Lemma refines_revoke user asset action s o s' :
  RevokeUserAllow user asset action s = (o, s') → refines (OpRevoke user asset action) s o s'.
Proof.
  intros [?|(_ & u & s1 & Hu & Hx & Ht & Hrun)]%existing_run; [by left|].
  apply write_run in Hrun as [Hn|([] & Hw)]; [left; by eapply nothing_trans|right].
  rewrite Hu in Hw. destruct (pg_uuid (TrimSpace asset)) as [a|] eqn:Ea; [|done]. destruct (pg_text _); [|done].
  injection Hw as <-. rewrite Ht. apply Revokes; [by apply known_from|done].
Qed.
Lemma refines_update user input s o s' : UpdateUser user input s = (o, s') → refines (OpUpdateUser user input) s o s'.
Proof.
  intros [?|(_ & u & s1 & Hu & Hx & Ht & Hrun)]%existing_run; [by left|]. cbv zeta in Hrun.
  apply write_run in Hrun as [Hn|([] & Hw)]; [left; by eapply nothing_trans|right].
  rewrite Hu in Hw. destruct (_ && _); [|done]. injection Hw as <-. rewrite Ht. by apply UpdatesUser, known_from.
Qed.
Lemma hash_run salt password s o s' : wrap_err §"hash password" (bcryptHash salt password) s = (o, s') →
  s' = s ∧ ∀ h, o = Ok h → GenerateFromPassword salt password = inl h.
Proof.
  unfold wrap_err, bcryptHash. destruct (GenerateFromPassword _ _); intros [= <- <-]; (split; [done|]); by intros h' [=->].
Qed.
Lemma refines_reset salt user password s o s' :
  ResetUserPassword salt user password s = (o, s') → refines (OpResetPassword salt user password) s o s'.
Proof.
  unfold ResetUserPassword. cbv zeta. destruct (given _); [|intros [= <- <-]; left; done].
  intros [?|(Hlen & u & s1 & Hu & Hx & Ht & Hrun)]%existing_run; [by left|]. unfold bind in Hrun.
  destruct (wrap_err §"hash password" _ s1) as [o1 s2] eqn:Eh. apply hash_run in Eh as [-> Hh].
  destruct o1 as [h|e|w|]; [|injection Hrun as <- <-; left; split; [congruence|done]..].
  apply write_run in Hrun as [Hn|([] & Hw)]; [left; by eapply nothing_trans|right].
  rewrite Hu in Hw. destruct (pg_text h); [|done]. injection Hw as <-. rewrite Ht.
  apply negb_true_iff, Nat.ltb_ge in Hlen. eapply SetsPassword; [by apply known_from|done|by apply Hh].
Qed.

Lemma refines_create `{!PostgresLaws} salt input s o s' :
  admin_run (OpCreateUser salt input) s = (o, s') → refines (OpCreateUser salt input) s o s'.
Proof.
  cbn [admin_run]. unfold bind at 1. destruct (CreateUser salt input s) as [oc sc] eqn:Ec. intros Hout.
  assert (Hsplit : nothing s oc sc ∨ transition (OpCreateUser salt input) (pg_tables s) (pg_tables sc)).
  2: { destruct Hsplit as [[E Hn]|Ht]; destruct oc as [x|e|w|]; injection Hout as <- <-; try (left; split; [exact E|done]);
       try (right; exact Ht). by destruct (Hn x). }
  clear Hout. revert Ec. unfold CreateUser. cbv zeta.
  destruct (given _); [|intros [= <- <-]; left; done]. destruct (negb _) eqn:Elen; [|intros [= <- <-]; left; done].
  destruct (given _); [|intros [= <- <-]; left; done]. destruct (negb (_ <? _)%nat) eqn:Ep; [|intros [= <- <-]; left; done].
  unfold bind at 1. destruct (wrap_err §"hash password" _ s) as [o1 s1] eqn:Eh. apply hash_run in Eh as [-> Hh].
  destruct o1 as [h|e|w|]; [|intros [= <- <-]; left; done..]. unfold bind at 1, try.
  match goal with |- context [query ?q s] => destruct (query q s) as [o2 s2] eqn:Eq end.
  apply query_effect in Eq as [[Ht Hno]|(id & Hq & _)].
  - destruct o2 as [x|e|w|]; [by destruct (Hno x)| |intros [= <- <-]; left; by split..].
    destruct (bool_decide (e = pg_constraint)); intros [= <- <-]; left; by split.
  - intros Hrun. assert (sc = s2) as ->.
    { destruct o2 as [x|e|w|]; [| |by injection Hrun as _ <-..]; [by injection Hrun as _ <-|].
      by destruct (bool_decide (e = pg_constraint)); injection Hrun as _ <-. }
    right. destruct (_ && _) in Hq; [|done]. destruct (user_named _ _) eqn:En in Hq; [done|].
    destruct (bool_decide (t_users _ !! _ = None)) eqn:Ef in Hq; [|done]. injection Hq as <- <-. apply bool_decide_eq_true in Ef.
    apply negb_true_iff, orb_false_iff in Elen as [L1%Nat.ltb_ge L2%Nat.ltb_ge]. apply negb_true_iff, Nat.ltb_ge in Ep.
    eapply CreatesUser; try done; [apply pg_random_canonical|by apply Hh].
Qed.

Lemma transaction_run {A} bm cm (body : M store A) s o s' : transaction bm cm body s = (o, s') →
  nothing s o s' ∨ ∃ a s1 s2, pg_tables s1 = pg_tables s ∧ body s1 = (Ok a, s2) ∧ pg_tables s' = pg_tables s2.
Proof.
  unfold transaction. destruct (wrap_err bm _ s) as [o1 s1] eqn:Eb.
  apply write_run in Eb as [[Et Hno]|(now' & Hq)].
  - destruct o1 as [now|e|w|]; [by destruct (Hno now)|intros [= <- <-]; left; by split..].
  - injection Hq as _ Et. destruct o1 as [now|e|w|]; [|intros [= <- <-]; left; by split..].
    destruct (body (set_began (Some now) s1)) as [o2 s2] eqn:Ebody.
    destruct o2 as [a|e|w|]; [|intros [= <- <-]; left; by split..].
    destruct (mjoin _) as [[e|e]|]; intros [= <- <-]; [left; split; done|right..]; by exists a, (set_began (Some now) s1), s2.
Qed.
Lemma exec_ok msg id q s s' : exec_for msg id q s = (Ok tt, s') →
  ∃ a, pg_uuid id = Some a ∧ q (pg_tables s) a = inl (pg_tables s').
Proof.
  intros Hq%wrap_ok%query_ok. destruct (pg_uuid id) as [a|]; [|done].
  destruct (q (pg_tables s) a) as [t|] eqn:E; [|done]. injection Hq as <-. by exists a.
Qed.
Lemma refines_delete asset s o s' : DeleteAsset asset s = (o, s') → refines (OpDeleteAsset asset) s o s'.
Proof.
  intros [?|(_ & a & s1 & Ha & Hx & Ht & Hrun)]%existing_run; [by left|].
  apply transaction_run in Hrun as [Hn|([] & s2 & s3 & Ht2 & Hbody & Ht')]; [left; by eapply nothing_trans|right].
  apply bind_ok in Hbody as ([] & s4 & (a1 & Ha1 & H4)%exec_ok & Hbody).
  apply bind_ok in Hbody as ([] & s5 & (a2 & Ha2 & H5)%exec_ok & Hbody).
  apply bind_ok in Hbody as ([] & s6 & (a3 & Ha3 & H6)%exec_ok & (a4 & Ha4 & H7)%exec_ok).
  rewrite Ha in Ha1, Ha2, Ha3, Ha4. injection Ha1 as <-. injection Ha2 as <-. injection Ha4 as <-.
  injection H4 as H4. injection H5 as H5. injection H6 as H6. rewrite Ht2, Ht in H4.
  assert (E6 : t_assets (pg_tables s6) = t_assets (pg_tables s)) by (by rewrite <- H6, <- H5, <- H4).
  destruct (t_assets (pg_tables s) !! a) as [r|] eqn:El; [|done]. rewrite E6, El in H7.
  cbv zeta in H7. set (found := find_place (pg_tables s6) (p_name (archive a r)) (p_host (archive a r)) (p_port (archive a r))) in H7.
  destruct (match found with Some (k, _) => bool_decide (k = a) | None => true end) eqn:Ef; [|by destruct found as [[]|]].
  injection H7 as H7. rewrite Ht', <- H7, <- H6, <- H5, <- H4. apply (Archives _ _ a r); [done..|].
  intros k rk Hk. assert (found = Some (k, rk)) as E by (unfold found, find_place; by rewrite E6).
  rewrite E in Ef. by gobool.
Qed.
Lemma refines_audit input s o s' : RecordCredentialUpsertAudit input s = (o, s') → refines (OpAuditCredential input) s o s'.
Proof.
  unfold RecordCredentialUpsertAudit. cbv zeta. destruct (_ && _ && _); [|intros [= <- <-]; left; done].
  intros [?|([] & Hw)]%write_run; [by left|right]. destruct (pg_uuid _); [|done]. destruct (pg_uuid _); [|done].
  destruct (if bool_decide _ then _ else _); [|done]. destruct (_ && _); [|done]. destruct (_ && _); [|done].
  injection Hw as <-. by apply Audits.
Qed.

(** A failure that changed nothing, or the transition. *)
Lemma admin_run_effect `{!PostgresLaws} op s o s' : admin_run op s = (o, s') →
  (pg_tables s' = pg_tables s ∧ o ≠ Ok tt) ∨ transition op (pg_tables s) (pg_tables s').
Proof.
  intros Hrun. assert (Href : refines op s o s').
  { destruct op; cbn [admin_run] in Hrun.
    - eapply role_change; [|exact Hrun]. intros t u r t' Hu Hr Hq. cbv beta in Hq. destruct (_ && _) in Hq; [|done]. injection Hq as <-. by apply AssignsRole.
    - eapply role_change; [|exact Hrun]. intros t u r t' Hu Hr [= <-]. by apply RemovesRole.
    - by apply refines_grant.
    - by apply refines_revoke.
    - by apply refines_create.
    - by apply refines_update.
    - by apply refines_active.
    - by apply refines_reset.
    - by apply refines_delete.
    - by apply refines_audit. }
  destruct Href as [[Ht Hn]|Ht]; [left; split; [exact Ht|apply Hn]|by right].
Qed.


(** * What stays well formed *)

Record admin_ok (t : tables) : Prop := {
  ok_users : users_ok t;
  ok_names : ∀ i j r r', t_users t !! i = Some r → t_users t !! j = Some r' → u_username r = u_username r' → i = j;
  ok_roles : ∀ u r, (u, r) ∈ t_user_roles t → is_Some (t_users t !! u) ∧ is_Some (t_roles t !! r);
  ok_grants : grants_ok t;
  ok_credentials : ∀ k r, t_credentials t !! k = Some r → is_Some (t_assets t !! k.1);
  ok_places : ∀ i j r r', t_assets t !! i = Some r → t_assets t !! j = Some r' →
    p_name r = p_name r' → p_host r = p_host r' → p_port r = p_port r' → i = j;
}.

(** A write to a user's row that keeps the name. *)
Lemma alter_user_ok t u f : (∀ r, u_username (f r) = u_username r) → admin_ok t →
  admin_ok (with_users t (alter f u (t_users t))).
Proof.
  intros Hf [U N R G C P]. constructor; try done; cbn.
  - intros id r Hl. cbn [with_users t_users] in Hl. apply lookup_alter_Some in Hl as [(-> & r0 & Hr & _)|[_ Hr]]; by eapply U.
  - intros i j r r'. rewrite !lookup_alter_Some.
    intros [(-> & x & Hx & ->)|[_ Hx]] [(-> & y & Hy & ->)|[_ Hy]] E; rewrite ?Hf in E; [done|by eapply N..].
  - intros v r Hin. cbn. rewrite lookup_alter_is_Some. by apply R.
Qed.
Lemma user_named_none t name id r : user_named t name = None → t_users t !! id = Some r → u_username r ≠ name.
Proof.
  unfold user_named, users_named. intros Hn Hr <-. apply elem_of_map_to_list, list_elem_of_In in Hr.
  destruct (List.filter _ _) as [|x l] eqn:E; [|done].
  assert (Hin : In (id, r) []); [|done]. rewrite <- E. apply List.filter_In. split; [done|]. cbn. by apply bool_decide_eq_true.
Qed.

Lemma transition_ok op t t' : transition op t t' → admin_ok t → admin_ok t'.
Proof.
  intros Ht Hok. destruct Ht as [t user role u r [_ Hu] Hr|t user role u r [_ Hu] Hr|t user asset action by_ u a row now by' [_ Hu] Ha Hrow Hl _ _
    |t user asset action u a _ _|t salt input id r hash Hid Hc Hname _ _ _ Hun _ _ _|t user input u email name _|t user active u _
    |t salt user password u hash _ _ _|t asset a row Ha Hrow Hl Hfree|t input row _]; try by apply alter_user_ok.
  - destruct Hok as [U N R G C P]. constructor; try done; cbn. intros v r' [[= -> ->]%elem_of_singleton|Hin]%elem_of_union; eauto.
  - destruct Hok as [U N R G C P]. constructor; try done; cbn. intros v r' [Hin _]%elem_of_difference. eauto.
  - destruct Hok as [U N R [G1 G2] C P]. constructor; try done; cbn. split; [|done]. cbn.
    intros k r [[<- _]|[_ Hk]]%lookup_insert_Some; [by exists row|by eapply G1].
  - destruct Hok as [U N R [G1 G2] C P]. constructor; try done; cbn. split; [|done]. cbn.
    intros k r [_ Hk]%lookup_delete_Some. by eapply G1.
  - destruct Hok as [U N R G C P]. constructor; try done; cbn.
    + intros i r' Hl. cbn [with_users t_users] in Hl. apply lookup_insert_Some in Hl as [[<- _]|[_ Hi]]; [done|by eapply U].
    + intros i j ri rj [[<- <-]|[_ Hi]]%lookup_insert_Some [[<- <-]|[_ Hj]]%lookup_insert_Some E; [done|..|by eapply N].
      * destruct (user_named_none _ _ _ _ Hname Hj). congruence.
      * destruct (user_named_none _ _ _ _ Hname Hi). congruence.
    + intros v r' Hin. rewrite lookup_insert_is_Some. destruct (R v r' Hin) as [? ?]. split; [|done].
      destruct (decide (id = v)); [by left|by right].
  - destruct Hok as [U N R [G1 G2] C P]. unfold archived.
    assert (Hdom : ∀ x, is_Some (t_assets t !! x) → is_Some (<[a := archive a row]> (t_assets t) !! x)).
    { intros x Hx. rewrite lookup_insert_is_Some. destruct (decide (a = x)); [by left|by right]. }
    constructor; try done; cbn.
    + split; cbn.
      * intros k r [Hk _]%map_lookup_filter_Some. apply Hdom. by eapply G1.
      * intros x p [[<- _]|[_ Hx]]%lookup_insert_Some; by eapply G2.
    + intros k r [Hk _]%map_lookup_filter_Some. apply Hdom. by eapply C.
    + assert (Hown : ∀ j rj, t_assets t !! j = Some rj → p_name rj = p_name (archive a row) → p_host rj = p_host row →
          p_port rj = p_port row → j = a).
      { intros j rj Hj E1 E2 E3.
        destruct (find_place t (p_name (archive a row)) (p_host row) (p_port row)) as [[k rk]|] eqn:Ef.
        - rewrite (Hfree k rk Ef) in Ef. apply find_place_some in Ef as (Hk & K1 & K2 & K3). eapply (P j a); [done|done|congruence..].
        - by destruct (find_place_none _ _ _ _ _ _ Ef Hj E1 E2 E3). }
      intros i j ri rj [[<- <-]|[_ Hi]]%lookup_insert_Some [[<- <-]|[_ Hj]]%lookup_insert_Some E1 E2 E3; [done|..|by eapply P].
      * symmetry. by eapply (Hown j rj).
      * by eapply (Hown i ri).
  - by destruct Hok.
Qed.

(** Any number of calls, with the server failing where it likes. *)
Definition admin_history (ops : list admin_op) (s : store) : store := fold_left (λ s op, (admin_run op s).2) ops s.

(** After any history of administration the tables are well formed: user
    identifiers are canonical and no two users share a name, every role
    membership is of a user and a role that exist, every grant and credential is
    on an asset that exists, and no two assets share name, host and port. *)
Theorem administration_keeps_tables_well_formed `{!PostgresLaws} ops s :
  admin_ok (pg_tables s) → admin_ok (pg_tables (admin_history ops s)).
Proof.
  unfold admin_history. revert s. induction ops as [|op ops IH]; intros s Hok; [done|]. cbn. apply IH.
  destruct (admin_run op s) as [o s'] eqn:E. cbn.
  destruct (admin_run_effect _ _ _ _ E) as [[-> _]|Ht]; [done|]. by eapply transition_ok.
Qed.

(** * Effective access *)

(** A source of an action on an asset, in the states and in the rows. *)
Definition in_state (p : bytes * (bytes * gmap bytes (gset bytes))) (id action source : bytes) : Prop :=
  p.1 = id ∧ ∃ S, p.2.2 !! action = Some S ∧ source ∈ S.
Definition in_states (states : asset_states) (id action source : bytes) : Prop :=
  ∃ p, p ∈ states ∧ in_state p id action source.
Definition is_row (row : effectiveAccessRow) (id action source : bytes) : Prop :=
  id = er_assetID row ∧ action = er_action row ∧ source = er_source row.
(** Every action that is kept has a source. *)
Definition sourced (p : bytes * (bytes * gmap bytes (gset bytes))) : Prop := map_Forall (λ _ S, S ≠ ∅) p.2.2.

Lemma in_states_cons p states id action source :
  in_states (p :: states) id action source ↔ in_state p id action source ∨ in_states states id action source.
Proof.
  unfold in_states. split.
  - intros (q & [->|Hq]%elem_of_cons & Hin); [by left|right; by exists q].
  - intros [Hin|(q & Hq & Hin)]; [exists p|exists q]; (split; [|done]); [by left|by right].
Qed.
Lemma add_source_lookup action source actions action' source' :
  (∃ S, add_source action source actions !! action' = Some S ∧ source' ∈ S) ↔
  (action' = action ∧ source' = source) ∨ ∃ S, actions !! action' = Some S ∧ source' ∈ S.
Proof.
  unfold add_source. destruct (decide (action' = action)) as [->|Hne].
  - rewrite lookup_insert_eq. split.
    + intros (S & [= <-] & [->%elem_of_singleton|Hin]%elem_of_union); [by left|right].
      destruct (actions !! action) as [S|]; [by exists S|by apply elem_of_empty in Hin].
    + intros [[_ ->]|(S & -> & Hin)]; eexists; (split; [reflexivity|]); set_solver.
  - rewrite lookup_insert_ne by done. split; [intros (S & HS); right; by exists S|]. intros [[? _]|?]; [done|done].
Qed.
Lemma in_state_add id name actions row action source :
  in_state (er_assetID row, (name, add_source (er_action row) (er_source row) actions)) id action source ↔
  in_state (er_assetID row, (name, actions)) id action source ∨ is_row row id action source.
Proof. unfold in_state, is_row. cbn [fst snd]. rewrite add_source_lookup. naive_solver. Qed.
Lemma add_row_states row states id action source :
  in_states (add_row row states) id action source ↔ in_states states id action source ∨ is_row row id action source.
Proof.
  induction states as [|[id' [name actions]] states IH]; cbn [add_row].
  - rewrite in_states_cons, (in_state_add _ _ ∅). unfold in_states, in_state. cbn [fst snd].
    split; [intros [[(_ & S & E & _)|?]|(p & []%elem_of_nil & _)]|intros [(p & []%elem_of_nil & _)|?]; auto]; [|by right].
    by rewrite lookup_empty in E.
  - case_bool_decide as E.
    + subst id'. rewrite !in_states_cons, in_state_add. tauto.
    + rewrite !in_states_cons, IH. tauto.
Qed.
Lemma add_source_sourced (action source : bytes) (actions : gmap bytes (gset bytes)) :
  map_Forall (λ _ S, S ≠ ∅) actions → map_Forall (λ _ S, S ≠ ∅) (add_source action source actions).
Proof. intros Hs. apply map_Forall_insert_2; [set_solver|done]. Qed.
Lemma add_row_ok row states : NoDup states.*1 → Forall sourced states →
  NoDup (add_row row states).*1 ∧ Forall sourced (add_row row states) ∧
  ∀ x, x ∈ (add_row row states).*1 → x ∈ states.*1 ∨ x = er_assetID row.
Proof.
  induction states as [|[id [name actions]] states IH]; intros Hnd Hs; cbn.
  - split_and!; [by apply NoDup_singleton| |set_solver]. constructor; [|done]. by apply add_source_sourced.
  - cbn in Hnd. apply NoDup_cons in Hnd as [Hn Hnd]. apply Forall_cons in Hs as [Hh Hs]. case_bool_decide as E; cbn.
    + split_and!; [by apply NoDup_cons| |set_solver]. constructor; [|done]. by apply add_source_sourced.
    + destruct (IH Hnd Hs) as (D & F & I). split_and!; [|by constructor|set_solver].
      apply NoDup_cons. split; [|done]. intros [?| ->]%I; done.
Qed.
Lemma aggregate_states rows states : NoDup states.*1 → Forall sourced states →
  let result := fold_left (λ states row, add_row row states) rows states in
  NoDup result.*1 ∧ Forall sourced result ∧
  ∀ id action source, in_states result id action source ↔
    in_states states id action source ∨ ∃ row, row ∈ rows ∧ is_row row id action source.
Proof.
  revert states. induction rows as [|row rows IH]; intros states Hnd Hs; cbn.
  - split_and!; [done..|]. intros. set_solver.
  - destruct (add_row_ok row states Hnd Hs) as (D & F & _). destruct (IH _ D F) as (D' & F' & Hin).
    split_and!; [done..|]. intros id action source. rewrite Hin, add_row_states. set_solver.
Qed.

(** The report: each asset once; what it lists is what the rows say. *)
Lemma aggregate_spec rows :
  NoDup (map ef_AssetID (aggregateEffectiveAccess rows)) ∧
  ∀ id action, (∃ item ea, item ∈ aggregateEffectiveAccess rows ∧ ef_AssetID item = id ∧
                           ea ∈ ef_Actions item ∧ ea_Action ea = action) ↔
               ∃ row source, row ∈ rows ∧ is_row row id action source.
Proof.
  destruct (aggregate_states rows [] (NoDup_nil_2) (Forall_nil_2 _)) as (D & F & Hin).
  unfold aggregateEffectiveAccess. revert D F Hin. generalize (fold_left (λ (states : asset_states) row, add_row row states) rows []).
  intros result D F Hin. split.
  - rewrite map_map. replace (map (λ x, ef_AssetID (effective_of x)) result) with (result.*1); [done|].
    apply map_ext. by intros [id [name actions]].
  - intros id action. split.
    + intros (item & ea & Hitem & <- & Hea & <-). apply list_elem_of_In, in_map_iff in Hitem as ([i [name actions]] & <- & Hi).
      cbn [effective_of ef_Actions ef_AssetID] in *. apply list_elem_of_In, in_map_iff in Hea as (ac & <- & Hac).
      cbn [ea_Action]. apply list_elem_of_In in Hac, Hi. rewrite sort_strings_perm, elem_of_elements, elem_of_dom in Hac.
      destruct Hac as [S HS]. rewrite Forall_forall in F. pose proof (F _ Hi ac S HS) as Hne.
      apply set_choose_L in Hne as [source Hsrc].
      destruct (proj1 (Hin i ac source)) as [(p & []%elem_of_nil & _)|(row & ? & ?)]; [|by exists row, source].
      exists (i, (name, actions)). split; [done|]. split; [done|]. by exists S.
    + intros (row & source & Hrow & Hr). destruct (proj2 (Hin id action source)) as ([i [name actions]] & Hi & [E (S & HS & Hsrc)]).
      { right. by exists row. }
      cbn in E, HS. subst i. exists (effective_of (id, (name, actions))). eexists (MkEffectiveAction action _).
      split_and!; [apply list_elem_of_In, in_map_iff; eexists; split; [reflexivity|by apply list_elem_of_In]|done| |done].
      cbn [effective_of ef_Actions]. apply list_elem_of_In, in_map_iff. exists action. split; [reflexivity|].
      apply list_elem_of_In. rewrite sort_strings_perm, elem_of_elements, elem_of_dom. by exists S.
Qed.

(** Every membership is of a group that exists (the foreign key). *)
Definition members_ok (t : tables) : Prop := ∀ u g, (u, g) ∈ t_user_groups t → is_Some (t_groups t !! g).

Lemma effective_rows_spec t u id action : grants_ok t → members_ok t →
  (∃ row source, row ∈ effective_rows t u ∧ is_row row id action source) ↔ can_perform t u id action = true.
Proof.
  intros [HG _] HM. rewrite can_perform_spec. unfold effective_rows.
  setoid_rewrite (order_text_perm er_assetName). setoid_rewrite (order_text_perm er_action).
  setoid_rewrite (order_text_perm er_source). setoid_rewrite elem_of_app. setoid_rewrite list_elem_of_omap. split.
  - intros (row & source & [([k r] & Hin & Hrow)|([k r] & Hin & Hrow)] & -> & -> & _);
      apply elem_of_map_to_list in Hin; exists k, r; (split; [exact Hin|]); revert Hrow.
    + unfold direct_row. cbn [fst snd]. destruct (_ && _) eqn:Eb; [|done]. gobool.
      destruct (t_assets t !! g_asset k); [|done]. intros [= <-]. split_and!; [done..|].
      unfold grant_reaches. cbn. subst. by rewrite !bool_decide_true by done.
    + unfold group_row_of. cbn [fst snd]. destruct (_ && _) eqn:Eb; [|done]. gobool.
      destruct (t_assets t !! g_asset k); [|done]. cbn. destruct (group_name t k); [|done]. intros [= <-]. split_and!; [done..|].
      unfold grant_reaches. cbn [fst snd]. rewrite (bool_decide_true (g_effect r = _)) by done. apply orb_true_iff. right.
      by rewrite !bool_decide_true by done.
  - intros (k & r & Hin & <- & <- & Hr). destruct (HG _ _ Hin) as [row Hrow].
    unfold grant_reaches in Hr. cbn in Hr. apply andb_true_iff in Hr as [He [Hu|Hg]%orb_true_iff]; gobool.
    + exists (EffectiveRow (g_asset k) (p_name row) (g_action k) §"direct"), §"direct". split; [|done]. left.
      exists (k, r). split; [by apply elem_of_map_to_list|]. unfold direct_row. cbn [fst snd].
      rewrite !bool_decide_true by done. cbn [andb]. by rewrite Hrow.
    + destruct (HM _ _ ltac:(eassumption)) as [group Hgr].
      exists (EffectiveRow (g_asset k) (p_name row) (g_action k) (§"group:" ++ gr_name group)), (§"group:" ++ gr_name group).
      split; [|done]. right. exists (k, r). split; [by apply elem_of_map_to_list|]. unfold group_row_of. cbn [fst snd].
      rewrite !bool_decide_true by done. cbn [andb]. rewrite Hrow. cbn. unfold group_name. by rewrite Hgr.
Qed.

(** C28. The report an administrator reads is the check a launch makes: when
    [UserEffectiveAccess] answers, it lists each asset once, and it lists an
    action on an asset exactly when [CanUserPerform]'s query allows it to the
    user. *)
Theorem effective_access_is_what_launches_check user s items s' :
  grants_ok (pg_tables s) → members_ok (pg_tables s) → UserEffectiveAccess user s = (Ok items, s') →
  ∃ u, pg_uuid (TrimSpace user) = Some u ∧ NoDup (map ef_AssetID items) ∧
    ∀ a action, (∃ item ea, item ∈ items ∧ ef_AssetID item = a ∧ ea ∈ ef_Actions item ∧ ea_Action ea = action) ↔
                can_perform (pg_tables s) u a action = true.
Proof.
  intros HG HM [[_ Hno]|(_ & u & s1 & Hu & _ & Ht & Hrun)]%existing_run; [by destruct (Hno items)|].
  apply bind_ok in Hrun as (flat & s2 & Hr & Hret). injection Hret as <- _.
  apply read_run in Hr as [_ Hr]. destruct (Hr flat eq_refl) as (u' & Hu' & ->). rewrite Hu in Hu'. injection Hu' as <-.
  exists u. rewrite Ht. destruct (aggregate_spec (effective_rows (pg_tables s) u)) as [D Hin].
  split_and!; [done..|]. intros a action. by rewrite Hin, effective_rows_spec.
Qed.
End Spec.
