(* ===== verification/AdminClaims.v ===== *)
(** What deleting an asset and deactivating a user achieve, whatever
    administration follows; and the witnesses of the administration theorems. *)
From S2P Require Import Prelude GoStrings GoCrypto GoAes GoEncoding Tokens Store Sessions SessionsSpec PgServer Identity RateLimiter Ldap Auth Access Assets Credentials CredentialsSpec Admin Http Launch LaunchSpec AuthService AuthSpec AuthClaims AuthLogin AdminSpec.

(** Calls of the administration and of the inventory. *)
Inductive managed_op := Administers (op : admin_op) | Inventories (op : asset_op).

Section Claims.
Context `{Unicode} `{PostgresLaws} `{PostgresText} `{Auth.Host} `{Bcrypt} `{Directory} `{UnicodeQuote}.

Definition managed_run (op : managed_op) (s : store) : store :=
  match op with Administers op => (admin_run op s).2 | Inventories op => (asset_run op s).2 end.
Definition managed_history (ops : list managed_op) (s : store) : store := fold_left (λ s op, managed_run op s) ops s.

(** ** Archived assets *)

(** The asset is archived and no grant is on it. *)
Definition closed (a : bytes) (t : tables) : Prop :=
  (∃ row, t_assets t !! a = Some row ∧ is_live row = false) ∧
  ∀ k r, t_grants t !! k = Some r → g_asset k ≠ a.

Lemma closed_forbids a t u action : closed a t → can_perform t u a action = false.
Proof.
  intros [_ Hg]. apply not_true_iff_false. rewrite can_perform_spec. intros (k & r & Hk & Ha & _). by destruct (Hg k r Hk).
Qed.
Lemma archived_closed t a row : closed a (archived t a row).
Proof.
  split; cbn.
  - exists (archive a row). split; [apply lookup_insert_eq|done].
  - intros k r [_ Hk]%map_lookup_filter_Some. exact Hk.
Qed.
Lemma transition_closed a op t t' : transition op t t' → closed a t → closed a t'.
Proof.
  intros Ht [(row & Hrow & Hl) Hg]. destruct Ht; try by (split; [by exists row|done]).
  - split; [by exists row|]. cbn. intros k r [[<- _]|[_ Hk]]%lookup_insert_Some; [|by eapply Hg]. cbn. congruence.
  - split; [by exists row|]. cbn. intros k r [_ Hk]%lookup_delete_Some. by eapply Hg.
  - split; cbn.
    + destruct (decide (a0 = a)) as [->|Hne]; [congruence|]. exists row. by rewrite lookup_insert_ne.
    + intros k r [Hk _]%map_lookup_filter_Some. by eapply Hg.
Qed.
Lemma insert_asset_closed a t id r x t' : insert_asset t id r = inl (x, t') → closed a t → closed a t'.
Proof.
  intros (Hn & _ & ->)%insert_asset_ok [(row & Hrow & Hl) Hg]. split; [|done]. exists row. split; [|done].
  cbn. rewrite lookup_insert_ne; [done|]. by intros ->; congruence.
Qed.
Lemma asset_run_closed a op s o s' : asset_run op s = (o, s') → closed a (pg_tables s) → closed a (pg_tables s').
Proof.
  intros Hrun Hc. destruct op as [input|input|x input]; cbn [asset_run] in Hrun.
  - apply (checked_effect _ _ _ _ _ _ (wrap_run _)) in Hrun as [[-> _]|(_ & p & Hq & _)]; [done|]. cbv zeta in Hq.
    destruct (reads_asset _ _ _ _ _) as [[]|]; [|done]. destruct (find_place _ _ _ _); [done|].
    by eapply insert_asset_closed.
  - apply (checked_effect _ _ _ _ _ _ (wrap_run _)) in Hrun as [[-> _]|(_ & p & Hq & _)]; [done|]. cbv zeta in Hq.
    destruct (reads_asset _ _ _ _ _) as [[]|]; [|done].
    destruct (find_place _ _ _ _) as [[id r]|] eqn:Ef; [|by eapply insert_asset_closed].
    apply find_place_some in Ef as (Hid & _). injection Hq as _ <-. destruct Hc as [(row & Hrow & Hl) Hg]. split; [|done]. cbn.
    destruct (decide (id = a)) as [->|Hne]; [|exists row; by rewrite lookup_insert_ne].
    eexists. split; [apply lookup_insert_eq|]. rewrite Hid in Hrow. by injection Hrow as ->.
  - unfold Update in Hrun. cbv zeta in Hrun. destruct (negb _); [|by injection Hrun as _ <-].
    apply (checked_effect _ _ _ _ _ _ (no_rows_run _ _)) in Hrun as [[-> _]|(_ & p & Hq & _)]; [done|]. cbv zeta in Hq.
    destruct (pg_uuid _) as [u|]; [|done]. destruct (reads_asset _ _ _ _ _) as [[]|]; [|done].
    unfold live_asset in Hq. destruct (t_assets (pg_tables s) !! u) as [r|] eqn:El; [|done].
    destruct (is_live r) eqn:Elive; [|done]. destruct (match find_place _ _ _ _ with Some _ => _ | None => _ end); [|done].
    injection Hq as _ <-. destruct Hc as [(row & Hrow & Hl) Hg]. split; [|done]. cbn. exists row.
    rewrite lookup_insert_ne; [done|]. intros ->. congruence.
Qed.
Lemma managed_closed a ops s : closed a (pg_tables s) → closed a (pg_tables (managed_history ops s)).
Proof.
  unfold managed_history. revert s. induction ops as [|op ops IH]; intros s Hc; [done|]. cbn. apply IH.
  destruct op as [op|op]; cbn.
  - destruct (admin_run op s) as [o s'] eqn:E. cbn.
    destruct (admin_run_effect _ _ _ _ E) as [[-> _]|Ht]; [done|]. by eapply transition_closed.
  - destruct (asset_run op s) as [o s'] eqn:E. by eapply asset_run_closed.
Qed.

Lemma archives_inv asset t t' : transition (OpDeleteAsset asset) t t' →
  ∃ a row, pg_uuid (TrimSpace asset) = Some a ∧ t' = archived t a row.
Proof. inversion 1; by eexists _, _. Qed.
Lemma sets_active_inv x active t t' : transition (OpSetActive x active) t t' →
  ∃ u, known_user t x u ∧ t' = with_users t (alter (set_active active) u (t_users t)).
Proof. inversion 1; by eexists. Qed.
Lemma DeleteAsset_closes asset a s0 s1 : pg_uuid (TrimSpace asset) = Some a → DeleteAsset asset s0 = (Ok tt, s1) →
  closed a (pg_tables s1) ∧ ∀ k r, t_credentials (pg_tables s1) !! k = Some r → k.1 ≠ a.
Proof.
  intros Ha Hdel. destruct (admin_run_effect (OpDeleteAsset asset) _ _ _ Hdel) as [[_ []]|Ht]; [done|].
  apply archives_inv in Ht as (a' & row & Ha' & ->). rewrite Ha in Ha'. injection Ha' as <-.
  split; [apply archived_closed|]. intros k r [_ Hk]%map_lookup_filter_Some. exact Hk.
Qed.

(** C15. A deleted asset stays closed: once [DeleteAsset] has reported success,
    its credentials are gone and, whatever administration and inventory calls
    follow, and wherever their statements fail, no user may perform an action on
    it, and no launch by anyone makes a session on it or registers it with a
    proxy, and a launch that would have used it answers an error. *)
Theorem deleted_assets_stay_closed asset a s0 s1 ops cipher cfg px rq (s : site) o s' :
  pg_uuid (TrimSpace asset) = Some a → DeleteAsset asset s0 = (Ok tt, s1) →
  si_tables s = pg_tables (managed_history ops s1) → Launch cipher cfg px rq s = (o, s') →
  (∀ k r, t_credentials (pg_tables s1) !! k = Some r → k.1 ≠ a) ∧
  (∀ u action, can_perform (si_tables s) u a action = false) ∧
  ((si_sessions s' = si_sessions s ∧ si_registered s' = si_registered s ∧ ∀ code resp, o ≠ Ok (Reply code resp)) ∨
   ∃ sid row l, si_sessions s' = <[sid := row]> (si_sessions s) ∧ s_asset row ≠ a ∧
     si_registered s' = si_registered s ++ l ∧ Forall (λ r, (reg_owner r).2 ≠ a) l).
Proof.
  intros Ha Hdel Hs Hl. destruct (DeleteAsset_closes _ _ _ _ Ha Hdel) as [Hc Hcred].
  pose proof (managed_closed a ops s1 Hc) as Hc'. rewrite <- Hs in Hc'.
  split; [exact Hcred|]. split; [intros u action; by apply closed_forbids|].
  destruct (Launch_run _ _ _ _ _ _ _ Hl) as [_ [Hno|(user & id & act & p & u & a' & row & sid & Hp & Hone & _)]]; [by left|right].
  destruct Hp as (_ & _ & _ & _ & _ & Hrow & Hlive & _).
  destruct Hone as (_ & (srow & Hins & _ & Has & _) & l & Hreg & Howner).
  assert (Hne : a' ≠ a). { intros ->. destruct Hc' as [(r & Hr & Hdead) _]. congruence. }
  exists sid, srow, l. rewrite Has. split_and!; [done..|]. eapply Forall_impl; [exact Howner|]. by intros r ->.
Qed.

(** ** Deactivated users *)

Definition inactive (u : bytes) (t : tables) : Prop := ∃ r, t_users t !! u = Some r ∧ u_is_active r = false.
(** A call that activates the user. *)
Definition activates (u : bytes) (op : admin_op) : Prop :=
  match op with OpSetActive x true => pg_uuid (TrimSpace x) = Some u | _ => False end.

Lemma alter_inactive u v f t : (u = v → ∀ r, u_is_active r = false → u_is_active (f r) = false) →
  inactive u t → inactive u (with_users t (alter f v (t_users t))).
Proof.
  intros Hf (r & Hr & Ha). destruct (decide (u = v)) as [->|Hne].
  - exists (f r). cbn. rewrite lookup_alter_eq, Hr. split; [done|by apply Hf].
  - exists r. cbn. by rewrite lookup_alter_ne by done.
Qed.
Lemma transition_inactive u op t t' : transition op t t' → ¬ activates u op → inactive u t → inactive u t'.
Proof.
  intros Ht Hop Hin. destruct Ht as [| | | |t salt input id r hash Hid| |t x active v [Hx _]| | |]; try exact Hin; try by apply alter_inactive.
  - destruct Hin as (r0 & Hr & Ha). exists r0. cbn. rewrite lookup_insert_ne; [done|]. intros ->. congruence.
  - apply alter_inactive; [|done]. intros <- r _. destruct active; [by destruct Hop|done].
Qed.
Lemma admin_inactive u ops s : Forall (λ op, ¬ activates u op) ops → inactive u (pg_tables s) →
  inactive u (pg_tables (admin_history ops s)).
Proof.
  unfold admin_history. intros Hops. revert s. induction Hops as [|op ops Hop _ IH]; intros s Hin; [done|]. cbn. apply IH.
  destruct (admin_run op s) as [o s'] eqn:E. cbn.
  destruct (admin_run_effect _ _ _ _ E) as [[-> _]|Ht]; [done|]. by eapply transition_inactive.
Qed.
Lemma local_user_active name s id r s' : select_local_user name s = (Ok (id, r), s') →
  t_users (pg_tables s) !! id = Some r ∧ u_is_active r = true.
Proof.
  intros [Hq _]%query_row_ok. destruct (pg_text name); [|done]. injection Hq as Hq.
  apply head_In, users_named_In in Hq as [Hr Hp]. cbn [fst snd] in *. by apply andb_true_iff in Hp as [[_ Ha]%andb_true_iff _].
Qed.

(** C29. Deactivating a user signs the user out and keeps them out: once
    [SetUserActive(false)] has reported success, and whatever administration
    follows that does not activate the user again, no session token (those that
    were live before included) resolves to the user, and no password is
    accepted for the user's local account. *)
Theorem deactivated_users_are_signed_out user u s0 s1 ops :
  pg_uuid (TrimSpace user) = Some u → SetUserActive user false s0 = (Ok tt, s1) →
  Forall (λ op, ¬ activates u op) ops →
  let s := admin_history ops s1 in
  (∀ token cu s2, ResolveCurrentUser token s = (Ok cu, s2) → cu_ID cu ≠ u) ∧
  (∀ name password w acc w', w_store w = s → LocalAuthenticate name password w = (Ok acc, w') → ID acc ≠ u).
Proof.
  intros Hu Hset Hops s. assert (Hin : inactive u (pg_tables s)).
  { apply admin_inactive; [done|].
    destruct (admin_run_effect (OpSetActive user false) _ _ _ Hset) as [[_ []]|Ht]; [done|].
    apply sets_active_inv in Ht as (v & [Hv [r Hr]] & ->). rewrite Hu in Hv. injection Hv as <-.
    exists (set_active false r). cbn. by rewrite lookup_alter_eq, Hr. }
  destruct Hin as (r & Hr & Ha). split.
  - intros token cu s2 E <-. destruct (Resolve_cases _ _ _ _ E) as [?|(cu' & [= <-] & Hs)]; [done|].
    destruct Hs as (x & row & uu & _ & _ & _ & Hrow & Hact & Hid & _). congruence.
  - intros name password w acc w' Hw E <-. unfold LocalAuthenticate in E. destruct (negb _); [|done].
    apply bind_ok in E as (found & w1 & Ef & E). apply try_ok in Ef.
    destruct found as [[id row]|]; [|done]. apply on_store_ok in Ef as (Ef & _ & _). rewrite Hw in Ef.
    apply local_user_active in Ef as [Hrow Hact].
    destruct (negb _); [|done]. destruct (CompareHashAndPassword _ _); [|done].
    apply bind_ok in E as (? & ? & _ & E). apply bind_ok in E as (? & ? & _ & E). apply bind_ok in E as (? & ? & _ & E).
    injection E as <- _. cbn in Hr. congruence.
Qed.
End Claims.

(** * Witnesses: two users, one of them with a live session; a group; two assets
    with a grant each. *)

#[local] Existing Instance demo_pg.
#[local] Existing Instance demo_pg_text.
#[local] Existing Instance demo_pg_laws.
#[local] Existing Instance ascii_tables.

Definition admin_host : Auth.Host := {|
  host_now n := Z.of_nat n; host_random _ := inl (repeat "k"%byte 32); host_ctx_err _ := None |}.
Definition admin_bcrypt : Bcrypt := {|
  GenerateFromPassword _ p := inl (§"h:" ++ p);
  CompareHashAndPassword h p := bool_decide (h = §"h:" ++ p) |}.
Definition admin_directory : Directory := {|
  EscapeFilter s := s; dir_dial _ _ _ := None; dir_start_tls _ _ := None; dir_bind _ _ _ := Some 49;
  dir_search _ _ _ _ _ _ := inl []; read_file _ := inl []; pem_has_certificate _ := true |}.
Definition escaped_quote : UnicodeQuote := {| uni_quote s := s |}.
#[local] Existing Instance admin_host.
#[local] Existing Instance admin_bcrypt.
#[local] Existing Instance admin_directory.
#[local] Existing Instance escaped_quote.

Definition admin_tables : tables :=
  Tables {[§"u1" := UserRow §"ann" None None true §"local" (Some §"h:right-one") 0 None;
           §"u2" := UserRow §"bob" None None true §"local" (Some §"h:other-one") 0 None]}
    {[§"r1" := §"admin"]} {[(§"u1", §"r1")]} {[(§"u2", §"g1")]}
    (t_assets launch_demo_tables)
    {[GrantKey §"user" §"u1" §"d1" ActionDBeaver := GrantRow §"allow" None 0;
      GrantKey §"group" §"g1" §"a1" ActionShell := GrantRow §"allow" None 0]}
    {[hashSessionToken §"cookie" := AuthSession §"u2" 1000 None None]}
    None [] (t_credentials launch_demo_tables) {[§"g1" := GroupRow §"ops" None]}.
Definition admin_store : store := PgStore admin_tables 0 [] None.
Definition admin_demo_ops : list admin_op :=
  [OpGrant §"u2" §"d1" §"dbeaver" (Some §"u1"); OpAssignRole §"u2" §"admin";
   OpCreateUser 0 (MkCreateUser §"cat" §"long-enough" [] []); OpDeleteAsset §"a1"].


Lemma admin_tables_ok : admin_ok admin_tables.
Proof.
  split.
  - apply (bool_decide_unpack (map_Forall (λ id _, pg_uuid id = Some id) _)). by vm_compute.
  - intros i j r r' Hi Hj E. cbn in Hi, Hj.
    repeat match goal with H : <[_ := _]> _ !! _ = Some _ |- _ => apply lookup_insert_Some in H as [[<- <-]|[_ H]]
      | H : {[ _ := _ ]} !! _ = Some _ |- _ => apply lookup_singleton_Some in H as [<- <-] end; done.
  - intros u r Hin. change ((u, r) ∈ ({[(§"u1", §"r1")]} : gset (bytes * bytes))) in Hin. apply elem_of_singleton in Hin as [= -> ->]. split; by eexists.
  - split; [apply (bool_decide_unpack (map_Forall (λ k _, is_Some (t_assets admin_tables !! g_asset k)) _))
           |apply (bool_decide_unpack (map_Forall (λ id _, pg_uuid id = Some id) _))]; by vm_compute.
  - apply (bool_decide_unpack (map_Forall (λ k _, is_Some (t_assets admin_tables !! k.1)) _)). by vm_compute.
  - intros i j r r' Hi Hj E. cbn in Hi, Hj.
    repeat match goal with H : <[_ := _]> _ !! _ = Some _ |- _ => apply lookup_insert_Some in H as [[<- <-]|[_ H]]
      | H : {[ _ := _ ]} !! _ = Some _ |- _ => apply lookup_singleton_Some in H as [<- <-] end; done.
Qed.
Lemma administration_keeps_tables_well_formed_witness :
  admin_ok (pg_tables (admin_history admin_demo_ops admin_store)).
Proof. apply (administration_keeps_tables_well_formed admin_demo_ops admin_store admin_tables_ok). Defined.

Definition admin_report : list EffectiveAccess :=
  match (UserEffectiveAccess §"u2" admin_store).1 with Ok items => items | _ => [] end.
Lemma effective_access_is_what_launches_check_witness :
  map ef_AssetName admin_report = [§"vm"] ∧
  ∃ u, NoDup (map ef_AssetID admin_report) ∧
    ∀ a action, (∃ item ea, item ∈ admin_report ∧ ef_AssetID item = a ∧ ea ∈ ef_Actions item ∧ ea_Action ea = action) ↔
                can_perform admin_tables u a action = true.
Proof.
  split; [by vm_compute|].
  assert (E : (UserEffectiveAccess §"u2" admin_store).1 = Ok admin_report) by (by vm_compute).
  assert (Hm : members_ok admin_tables) by (intros u g Hin; change ((u, g) ∈ ({[(§"u2", §"g1")]} : gset (bytes * bytes))) in Hin; apply elem_of_singleton in Hin as [= -> ->]; by eexists).
  destruct (effective_access_is_what_launches_check §"u2" admin_store admin_report _ (ok_grants _ admin_tables_ok) Hm
    (run_ok _ _ _ E)) as (u & _ & Hd & Hin).
  exists u. split; [exact Hd|exact Hin].
Defined.

Definition after_delete : store := (DeleteAsset §"d1" admin_store).2.
(** Someone tries to grant it again, and to enter the same asset again. *)
Definition admin_retries : list managed_op :=
  [Administers (OpGrant §"u1" §"d1" §"dbeaver" None);
   Inventories (OpUpsert (NewAsset §"erp" §"database" §"10.0.0.7" 1433 §"{}" None))].
Definition site_after_delete : site :=
  Site (pg_tables (managed_history admin_retries after_delete)) ∅ [] [] 0 [] [].
Lemma deleted_assets_stay_closed_witness :
  (∀ u action, can_perform (si_tables site_after_delete) u §"d1" action = false) ∧
  (Launch demo_cipher launch_demo_config launch_demo_proxies (launch_demo_request launch_demo_dbeaver) site_after_delete).1
    = Ok (ReplyError 404 §"asset not found").
Proof.
  assert (E : (DeleteAsset §"d1" admin_store).1 = Ok tt) by (by vm_compute).
  destruct (deleted_assets_stay_closed §"d1" §"d1" admin_store after_delete admin_retries demo_cipher launch_demo_config
    launch_demo_proxies (launch_demo_request launch_demo_dbeaver) site_after_delete _ _ ltac:(by vm_compute)
    (run_ok _ _ _ E) eq_refl (surjective_pairing _)) as (_ & Hno & _).
  split; [exact Hno|by vm_compute].
Defined.

Definition after_deactivation : store := (SetUserActive §"u2" false admin_store).2.
Lemma deactivated_users_are_signed_out_witness :
  (∃ cu, (ResolveCurrentUser §"cookie" admin_store).1 = Ok cu ∧ cu_ID cu = §"u2") ∧
  ∀ cu s2, ResolveCurrentUser §"cookie" (admin_history admin_demo_ops after_deactivation) = (Ok cu, s2) → cu_ID cu ≠ §"u2".
Proof.
  split; [eexists; split; [by vm_compute|done]|].
  assert (E : (SetUserActive §"u2" false admin_store).1 = Ok tt) by (by vm_compute).
  assert (Hops : Forall (λ op, ¬ activates §"u2" op) admin_demo_ops) by (repeat constructor; intros []).
  destruct (deactivated_users_are_signed_out §"u2" §"u2" admin_store after_deactivation admin_demo_ops ltac:(by vm_compute)
    (run_ok _ _ _ E) Hops) as [Hno _].
  exact (Hno §"cookie").
Defined.
