(* ===== verification/GoFormats.v ===== *)
(** Formats of Go's standard library that the connector uses: net/url ([Parse],
    [Hostname], [Port], [String]) and the times of RFC 3339. *)
From S2P Require Import Prelude GoStrings GoEncoding GoNet.

(** ** Escapes *)

Inductive encoding := EncodePath | EncodeHost | EncodeZone | EncodeUserPassword | EncodeFragment.
#[export] Instance encoding_eq_dec : EqDecision encoding.
Proof. solve_decision. Defined.

Definition is_alnum (c : byte) : bool :=
  let z := b2z c in
  ((48 <=? z) && (z <=? 57)) || ((65 <=? z) && (z <=? 90)) || ((97 <=? z) && (z <=? 122)).
Definition shouldEscape (c : byte) (mode : encoding) : bool :=
  if is_alnum c then false
  else if bool_decide (mode ∈ [EncodeHost; EncodeZone]) &&
          bool_decide (c ∈ ["!"; "$"; "&"; "'"; "("; ")"; "*"; "+"; ","; ";"; "="; ":"; "["; "]"; "<"; ">"; z2b 34]%byte) then false
  else if bool_decide (c ∈ ["-"; "_"; "."; "~"]%byte) then false
  else if bool_decide (c ∈ ["$"; "&"; "+"; ","; "/"; ":"; ";"; "="; "?"; "@"]%byte) then
    match mode with
    | EncodePath => bool_decide (c = "?"%byte)
    | EncodeUserPassword => bool_decide (c ∈ ["@"; "/"; "?"; ":"]%byte)
    | EncodeFragment => false
    | _ => true
    end
  else if bool_decide (mode = EncodeFragment) && bool_decide (c ∈ ["!"; "("; ")"; "*"]%byte) then false
  else true.

Definition upper_hex (n : Z) : byte := z2b (if n <? 10 then 48 + n else 55 + n).
Definition escape (s : bytes) (mode : encoding) : bytes :=
  flat_map (λ c, if shouldEscape c mode then ["%"%byte; upper_hex (b2z c / 16); upper_hex (b2z c mod 16)] else [c]) s.
Fixpoint unescape (s : bytes) (mode : encoding) : option bytes :=
  match s with
  | [] => Some []
  | "%"%byte :: rest =>
      match rest with
      | a :: b :: rest' =>
          match hex_value a, hex_value b with
          | Some x, Some y =>
              let v := z2b (16 * x + y) in
              let is25 := bool_decide ([a; b] = §"25") in
              if bool_decide (mode = EncodeHost) && (x <? 8) && negb is25 then None
              else if bool_decide (mode = EncodeZone) && negb is25 && negb (bool_decide (v = " "%byte)) && shouldEscape v EncodeHost then None
              else cons v <$> unescape rest' mode
          | _, _ => None
          end
      | _ => None
      end
  | c :: rest =>
      if bool_decide (mode ∈ [EncodeHost; EncodeZone]) && (b2z c <? 128) && shouldEscape c mode then None
      else cons c <$> unescape rest mode
  end.
Definition validEncoded (s : bytes) (mode : encoding) : bool :=
  forallb (λ c, bool_decide (c ∈ ["!"; "$"; "&"; "'"; "("; ")"; "*"; "+"; ","; ";"; "="; ":"; "@"; "["; "]"; "%"]%byte)
                || negb (shouldEscape c mode)) s.
Definition validUserinfo (s : bytes) : bool :=
  forallb (λ c, is_alnum c || bool_decide (c ∈ ["-"; "."; "_"; ":"; "~"; "!"; "$"; "&"; "'"; "("; ")"; "*"; "+"; ","; ";"; "="; "%"; "@"]%byte)) s.
Definition validOptionalPort (port : bytes) : bool :=
  match port with [] => true | c :: ds => bool_decide (c = ":"%byte) && forallb is_digit ds end.

(** ** Parsing *)

Record Userinfo := MkUser { ui_username : bytes; ui_password : option bytes }.
Record URL := MkURL {
  u_Scheme : bytes; u_Opaque : bytes; u_User : option Userinfo; u_Host : bytes; u_Path : bytes; u_RawPath : bytes;
  u_OmitHost : bool; u_ForceQuery : bool; u_RawQuery : bytes; u_Fragment : bytes; u_RawFragment : bytes;
}.

(** [strings.Cut] at a byte. *)
Definition Cut (s : bytes) (c : byte) : bytes * bytes :=
  match IndexByte s c with Some i => (take i s, drop (S i) s) | None => (s, []) end.

(** [None] is an error; no scheme is the empty one. *)
Fixpoint scheme_from (i : nat) (rest raw : bytes) : option (bytes * bytes) :=
  match rest with
  | [] => Some ([], raw)
  | c :: rest' =>
      let z := b2z c in
      if ((65 <=? z) && (z <=? 90)) || ((97 <=? z) && (z <=? 122)) then scheme_from (S i) rest' raw
      else if is_digit c || bool_decide (c ∈ ["+"; "-"; "."]%byte) then
        match i with O => Some ([], raw) | _ => scheme_from (S i) rest' raw end
      else if bool_decide (c = ":"%byte) then
        match i with O => None | _ => Some (take i raw, rest') end
      else Some ([], raw)
  end.
Definition getScheme (raw : bytes) : option (bytes * bytes) := scheme_from 0 raw raw.

Definition parseHost (host : bytes) : option bytes :=
  match host with
  | "["%byte :: _ =>
      i ← LastIndexByte host "]"%byte;
      if negb (validOptionalPort (drop (S i) host)) then None
      else match Index (take i host) §"%25" with
           | Some zone =>
               h1 ← unescape (take zone host) EncodeHost;
               h2 ← unescape (drop zone (take i host)) EncodeZone;
               h3 ← unescape (drop i host) EncodeHost;
               Some (h1 ++ h2 ++ h3)
           | None => unescape host EncodeHost
           end
  | _ =>
      if match LastIndexByte host ":"%byte with Some i => validOptionalPort (drop i host) | None => true end
      then unescape host EncodeHost else None
  end.
Definition parseAuthority (authority : bytes) : option (option Userinfo * bytes) :=
  match LastIndexByte authority "@"%byte with
  | None => h ← parseHost authority; Some (None, h)
  | Some i =>
      h ← parseHost (drop (S i) authority);
      let userinfo := take i authority in
      if negb (validUserinfo userinfo) then None
      else if negb (has_byte userinfo ":"%byte) then
        u ← unescape userinfo EncodeUserPassword; Some (Some (MkUser u None), h)
      else
        let '(user, pass) := Cut userinfo ":"%byte in
        u ← unescape user EncodeUserPassword; p ← unescape pass EncodeUserPassword; Some (Some (MkUser u (Some p)), h)
  end.

Section Parse.
Context `{Unicode}.

(** [parse] of the text without its fragment. *)
Definition parse (raw : bytes) : option URL :=
  if existsb (λ c, (b2z c <? 32) || (b2z c =? 127)) raw then None
  else if bool_decide (raw = §"*") then Some (MkURL [] [] None [] §"*" [] false false [] [] [])
  else
    s ← getScheme raw;
    let '(scheme, rest) := s in
    let scheme := ToLower scheme in
    let force := HasSuffix rest §"?" && (length (filter (λ c, c = "?"%byte) rest) =? 1)%nat in
    let '(rest, query) := if force then (take (length rest - 1) rest, []) else Cut rest "?"%byte in
    if negb (HasPrefix rest §"/") && negb (bool_decide (scheme = [])) then
      Some (MkURL scheme rest None [] [] [] false force query [] [])
    else if negb (HasPrefix rest §"/") && has_byte (Cut rest "/"%byte).1 ":"%byte then None
    else
      let authority := (negb (bool_decide (scheme = [])) || negb (HasPrefix rest §"///")) && HasPrefix rest §"//" in
      a ← (if authority then
             let body := drop 2 rest in
             let '(auth, path) := match IndexByte body "/"%byte with
                                  | Some i => (take i body, drop i body) | None => (body, []) end in
             uh ← parseAuthority auth; Some (uh.1, uh.2, path, false)
           else Some (None, [], rest, negb (bool_decide (scheme = [])) && HasPrefix rest §"/"));
      let '(user, host, p, omit) := a in
      path ← unescape p EncodePath;
      Some (MkURL scheme [] user host path (if bool_decide (p = escape path EncodePath) then [] else p) omit force query [] []).
Definition Parse (raw : bytes) : option URL :=
  let '(u, frag) := Cut raw "#"%byte in
  url ← parse u;
  if bool_decide (frag = []) then Some url
  else
    f ← unescape frag EncodeFragment;
    Some (MkURL (u_Scheme url) (u_Opaque url) (u_User url) (u_Host url) (u_Path url) (u_RawPath url) (u_OmitHost url)
            (u_ForceQuery url) (u_RawQuery url) f (if bool_decide (frag = escape f EncodeFragment) then [] else frag)).
End Parse.

(** ** Parts and text *)

Definition url_split (hostPort : bytes) : bytes * bytes :=
  let '(host, port) := match LastIndexByte hostPort ":"%byte with
                       | Some i => if validOptionalPort (drop i hostPort) then (take i hostPort, drop (S i) hostPort) else (hostPort, [])
                       | None => (hostPort, []) end in
  (if HasPrefix host §"[" && HasSuffix host §"]" then take (length host - 2) (drop 1 host) else host, port).
Definition Hostname (u : URL) : bytes := (url_split (u_Host u)).1.
Definition Port (u : URL) : bytes := (url_split (u_Host u)).2.

(** What was written, when it is an encoding of the value, and otherwise the default encoding. *)
Definition escaped (raw value : bytes) (mode : encoding) : bytes :=
  if negb (bool_decide (raw = [])) && validEncoded raw mode && bool_decide (unescape raw mode = Some value) then raw
  else escape value mode.
Definition EscapedPath (u : URL) : bytes :=
  if negb (bool_decide (u_RawPath u = [])) && validEncoded (u_RawPath u) EncodePath
     && bool_decide (unescape (u_RawPath u) EncodePath = Some (u_Path u)) then u_RawPath u
  else if bool_decide (u_Path u = §"*") then §"*" else escape (u_Path u) EncodePath.
Definition Userinfo_String (ui : Userinfo) : bytes :=
  escape (ui_username ui) EncodeUserPassword ++
  match ui_password ui with Some p => §":" ++ escape p EncodeUserPassword | None => [] end.
Definition URL_String (u : URL) : bytes :=
  let front := (if bool_decide (u_Scheme u = []) then [] else u_Scheme u ++ §":") in
  (if negb (bool_decide (u_Opaque u = [])) then front ++ u_Opaque u
   else
     let no_host := bool_decide (u_Host u = []) in
     let no_user := bool_decide (u_User u = None) in
     let authority :=
       if bool_decide (u_Scheme u = []) && no_host && no_user then []
       else if u_OmitHost u && no_host && no_user then []
       else (if no_host && bool_decide (u_Path u = []) && no_user then [] else §"//") ++
            (match u_User u with Some ui => Userinfo_String ui ++ §"@" | None => [] end) ++
            (if no_host then [] else escape (u_Host u) EncodeHost) in
     let path := EscapedPath u in
     let slash := if negb (bool_decide (path = [])) && negb (HasPrefix path §"/") && negb no_host then §"/" else [] in
     let text := front ++ authority ++ slash in
     (* RFC 3986 4.2: a first segment with a colon would read as a scheme *)
     let dot := if bool_decide (text = []) && has_byte (Cut path "/"%byte).1 ":"%byte then §"./" else [] in
     text ++ dot ++ path) ++
  (if u_ForceQuery u || negb (bool_decide (u_RawQuery u = [])) then §"?" ++ u_RawQuery u else []) ++
  (if bool_decide (u_Fragment u = []) then [] else §"#" ++ escaped (u_RawFragment u) (u_Fragment u) EncodeFragment).

(** * Checks against known values *)

#[local] Existing Instance ascii_tables.
Example url_roundtrip : URL_String <$> Parse §"mongodb://u%40x:p%2Fw@[::1]:27017/db%20a?x=1#f" = Some §"mongodb://u%40x:p%2Fw@[::1]:27017/db%20a?x=1#f".
Proof. by vm_compute. Qed.
Example url_host : (λ u, (Hostname u, Port u)) <$> Parse §"HTTP://LocalHost:5173" = Some (§"LocalHost", §"5173").
Proof. by vm_compute. Qed.
Example url_bad : Parse §"http://a b/" = None.
Proof. by vm_compute. Qed.

(** * RFC 3339

    [time.Parse] with the layout RFC3339Nano, in nanoseconds since 1970. *)

Definition is_leap (y : Z) : bool := (y mod 4 =? 0) && (negb (y mod 100 =? 0) || (y mod 400 =? 0)).
Definition days_in (y m : Z) : Z :=
  if m =? 2 then (if is_leap y then 29 else 28)
  else if (m =? 4) || (m =? 6) || (m =? 9) || (m =? 11) then 30 else 31.
(** The day number of a date, the inverse of [civil]. *)
Definition day_number (y m d : Z) : Z :=
  let y' := if m <=? 2 then y - 1 else y in
  let era := y' / 400 in
  let yoe := y' mod 400 in
  let mp := if m <=? 2 then m + 9 else m - 3 in
  let doy := (153 * mp + 2) / 5 + d - 1 in
  era * 146097 + yoe * 365 + yoe / 4 - yoe / 100 + doy - 719468.

(** [n] digits, as [getnum] with [fixed] reads them. *)
Definition number (n : nat) (s : bytes) : option (Z * bytes) :=
  if (length s <? n)%nat then None
  else v ← parse_digits 0 (take n s); Some (v, drop n s).
(** One digit or two: the hour of the layout is not fixed. *)
Definition hour_number (s : bytes) : option (Z * bytes) :=
  match number 2 s with Some r => Some r | None => number 1 s end.
Definition literally (p s : bytes) : option bytes := if HasPrefix s p then Some (drop (length p) s) else None.
Definition ranged (lo hi : Z) (r : Z * bytes) : option (Z * bytes) :=
  if (lo <=? r.1) && (r.1 <=? hi) then Some r else None.

(** The digits of a fraction, of which nine count. *)
Fixpoint leading_digits (s : bytes) : bytes :=
  match s with c :: s' => if is_digit c then c :: leading_digits s' else [] | [] => [] end.
Definition fraction (s : bytes) : Z * bytes :=
  match s with
  | c :: s' =>
      let ds := leading_digits s' in
      if (bool_decide (c = "."%byte) || bool_decide (c = ","%byte)) && negb (bool_decide (ds = [])) then
        (match parse_digits 0 (take 9 ds) with Some v => v * 10 ^ (9 - Z.of_nat (Nat.min 9 (length ds))) | None => 0 end,
         drop (length ds) s')
      else (0, s)
  | [] => (0, s)
  end.
(** The offset of a zone, in seconds. *)
Definition zone (s : bytes) : option (Z * bytes) :=
  match s with
  | "Z"%byte :: rest => Some (0, rest)
  | sign :: rest =>
      r ← number 2 rest; let '(hh, rest) := r in
      rest ← literally §":" rest;
      r ← number 2 rest; let '(mm, rest) := r in
      if (24 <? hh) || (60 <? mm) then None
      else if bool_decide (sign = "+"%byte) then Some ((hh * 60 + mm) * 60, rest)
      else if bool_decide (sign = "-"%byte) then Some (- ((hh * 60 + mm) * 60), rest)
      else None
  | [] => None
  end.
Definition parse_RFC3339 (s : bytes) : option Z :=
  r ← number 4 s; let '(y, s) := r in s ← literally §"-" s;
  r ← number 2 s ≫= ranged 1 12; let '(m, s) := r in s ← literally §"-" s;
  r ← number 2 s; let '(d, s) := r in s ← literally §"T" s;
  r ← hour_number s ≫= ranged 0 23; let '(hh, s) := r in s ← literally §":" s;
  r ← number 2 s ≫= ranged 0 59; let '(mi, s) := r in s ← literally §":" s;
  r ← number 2 s ≫= ranged 0 59; let '(se, s) := r in
  let '(ns, s) := fraction s in
  r ← zone s; let '(offset, s) := r in
  if bool_decide (s = []) && (1 <=? d) && (d <=? days_in y m)
  then Some ((day_number y m d * 86400 + hh * 3600 + mi * 60 + se - offset) * 10 ^ 9 + ns)
  else None.

Example parse_leap_day : parse_RFC3339 §"2024-02-29T12:00:00.12Z" = Some (1709208000 * 10 ^ 9 + 120000000).
Proof. by vm_compute. Qed.
Example parse_offset : parse_RFC3339 §"2024-02-29T13:30:00+01:30" = Some (1709208000 * 10 ^ 9).
Proof. by vm_compute. Qed.
Example parse_no_leap_day : parse_RFC3339 §"2023-02-29T12:00:00Z" = None.
Proof. by vm_compute. Qed.
