(* ===== verification/ShellText.v ===== *)
(** How the programs the connector hands a text to read it: the POSIX shell
    (bash -lc), GLib's [g_shell_parse_argv] (xfce4-terminal), a string literal
    of AppleScript, and cmd.exe.  They are specifications: the connector only
    writes such texts. *)
From S2P Require Import Prelude GoStrings.

(** * The shell's quoting *)

Inductive quoting := Bare | BareEscape | Single | Double | DoubleEscape.
#[export] Instance quoting_eq_dec : EqDecision quoting.
Proof. solve_decision. Defined.

#[local] Abbreviation squote := ("'"%byte).
Definition dquote : byte := z2b 34.
Definition backslash : byte := z2b 92.
Definition newline : byte := z2b 10.
Definition is_blank (c : byte) : bool := bool_decide (c ∈ [" "%byte; z2b 9]).
(** What a shell acts on inside double quotes, and besides in a bare word. *)
Definition expands (c : byte) : bool := bool_decide (c ∈ ["$"; "`"]%byte).
Definition operates (c : byte) : bool :=
  expands c || bool_decide (c ∈ ["&"; "|"; "<"; ">"; "("; ")"; "*"; "?"; "["; "]"; "#"; "~"; "{"; "}"; "!"]%byte).

(** A word: its bytes, each with whether the shell acts on it. *)
Abbreviation word := (list (byte * bool)).
Definition literal (v : bytes) : word := map (λ b, (b, false)) v.
(** The word is just this text. *)
Definition is_text (w : word) (v : bytes) : Prop := w = literal v.

(** Between two bytes: the quoting, the word begun, the words of the command
    before it, and the commands before that. *)
Record reading := Reading_ { rd_quoting : quoting; rd_word : option word; rd_words : list word; rd_commands : list (list word) }.
Definition start : reading := Reading_ Bare None [] [].
Definition put_byte (q : quoting) (b : byte) (active : bool) (r : reading) : reading :=
  Reading_ q (Some (default [] (rd_word r) ++ [(b, active)])) (rd_words r) (rd_commands r).
Definition enter (q : quoting) (r : reading) : reading :=
  Reading_ q (Some (default [] (rd_word r))) (rd_words r) (rd_commands r).
Definition end_word (r : reading) : reading :=
  match rd_word r with
  | Some w => Reading_ Bare None (rd_words r ++ [w]) (rd_commands r)
  | None => r
  end.
Definition end_command (r : reading) : reading :=
  let r := end_word r in Reading_ Bare None [] (rd_commands r ++ [rd_words r]).

Definition sh_step (c : byte) (r : reading) : reading :=
  match rd_quoting r with
  | Bare =>
      if bool_decide (c = squote) then enter Single r
      else if bool_decide (c = dquote) then enter Double r
      else if bool_decide (c = backslash) then enter BareEscape r
      else if is_blank c then end_word r
      else if bool_decide (c = ";"%byte) || bool_decide (c = newline) then end_command r
      else put_byte Bare c (operates c) r
  | BareEscape => put_byte Bare c false r
  | Single => if bool_decide (c = squote) then enter Bare r else put_byte Single c false r
  | Double =>
      if bool_decide (c = dquote) then enter Bare r
      else if bool_decide (c = backslash) then enter DoubleEscape r
      else put_byte Double c (expands c) r
  | DoubleEscape =>
      if expands c || bool_decide (c ∈ [dquote; backslash]) then put_byte Double c false r
      else put_byte Double c false (put_byte Double backslash false r)
  end.
Fixpoint sh_scan (s : bytes) (r : reading) : reading :=
  match s with [] => r | c :: s => sh_scan s (sh_step c r) end.
(** The commands of a text; [None]: a quote is open. *)
Definition sh_commands (s : bytes) : option (list (list word)) :=
  let r := sh_scan s start in
  if bool_decide (rd_quoting r = Bare) then Some (rd_commands (end_command r)) else None.

Lemma sh_scan_app s t r : sh_scan (s ++ t) r = sh_scan t (sh_scan s r).
Proof. revert r. induction s as [|c s IH]; intros r; [done|]. apply IH. Qed.

(** ** Plain and quoted texts *)

(** A byte that is itself in a bare word. *)
Definition plain_shell (c : byte) : bool :=
  negb (bool_decide (c ∈ [squote; dquote; backslash; ";"%byte; newline]) || is_blank c || operates c).

(** The reading goes on in a word with these bytes at its end. *)
Definition said (w : word) (r : reading) : reading :=
  Reading_ Bare (Some (default [] (rd_word r) ++ w)) (rd_words r) (rd_commands r).
Lemma literal_app u v : literal (u ++ v) = literal u ++ literal v.
Proof. apply map_app. Qed.
Lemma said_said u v r : said v (said u r) = said (u ++ v) r.
Proof. unfold said. cbn. by rewrite app_assoc. Qed.

Lemma sh_plain v r : rd_quoting r = Bare → v ≠ [] → forallb plain_shell v = true → sh_scan v r = said (literal v) r.
Proof.
  intros Hq Hne Hv. destruct r as [q w ws cs]. cbn in Hq. subst q. destruct v as [|c v]; [done|]. clear Hne. revert c w Hv.
  induction v as [|d v IH]; intros c w [Hc Hv]%andb_true_iff.
  all: assert (Hstep : sh_step c (Reading_ Bare w ws cs) = said (literal [c]) (Reading_ Bare w ws cs)).
  1,3: unfold plain_shell in Hc; apply negb_true_iff, orb_false_iff in Hc as [Hc Ho]; apply orb_false_iff in Hc as [Hc Hb];
    apply bool_decide_eq_false in Hc; unfold sh_step; cbn [rd_quoting]; rewrite !bool_decide_false by (intros ->; apply Hc; set_solver);
    rewrite Hb; cbn [orb]; unfold put_byte, said; cbn; by rewrite Ho.
  - exact Hstep.
  - cbn [sh_scan]. cbn [sh_scan] in IH. rewrite Hstep. unfold said at 1. cbn [rd_word rd_words rd_commands default].
    rewrite IH by done. unfold said. cbn. by rewrite <- app_assoc.
Qed.
Lemma sh_space r w : rd_quoting r = Bare → rd_word r = Some w →
  sh_scan §" " r = Reading_ Bare None (rd_words r ++ [w]) (rd_commands r).
Proof. intros Hq Hw. destruct r. cbn in *. by subst. Qed.
Lemma sh_semicolon r w : rd_quoting r = Bare → rd_word r = Some w →
  sh_scan §"; " r = Reading_ Bare None [] (rd_commands r ++ [rd_words r ++ [w]]).
Proof. intros Hq Hw. destruct r. cbn in *. by subst. Qed.
Lemma sh_single v r : rd_quoting r = Single → squote ∉ v →
  sh_scan v r = Reading_ Single (match v with [] => rd_word r | _ => Some (default [] (rd_word r) ++ literal v) end) (rd_words r) (rd_commands r).
Proof.
  destruct r as [q w ws cs]. cbn. intros -> Hv. revert w. induction v as [|c v IH]; intros w; [done|].
  cbn [sh_scan]. unfold sh_step. cbn [rd_quoting]. rewrite bool_decide_false by set_solver. unfold put_byte.
  cbn [rd_word rd_words rd_commands]. rewrite IH by set_solver. f_equal. destruct v; [done|]. cbn. by rewrite <- app_assoc.
Qed.

(** * GLib's splitting

    The same quotes; nothing expands, and blanks and newlines end a word. *)
Definition glib_step (c : byte) (r : reading) : reading :=
  match rd_quoting r with
  | Bare =>
      if bool_decide (c = squote) then enter Single r
      else if bool_decide (c = dquote) then enter Double r
      else if bool_decide (c = backslash) then enter BareEscape r
      else if is_blank c || bool_decide (c = newline) then end_word r
      else put_byte Bare c false r
  | BareEscape => put_byte Bare c false r
  | Single => if bool_decide (c = squote) then enter Bare r else put_byte Single c false r
  | Double =>
      if bool_decide (c = dquote) then enter Bare r
      else if bool_decide (c = backslash) then enter DoubleEscape r
      else put_byte Double c false r
  | DoubleEscape =>
      if bool_decide (c ∈ ["$"%byte; "`"%byte; dquote; backslash; newline]) then put_byte Double c false r
      else put_byte Double c false (put_byte Double backslash false r)
  end.
Fixpoint glib_scan (s : bytes) (r : reading) : reading :=
  match s with [] => r | c :: s => glib_scan s (glib_step c r) end.
Definition glib_argv (s : bytes) : option (list bytes) :=
  let r := glib_scan s start in
  if bool_decide (rd_quoting r = Bare) then Some (map (map fst) (rd_words (end_word r))) else None.
Lemma glib_scan_app s t r : glib_scan (s ++ t) r = glib_scan t (glib_scan s r).
Proof. revert r. induction s as [|c s IH]; intros r; [done|]. apply IH. Qed.
(** In double quotes all but the quote and the backslash is itself. *)
Lemma glib_double v w ws cs : forallb (λ c, negb (bool_decide (c ∈ [dquote; backslash]))) v = true →
  glib_scan v (Reading_ Double (Some w) ws cs) = Reading_ Double (Some (w ++ literal v)) ws cs.
Proof.
  revert w. induction v as [|c v IH]; intros w; [by rewrite app_nil_r|]. intros [Hc Hv]%andb_true_iff.
  apply negb_true_iff, bool_decide_eq_false in Hc. cbn [glib_scan]. unfold glib_step. cbn [rd_quoting].
  rewrite !bool_decide_false by (intros ->; apply Hc; set_solver). unfold put_byte. cbn [rd_word rd_words rd_commands default].
  rewrite IH by done. by rewrite <- app_assoc.
Qed.

(** * The strings of an AppleScript *)

(** What a byte is after a backslash. *)
Definition applescript_escape (c : byte) : byte :=
  if bool_decide (c = "n"%byte) then newline else if bool_decide (c = "t"%byte) then z2b 9
  else if bool_decide (c = "r"%byte) then z2b 13 else c.
Fixpoint applescript_scan (s : bytes) (inside : option bytes) (escaped : bool) : list bytes :=
  match s with
  | [] => []
  | c :: s =>
      match inside with
      | None => applescript_scan s (if bool_decide (c = dquote) then Some [] else None) false
      | Some t =>
          if escaped then applescript_scan s (Some (t ++ [applescript_escape c])) false
          else if bool_decide (c = dquote) then t :: applescript_scan s None false
          else if bool_decide (c = backslash) then applescript_scan s (Some t) true
          else applescript_scan s (Some (t ++ [c])) false
      end
  end.
Definition applescript_strings (s : bytes) : list bytes := applescript_scan s None false.
Lemma applescript_outside a s : dquote ∉ a → applescript_scan (a ++ s) None false = applescript_scan s None false.
Proof.
  induction a as [|c a IH]; intros Ha; [done|]. cbn [app applescript_scan]. rewrite bool_decide_false by set_solver.
  apply IH. set_solver.
Qed.

(** * The commands cmd.exe finds in a line: the separators are outside quotes,
    and a caret makes the next byte plain *)

Fixpoint cmd_scan (s : bytes) (quoted escaped : bool) (cur : bytes) : list bytes :=
  match s with
  | [] => [cur]
  | c :: rest =>
      if escaped then cmd_scan rest quoted false (cur ++ [c])
      else if bool_decide (c = dquote) then cmd_scan rest (negb quoted) false (cur ++ [c])
      else if negb quoted && bool_decide (c = "^"%byte) then cmd_scan rest quoted true cur
      else if negb quoted && bool_decide (c ∈ ["&"; "|"]%byte) then cur :: cmd_scan rest quoted false []
      else cmd_scan rest quoted false (cur ++ [c])
  end.
Definition cmd_commands (s : bytes) : list bytes := cmd_scan s false false [].
(** A byte that is itself to cmd.exe. *)
Definition plain_cmd (c : byte) : bool := negb (bool_decide (c ∈ [dquote; "^"%byte; "&"%byte; "|"%byte])).
Lemma cmd_plain v rest cur : forallb plain_cmd v = true → cmd_scan (v ++ rest) false false cur = cmd_scan rest false false (cur ++ v).
Proof.
  revert cur. induction v as [|c v IH]; intros cur; [by rewrite app_nil_r|]. intros [Hc Hv]%andb_true_iff.
  unfold plain_cmd in Hc. apply negb_true_iff, bool_decide_eq_false in Hc. cbn [app cmd_scan negb andb].
  rewrite !bool_decide_false by (first [intros ->|intros Hin]; apply Hc; set_solver). rewrite IH by done. by rewrite <- app_assoc.
Qed.
