(* ===== verification/Desktop.v ===== *)
(** The connector's launches of desktop programs
    (apps/connector/internal/launch/launch.go): the requests and their
    validation, the commands and scripts it writes, the processes it starts.

    The machine answers: which files and programs there are, where an
    application is (the resolver of internal/discovery, which the launcher is
    given), and what becomes of each process.  The details and the cause of a
    [LaunchError] are texts of those answers and are not kept. *)
From S2P Require Import Prelude GoStrings GoNet GoFormats.

(** ** Requests *)

Record Shell := MkShell {
  sh_ProxyHost : bytes; sh_ProxyPort : Z; sh_Username : bytes; sh_ProxyUsername : bytes; sh_UpstreamUsername : bytes;
  sh_TargetAssetName : bytes; sh_TargetHost : bytes; sh_Token : bytes; sh_ExpiresAt : bytes;
}.
Record Request := MkRequest {
  rq_SessionID : bytes; rq_AssetName : bytes; rq_ConnectorToken : bytes; rq_Launch : Shell;
}.
Record DBeaverPayload := MkDBeaver {
  db_Engine : bytes; db_Host : bytes; db_Port : Z; db_Database : bytes; db_Username : bytes; db_UpstreamUsername : bytes;
  db_TargetAssetName : bytes; db_TargetHost : bytes; db_Password : bytes; db_SSLMode : bytes; db_ExpiresAt : bytes;
}.
Record DBeaverRequest := MkDBeaverRequest {
  dr_SessionID : bytes; dr_AssetName : bytes; dr_ConnectorToken : bytes; dr_Launch : DBeaverPayload;
}.
Record RedisPayload := MkRedis {
  rd_Host : bytes; rd_Port : Z; rd_Username : bytes; rd_Password : bytes; rd_Database : Z; rd_TLS : bool;
  rd_InsecureSkipVerifyTLS : bool; rd_ExpiresAt : bytes;
}.
Record RedisRequest := MkRedisRequest {
  rr_SessionID : bytes; rr_AssetName : bytes; rr_ConnectorToken : bytes; rr_Launch : RedisPayload;
}.
Record SFTPPayload := MkSFTP {
  sf_Host : bytes; sf_Port : Z; sf_Username : bytes; sf_ProxyUsername : bytes; sf_UpstreamUsername : bytes;
  sf_TargetAssetName : bytes; sf_TargetHost : bytes; sf_Password : bytes; sf_Path : bytes; sf_ExpiresAt : bytes;
}.
Record SFTPRequest := MkSFTPRequest {
  sr_SessionID : bytes; sr_AssetName : bytes; sr_ConnectorToken : bytes; sr_Launch : SFTPPayload;
}.

Definition blank (s : bytes) : bool := bool_decide (TrimSpace s = []).
Definition bad_port (port : Z) : bool := (port <=? 0) || (65535 <? port).
(** The end of every validation: [None] is valid. *)
Definition check_expiry (expiresAt : bytes) (now : Z) : option error :=
  if blank expiresAt then Some (Errorf §"launch.expires_at is required")
  else match parse_RFC3339 expiresAt with
       | None => Some (Errorf §"launch.expires_at must be RFC3339 timestamp")
       | Some t => if t <? now then Some (Errorf §"launch token is already expired") else None
       end.
Definition Validate (r : Request) (now : Z) : option error :=
  let l := rq_Launch r in
  if blank (rq_SessionID r) then Some (Errorf §"session_id is required")
  else if blank (sh_ProxyHost l) then Some (Errorf §"launch.proxy_host is required")
  else if bad_port (sh_ProxyPort l) then Some (Errorf §"launch.proxy_port is invalid")
  else if blank (sh_ProxyUsername l) && blank (sh_Username l) then
    Some (Errorf §"launch.proxy_username or launch.username is required")
  else if blank (sh_Token l) then Some (Errorf §"launch.token is required")
  else check_expiry (sh_ExpiresAt l) now.
Definition ValidateDBeaver (r : DBeaverRequest) (now : Z) : option error :=
  let l := dr_Launch r in
  if blank (dr_SessionID r) then Some (Errorf §"session_id is required")
  else if blank (db_Engine l) then Some (Errorf §"launch.engine is required")
  else if blank (db_Host l) then Some (Errorf §"launch.host is required")
  else if bad_port (db_Port l) then Some (Errorf §"launch.port is invalid")
  else if blank (db_Username l) && blank (db_UpstreamUsername l) then
    Some (Errorf §"launch.username or launch.upstream_username is required")
  else check_expiry (db_ExpiresAt l) now.
Definition ValidateRedis (r : RedisRequest) (now : Z) : option error :=
  let l := rr_Launch r in
  if blank (rr_SessionID r) then Some (Errorf §"session_id is required")
  else if blank (rd_Host l) then Some (Errorf §"launch.redis_host is required")
  else if bad_port (rd_Port l) then Some (Errorf §"launch.redis_port is invalid")
  else if blank (rd_Password l) then Some (Errorf §"launch.redis_password is required")
  else if rd_Database l <? 0 then Some (Errorf §"launch.redis_database must be >= 0")
  else check_expiry (rd_ExpiresAt l) now.
Definition ValidateSFTP (r : SFTPRequest) (now : Z) : option error :=
  let l := sr_Launch r in
  if blank (sr_SessionID r) then Some (Errorf §"session_id is required")
  else if blank (sf_Host l) then Some (Errorf §"launch.host is required")
  else if bad_port (sf_Port l) then Some (Errorf §"launch.port is invalid")
  else if blank (sf_ProxyUsername l) && blank (sf_Username l) then
    Some (Errorf §"launch.proxy_username or launch.username is required")
  else if blank (sf_Password l) then Some (Errorf §"launch.password is required")
  else check_expiry (sf_ExpiresAt l) now.

(** ** Names *)

(** The first of two that is not blank. *)
Definition first_of (u v fallback : bytes) : bytes :=
  if blank u then (if blank v then fallback else TrimSpace v) else TrimSpace u.
Definition proxyUsernameForShell (l : Shell) : bytes := first_of (sh_ProxyUsername l) (sh_Username l) §"accessd".
Definition upstreamUsernameForShell (l : Shell) : bytes :=
  first_of (sh_UpstreamUsername l) (sh_Username l) (proxyUsernameForShell l).
Definition proxyUsernameForSFTP (l : SFTPPayload) : bytes := first_of (sf_ProxyUsername l) (sf_Username l) §"accessd".

(** ** Quoting *)

Definition quote : bytes := [z2b 34].
Definition shellEscape (v : bytes) : bytes := §"'" ++ ReplaceByte v "'"%byte (§"'" ++ quote ++ §"'" ++ quote ++ §"'") ++ §"'".
Definition escapeAppleScript (v : bytes) : bytes :=
  ReplaceByte (ReplaceByte v "\"%byte §"\\") (z2b 34) (§"\" ++ quote).
(** [strings.NewReplacer] of single bytes. *)
Definition url_escapes : list (byte * bytes) :=
  [("%", §"%25"); (" ", §"%20"); ("+", §"%2B"); ("@", §"%40"); (":", §"%3A"); ("/", §"%2F"); ("?", §"%3F");
   ("#", §"%23"); ("&", §"%26"); ("=", §"%3D"); (";", §"%3B")]%byte.
Definition replace_byte (pairs : list (byte * bytes)) (c : byte) : bytes :=
  match List.find (λ p, bool_decide (p.1 = c)) pairs with Some (_, new) => new | None => [c] end.
Definition urlEscape (v : bytes) : bytes := flat_map (replace_byte url_escapes) v.
Definition specValue (v : bytes) : bytes := ReplaceByte (TrimSpace v) "|"%byte §"\|".

(** ** Commands *)

(** The commands a text of the shell is put together from. *)
Definition words (ws : list bytes) : bytes := join §" " ws.

Definition shellCommand_text (executable tokenPath hostKeyMode knownHostsPath : bytes) (req : Request) : bytes :=
  let l := rq_Launch req in
  let displayAsset := first_of (sh_TargetAssetName l) (rq_AssetName req) [] in
  words [shellEscape executable; §"bridge-shell"; §"--host"; shellEscape (sh_ProxyHost l); §"--port"; Itoa (sh_ProxyPort l);
    §"--username"; shellEscape (proxyUsernameForShell l); §"--session-id"; shellEscape (TrimSpace (rq_SessionID req));
    §"--asset-name"; shellEscape displayAsset; §"--target-host"; shellEscape (TrimSpace (sh_TargetHost l));
    §"--upstream-username"; shellEscape (upstreamUsernameForShell l); §"--token-file"; shellEscape tokenPath;
    §"--hostkey-mode"; shellEscape hostKeyMode; §"--known-hosts-file"; shellEscape knownHostsPath].

Section Redis.
(** ACCESSD_CONNECTOR_REDIS_TLS_AUTO_INSECURE, trimmed and in lower case. *)
Context (autoInsecure : bytes) (req : RedisRequest).
#[local] Abbreviation l := (rr_Launch req).

Definition redisCLIShouldUseInsecureTLS : bool :=
  rd_InsecureSkipVerifyTLS l || bool_decide (autoInsecure ∈ [§"1"; §"true"; §"yes"; §"on"]).
(** The options after the address, with what a text of the user is put through. *)
Definition redis_options (text : bytes → bytes) : list bytes :=
  (if 0 <? rd_Database l then [§"-n"; Itoa (rd_Database l)] else []) ++
  (if blank (rd_Username l) then [] else [§"--user"; text (TrimSpace (rd_Username l))]) ++
  (if rd_TLS l then §"--tls" :: (if redisCLIShouldUseInsecureTLS then [§"--insecure"] else []) else []).
Definition redisCLICommand (redisCLIPath : bytes) : bytes :=
  let parts := [shellEscape redisCLIPath; §"-h"; shellEscape (rd_Host l); §"-p"; Itoa (rd_Port l)] ++ redis_options shellEscape in
  let title := §"AccessD redis session " ++ TrimSpace (rr_SessionID req) ++ §" for " ++ TrimSpace (rr_AssetName req) in
  §"echo " ++ shellEscape title ++ §"; export REDISCLI_AUTH=" ++ shellEscape (rd_Password l) ++ §"; " ++ words parts ++
  §"; exit_code=$?; unset REDISCLI_AUTH; echo; echo " ++
  shellEscape §"redis-cli exited with code ${exit_code}; close this terminal when done." ++ §"; exec bash".
Definition redisCLICommandWindows (redisCLIPath : bytes) : bytes :=
  let parts := [quote ++ ReplaceByte redisCLIPath (z2b 34) (quote ++ quote) ++ quote; §"-h"; rd_Host l; §"-p"; Itoa (rd_Port l)] ++
               redis_options (λ user, user) in
  §"echo AccessD redis session " ++ rr_SessionID req ++ §" for " ++ rr_AssetName req ++ §" && set REDISCLI_AUTH=" ++
  rd_Password l ++ §" && " ++ words parts ++
  §" && set REDISCLI_AUTH= && echo. && echo redis-cli exited; keep this window open for review.".
Definition redisCLICommandPreview : bytes :=
  words ([§"redis-cli"; §"-h"; rd_Host l; §"-p"; Itoa (rd_Port l)] ++ redis_options (λ user, user) ++ [§"(auth via REDISCLI_AUTH)"]).
End Redis.

Definition filezillaTarget (req : SFTPRequest) : bytes :=
  let l := sr_Launch req in
  let path := TrimSpace (sf_Path l) in
  let path := if negb (bool_decide (path = [])) && negb (HasPrefix path §"/") then §"/" ++ path else path in
  §"sftp://" ++ urlEscape (proxyUsernameForSFTP l) ++ §":" ++ urlEscape (TrimSpace (sf_Password l)) ++ §"@" ++
  TrimSpace (sf_Host l) ++ §":" ++ Itoa (sf_Port l) ++ path.
Definition site_escapes : list (byte * bytes) :=
  [("/", §"-"); ("\", §"-"); (z2b 10, §" "); (z2b 13, §" "); (z2b 9, §" ")]%byte.
Definition sanitizeFileZillaSiteName (name : bytes) : bytes :=
  if blank name then §"AccessD Session" else TrimSpace (flat_map (replace_byte site_escapes) (TrimSpace name)).

Section Names.
Context `{Unicode}.

Definition sftpSiteDisplayName (req : SFTPRequest) : bytes :=
  let l := sr_Launch req in
  let asset := first_of (sf_TargetAssetName l) (sr_AssetName req) [] in
  let user := first_of (sf_UpstreamUsername l) (sf_Username l) [] in
  let host := TrimSpace (sf_TargetHost l) in
  if bool_decide (asset = []) && bool_decide (user = []) then []
  else
    let name := if bool_decide (asset = []) then host else asset in
    let name := if bool_decide (user = []) then name else name ++ §" - " ++ user in
    let name := if bool_decide (host = []) || EqualFold host asset then name else name ++ §" (" ++ host ++ §")" in
    TrimSpace name.

(** ** DBeaver and Robo 3T *)

Definition normalizeEngine (engine : bytes) : bytes :=
  let n := ToLower (TrimSpace engine) in
  if bool_decide (n ∈ [§"postgres"; §"postgresql"]) then §"postgresql"
  else if bool_decide (n ∈ [§"sqlserver"; §"mssql"; §"microsoft"]) then §"microsoft"
  else if bool_decide (n ∈ [§"mongo"; §"mongodb"]) then §"mongodb"
  else if bool_decide (n = []) then §"postgresql" else n.
Definition isMongoEngine (engine : bytes) : bool := bool_decide (ToLower (TrimSpace engine) ∈ [§"mongo"; §"mongodb"]).
Definition shortSessionLabel (sessionID : bytes) : bytes := take 8 (TrimSpace sessionID).

Definition spec_field (name value : bytes) : list bytes :=
  if blank value then [] else [name ++ §"=" ++ specValue (TrimSpace value)].
Definition spec_label (req : DBeaverRequest) (suffix : bytes) : bytes :=
  let l := dr_Launch req in
  let between open_ v close := if bool_decide (v = []) then [] else open_ ++ v ++ close in
  first_of (db_TargetAssetName l) (dr_AssetName req) [] ++
  between §" - " (first_of (db_UpstreamUsername l) (db_Username l) []) [] ++
  between §" (" (TrimSpace (db_TargetHost l)) §")" ++
  between §" [" (shortSessionLabel (dr_SessionID req)) §"]" ++
  between §" {" (TrimSpace suffix) §"}".
Definition dbeaverConnectionSpecWithNameSuffix (req : DBeaverRequest) (suffix : bytes) : bytes :=
  let l := dr_Launch req in
  let engine := normalizeEngine (db_Engine l) in
  join §"|" (
    [§"driver=" ++ specValue engine; §"host=" ++ specValue (db_Host l); §"port=" ++ Itoa (db_Port l);
     §"user=" ++ specValue (db_Username l); §"connect=true"; §"openConsole=true"; §"savePassword=true"] ++
    spec_field §"password" (db_Password l) ++ spec_field §"database" (db_Database l) ++
    (if bool_decide (engine ∈ [§"microsoft"; §"mssql"; §"sqlserver"])
     then [§"prop.encrypt=false"; §"prop.trustServerCertificate=true"] else spec_field §"sslMode" (db_SSLMode l)) ++
    (if bool_decide (first_of (db_TargetAssetName l) (dr_AssetName req) [] = []) then []
     else [§"name=" ++ specValue (spec_label req suffix)])).
Definition dbeaverConnectionSpec (req : DBeaverRequest) : bytes := dbeaverConnectionSpecWithNameSuffix req [].

Definition mongoConnectionURI (l : DBeaverPayload) : bytes :=
  let host := TrimSpace (db_Host l) in
  if bool_decide (host = []) || (db_Port l <=? 0) then []
  else
    let user := TrimSpace (db_Username l) in
    let pass := TrimSpace (db_Password l) in
    let db := TrimSpace (db_Database l) in
    URL_String (MkURL §"mongodb" []
      (if bool_decide (user = []) then None else Some (MkUser user (if bool_decide (pass = []) then None else Some pass)))
      (JoinHostPort host (Itoa (db_Port l))) (if bool_decide (db = []) then [] else §"/" ++ db) [] false false [] [] []).

(** ** What is logged of a command *)

Definition redacted : bytes := §"<redacted>".
Definition with_user (u : URL) (user : Userinfo) : URL :=
  MkURL (u_Scheme u) (u_Opaque u) (Some user) (u_Host u) (u_Path u) (u_RawPath u) (u_OmitHost u) (u_ForceQuery u)
    (u_RawQuery u) (u_Fragment u) (u_RawFragment u).
Definition redact_mongo (arg : bytes) : option bytes :=
  if HasPrefix (ToLower arg) §"mongodb://" then
    match Parse arg with
    | Some u => Some (URL_String (match u_User u with
                                  | Some ui => if bool_decide (ui_username ui = []) then u
                                               else with_user u (MkUser (ui_username ui) (Some redacted))
                                  | None => u end))
    | None => None
    end
  else None.
Definition redact_sftp (arg : bytes) : option bytes :=
  if HasPrefix arg §"sftp://" then
    let rest := drop 7 arg in
    match IndexByte rest "@"%byte with
    | Some at_ =>
        match IndexByte (take at_ rest) ":"%byte with
        | Some colon => Some (§"sftp://" ++ take colon rest ++ §":<redacted>@" ++ drop (S at_) rest)
        | None => None
        end
    | None => None
    end
  else None.
Definition redact_field (part : bytes) : bytes :=
  if HasPrefix (ToLower (TrimSpace part)) §"password=" then §"password=<redacted>" else part.
Definition redact_fields (arg : bytes) : bytes :=
  if Contains arg §"password=" then join §"|" (map redact_field (SplitByte arg "|"%byte)) else arg.
(** [None]: the slice is out of bounds, since upper case can be longer. *)
Definition redact_redis (arg : bytes) : option bytes :=
  match Index (ToUpper arg) §"REDISCLI_AUTH=" with
  | Some i => if (length arg <? i)%nat then None else Some (take i arg ++ §"REDISCLI_AUTH=<redacted>")
  | None => Some arg
  end.
Definition sanitizeCommandArg (arg : bytes) : option bytes :=
  match redact_mongo arg, redact_sftp arg with
  | Some text, _ | None, Some text => Some text
  | None, None => redact_redis (redact_fields arg)
  end.
(** [after_pw]: the argument before was -pw. *)
Fixpoint sanitize_args (after_pw : bool) (args : list bytes) : option (list bytes) :=
  match args with
  | [] => Some []
  | arg :: rest =>
      safe ← (if after_pw then Some redacted else sanitizeCommandArg arg);
      cons safe <$> sanitize_args (EqualFold (TrimSpace arg) §"-pw") rest
  end.
Definition sanitizeCommandArgs (args : list bytes) : option bytes := join §" " <$> sanitize_args false args.
End Names.
