(* ===== verification/DesktopRun.v ===== *)
(** The processes the connector starts: a shell in a terminal, redis-cli in a
    terminal, DBeaver and Robo 3T (apps/connector/internal/launch/launch.go).
    The launcher has a resolver, as cmd/connector/main.go gives it one. *)
From S2P Require Import Prelude GoStrings GoNet GoFormats Desktop.

Inductive os := Darwin | Linux | Windows | OtherOS (name : bytes).
Inductive application := AppPuTTY | AppDBeaver | AppRoboMongo | AppRedisCLI.
(** An error of the resolver: [DiscoveryError] or another. *)
Inductive discovery_error := DiscoveryError (source text hint : bytes) | OtherError (text : bytes).
Inductive failure := LaunchError (code message hint : bytes) | PlainError (e : error).

Record machine := Machine {
  mc_os : os;
  mc_executable : option bytes;              (** [os.Executable] *)
  mc_lookpath : bytes → option bytes;        (** [exec.LookPath]; [None] is [exec.ErrNotFound] *)
  mc_stat : bytes → option bool;             (** [os.Stat]: whether it is a directory *)
  mc_readdir : bytes → option (list (bytes * bool));
  mc_getenv : bytes → bytes;
  mc_resolve : application → bytes + discovery_error;
  mc_terminal : bytes;                       (** [ResolveTerminal().Terminal] *)
  mc_hostkey_mode : bytes;                   (** [defaultBridgeHostKeyMode()] *)
  mc_known_hosts : bytes;                    (** [defaultBridgeKnownHostsFile()] *)
  mc_temp : bytes;                           (** the name of the next temporary file or directory *)
  mc_nano : Z;                               (** [time.Now().UTC().UnixNano()] *)
}.

(** What becomes of a process: it does not start (not found, or otherwise), it
    ends within the time it is watched, with its output, or it runs on (where the
    end is waited for, it ends well). *)
Inductive process := NotStarted (not_found : bool) | Ended (output : bytes) (failed : bool) | Running.
Inductive effect :=
| Spawned (argv : list bytes)
| TokenFile (path content : bytes)
| Manifest (path : bytes) (req : DBeaverRequest)
| Removed (path : bytes).
Record desk := Desk { dk_effects : list effect; dk_processes : list process; dk_faults : list bool }.

Definition emit (e : effect) : M desk unit := modify (λ d, Desk (dk_effects d ++ [e]) (dk_processes d) (dk_faults d)).
(** Starts a process; without an answer it runs on. *)
Definition spawn (argv : list bytes) : M desk process := λ d,
  let p := default Running (head (dk_processes d)) in
  (Ok p, Desk (dk_effects d ++ match p with NotStarted _ => [] | _ => [Spawned argv] end) (tail (dk_processes d)) (dk_faults d)).
(** Whether an operation on files fails. *)
Definition file_fails : M desk bool := λ d,
  (Ok (default false (head (dk_faults d))), Desk (dk_effects d) (dk_processes d) (tail (dk_faults d))).

Definition task (A : Type) : Type := M desk (A + failure).
Definition done {A} (a : A) : task A := ret (inl a).
Definition broken {A} (code message hint : bytes) : task A := ret (inr (LaunchError code message hint)).
Definition then_ {A B} (m : task A) (k : A → task B) : task B :=
  let! r := m in match r with inl a => k a | inr f => ret (inr f) end.
#[local] Notation "'let?' x ':=' m 'in' k" := (then_ m (λ x, k)) (at level 10, x pattern, m at level 100, k at level 200).

Section Machine.
Context `{Unicode} (mc : machine).

(** ** Terminals *)

(** The temporary file of the token; a failure removes it. *)
Definition prepareLaunchTokenFile (token : bytes) : task bytes :=
  let! failed := file_fails in
  if (failed : bool) then broken §"temp_material_create_failed" §"failed to create temporary token file" §"check local temporary directory permissions and free space"
  else
    do! emit (TokenFile (mc_temp mc) (TrimSpace token ++ [z2b 10])) in
    let! write := file_fails in let! close := (if (write : bool) then ret false else file_fails) in
    let! chmod := (if (write : bool) || (close : bool) then ret false else file_fails) in
    if (write : bool) then
      do! emit (Removed (mc_temp mc)) in
      broken §"temp_material_write_failed" §"failed to write temporary token file" §"check local temporary directory permissions and free space"
    else if (close : bool) then
      do! emit (Removed (mc_temp mc)) in
      broken §"temp_material_write_failed" §"failed to persist temporary token file" §"check local temporary directory permissions and free space"
    else if (chmod : bool) then
      do! emit (Removed (mc_temp mc)) in
      broken §"temp_material_write_failed" §"failed to secure temporary token file" §"check local temporary directory permissions"
    else done (mc_temp mc).

Definition shellCommand (req : Request) : task bytes :=
  let? tokenPath := prepareLaunchTokenFile (sh_Token (rq_Launch req)) in
  match mc_executable mc with
  | None => broken §"shell_launch_setup_failed" §"failed to resolve connector executable path for shell launch"
              §"restart connector from a local binary path"
  | Some executable => done (shellCommand_text executable tokenPath (mc_hostkey_mode mc) (mc_known_hosts mc) req)
  end.

Definition nl : bytes := [z2b 10].
Definition tab : bytes := [z2b 9].
Definition terminal_script (command : bytes) : bytes :=
  §"tell application " ++ quote ++ §"Terminal" ++ quote ++ nl ++ tab ++ §"activate" ++ nl ++ tab ++
  §"do script " ++ quote ++ escapeAppleScript command ++ quote ++ nl ++ §"end tell".
Definition iterm_script (command : bytes) : bytes :=
  §"tell application " ++ quote ++ §"iTerm" ++ quote ++ nl ++ tab ++ §"activate" ++ nl ++ tab ++
  §"create window with default profile command " ++ quote ++ escapeAppleScript command ++ quote ++ nl ++ §"end tell".
(** Of the output only: the text of an exit is "exit status n". *)
Definition isNonFatalAppleScriptTimeout (output : bytes) : bool :=
  let joined := ToLower (TrimSpace (output ++ §" exit status 1")) in
  Contains joined §"appleevent timed out" || Contains joined §"error -1712".
Definition run_script (script hint message : bytes) : task unit :=
  let! p := spawn [§"osascript"; §"-e"; script] in
  match p with
  | NotStarted _ => broken §"terminal_launch_failed" message hint
  | Ended output true => if isNonFatalAppleScriptTimeout output then done tt else broken §"terminal_launch_failed" message hint
  | _ => done tt
  end.
Definition launchTerminalCommandMacOS (command : bytes) : task unit :=
  run_script (terminal_script command) §"verify osascript permissions and Terminal availability" §"failed to open Terminal.app for launch command".
Definition launchTerminalCommandITerm (command : bytes) : task unit :=
  run_script (iterm_script command) §"verify iTerm2 is installed and osascript permissions are granted" §"failed to open iTerm2 for launch command".

(** The text xfce4-terminal gets, which splits it by GLib's rules. *)
Definition xfce_argument (command : bytes) : bytes := §"bash -lc " ++ quote ++ command ++ quote.
Definition terminal_argv (terminal command : bytes) : list bytes :=
  if bool_decide (terminal = §"gnome-terminal") then [§"gnome-terminal"; §"--"; §"bash"; §"-lc"; command]
  else if bool_decide (terminal = §"xfce4-terminal") then [§"xfce4-terminal"; §"--command"; xfce_argument command]
  else [terminal; §"-e"; §"bash"; §"-lc"; command].
(** A name that [%q] only puts in quotes. *)
Definition launchLinuxTerminalByName (command terminal : bytes) : task unit :=
  match mc_lookpath mc terminal with
  | None => broken §"terminal_not_installed" (§"configured terminal " ++ quote ++ terminal ++ quote ++ §" not found")
              (§"install " ++ terminal ++ §" or change terminal.linux in config")
  | Some _ =>
      let! p := spawn (terminal_argv terminal command) in
      match p with
      | NotStarted _ => broken §"terminal_launch_failed" (§"failed to launch " ++ terminal)
                          (§"verify " ++ terminal ++ §" is working or set terminal.linux to auto")
      | _ => done tt
      end
  end.
Definition linux_terminals : list bytes := [§"x-terminal-emulator"; §"gnome-terminal"; §"konsole"; §"xfce4-terminal"].
Definition terminals_hint : bytes :=
  §"install a supported terminal launcher (x-terminal-emulator, gnome-terminal, konsole, or xfce4-terminal)".
Fixpoint try_terminals (command : bytes) (terminals : list bytes) (found : bool) : task unit :=
  match terminals with
  | [] => broken (if found then §"terminal_launch_failed" else §"terminal_not_installed") §"failed to open terminal" terminals_hint
  | t :: rest =>
      match mc_lookpath mc t with
      | None => try_terminals command rest found
      | Some _ =>
          let! p := spawn (terminal_argv t command) in
          match p with NotStarted _ => try_terminals command rest true | _ => done tt end
      end
  end.
Definition launchTerminalCommandLinux (command : bytes) : task unit := try_terminals command linux_terminals false.
Definition launchTerminalCommandWindows (command : bytes) : task unit :=
  let! p := spawn [§"cmd"; §"/C"; §"start"; []; §"cmd"; §"/K"; command] in
  match p with
  | NotStarted _ | Ended _ true =>
      broken §"terminal_launch_failed" §"failed to open terminal" §"verify cmd.exe is available and terminal launching is permitted"
  | _ => done tt
  end.
Definition unsupported_os {A} (name hint : bytes) : task A := broken §"unsupported_os" (§"unsupported OS: " ++ name) hint.

Definition preference : bytes := ToLower (TrimSpace (mc_terminal mc)).
Definition mac_terminal (command : bytes) : task unit :=
  if bool_decide (preference = §"iterm") then launchTerminalCommandITerm command else launchTerminalCommandMacOS command.
Definition linux_terminal (command : bytes) : task unit :=
  if bool_decide (preference = []) || bool_decide (preference = §"auto") then launchTerminalCommandLinux command
  else launchLinuxTerminalByName command preference.
Definition launchTerminalCommandWithPreference (command : bytes) : task unit :=
  match mc_os mc with
  | Darwin => mac_terminal command
  | Linux => linux_terminal command
  | Windows => launchTerminalCommandWindows command
  | OtherOS name => unsupported_os name §"use darwin/linux/windows for connector launch"
  end.

Definition mapDiscoveryError {A} (err : discovery_error) (notFoundCode message : bytes) : task A :=
  match err with
  | DiscoveryError source _ hint =>
      let code := if blank notFoundCode then §"client_not_installed" else notFoundCode in
      broken (if bool_decide (source = §"env") || bool_decide (source = §"config") then §"invalid_configured_path" else code) message hint
  | OtherError text => broken notFoundCode message text
  end.

(** ** Binaries *)

Definition lookupBinary (candidate : bytes) : option bytes :=
  let t := TrimSpace candidate in
  if bool_decide (t = []) then None
  else if has_byte t "/"%byte || has_byte t "\"%byte then
    match mc_stat mc t with Some false => Some t | _ => None end
  else mc_lookpath mc t.
Definition putty_places : list bytes :=
  [§"putty"; §"putty.exe"; §"C:\Program Files\PuTTY\putty.exe"; §"C:\Program Files (x86)\PuTTY\putty.exe"].
(** The path and whether it was configured. *)
Definition resolveBinaryPath (configured : bytes) (fallbacks : list bytes) : option bytes * bool :=
  if blank configured then (head (omap lookupBinary fallbacks), false) else (lookupBinary (TrimSpace configured), true).
Definition resolvePuTTYPath (configured : bytes) : task bytes :=
  match resolveBinaryPath configured putty_places with
  | (Some path, _) => done path
  | (None, true) => broken §"invalid_configured_path" §"configured PuTTY path is invalid"
                      §"verify ACCESSD_CONNECTOR_PUTTY_PATH points to a valid PuTTY executable"
  | (None, false) => broken §"putty_not_installed" §"failed to open PuTTY for shell launch"
                       §"install PuTTY or set ACCESSD_CONNECTOR_PUTTY_PATH"
  end.

(** ** A shell *)

Definition launchWindows (req : Request) (puttyPath : bytes) : task unit :=
  let? path := resolvePuTTYPath (TrimSpace puttyPath) in
  let l := rq_Launch req in
  let target := proxyUsernameForShell l ++ §"@" ++ sh_ProxyHost l in
  let! p := spawn [path; §"-ssh"; target; §"-P"; Itoa (sh_ProxyPort l); §"-pw"; sh_Token l] in
  match p with
  | NotStarted _ =>
      match sanitizeCommandArgs [path; §"-ssh"; target; §"-P"; Itoa (sh_ProxyPort l)] with
      | None => panic §"runtime error: slice bounds out of range"
      | Some _ => broken §"terminal_launch_failed" §"failed to open PuTTY for shell launch"
                    §"verify ACCESSD_CONNECTOR_PUTTY_PATH or install putty in PATH"
      end
  | _ => done tt
  end.
Definition with_ssh (req : Request) (terminal : bytes → task unit) : task unit :=
  match mc_lookpath mc §"ssh" with
  | None => broken §"ssh_not_installed" §"failed to launch shell because ssh is not installed" §"install OpenSSH client on this machine"
  | Some _ => let? command := shellCommand req in terminal command
  end.
Definition launchMacOS (req : Request) : task unit := with_ssh req mac_terminal.
Definition launchLinux (req : Request) : task unit := with_ssh req linux_terminal.
Definition LaunchShell (req : Request) : task unit :=
  match mc_os mc with
  | Darwin => launchMacOS req
  | Linux => launchLinux req
  | Windows =>
      match mc_resolve mc AppPuTTY with
      | inr err => mapDiscoveryError err §"putty_not_installed" §"failed to open PuTTY for shell launch"
      | inl path => launchWindows req path
      end
  | OtherOS name => ret (inr (PlainError (Errorf (§"unsupported OS: " ++ name))))
  end.

(** ** redis-cli *)

Definition auto_insecure : bytes := ToLower (TrimSpace (mc_getenv mc §"ACCESSD_CONNECTOR_REDIS_TLS_AUTO_INSECURE")).
Definition LaunchRedisCLI (req : RedisRequest) : task unit :=
  match mc_resolve mc AppRedisCLI with
  | inr (DiscoveryError _ text hint) => broken §"redis_cli_not_found" text hint
  | inr (OtherError text) => broken §"redis_cli_not_found" text text
  | inl path =>
      let command := match mc_os mc with
                     | Windows => redisCLICommandWindows auto_insecure req path
                     | _ => redisCLICommand auto_insecure req path
                     end in
      if blank command then broken §"invalid_redis_command" §"failed to build redis-cli command" §"verify redis launch payload fields"
      else launchTerminalCommandWithPreference command
  end.

(** ** DBeaver and Robo 3T *)

Record launchAttemptOptions := AttemptOptions {
  at_Code : bytes; at_MissingCode : bytes; at_BaseErr : bytes; at_Hint : bytes; at_ConfiguredEnv : bytes;
}.
(** The text of an attempt is logged. *)
Definition logged {A} (args : list bytes) (m : task A) : task A :=
  match sanitizeCommandArgs args with Some _ => m | None => panic §"runtime error: slice bounds out of range" end.
(** A bare name that is not in the path. *)
Definition missing (bin : bytes) : bool :=
  let t := TrimSpace bin in
  negb (bool_decide (t = [])) && negb (has_byte t "/"%byte || has_byte t "\"%byte) && bool_decide (mc_lookpath mc t = None).
(** [failed]: there is the text of a failure. *)
Fixpoint first_available (attempts : list (list bytes)) (options : launchAttemptOptions) (failed allMissing : bool) : task unit :=
  match attempts with
  | [] =>
      if negb failed || negb allMissing then broken (at_Code options) (at_BaseErr options) (at_Hint options)
      else if negb (blank (at_ConfiguredEnv options)) && negb (blank (mc_getenv mc (at_ConfiguredEnv options))) then
        broken §"invalid_configured_path" (at_BaseErr options)
          (§"configured launcher path is invalid; verify " ++ at_ConfiguredEnv options)
      else broken (if blank (at_MissingCode options) then §"client_not_installed" else at_MissingCode options)
             (at_BaseErr options) (at_Hint options)
  | args :: rest =>
      let bin := default [] (head args) in
      if negb (bool_decide (bin = §"open")) && negb (bool_decide (bin = §"cmd")) && missing bin
      then logged args (first_available rest options true allMissing)
      else
        let! p := spawn args in
        match p with
        | NotStarted not_found => logged args (first_available rest options true not_found)
        | Ended _ true => logged args (first_available rest options true false)
        | _ => done tt
        end
  end.
Definition launchFirstAvailable (attempts : list (list bytes)) (options : launchAttemptOptions) : task unit :=
  first_available attempts options false true.

(** The binaries of a bundle, the preferred names first. *)
Definition bad_bundle {A} (message hint : bytes) : task A := broken §"invalid_bundle" message hint.
Definition macOSBundleExecutables (bundlePath : bytes) (preferred : list bytes) : task (list bytes) :=
  let t := TrimSpace bundlePath in
  if negb (HasSuffix (ToLower t) §".app") then
    bad_bundle §"configured macOS app path must end with .app" §"set app path to a valid .app bundle"
  else match mc_stat mc t with
  | None => bad_bundle §"configured .app bundle path is invalid" §"verify the configured .app bundle exists"
  | Some false => bad_bundle §"configured .app bundle is not a directory" §"set app path to a valid .app bundle"
  | Some true =>
      let dir := t ++ §"/Contents/MacOS" in
      match mc_stat mc dir with
      | Some true =>
          let at_ name := dir ++ §"/" ++ name in
          let first := filter (λ c, mc_stat mc c = Some false) (map at_ preferred) in
          match mc_readdir mc dir with
          | None => bad_bundle §"failed to inspect .app bundle executables" §"verify local read permissions for the app bundle"
          | Some found =>
              let others := filter (λ c, c ∉ first) (map (λ e, at_ e.1) (List.filter (λ e, negb e.2) found)) in
              if bool_decide (first ++ others = []) then
                bad_bundle §"configured .app bundle has no launchable binary in Contents/MacOS"
                  §"reinstall the app or set path to the executable inside the bundle"
              else done (first ++ others)
          end
      | _ => bad_bundle §"configured .app bundle is missing Contents/MacOS executable directory"
               §"reinstall the app or set path to a valid executable"
      end
  end.

Definition dbeaver_options (on_ hint : bytes) : launchAttemptOptions :=
  AttemptOptions §"dbeaver_launch_failed" §"dbeaver_not_installed" (§"failed to launch DBeaver on " ++ on_) hint
    §"ACCESSD_CONNECTOR_DBEAVER_PATH".
(** Where DBeaver is looked for when no path is configured. *)
Definition dbeaver_places : list bytes :=
  match mc_os mc with
  | Darwin => [§"/Applications/DBeaver.app/Contents/MacOS/dbeaver"; §"/Applications/DBeaver.app/Contents/MacOS/DBeaver";
               §"/Applications/DBeaverCE.app/Contents/MacOS/dbeaver"; §"/Applications/DBeaverCE.app/Contents/MacOS/DBeaver";
               §"dbeaver"]
  | Linux => [§"dbeaver"; §"dbeaver-ce"]
  | _ => [§"dbeaver"; §"dbeaver.exe"; §"C:\Program Files\DBeaver\dbeaver.exe"; §"C:\Program Files (x86)\DBeaver\dbeaver.exe"]
  end.
Definition dbeaver_attempts (spec configuredPath : bytes) : list (list bytes) :=
  map (λ bin, [bin; §"-con"; spec]) (if blank configuredPath then dbeaver_places else [TrimSpace configuredPath]).
Fixpoint logged_all {A} (attempts : list (list bytes)) (m : task A) : task A :=
  match attempts with [] => m | args :: rest => logged (tail args) (logged_all rest m) end.
Definition launchDBeaverMacOS (spec configuredPath : bytes) : task unit :=
  let options := dbeaver_options §"macOS" §"ensure DBeaver is installed or set ACCESSD_CONNECTOR_DBEAVER_PATH to a valid binary path" in
  let? attempts := (if HasSuffix (ToLower (TrimSpace configuredPath)) §".app" then
                      let? paths := macOSBundleExecutables configuredPath [§"dbeaver"; §"DBeaver"] in
                      done (map (λ bin, [bin; §"-con"; spec]) paths)
                    else done (dbeaver_attempts spec configuredPath)) in
  logged_all attempts (launchFirstAvailable attempts options).
Definition launchDBeaverLinux (spec configuredPath : bytes) : task unit :=
  launchFirstAvailable (dbeaver_attempts spec configuredPath)
    (dbeaver_options §"Linux" §"ensure dbeaver or dbeaver-ce is installed, or set ACCESSD_CONNECTOR_DBEAVER_PATH").
Definition launchDBeaverWindows (spec configuredPath : bytes) : task unit :=
  launchFirstAvailable (dbeaver_attempts spec configuredPath)
    (dbeaver_options §"Windows" §"ensure DBeaver is installed or set ACCESSD_CONNECTOR_DBEAVER_PATH").
Definition launchWithSpec (path spec : bytes) : task unit :=
  match mc_os mc with
  | Darwin => launchDBeaverMacOS spec path
  | Linux => launchDBeaverLinux spec path
  | Windows => launchDBeaverWindows spec path
  | OtherOS name => unsupported_os name §"use darwin/linux/windows for connector shell + dbeaver launch"
  end.

Definition robo_argv (bin uri : bytes) : list bytes := [bin; §"--uri"; uri].
Definition robo_open (name uri : bytes) : list bytes := [§"open"; §"-a"; name; §"--args"; §"--uri"; uri].
Definition robo_attempts (uri configuredPath : bytes) : list (list bytes) :=
  let t := TrimSpace configuredPath in
  if negb (bool_decide (t = [])) then
    [match mc_os mc with
     | Darwin => if HasSuffix (ToLower t) §".app" then robo_open t uri else robo_argv t uri
     | _ => robo_argv t uri
     end]
  else match mc_os mc with
  | Darwin => [robo_open §"Robo 3T" uri; robo_open §"Robomongo" uri; robo_argv §"/Applications/Robo 3T.app/Contents/MacOS/robo3t" uri;
               robo_argv §"/Applications/Robomongo.app/Contents/MacOS/robomongo" uri; robo_argv §"robo3t" uri; robo_argv §"robomongo" uri]
  | Linux => [robo_argv §"robo3t" uri; robo_argv §"robomongo" uri]
  | _ => [robo_argv §"robo3t" uri; robo_argv §"robo3t.exe" uri; robo_argv §"robomongo.exe" uri;
          robo_argv §"C:\Program Files\Robo 3T\robo3t.exe" uri; robo_argv §"C:\Program Files\Robomongo\robomongo.exe" uri]
  end.
Definition launchRoboMongo (req : DBeaverRequest) : task unit :=
  let uri := mongoConnectionURI (dr_Launch req) in
  if blank uri then broken §"invalid_mongo_uri" §"failed to build mongo connection uri" §"verify mongo launch host/port/username/password payload"
  else match mc_resolve mc AppRoboMongo with
  | inr err => mapDiscoveryError err §"robomongo_not_installed" §"failed to launch Robo 3T"
  | inl path =>
      let run on_ := launchFirstAvailable (robo_attempts uri path)
        (AttemptOptions §"robomongo_launch_failed" §"robomongo_not_installed" (§"failed to launch Robo 3T on " ++ on_)
           §"ensure Robo 3T is installed or set ACCESSD_CONNECTOR_ROBOMONGO_PATH" §"ACCESSD_CONNECTOR_ROBOMONGO_PATH") in
      match mc_os mc with
      | Darwin => run §"macOS"
      | Linux => run §"Linux"
      | Windows => run §"Windows"
      | OtherOS name => unsupported_os name §"use darwin/linux/windows for connector mongo launch"
      end
  end.

(** The launch with the name of the connection changed when the first failed;
    the directory goes away in the end, or when nothing was launched. *)
Definition LaunchDBeaver (req : DBeaverRequest) : task unit :=
  if isMongoEngine (db_Engine (dr_Launch req)) then launchRoboMongo req
  else
    let spec := dbeaverConnectionSpec req in
    match sanitizeCommandArg spec with
    | None => panic §"runtime error: slice bounds out of range"
    | Some _ =>
        if blank spec then broken §"invalid_dbeaver_spec" §"failed to build dbeaver connection spec" §"verify engine/host/port launch payload"
        else
          let! failed := file_fails in
          if (failed : bool) then
            broken §"temp_material_create_failed" §"failed to create temporary dbeaver launch directory"
              §"check local temporary directory permissions and free space"
          else
            let dir := mc_temp mc in
            let! failed := file_fails in
            if (failed : bool) then
              do! emit (Removed dir) in
              broken §"temp_material_write_failed" §"failed to write dbeaver launch manifest" §"check local filesystem permissions"
            else
              do! emit (Manifest (dir ++ §"/launch_manifest.json") req) in
              match mc_resolve mc AppDBeaver with
              | inr err => do! emit (Removed dir) in mapDiscoveryError err §"dbeaver_not_installed" §"failed to launch DBeaver"
              | inl path =>
                  let! r := launchWithSpec path spec in
                  match r with
                  | inl _ => done tt
                  | inr f =>
                      let repaired := dbeaverConnectionSpecWithNameSuffix req (§"repair-" ++ Itoa (mc_nano mc)) in
                      let! r := (if negb (blank repaired) && negb (bool_decide (repaired = spec))
                                 then launchWithSpec path repaired else ret (inr f)) in
                      match r with
                      | inl _ => done tt
                      | inr _ => do! emit (Removed dir) in ret (inr f)
                      end
                  end
              end
    end.
End Machine.
