(* ===== verification/DesktopSpec.v ===== *)
(** What the programs on the desktop read of the texts of launch.go: the
    commands of the shell, AppleScript's strings, and what is logged. *)
From S2P Require Import Prelude GoStrings GoTexts GoNet GoFormats ShellText Desktop DesktopRun.

(** * Commands of the shell *)

(** A text that adds just these bytes to the word it is in. *)
Definition says (t : bytes) (w : word) : Prop := ∀ r, rd_quoting r = Bare → sh_scan t r = said w r.

Lemma says_plain v : v ≠ [] → forallb plain_shell v = true → says v (literal v).
Proof. intros Hne Hv r Hr. by apply sh_plain. Qed.
Lemma says_app t u v w : says t v → says u w → says (t ++ u) (v ++ w).
Proof. intros Ht Hu r Hr. rewrite sh_scan_app, Ht, Hu by done. by rewrite said_said. Qed.
Lemma ReplaceByte_cons c v b t : ReplaceByte (c :: v) b t = (if bool_decide (c = b) then t else [c]) ++ ReplaceByte v b t.
Proof. reflexivity. Qed.
Lemma escaped_scan v r : rd_quoting r = Single →
  sh_scan (ReplaceByte v "'"%byte (§"'" ++ quote ++ §"'" ++ quote ++ §"'") ++ §"'") r =
  Reading_ Bare (Some (default [] (rd_word r) ++ literal v)) (rd_words r) (rd_commands r).
Proof.
  destruct r as [q w ws cs]. cbn [rd_quoting rd_word rd_words rd_commands]. intros ->. revert w.
  induction v as [|c v IH]; intros w; [by rewrite app_nil_r|].
  rewrite ReplaceByte_cons, <- app_assoc, sh_scan_app. case_bool_decide as Hc.
  - subst c. change (sh_scan (§"'" ++ quote ++ §"'" ++ quote ++ §"'") (Reading_ Single w ws cs))
      with (Reading_ Single (Some (default [] w ++ literal §"'")) ws cs).
    rewrite IH. cbn. by rewrite <- app_assoc.
  - cbn [sh_scan]. unfold sh_step. cbn [rd_quoting]. rewrite bool_decide_false by done. unfold put_byte.
    cbn [rd_word rd_words rd_commands]. rewrite IH. cbn. by rewrite <- app_assoc.
Qed.
Lemma says_escape v : says (shellEscape v) (literal v).
Proof. intros [q w ws cs] Hr. cbn in Hr. subst q. exact (escaped_scan v (Reading_ Single (Some (default [] w)) ws cs) eq_refl). Qed.
Lemma says_Itoa n : 0 <= n → says (Itoa n) (literal (Itoa n)).
Proof.
  intros Hn. destruct (Itoa_digits n Hn) as [Hd Hne]. apply says_plain; [done|].
  revert Hd. apply forallb_mono. intros c Hc. destruct c; first [discriminate Hc|reflexivity].
Qed.

(** Texts between blanks are the words of one command. *)
Lemma last_removelast {A} (l : list A) x : last l = Some x → removelast l ++ [x] = l.
Proof.
  induction l as [|a l IH]; [done|]. destruct l as [|b l]; [by intros [= ->]|].
  intros H. change (a :: (removelast (b :: l) ++ [x]) = a :: b :: l). by rewrite IH.
Qed.
Lemma words_scan ts vs rest ws cs : Forall2 says ts vs → ts ≠ [] → sh_scan (words ts ++ rest) (Reading_ Bare None ws cs) =
  sh_scan rest (Reading_ Bare (last vs) (ws ++ removelast vs) cs).
Proof.
  intros H. revert ws. induction H as [|t v ts vs Ht Hall IH]; intros ws Hne; [done|].
  destruct Hall as [|u w ts vs Hu Hall].
  - change (words [t]) with t. rewrite sh_scan_app, Ht by done. by rewrite app_nil_r.
  - change (words (t :: u :: ts)) with (t ++ §" " ++ words (u :: ts)). rewrite <- !app_assoc, sh_scan_app, Ht by done.
    rewrite sh_scan_app, (sh_space _ v) by done. cbn [rd_words rd_commands said]. rewrite IH by done. by rewrite <- app_assoc.
Qed.
Lemma words_two t u : words [t; u] = t ++ §" " ++ u.
Proof. reflexivity. Qed.
(** A command, then a semicolon and a blank. *)
Lemma words_command ts vs rest cs : Forall2 says ts vs → ts ≠ [] →
  sh_scan (words ts ++ §"; " ++ rest) (Reading_ Bare None [] cs) = sh_scan rest (Reading_ Bare None [] (cs ++ [vs])).
Proof.
  intros H Hne. rewrite words_scan with (vs := vs) by done. rewrite sh_scan_app. destruct (last vs) as [v|] eqn:Hl.
  - rewrite (sh_semicolon _ v) by done. cbn [rd_words rd_commands app]. by apply last_removelast in Hl as ->.
  - apply last_None in Hl. subst. by inversion H.
Qed.
Lemma words_end ts vs cs : Forall2 says ts vs → ts ≠ [] →
  rd_quoting (sh_scan (words ts) (Reading_ Bare None [] cs)) = Bare ∧
  rd_commands (end_command (sh_scan (words ts) (Reading_ Bare None [] cs))) = cs ++ [vs].
Proof.
  intros H Hne. pose proof (words_scan ts vs [] [] cs H Hne) as Hs. rewrite app_nil_r in Hs. rewrite Hs. split; [done|].
  destruct (last vs) as [v|] eqn:Hl; [|apply last_None in Hl; subst; by inversion H].
  cbn. by apply last_removelast in Hl as ->.
Qed.
(** Commands one after the other. *)
Definition sequence (cs : list (list bytes)) : bytes := join §"; " (map words cs).
Lemma sequence_cons ts cs : cs ≠ [] → sequence (ts :: cs) = words ts ++ §"; " ++ sequence cs.
Proof. intros Hne. unfold sequence. cbn [map]. apply join_cons. by destruct cs. Qed.
Lemma says_sequence cs ws : Forall2 (Forall2 says) cs ws → Forall (λ c, c ≠ []) cs → cs ≠ [] → sh_commands (sequence cs) = Some ws.
Proof.
  intros H Hcs Hne. unfold sh_commands, start.
  assert (∀ done_, rd_quoting (sh_scan (sequence cs) (Reading_ Bare None [] done_)) = Bare ∧
                   rd_commands (end_command (sh_scan (sequence cs) (Reading_ Bare None [] done_))) = done_ ++ ws) as Hall.
  { induction H as [|ts vs cs ws Ht Hrest IH]; [done|]. intros done_. apply Forall_cons in Hcs as [Hts Hcs].
    destruct (decide (cs = [])) as [->|Hc].
    - inversion Hrest; subst. by apply words_end.
    - rewrite sequence_cons, words_command with (vs := vs) by done.
      destruct (IH Hcs Hc (done_ ++ [vs])) as [-> ->]. by rewrite <- app_assoc. }
  destruct (Hall []) as [H1 H2]. rewrite H1, H2. by rewrite bool_decide_true.
Qed.

(** ** The launcher's commands *)

(** The arguments of the bridge, but for the asset's name. *)
Definition bridge_words (executable tokenPath hostKeyMode knownHostsPath : bytes) (req : Request) (asset : word) : list word :=
  let l := rq_Launch req in
  map literal [executable; §"bridge-shell"; §"--host"; sh_ProxyHost l; §"--port"; Itoa (sh_ProxyPort l);
    §"--username"; proxyUsernameForShell l; §"--session-id"; TrimSpace (rq_SessionID req); §"--asset-name"] ++ asset ::
  map literal [§"--target-host"; TrimSpace (sh_TargetHost l); §"--upstream-username"; upstreamUsernameForShell l;
    §"--token-file"; tokenPath; §"--hostkey-mode"; hostKeyMode; §"--known-hosts-file"; knownHostsPath].
Definition asset_name (req : Request) : bytes := first_of (sh_TargetAssetName (rq_Launch req)) (rq_AssetName req) [].
Definition bridge_command (executable tokenPath hostKeyMode knownHostsPath : bytes) (req : Request) : list word :=
  bridge_words executable tokenPath hostKeyMode knownHostsPath req (literal (asset_name req)).

#[local] Ltac says_all :=
  repeat (constructor; [first [apply says_escape | apply says_Itoa; lia | by apply says_plain]|]); constructor.

Lemma shellCommand_reads executable tokenPath mode known req : bad_port (sh_ProxyPort (rq_Launch req)) = false →
  sh_commands (shellCommand_text executable tokenPath mode known req) = Some [bridge_command executable tokenPath mode known req].
Proof.
  intros Hp. assert (0 <= sh_ProxyPort (rq_Launch req)) by (unfold bad_port in Hp; gobool; lia).
  unfold shellCommand_text. cbv zeta. match goal with |- sh_commands (words ?ts) = _ => change (words ts) with (sequence [ts]) end.
  apply says_sequence; [|by repeat constructor|done]. constructor; [says_all|constructor].
Qed.

Section Redis.
Context (autoInsecure : bytes) (req : RedisRequest).

(** What the shell does for a redis session. *)
Definition redis_argv (redisCLIPath : bytes) : list bytes :=
  [redisCLIPath; §"-h"; rd_Host (rr_Launch req); §"-p"; Itoa (rd_Port (rr_Launch req))] ++ redis_options autoInsecure req (λ user, user).
Definition redis_commands (redisCLIPath : bytes) : list (list word) :=
  [ map literal [§"echo"; §"AccessD redis session " ++ TrimSpace (rr_SessionID req) ++ §" for " ++ TrimSpace (rr_AssetName req)];
    map literal [§"export"; §"REDISCLI_AUTH=" ++ rd_Password (rr_Launch req)];
    map literal (redis_argv redisCLIPath);
    [literal §"exit_code=" ++ [("$"%byte, true); ("?"%byte, true)]];
    map literal [§"unset"; §"REDISCLI_AUTH"];
    map literal [§"echo"];
    map literal [§"echo"; §"redis-cli exited with code ${exit_code}; close this terminal when done."];
    map literal [§"exec"; §"bash"] ].

Lemma options_read : Forall2 says (redis_options autoInsecure req shellEscape)
  (map literal (redis_options autoInsecure req (λ user, user))).
Proof.
  unfold redis_options. rewrite !map_app. repeat apply Forall2_app.
  - destruct (0 <? _) eqn:E; says_all.
  - destruct (blank _); says_all.
  - destruct (rd_TLS _); [|constructor]. destruct (redisCLIShouldUseInsecureTLS _ _); says_all.
Qed.
Lemma redisCLICommand_reads redisCLIPath : bad_port (rd_Port (rr_Launch req)) = false →
  sh_commands (redisCLICommand autoInsecure req redisCLIPath) = Some (redis_commands redisCLIPath).
Proof.
  intros Hp. assert (0 <= rd_Port (rr_Launch req)) by (unfold bad_port in Hp; gobool; lia).
  set (title := §"AccessD redis session " ++ TrimSpace (rr_SessionID req) ++ §" for " ++ TrimSpace (rr_AssetName req)).
  set (message := §"redis-cli exited with code ${exit_code}; close this terminal when done.").
  assert (E : redisCLICommand autoInsecure req redisCLIPath = sequence
    [ [§"echo"; shellEscape title]; [§"export"; §"REDISCLI_AUTH=" ++ shellEscape (rd_Password (rr_Launch req))];
      [shellEscape redisCLIPath; §"-h"; shellEscape (rd_Host (rr_Launch req)); §"-p"; Itoa (rd_Port (rr_Launch req))] ++
        redis_options autoInsecure req shellEscape;
      [§"exit_code=$?"]; [§"unset"; §"REDISCLI_AUTH"]; [§"echo"]; [§"echo"; shellEscape message]; [§"exec"; §"bash"] ]).
  { rewrite !sequence_cons by done. unfold sequence, redisCLICommand. cbv zeta. cbn [map join].
    fold title. fold message. rewrite !(words_two (_ : bytes)), <- !app_assoc. reflexivity. }
  rewrite E. apply says_sequence; [|by repeat constructor|done].
  assert (Hauth : says (§"REDISCLI_AUTH=" ++ shellEscape (rd_Password (rr_Launch req)))
    (literal (§"REDISCLI_AUTH=" ++ rd_Password (rr_Launch req)))).
  { rewrite literal_app. apply says_app; [by apply says_plain|apply says_escape]. }
  assert (Hcode : says §"exit_code=$?" (literal §"exit_code=" ++ [("$"%byte, true); ("?"%byte, true)])).
  { apply (says_app §"exit_code=" §"$?"); [by apply says_plain|]. intros [q w ws cs] Hq. cbn in Hq. subst q.
    change (sh_scan §"$?" (Reading_ Bare w ws cs)) with (put_byte Bare "?"%byte true (put_byte Bare "$"%byte true (Reading_ Bare w ws cs))).
    unfold put_byte, said. cbn. by rewrite <- app_assoc. }
  constructor; [says_all|]. constructor; [constructor; [by apply says_plain|by repeat constructor]|].
  constructor; [unfold redis_argv; rewrite map_app; apply Forall2_app; [says_all|apply options_read]|].
  constructor; [by repeat constructor|]. repeat (constructor; [says_all|]). constructor.
Qed.
End Redis.
