(* ===== verification/DesktopClaims.v ===== *)
(** What the launched programs do with what the connector hands them: for
    every request, only the command that was meant, except through
    xfce4-terminal and cmd.exe; and what of a password is logged. *)
From S2P Require Import Prelude GoStrings GoTexts GoUtf16 GoNet GoFormats ShellText Desktop DesktopRun DesktopSpec.

(** The text a shell gets from the program started with these arguments. *)
Definition shell_text (argv : list bytes) : option bytes :=
  match argv with
  | [program; flag; text] =>
      if bool_decide (program = §"osascript") && bool_decide (flag = §"-e") then last (applescript_strings text)
      else if bool_decide (program = §"xfce4-terminal") && bool_decide (flag = §"--command") then
        match glib_argv text with
        | Some [shell; option; command] => if bool_decide (shell = §"bash") && bool_decide (option = §"-lc") then Some command else None
        | _ => None
        end
      else None
  | _ =>
      match rev argv with
      | command :: option :: shell :: _ => if bool_decide (shell = §"bash") && bool_decide (option = §"-lc") then Some command else None
      | _ => None
      end
  end.

Lemma applescript_inside v t rest : applescript_scan (escapeAppleScript v ++ quote ++ rest) (Some t) false =
  (t ++ v) :: applescript_scan rest None false.
Proof.
  revert t. unfold escapeAppleScript. induction v as [|c v IH]; intros t; [cbn; by rewrite app_nil_r|].
  rewrite ReplaceByte_cons. case_bool_decide as Hc.
  - subst c. change (§"\\" ++ ReplaceByte v "\"%byte §"\\") with ("\"%byte :: "\"%byte :: ReplaceByte v "\"%byte §"\\").
    rewrite !ReplaceByte_cons, !bool_decide_false by done. cbn [app]. cbn [applescript_scan].
    rewrite bool_decide_false, bool_decide_true by done. rewrite IH. by rewrite <- app_assoc.
  - change ([c] ++ ReplaceByte v "\"%byte §"\\") with (c :: ReplaceByte v "\"%byte §"\\"). rewrite ReplaceByte_cons. case_bool_decide as Hq.
    + subst c. rewrite <- app_assoc. change ((§"\" ++ quote) ++ ?x) with ("\"%byte :: z2b 34 :: x). cbn [applescript_scan].
      rewrite bool_decide_false, bool_decide_true by done. rewrite IH. by rewrite <- app_assoc.
    + cbn [app applescript_scan]. rewrite !bool_decide_false by done. rewrite IH. by rewrite <- app_assoc.
Qed.

(** * The processes of a run *)

Section Starts.
Context (P : list bytes → Prop).
(** All that is started satisfies [P]. *)
Definition starts (d d' : desk) : Prop :=
  ∃ new, dk_effects d' = dk_effects d ++ new ∧ ∀ argv, Spawned argv ∈ new → P argv.
#[global] Instance starts_preorder : PreOrder starts.
Proof.
  split; [intros d; exists []; rewrite app_nil_r; set_solver|].
  intros a b c (n & E & Hn) (n' & E' & Hn'). exists (n ++ n'). rewrite E', E, app_assoc. split; [done|]. set_solver.
Qed.
Lemma starts_emit e : (∀ argv, e ≠ Spawned argv) → keeps starts (emit e).
Proof. intros He. apply keeps_modify. intros d. exists [e]. set_solver. Qed.
Lemma starts_spawn argv : P argv → keeps starts (spawn argv).
Proof.
  intros HP d. unfold spawn. cbn [snd]. unfold starts. cbn [dk_effects].
  destruct (default Running _); eexists; (split; [reflexivity|]); set_solver.
Qed.
Lemma starts_file : keeps starts file_fails.
Proof. intros d. exists []. cbn. rewrite app_nil_r. set_solver. Qed.
Lemma starts_bind {A B} (m : M desk A) (k : A → M desk B) : keeps starts m → (∀ a, keeps starts (k a)) → keeps starts (bind m k).
Proof. by apply keeps_bind, _. Qed.
Lemma starts_ret {A} (a : A) : keeps starts (ret a).
Proof. by apply keeps_ret, _. Qed.
Lemma starts_panic {A} why : keeps starts (panic (A:=A) why).
Proof. by apply keeps_panic, _. Qed.
Lemma starts_then {A B} (m : task A) (k : A → task B) : keeps starts m → (∀ a, keeps starts (k a)) → keeps starts (then_ m k).
Proof. intros Hm Hk. apply starts_bind; [done|]. intros [a|f]; [apply Hk|apply starts_ret]. Qed.
(** What follows a result only needs to be good for the results there are. *)
Lemma starts_then_result {A B} (Q : A → Prop) (m : task A) (k : A → task B) :
  keeps starts m → (∀ d a d', m d = (Ok (inl a), d') → Q a) → (∀ a, Q a → keeps starts (k a)) → keeps starts (then_ m k).
Proof.
  intros Hm HQ Hk d. pose proof (Hm d) as H1. specialize (HQ d). unfold then_, bind. destruct (m d) as [[[a|f]| | |] d']; try exact H1.
  etrans; [exact H1|]. by eapply Hk, HQ.
Qed.
Lemma starts_done {A} (a : A) : keeps starts (done a).
Proof. apply starts_ret. Qed.
Lemma starts_broken {A} code message hint : keeps starts (broken (A:=A) code message hint).
Proof. apply starts_ret. Qed.
End Starts.
Ltac starting :=
  repeat first
    [ progress cbv beta zeta
    | apply starts_ret | apply starts_done | apply starts_broken | apply starts_file | apply starts_then | apply starts_bind
    | apply starts_emit; intros ?; discriminate | apply starts_spawn | apply starts_panic
    | match goal with |- keeps _ (if ?b then _ else _) => destruct b end
    | match goal with |- keeps _ (match ?x with _ => _ end) => destruct x end
    | match goal with |- ∀ _, _ => intros ? end ].

(** ** Terminals *)

Section Machine.
Context `{Unicode} (mc : machine).

(** It is xfce4-terminal, or a shell gets the command. *)
Definition opens (command : bytes) (argv : list bytes) : Prop :=
  head argv = Some §"xfce4-terminal" ∨ shell_text argv = Some command.

Lemma terminal_opens terminal command : opens command (terminal_argv terminal command).
Proof.
  unfold terminal_argv. case_bool_decide; [by right|]. case_bool_decide; [by left|]. by right.
Qed.
Lemma script_opens script before after command : script = before ++ escapeAppleScript command ++ quote ++ after →
  applescript_strings after = [] → (∃ strings, ∀ rest, applescript_scan (before ++ rest) None false = strings ++ applescript_scan rest (Some []) false) →
  opens command [§"osascript"; §"-e"; script].
Proof.
  intros -> Ha [strings Hb]. right. unfold shell_text. rewrite !bool_decide_true by done. cbn [andb]. unfold applescript_strings in *.
  rewrite Hb, applescript_inside, Ha. by rewrite last_snoc.
Qed.
Lemma mac_opens command : keeps (starts (opens command)) (mac_terminal mc command).
Proof.
  unfold mac_terminal, launchTerminalCommandITerm, launchTerminalCommandMacOS, run_script. case_bool_decide.
  all: apply starts_bind; [apply starts_spawn|intros p; starting].
  - eapply script_opens with (before := §"tell application " ++ quote ++ §"iTerm" ++ quote ++ nl ++ tab ++ §"activate" ++ nl ++ tab ++
      §"create window with default profile command " ++ quote) (after := nl ++ §"end tell"); [|done|].
    + unfold iterm_script. by rewrite <- !app_assoc.
    + by eexists [_].
  - eapply script_opens with (before := §"tell application " ++ quote ++ §"Terminal" ++ quote ++ nl ++ tab ++ §"activate" ++ nl ++ tab ++
      §"do script " ++ quote) (after := nl ++ §"end tell"); [|done|].
    + unfold terminal_script. by rewrite <- !app_assoc.
    + by eexists [_].
Qed.
Lemma try_terminals_opens command terminals found : keeps (starts (opens command)) (try_terminals mc command terminals found).
Proof.
  revert found. induction terminals as [|t rest IH]; intros found; cbn [try_terminals]; [starting|].
  destruct (mc_lookpath mc t); [|apply IH]. apply starts_bind; [apply starts_spawn, terminal_opens|]. intros p. destruct p; starting. apply IH.
Qed.
Lemma linux_opens command : keeps (starts (opens command)) (linux_terminal mc command).
Proof.
  unfold linux_terminal, launchTerminalCommandLinux, launchLinuxTerminalByName.
  destruct (_ || _); [apply try_terminals_opens|]. destruct (mc_lookpath _ _); [|starting].
  apply starts_bind; [apply starts_spawn, terminal_opens|]. intros p. starting.
Qed.

Lemma token_file_path token d path d' : prepareLaunchTokenFile mc token d = (Ok (inl path), d') → path = mc_temp mc.
Proof.
  unfold prepareLaunchTokenFile, done, broken, file_fails, emit. msimp. cbn.
  repeat case_match; intros; simplify_eq; done.
Qed.
Lemma token_file_starts P token : keeps (starts P) (prepareLaunchTokenFile mc token).
Proof. unfold prepareLaunchTokenFile. starting. Qed.
Lemma shellCommand_starts P req : keeps (starts P) (shellCommand mc req).
Proof. unfold shellCommand. apply starts_then; [apply token_file_starts|]. intros. starting. Qed.
Lemma shellCommand_text_is req d command d' : shellCommand mc req d = (Ok (inl command), d') →
  ∃ executable, mc_executable mc = Some executable ∧
    command = shellCommand_text executable (mc_temp mc) (mc_hostkey_mode mc) (mc_known_hosts mc) req.
Proof.
  unfold shellCommand, then_, bind. destruct (prepareLaunchTokenFile mc _ d) as [[[path|f]| | |] d1] eqn:E; [|by intros [=]..].
  apply token_file_path in E as ->. destruct (mc_executable mc) as [e|]; [|by intros [=]]. intros [= <- _]. by exists e.
Qed.
(** A process the connector starts for a shell hands the shell this command. *)
Definition opens_bridge (req : Request) (argv : list bytes) : Prop :=
  head argv = Some §"xfce4-terminal" ∨
  ∃ executable command, mc_executable mc = Some executable ∧ shell_text argv = Some command ∧
    sh_commands command = Some [bridge_command executable (mc_temp mc) (mc_hostkey_mode mc) (mc_known_hosts mc) req].
Lemma with_ssh_opens req (terminal : bytes → task unit) : bad_port (sh_ProxyPort (rq_Launch req)) = false →
  (∀ command, keeps (starts (opens command)) (terminal command)) → keeps (starts (opens_bridge req)) (with_ssh mc req terminal).
Proof.
  intros Hp Ht. unfold with_ssh. destruct (mc_lookpath mc _); [|starting].
  eapply starts_then_result; [apply shellCommand_starts|intros d a d' Hr; exact (shellCommand_text_is _ _ _ _ Hr)|].
  intros command (executable & He & ->) d. destruct (Ht (shellCommand_text executable (mc_temp mc) (mc_hostkey_mode mc) (mc_known_hosts mc) req) d)
    as (new & E & Hnew). exists new. split; [done|]. intros argv [Hx|Hs]%Hnew; [by left|right].
  eexists _, _. repeat split; [done..|]. by apply shellCommand_reads.
Qed.
End Machine.

(** ** Through xfce4-terminal *)

(** No quote and no backslash. *)
Definition calm (v : bytes) : bool := forallb (λ c, negb (bool_decide (c ∈ ["'"%byte; dquote; backslash]))) v.
(** Nothing that ends a word or is quoted or expanded. *)
Definition tame (v : bytes) : bool :=
  forallb (λ c, negb (bool_decide (c ∈ ["'"%byte; dquote; backslash; newline; "$"%byte; "`"%byte]) || is_blank c)) v.

Lemma tame_calm v : tame v = true → calm v = true.
Proof. apply forallb_mono. intros c Hc. rewrite negb_true_iff, orb_false_iff, !bool_decide_eq_false in *. set_solver. Qed.
Lemma calm_app u v : calm (u ++ v) = calm u && calm v.
Proof. apply forallb_app. Qed.
Definition undoubled (v : bytes) : bool := forallb (λ c, negb (bool_decide (c ∈ [dquote; backslash]))) v.
Lemma undoubled_app u v : undoubled (u ++ v) = undoubled u && undoubled v.
Proof. apply forallb_app. Qed.
Lemma calm_escape v : calm v = true → undoubled (shellEscape v) = true.
Proof.
  intros Hv. assert (E : ReplaceByte v "'"%byte (§"'" ++ quote ++ §"'" ++ quote ++ §"'") = v).
  { revert Hv. induction v as [|c v IH]; [done|]. intros [Hc Hv]%andb_true_iff. rewrite ReplaceByte_cons, IH by done.
    apply negb_true_iff, bool_decide_eq_false in Hc. by rewrite bool_decide_false by (intros ->; set_solver). }
  unfold shellEscape. rewrite E, !undoubled_app. apply andb_true_iff. split; [done|]. rewrite andb_true_r.
  revert Hv. apply forallb_mono. intros c Hc. rewrite negb_true_iff, bool_decide_eq_false in *. set_solver.
Qed.
Lemma words_app ts us : ts ≠ [] → us ≠ [] → words (ts ++ us) = words ts ++ §" " ++ words us.
Proof.
  intros Hts Hus. induction ts as [|t ts IH]; [done|]. destruct ts as [|u ts].
  - unfold words. cbn [app]. by rewrite join_cons.
  - change (words ((t :: u :: ts) ++ us)) with (t ++ §" " ++ words ((u :: ts) ++ us)).
    change (words (t :: u :: ts)) with (t ++ §" " ++ words (u :: ts)). rewrite IH by done. by rewrite <- !app_assoc.
Qed.
Lemma undoubled_words ts : Forall (λ t, undoubled t = true) ts → undoubled (words ts) = true.
Proof.
  induction 1 as [|t ts Ht Hts IH]; [done|]. destruct ts as [|u ts]; [done|].
  change (words (t :: u :: ts)) with (t ++ §" " ++ words (u :: ts)). by rewrite !undoubled_app, Ht, IH.
Qed.

(** The name that closes xfce4-terminal's quotes. *)
Definition spliced (p : bytes) : bytes := §"'$(" ++ p ++ §")'".
(** What xfce4-terminal makes of it. *)
Definition unquoted (p : bytes) : bytes := §"''" ++ quote ++ §"$(" ++ p ++ §")" ++ quote ++ §"''".

Lemma glib_bare v w ws cs : tame v = true →
  glib_scan v (Reading_ Bare (Some w) ws cs) = Reading_ Bare (Some (w ++ literal v)) ws cs.
Proof.
  revert w. induction v as [|c v IH]; intros w; [by rewrite app_nil_r|]. intros [Hc Hv]%andb_true_iff.
  apply negb_true_iff, orb_false_iff in Hc as [Hc Hb]. apply bool_decide_eq_false in Hc. cbn [glib_scan]. unfold glib_step. cbn [rd_quoting].
  rewrite Hb, !bool_decide_false by (intros ->; apply Hc; set_solver). cbn [orb]. unfold put_byte. cbn [rd_word rd_words rd_commands default].
  rewrite IH by done. by rewrite <- app_assoc.
Qed.
Lemma escape_spliced p : tame p = true → shellEscape (spliced p) =
  §"''" ++ quote ++ §"'" ++ quote ++ §"'$(" ++ p ++ §")'" ++ quote ++ §"'" ++ quote ++ §"''".
Proof.
  intros Hp. unfold shellEscape, spliced.
  assert (E : ∀ rest, ReplaceByte (p ++ rest) "'"%byte (§"'" ++ quote ++ §"'" ++ quote ++ §"'") =
    p ++ ReplaceByte rest "'"%byte (§"'" ++ quote ++ §"'" ++ quote ++ §"'")).
  { intros rest. revert Hp. induction p as [|c p IH]; [done|]. intros [Hc Hp]%andb_true_iff. cbn [app]. rewrite ReplaceByte_cons, IH by done.
    apply negb_true_iff, orb_false_iff in Hc as [Hc _]. apply bool_decide_eq_false in Hc. by rewrite bool_decide_false by (intros ->; set_solver). }
  change (§"'$(" ++ p ++ §")'") with ("'"%byte :: "$"%byte :: "("%byte :: p ++ §")'"). rewrite !ReplaceByte_cons, E.
  rewrite bool_decide_true, !bool_decide_false by done. cbn. by rewrite <- !app_assoc.
Qed.
Lemma shell_text_xfce text : shell_text [§"xfce4-terminal"; §"--command"; text] =
  match glib_argv text with
  | Some [shell; option; command] => if bool_decide (shell = §"bash") && bool_decide (option = §"-lc") then Some command else None
  | _ => None
  end.
Proof. reflexivity. Qed.
Lemma xfce_splices before after p : undoubled before = true → undoubled after = true → tame p = true →
  shell_text [§"xfce4-terminal"; §"--command"; xfce_argument (before ++ shellEscape (spliced p) ++ after)] =
  Some (before ++ unquoted p ++ after).
Proof.
  intros Hb Ha Hp. rewrite shell_text_xfce. unfold xfce_argument, glib_argv. rewrite escape_spliced by done.
  rewrite !glib_scan_app. change (glib_scan quote (glib_scan §"bash -lc " start)) with (Reading_ Double (Some []) [literal §"bash"; literal §"-lc"] []).
  rewrite glib_double by done. cbn [app].
  change (glib_scan §"'$(" (glib_scan quote (glib_scan §"'" (glib_scan quote (glib_scan §"''" (Reading_ Double (Some (literal before)) ?ws []))))))
    with (Reading_ Bare (Some (((((literal before ++ literal §"'") ++ literal §"'") ++ literal quote) ++ literal §"$") ++ literal §"(")) ws []).
  rewrite glib_bare by done.
  change (glib_scan §"''" (glib_scan quote (glib_scan §"'" (glib_scan quote (glib_scan §")'" (Reading_ Bare (Some ?w) ?ws []))))))
    with (Reading_ Double (Some ((((w ++ literal §")") ++ literal quote) ++ literal §"'") ++ literal §"'")) ws []).
  rewrite glib_double by done. rewrite <- !app_assoc, <- !literal_app.
  change (glib_scan quote (Reading_ Double (Some ?w) ?ws [])) with (Reading_ Bare (Some w) ws []).
  cbn [rd_quoting]. rewrite bool_decide_true by done. cbn [end_word rd_word rd_words app map].
  rewrite !(bool_decide_true (map fst (literal _) = _)) by done. cbn [andb]. f_equal. unfold literal. rewrite map_map. cbn [fst]. rewrite map_id.
  unfold unquoted. rewrite <- !app_assoc. reflexivity.
Qed.
Lemma says_unquoted p : tame p = true → says (unquoted p) (("$"%byte, true) :: literal (§"(" ++ p ++ §")")).
Proof.
  intros Hp [q w ws cs] Hq. cbn in Hq. subst q. unfold unquoted. rewrite !sh_scan_app.
  change (sh_scan §"$(" (sh_scan quote (sh_scan §"''" (Reading_ Bare w ws cs))))
    with (Reading_ Double (Some ((default [] w ++ [("$"%byte, true)]) ++ literal §"(")) ws cs).
  assert (E : ∀ w, sh_scan p (Reading_ Double (Some w) ws cs) = Reading_ Double (Some (w ++ literal p)) ws cs).
  { clear w. induction p as [|c p IH]; intros w; [by rewrite app_nil_r|]. apply andb_true_iff in Hp as [Hc Hp].
    apply negb_true_iff, orb_false_iff in Hc as [Hc _]. apply bool_decide_eq_false in Hc. cbn [sh_scan]. unfold sh_step. cbn [rd_quoting].
    rewrite !(bool_decide_false (c = _)) by (intros ->; set_solver).
    assert (expands c = false) as -> by (apply bool_decide_eq_false; set_solver).
    unfold put_byte. cbn [rd_word rd_words rd_commands default]. rewrite IH by done. by rewrite <- app_assoc. }
  rewrite E. change (sh_scan §"''" (sh_scan quote (sh_scan §")" (Reading_ Double (Some ?w) ws cs))))
    with (Reading_ Bare (Some (w ++ literal §")")) ws cs).
  unfold said. cbn [rd_word rd_words rd_commands]. rewrite !literal_app, <- !app_assoc. reflexivity.
Qed.

Lemma blank_visible b s : visible b = true → b ∈ s → blank s = false.
Proof. intros Hb Hin. apply bool_decide_eq_false. intros E. apply (TrimSpace_keeps b) in Hin; [|done]. rewrite E in Hin. set_solver. Qed.

(** * Claims *)

Section Claims.
Context `{Unicode} (mc : machine).

(** C7.  A shell launch on macOS or Linux starts nothing but a terminal, which is
    given a text the shell reads as exactly one command: the connector itself as
    the bridge, with the fields of the request as its arguments byte for byte,
    whatever quotes, dollars, semicolons or newlines they contain, through the
    shell's and AppleScript's quoting both.  The exception is xfce4-terminal. *)
Theorem launched_shells_run_only_the_bridge req now d d' r : mc_os mc = Darwin ∨ mc_os mc = Linux →
  Validate req now = None → LaunchShell mc req d = (r, d') →
  ∃ new, dk_effects d' = dk_effects d ++ new ∧ ∀ argv, Spawned argv ∈ new → opens_bridge mc req argv.
Proof.
  intros Hos Hv Hr.
  assert (Hp : bad_port (sh_ProxyPort (rq_Launch req)) = false) by (revert Hv; unfold Validate; repeat case_match; done).
  change (starts (opens_bridge mc req) d d'). replace d' with (LaunchShell mc req d).2 by by rewrite Hr.
  unfold LaunchShell. destruct Hos as [-> | ->]; apply with_ssh_opens; auto using mac_opens, linux_opens.
Qed.

(**  A redis session off Windows starts only terminals whose shell reads
    the eight commands meant: the password is exported to redis-cli and unset
    again, the client gets the address and the options of the request byte for
    byte, and the only byte the shell expands is the [$] of [exit_code=$?]; the
    message after it, in single quotes, shows [${exit_code}] as it stands. *)
Theorem redis_terminals_run_the_eight_commands req now d d' r : mc_os mc ≠ Windows →
  ValidateRedis req now = None → LaunchRedisCLI mc req d = (r, d') →
  ∃ new, dk_effects d' = dk_effects d ++ new ∧ ∀ argv, Spawned argv ∈ new →
    head argv = Some §"xfce4-terminal" ∨
    ∃ path command, mc_resolve mc AppRedisCLI = inl path ∧ shell_text argv = Some command ∧
      sh_commands command = Some (redis_commands (auto_insecure mc) req path).
Proof.
  intros Hos Hv Hr.
  assert (Hp : bad_port (rd_Port (rr_Launch req)) = false) by (revert Hv; unfold ValidateRedis; repeat case_match; done).
  assert (Hc : ∀ path, mc_resolve mc AppRedisCLI = inl path →
    keeps (starts (opens (redisCLICommand (auto_insecure mc) req path))) (LaunchRedisCLI mc req)).
  { intros path Hpath. unfold LaunchRedisCLI, launchTerminalCommandWithPreference. rewrite Hpath.
    destruct (mc_os mc); try done; destruct (blank _); auto using mac_opens, linux_opens; unfold unsupported_os; starting. }
  destruct (mc_resolve mc AppRedisCLI) as [path|err] eqn:Hpath.
  - destruct (Hc path eq_refl d) as (new & E & Hnew). rewrite Hr in E. exists new. split; [done|]. intros argv [Hx|Hs]%Hnew; [by left|right].
    exists path. eexists. repeat split; [done|]. by apply redisCLICommand_reads.
  - exists []. rewrite app_nil_r. split; [|set_solver]. revert Hr. unfold LaunchRedisCLI. rewrite Hpath. by destruct err; intros [= _ <-].
Qed.
(**  Through xfce4-terminal the shell runs what an asset is named.  The
    command is put in double quotes that GLib takes off again; a single quote
    in a name is written with double quotes, which end them early.  An asset
    named ['$(p)'] becomes a command substitution of [p]: the [$] reaches the
    shell as one it expands, whatever the other fields are that hold no quotes
    and no backslash. *)
Theorem xfce_terminals_expand_asset_names executable tokenPath mode known req p :
  bad_port (sh_ProxyPort (rq_Launch req)) = false → tame p = true → asset_name req = spliced p →
  Forall (λ v, calm v = true) [executable; tokenPath; mode; known; sh_ProxyHost (rq_Launch req); proxyUsernameForShell (rq_Launch req);
    TrimSpace (rq_SessionID req); TrimSpace (sh_TargetHost (rq_Launch req)); upstreamUsernameForShell (rq_Launch req)] →
  ∃ command,
    shell_text (terminal_argv §"xfce4-terminal" (shellCommand_text executable tokenPath mode known req)) = Some command ∧
    sh_commands command = Some [bridge_words executable tokenPath mode known req
                                  (("$"%byte, true) :: literal (§"(" ++ p ++ §")"))].
Proof.
  intros Hp Htame Hname Hcalm. assert (0 <= sh_ProxyPort (rq_Launch req)) as Hport by (unfold bad_port in Hp; gobool; lia).
  repeat (apply Forall_cons in Hcalm as [? Hcalm]). set (l := rq_Launch req) in *.
  set (before := [shellEscape executable; §"bridge-shell"; §"--host"; shellEscape (sh_ProxyHost l); §"--port"; Itoa (sh_ProxyPort l);
    §"--username"; shellEscape (proxyUsernameForShell l); §"--session-id"; shellEscape (TrimSpace (rq_SessionID req)); §"--asset-name"]).
  set (after := [§"--target-host"; shellEscape (TrimSpace (sh_TargetHost l)); §"--upstream-username"; shellEscape (upstreamUsernameForShell l);
    §"--token-file"; shellEscape tokenPath; §"--hostkey-mode"; shellEscape mode; §"--known-hosts-file"; shellEscape known]).
  assert (Hdigits : undoubled (Itoa (sh_ProxyPort l)) = true).
  { destruct (Itoa_digits _ Hport) as [Hd _]. revert Hd. apply forallb_mono. intros c Hc. destruct c; first [discriminate Hc|reflexivity]. }
  assert (E : ∀ name, words (before ++ name :: after) = (words before ++ §" ") ++ name ++ §" " ++ words after).
  { intros name. rewrite (words_app before) by done. change (words (name :: after)) with (name ++ §" " ++ words after). by rewrite <- !app_assoc. }
  assert (Et : shellCommand_text executable tokenPath mode known req = (words before ++ §" ") ++ shellEscape (spliced p) ++ §" " ++ words after).
  { rewrite <- E, <- Hname. reflexivity. }
  exists (words (before ++ unquoted p :: after)). rewrite Et, E. split.
  - apply xfce_splices; [| |done]; rewrite undoubled_app.
    + rewrite undoubled_words; [done|]. subst before. repeat (constructor; [first [by apply calm_escape|exact Hdigits|done]|]). constructor.
    + rewrite undoubled_words; [done|]. subst after. repeat (constructor; [first [by apply calm_escape|done]|]). constructor.
  - rewrite <- E. change (words ?ts) with (sequence [ts]). apply says_sequence; [|by repeat constructor|done]. constructor; [|constructor].
    unfold bridge_words. apply Forall2_app; [|constructor; [by apply says_unquoted|]].
    all: repeat (constructor; [first [apply says_escape | by apply says_Itoa | by apply says_plain]|]); constructor.
Qed.

(** C17.  On Windows the command line of a redis session is not quoted: an asset
    named [a&p&b] makes cmd.exe run [p], for every [p] without the bytes
    cmd.exe treats specially, on the desktop of whoever launches the session. *)
Theorem windows_redis_sessions_run_asset_names req name program rest path d : mc_os mc = Windows →
  mc_resolve mc AppRedisCLI = inl path → dk_processes d = [] →
  rr_AssetName req = name ++ §"&" ++ program ++ §"&" ++ rest →
  forallb plain_cmd (rr_SessionID req) = true → forallb plain_cmd name = true → forallb plain_cmd program = true →
  ∃ command, LaunchRedisCLI mc req d =
      (Ok (inl tt), Desk (dk_effects d ++ [Spawned [§"cmd"; §"/C"; §"start"; []; §"cmd"; §"/K"; command]]) [] (dk_faults d)) ∧
    program ∈ cmd_commands command.
Proof.
  intros Hos Hpath Hd Hname Hsid Hn Hprog. exists (redisCLICommandWindows (auto_insecure mc) req path). split.
  - unfold LaunchRedisCLI. rewrite Hpath, Hos. rewrite (blank_visible "e"%byte) by (done || left).
    unfold launchTerminalCommandWithPreference. rewrite Hos. unfold launchTerminalCommandWindows, spawn, bind, done. by rewrite Hd.
  - unfold redisCLICommandWindows, cmd_commands. rewrite Hname, <- !app_assoc.
    rewrite cmd_plain by done. rewrite cmd_plain by done. rewrite cmd_plain by done. rewrite cmd_plain by done.
    change (cmd_scan (§"&" ++ ?s) false false ?cur) with (cur :: cmd_scan s false false []). rewrite cmd_plain by done.
    change (cmd_scan (§"&" ++ ?s) false false ?cur) with (cur :: cmd_scan s false false []). right. left.
Qed.
End Claims.
