(* ===== verification/DesktopLogs.v ===== *)
(** What the connector logs of a command that holds a password. *)
From S2P Require Import Prelude GoStrings GoTexts GoUtf16 GoNet GoFormats Desktop.

(** A byte of ASCII has its lower case whatever follows. *)
Class LowersAscii `{Unicode} := lower_first : ∀ b s, is_ascii b = true → uni_lower (b :: s) = lower_byte b :: ToLower s.

(** ** Texts *)

Lemma SplitByte_nonempty s b : SplitByte s b ≠ [].
Proof. destruct s as [|c s]; [done|]. cbn. case_bool_decide; [done|]. by destruct (SplitByte s b). Qed.
Lemma SplitByte_between s b t : SplitByte (s ++ b :: t) b = SplitByte s b ++ SplitByte t b.
Proof.
  induction s as [|c s IH]; [cbn; by rewrite bool_decide_true|]. cbn [app SplitByte]. case_bool_decide; [by rewrite IH|].
  rewrite IH. pose proof (SplitByte_nonempty s b). by destruct (SplitByte s b).
Qed.
Lemma SplitByte_joined b l : l ≠ [] → SplitByte (join [b] l) b = concat (map (λ s, SplitByte s b) l).
Proof.
  induction l as [|s l IH]; [done|]. intros _. destruct (decide (l = [])) as [->|Hne]; [cbn; by rewrite app_nil_r|].
  rewrite join_cons by done. cbn [app]. rewrite SplitByte_between, IH by done. done.
Qed.
Lemma join_app sep l k : l ≠ [] → k ≠ [] → join sep (l ++ k) = join sep l ++ sep ++ join sep k.
Proof.
  induction l as [|x l IH]; [done|]. intros _ Hk. destruct (decide (l = [])) as [->|Hl].
  - cbn [app]. by rewrite join_cons.
  - cbn [app]. rewrite !join_cons, IH by (done || by destruct l). by rewrite <- !app_assoc.
Qed.
Lemma Contains_inside s p t : Contains (s ++ p ++ t) p = true.
Proof.
  unfold Contains. induction s as [|c s IH]; cbn [app].
  - assert (E : HasPrefix (p ++ t) p = true) by (apply HasPrefix_iff; by exists t). destruct (p ++ t); cbn [Index]; by rewrite E.
  - cbn [Index]. destruct (HasPrefix _ _); [done|]. by destruct (Index (s ++ p ++ t) p).
Qed.

Lemma urlEscape_notin c v : c ∈ map fst url_escapes → c ∉ concat (map snd url_escapes) → c ∉ urlEscape v.
Proof.
  intros Hc Hn. unfold urlEscape. rewrite flat_map_concat_map. intros Hin. apply list_elem_of_In, in_concat in Hin as (t & Ht & Hin).
  apply in_map_iff in Ht as (d & <- & _). revert Hin. unfold replace_byte. destruct (List.find _ url_escapes) as [[e new]|] eqn:E.
  - apply find_some in E as [E _]. intros Hin. apply Hn, list_elem_of_In, in_concat. exists new. split; [|done].
    apply in_map_iff. by exists (e, new).
  - intros [<-|[]]. apply list_elem_of_In, in_map_iff in Hc as ([e new] & He & Hin). cbn in He. subst e.
    pose proof (find_none _ _ E _ Hin) as Hf. cbn in Hf. by rewrite bool_decide_true in Hf.
Qed.
Lemma redact_sftp_target user pass rest : ":"%byte ∉ user → "@"%byte ∉ user → "@"%byte ∉ pass →
  redact_sftp (§"sftp://" ++ user ++ §":" ++ pass ++ §"@" ++ rest) = Some (§"sftp://" ++ user ++ §":<redacted>@" ++ rest).
Proof.
  intros H1 H2 H3. unfold redact_sftp. rewrite HasPrefix_app.
  assert (E : drop 7 (§"sftp://" ++ user ++ §":" ++ pass ++ §"@" ++ rest) = (user ++ ":"%byte :: pass) ++ "@"%byte :: rest)
    by (rewrite <- app_assoc; reflexivity).
  rewrite E, IndexByte_app_notin by set_solver. rewrite take_app_length, IndexByte_app_notin by done.
  assert (Ed : drop (S (length (user ++ ":"%byte :: pass))) ((user ++ ":"%byte :: pass) ++ "@"%byte :: rest) = rest).
  { generalize (user ++ ":"%byte :: pass). intros front. by induction front. }
  rewrite Ed, <- app_assoc, take_app_length. reflexivity.
Qed.
Lemma ReplaceByte_app u v b t : ReplaceByte (u ++ v) b t = ReplaceByte u b t ++ ReplaceByte v b t.
Proof. unfold ReplaceByte. by rewrite map_app, concat_app. Qed.
Lemma ReplaceByte_notin v b t : b ∉ v → ReplaceByte v b t = v.
Proof.
  induction v as [|c v IH]; intros Hb; [done|]. change (ReplaceByte (c :: v) b t) with ((if bool_decide (c = b) then t else [c]) ++ ReplaceByte v b t).
  rewrite bool_decide_false by set_solver. rewrite IH by set_solver. done.
Qed.

Section Logs.
Context `{LowersAscii}.

Lemma ToLower_cons b s : is_ascii b = true → ToLower (b :: s) = lower_byte b :: ToLower s.
Proof.
  intros Hb. unfold ToLower at 1. cbn [forallb map]. rewrite Hb. cbn [andb].
  destruct (forallb is_ascii s) eqn:Hs; [unfold ToLower; by rewrite Hs|by apply lower_first].
Qed.
Lemma ToLower_ascii a s : forallb is_ascii a = true → ToLower (a ++ s) = map lower_byte a ++ ToLower s.
Proof. induction a as [|b a IH]; [done|]. intros [Hb Ha]%andb_true_iff. cbn [app map]. rewrite ToLower_cons by done. by rewrite IH. Qed.

(**  What is logged of FileZilla's and WinSCP's target is the target with
    [<redacted>] for the password: whatever the request, the log has the user
    and the address of the proxy, and depends on no byte of the password. *)
Theorem logged_sftp_targets_hide_the_password req :
  let l := sr_Launch req in
  let path := TrimSpace (sf_Path l) in
  sanitizeCommandArg (filezillaTarget req) =
    Some (§"sftp://" ++ urlEscape (proxyUsernameForSFTP l) ++ §":<redacted>@" ++ TrimSpace (sf_Host l) ++ §":" ++ Itoa (sf_Port l) ++
          (if negb (bool_decide (path = [])) && negb (HasPrefix path §"/") then §"/" ++ path else path)).
Proof.
  intros l path. unfold sanitizeCommandArg.
  assert (Hm : redact_mongo (filezillaTarget req) = None) by (unfold redact_mongo, filezillaTarget; by rewrite ToLower_ascii).
  assert (Hn : ∀ c v, c ∈ [":"; "@"]%byte → c ∉ urlEscape v) by (intros c v Hc; apply urlEscape_notin; set_solver).
  rewrite Hm. unfold filezillaTarget. fold l path. rewrite redact_sftp_target by (apply Hn; set_solver). reflexivity.
Qed.

(** ** The specification for DBeaver *)

Definition with_password (req : DBeaverRequest) (password : bytes) : DBeaverRequest :=
  let l := dr_Launch req in
  MkDBeaverRequest (dr_SessionID req) (dr_AssetName req) (dr_ConnectorToken req)
    (MkDBeaver (db_Engine l) (db_Host l) (db_Port l) (db_Database l) (db_Username l) (db_UpstreamUsername l)
       (db_TargetAssetName l) (db_TargetHost l) password (db_SSLMode l) (db_ExpiresAt l)).
(** The fields before the password and after it. *)
Definition fields_before (req : DBeaverRequest) : list bytes :=
  let l := dr_Launch req in
  [§"driver=" ++ specValue (normalizeEngine (db_Engine l)); §"host=" ++ specValue (db_Host l); §"port=" ++ Itoa (db_Port l);
   §"user=" ++ specValue (db_Username l); §"connect=true"; §"openConsole=true"; §"savePassword=true"].
Definition fields_after (req : DBeaverRequest) : list bytes :=
  let l := dr_Launch req in
  spec_field §"database" (db_Database l) ++
  (if bool_decide (normalizeEngine (db_Engine l) ∈ [§"microsoft"; §"mssql"; §"sqlserver"])
   then [§"prop.encrypt=false"; §"prop.trustServerCertificate=true"] else spec_field §"sslMode" (db_SSLMode l)) ++
  (if bool_decide (first_of (db_TargetAssetName l) (dr_AssetName req) [] = []) then []
   else [§"name=" ++ specValue (spec_label req [])]).
Lemma spec_with_password req password : blank password = false →
  dbeaverConnectionSpec (with_password req password) =
  join §"|" (fields_before req ++ (§"password=" ++ specValue password) :: fields_after req).
Proof.
  intros Hp. unfold dbeaverConnectionSpec, dbeaverConnectionSpecWithNameSuffix, with_password, fields_before, fields_after. cbv zeta.
  cbn [dr_Launch db_Engine db_Host db_Port db_Database db_Username db_UpstreamUsername db_TargetAssetName db_TargetHost db_Password
       db_SSLMode db_ExpiresAt dr_AssetName].
  unfold spec_field at 1. rewrite Hp. unfold specValue at 4. rewrite TrimSpace_idem. reflexivity.
Qed.
Lemma redact_password v : redact_field (§"password=" ++ v) = §"password=<redacted>".
Proof.
  unfold redact_field.
  destruct (TrimSpace_visible §"password=" v eq_refl) as [t ->].
  by rewrite ToLower_ascii, HasPrefix_app by done.
Qed.
(** The parts of the log from these fields. *)
Definition logged_parts (fields : list bytes) : list bytes := map redact_field (concat (map (λ s, SplitByte s "|"%byte) fields)).
Lemma logged_spec req password : blank password = false →
  sanitizeCommandArg (dbeaverConnectionSpec (with_password req password)) =
  redact_redis (join §"|" (logged_parts (fields_before req) ++ logged_parts [§"password=" ++ specValue password] ++ logged_parts (fields_after req))).
Proof.
  intros Hp. rewrite spec_with_password by done. set (fields := _ ++ _ :: _).
  assert (Hd : ∃ rest, join §"|" fields = §"driver=" ++ rest) by by eexists.
  assert (Hpw : Contains (join §"|" fields) §"password=" = true).
  { subst fields. rewrite join_app by done. destruct (fields_after req) as [|f fs].
    - cbn [join]. rewrite app_assoc. apply Contains_inside.
    - rewrite join_cons by done. rewrite <- (app_assoc §"password="), app_assoc. apply Contains_inside. }
  assert (Hm : redact_mongo (join §"|" fields) = None ∧ redact_sftp (join §"|" fields) = None).
  { destruct Hd as [rest ->]. unfold redact_mongo. by rewrite ToLower_ascii. }
  unfold sanitizeCommandArg, redact_fields. destruct Hm as [-> ->]. rewrite Hpw.
  change (§"|") with ["|"%byte]. rewrite SplitByte_joined by done.
  subst fields. unfold logged_parts. rewrite !map_app, concat_app, map_app. cbn [map concat].
  by rewrite map_app, ?app_nil_r.
Qed.

(** C27.  What is logged of DBeaver's connection hides the password up to its
    first bar and no further: there are texts [before] and [after] that depend
    on no password with which the log of a password without bars is
    [before|password=<redacted>|after], while for a password [u|v] the log
    shows [v] as well. *)
Theorem dbeaver_logs_show_what_follows_a_bar req : ∃ before after : list bytes,
  (∀ password, blank password = false → "|"%byte ∉ password →
     sanitizeCommandArg (dbeaverConnectionSpec (with_password req password)) =
     redact_redis (join §"|" (before ++ §"password=<redacted>" :: after))) ∧
  (∀ u v, TrimSpace (u ++ §"|" ++ v) = u ++ §"|" ++ v → "|"%byte ∉ u → "|"%byte ∉ v → HasPrefix (ToLower (TrimSpace v)) §"password=" = false →
     sanitizeCommandArg (dbeaverConnectionSpec (with_password req (u ++ §"|" ++ v))) =
     redact_redis (join §"|" (before ++ §"password=<redacted>" :: v :: after))).
Proof.
  exists (logged_parts (fields_before req)), (logged_parts (fields_after req)). split.
  - intros pw Hp Hn. rewrite logged_spec by done. do 3 f_equal. unfold logged_parts. cbn [map concat]. rewrite app_nil_r.
    rewrite SplitByte_notin; [by cbn [map]; rewrite redact_password|]. unfold specValue.
    rewrite ReplaceByte_notin by by apply TrimSpace_notin. apply TrimSpace_notin in Hn. apply not_elem_of_app. split; [by vm_compute; set_solver|done].
  - intros u v Ht Hu Hv Hpre. rewrite logged_spec; [|unfold blank; rewrite Ht; apply bool_decide_eq_false; by destruct u].
    do 3 f_equal. unfold logged_parts. cbn [map concat]. rewrite app_nil_r. unfold specValue. rewrite Ht.
    assert (E : ReplaceByte (u ++ §"|" ++ v) "|"%byte §"\|" = (u ++ §"\") ++ "|"%byte :: v).
    { rewrite ReplaceByte_app, (ReplaceByte_notin u) by done. change (§"|" ++ v) with ("|"%byte :: v).
      change (ReplaceByte ("|"%byte :: v) "|"%byte §"\|") with (§"\|" ++ ReplaceByte v "|"%byte §"\|").
      rewrite ReplaceByte_notin by done. by rewrite <- app_assoc. }
    rewrite E, app_assoc, SplitByte_app.
    + cbn [map]. rewrite redact_password. unfold redact_field. by rewrite Hpre.
    + rewrite !not_elem_of_app. repeat split; [by vm_compute; set_solver|done|by vm_compute; set_solver].
    + done.
Qed.
End Logs.
