(* ===== verification/ConnectorAuth.v ===== *)
(** How the connector checks the token of a launch: the verifiers of
    apps/connector/internal/auth and what cmd/connector/main.go makes of them.

    A verifier's error is its text, which is all that is used of it.  Of the
    backend's HTTP exchange the model has the answer: its status and body, or
    the text of why there is none. *)
From S2P Require Import Prelude GoStrings GoNet GoEncoding GoCrypto Tokens Http.

Record ConnectorClaims := MkClaims {
  cc_SessionID : bytes; cc_UserID : bytes; cc_AssetID : bytes; cc_Action : bytes; cc_ExpiresAt : Z; cc_Version : bytes;
}.
Definition no_claims : ConnectorClaims := MkClaims [] [] [] [] 0 [].
Definition error_text (e : error) : bytes := match e with Errorf text | ErrVar text | Wrap text _ => text end.

Section Verifiers.
Context `{Unicode}.

(** ** With the shared secret *)

Definition claims_names : list bytes := [§"sid"; §"uid"; §"aid"; §"act"; §"exp"; §"v"].
Definition assign_claims (n : bytes) (v : json) (c : ConnectorClaims) : option ConnectorClaims :=
  let '(MkClaims sid uid aid act exp ver) := c in
  if bool_decide (n = §"sid") then x ← to_string sid v; Some (MkClaims x uid aid act exp ver)
  else if bool_decide (n = §"uid") then x ← to_string uid v; Some (MkClaims sid x aid act exp ver)
  else if bool_decide (n = §"aid") then x ← to_string aid v; Some (MkClaims sid uid x act exp ver)
  else if bool_decide (n = §"act") then x ← to_string act v; Some (MkClaims sid uid aid x exp ver)
  else if bool_decide (n = §"exp") then x ← to_int64 exp v; Some (MkClaims sid uid aid act x ver)
  else x ← to_string ver v; Some (MkClaims sid uid aid act exp x).
Definition unmarshal_claims : bytes → option ConnectorClaims := unmarshal no_claims claims_names assign_claims.

(** [None]: verification is disabled. *)
Definition NewVerifier (secret : bytes) : option bytes :=
  if bool_decide (TrimSpace secret = []) then None else Some (TrimSpace secret).
(** [Verifier.Verify]; the version of the token is not looked at. *)
Definition VerifyLocal (secret : bytes) (now : Z) (token : bytes) : ConnectorClaims + bytes :=
  match signed_body §"connector token" secret token with
  | inr e => inr (error_text e)
  | inl body =>
      match unmarshal_claims body with
      | None => inr §"invalid connector token payload"
      | Some claims => if cc_ExpiresAt claims <=? now then inr §"connector token expired" else inl claims
      end
  end.

(** ** By the backend *)

Definition NewRemoteVerifier (verifyURL : bytes) : option bytes :=
  if bool_decide (TrimSpace verifyURL = []) then None else Some (TrimSpace verifyURL).
Definition verify_payload (token : bytes) : bytes := json_object [(§"connector_token", SStr (TrimSpace token))].
(** [reason]: the text of what went wrong with the exchange or the decoding. *)
Inductive backend_answer := NoAnswer (reason : bytes) | Answered (status : Z) (body reason : bytes).
Definition to_bool_field (old : bool) (v : json) : option bool :=
  match v with JBool b => Some b | JNull => Some old | _ => None end.
(** The struct of [valid] and the claims. *)
Definition assign_verified (n : bytes) (v : json) (d : bool * ConnectorClaims) : option (bool * ConnectorClaims) :=
  if bool_decide (n = §"valid") then b ← to_bool_field d.1 v; Some (b, d.2)
  else match v with JNull => Some d | _ => c ← decode_value d.2 claims_names assign_claims v; Some (d.1, c) end.
Definition VerifyRemote (answer : backend_answer) : ConnectorClaims + bytes :=
  match answer with
  | NoAnswer reason => inr reason
  | Answered status body reason =>
      if negb (status =? 200) then inr §"connector token rejected by backend"
      else match Decode (false, no_claims) [§"valid"; §"claims"] assign_verified body with
           | None => inr (§"decode verify response: " ++ reason)
           | Some (valid, claims) => if valid then inl claims else inr §"connector token invalid"
           end
  end.

(** ** The verifier of the connector *)

Inductive verifier := Local (secret : bytes) | Remote (verifyURL : bytes) | Fallback (verifiers : list verifier).
(** What [main] builds of the configuration. *)
Definition main_verifier (secret verifyURL : bytes) : option verifier :=
  match NewVerifier secret, NewRemoteVerifier verifyURL with
  | Some key, Some url => Some (Fallback [Local key; Remote url])
  | Some key, None => Some (Local key)
  | None, Some url => Some (Remote url)
  | None, None => None
  end.

(** What the verification depends on besides the token. *)
Context (now : Z) (answer : backend_answer).
Fixpoint verify (v : verifier) (token : bytes) : ConnectorClaims + bytes :=
  match v with
  | Local secret => VerifyLocal secret now token
  | Remote _ => VerifyRemote answer
  | Fallback verifiers =>
      (fix first (vs : list verifier) (errs : list bytes) :=
         match vs with
         | [] => inr (if bool_decide (errs = []) then §"connector token verification is not configured"
                      else §"connector token verification failed: " ++ join §"; " errs)
         | v :: vs => match verify v token with inl claims => inl claims | inr err => first vs (errs ++ [err]) end
         end) verifiers []
  end.

Record connectorTokenError := TokenError { te_message : bytes; te_code : bytes }.
Definition classifyConnectorTokenVerifyError (text : bytes) : connectorTokenError :=
  let lower := ToLower (TrimSpace text) in
  if GoStrings.Contains lower §"expired" then TokenError §"connector token expired" §"connector_token_expired"
  else if GoStrings.Contains lower §"invalid" || GoStrings.Contains lower §"malformed" then
    TokenError §"connector token verification failed" §"connector_token_invalid"
  else TokenError §"connector token verification unavailable" §"connector_token_verify_unavailable".
(** [None]: the launch goes on. *)
Definition verifyConnectorToken (v : option verifier) (token sessionID : bytes) : option connectorTokenError :=
  match v with
  | None => None
  | Some v =>
      let token := TrimSpace token in
      if bool_decide (token = []) then Some (TokenError §"missing connector token" §"connector_token_missing")
      else match verify v token with
           | inr text => Some (classifyConnectorTokenVerifyError text)
           | inl claims =>
               if negb (bool_decide (TrimSpace (cc_SessionID claims) = TrimSpace sessionID))
               then Some (TokenError §"connector token does not match requested session" §"connector_token_session_mismatch")
               else None
           end
  end.
End Verifiers.
