(* ===== verification/ConnectorBackend.v ===== *)
(** The handlers of the API that connectors talk to
    (apps/api/internal/handlers/sessions.go): the verification of connector and
    bootstrap tokens, the issue of the latter, and the events of a launch. *)
From S2P Require Import Prelude GoStrings GoNet GoEncoding Tokens Http Store Sessions Identity Auth Launch.

Section Handlers.
Context `{Unicode, Postgres}.

(** ** Tokens *)

Definition decode_verify_request (body : bytes) : option (bytes * bytes) :=
  Decode ([], []) [§"connector_token"; §"session_id"] (λ n v r,
    if bool_decide (n = §"connector_token") then x ← to_string r.1 v; Some (x, r.2)
    else x ← to_string r.2 v; Some (r.1, x)) body.
Definition VerifyConnectorToken_handler (secret : option bytes) (now : Z) (body : bytes) : reply LaunchTokenClaims :=
  match decode_verify_request body with
  | None => ReplyError StatusBadRequest §"invalid json body"
  | Some (token, session) =>
      if bool_decide (TrimSpace token = []) then ReplyError StatusBadRequest §"connector_token is required"
      else match VerifyConnectorToken secret now (TrimSpace token) with
           | inr err => ReplyError StatusForbidden (if errors_is err §"launch token expired" then §"connector token expired" else §"connector token invalid")
           | inl claims =>
               if negb (bool_decide (TrimSpace session = [])) && negb (bool_decide (TrimSpace session = lc_SessionID claims))
               then ReplyError StatusForbidden §"connector token session mismatch"
               else Reply StatusOK claims
           end
  end.
(** The text of the success: the keys of a map are written in order. *)
Definition verified_claims (c : LaunchTokenClaims) : list (bytes * scalar) :=
  [(§"act", SStr (lc_Action c)); (§"aid", SStr (lc_AssetID c)); (§"exp", SInt (lc_ExpiresAt c));
   (§"sid", SStr (lc_SessionID c)); (§"uid", SStr (lc_UserID c)); (§"v", SStr (lc_Version c))].
Definition verified_body (c : LaunchTokenClaims) : bytes :=
  §"{" ++ json_string §"claims" ++ §":" ++ json_object (verified_claims c) ++ §"," ++ json_string §"valid" ++ §":true}" ++ [z2b 10].

Definition decode_bootstrap_issue (body : bytes) : bytes :=
  default [] (Decode [] [§"origin"] (λ _ v r, to_string r v) body).
Definition IssueConnectorBootstrapToken_handler (secret : bytes) (now_ns : Z) (user : option CurrentUser) (originHeader body : bytes)
    : reply (bytes * ConnectorBootstrapClaims) :=
  match user with
  | None => ReplyError StatusUnauthorized §"unauthorized"
  | Some user =>
      let origin := TrimSpace (decode_bootstrap_issue body) in
      let origin := if bool_decide (origin = []) then TrimSpace originHeader else origin in
      if bool_decide (origin = []) then ReplyError StatusBadRequest §"origin is required"
      else match IssueConnectorBootstrapToken secret now_ns (cu_ID user) origin (120 * 10 ^ 9) with
           | inr err => ReplyError StatusBadRequest match err with Errorf text | ErrVar text | Wrap text _ => text end
           | inl (token, claims) => Reply StatusOK (token, claims)
           end
  end.
Definition VerifyConnectorBootstrapToken_handler (secret : bytes) (now : Z) (body : bytes) : reply ConnectorBootstrapClaims :=
  match Decode [] [§"token"] (λ _ v r, to_string r v) body with
  | None => ReplyError StatusBadRequest §"invalid json body"
  | Some token =>
      if bool_decide (TrimSpace token = []) then ReplyError StatusBadRequest §"token is required"
      else match VerifyConnectorBootstrapToken secret now (TrimSpace token) with
           | inr err => ReplyError StatusForbidden (if errors_is err §"launch token expired" then §"bootstrap token expired" else §"bootstrap token invalid")
           | inl claims => Reply StatusOK claims
           end
  end.

(** ** Events *)

Definition to_map (old : payload) (v : json) : option payload :=
  match v with
  | JObj fields => Some (fold_left (λ m f, <[f.1 := f.2]> m) fields old)
  | JNull => Some ∅
  | _ => None
  end.
Definition decode_event (body : bytes) : option (bytes * payload) :=
  Decode ([], ∅) [§"event_type"; §"metadata"] (λ n v r,
    if bool_decide (n = §"event_type") then x ← to_string r.1 v; Some (x, r.2)
    else x ← to_map r.2 v; Some (r.1, x)) body.
(** [p.sessionID]: the path value. *)
Definition RecordEvent (user : option CurrentUser) (sessionID body : bytes) : M db (reply (bytes * bytes)) :=
  handler (
    step! user := need user StatusUnauthorized §"unauthorized" in
    then! require (negb (isReadOnlyAuditor user)) StatusForbidden §"forbidden" in
    let sessionID := TrimSpace sessionID in
    then! require (negb (bool_decide (sessionID = []))) StatusBadRequest §"session id is required" in
    step! (eventType, metadata) := need (decode_event body) StatusBadRequest §"invalid json body" in
    let eventType := TrimSpace eventType in
    then! require (negb (bool_decide (eventType = []))) StatusBadRequest §"event_type is required" in
    then! attempt (RecordConnectorLaunchEvent sessionID (cu_ID user) eventType metadata) (λ err,
        if bool_decide (err = ErrUnauthorizedLaunch) then ReplyError StatusForbidden §"access denied"
        else match err with
             | Errorf text => if HasPrefix text §"unsupported connector event type" then ReplyError StatusBadRequest text
                              else ReplyError StatusInternalServerError §"failed to record session event"
             | _ => ReplyError StatusInternalServerError §"failed to record session event"
             end) in
    go_on (Reply StatusAccepted (§"recorded", sessionID))).
End Handlers.
