(* ===== verification/ConnectorTokens.v ===== *)
(** The tokens the API issues, at the connector: the verifiers of
    ConnectorAuth.v and the backend's answers of ConnectorBackend.v. *)
From S2P Require Import Prelude GoStrings GoNet GoUtf16 GoEncoding GoCrypto Tokens Http Store Sessions ConnectorAuth ConnectorBackend.

(** ** Objects inside objects *)

Section Parsing.
Context `{Unicode}.

Lemma parse_member k v jv f d e w : utf8_valid k = true → is_json_space e = false →
  parse_value f d (v ++ e :: w) = Some (jv, e :: w) →
  parse_members (S f) d (json_string k ++ ":"%byte :: v ++ e :: w) =
    (if b2z e =? 44 then '(fs, u) ← parse_members f d w; Some ((k, jv) :: fs, u)
     else if b2z e =? 125 then Some ([(k, jv)], w) else None).
Proof.
  intros Hk He Hv. destruct (scan_json_string k (":"%byte :: v ++ e :: w) Hk) as (t & -> & Hs).
  cbn [parse_members]. rewrite skip_space_byte by done. change (b2z quote_byte =? 34) with true. cbv iota.
  rewrite Hs. cbn [mbind option_bind]. rewrite skip_space_byte by done. change (b2z ":" =? 58) with true. cbv iota.
  rewrite Hv. cbn [mbind option_bind]. by rewrite skip_space_byte by done.
Qed.
Lemma parse_braces members fs f d u : parse_members f d (quote_byte :: members) = Some (fs, u) →
  parse_value (S f) (S d) ("{"%byte :: quote_byte :: members) = Some (JObj fs, u).
Proof.
  intros Hm. cbn [parse_value]. rewrite skip_space_byte by done. change (b2z "{" =? 34) with false. change (b2z "{" =? 123) with true. cbv iota.
  rewrite skip_space_byte by done. change (b2z quote_byte =? 125) with false. cbv iota. by rewrite Hm.
Qed.
Lemma parse_flat fs f d u : fs ≠ [] → forallb field_ok fs = true → (length fs < f)%nat →
  parse_value (S f) (S d) (json_object fs ++ u) = Some (JObj (map (λ p, (p.1, scalar_json p.2)) fs), u).
Proof.
  intros Hne Hok Hf. unfold json_object. cbn [app]. rewrite <- app_assoc. cbn [app].
  pose proof (parse_fields f d fs u Hne Hok Hf) as Hp.
  assert (∃ t, json_fields fs ++ "}"%byte :: u = quote_byte :: t) as [t Ht] by (destruct fs as [|[k v] [|p fs]]; [done|eexists; reflexivity..]).
  rewrite Ht in *. by apply parse_braces.
Qed.

(** ** The claims, through the backend *)

Definition claims_of (c : LaunchTokenClaims) : ConnectorClaims :=
  MkClaims (lc_SessionID c) (lc_UserID c) (lc_AssetID c) (lc_Action c) (lc_ExpiresAt c) (lc_Version c).

Lemma parse_verified c : forallb field_ok (verified_claims c) = true →
  parse_value (S (2 * length (verified_body c))) max_depth (verified_body c) =
  Some (JObj [(§"claims", JObj (map (λ p, (p.1, scalar_json p.2)) (verified_claims c))); (§"valid", JBool true)], [z2b 10]).
Proof.
  intros Hok. assert (Hlen : ∃ n, (2 * length (verified_body c) = S (S (9 + n)))%nat).
  { exists (2 * length (verified_body c) - 11)%nat. unfold verified_body. rewrite !length_app.
    change (length (json_string §"claims")) with 8%nat. change (length §":true}") with 6%nat. lia. }
  destruct Hlen as [n ->]. assert (Hd : (2 <= max_depth)%nat) by (apply Nat.leb_le; by vm_compute).
  assert (∃ d, max_depth = S (S d)) as [d ->] by (exists (max_depth - 2)%nat; lia). clear Hd.
  set (rest := ","%byte :: json_string §"valid" ++ §":true}" ++ [z2b 10]).
  assert (E : verified_body c = "{"%byte :: json_string §"claims" ++ ":"%byte :: json_object (verified_claims c) ++ rest) by reflexivity.
  rewrite E. assert (∃ t, json_string §"claims" ++ ":"%byte :: json_object (verified_claims c) ++ rest = quote_byte :: t) as [t Ht] by by eexists.
  rewrite Ht. apply parse_braces. rewrite <- Ht. unfold rest.
  rewrite (parse_member _ _ (JObj (map (λ p, (p.1, scalar_json p.2)) (verified_claims c))) _ _ ","%byte).
  - change (b2z "," =? 44) with true. cbv iota. change (json_string §"valid" ++ §":true}" ++ [z2b 10])
      with (json_string §"valid" ++ ":"%byte :: §"true" ++ "}"%byte :: [z2b 10]).
    rewrite (parse_member _ _ (JBool true)); [reflexivity|by vm_compute|done|by vm_compute].
  - by vm_compute.
  - done.
  - apply parse_flat; [done|done|change (length (verified_claims c)) with 6%nat; lia].
Qed.
Lemma decode_scalars fs (c : ConnectorClaims) : decode_value c claims_names assign_claims (JObj (map (λ p, (p.1, scalar_json p.2)) fs)) =
  assign_all claims_names assign_claims (Some c) fs.
Proof.
  unfold decode_value, assign_all. generalize (Some c). induction fs as [|f fs IH]; intros acc; [done|]. cbn [map fold_left fst snd]. apply IH.
Qed.
Lemma verified_claims_ok c : launch_ok c = true → forallb field_ok (verified_claims c) = true.
Proof.
  unfold launch_ok. intros Hok. repeat (apply andb_true_iff in Hok as [Hok ?]). destruct (int64_scalar (lc_ExpiresAt c)) as [Hz _]; [done|].
  unfold verified_claims, field_ok. cbn [forallb fst snd scalar_ok]. rewrite Hz.
  repeat match goal with H : _ = true |- _ => rewrite H; clear H end. by vm_compute.
Qed.
#[local] Ltac assigning Ha :=
  repeat (erewrite assign_all_cons by (apply struct_field_exact; apply (bool_decide_unpack _); by vm_compute);
    cbn [scalar_json assign_claims to_string to_int64];
    repeat first [rewrite bool_decide_true by done|rewrite bool_decide_false by done];
    rewrite ?Ha; cbn [mbind option_bind]).
Lemma decode_verified c : launch_ok c = true →
  Decode (false, no_claims) [§"valid"; §"claims"] assign_verified (verified_body c) = Some (true, claims_of c).
Proof.
  intros Hok. unfold Decode. rewrite parse_verified by by apply verified_claims_ok. cbn [mbind option_bind].
  unfold decode_value at 1. cbn [fold_left fst snd mbind option_bind].
  rewrite !struct_field_exact by (apply (bool_decide_unpack _); by vm_compute). unfold assign_verified at 2.
  rewrite bool_decide_false by done. cbn [fst snd]. rewrite decode_scalars.
  unfold launch_ok in Hok. repeat (apply andb_true_iff in Hok as [Hok ?]). destruct (int64_scalar (lc_ExpiresAt c)) as [_ Ha]; [done|].
  destruct c as [sid uid aid act rid exp ver]. unfold verified_claims, no_claims, claims_of.
  cbn [lc_SessionID lc_UserID lc_AssetID lc_Action lc_RequestID lc_ExpiresAt lc_Version] in *. assigning Ha. done.
Qed.

(** The same claims are in the token. *)
Lemma unmarshal_claims_launch c : launch_ok c = true → unmarshal_claims (json_object (launch_fields c)) = Some (claims_of c).
Proof.
  intros Hok. unfold unmarshal_claims. rewrite unmarshal_object; [|done|].
  2:{ unfold launch_ok in Hok. repeat (apply andb_true_iff in Hok as [Hok ?]). destruct (int64_scalar (lc_ExpiresAt c)) as [Hz _]; [done|].
      unfold launch_fields, field_ok. rewrite !forallb_app. cbn [forallb fst snd scalar_ok]. rewrite Hz.
      destruct (bool_decide _); cbn [forallb fst snd scalar_ok]; repeat match goal with H : _ = true |- _ => rewrite H; clear H end; by vm_compute. }
  unfold launch_ok in Hok. repeat (apply andb_true_iff in Hok as [Hok ?]). destruct (int64_scalar (lc_ExpiresAt c)) as [_ Ha]; [done|].
  destruct c as [sid uid aid act rid exp ver]. unfold launch_fields, no_claims, claims_of.
  cbn [lc_SessionID lc_UserID lc_AssetID lc_Action lc_RequestID lc_ExpiresAt lc_Version app] in *.
  case_bool_decide; cbn [app]; assigning Ha; [done|]. rewrite assign_all_skip by by vm_compute. assigning Ha. done.
Qed.

(** ** The token on its way *)

Lemma token_ascii secret body : forallb is_ascii (sign_body secret body) = true.
Proof.
  assert (Hb : ∀ s, forallb is_ascii (b64_encode s) = true).
  { intros s. destruct (b64_encode_text s) as (ds & [-> Hd] & _). apply forallb_forall. intros c Hin.
    apply in_map_iff in Hin as (d & <- & Hin). rewrite Forall_forall in Hd. apply list_elem_of_In, Hd in Hin.
    assert (Hall : forallb (λ n, is_ascii (b64_char (Z.of_nat n))) (seq 0 64) = true) by by vm_compute.
    rewrite forallb_forall in Hall. specialize (Hall (Z.to_nat d)). rewrite Z2Nat.id in Hall by lia. apply Hall, in_seq. lia. }
  unfold sign_body. rewrite forallb_app, Hb. cbn [forallb]. by rewrite Hb.
Qed.
Lemma decode_payload token : utf8_valid token = true → TrimSpace token = token →
  decode_verify_request (verify_payload token) = Some (token, []).
Proof.
  intros Hv Ht. unfold decode_verify_request, Decode, verify_payload. rewrite Ht. set (fs := [(§"connector_token", SStr token)]).
  assert (Hl : ∃ n, (2 * length (json_object fs) = S (S n))%nat).
  { exists (2 * length (json_object fs) - 2)%nat. unfold json_object. cbn [length]. rewrite length_app. cbn [length]. lia. }
  destruct Hl as [n ->]. assert (∃ d, max_depth = S d) as [d ->] by (exists (Nat.pred max_depth); symmetry; apply Nat.succ_pred; by vm_compute).
  pose proof (parse_flat fs (S (S n)) d [] ltac:(done)) as Hp. rewrite app_nil_r in Hp.
  rewrite Hp; [|unfold fs, field_ok; cbn [forallb fst snd scalar_ok]; rewrite Hv; by vm_compute|change (length fs) with 1%nat; lia].
  cbn [mbind option_bind]. unfold fs, decode_value. cbn [map fold_left fst snd scalar_json mbind option_bind].
  rewrite struct_field_exact by (apply (bool_decide_unpack _); by vm_compute). by rewrite bool_decide_true.
Qed.

(** What the API answers a connector that asks about a token. *)
Definition ask_backend (secret : bytes) (now : Z) (token : bytes) : backend_answer :=
  match VerifyConnectorToken_handler (Some secret) now (verify_payload token) with
  | Reply code claims => Answered code (verified_body claims) []
  | ReplyError code text => Answered code text []
  end.

Section Issued.
Context (secret : bytes) (now : Z) (c : LaunchTokenClaims) (t : bytes).
Context (Hok : launch_ok c = true) (Ht : Sign secret c = inl t).
#[local] Abbreviation stamped := (LaunchClaims (lc_SessionID c) (lc_UserID c) (lc_AssetID c) (lc_Action c) (lc_RequestID c) (lc_ExpiresAt c) tokenVersion).

Lemma stamped_ok : launch_ok stamped = true.
Proof.
  unfold launch_ok in *. repeat (apply andb_true_iff in Hok as [Hok ?]).
  cbn [lc_SessionID lc_UserID lc_AssetID lc_Action lc_RequestID lc_ExpiresAt lc_Version].
  repeat match goal with H : _ = true |- _ => rewrite H; clear H end. by vm_compute.
Qed.
Lemma issued_text : t = sign_body secret (json_object (launch_fields stamped)).
Proof using Ht. revert Ht. unfold Sign. destruct (_ || _); [done|]. by intros [= <-]. Qed.
Lemma issued_nonempty : t ≠ [].
Proof using Ht. rewrite issued_text. unfold sign_body. intros E. by apply app_nil in E as [_ ?]. Qed.
Lemma local_verifies : VerifyLocal secret now t =
  if lc_ExpiresAt c <=? now then inr §"connector token expired" else inl (claims_of stamped).
Proof. unfold VerifyLocal. rewrite issued_text, signed_body_sign, unmarshal_claims_launch by apply stamped_ok. done. Qed.
Lemma backend_verifies : VerifyRemote (ask_backend secret now t) =
  if lc_ExpiresAt c <=? now then inr §"connector token rejected by backend" else inl (claims_of stamped).
Proof.
  assert (Htrim : TrimSpace t = t) by (eapply sign_trimmed; exact Ht).
  unfold ask_backend, VerifyConnectorToken_handler. rewrite decode_payload; [|rewrite issued_text; by apply ascii_valid, token_ascii|done].
  rewrite Htrim, bool_decide_false by apply issued_nonempty. unfold VerifyConnectorToken. rewrite Htrim, (verify_signed secret c now t Hok Ht).
  destruct (lc_ExpiresAt c <=? now); [done|]. rewrite bool_decide_true by done. cbn [negb andb VerifyRemote].
  change (negb (StatusOK =? 200)) with false. cbv iota. by rewrite decode_verified by apply stamped_ok.
Qed.
End Issued.
End Parsing.

(** * The issued tokens at the connector *)

Section Claims.
Context `{Unicode}.

(** C16.  Every connector token the API signs opens the connector until it
    expires, for its session and no other, whichever way the connector is
    configured to check it: with the shared secret, by asking the API's handler
    over JSON, or with the one and then the other.  Nothing else of a launch is
    compared: the verdict depends on the session of the request alone.  Of an
    expired token the first and the last way say that it expired; a connector
    that only asks the backend says that verification is unavailable. *)
Theorem issued_tokens_open_their_session secret now c t key url v sessionID :
  launch_ok c = true → Sign secret c = inl t →
  NewVerifier key = None ∨ NewVerifier key = Some secret → main_verifier key url = Some v →
  verifyConnectorToken now (ask_backend secret now t) (Some v) t sessionID =
    if lc_ExpiresAt c <=? now then
      Some (match v with Remote _ => TokenError §"connector token verification unavailable" §"connector_token_verify_unavailable"
            | _ => TokenError §"connector token expired" §"connector_token_expired" end)
    else if bool_decide (TrimSpace (lc_SessionID c) = TrimSpace sessionID) then None
    else Some (TokenError §"connector token does not match requested session" §"connector_token_session_mismatch").
Proof.
  intros Hok Ht Hkey Hv. unfold verifyConnectorToken. rewrite (sign_trimmed secret c t Ht).
  rewrite bool_decide_false by by eapply issued_nonempty.
  pose proof (local_verifies secret now c t Hok Ht) as Hlocal. pose proof (backend_verifies secret now c t Hok Ht) as Hremote.
  assert (E : verify now (ask_backend secret now t) v t =
    if lc_ExpiresAt c <=? now then
      inr match v with Remote _ => §"connector token rejected by backend" | Local _ => §"connector token expired"
          | Fallback _ => §"connector token verification failed: connector token expired; connector token rejected by backend" end
    else inl (claims_of (LaunchClaims (lc_SessionID c) (lc_UserID c) (lc_AssetID c) (lc_Action c) (lc_RequestID c) (lc_ExpiresAt c) tokenVersion))).
  { unfold main_verifier in Hv. destruct Hkey as [Hkey|Hkey]; rewrite Hkey in Hv; destruct (NewRemoteVerifier url); try done; injection Hv as <-;
      cbn [verify]; rewrite ?Hlocal, ?Hremote; by destruct (lc_ExpiresAt c <=? now). }
  rewrite E. destruct (lc_ExpiresAt c <=? now).
  - f_equal. by destruct v; vm_compute.
  - cbn [claims_of cc_SessionID lc_SessionID]. by case_bool_decide.
Qed.
End Claims.
