(* ===== verification/Connector.v ===== *)
(** The connector's local HTTP server (apps/connector/cmd/connector/main.go):
    who may call it, the launch handlers and the tracker of launches.

    A launch handler answers at once, or starts a launch and answers when it
    has ended; between the two other requests are served. *)
From S2P Require Import Prelude GoStrings GoNet GoEncoding GoFormats Tokens Http Desktop ConnectorAuth.

(** ** Requests of a launch *)

Section Decoders.
Context `{Unicode}.

(** A field of a struct that is one of its strings, numbers and truth values. *)
Definition fields_string (fs : list (bytes * json)) (names : list bytes) (name : bytes) : option bytes :=
  fold_left (λ acc f, old ← acc; if bool_decide (struct_field names f.1 = Some name) then to_string old f.2 else Some old) fs (Some []).
Definition fields_int (fs : list (bytes * json)) (names : list bytes) (name : bytes) : option Z :=
  fold_left (λ acc f, old ← acc; if bool_decide (struct_field names f.1 = Some name) then to_int64 old f.2 else Some old) fs (Some 0).
Definition fields_bool (fs : list (bytes * json)) (names : list bytes) (name : bytes) : option bool :=
  fold_left (λ acc f, old ← acc; if bool_decide (struct_field names f.1 = Some name) then to_bool_field old f.2 else Some old) fs (Some false).
(** The members of an object inside: of all of that name, in order. *)
Definition fields_object (fs : list (bytes * json)) (names : list bytes) (name : bytes) : option (list (bytes * json)) :=
  fold_left (λ acc f, old ← acc;
    if bool_decide (struct_field names f.1 = Some name) then
      match f.2 with JObj inner => Some (old ++ inner) | JNull => Some old | _ => None end
    else Some old) fs (Some []).
(** The members of the first value of the body. *)
Definition body_object (body : bytes) : option (list (bytes * json)) :=
  '(v, rest) ← parse_value (S (2 * length body)) max_depth body;
  match v, rest with
  | JObj fs, _ => Some fs
  | JNull, [] => Some []
  | JNull, b :: _ => if is_json_space b then Some [] else None
  | _, _ => None
  end.

Definition request_names : list bytes := [§"session_id"; §"asset_id"; §"asset_name"; §"connector_token"; §"launch"].
Definition shell_names : list bytes :=
  [§"proxy_host"; §"proxy_port"; §"username"; §"proxy_username"; §"upstream_username"; §"target_asset_name"; §"target_host"; §"token"; §"expires_at"].
Definition dbeaver_names : list bytes :=
  [§"engine"; §"host"; §"port"; §"database"; §"username"; §"upstream_username"; §"target_asset_name"; §"target_host"; §"password"; §"ssl_mode"; §"expires_at"].
Definition redis_names : list bytes :=
  [§"redis_host"; §"redis_port"; §"redis_username"; §"redis_password"; §"redis_database"; §"redis_tls"; §"redis_insecure_skip_verify_tls"; §"expires_at"].
Definition sftp_names : list bytes :=
  [§"host"; §"port"; §"username"; §"proxy_username"; §"upstream_username"; §"target_asset_name"; §"target_host"; §"password"; §"path"; §"expires_at"].

Definition decode_request {L T} (launch : list (bytes * json) → option L) (make : bytes → bytes → bytes → L → T) (body : bytes) : option T :=
  fs ← body_object body;
  let s := fields_string fs request_names in
  id ← s §"session_id"; _ ← s §"asset_id"; name ← s §"asset_name"; token ← s §"connector_token";
  l ← fields_object fs request_names §"launch"; l ← launch l;
  Some (make id name token l).
Definition decode_shell : bytes → option Request := decode_request (λ fs,
  let s := fields_string fs shell_names in
  host ← s §"proxy_host"; port ← fields_int fs shell_names §"proxy_port"; user ← s §"username"; puser ← s §"proxy_username";
  uuser ← s §"upstream_username"; asset ← s §"target_asset_name"; target ← s §"target_host"; token ← s §"token"; expires ← s §"expires_at";
  Some (MkShell host port user puser uuser asset target token expires)) MkRequest.
Definition decode_dbeaver : bytes → option DBeaverRequest := decode_request (λ fs,
  let s := fields_string fs dbeaver_names in
  engine ← s §"engine"; host ← s §"host"; port ← fields_int fs dbeaver_names §"port"; db ← s §"database"; user ← s §"username";
  uuser ← s §"upstream_username"; asset ← s §"target_asset_name"; target ← s §"target_host"; password ← s §"password"; ssl ← s §"ssl_mode";
  expires ← s §"expires_at";
  Some (MkDBeaver engine host port db user uuser asset target password ssl expires)) MkDBeaverRequest.
Definition decode_redis : bytes → option RedisRequest := decode_request (λ fs,
  let s := fields_string fs redis_names in
  host ← s §"redis_host"; port ← fields_int fs redis_names §"redis_port"; user ← s §"redis_username"; password ← s §"redis_password";
  db ← fields_int fs redis_names §"redis_database"; tls ← fields_bool fs redis_names §"redis_tls";
  insecure ← fields_bool fs redis_names §"redis_insecure_skip_verify_tls"; expires ← s §"expires_at";
  Some (MkRedis host port user password db tls insecure expires)) MkRedisRequest.
Definition decode_sftp : bytes → option SFTPRequest := decode_request (λ fs,
  let s := fields_string fs sftp_names in
  host ← s §"host"; port ← fields_int fs sftp_names §"port"; user ← s §"username"; puser ← s §"proxy_username";
  uuser ← s §"upstream_username"; asset ← s §"target_asset_name"; target ← s §"target_host"; password ← s §"password"; path ← s §"path";
  expires ← s §"expires_at";
  Some (MkSFTP host port user puser uuser asset target password path expires)) MkSFTPRequest.

(** The four kinds of launch. *)
Inductive kind := KShell | KDBeaver | KRedis | KSFTP.
Inductive launch := LShell (r : Request) | LDBeaver (r : DBeaverRequest) | LRedis (r : RedisRequest) | LSFTP (r : SFTPRequest).
Definition decode_launch_body (k : kind) (body : bytes) : option launch :=
  match k with
  | KShell => LShell <$> decode_shell body
  | KDBeaver => LDBeaver <$> decode_dbeaver body
  | KRedis => LRedis <$> decode_redis body
  | KSFTP => LSFTP <$> decode_sftp body
  end.
Definition validate (l : launch) (now : Z) : option error :=
  match l with
  | LShell r => Validate r now | LDBeaver r => ValidateDBeaver r now | LRedis r => ValidateRedis r now | LSFTP r => ValidateSFTP r now
  end.
Definition session_of (l : launch) : bytes :=
  match l with LShell r => rq_SessionID r | LDBeaver r => dr_SessionID r | LRedis r => rr_SessionID r | LSFTP r => sr_SessionID r end.
Definition token_of (l : launch) : bytes :=
  match l with
  | LShell r => rq_ConnectorToken r | LDBeaver r => dr_ConnectorToken r | LRedis r => rr_ConnectorToken r | LSFTP r => sr_ConnectorToken r
  end.
Definition launchKey (l : launch) : bytes :=
  match l with LShell _ => §"shell:" | LDBeaver _ => §"dbeaver:" | LRedis _ => §"redis:" | LSFTP _ => §"sftp:" end ++ TrimSpace (session_of l).
End Decoders.

(** ** Origins *)

Section Origins.
Context `{Unicode}.

Definition IsLoopback (address : ip) : bool :=
  match address with
  | IPv4 octets => bool_decide (head octets = Some 127)
  | IPv6 groups => bool_decide (groups = [0; 0; 0; 0; 0; 0; 0; 1])
  end.
Definition loopback_host (host : bytes) : bool :=
  match ParseIP host with Some address => IsLoopback address | None => false end.
Definition isLoopbackOrigin (origin : bytes) : bool :=
  let origin := TrimSpace origin in
  if bool_decide (origin = []) then false
  else match Parse origin with
       | None => false
       | Some u =>
           if negb (EqualFold (u_Scheme u) §"http") && negb (EqualFold (u_Scheme u) §"https") then false
           else
             let host := TrimSpace (Hostname u) in
             if bool_decide (host = []) then false else if EqualFold host §"localhost" then true else loopback_host host
       end.
Definition canonicalOrigin (raw : bytes) : option bytes :=
  let trimmed := TrimSpace raw in
  if bool_decide (trimmed = []) then None
  else match Parse trimmed with
       | None => None
       | Some u =>
           let scheme := ToLower (TrimSpace (u_Scheme u)) in
           if negb (bool_decide (scheme ∈ [§"http"; §"https"])) then None
           else
             let host := ToLower (TrimSpace (Hostname u)) in
             if bool_decide (host = []) then None
             else
               let port := TrimSpace (Port u) in
               let port := if bool_decide (port = []) then (if bool_decide (scheme = §"https") then §"443" else §"80") else port in
               Some (scheme ++ §"://" ++ host ++ §":" ++ port)
       end.
Definition originMatches (requestOrigin allowedOrigin : bytes) : bool :=
  match canonicalOrigin requestOrigin, canonicalOrigin allowedOrigin with
  | Some req, Some allow => bool_decide (req = allow)
  | _, _ => bool_decide (TrimSpace requestOrigin = TrimSpace allowedOrigin)
  end.
Definition isLoopbackRequest (remoteAddr : bytes) : bool :=
  let trimmed := TrimSpace remoteAddr in
  if bool_decide (trimmed = []) then false
  else
    let host := match SplitHostPort trimmed with Some (host, _) => host | None => trimmed end in
    if EqualFold host §"localhost" then true else loopback_host host.
(** The header [Access-Control-Allow-Origin]; empty is none. *)
Definition allow_origin (allowedOrigins : list bytes) (allowAnyOrigin : bool) (requestOrigin : bytes) : bytes :=
  if allowAnyOrigin then §"*"
  else if isLoopbackOrigin requestOrigin then requestOrigin
  else if negb (bool_decide (requestOrigin = [])) && existsb (originMatches requestOrigin) allowedOrigins then requestOrigin
  else [].
End Origins.

(** ** The tracker of launches *)

Record launchTrackerEntry := Entry { en_startedAt : Z; en_inProgress : bool; en_completed : bool }.
Record launchTracker := Tracker { lt_ttl : Z; lt_entries : gmap bytes launchTrackerEntry }.
Definition newLaunchTracker (ttl : Z) : launchTracker := Tracker (if ttl <=? 0 then 600 * 10 ^ 9 else ttl) ∅.
Definition with_entries (t : launchTracker) (entries : gmap bytes launchTrackerEntry) : launchTracker := Tracker (lt_ttl t) entries.
Definition pruneLocked (t : launchTracker) (now : Z) : launchTracker :=
  with_entries t (filter (λ kv, now - en_startedAt kv.2 <= lt_ttl t) (lt_entries t)).
Definition busy (e : launchTrackerEntry) : bool := en_inProgress e || en_completed e.
Definition TryStart (t : launchTracker) (key : bytes) (now : Z) : bool * launchTracker :=
  let t := pruneLocked t now in
  match lt_entries t !! key with
  | Some existing => if busy existing then (false, t) else (true, with_entries t (<[key := Entry now true false]> (lt_entries t)))
  | None => (true, with_entries t (<[key := Entry now true false]> (lt_entries t)))
  end.
Definition FinishSuccess (t : launchTracker) (key : bytes) (now : Z) : launchTracker :=
  match lt_entries t !! key with
  | None => t
  | Some _ => with_entries t (<[key := Entry now false true]> (lt_entries t))
  end.
Definition FinishFailure (t : launchTracker) (key : bytes) : launchTracker := with_entries t (delete key (lt_entries t)).

(** ** The handlers *)

Record config := Config {
  cf_AllowedOrigins : list bytes; cf_AllowAnyOrigin : bool; cf_AllowRemote : bool; cf_AllowInsecureNoToken : bool;
  cf_ConnectorSecret : bytes; cf_BackendVerifyURL : bytes;
}.
(** [main] ends when there is nothing to verify tokens with, unless that is allowed. *)
Definition main_starts (cfg : config) : bool :=
  bool_decide (is_Some (main_verifier (cf_ConnectorSecret cfg) (cf_BackendVerifyURL cfg))) || cf_AllowInsecureNoToken cfg.

Record http_request := HttpRequest {
  hr_Method : bytes; hr_Path : bytes; hr_Origin : bytes; hr_RemoteAddr : bytes; hr_Body : bytes;
}.
(** An answer: the headers of [withCORS], the status, and for JSON the [status]
    of a success or the [error] and [code] of a failure. *)
Inductive content := Text (text : bytes) | Nothing | Success (status : bytes) | Failure (error code : bytes) | Page.
Record response := Response { rs_Status : Z; rs_AllowOrigin : bytes; rs_VaryOrigin : bool; rs_Content : content }.

Inductive route := Launching (k : kind) | Reading | Unrouted.
(** The mux. *)
Definition route_of (method path : bytes) : route :=
  if bool_decide (method = §"POST") then
    if bool_decide (path = §"/launch/shell") then Launching KShell
    else if bool_decide (path = §"/launch/dbeaver") then Launching KDBeaver
    else if bool_decide (path = §"/launch/redis") then Launching KRedis
    else if bool_decide (path = §"/launch/sftp") then Launching KSFTP else Unrouted
  else if bool_decide (method ∈ [§"GET"; §"HEAD"]) && bool_decide (path ∈ [§"/healthz"; §"/version"; §"/info"]) then Reading
  else Unrouted.

Section Handlers.
Context `{Unicode} (cfg : config).

Definition the_verifier : option verifier := main_verifier (cf_ConnectorSecret cfg) (cf_BackendVerifyURL cfg).
Definition StatusNoContent : Z := 204.

(** The headers [withCORS] sets before it calls what is inside. *)
Definition request_origin (h : http_request) : bytes := TrimSpace (hr_Origin h).
Definition allowed_origin (h : http_request) : bytes := allow_origin (cf_AllowedOrigins cfg) (cf_AllowAnyOrigin cfg) (request_origin h).
Definition respond (h : http_request) (status : Z) (c : content) : response :=
  Response status (allowed_origin h) (negb (bool_decide (request_origin h = [])) && negb (cf_AllowAnyOrigin cfg)) c.

(** The first part of a launch handler: an answer, or the launch that starts.
    [now] is in nanoseconds. *)
Definition begin_launch (answer : backend_answer) (now : Z) (t : launchTracker) (h : http_request) (k : kind)
    : (response + launch) * launchTracker :=
  match decode_launch_body k (hr_Body h) with
  | None => (inl (respond h StatusBadRequest (Failure §"invalid json body" [])), t)
  | Some l =>
      match validate l now with
      | Some err => (inl (respond h StatusBadRequest (Failure (error_text err) [])), t)
      | None =>
          match verifyConnectorToken (now / 10 ^ 9) answer the_verifier (token_of l) (session_of l) with
          | Some err => (inl (respond h StatusForbidden (Failure (te_message err) (te_code err))), t)
          | None =>
              let '(started, t) := TryStart t (launchKey l) now in
              if started then (inr l, t) else (inl (respond h StatusAccepted (Success §"already_launched")), t)
          end
      end
  end.
(** How a launch ends: well, with an error, with a panic that [withRecovery] answers. *)
Inductive ending := Launched | Refused (message code : bytes) | Panicked.
Definition end_launch (now : Z) (t : launchTracker) (h : http_request) (l : launch) (e : ending) : response * launchTracker :=
  match e with
  | Launched => (respond h StatusAccepted (Success §"launched"), FinishSuccess t (launchKey l) now)
  | Refused message code => (respond h StatusInternalServerError (Failure message code), FinishFailure t (launchKey l))
  | Panicked => (respond h StatusInternalServerError (Failure §"internal connector error" §"internal_error"), t)
  end.

(** The handlers around the mux, from the outside in: [withLocalhostOnly], [withCORS]. *)
Definition serve (answer : backend_answer) (now : Z) (t : launchTracker) (h : http_request) : (response + launch) * launchTracker :=
  if negb (cf_AllowRemote cfg) && negb (isLoopbackRequest (hr_RemoteAddr h)) then
    (inl (Response StatusForbidden [] false
       (Text §"connector only accepts local requests; set ACCESSD_CONNECTOR_ALLOW_REMOTE=true to override")), t)
  else if bool_decide (hr_Method h = §"OPTIONS") then
    (inl (if negb (bool_decide (request_origin h = [])) && bool_decide (allowed_origin h = [])
          then respond h StatusForbidden (Text §"origin not allowed") else respond h StatusNoContent Nothing), t)
  else match route_of (hr_Method h) (hr_Path h) with
       | Launching k => begin_launch answer now t h k
       | Reading => (inl (respond h StatusOK Page), t)
       | Unrouted => (inl (respond h StatusNotFound Page), t)
       end.

(** ** The server, with the launches that are running *)

Inductive event :=
| Starts (at_ : Z) (l : launch)
| Ends (at_ : Z) (l : launch) (e : ending)
| Answers (r : response).
Record server := Server {
  sv_now : Z; sv_tracker : launchTracker; sv_running : gmap nat (http_request * launch); sv_log : list event;
}.
Definition new_server (now : Z) : server := Server now (newLaunchTracker (600 * 10 ^ 9)) ∅ [].

Inductive step : server → server → Prop :=
| step_clock now now' t running log : now <= now' → step (Server now t running log) (Server now' t running log)
| step_answer now t t' running log h answer r : serve answer now t h = (inl r, t') →
    step (Server now t running log) (Server now t' running (log ++ [Answers r]))
| step_start now t t' running log h answer l i : serve answer now t h = (inr l, t') → running !! i = None →
    step (Server now t running log) (Server now t' (<[i := (h, l)]> running) (log ++ [Starts now l]))
| step_end now t t' running log i h l e r : running !! i = Some (h, l) → end_launch now t h l e = (r, t') →
    step (Server now t running log) (Server now t' (delete i running) (log ++ [Ends now l e; Answers r])).
End Handlers.
