(* ===== verification/ConnectorClaims.v ===== *)
(** What the connector's server promises under every interleaving of requests
    and launches: who starts a launch, and how often. *)
From stdpp Require Import relations.
From S2P Require Import Prelude GoStrings GoNet GoEncoding GoCrypto GoFormats Tokens Http Desktop ConnectorAuth Connector.

(** ** The tracker *)

Lemma TryStart_true t key now t' : TryStart t key now = (true, t') →
  lt_ttl t' = lt_ttl t ∧ lt_entries t' !! key = Some (Entry now true false) ∧
  (∀ e, lt_entries t !! key = Some e → busy e = true → lt_ttl t < now - en_startedAt e) ∧
  (∀ key' e, key' ≠ key → lt_entries t !! key' = Some e → lt_entries t' !! key' = Some e ∨ lt_ttl t < now - en_startedAt e).
Proof.
  unfold TryStart. cbn. set (kept := filter _ (lt_entries t)).
  assert (Hkept : ∀ k e, lt_entries t !! k = Some e → kept !! k = Some e ∨ lt_ttl t < now - en_startedAt e).
  { intros k e He. destruct (decide (now - en_startedAt e <= lt_ttl t)); [left|lia]. by apply map_lookup_filter_Some. }
  destruct (kept !! key) as [old|] eqn:Hold; [destruct (busy old) eqn:Hb; [done|]|]; intros [= <-]; cbn.
  all: split_and!; [done|by rewrite lookup_insert_eq| |].
  1,3: intros e He Hbusy; destruct (Hkept key e He) as [Hk|?]; [|done]; congruence.
  all: intros k e Hne He; rewrite lookup_insert_ne by done; by apply Hkept.
Qed.
Lemma TryStart_false t key now t' : TryStart t key now = (false, t') →
  lt_ttl t' = lt_ttl t ∧ (∀ key' e, lt_entries t !! key' = Some e → lt_entries t' !! key' = Some e ∨ lt_ttl t < now - en_startedAt e).
Proof.
  unfold TryStart. cbn. set (kept := filter _ (lt_entries t)).
  assert (Hkept : ∀ k e, lt_entries t !! k = Some e → kept !! k = Some e ∨ lt_ttl t < now - en_startedAt e).
  { intros k e He. destruct (decide (now - en_startedAt e <= lt_ttl t)); [left|lia]. by apply map_lookup_filter_Some. }
  destruct (kept !! key) as [old|]; [destruct (busy old); [|done]|done]. intros [= <-]. done.
Qed.

Section Server.
Context `{Unicode} (cfg : config).

Lemma serve_answers answer now t h r t' : serve cfg answer now t h = (inl r, t') → t' = t ∨ ∃ key, TryStart t key now = (false, t').
Proof.
  unfold serve, begin_launch. intros E. repeat case_match; simplify_eq; auto. right. eauto.
Qed.
(** What is checked before a launch starts. *)
Lemma serve_starts answer now t h l t' : serve cfg answer now t h = (inr l, t') →
  TryStart t (launchKey l) now = (true, t') ∧ validate l now = None ∧
  verifyConnectorToken (now / 10 ^ 9) answer (the_verifier cfg) (token_of l) (session_of l) = None ∧
  (cf_AllowRemote cfg = true ∨ isLoopbackRequest (hr_RemoteAddr h) = true) ∧
  ∃ k, route_of (hr_Method h) (hr_Path h) = Launching k ∧ decode_launch_body k (hr_Body h) = Some l.
Proof.
  unfold serve, begin_launch. intros E. destruct (negb _ && negb _) eqn:Hl; [done|]. case_bool_decide; [done|].
  destruct (route_of _ _) as [k| |] eqn:Hroute; [|done|done].
  destruct (decode_launch_body k _) as [l'|] eqn:Hd; [|done]. destruct (validate l' now) eqn:Hv; [done|].
  destruct (verifyConnectorToken _ _ _ _ _) eqn:Ht; [done|]. destruct (TryStart _ _ _) as [[] t1] eqn:Hs; [|done].
  injection E as <- <-. split_and!; [done|done|done| |by eauto].
  destruct (cf_AllowRemote cfg); [by left|]. right. by apply negb_false_iff in Hl.
Qed.

(** When the latest launch of a key started, unless one of that key was refused since. *)
Definition note_event (key : bytes) (since : option Z) (ev : event) : option Z :=
  match ev with
  | Starts at_ l => if bool_decide (launchKey l = key) then Some at_ else since
  | Ends _ l (Refused _ _) => if bool_decide (launchKey l = key) then None else since
  | _ => since
  end.
Definition launched_since (key : bytes) (log : list event) : option Z := fold_left (note_event key) log None.
Lemma launched_since_snoc key log ev : launched_since key (log ++ [ev]) = note_event key (launched_since key log) ev.
Proof. unfold launched_since. by rewrite fold_left_app. Qed.

Definition lifetime : Z := 600 * 10 ^ 9.
Record inv (s : server) : Prop := {
  inv_ttl : lt_ttl (sv_tracker s) = lifetime;
  inv_known : ∀ key t0, launched_since key (sv_log s) = Some t0 → t0 <= sv_now s ∧
    ((∃ e, lt_entries (sv_tracker s) !! key = Some e ∧ t0 <= en_startedAt e ∧ busy e = true) ∨ lifetime < sv_now s - t0);
  inv_apart : ∀ before at_ l after t0, sv_log s = before ++ Starts at_ l :: after →
    launched_since (launchKey l) before = Some t0 → lifetime < at_ - t0;
}.

Lemma snoc_split {A} (log : list A) ev before x after : log ++ [ev] = before ++ x :: after →
  (after = [] ∧ before = log ∧ x = ev) ∨ ∃ after', after = after' ++ [ev] ∧ log = before ++ x :: after'.
Proof.
  destruct after as [|y after _] using rev_ind.
  - intros E. apply app_inj_tail in E as [-> ->]. by left.
  - rewrite app_comm_cons, app_assoc. intros E. apply app_inj_tail in E as [-> ->]. right. by eexists.
Qed.
(** Logging anything but a start keeps the starts apart. *)
Lemma apart_snoc log ev : (∀ at_ l, ev ≠ Starts at_ l) →
  (∀ before at_ l after t0, log = before ++ Starts at_ l :: after → launched_since (launchKey l) before = Some t0 → lifetime < at_ - t0) →
  ∀ before at_ l after t0, log ++ [ev] = before ++ Starts at_ l :: after → launched_since (launchKey l) before = Some t0 → lifetime < at_ - t0.
Proof.
  intros Hev Hlog before at_ l after t0 E. apply snoc_split in E as [(_ & _ & E)|(after' & _ & ->)]; [by destruct (Hev _ _ (eq_sym E))|].
  by eapply Hlog.
Qed.

Lemma end_launch_entries now t h l e r t' log : end_launch cfg now t h l e = (r, t') → lt_ttl t' = lt_ttl t ∧
  ∀ key t0, note_event key (launched_since key log) (Ends now l e) = Some t0 → t0 <= now →
  ∀ e0, lt_entries t !! key = Some e0 → t0 <= en_startedAt e0 → busy e0 = true →
  ∃ e1, lt_entries t' !! key = Some e1 ∧ t0 <= en_startedAt e1 ∧ busy e1 = true.
Proof.
  destruct e as [|message code|]; cbn [end_launch note_event]; intros [= <- <-].
  - unfold FinishSuccess. split; [by destruct (lt_entries t !! launchKey l)|]. intros key t0 _ Hle e0 He Hle0 Hb.
    destruct (decide (key = launchKey l)) as [->|Hne].
    + rewrite He. cbn. rewrite lookup_insert_eq. by exists (Entry now false true).
    + exists e0. split_and!; [|done|done]. destruct (lt_entries t !! launchKey l); [|done]. cbn. by rewrite lookup_insert_ne.
  - split; [done|]. intros key t0. case_bool_decide as Hkey; [done|]. intros _ _ e0 He Hle0 Hb. exists e0. cbn. by rewrite lookup_delete_ne.
  - split; [done|]. intros key t0 _ _ e0 He Hle0 Hb. by exists e0.
Qed.
Lemma step_inv s s' : step cfg s s' → inv s → inv s'.
Proof.
  intros [now now' t running log Hle|now t t' running log h answer r E|now t t' running log h answer l i E Hi|now t t' running log i h l e r Hi E] [Httl Hk Ha].
  all: cbn [sv_now sv_tracker sv_running sv_log] in *.
  - split; [done| |done]. cbn. intros key t0 H0. destruct (Hk key t0 H0) as [? [(e & ? & ? & ?)|?]]; (split; [lia|]); [left; by exists e|right; lia].
  - assert (Hkeep : lt_ttl t' = lt_ttl t ∧ ∀ key e, lt_entries t !! key = Some e → lt_entries t' !! key = Some e ∨ lt_ttl t < now - en_startedAt e).
    { apply serve_answers in E as [->|[key E]]; [by auto|by eapply TryStart_false]. }
    destruct Hkeep as [Ht' Hkeep]. split; cbn [sv_now sv_tracker sv_log]; [congruence| |by apply apart_snoc].
    intros key t0. rewrite launched_since_snoc. cbn [note_event]. intros H0. destruct (Hk key t0 H0) as [? [(e & He & ? & ?)|?]]; (split; [done|]); [|by right].
    destruct (Hkeep key e He) as [?|?]; [left; by exists e|right; lia].
  - apply serve_starts in E as (E & _). apply TryStart_true in E as (Ht' & Hnew & Hfree & Hkeep). split; cbn [sv_now sv_tracker sv_log]; [congruence| |].
    + intros key t0. rewrite launched_since_snoc. cbn [note_event]. case_bool_decide as Hkey.
      * intros [= <-]. subst key. split; [lia|]. left. eexists. split; [exact Hnew|]. by cbn.
      * intros H0. destruct (Hk key t0 H0) as [? [(e & He & ? & ?)|?]]; (split; [done|]); [|by right].
        destruct (Hkeep key e) as [?|?]; [done|done|left; by exists e|right; lia].
    + intros before at_ l' after t0 Eq. apply snoc_split in Eq as [(_ & -> & [= -> ->])|(after' & _ & ->)]; [|by eapply Ha].
      intros H0. destruct (Hk _ t0 H0) as [? [(e & He & ? & Hb)|?]]; [|done]. specialize (Hfree e He Hb). lia.
  - rewrite (app_assoc log [Ends now l e] [Answers r] : log ++ [Ends now l e; Answers r] = _).
    assert (Hown : ∀ key t0, note_event key (launched_since key log) (Ends now l e) = Some t0 → launched_since key log = Some t0)
      by (intros key t0; cbn; destruct e; [done|by case_bool_decide|done]).
    assert (Hend : lt_ttl t' = lt_ttl t ∧ ∀ key t0, note_event key (launched_since key log) (Ends now l e) = Some t0 → t0 <= now →
      ∀ e0, lt_entries t !! key = Some e0 → t0 <= en_startedAt e0 → busy e0 = true →
      ∃ e1, lt_entries t' !! key = Some e1 ∧ t0 <= en_startedAt e1 ∧ busy e1 = true) by by eapply end_launch_entries.
    destruct Hend as [Ht' Hend]. split; cbn [sv_now sv_tracker sv_log]; [congruence| |by do 2 (apply apart_snoc; [done|])].
    intros key t0. rewrite launched_since_snoc. cbn [note_event]. rewrite launched_since_snoc. intros H0.
    destruct (Hk key t0 (Hown _ _ H0)) as [Hle [(e0 & He & Hle0 & Hb)|?]]; (split; [done|]); [left; by eapply Hend|by right].
Qed.
End Server.

(** * Claims *)

Section Claims.
Context `{Unicode} (cfg : config).

Lemma new_server_inv now : inv (new_server now).
Proof. split; [done|done|]. intros before at_ l after t0 E. by destruct before. Qed.
Lemma reachable_inv now s : rtc (step cfg) (new_server now) s → inv s.
Proof.
  remember (new_server now) as s0 eqn:E0. assert (inv s0) as Hi by (subst; apply new_server_inv). clear E0. intros Hrun. revert Hi.
  induction Hrun as [|s0 s1 s Hstep _ IH]; [done|]. intros Hi%(step_inv cfg _ _ Hstep). auto.
Qed.

(** C6.  However requests and the ends of launches interleave, a session is
    launched once: when a launch of a session starts, every earlier launch of
    the same kind and session that no refused launch of it has followed started
    more than ten minutes before, whether it is still running, succeeded or
    panicked. *)
Theorem sessions_launch_once now s before at_ l after t0 : rtc (step cfg) (new_server now) s →
  sv_log s = before ++ Starts at_ l :: after → launched_since (launchKey l) before = Some t0 → 600 * 10 ^ 9 < at_ - t0.
Proof. intros Hs Hlog Ht0. destruct (reachable_inv now s Hs) as [_ _ Hapart]. exact (Hapart _ _ _ _ _ Hlog Ht0). Qed.

(** Every start was checked. *)
Definition checked (at_ : Z) (l : launch) : Prop :=
  validate l at_ = None ∧
  ∃ h k answer, route_of (hr_Method h) (hr_Path h) = Launching k ∧ decode_launch_body k (hr_Body h) = Some l ∧
    (cf_AllowRemote cfg = true ∨ isLoopbackRequest (hr_RemoteAddr h) = true) ∧
    verifyConnectorToken (at_ / 10 ^ 9) answer (the_verifier cfg) (token_of l) (session_of l) = None.
Lemma starts_checked now s at_ l : rtc (step cfg) (new_server now) s → Starts at_ l ∈ sv_log s → checked at_ l.
Proof.
  assert (Hall : ∀ s s', step cfg s s' → (∀ a l, Starts a l ∈ sv_log s → checked a l) → ∀ a l, Starts a l ∈ sv_log s' → checked a l).
  { intros s0 s1 Hstep Hs a l0. destruct Hstep as [|now0 t t' running log h answer r E|now0 t t' running log h answer l' i E Hi|]; cbn in *; [auto| | |].
    - intros [?|?]%elem_of_app; [auto|set_solver].
    - intros [?|[= -> ->]%list_elem_of_singleton]%elem_of_app; [auto|]. apply serve_starts in E as (_ & Hv & Ht & Hr & k & Hk & Hd).
      split; [done|]. by exists h, k, answer.
    - intros [?|?]%elem_of_app; [auto|set_solver]. }
  remember (new_server now) as s0 eqn:E0. assert (∀ a l, Starts a l ∈ sv_log s0 → checked a l) as Hi by (subst; set_solver). clear E0.
  intros Hrun. revert Hi. induction Hrun as [|s0 s1 s Hstep _ IH]; [auto|]. intros Hi. apply IH. by apply (Hall s0).
Qed.

(** C8.  A connector that has the shared secret and nothing to fall back on
    launches only for who has it: each launch came by POST from a loopback
    address, unless remote ones are allowed, passed its validation, and carries
    a token whose second part decodes to the HMAC-SHA256 of the first under the
    secret, with the session of the launch and an expiry yet to come. *)
Theorem launches_carry_a_signed_token now s at_ l secret : rtc (step cfg) (new_server now) s →
  main_verifier (cf_ConnectorSecret cfg) (cf_BackendVerifyURL cfg) = Some (Local secret) → Starts at_ l ∈ sv_log s →
  validate l at_ = None ∧
  (∃ h k, hr_Method h = §"POST" ∧ decode_launch_body k (hr_Body h) = Some l ∧
     (cf_AllowRemote cfg = true ∨ isLoopbackRequest (hr_RemoteAddr h) = true)) ∧
  ∃ bodyPart sigPart body claims, SplitByte (TrimSpace (token_of l)) "."%byte = [bodyPart; sigPart] ∧
    b64_decode sigPart = Some (hmac_sha256 secret bodyPart) ∧ b64_decode bodyPart = Some body ∧ unmarshal_claims body = Some claims ∧
    TrimSpace (cc_SessionID claims) = TrimSpace (session_of l) ∧ at_ / 10 ^ 9 < cc_ExpiresAt claims.
Proof.
  intros Hrun Hver Hin. destruct (starts_checked now s at_ l Hrun Hin) as (Hv & h & k & answer & Hroute & Hd & Hr & Ht).
  split_and!; [done| |].
  - exists h, k. split_and!; [|done|done]. revert Hroute. unfold route_of. case_bool_decide; [done|]. by destruct (_ && _).
  - revert Ht. unfold verifyConnectorToken, the_verifier. rewrite Hver. case_bool_decide; [done|]. cbn [verify]. unfold VerifyLocal.
    destruct (signed_body _ secret _) as [body|e] eqn:Eb; [|done]. apply signed_body_sound in Eb as (p & q & Hs & Hq & Hp). rewrite TrimSpace_idem in Hs.
    destruct (unmarshal_claims body) as [claims|] eqn:Eu; [|done]. destruct (_ <=? _) eqn:Ee; [done|]. case_bool_decide as Hsid; [|done].
    intros _. exists p, q, body, claims. gobool. auto 10.
Qed.

Definition with_origin (h : http_request) (origin : bytes) : http_request :=
  HttpRequest (hr_Method h) (hr_Path h) origin (hr_RemoteAddr h) (hr_Body h).

(** C21.  The origin of a request decides nothing but preflights: with any other
    [Origin] header a request that is no preflight starts the same launch, or
    none, and leaves the same tracker.  A page of any origin can so launch with
    a simple POST, whose body is read as JSON whatever its type; only a
    preflight from an origin that is neither loopback nor allowed is refused. *)
Theorem origins_gate_only_preflights answer now t h origin :
  (hr_Method h ≠ §"OPTIONS" →
     (serve cfg answer now t (with_origin h origin)).2 = (serve cfg answer now t h).2 ∧
     ∀ l, (serve cfg answer now t (with_origin h origin)).1 = inr l ↔ (serve cfg answer now t h).1 = inr l) ∧
  (hr_Method h = §"OPTIONS" → isLoopbackRequest (hr_RemoteAddr h) = true →
     ∃ r, serve cfg answer now t (with_origin h origin) = (inl r, t) ∧
       (rs_Status r = 403 ↔ TrimSpace origin ≠ [] ∧ allow_origin (cf_AllowedOrigins cfg) (cf_AllowAnyOrigin cfg) (TrimSpace origin) = [])).
Proof.
  split.
  - intros Hm. unfold serve, with_origin. cbn. destruct (_ && _); [done|]. rewrite !bool_decide_false by done.
    destruct (route_of _ _) as [k| |]; [|done|done]. unfold begin_launch. cbn.
    destruct (decode_launch_body k _) as [l|]; [|done]. destruct (validate l now); [done|]. destruct (verifyConnectorToken _ _ _ _ _); [done|].
    destruct (TryStart _ _ _) as [[] ?]; done.
  - intros Hm Hlocal. unfold serve, with_origin. cbn. rewrite Hlocal, Hm, andb_false_r, bool_decide_true by done.
    eexists. split; [reflexivity|]. unfold request_origin, allowed_origin, request_origin. cbn.
    destruct (decide (TrimSpace origin = [])) as [E|E]; [rewrite (bool_decide_true (TrimSpace origin = [])) by done; cbn; naive_solver|].
    rewrite (bool_decide_false (TrimSpace origin = [])) by done. cbn. case_bool_decide; cbn; naive_solver.
Qed.
End Claims.
