(* ===== verification/ConnectorExamples.v ===== *)
(** Runs of the connector's server: a session launched twice, far enough apart,
    a launch with a signed token, a POST from a foreign page, and the tokens of
    ConnectorTokens.v.  Then concrete launches: a machine, requests with awkward
    names, and the theorems of DesktopClaims.v and DesktopLogs.v at them. *)
From stdpp Require Import relations.
From S2P Require Import Prelude GoStrings GoTexts GoUtf16 GoNet GoEncoding GoCrypto GoFormats Tokens Http Store ShellText Desktop DesktopRun DesktopSpec DesktopClaims DesktopLogs ConnectorAuth ConnectorBackend ConnectorTokens Connector ConnectorClaims.

#[local] Existing Instance ascii_tables.

(** A JSON text written with single quotes. *)
Definition json_text (s : bytes) : bytes := map (λ c, if bool_decide (c = "'"%byte) then z2b 34 else c) s.
Definition token_for (sid : bytes) : bytes := sample_token (Sign §"secret" (LaunchClaims sid §"u1" §"a1" §"shell" [] 1800000000 [])).
Definition shell_body (token : bytes) : bytes :=
  json_text (§"{'session_id':'s1','connector_token':'" ++ token ++
    §"','launch':{'proxy_host':'10.0.0.1','proxy_port':2222,'username':'ops','token':'tk','expires_at':'2030-01-01T00:00:00Z'}} trailing").
Definition shell_launch (token : bytes) : launch :=
  LShell (MkRequest §"s1" [] token (MkShell §"10.0.0.1" 2222 §"ops" [] [] [] [] §"tk" §"2030-01-01T00:00:00Z")).
Definition post (origin token : bytes) : http_request :=
  HttpRequest §"POST" §"/launch/shell" origin §"127.0.0.1:50432" (shell_body token).
Definition with_secret : config := Config [§"https://accessd.corp"] false false false §" secret " [].
Definition without_tokens : config := Config [§"https://accessd.corp"] false false true [] [].
Definition silent : backend_answer := NoAnswer [].
Definition fresh : launchTracker := newLaunchTracker (600 * 10 ^ 9).

Lemma serve_launch cfg answer now t h l : (serve cfg answer now t h).1 = inr l →
  serve cfg answer now t h = (inr l, (serve cfg answer now t h).2).
Proof. intros <-. apply surjective_pairing. Qed.

(** Launched, again ten minutes and a second later. *)
Definition later : Z := 601 * 10 ^ 9.
Definition t1 : launchTracker := (serve without_tokens silent 0 fresh (post [] [])).2.
Definition t2 : launchTracker := (end_launch without_tokens 0 t1 (post [] []) (shell_launch []) Launched).2.
Definition t3 : launchTracker := (serve without_tokens silent later t2 (post [] [])).2.
Definition ended : response := (end_launch without_tokens 0 t1 (post [] []) (shell_launch []) Launched).1.
Definition twice : server :=
  Server later t3 {[0%nat := (post [] [], shell_launch [])]}
    ([Starts 0 (shell_launch []); Ends 0 (shell_launch []) Launched; Answers ended] ++ [Starts later (shell_launch [])]).
Lemma first_launch : (serve without_tokens silent 0 fresh (post [] [])).1 = inr (shell_launch []).
Proof. by vm_compute. Qed.
Lemma second_launch : (serve without_tokens silent later t2 (post [] [])).1 = inr (shell_launch []).
Proof. by vm_compute. Qed.
Lemma reaches_twice : rtc (step without_tokens) (new_server 0) twice.
Proof.
  eapply rtc_l; [apply (step_start _ 0 fresh t1 ∅ [] (post [] []) silent (shell_launch []) 0 (serve_launch _ _ _ _ _ _ first_launch)); done|].
  eapply rtc_l; [apply (step_end _ 0 t1 t2 _ _ 0%nat (post [] []) (shell_launch []) Launched ended); [by rewrite lookup_insert_eq|apply surjective_pairing]|].
  eapply rtc_l; [apply (step_clock _ 0 later); by vm_compute|].
  eapply rtc_l; [|apply rtc_refl].
  rewrite delete_insert_eq, delete_empty.
  apply (step_start _ later t2 t3 ∅ _ (post [] []) silent (shell_launch []) 0 (serve_launch _ _ _ _ _ _ second_launch)). done.
Qed.
Lemma sessions_launch_once_witness : 600 * 10 ^ 9 < later - 0.
Proof.
  exact (sessions_launch_once without_tokens 0 twice [Starts 0 (shell_launch []); Ends 0 (shell_launch []) Launched; Answers ended] later
    (shell_launch []) [] 0 reaches_twice eq_refl ltac:(by vm_compute)).
Defined.
(** Sooner, the answer is that it was launched. *)
Example too_soon : (serve without_tokens silent (599 * 10 ^ 9) t2 (post [] [])).1 =
  inl (Response 202 [] false (Success §"already_launched")).
Proof. by vm_compute. Qed.

Definition signed : server :=
  Server 0 (serve with_secret silent 0 fresh (post [] (token_for §"s1"))).2 {[0%nat := (post [] (token_for §"s1"), shell_launch (token_for §"s1"))]}
    [Starts 0 (shell_launch (token_for §"s1"))].
Lemma signed_launch : (serve with_secret silent 0 fresh (post [] (token_for §"s1"))).1 = inr (shell_launch (token_for §"s1")).
Proof. by vm_compute. Qed.
Lemma reaches_signed : rtc (step with_secret) (new_server 0) signed.
Proof.
  eapply rtc_l; [|apply rtc_refl].
  apply (step_start _ 0 fresh _ ∅ [] _ silent _ 0 (serve_launch _ _ _ _ _ _ signed_launch)). done.
Qed.
Lemma launches_carry_a_signed_token_witness :
  ∃ bodyPart sigPart, SplitByte (TrimSpace (token_of (shell_launch (token_for §"s1")))) "."%byte = [bodyPart; sigPart] ∧
    b64_decode sigPart = Some (hmac_sha256 §"secret" bodyPart).
Proof.
  destruct (launches_carry_a_signed_token with_secret 0 signed 0 (shell_launch (token_for §"s1")) §"secret" reaches_signed
    ltac:(by vm_compute) ltac:(by left)) as (_ & _ & bodyPart & sigPart & _ & _ & Hs & Hq & _).
  exists bodyPart, sigPart. exact (conj Hs Hq).
Defined.
Example other_sessions_token : (serve with_secret silent 0 fresh (post [] (token_for §"s2"))).1 =
  inl (Response 403 [] false (Failure §"connector token does not match requested session" §"connector_token_session_mismatch")).
Proof. by vm_compute. Qed.

(** A page of another origin launches; its preflight is refused. *)
Example foreign_post : ∃ t, serve without_tokens silent 0 fresh (post §"https://evil.example" []) = (inr (shell_launch []), t).
Proof. eexists. apply serve_launch. by vm_compute. Qed.
Example foreign_preflight : ∃ t, serve without_tokens silent 0 fresh
    (HttpRequest §"OPTIONS" §"/launch/shell" §"https://evil.example" §"127.0.0.1:50432" []) = (inl (Response 403 [] true (Text §"origin not allowed")), t).
Proof. eexists. by vm_compute. Qed.
Lemma origins_gate_only_preflights_witness :
  (serve without_tokens silent 0 fresh (with_origin (post [] []) §"https://evil.example")).1 = inr (shell_launch []).
Proof.
  destruct (origins_gate_only_preflights without_tokens silent 0 fresh (post [] []) §"https://evil.example") as [Hpost _].
  destruct (Hpost ltac:(done)) as [_ Hl]. apply Hl. exact first_launch.
Defined.

(** The backend's answer about a token, over JSON and back. *)
Definition dbeaver_claims : LaunchTokenClaims := LaunchClaims §"s1" §"u1" §"a1" §"dbeaver" §"r1" 1800000000 [].
Definition dbeaver_token : bytes := sample_token (Sign §"secret" dbeaver_claims).
Definition backend_only : verifier := Remote §"https://accessd.corp/api/connector/token/verify".
Lemma issued_tokens_open_their_session_witness :
  verifyConnectorToken 1700000000 (ask_backend §"secret" 1700000000 dbeaver_token) (Some backend_only) dbeaver_token §"s1" =
  (if lc_ExpiresAt dbeaver_claims <=? 1700000000 then
      Some (match backend_only with Remote _ => TokenError §"connector token verification unavailable" §"connector_token_verify_unavailable"
            | _ => TokenError §"connector token expired" §"connector_token_expired" end)
    else if bool_decide (TrimSpace (lc_SessionID dbeaver_claims) = TrimSpace §"s1") then None
    else Some (TokenError §"connector token does not match requested session" §"connector_token_session_mismatch")).
Proof.
  apply (issued_tokens_open_their_session §"secret" 1700000000 dbeaver_claims dbeaver_token []
    §"https://accessd.corp/api/connector/token/verify" backend_only §"s1"); [by vm_compute|by vm_compute|left; by vm_compute|by vm_compute].
Defined.
Example backend_accepts :
  verifyConnectorToken 1700000000 (ask_backend §"secret" 1700000000 dbeaver_token) (Some backend_only) dbeaver_token §"s1" = None.
Proof. by vm_compute. Qed.

(** * Launches on the desktop *)

Definition sample_machine (o : os) (terminal : bytes) : machine :=
  Machine o (Some §"/opt/accessd connector") (λ name, Some (§"/usr/bin/" ++ name)) (λ _, Some false) (λ _, None) (λ _, [])
    (λ _, inl §"/usr/bin/redis-cli") terminal §"accept-new" §"/home/ops/.accessd/known_hosts" §"/tmp/token-1" 0.
Definition awkward : bytes := §"db'; rm -rf $HOME # `id`".
Definition sample_shell (asset : bytes) : Request :=
  MkRequest §"s1" asset §"t" (MkShell §"10.0.0.1" 2222 §"ops" [] [] [] §"web1" §"launch-token" §"2030-01-01T00:00:00Z").
Definition sample_redis (asset : bytes) : RedisRequest :=
  MkRedisRequest §"s1" asset §"t" (MkRedis §"10.0.0.1" 6380 §"$(ops)" awkward 3 true false §"2030-01-01T00:00:00Z").
Definition desktop : desk := Desk [] [] [].

Lemma launched_shells_run_only_the_bridge_witness :
  ∃ new, dk_effects (LaunchShell (sample_machine Linux []) (sample_shell awkward) desktop).2 = [] ++ new ∧
    ∀ argv, Spawned argv ∈ new → opens_bridge (sample_machine Linux []) (sample_shell awkward) argv.
Proof.
  exact (launched_shells_run_only_the_bridge (sample_machine Linux []) (sample_shell awkward) 0 desktop _ _ (or_intror eq_refl)
    ltac:(by vm_compute) (surjective_pairing _)).
Defined.
Example shell_on_linux : dk_effects (LaunchShell (sample_machine Linux []) (sample_shell awkward) desktop).2 =
  [TokenFile §"/tmp/token-1" (§"launch-token" ++ [newline]);
   Spawned [§"x-terminal-emulator"; §"-e"; §"bash"; §"-lc";
     shellCommand_text §"/opt/accessd connector" §"/tmp/token-1" §"accept-new" §"/home/ops/.accessd/known_hosts" (sample_shell awkward)]].
Proof. by vm_compute. Qed.

Lemma redis_terminals_run_the_eight_commands_witness :
  ∃ new, dk_effects (LaunchRedisCLI (sample_machine Darwin []) (sample_redis awkward) desktop).2 = [] ++ new ∧ ∀ argv, Spawned argv ∈ new →
    head argv = Some §"xfce4-terminal" ∨
    ∃ path command, mc_resolve (sample_machine Darwin []) AppRedisCLI = inl path ∧ shell_text argv = Some command ∧
      sh_commands command = Some (redis_commands (auto_insecure (sample_machine Darwin [])) (sample_redis awkward) path).
Proof.
  exact (redis_terminals_run_the_eight_commands (sample_machine Darwin []) (sample_redis awkward) 0 desktop _ _ ltac:(done)
    ltac:(by vm_compute) (surjective_pairing _)).
Defined.
Example redis_on_macos :
  length (dk_effects (LaunchRedisCLI (sample_machine Darwin []) (sample_redis awkward) desktop).2) = 1%nat.
Proof. by vm_compute. Qed.

Lemma xfce_terminals_expand_asset_names_witness :
  let req := sample_shell §"'$(reboot>/dev/null)'" in
  ∃ command,
    shell_text (terminal_argv §"xfce4-terminal" (shellCommand_text §"/opt/connector" §"/tmp/token-1" §"accept-new" §"/home/ops/known_hosts" req)) = Some command ∧
    sh_commands command = Some [bridge_words §"/opt/connector" §"/tmp/token-1" §"accept-new" §"/home/ops/known_hosts" req
                                  (("$"%byte, true) :: literal (§"(" ++ §"reboot>/dev/null" ++ §")"))].
Proof.
  intros req. apply (xfce_terminals_expand_asset_names §"/opt/connector" §"/tmp/token-1" §"accept-new" §"/home/ops/known_hosts" req
    §"reboot>/dev/null"); [by vm_compute..|]. repeat (constructor; [by vm_compute|]). constructor.
Defined.

Lemma windows_redis_sessions_run_asset_names_witness :
  ∃ command, LaunchRedisCLI (sample_machine Windows []) (sample_redis §"cache & calc.exe & rem") desktop =
      (Ok (inl tt), Desk (dk_effects desktop ++ [Spawned [§"cmd"; §"/C"; §"start"; []; §"cmd"; §"/K"; command]]) [] []) ∧
    §" calc.exe " ∈ cmd_commands command.
Proof.
  exact (windows_redis_sessions_run_asset_names (sample_machine Windows []) (sample_redis §"cache & calc.exe & rem") §"cache " §" calc.exe " §" rem"
    §"/usr/bin/redis-cli" desktop eq_refl eq_refl eq_refl ltac:(by vm_compute) ltac:(by vm_compute) ltac:(by vm_compute) ltac:(by vm_compute)).
Defined.

(** Case tables that map the bytes of ASCII and no others. *)
Definition byte_tables : Unicode := {| uni_lower := map lower_byte; uni_upper := map upper_byte; uni_fold := λ s t, bool_decide (map lower_byte s = map lower_byte t) |}.
Lemma byte_tables_lower : @LowersAscii byte_tables.
Proof. intros b s Hb. unfold ToLower, uni_lower, byte_tables. cbn [map]. by destruct (forallb is_ascii s). Qed.
Definition sample_sftp : SFTPRequest :=
  MkSFTPRequest §"s1" §"files" §"t" (MkSFTP §"10.0.0.1" 2222 §"ops" [] [] [] [] §"p@ss:w/rd" §"home" §"2030-01-01T00:00:00Z").
Definition sample_dbeaver : DBeaverRequest :=
  MkDBeaverRequest §"s1" §"orders" §"t"
    (MkDBeaver §"postgres" §"10.0.0.1" 5432 §"orders" §"ops" [] [] §"db1" §"p|q" §"require" §"2030-01-01T00:00:00Z").
#[local] Existing Instance byte_tables_lower.
Lemma logged_sftp_targets_hide_the_password_witness :
  @sanitizeCommandArg byte_tables (filezillaTarget sample_sftp) = Some §"sftp://ops:<redacted>@10.0.0.1:2222/home".
Proof. etransitivity; [apply (@logged_sftp_targets_hide_the_password byte_tables byte_tables_lower sample_sftp)|by vm_compute]. Defined.
Lemma dbeaver_logs_show_what_follows_a_bar_witness : ∃ before after : list bytes,
  @sanitizeCommandArg byte_tables (@dbeaverConnectionSpec byte_tables (with_password sample_dbeaver (§"hunter2" ++ §"|" ++ §"secret"))) =
  @redact_redis byte_tables (join §"|" (before ++ §"password=<redacted>" :: §"secret" :: after)).
Proof.
  destruct (@dbeaver_logs_show_what_follows_a_bar byte_tables byte_tables_lower sample_dbeaver) as (before & after & _ & Hleak).
  exists before, after. apply Hleak.
  - by vm_compute.
  - by apply (bool_decide_unpack _); vm_compute.
  - by apply (bool_decide_unpack _); vm_compute.
  - by vm_compute.
Defined.
Example leaked : @sanitizeCommandArg byte_tables (@dbeaverConnectionSpec byte_tables (with_password sample_dbeaver §"hunter2|secret")) =
  Some §"driver=postgresql|host=10.0.0.1|port=5432|user=ops|connect=true|openConsole=true|savePassword=true|password=<redacted>|secret|database=orders|sslMode=require|name=orders - ops (db1) [s1]".
Proof. by vm_compute. Qed.
