(* ===== verification/History.v ===== *)
(** What is recorded of a session and how it is read back: the rest of
    apps/api/internal/sessions/service.go (events of data and resizes, the
    replay, lists, details, the audit trail) and the handlers of
    apps/api/internal/handlers/sessions.go that answer with it (lists, details,
    events, replay, the exports).

    A [float64] is its value in binary64 arithmetic ([spec_float]); how it is
    written in a JSON text, and read from one that is no integer, is a
    parameter, and so are the names of the users and the collation of the
    database ([Columns]).  The column [payload] is jsonb, which has no NUL: what
    PostgreSQL makes of the texts of the other events is in Store.v without that
    restriction.  The answers are values: how a header is quoted is left out. *)
From Stdlib Require Import SpecFloat.
From stdpp Require Import sorting.
From S2P Require Import Prelude GoStrings GoNet GoEncoding GoUtf16 GoFormats Tokens Http Store Sessions Identity Auth Launch.
From S2P Require Assets.

(** ** Numbers *)

Definition float : Type := spec_float.
Definition of_Z (z : Z) : float := binary_normalize 53 1024 z 0 false.
Definition fsub : float → float → float := SFsub 53 1024.
Definition fpositive (f : float) : bool := SFltb (of_Z 0) f.
Definition fnegative (f : float) : bool := SFltb f (of_Z 0).
(** [Duration.Seconds]. *)
Definition seconds (d : Z) : float :=
  SFadd 53 1024 (of_Z (Z.quot d (10 ^ 9))) (SFdiv 53 1024 (of_Z (Z.rem d (10 ^ 9))) (of_Z (10 ^ 9))).
(** [int(f)], for what fits. *)
Definition truncated (f : float) : Z :=
  match f with
  | S754_finite sign m e => let z := Z.shiftl (Zpos m) e in if sign then - z else z
  | _ => 0
  end.
Class FloatText := {
  float_text : float → bytes;
  parse_fraction : bytes → float;
}.
Section Texts.
Context `{FloatText}.
Definition parse_float (literal : bytes) : float := match Atoi literal with Some z => of_Z z | None => parse_fraction literal end.
Definition intFromAny (v : option json) : Z := match v with Some (JNum literal) => truncated (parse_float literal) | _ => 0 end.
Definition floatFromAny (v : option json) : float := match v with Some (JNum literal) => parse_float literal | _ => of_Z 0 end.
End Texts.

(** ** Recording *)

Definition EventDataIn : bytes := §"data_in".
Definition EventDataOut : bytes := §"data_out".
Definition EventTerminalResize : bytes := §"terminal_resize".
Definition pg_untranslatable : error := ErrVar §"pgx: unsupported Unicode escape sequence".

(** A text that jsonb has no value for: one with a NUL. *)
Definition nul : byte := "000"%byte.
Fixpoint json_nul (v : json) : bool :=
  match v with
  | JStr s => has_byte s nul
  | JArr items => existsb json_nul items
  | JObj fields => existsb (λ f, has_byte f.1 nul || json_nul f.2) fields
  | _ => false
  end.
Definition jsonb_ok (p : payload) : bool := forallb (λ kv, negb (has_byte kv.1 nul) && negb (json_nul kv.2)) (map_to_list p).
(** What [json.Marshal] and jsonb keep of a string: what is not UTF-8 becomes U+FFFD. *)
Definition marshalled (s : bytes) : bytes := runes_string (runes s).

(** What the statements read of tables that the model of the sessions leaves
    out, and the order of texts in the database. *)
Class Columns := {
  username_of : bytes → bytes;
  text_le : bytes → bytes → bool;
}.

Section Service.
Context `{Unicode, Postgres, FloatText, Columns}.

Definition WritePayload (sessionID eventType : bytes) (actor : option bytes) (p : payload) : M db unit :=
  if bool_decide (TrimSpace sessionID = []) || bool_decide (TrimSpace eventType = []) || jsonb_ok p
  then WriteEvent sessionID eventType actor p
  else wrap_err §"insert session event" (statement (λ _ _ _, inr (if pg_uuid (TrimSpace sessionID) then pg_untranslatable else pg_bad_uuid))).
Definition RecordDataEvent (sessionID eventType stream chunk : bytes) (offsetSec : float) : M db unit :=
  if bool_decide (chunk = []) then ret tt
  else
    let offset := if fpositive offsetSec then offsetSec else of_Z 0 in
    let castType := if bool_decide (TrimSpace eventType = EventDataIn) then §"i" else §"o" in
    WritePayload sessionID eventType None
      {[ §"stream" := JStr (marshalled stream);
         §"encoding" := JStr §"base64";
         §"size" := JNum (Itoa (zlen chunk));
         §"data" := JStr (std_encode chunk);
         §"recording_format" := JStr §"asciicast-v2-like";
         §"offset_sec" := JNum (float_text offset);
         §"event" := JArr [JNum (float_text offset); JStr castType; JStr (marshalled chunk)] ]}.
Definition resize_text (cols rows : Z) : bytes := Itoa cols ++ §"x" ++ Itoa rows.
Definition RecordTerminalResizeEvent (sessionID : bytes) (cols rows : Z) (offsetSec : float) : M db unit :=
  if bool_decide (TrimSpace sessionID = []) then fail (Errorf §"session id is required")
  else if (cols <=? 0) || (rows <=? 0) then ret tt
  else
    let offset := if fpositive offsetSec then offsetSec else of_Z 0 in
    WritePayload sessionID EventTerminalResize None
      {[ §"recording_format" := JStr §"asciicast-v2-like";
         §"offset_sec" := JNum (float_text offset);
         §"cols" := JNum (Itoa cols);
         §"rows" := JNum (Itoa rows);
         §"event" := JArr [JNum (float_text offset); JStr §"r"; JStr (resize_text cols rows)] ]}.

(** ** Replay *)

Record ReplayChunk := MkChunk {
  rc_EventID : nat; rc_EventTime : Z; rc_EventType : bytes; rc_Direction : bytes; rc_Stream : bytes; rc_Size : Z; rc_Text : bytes;
  rc_Encoded : bytes; rc_OffsetSec : float; rc_DelaySec : float; rc_Cols : Z; rc_Rows : Z; rc_Asciicast : float * bytes * bytes;
}.
Definition string_of (v : option json) : bytes := match v with Some (JStr s) => s | _ => [] end.
Definition replayDataChunkFromPayload (eventID : nat) (eventType : bytes) (eventTime : Z) (p : payload) : option ReplayChunk :=
  let inward := bool_decide (eventType = EventDataIn) in
  let data := string_of (p !! §"data") in
  if bool_decide (TrimSpace data = []) then None
  else match std_decode data with
       | None => None
       | Some decoded =>
           if negb (utf8_valid decoded) then None
           else
             let offset := floatFromAny (p !! §"offset_sec") in
             Some (MkChunk eventID eventTime (if inward then §"input" else §"output") (if inward then §"in" else §"out")
                     (string_of (p !! §"stream")) (intFromAny (p !! §"size")) decoded data offset (of_Z 0) 0 0
                     (offset, if inward then §"i" else §"o", decoded))
       end.
Definition replayResizeChunkFromPayload (eventID : nat) (eventTime : Z) (p : payload) : option ReplayChunk :=
  let cols := intFromAny (p !! §"cols") in
  let rows := intFromAny (p !! §"rows") in
  if (cols <=? 0) || (rows <=? 0) then None
  else
    let offset := floatFromAny (p !! §"offset_sec") in
    Some (MkChunk eventID eventTime §"resize" [] [] 0 [] [] offset (of_Z 0) cols rows (offset, §"r", resize_text cols rows)).
Definition replayChunkFromPayload (eventID : nat) (eventType : bytes) (eventTime : Z) (p : payload) : option ReplayChunk :=
  if bool_decide (eventType ∈ [EventDataIn; EventDataOut]) then replayDataChunkFromPayload eventID eventType eventTime p
  else if bool_decide (eventType = EventTerminalResize) then replayResizeChunkFromPayload eventID eventTime p
  else None.

(** One chunk with its offset normalized, after one at [prev]. *)
Definition normalized (base : Z) (first : bool) (prev : float) (c : ReplayChunk) : ReplayChunk :=
  let offset := if fpositive (rc_OffsetSec c) then rc_OffsetSec c else seconds (rc_EventTime c - base) in
  let offset := if fnegative offset then of_Z 0 else offset in
  let delay := fsub offset prev in
  let delay := if first || fnegative delay then of_Z 0 else delay in
  let cast :=
    if bool_decide (rc_EventType c = §"input") then (offset, §"i", rc_Text c)
    else if bool_decide (rc_EventType c = §"output") then (offset, §"o", rc_Text c)
    else (offset, §"r", resize_text (rc_Cols c) (rc_Rows c)) in
  MkChunk (rc_EventID c) (rc_EventTime c) (rc_EventType c) (rc_Direction c) (rc_Stream c) (rc_Size c) (rc_Text c) (rc_Encoded c)
    offset delay (rc_Cols c) (rc_Rows c) cast.
Fixpoint normalize_from (base : Z) (first : bool) (prev : float) (chunks : list ReplayChunk) : list ReplayChunk :=
  match chunks with
  | [] => []
  | c :: rest => let c := normalized base first prev c in c :: normalize_from base false (rc_OffsetSec c) rest
  end.
Definition normalizeReplayChunks (chunks : list ReplayChunk) : list ReplayChunk :=
  match chunks with [] => [] | c :: _ => normalize_from (rc_EventTime c) true (of_Z 0) chunks end.

(** The events of a session after one, in order. *)
Definition select_events (id : bytes) (types : option (list bytes)) (afterID : Z) (limit : Z) : M db (list event_row) :=
  statement (λ _ _ s,
    match pg_uuid id with
    | None => inr pg_bad_uuid
    | Some u =>
        inl (take (Z.to_nat limit) (order_by (λ e, Z.of_nat (ev_id e))
               (List.filter (λ e, bool_decide (ev_session e = u) &&
                                  match types with Some ts => bool_decide (ev_type e ∈ ts) | None => true end &&
                                  ((afterID <=? 0) || (afterID <? Z.of_nat (ev_id e)))) (d_events s))), s)
    end).
Definition page_size (limit : Z) : Z := Z.min 1000 (if limit <=? 0 then 200 else limit).
Definition ListReplayChunks (sessionID : bytes) (afterID limit : Z) : M db (list ReplayChunk) :=
  let sid := TrimSpace sessionID in
  if bool_decide (sid = []) then fail (Errorf §"session id is required")
  else if afterID <? 0 then fail (Errorf §"after_id must be >= 0")
  else
    let! rows := wrap_err §"list replay chunks"
      (select_events sid (Some [EventDataIn; EventDataOut; EventTerminalResize]) afterID (page_size limit)) in
    ret (normalizeReplayChunks (omap (λ e, replayChunkFromPayload (ev_id e) (ev_type e) (ev_time e) (ev_payload e)) rows)).

(** An event with its actor's name. *)
Record SessionEvent := MkEvent {
  se_ID : nat; se_EventType : bytes; se_EventTime : Z; se_ActorUserID : option bytes; se_ActorUser : option bytes; se_Payload : payload;
}.
Definition event_of (e : event_row) : SessionEvent :=
  MkEvent (ev_id e) (ev_type e) (ev_time e) (ev_actor e) (username_of <$> ev_actor e) (ev_payload e).
Definition ListEvents (sessionID : bytes) (afterID limit : Z) : M db (list SessionEvent) :=
  let sid := TrimSpace sessionID in
  if bool_decide (sid = []) then fail (Errorf §"session id is required")
  else if afterID <? 0 then fail (Errorf §"after_id must be >= 0")
  else
    let! rows := wrap_err §"list session events" (select_events sid None afterID (page_size limit)) in
    ret (map event_of rows).

Record SessionLifecycleSummary := Summary {
  sm_EventCount : nat; sm_ShellStarted : bool; sm_ConnectorRequested : bool; sm_ConnectorSucceeded : bool; sm_ConnectorFailed : bool;
  sm_Ended : bool; sm_Failed : bool; sm_FirstEventAt : option Z; sm_LastEventAt : option Z;
}.
Definition GetLifecycleSummary (sessionID : bytes) : M db SessionLifecycleSummary :=
  let sid := TrimSpace sessionID in
  if bool_decide (sid = []) then fail (Errorf §"session id is required")
  else wrap_err §"get lifecycle summary" (statement (λ _ _ s,
    match pg_uuid sid with
    | None => inr pg_bad_uuid
    | Some u =>
        let es := List.filter (λ e, bool_decide (ev_session e = u)) (d_events s) in
        let has ty := existsb (λ e, bool_decide (ev_type e = ty)) es in
        let over f := match map ev_time es with [] => None | t :: ts => Some (fold_left f ts t) end in
        inl (Summary (length es) (has §"shell_started") (has §"connector_launch_requested") (has §"connector_launch_succeeded")
               (has §"connector_launch_failed") (has §"session_ended") (has §"session_failed") (over Z.min) (over Z.max), s)
    end)).

(** ** Lists and details *)

Definition nonblank (s : bytes) : option bytes := if bool_decide (TrimSpace s = []) then None else Some (TrimSpace s).
Definition isSupportedStatus (status : bytes) : bool :=
  bool_decide (status ∈ [§"pending"; §"active"; §"completed"; §"failed"; §"terminated"; §"expired"]).
Definition isSupportedAction (action : bytes) : bool := bool_decide (action ∈ [§"shell"; §"sftp"; §"dbeaver"; §"redis"]).
Definition isSupportedAssetType (assetType : bytes) : bool :=
  bool_decide (assetType ∈ [Assets.TypeLinuxVM; Assets.TypeDatabase; Assets.TypeRedis]).

Record SessionListFilter := MkFilter {
  sf_UserID : bytes; sf_AssetID : bytes; sf_Status : bytes; sf_Action : bytes; sf_AssetType : bytes;
  sf_From : option Z; sf_To : option Z; sf_Limit : Z;
}.
Record SessionSummary := MkSummary {
  ss_SessionID : bytes; ss_UserID : bytes; ss_Username : bytes; ss_AssetID : bytes; ss_AssetName : bytes; ss_AssetType : bytes;
  ss_Action : bytes; ss_LaunchType : bytes; ss_Status : bytes; ss_StartedAt : option Z; ss_EndedAt : option Z; ss_CreatedAt : Z;
  ss_DurationSeconds : option Z;
}.
Record SessionDetail := MkDetail {
  sd_summary : SessionSummary; sd_Protocol : bytes; sd_LaunchedVia : bytes;
}.

(** [GREATEST(EXTRACT(EPOCH FROM d), 0)::BIGINT], which rounds. *)
Definition epoch_seconds (d : Z) : Z := (Z.max d 0 + 5 * 10 ^ 8) / 10 ^ 9.
Definition duration_seconds (now : Z) (r : session_row) : option Z :=
  match s_started r, s_ended r with
  | None, _ => None
  | Some start, Some stop => Some (epoch_seconds (stop - start))
  | Some start, None => if bool_decide (s_status r = §"active") then Some (epoch_seconds (now - start)) else None
  end.
(** [CASE WHEN s.reason LIKE 'action:%' THEN SUBSTRING(s.reason FROM 8) ELSE s.protocol END]. *)
Definition action_of (r : session_row) : bytes :=
  match s_reason r with
  | Some reason => if HasPrefix reason §"action:" then drop 7 reason else s_protocol r
  | None => s_protocol r
  end.
Definition summary_of (now : Z) (action u : bytes) (r : session_row) (a : asset_row) : SessionSummary :=
  MkSummary u (s_user r) (username_of (s_user r)) (s_asset r) (a_name a) (a_type a) action (launchTypeForAction action) (s_status r)
    (s_started r) (s_ended r) (s_created r) (duration_seconds now r).

(** A time as a parameter of a statement: in microseconds. *)
Definition micros (t : Z) : Z := t / 1000 * 1000.
(** A uuid among the conditions of a statement: [inr] is a syntax error. *)
Definition uuid_condition (v : option bytes) : option bytes + unit :=
  match v with
  | None => inl None
  | Some text => match pg_uuid text with Some u => inl (Some u) | None => inr tt end
  end.
Definition equals (v : option bytes) (x : bytes) : bool := match v with Some y => bool_decide (x = y) | None => true end.
Definition between (from to : option Z) (t : Z) : bool :=
  match from with Some f => micros f <=? t | None => true end && match to with Some l => t <=? micros l | None => true end.
Definition after_to (from to : option Z) : bool := match from, to with Some f, Some t => t <? f | _, _ => false end.
Definition list_size (limit : Z) : Z := Z.min 200 (if limit <=? 0 then 50 else limit).

Definition select_sessions (f : SessionListFilter) (limit : Z) : M db (list SessionSummary) :=
  statement (λ now _ s,
    match uuid_condition (nonblank (sf_UserID f)), uuid_condition (nonblank (sf_AssetID f)) with
    | inl user, inl asset =>
        let rows := omap (λ p : bytes * session_row,
          let '(u, r) := p in
          match d_assets s !! s_asset r with
          | Some a =>
              if bool_decide (s_user r ∈ d_users s) && equals user (s_user r) && equals asset (s_asset r)
                 && equals (nonblank (sf_Status f)) (s_status r)
                 && match nonblank (sf_Action f) with Some action => bool_decide (s_reason r = Some (§"action:" ++ action)) | None => true end
                 && equals (nonblank (sf_AssetType f)) (a_type a) && between (sf_From f) (sf_To f) (s_created r)
              then Some (summary_of now (action_of r) u r a) else None
          | None => None
          end) (map_to_list (d_sessions s)) in
        inl (take (Z.to_nat limit) (order_by (λ i, - ss_CreatedAt i) rows), s)
    | _, _ => inr pg_bad_uuid
    end).
Definition listSessions (f : SessionListFilter) : M db (list SessionSummary) :=
  let unsupported what v := fail (Errorf (§"unsupported " ++ what ++ §": " ++ v)) in
  let bad v ok := match nonblank v with Some x => if ok x : bool then None else Some x | None => None end in
  match bad (sf_Status f) isSupportedStatus, bad (sf_Action f) isSupportedAction, bad (sf_AssetType f) isSupportedAssetType with
  | Some v, _, _ => unsupported §"status" v
  | None, Some v, _ => unsupported §"action" v
  | None, None, Some v => unsupported §"asset type" v
  | None, None, None =>
      if after_to (sf_From f) (sf_To f) then fail (Errorf §"from must be before to")
      else wrap_err §"list sessions" (select_sessions f (list_size (sf_Limit f)))
  end.
Definition ListForUser (userID : bytes) (f : SessionListFilter) : M db (list SessionSummary) :=
  let uid := TrimSpace userID in
  if bool_decide (uid = []) then fail (Errorf §"user id is required")
  else listSessions (MkFilter uid (sf_AssetID f) (sf_Status f) (sf_Action f) (sf_AssetType f) (sf_From f) (sf_To f) (sf_Limit f)).
Definition ListForAdmin (f : SessionListFilter) : M db (list SessionSummary) := listSessions f.
Definition ListActiveForAdmin (limit : Z) : M db (list SessionSummary) :=
  listSessions (MkFilter [] [] StatusActive [] [] None None limit).

Definition ErrSessionNotFound : error := ErrVar §"session not found".
Definition GetDetail (sessionID : bytes) : M db SessionDetail :=
  let sid := TrimSpace sessionID in
  if bool_decide (sid = []) then fail (Errorf §"session id is required")
  else
    let! row := wrap_err §"get session detail" (statement (λ now _ s,
      match pg_uuid sid with
      | None => inr pg_bad_uuid
      | Some u =>
          inl (match d_sessions s !! u with
               | Some r =>
                   match d_assets s !! s_asset r with
                   | Some a =>
                       if bool_decide (s_user r ∈ d_users s)
                       then Some (MkDetail (summary_of now (actionFromReason (default [] (s_reason r)) (s_protocol r)) u r a) (s_protocol r) §"api")
                       else None
                   | None => None
                   end
               | None => None
               end, s)
      end)) in
    match row with Some item => ret item | None => fail ErrSessionNotFound end.

(** ** The summary of the administration *)

Record AdminSummary := MkAdminSummary {
  as_WindowDays : Z; as_RecentSessions : nat; as_ActiveSessions : nat; as_FailedSessions : nat; as_ShellLaunches : nat;
  as_DBeaverLaunches : nat; as_ByAction : list (bytes * nat);
}.
Definition count {A} (p : A → bool) (l : list A) : nat := length (List.filter p l).
Definition sessions_since (start : Z) (s : db) : list session_row :=
  List.filter (λ r, start <=? s_created r) (map snd (map_to_list (d_sessions s))).
(** [ORDER BY count DESC, action ASC]. *)
Definition more_often (x y : bytes * nat) : bool := (y.2 <? x.2)%nat || ((y.2 =? x.2)%nat && text_le x.1 y.1).
Definition GetAdminSummary (now_ns windowDays : Z) : M db AdminSummary :=
  let windowDays := Z.min 90 (if windowDays <=? 0 then 7 else windowDays) in
  let start := micros (now_ns - windowDays * (86400 * 10 ^ 9)) in
  let! (recent, failed, shells, dbeavers) := wrap_err §"get admin summary counts" (statement (λ _ _ s,
    let rows := sessions_since start s in
    inl (length rows, count (λ r, bool_decide (s_status r = §"failed")) rows,
         count (λ r, bool_decide (s_reason r = Some §"action:shell")) rows,
         count (λ r, bool_decide (s_reason r = Some §"action:dbeaver")) rows, s))) in
  let! active := wrap_err §"get admin summary active sessions" (statement (λ _ _ s,
    inl (count (λ r : session_row, bool_decide (s_status r = §"active")) (map snd (map_to_list (d_sessions s))), s))) in
  let! actions := wrap_err §"get admin summary actions" (statement (λ _ _ s,
    let taken := map action_of (sessions_since start s) in
    inl (merge_sort (λ x y, Is_true (more_often x y))
           (map (λ a, (a, count (λ b, bool_decide (b = a)) taken)) (remove_dups taken)), s))) in
  ret (MkAdminSummary windowDays recent active failed shells dbeavers actions).

(** ** The audit trail *)

Record AuditSessionSummary := MkAuditSession { ax_ID : bytes; ax_Action : bytes; ax_Status : bytes; ax_CreatedAt : Z }.
Record AuditItem := MkAuditItem {
  ai_ID : nat; ai_EventTime : Z; ai_EventType : bytes; ai_Action : bytes; ai_Outcome : bytes; ai_ActorUserID : option bytes;
  ai_ActorUser : option bytes; ai_AssetID : option bytes; ai_AssetName : option bytes; ai_AssetType : option bytes;
  ai_SessionID : option bytes; ai_Metadata : payload; ai_Session : option AuditSessionSummary;
}.
Record AuditListFilter := MkAuditFilter {
  af_EventType : bytes; af_UserID : bytes; af_AssetID : bytes; af_SessionID : bytes; af_Action : bytes;
  af_From : option Z; af_To : option Z; af_Limit : Z;
}.
(** One row of the joins. *)
Definition scanAuditItem (s : db) (e : audit_row) : AuditItem :=
  let asset := d_assets s !! au_asset e in
  MkAuditItem (au_id e) (au_time e) (au_type e) (au_action e) (au_outcome e) (Some (au_actor e))
    (if bool_decide (au_actor e ∈ d_users s) then Some (username_of (au_actor e)) else None)
    (Some (au_asset e)) (a_name <$> asset) (a_type <$> asset) (Some (au_session e)) (au_metadata e)
    ((λ r, MkAuditSession (au_session e) (actionFromReason (default [] (s_reason r)) []) (s_status r) (s_created r)) <$>
       d_sessions s !! au_session e).
(** [ORDER BY ae.event_time DESC, ae.id DESC]. *)
Definition later_audit (x y : audit_row) : bool := (au_time y <? au_time x) || ((au_time y =? au_time x) && (au_id y <=? au_id x)%nat).
Definition ListAuditEvents (f : AuditListFilter) : M db (list AuditItem) :=
  if after_to (af_From f) (af_To f) then fail (Errorf §"from must be before to")
  else wrap_err §"list audit events" (statement (λ _ _ s,
    match uuid_condition (nonblank (af_UserID f)), uuid_condition (nonblank (af_AssetID f)), uuid_condition (nonblank (af_SessionID f)) with
    | inl user, inl asset, inl session =>
        let rows := List.filter (λ e,
          equals (nonblank (af_EventType f)) (au_type e) && equals user (au_actor e) && equals asset (au_asset e)
          && equals session (au_session e) && equals (nonblank (af_Action f)) (au_action e)
          && between (af_From f) (af_To f) (au_time e)) (d_audit s) in
        inl (map (scanAuditItem s)
               (take (Z.to_nat (list_size (af_Limit f))) (merge_sort (λ x y, Is_true (later_audit x y)) rows)), s)
    | _, _, _ => inr pg_bad_uuid
    end)).
Definition ListRecentAudit (limit : Z) : M db (list AuditItem) := ListAuditEvents (MkAuditFilter [] [] [] [] [] None None limit).
Definition ErrAuditEventNotFound : error := ErrVar §"audit event not found".
(** [rows.Next()] also says that there is no row when the rows cannot be read;
    the error is in [rows.Err()]. *)
Definition first_row {A} (q : db → option A) : M db (option A) := λ s,
  match mjoin (head (d_faults s)) with
  | Some (LostAfter _) => (Ok None, (statement (λ _ _ s, inl (tt, s)) s).2)
  | _ => statement (λ _ _ s, inl (q s, s)) s
  end.
Definition GetAuditEventByID (eventID : Z) : M db AuditItem :=
  if eventID <=? 0 then fail (Errorf §"event id must be > 0")
  else
    let! row := wrap_err §"get audit event" (first_row (λ s,
      scanAuditItem s <$> head (List.filter (λ e, Z.of_nat (au_id e) =? eventID) (d_audit s)))) in
    match row with Some item => ret item | None => fail ErrAuditEventNotFound end.
End Service.

(** ** Transcripts *)

Definition esc_byte : byte := "027"%byte.
Definition bel_byte : byte := "007"%byte.
(** The length of a match of [\x1b\[[0-?]*[ -/]*[@-~]] at the front. *)
Definition csi_match (s : bytes) : option nat :=
  match s with
  | e :: b :: rest =>
      if bool_decide (e = esc_byte) && bool_decide (b = "["%byte) then
        let '(parameters, rest) := span (λ c, in_range c 48 63) rest in
        let '(intermediates, rest) := span (λ c, in_range c 32 47) rest in
        match rest with
        | c :: _ => if in_range c 64 126 then Some (3 + length parameters + length intermediates)%nat else None
        | [] => None
        end
      else None
  | _ => None
  end.
(** The end of the last [\x1b\\]. *)
Fixpoint last_terminator (s : bytes) : option nat :=
  match s with
  | a :: ((b :: _) as t) =>
      match last_terminator t with
      | Some k => Some (S k)
      | None => if bool_decide (a = esc_byte) && bool_decide (b = "092"%byte) then Some 2%nat else None
      end
  | _ => None
  end.
(** A match of [\x1b\][^\x07]*(?:\x07|\x1b\\)]: to the first BEL, or else to the last terminator. *)
Definition osc_match (s : bytes) : option nat :=
  match s with
  | e :: b :: rest =>
      if bool_decide (e = esc_byte) && bool_decide (b = "]"%byte) then
        match IndexByte rest bel_byte with
        | Some k => Some (3 + k)%nat
        | None => (λ k, 2 + k)%nat <$> last_terminator rest
        end
      else None
  | _ => None
  end.
(** [ReplaceAllString(s, "")]; [skip] bytes of a match are still to come. *)
Fixpoint remove_matches (find : bytes → option nat) (skip : nat) (s : bytes) : bytes :=
  match s with
  | [] => []
  | c :: t =>
      match skip with
      | S k => remove_matches find k t
      | O => match find s with
             | Some n => remove_matches find (n - 1) t
             | None => c :: remove_matches find 0 t
             end
      end
  end.
Definition stripANSI (value : bytes) : bytes := remove_matches csi_match 0 (remove_matches osc_match 0 value).
(** [strings.ReplaceAll], of a text that is not empty. *)
Fixpoint replace_all (old new : bytes) (skip : nat) (s : bytes) : bytes :=
  match s with
  | [] => []
  | c :: t =>
      match skip with
      | S k => replace_all old new k t
      | O => if HasPrefix s old then new ++ replace_all old new (length old - 1) t else c :: replace_all old new 0 t
      end
  end.

Definition isControlRune (r : Z) : bool := negb (r =? 9) && ((0 <=? r) && (r <? 32)).
(** The size of the last rune, [utf8.DecodeLastRuneInString]. *)
Definition last_rune_size (s : bytes) : nat :=
  match s with
  | [] => 0
  | _ =>
      let ends k := drop (length s - k)%nat s in
      match find (λ k, match ends k with b :: _ => negb (is_cont b) | [] => false end) (seq 1 (Nat.min 4 (length s))) with
      | Some k => if bool_decide (rune_len (ends k) = Some k) then k else 1
      | None => 1
      end
  end.
Definition trimLastRune (value : bytes) : bytes := take (length value - last_rune_size value)%nat value.

(** [commands], [current] and [lastBreak]. *)
Definition input_rune (st : list bytes * bytes * Z) (r : Z) : list bytes * bytes * Z :=
  let '(commands, current, lastBreak) := st in
  if (r =? 13) || (r =? 10) then
    if (lastBreak =? 13) && (r =? 10) then (commands, current, r)
    else (if bool_decide (TrimSpace current = []) then commands else commands ++ [current], [], r)
  else if (r =? 8) || (r =? 127) then (commands, trimLastRune current, 0)
  else if isControlRune r then (commands, current, 0)
  else (commands, current ++ encode_rune r, 0).
Definition consumeInputChunk (chunk buffer : bytes) : list bytes * bytes :=
  (fold_left input_rune (runes (stripANSI chunk)) ([], buffer, 0)).1.

Definition output_rune (st : list bytes * bytes) (r : Z) : list bytes * bytes :=
  let '(lines, current) := st in
  if r =? 13 then (lines, [])
  else if r =? 10 then (if bool_decide (current = []) then lines else lines ++ [current], [])
  else if (r =? 8) || (r =? 127) then (lines, trimLastRune current)
  else if isControlRune r then (lines, current)
  else (lines, current ++ encode_rune r).
Definition cr_lf : bytes := ["013"; "010"]%byte.
Definition bracketed (c : byte) : bytes := esc_byte :: §"[?2004" ++ [c].
Definition normalizeOutputChunk (chunk : bytes) : list bytes :=
  let clean := replace_all cr_lf ["010"%byte] 0 (stripANSI chunk) in
  let clean := replace_all (bracketed "h"%byte) [] 0 clean in
  let clean := replace_all (bracketed "l"%byte) [] 0 clean in
  let '(lines, current) := fold_left output_rune (runes clean) ([], []) in
  if bool_decide (current = []) then lines else lines ++ [current].

Record normalizedTranscriptRow := MkRow { nr_EventID : nat; nr_EventTime : Z; nr_Direction : bytes; nr_Text : bytes }.
(** [rows], [pendingEchoes] and [inputBuffer]. *)
Record transcript := MkTranscript { tr_rows : list normalizedTranscriptRow; tr_echoes : list bytes; tr_input : bytes }.
Definition typed (item : SessionEvent) (t : transcript) (command : bytes) : transcript :=
  let trimmed := TrimSpace command in
  if bool_decide (trimmed = []) then t
  else
    let echoes := tr_echoes t ++ [trimmed] in
    MkTranscript (tr_rows t ++ [MkRow (se_ID item) (se_EventTime item) §"in" trimmed])
      (if (32 <? length echoes)%nat then tail echoes else echoes) (tr_input t).
Definition printed (item : SessionEvent) (t : transcript) (line : bytes) : transcript :=
  let trimmed := TrimSpace line in
  if bool_decide (trimmed = []) then t
  else if bool_decide (head (tr_echoes t) = Some trimmed) then MkTranscript (tr_rows t) (tail (tr_echoes t)) (tr_input t)
  else MkTranscript (tr_rows t ++ [MkRow (se_ID item) (se_EventTime item) §"out" trimmed]) (tr_echoes t) (tr_input t).
(** The bytes of an event of data. *)
Definition event_data (item : SessionEvent) : option bytes :=
  let encoded := string_of (se_Payload item !! §"data") in
  if negb (bool_decide (se_EventType item ∈ [EventDataIn; EventDataOut])) || bool_decide (TrimSpace encoded = []) then None
  else match std_decode encoded with
       | Some decoded => if utf8_valid decoded then Some decoded else None
       | None => None
       end.
Definition transcript_item (t : transcript) (item : SessionEvent) : transcript :=
  match event_data item with
  | None => t
  | Some decoded =>
      if bool_decide (se_EventType item = EventDataIn) then
        let '(commands, rest) := consumeInputChunk decoded (tr_input t) in
        fold_left (typed item) commands (MkTranscript (tr_rows t) (tr_echoes t) rest)
      else fold_left (printed item) (normalizeOutputChunk decoded) t
  end.
Definition normalizeTranscriptRows (items : list SessionEvent) : list normalizedTranscriptRow :=
  tr_rows (fold_left transcript_item items (MkTranscript [] [] [])).

(** ** Queries *)

Fixpoint QueryUnescape (s : bytes) : option bytes :=
  match s with
  | [] => Some []
  | c :: rest =>
      if bool_decide (c = "%"%byte) then
        match rest with
        | a :: b :: rest' =>
            match hex_value a, hex_value b with
            | Some x, Some y => cons (z2b (16 * x + y)) <$> QueryUnescape rest'
            | _, _ => None
            end
        | _ => None
        end
      else cons (if bool_decide (c = "+"%byte) then " "%byte else c) <$> QueryUnescape rest
  end.
(** [r.URL.Query()]: what does not parse is left out. *)
Definition query_pair (part : bytes) : option (bytes * bytes) :=
  if has_byte part ";"%byte || bool_decide (part = []) then None
  else
    let '(key, value) := Cut part "="%byte in
    k ← QueryUnescape key; v ← QueryUnescape value; Some (k, v).
Definition Query (raw : bytes) : list (bytes * bytes) := omap query_pair (SplitByte raw "&"%byte).
Definition Get (query : list (bytes * bytes)) (key : bytes) : bytes :=
  match List.find (λ kv, bool_decide (kv.1 = key)) query with Some kv => kv.2 | None => [] end.
(** A parameter, trimmed; one that is empty is left as it was. *)
Definition parsed {A} (query : list (bytes * bytes)) (key : bytes) (default : A) (parse : bytes → option A) : option A :=
  let raw := TrimSpace (Get query key) in
  if bool_decide (raw = []) then Some default else parse raw.
Definition time_parameter (raw : bytes) : option (option Z) := Some <$> parse_RFC3339 raw.

Definition sessionFilterFromQuery (query : list (bytes * bytes)) (allowAdminFields : bool) : SessionListFilter + error :=
  let field key := TrimSpace (Get query key) in
  match parsed query §"from" None time_parameter with
  | None => inr (Errorf §"from must be RFC3339")
  | Some from =>
      match parsed query §"to" None time_parameter with
      | None => inr (Errorf §"to must be RFC3339")
      | Some to =>
          match parsed query §"limit" 0 Atoi with
          | None => inr (Errorf §"limit must be an integer")
          | Some limit =>
              inl (MkFilter (if allowAdminFields then field §"user_id" else []) (if allowAdminFields then field §"asset_id" else [])
                     (field §"status") (field §"action") (field §"asset_type") from to limit)
          end
      end
  end.
Definition auditFilterFromQuery (query : list (bytes * bytes)) : AuditListFilter + error :=
  let field key := TrimSpace (Get query key) in
  match parsed query §"from" None time_parameter with
  | None => inr (Errorf §"from must be RFC3339")
  | Some from =>
      match parsed query §"to" None time_parameter with
      | None => inr (Errorf §"to must be RFC3339")
      | Some to =>
          match parsed query §"limit" 0 Atoi with
          | None => inr (Errorf §"limit must be an integer")
          | Some limit =>
              inl (MkAuditFilter (field §"event_type") (field §"user_id") (field §"asset_id") (field §"session_id") (field §"action") from to limit)
          end
      end
  end.

(** ** Answers *)

Definition time_text (t : option Z) : bytes := match t with Some t => RFC3339Nano t | None => [] end.
Record sessionSummaryUser := MkSummaryUser { su_ID : bytes; su_Username : bytes }.
Record sessionSummaryAsset := MkSummaryAsset { sa_ID : bytes; sa_Name : bytes; sa_AssetType : bytes }.
Record sessionLifecycleSummary := MkLifecycle {
  lf_Started : bool; lf_Ended : bool; lf_Failed : bool; lf_ShellStarted : bool; lf_ConnectorRequested : bool; lf_ConnectorSucceeded : bool;
  lf_ConnectorFailed : bool; lf_EventCount : nat; lf_FirstEventAt : bytes; lf_LastEventAt : bytes;
}.
Record sessionSummaryResponse := MkSummaryResponse {
  sr_SessionID : bytes; sr_User : sessionSummaryUser; sr_Asset : sessionSummaryAsset; sr_Action : bytes; sr_LaunchType : bytes;
  sr_Status : bytes; sr_StartedAt : bytes; sr_EndedAt : bytes; sr_CreatedAt : bytes; sr_DurationSeconds : option Z;
  sr_Lifecycle : sessionLifecycleSummary;
}.
Definition mapSessionSummary (item : SessionSummary) (lifecycle : sessionLifecycleSummary) : sessionSummaryResponse :=
  MkSummaryResponse (ss_SessionID item) (MkSummaryUser (ss_UserID item) (ss_Username item))
    (MkSummaryAsset (ss_AssetID item) (ss_AssetName item) (ss_AssetType item)) (ss_Action item) (ss_LaunchType item) (ss_Status item)
    (time_text (ss_StartedAt item)) (time_text (ss_EndedAt item)) (RFC3339Nano (ss_CreatedAt item)) (ss_DurationSeconds item) lifecycle.
Definition given {A} (o : option A) : bool := match o with Some _ => true | None => false end.
Definition mapSessionSummaries (items : list SessionSummary) : list sessionSummaryResponse :=
  map (λ item, mapSessionSummary item
         (MkLifecycle (given (ss_StartedAt item)) (given (ss_EndedAt item)) false false false false false 0 [] [])) items.
Record sessionDetailResponse := MkDetailResponse { dr_summary : sessionSummaryResponse; dr_Protocol : bytes; dr_LaunchedVia : bytes }.
Definition mapSessionDetail (item : SessionDetail) (l : SessionLifecycleSummary) : sessionDetailResponse :=
  let s := sd_summary item in
  MkDetailResponse
    (mapSessionSummary s
       (MkLifecycle (given (ss_StartedAt s) || sm_ShellStarted l) (given (ss_EndedAt s) || sm_Ended l)
          (sm_Failed l || bool_decide (ss_Status s = StatusFailed)) (sm_ShellStarted l) (sm_ConnectorRequested l) (sm_ConnectorSucceeded l)
          (sm_ConnectorFailed l) (sm_EventCount l) (time_text (sm_FirstEventAt l)) (time_text (sm_LastEventAt l))))
    (sd_Protocol item) (sd_LaunchedVia item).

Record sessionTranscriptChunk := MkTranscriptChunk { tc_Direction : bytes; tc_Stream : bytes; tc_Size : Z; tc_Text : bytes }.
Record sessionEventResponse := MkEventResponse {
  er_ID : nat; er_EventType : bytes; er_EventTime : bytes; er_ActorUser : option sessionSummaryUser; er_Payload : payload;
  er_Transcript : option sessionTranscriptChunk;
}.
(** [sessionEventUser]. *)
Definition actor_user (id name : option bytes) : option sessionSummaryUser :=
  if given id || given name then Some (MkSummaryUser (default [] id) (default [] name)) else None.
Section Mapped.
Context `{FloatText}.
Definition mapSessionEvents (action : bytes) (items : list SessionEvent) : list sessionEventResponse :=
  let rows := if bool_decide (TrimSpace action = §"shell") then normalizeTranscriptRows items else [] in
  map (λ item,
    let mine := List.filter (λ r, (nr_EventID r =? se_ID item)%nat && (0 <? nr_EventID r)%nat) rows in
    let data := bool_decide (se_EventType item ∈ [EventDataIn; EventDataOut]) in
    MkEventResponse (se_ID item) (se_EventType item) (RFC3339Nano (se_EventTime item))
      (actor_user (se_ActorUserID item) (se_ActorUser item)) (se_Payload item)
      (match mine with
       | [] => None
       | r :: _ => Some (MkTranscriptChunk (nr_Direction r) (if data then string_of (se_Payload item !! §"stream") else [])
                           (if data then intFromAny (se_Payload item !! §"size") else 0) (join ["010"%byte] (map nr_Text mine)))
       end)) items.
End Mapped.
Record sessionReplayChunk := MkReplayChunk {
  rr_EventID : nat; rr_EventTime : bytes; rr_EventType : bytes; rr_Direction : bytes; rr_Stream : bytes; rr_Size : Z; rr_Text : bytes;
  rr_OffsetSec : float; rr_DelaySec : float; rr_Cols : Z; rr_Rows : Z; rr_Asciicast : float * bytes * bytes;
}.
Definition mapReplayChunks (chunks : list ReplayChunk) : list sessionReplayChunk :=
  map (λ c, MkReplayChunk (rc_EventID c) (RFC3339Nano (rc_EventTime c)) (rc_EventType c) (rc_Direction c) (rc_Stream c) (rc_Size c)
              (rc_Text c) (rc_OffsetSec c) (rc_DelaySec c) (rc_Cols c) (rc_Rows c) (rc_Asciicast c)) chunks.

Record adminAuditItemResponse := MkAuditResponse {
  ar_ID : nat; ar_EventTime : bytes; ar_EventType : bytes; ar_Action : bytes; ar_Outcome : bytes; ar_ActorUser : option sessionSummaryUser;
  ar_Asset : option sessionSummaryAsset; ar_Session : option (bytes * bytes * bytes * bytes); ar_SessionID : bytes; ar_Metadata : payload;
}.
Definition mapAdminAuditItem (item : AuditItem) : adminAuditItemResponse :=
  MkAuditResponse (ai_ID item) (RFC3339Nano (ai_EventTime item)) (ai_EventType item) (ai_Action item) (ai_Outcome item)
    (actor_user (ai_ActorUserID item) (ai_ActorUser item))
    ((λ id, MkSummaryAsset id (default [] (ai_AssetName item)) (default [] (ai_AssetType item))) <$> ai_AssetID item)
    ((λ s, (ax_ID s, ax_Action s, ax_Status s, RFC3339Nano (ax_CreatedAt s))) <$> ai_Session item)
    (default [] (ai_SessionID item)) (ai_Metadata item).

(** ** CSV, as encoding/csv writes it *)

Definition quotation : byte := z2b 34.
Definition fieldNeedsQuotes (field : bytes) : bool :=
  negb (bool_decide (field = [])) &&
  (bool_decide (field = ["092"; "."]%byte)
   || existsb (λ c, bool_decide (c ∈ ["010"%byte; "013"%byte; quotation; ","%byte])) field
   || existsb (HasPrefix field) space_seqs).
Definition csv_field (field : bytes) : bytes :=
  if fieldNeedsQuotes field
  then quotation :: flat_map (λ c, if bool_decide (c = quotation) then [quotation; quotation] else [c]) field ++ [quotation]
  else field.
Definition csv_record (fields : list bytes) : bytes := join §"," (map csv_field fields) ++ ["010"%byte].
Definition csv_text (records : list (list bytes)) : bytes := concat (map csv_record records).

(** ** Handlers *)

(** [err.Error()]; the text of a driver's error is its name. *)
Fixpoint Error_text (e : error) : bytes :=
  match e with ErrVar text | Errorf text => text | Wrap msg e => msg ++ §": " ++ Error_text e end.
Definition canViewSession (currentUser : CurrentUser) (sessionUserID : bytes) : bool :=
  bool_decide (cu_ID currentUser = sessionUserID) || (HasRole currentUser §"admin" || HasRole currentUser §"auditor").

Section Handlers.
Context `{Unicode, Postgres, FloatText, Columns}.

Definition bad_request {R} (err : error) : reply R := ReplyError StatusBadRequest (Error_text err).
Definition or_bad_request {S R A} (r : A + error) : part S R A := match r with inl a => go_on a | inr err => answer (bad_request err) end.

Definition MySessions (user : option CurrentUser) (query : bytes) : M db (reply (list sessionSummaryResponse)) :=
  handler (
    step! user := need user StatusUnauthorized §"unauthorized" in
    step! filter := or_bad_request (sessionFilterFromQuery (Query query) false) in
    step! items := attempt (ListForUser (cu_ID user) filter) bad_request in
    go_on (Reply StatusOK (mapSessionSummaries items))).
Definition AdminSessions (query : bytes) : M db (reply (list sessionSummaryResponse)) :=
  handler (
    step! filter := or_bad_request (sessionFilterFromQuery (Query query) true) in
    step! items := attempt (ListForAdmin filter) bad_request in
    go_on (Reply StatusOK (mapSessionSummaries items))).
(** The summary and the time it was generated at. *)
Definition AdminSummary_handler (now_ns generated : Z) (query : bytes) : M db (reply (AdminSummary * bytes)) :=
  handler (
    step! windowDays := need (parsed (Query query) §"window_days" 7 Atoi) StatusBadRequest §"window_days must be an integer" in
    step! summary := or_500 (GetAdminSummary now_ns windowDays) §"failed to build summary" in
    go_on (Reply StatusOK (summary, RFC3339Nano generated))).
Definition AdminActiveSessions (query : bytes) : M db (reply (list sessionSummaryResponse)) :=
  handler (
    step! limit := need (parsed (Query query) §"limit" 100 Atoi) StatusBadRequest §"limit must be an integer" in
    step! items := attempt (ListActiveForAdmin limit) bad_request in
    go_on (Reply StatusOK (mapSessionSummaries items))).
Definition AdminRecentAudit (query : bytes) : M db (reply (list adminAuditItemResponse)) :=
  handler (
    step! limit := need (parsed (Query query) §"limit" 50 Atoi) StatusBadRequest §"limit must be an integer" in
    step! items := or_500 (ListRecentAudit limit) §"failed to list recent audit" in
    go_on (Reply StatusOK (map mapAdminAuditItem items))).
Definition AdminAuditEvents (query : bytes) : M db (reply (list adminAuditItemResponse)) :=
  handler (
    step! filter := or_bad_request (auditFilterFromQuery (Query query)) in
    step! items := attempt (ListAuditEvents filter) bad_request in
    go_on (Reply StatusOK (map mapAdminAuditItem items))).
Definition AdminAuditEventDetail (eventID : bytes) : M db (reply adminAuditItemResponse) :=
  handler (
    let eventRaw := TrimSpace eventID in
    then! require (negb (bool_decide (eventRaw = []))) StatusBadRequest §"event id is required" in
    step! eventID := need (Atoi eventRaw) StatusBadRequest §"event id must be an integer" in
    step! item := attempt (GetAuditEventByID eventID) (λ err,
      if bool_decide (err = ErrAuditEventNotFound) then ReplyError StatusNotFound §"audit event not found" else bad_request err) in
    go_on (Reply StatusOK (mapAdminAuditItem item))).

(** What the handlers of one session begin with. *)
Definition viewed_session {R} (user : option CurrentUser) (sessionID : bytes) : part db R (bytes * SessionDetail) :=
  step! user := need user StatusUnauthorized §"unauthorized" in
  let sessionID := TrimSpace sessionID in
  then! require (negb (bool_decide (sessionID = []))) StatusBadRequest §"session id is required" in
  step! item := attempt (GetDetail sessionID) (λ err,
    if bool_decide (err = ErrSessionNotFound) then ReplyError StatusNotFound §"session not found" else bad_request err) in
  then! require (canViewSession user (ss_UserID (sd_summary item))) StatusForbidden §"forbidden" in
  go_on (sessionID, item).
Definition Detail (user : option CurrentUser) (sessionID : bytes) : M db (reply sessionDetailResponse) :=
  handler (
    step! (sessionID, item) := viewed_session user sessionID in
    step! lifecycle := or_500 (GetLifecycleSummary sessionID) §"failed to build lifecycle summary" in
    go_on (Reply StatusOK (mapSessionDetail item lifecycle))).
(** The parameters [limit] and [after_id]. *)
Definition page_parameters {R} (query : bytes) : part db R (Z * Z) :=
  step! limit := need (parsed (Query query) §"limit" 300 Atoi) StatusBadRequest §"limit must be an integer" in
  step! afterID := need (parsed (Query query) §"after_id" 0 Atoi) StatusBadRequest §"after_id must be an integer" in
  go_on (limit, afterID).
(** The items and [next_after_id]. *)
Definition Events (user : option CurrentUser) (sessionID query : bytes) : M db (reply (list sessionEventResponse * option nat)) :=
  handler (
    step! (sessionID, item) := viewed_session user sessionID in
    step! (limit, afterID) := page_parameters query in
    step! events := attempt (ListEvents sessionID afterID limit) bad_request in
    go_on (Reply StatusOK (mapSessionEvents (ss_Action (sd_summary item)) events, se_ID <$> last events))).
(** Whether it is supported, the items and [next_after_id]. *)
Definition Replay (user : option CurrentUser) (sessionID query : bytes) : M db (reply (bool * list sessionReplayChunk * option nat)) :=
  handler (
    step! (sessionID, item) := viewed_session user sessionID in
    step! (limit, afterID) := page_parameters query in
    if negb (bool_decide (ss_Action (sd_summary item) = §"shell")) then go_on (Reply StatusOK (false, [], None))
    else
      step! chunks := attempt (ListReplayChunks sessionID afterID limit) bad_request in
      go_on (Reply StatusOK (true, mapReplayChunks chunks, rc_EventID <$> last chunks))).

(** [for { events, err := ListEvents(...); if len(events) == 0 { break }; ... }]. *)
Fixpoint all_events (fuel : nat) (sessionID : bytes) (afterID : Z) : M db (list SessionEvent) :=
  match fuel with
  | O => nofuel
  | S fuel =>
      let! page := ListEvents sessionID afterID 1000 in
      match last page with
      | None => ret []
      | Some e => let! rest := all_events fuel sessionID (Z.of_nat (se_ID e)) in ret (page ++ rest)
      end
  end.
Definition event_type_counts (events : list SessionEvent) : gmap bytes Z :=
  fold_left (λ m e, <[se_EventType e := default 0 (m !! se_EventType e) + 1]> m) events ∅.
Record SummaryExport := MkSummaryExport {
  xs_filename : bytes; xs_session : sessionDetailResponse; xs_counts : gmap bytes Z; xs_event_count : nat;
}.
Definition ExportSessionSummary (fuel : nat) (user : option CurrentUser) (sessionID : bytes) : M db (reply SummaryExport) :=
  handler (
    step! (sessionID, item) := viewed_session user sessionID in
    step! lifecycle := or_500 (GetLifecycleSummary sessionID) §"failed to build lifecycle summary" in
    step! events := or_500 (all_events fuel sessionID 0) §"failed to build event timeline" in
    go_on (Reply StatusOK (MkSummaryExport (§"session-" ++ sessionID ++ §"-summary.json") (mapSessionDetail item lifecycle)
                             (event_type_counts events) (sm_EventCount lifecycle)))).

Definition lf : bytes := ["010"%byte].
Definition transcript_line (row : normalizedTranscriptRow) : bytes :=
  §"[" ++ RFC3339Nano (nr_EventTime row) ++ §"] " ++ (if bool_decide (nr_Direction row = §"in") then §"IN " else §"OUT") ++ §" "
  ++ nr_Text row ++ (if HasSuffix (nr_Text row) lf then [] else lf).
Definition transcript_text (item : SessionDetail) (now : Z) (rows : list normalizedTranscriptRow) : bytes :=
  let s := sd_summary item in
  §"# AccessD session transcript (first-pass)" ++ lf ++ §"# session_id: " ++ ss_SessionID s ++ lf ++ §"# user: " ++ ss_Username s ++ lf
  ++ §"# asset: " ++ ss_AssetName s ++ lf ++ §"# generated_at: " ++ RFC3339Nano now ++ lf ++ lf
  ++ concat (map transcript_line rows)
  ++ (if bool_decide (rows = []) then §"(no transcript chunks captured)" ++ lf else []).
(** The file's name and its text. *)
Definition ExportSessionTranscript (fuel : nat) (now : Z) (user : option CurrentUser) (sessionID : bytes) : M db (reply (bytes * bytes)) :=
  handler (
    step! (sessionID, item) := viewed_session user sessionID in
    then! require (bool_decide (ss_Action (sd_summary item) = §"shell")) StatusBadRequest §"transcript export is supported for shell sessions only" in
    step! events := or_500 (all_events fuel sessionID 0) §"failed to build transcript export" in
    go_on (Reply StatusOK (§"session-" ++ sessionID ++ §"-transcript.txt", transcript_text item now (normalizeTranscriptRows events)))).

Definition csv_header : list bytes :=
  [§"session_id"; §"user_id"; §"username"; §"asset_id"; §"asset_name"; §"asset_type"; §"action"; §"launch_type"; §"status"; §"created_at";
   §"started_at"; §"ended_at"; §"duration_seconds"].
Definition csv_fields (i : SessionSummary) : list bytes :=
  [ss_SessionID i; ss_UserID i; ss_Username i; ss_AssetID i; ss_AssetName i; ss_AssetType i; ss_Action i; ss_LaunchType i; ss_Status i;
   RFC3339Nano (ss_CreatedAt i); time_text (ss_StartedAt i); time_text (ss_EndedAt i);
   match ss_DurationSeconds i with Some d => Itoa d | None => [] end].
(** [now.UTC().Format("20060102-150405")]. *)
Definition file_time (ns : Z) : bytes :=
  let secs := ns / 10 ^ 9 in
  let '(y, m, d) := civil (secs / 86400) in
  let tod := secs mod 86400 in
  pad_digits 4 y ++ pad_digits 2 m ++ pad_digits 2 d ++ §"-" ++ pad_digits 2 (tod / 3600) ++ pad_digits 2 (tod / 60 mod 60) ++ pad_digits 2 (tod mod 60).
Definition AdminExportSessionsCSV (now : Z) (query : bytes) : M db (reply (bytes * bytes)) :=
  handler (
    step! filter := or_bad_request (sessionFilterFromQuery (Query query) true) in
    step! items := attempt (ListForAdmin filter) bad_request in
    go_on (Reply StatusOK (§"admin-sessions-" ++ file_time now ++ §".csv", csv_text (csv_header :: map csv_fields items)))).
End Handlers.
