(* ===== verification/HistorySpec.v ===== *)
(** What History.v shows of what was recorded: replays, exports, transcripts,
    who may look, and the CSV of the sessions. *)
From Stdlib Require Import Sorted.
From stdpp Require Import sorting.
From S2P Require Import Prelude GoStrings GoBinary GoNet GoTexts GoEncoding GoUtf16 GoFormats Tokens Http Store Sessions SessionsSpec Identity Auth Launch LaunchSpec History.

(** ** What a replay shows of what was recorded *)

(** A chunk as a copying goroutine records it. *)
Record data_event := DataEvent { de_type : bytes; de_stream : bytes; de_chunk : bytes; de_offset : float }.

Section Recorded.
Context `{Unicode, Postgres, FloatText, Columns}.

(** One record after the other; the proxy only warns when one fails. *)
Fixpoint record_all (sessionID : bytes) (evs : list data_event) : M db unit :=
  match evs with
  | [] => ret tt
  | e :: rest =>
      do! try (RecordDataEvent sessionID (de_type e) (de_stream e) (de_chunk e) (de_offset e)) in
      record_all sessionID rest
  end.
(** A chunk that is not empty, is UTF-8 and has no NUL. *)
Definition clean (chunk : bytes) : bool := negb (bool_decide (chunk = [])) && utf8_valid chunk && negb (has_byte chunk nul).
(** Direction, stream and text. *)
Definition shown_of (c : ReplayChunk) : bytes * bytes * bytes := (rc_Direction c, rc_Stream c, rc_Text c).
Definition expected (e : data_event) : option (bytes * bytes * bytes) :=
  if clean (de_chunk e)
  then Some (if bool_decide (de_type e = EventDataIn) then §"in" else §"out", de_stream e, de_chunk e) else None.
Definition row_shown (r : event_row) : option (bytes * bytes * bytes) :=
  shown_of <$> replayChunkFromPayload (ev_id r) (ev_type r) (ev_time r) (ev_payload r).

Lemma normalize_shown base first prev chunks : map shown_of (normalize_from base first prev chunks) = map shown_of chunks.
Proof. revert first prev. induction chunks as [|c rest IH]; intros first prev; [done|]. cbn [normalize_from map]. by rewrite IH. Qed.
Lemma normalizeReplayChunks_shown chunks : map shown_of (normalizeReplayChunks chunks) = map shown_of chunks.
Proof. destruct chunks; [done|]. apply normalize_shown. Qed.

Lemma insert_by_last {A} (key : A → Z) x l : Forall (λ y, key y <= key x) l → insert_by key x l = l ++ [x].
Proof. induction 1 as [|y l Hy _ IH]; [done|]. cbn. rewrite (proj2 (Z.ltb_ge _ _)) by done. by rewrite IH. Qed.
Lemma order_by_sorted {A} (key : A → Z) l : StronglySorted (λ x y, key x <= key y) l → order_by key l = l.
Proof.
  intros Hs. unfold order_by. change l with ([] ++ l) at 2.
  assert (Hpre : Forall (λ x, Forall (λ y, key y <= key x) []) l) by by apply Forall_forall.
  revert Hpre. generalize (@nil A) as done_. induction Hs as [|x l Hs IH Hx]; intros done_ Hd; [by rewrite app_nil_r|].
  apply Forall_cons in Hd as [Hxd Hd]. cbn [fold_left]. rewrite insert_by_last by done. rewrite IH; [by rewrite <- app_assoc|].
  rewrite Forall_forall in *. intros y Hy. apply Forall_app. split; [by apply Hd|]. constructor; [by apply Hx|done].
Qed.

Lemma jsonb_ok_iff (p : payload) : jsonb_ok p = true ↔ map_Forall (λ k v, has_byte k nul = false ∧ json_nul v = false) p.
Proof.
  unfold jsonb_ok. rewrite forallb_forall, map_Forall_to_list, Forall_forall. split; intros Hall [k v] Hin.
  - apply list_elem_of_In, Hall in Hin. cbn in *. gobool. auto.
  - apply list_elem_of_In, Hall in Hin. cbn in *. destruct Hin as [-> ->]. done.
Qed.
Lemma std_encode_no_nul s : has_byte (std_encode s) nul = false.
Proof.
  apply bool_decide_eq_false. intros Hin. apply std_encode_chars in Hin as [Hin|(d & Hd & Hin)]; [done|]. revert Hin.
  assert (Hall : forallb (λ n, negb (bool_decide (nul = std_char (Z.of_nat n)))) (seq 0 64) = true) by by vm_compute.
  rewrite forallb_forall in Hall. specialize (Hall (Z.to_nat d)). rewrite Z2Nat.id in Hall by lia. intros E.
  rewrite bool_decide_true in Hall by done. specialize (Hall ltac:(apply in_seq; lia)). done.
Qed.
Lemma marshalled_valid s : utf8_valid s = true → marshalled s = s.
Proof. intros Hs. by apply utf8_valid_runes. Qed.

Definition data_payload (stream chunk castType : bytes) (offset : float) : payload :=
  {[ §"stream" := JStr (marshalled stream);
     §"encoding" := JStr §"base64";
     §"size" := JNum (Itoa (zlen chunk));
     §"data" := JStr (std_encode chunk);
     §"recording_format" := JStr §"asciicast-v2-like";
     §"offset_sec" := JNum (float_text offset);
     §"event" := JArr [JNum (float_text offset); JStr castType; JStr (marshalled chunk)] ]}.
Lemma data_payload_stored stream chunk castType offset : has_byte (marshalled stream) nul = false → has_byte castType nul = false →
  jsonb_ok (data_payload stream chunk castType offset) = negb (has_byte (marshalled chunk) nul).
Proof.
  intros Hs Hc. destruct (has_byte (marshalled chunk) nul) eqn:E; cbn [negb].
  - apply not_true_is_false. rewrite jsonb_ok_iff. intros Hall. specialize (Hall §"event"). edestruct Hall as [_ Hj]; [reflexivity|].
    cbn [json_nul existsb] in Hj. by rewrite Hc, E in Hj.
  - apply jsonb_ok_iff. unfold data_payload. pose proof (std_encode_no_nul chunk).
    repeat (apply map_Forall_insert_2; [split; [by vm_compute|cbn [json_nul existsb]; rewrite ?Hc, ?E; done]|]).
    apply map_Forall_empty.
Qed.
Lemma data_payload_shown id time stream chunk castType offset type : type ∈ [EventDataIn; EventDataOut] → chunk ≠ [] →
  utf8_valid stream = true →
  row_shown (EventRow id [] type time None (data_payload stream chunk castType offset)) =
  if utf8_valid chunk then Some (if bool_decide (type = EventDataIn) then §"in" else §"out", stream, chunk) else None.
Proof.
  intros Hty Hne Hs. unfold row_shown, replayChunkFromPayload. cbn [ev_id ev_type ev_time ev_payload]. rewrite bool_decide_true by done.
  unfold replayDataChunkFromPayload.
  change (data_payload stream chunk castType offset !! §"data") with (Some (JStr (std_encode chunk))).
  change (data_payload stream chunk castType offset !! §"stream") with (Some (JStr (marshalled stream))). cbn [string_of].
  rewrite TrimSpace_std_encode, std_round_trip, marshalled_valid by done. rewrite bool_decide_false by by destruct chunk as [|a [|b [|c chunk]]].
  by destruct (utf8_valid chunk).
Qed.

(** One record on a database without faults. *)
Definition with_steps (s : db) (events : list event_row) (n : nat) : db :=
  Db (d_users s) (d_assets s) (d_sessions s) events (d_audit s) n [].
Definition storable (e : data_event) : bool := negb (bool_decide (de_chunk e = [])) && negb (has_byte (marshalled (de_chunk e)) nul).
Definition stored_row (u : bytes) (n : nat) (e : data_event) : event_row :=
  EventRow n u (de_type e) (pg_now n) None
    (data_payload (de_stream e) (de_chunk e) (if bool_decide (TrimSpace (de_type e) = EventDataIn) then §"i" else §"o")
       (if fpositive (de_offset e) then de_offset e else of_Z 0)).
(** What the goroutines of a session record: data of a named stream. *)
Definition of_terminal (e : data_event) : Prop :=
  de_type e ∈ [EventDataIn; EventDataOut] ∧ utf8_valid (de_stream e) = true ∧ has_byte (de_stream e) nul = false.

Lemma terminal_type e : of_terminal e → TrimSpace (de_type e) = de_type e ∧ TrimSpace (de_type e) ≠ [].
Proof. intros (Hty & _). repeat (apply elem_of_cons in Hty as [->|Hty]; [by vm_compute|]). by apply elem_of_nil in Hty. Qed.

Lemma filtered_none {A} (p : A → bool) l : Forall (λ x, p x = false) l → List.filter p l = [].
Proof. induction 1 as [|x l Hx _ IH]; cbn [List.filter]; [done|]. by rewrite Hx. Qed.
Lemma filtered_all {A} (p : A → bool) l : Forall (λ x, p x = true) l → List.filter p l = l.
Proof. induction 1 as [|x l Hx _ IH]; cbn [List.filter]; [done|]. by rewrite Hx, IH. Qed.

Section Session.
Context (sid u : bytes) (Hsid : TrimSpace sid ≠ []) (Hu : pg_uuid (TrimSpace sid) = Some u).

Lemma record_one s e : d_faults s = [] → is_Some (d_sessions s !! u) → of_terminal e →
  ∃ r, try (RecordDataEvent sid (de_type e) (de_stream e) (de_chunk e) (de_offset e)) s =
  (Ok r, if bool_decide (de_chunk e = []) then s
         else with_steps s (d_events s ++ if storable e then [stored_row u (d_steps s) e] else []) (S (d_steps s))).
Proof.
  intros Hf Hses Hterm. destruct (terminal_type e Hterm) as [Htrim Hne]. destruct Hterm as (Hty & Hv & Hs).
  unfold try, RecordDataEvent, storable. case_bool_decide as Hc; [by eexists|]. cbn [negb andb]. unfold WritePayload. rewrite !(bool_decide_false (TrimSpace _ = [])) by done. cbn [orb].
  change {[ §"stream" := _; §"encoding" := _; §"size" := _; §"data" := _; §"recording_format" := _; §"offset_sec" := _; §"event" := _ ]}
    with (data_payload (de_stream e) (de_chunk e) (if bool_decide (TrimSpace (de_type e) = EventDataIn) then §"i" else §"o")
            (if fpositive (de_offset e) then de_offset e else of_Z 0)).
  rewrite data_payload_stored; [|by rewrite marshalled_valid|by case_bool_decide].
  destruct (has_byte (marshalled (de_chunk e)) nul) eqn:Hnul; cbn [negb].
  - unfold wrap_err. rewrite statement_clean by done. cbn. unfold tick, with_steps. rewrite Hf, app_nil_r. by eexists.
  - unfold WriteEvent. rewrite !(bool_decide_false (TrimSpace _ = [])) by done. cbn [orb]. unfold wrap_err, insert_event.
    rewrite statement_clean by done. rewrite Hu. cbn [tick d_sessions]. rewrite bool_decide_true by done. cbn [andb].
    unfold with_event, tick, with_steps, stored_row. cbn. rewrite Hf, Htrim. by eexists.
Qed.

Lemma storable_shown e n : of_terminal e → (if storable e then row_shown (stored_row u n e) else None) = expected e.
Proof.
  intros (Hty & Hv & Hs). unfold storable, expected, clean. case_bool_decide as Hc; [done|]. cbn [negb andb].
  destruct (utf8_valid (de_chunk e)) eqn:Hvalid.
  - rewrite marshalled_valid by done. destruct (has_byte (de_chunk e) nul); [done|]. cbn [negb andb].
    pose proof (data_payload_shown n (pg_now n) (de_stream e) (de_chunk e) (if bool_decide (TrimSpace (de_type e) = EventDataIn) then §"i" else §"o")
      (if fpositive (de_offset e) then de_offset e else of_Z 0) (de_type e) Hty Hc Hv) as Hshown. rewrite Hvalid in Hshown. exact Hshown.
  - pose proof (data_payload_shown n (pg_now n) (de_stream e) (de_chunk e) (if bool_decide (TrimSpace (de_type e) = EventDataIn) then §"i" else §"o")
      (if fpositive (de_offset e) then de_offset e else of_Z 0) (de_type e) Hty Hc Hv) as Hshown. rewrite Hvalid in Hshown.
    cbn [andb]. destruct (negb _); [exact Hshown|done].
Qed.

Lemma record_all_rows evs s : d_faults s = [] → is_Some (d_sessions s !! u) → Forall of_terminal evs →
  ∃ rows n, record_all sid evs s = (Ok tt, with_steps s (d_events s ++ rows) n) ∧ (d_steps s <= n)%nat ∧
    omap row_shown rows = omap expected evs ∧ (length rows <= length evs)%nat ∧
    Forall (λ r, ev_session r = u ∧ ev_type r ∈ [EventDataIn; EventDataOut] ∧ (d_steps s <= ev_id r < n)%nat) rows ∧
    StronglySorted (λ x y, Z.of_nat (ev_id x) <= Z.of_nat (ev_id y)) rows.
Proof.
  revert s. induction evs as [|e evs IH]; intros s Hf Hses Hall.
  { exists [], (d_steps s). rewrite app_nil_r. split_and!; try done; [|constructor]. unfold with_steps. destruct s. cbn in *. by subst. }
  apply Forall_cons in Hall as [He Hall]. cbn [record_all]. destruct (record_one s e Hf Hses He) as [r Hone].
  unfold bind. rewrite Hone. pose proof (storable_shown e (d_steps s) He) as Hshown. case_bool_decide as Hc.
  - destruct (IH s Hf Hses Hall) as (rows & n & Hrec & Hn & Hrows & Hlen & Hids & Hsorted). exists rows, n. split_and!; try done.
    + rewrite Hrows. cbn [omap list_omap]. unfold expected at 2, clean. by rewrite bool_decide_true.
    + cbn [length]. lia.
  - set (s1 := with_steps _ _ _). destruct (IH s1 eq_refl Hses Hall) as (rows & n & Hrec & Hn & Hrows & Hlen & Hids & Hsorted).
    cbn [s1 with_steps d_steps d_events] in *. exists ((if storable e then [stored_row u (d_steps s) e] else []) ++ rows), n.
    split_and!; [rewrite Hrec; by rewrite <- app_assoc|lia| | | |].
    + rewrite omap_app, Hrows. cbn [omap list_omap]. rewrite <- Hshown. destruct (storable e); [|done]. cbn [omap list_omap].
      by destruct (row_shown _).
    + rewrite length_app. destruct (storable e); cbn [length]; lia.
    + apply Forall_app. split.
      * destruct (storable e); constructor; [|constructor]. cbn [stored_row ev_session ev_type ev_id]. split_and!; [done|apply He|lia|lia].
      * eapply Forall_impl; [exact Hids|]. intros r' (? & ? & ? & ?). split_and!; try done; lia.
    + destruct (storable e); [|done]. constructor; [done|]. eapply Forall_impl; [exact Hids|]. cbn [stored_row ev_id]. intros r' (? & ? & ?). lia.
Qed.

Definition of_replay (e : event_row) : Prop := ev_type e ∈ [EventDataIn; EventDataOut; EventTerminalResize].

(** C11.  What is recorded of a session's data can be replayed: whatever chunks a
    bridge records, in a session without earlier ones and on a database without
    faults, the first page of the replay shows direction, stream and bytes of
    every chunk that is UTF-8 without NUL, in order and unchanged, and nothing
    of the others. *)
Theorem replay_shows_the_clean_chunks evs s limit : d_faults s = [] → is_Some (d_sessions s !! u) →
  Forall (λ e, ev_session e = u → ¬ of_replay e) (d_events s) → Forall of_terminal evs → Z.of_nat (length evs) <= page_size limit →
  ∃ chunks s', (do! record_all sid evs in ListReplayChunks sid 0 limit) s = (Ok chunks, s') ∧ map shown_of chunks = omap expected evs.
Proof.
  intros Hf Hses Hold Hall Hlen. destruct (record_all_rows evs s Hf Hses Hall) as (rows & n & Hrec & _ & Hrows & Hlength & Hids & Hsorted).
  unfold bind. rewrite Hrec. unfold ListReplayChunks. rewrite (bool_decide_false _ Hsid). change (0 <? 0) with false. cbn [orb].
  unfold bind, wrap_err, select_events. rewrite statement_clean by done. rewrite Hu. cbn [d_events tick with_steps].
  eexists _, _. split; [done|]. rewrite normalizeReplayChunks_shown, List.filter_app.
  rewrite (filtered_none _ (d_events s)).
  2:{ eapply Forall_impl; [exact Hold|]. intros e He. destruct (bool_decide (ev_session e = u)) eqn:E1; [|done]. gobool.
      rewrite bool_decide_false; [done|]. by apply He. }
  rewrite (filtered_all _ rows).
  2:{ eapply Forall_impl; [exact Hids|]. intros r (-> & Hty & _). rewrite !bool_decide_true by (done || set_solver). done. }
  cbn [app]. rewrite order_by_sorted by done. rewrite take_ge by lia. rewrite <- Hrows. clear.
  induction rows as [|r rows IH]; [done|]. cbn [omap list_omap]. unfold row_shown at 1.
  destruct (replayChunkFromPayload _ _ _ _); cbn [fmap option_fmap option_map map]; [by rewrite IH|done].
Qed.
End Session.
End Recorded.

(** ** Runes *)

Lemma utf8_valid_ind (P : bytes → Prop) :
  P [] → (∀ s n, rune_len s = Some n → utf8_valid (drop n s) = true → P (drop n s) → P s) → ∀ s, utf8_valid s = true → P s.
Proof.
  intros Hnil Hstep s. remember (length s) as k eqn:Hk. revert s Hk. induction k as [k IH] using lt_wf_ind. intros s -> Hv.
  destruct s as [|a s]; [done|]. destruct (rune_len (a :: s)) as [n|] eqn:E.
  2: { unfold utf8_valid in Hv. cbn [length valid_runes] in Hv. by rewrite E in Hv. }
  destruct (rune_len_spec _ _ E) as (Hn & Hl & _). rewrite (utf8_valid_rune _ _ E) in Hv.
  apply (Hstep _ n E Hv). eapply IH; [|done|done]. rewrite length_drop. cbn [length] in *. lia.
Qed.
Lemma decode_runes_fuel f g s : (length s <= f)%nat → (length s <= g)%nat → decode_runes f s = decode_runes g s.
Proof.
  revert g s. induction f as [|f IH]; intros g s Hf Hg; (destruct s as [|a s]; [by destruct g|]); [cbn in Hf; lia|].
  destruct g as [|g]; [cbn in Hg; lia|]. cbn [decode_runes]. destruct (rune_len (a :: s)) as [n|] eqn:E.
  - destruct (rune_len_spec _ _ E) as (? & ? & _). f_equal. apply IH; rewrite length_drop; cbn [length] in *; lia.
  - f_equal. apply IH; rewrite length_drop; cbn [length] in *; lia.
Qed.
Lemma runes_step s n : rune_len s = Some n → runes s = rune_value n s :: runes (drop n s).
Proof.
  intros E. destruct (rune_len_spec _ _ E) as (Hn & Hl & _). unfold runes. destruct s as [|a s]; [cbn in Hl; lia|].
  cbn [length decode_runes]. rewrite E. f_equal. apply decode_runes_fuel; rewrite length_drop; cbn [length] in *; lia.
Qed.
Lemma rune_value_app n s t : (1 <= n <= length s)%nat → rune_value n (s ++ t) = rune_value n s.
Proof.
  intros Hn. unfold rune_value, at_byte.
  destruct n as [|[|[|[|[|]]]]]; [lia|destruct s as [|a s]; [cbn in Hn; lia|done]|
    destruct s as [|a [|b s]]; [cbn in Hn; lia..|done]|destruct s as [|a [|b [|c s]]]; [cbn in Hn; lia..|done]|
    destruct s as [|a [|b [|c [|d s]]]]; [cbn in Hn; lia..|done]|destruct s as [|a s]; [cbn in Hn; lia|done]].
Qed.
Lemma rune_len_app s n t : rune_len s = Some n → rune_len (s ++ t) = Some n.
Proof. intros E. destruct (rune_len_spec _ _ E) as (_ & _ & Happ). specialize (Happ (drop n s ++ t)). by rewrite app_assoc, take_drop in Happ. Qed.
Lemma runes_app s t : utf8_valid s = true → runes (s ++ t) = runes s ++ runes t.
Proof.
  revert s. apply utf8_valid_ind; [done|]. intros s n E _ IH. destruct (rune_len_spec _ _ E) as (Hn & Hl & _).
  rewrite (runes_step _ _ (rune_len_app _ _ t E)), (runes_step _ _ E), rune_value_app by lia. cbn [app]. rewrite <- IH.
  by rewrite drop_app_le by done.
Qed.
Lemma utf8_valid_app s t : utf8_valid s = true → utf8_valid t = true → utf8_valid (s ++ t) = true.
Proof.
  intros Hs Ht. revert s Hs. apply utf8_valid_ind; [done|]. intros s n E _ IH. destruct (rune_len_spec _ _ E) as (Hn & Hl & _).
  rewrite (utf8_valid_rune _ _ (rune_len_app _ _ t E)). by rewrite drop_app_le by done.
Qed.

(** A rune whose text is read as one. *)
Definition whole (r : Z) : Prop := rune_len (encode_rune r) = Some (length (encode_rune r)).
Lemma runes_whole s : utf8_valid s = true → Forall whole (runes s).
Proof.
  revert s. apply utf8_valid_ind; [constructor|]. intros s n E _ IH. rewrite (runes_step _ _ E). constructor; [|done].
  destruct (rune_value_spec _ _ E) as [Hs He]. destruct (rune_len_spec _ _ E) as (_ & Hl & Happ). unfold whole, encode_rune.
  rewrite Hs, He, length_take, Nat.min_l by done. specialize (Happ []). by rewrite app_nil_r in Happ.
Qed.
Lemma rune_first b t n : rune_len (b :: t) = Some n → is_cont b = false.
Proof.
  unfold rune_len. intros E. destruct (is_cont b) eqn:Hc; [|done]. exfalso. unfold is_cont, in_range in *. gobool.
  rewrite (proj2 (Z.ltb_ge _ _)) in E by lia. rewrite !(proj2 (Z.leb_gt _ (b2z b))) in E by lia. done.
Qed.
Lemma find_none_app {A} (f : A → bool) l l' : Forall (λ x, f x = false) l → List.find f (l ++ l') = List.find f l'.
Proof. induction 1 as [|x l Hx _ IH]; cbn [app List.find]; [done|]. by rewrite Hx. Qed.
Lemma find_seq (f : nat → bool) k m : (1 <= k <= m)%nat → f k = true → (∀ j, (1 <= j < k)%nat → f j = false) → List.find f (seq 1 m) = Some k.
Proof.
  intros Hk Hf Hno. replace m with ((k - 1) + S (m - k))%nat by lia. rewrite seq_app, find_none_app.
  - cbn [seq List.find]. replace (1 + (k - 1))%nat with k by lia. by rewrite Hf.
  - apply Forall_forall. intros j Hin%list_elem_of_In%in_seq. apply Hno. lia.
Qed.
Lemma last_rune_size_app s p : rune_len p = Some (length p) → last_rune_size (s ++ p) = length p.
Proof.
  intros E. destruct (rune_len_spec _ _ E) as (Hn & _ & _). destruct p as [|b p]; [done|]. unfold last_rune_size.
  destruct (s ++ b :: p) as [|x y] eqn:Hxy; [by destruct s|]. rewrite <- Hxy. clear x y Hxy.
  assert (Hends : ∀ k, (1 <= k <= length (b :: p))%nat → drop (length (s ++ b :: p) - k) (s ++ b :: p) = drop (length (b :: p) - k) (b :: p)).
  { intros k Hk. rewrite length_app, drop_app_ge by lia. f_equal. lia. }
  rewrite (find_seq _ (length (b :: p))).
  - rewrite Hends, Nat.sub_diag, drop_0 by lia. by rewrite bool_decide_true.
  - rewrite length_app. lia.
  - rewrite Hends, Nat.sub_diag, drop_0 by lia. by rewrite (rune_first _ _ _ E).
  - intros j Hj. rewrite Hends by lia. destruct (drop _ (b :: p)) as [|c t] eqn:Ed; [done|].
    rewrite (rune_continuation _ _ (length (b :: p) - j) c E); [done|lia|]. by rewrite <- (Nat.add_0_r (_ - j)), <- lookup_drop, Ed.
Qed.
Lemma runes_string_app a b : runes_string (a ++ b) = runes_string a ++ runes_string b.
Proof. unfold runes_string. by rewrite map_app, concat_app. Qed.
Lemma trimLastRune_snoc rs r : whole r → trimLastRune (runes_string (rs ++ [r])) = runes_string rs.
Proof.
  intros Hr. unfold trimLastRune. rewrite runes_string_app. change (runes_string [r]) with (encode_rune r ++ []). rewrite app_nil_r.
  rewrite last_rune_size_app by done. rewrite length_app, Nat.add_sub. by rewrite take_app_length.
Qed.

(** ** What was typed *)

(** A line as it is edited: backspace and DEL take the last rune back, other
    control characters but tab leave it. *)
Definition key (line : list Z) (r : Z) : list Z :=
  if (r =? 8) || (r =? 127) then removelast line else if isControlRune r then line else line ++ [r].
(** The lines that were ended, and the one that was not. *)
Fixpoint lines_from (line : list Z) (rs : list Z) : list (list Z) * list Z :=
  match rs with
  | [] => ([], line)
  | r :: rest =>
      if (r =? 13) || (r =? 10) then let '(ended, open) := lines_from [] rest in (line :: ended, open)
      else lines_from (key line r) rest
  end.
Definition typed_texts (s : bytes) : list bytes := omap nonblank (map runes_string (lines_from [] (runes s)).1).

Lemma lines_from_app line a b : lines_from line (a ++ b) =
  let '(ended, open) := lines_from line a in let '(ended', open') := lines_from open b in (ended ++ ended', open').
Proof.
  revert line. induction a as [|r a IH]; intros line; cbn [app lines_from].
  - by destruct (lines_from line b).
  - destruct (_ || _).
    + rewrite IH. destruct (lines_from [] a) as [e o]. by destruct (lines_from o b).
    + apply IH.
Qed.
Lemma whole_last {A} (P : A → Prop) l : Forall P l → Forall P (removelast l).
Proof. induction 1 as [|x l Hx Hl IH]; [constructor|]. cbn [removelast]. destruct l; [constructor|by constructor]. Qed.
Lemma trim_removelast line : Forall whole line → trimLastRune (runes_string line) = runes_string (removelast line).
Proof.
  intros Hl. destruct line as [|r line _] using rev_ind; [done|]. apply Forall_app in Hl as [_ Hr]. apply Forall_cons in Hr as [Hr _].
  rewrite removelast_last. by apply trimLastRune_snoc.
Qed.
Lemma key_whole line r : Forall whole line → whole r → Forall whole (key line r).
Proof.
  intros Hl Hr. unfold key. destruct (_ || _); [by apply whole_last|]. destruct (isControlRune r); [done|]. by apply Forall_app_2; [|constructor].
Qed.
Lemma input_fold rs : ∀ line commands last, Forall whole rs → Forall whole line → (last = 13 → line = []) →
  let '(ended, open) := lines_from line rs in
  (fold_left input_rune rs (commands, runes_string line, last)).1
  = (commands ++ List.filter (λ c, negb (bool_decide (TrimSpace c = []))) (map runes_string ended), runes_string open)
  ∧ Forall whole open.
Proof.
  induction rs as [|r rs IH]; intros line commands last Hrs Hl Hlast; [by split; [cbn; rewrite app_nil_r|]|]. apply Forall_cons in Hrs as [Hr Hrs].
  cbn [lines_from fold_left]. unfold input_rune at 2. destruct (_ || _) eqn:Eb.
  - destruct (_ && _) eqn:Ecr.
    + gobool. rewrite Hlast by done. specialize (IH [] commands r Hrs ltac:(constructor) ltac:(done)).
      destruct (lines_from [] rs) as [ended open]. destruct IH as [IH Ho]. split; [|done]. cbn [map List.filter].
      change (runes_string []) with (@nil byte) in *. rewrite IH. done.
    + specialize (IH [] (if bool_decide (TrimSpace (runes_string line) = []) then commands else commands ++ [runes_string line]) r Hrs ltac:(constructor) ltac:(done)).
      destruct (lines_from [] rs) as [ended open]. destruct IH as [IH Ho]. split; [|done]. change (runes_string []) with (@nil byte) in IH. rewrite IH.
      cbn [map List.filter]. case_bool_decide; cbn [negb]; [done|]. by rewrite <- app_assoc.
  - apply orb_false_iff in Eb as [E13 E10]. unfold key. destruct ((r =? 8) || (r =? 127)) eqn:Ebs.
    + rewrite trim_removelast by done. apply IH; [done|by apply whole_last|done].
    + destruct (isControlRune r) eqn:Ec; [by apply IH|].
      specialize (IH (line ++ [r]) commands 0 Hrs ltac:(by apply Forall_app_2; [|constructor]) ltac:(done)).
      rewrite runes_string_app in IH. change (runes_string [r]) with (encode_rune r ++ []) in IH. rewrite app_nil_r in IH. exact IH.
Qed.

(** Texts without escape sequences are left as they are. *)
Lemma remove_no_match find s : (∀ c t, c ≠ esc_byte → find (c :: t) = None) → esc_byte ∉ s →
  remove_matches find 0 s = s.
Proof.
  intros Hno. induction s as [|c s IH]; [done|]. intros Hs. cbn [remove_matches]. rewrite Hno by set_solver. rewrite IH by set_solver. done.
Qed.
Lemma stripANSI_plain s : esc_byte ∉ s → stripANSI s = s.
Proof.
  intros Hs. unfold stripANSI.
  assert (Ho : ∀ c t, c ≠ esc_byte → osc_match (c :: t) = None) by (intros c [|b t] Hc; [done|]; unfold osc_match; by rewrite bool_decide_false).
  assert (Hc : ∀ c t, c ≠ esc_byte → csi_match (c :: t) = None) by (intros c [|b t] Hc; [done|]; unfold csi_match; by rewrite bool_decide_false).
  rewrite (remove_no_match osc_match s Ho Hs). exact (remove_no_match csi_match s Hc Hs).
Qed.
Lemma consume_plain chunk line : utf8_valid chunk = true → esc_byte ∉ chunk → Forall whole line →
  let '(ended, open) := lines_from line (runes chunk) in
  consumeInputChunk chunk (runes_string line)
  = (List.filter (λ c, negb (bool_decide (TrimSpace c = []))) (map runes_string ended), runes_string open) ∧ Forall whole open.
Proof.
  intros Hv He Hl. unfold consumeInputChunk. rewrite stripANSI_plain by done.
  pose proof (input_fold (runes chunk) line [] 0 (runes_whole _ Hv) Hl ltac:(done)) as H1. destruct (lines_from line (runes chunk)) as [ended open].
  exact H1.
Qed.

(** The bytes of an event of input. *)
Definition input_data (item : SessionEvent) : option bytes :=
  if bool_decide (se_EventType item = EventDataIn) then event_data item else None.
Definition inward (rows : list normalizedTranscriptRow) : list bytes :=
  map nr_Text (List.filter (λ r, bool_decide (nr_Direction r = §"in")) rows).
Lemma inward_app a b : inward (a ++ b) = inward a ++ inward b.
Proof. unfold inward. by rewrite List.filter_app, map_app. Qed.
Lemma event_data_valid item s : event_data item = Some s → utf8_valid s = true.
Proof. unfold event_data. destruct (_ || _); [done|]. destruct (std_decode _); [|done]. destruct (utf8_valid _) eqn:E; [|done]. by intros [= <-]. Qed.

Lemma typed_fold item commands : ∀ t,
  let t' := fold_left (typed item) commands t in
  inward (tr_rows t') = inward (tr_rows t) ++ omap nonblank commands ∧ tr_input t' = tr_input t.
Proof.
  induction commands as [|c commands IH]; intros t t'; subst t'; [by rewrite app_nil_r|]. cbn [fold_left].
  destruct (IH (typed item t c)) as [-> ->]. cbn [omap list_omap]. unfold typed, nonblank. case_bool_decide; [done|].
  cbn [tr_rows tr_input]. rewrite inward_app, <- app_assoc. done.
Qed.
Lemma printed_fold item lines : ∀ t,
  let t' := fold_left (printed item) lines t in inward (tr_rows t') = inward (tr_rows t) ∧ tr_input t' = tr_input t.
Proof.
  induction lines as [|l lines IH]; intros t t'; subst t'; [done|]. cbn [fold_left]. destruct (IH (printed item t l)) as [-> ->].
  unfold printed. repeat case_bool_decide; try done. cbn [tr_rows tr_input]. rewrite inward_app. cbn. by rewrite app_nil_r.
Qed.
Lemma omap_nonblank_filter l : omap nonblank (List.filter (λ c, negb (bool_decide (TrimSpace c = []))) l) = omap nonblank l.
Proof.
  induction l as [|c l IH]; [done|]. cbn [List.filter]. destruct (bool_decide (TrimSpace c = [])) eqn:Hc; cbn [negb omap list_omap].
  - assert (nonblank c = None) as -> by (unfold nonblank; by rewrite Hc). exact IH.
  - by rewrite <- IH.
Qed.
Lemma transcript_typed items : ∀ t line, tr_input t = runes_string line → Forall whole line →
  Forall (λ i, ∀ s, input_data i = Some s → esc_byte ∉ s) items →
  inward (tr_rows (fold_left transcript_item items t))
  = inward (tr_rows t) ++ omap nonblank (map runes_string (lines_from line (runes (concat (omap input_data items)))).1).
Proof.
  induction items as [|i items IH]; intros t line Ht Hl Hesc; [cbn; by rewrite app_nil_r|]. apply Forall_cons in Hesc as [Hi Hesc].
  cbn [fold_left omap list_omap]. unfold transcript_item at 2, input_data. unfold input_data in Hi. destruct (event_data i) as [s|] eqn:Ed.
  2: { case_bool_decide; by apply IH. }
  case_bool_decide as Hty.
  - specialize (Hi s eq_refl). pose proof (event_data_valid _ _ Ed) as Hv. cbn [concat]. rewrite runes_app, lines_from_app by done.
    pose proof (consume_plain s line Hv Hi Hl) as Hc. destruct (lines_from line (runes s)) as [ended open]. destruct Hc as [Hc Ho].
    rewrite Ht, Hc. edestruct typed_fold as [Hrows Hin]. rewrite (IH _ open); [|by rewrite Hin|done|done]. rewrite Hrows. cbn [tr_rows].
    destruct (lines_from open _) as [ended' open']. cbn [fst]. rewrite map_app, omap_app, omap_nonblank_filter. by rewrite <- app_assoc.
  - destruct (printed_fold i (normalizeOutputChunk s) t) as [Hrows Hin]. rewrite (IH _ line); [by rewrite Hrows|by rewrite Hin|done|done].
Qed.

(** C18.  What a transcript shows as typed does not depend on how the input was
    cut into chunks, nor on what the session printed: when no chunk of input has
    an escape character, its rows of input are the lines of the whole input,
    edited, trimmed and not blank, whatever else was recorded. *)
Theorem typed_rows_are_the_lines_of_the_input items :
  Forall (λ i, ∀ s, input_data i = Some s → esc_byte ∉ s) items →
  inward (normalizeTranscriptRows items) = typed_texts (concat (omap input_data items)).
Proof. intros Hesc. unfold normalizeTranscriptRows. by rewrite (transcript_typed items _ []). Qed.

(** ** Exports read every event *)

Section Exports.
Context `{Unicode, Postgres, FloatText, Columns}.
Context (sid u : bytes) (Hsid : TrimSpace sid ≠ []) (Hu : pg_uuid (TrimSpace sid) = Some u).

(** The events of the session after an id, as the statement filters them. *)
Definition after_events (after : Z) (events : list event_row) : list event_row :=
  List.filter (λ e, bool_decide (ev_session e = u) && true && ((after <=? 0) || (after <? Z.of_nat (ev_id e)))) events.
(** The ids of a [BIGSERIAL] column: positive and growing. *)
Definition serial (events : list event_row) : Prop :=
  Forall (λ e, (0 < ev_id e)%nat) events ∧ StronglySorted (λ x y, (ev_id x < ev_id y)%nat) events.

Lemma serial_filter {A} (R : A → A → Prop) (p : A → bool) l : StronglySorted R l → StronglySorted R (List.filter p l).
Proof.
  induction 1 as [|x l Hl IH Hx]; cbn [List.filter]; [constructor|]. destruct (p x); [|done]. constructor; [done|].
  apply Forall_forall. intros y [Hy _]%list_elem_of_In%filter_In. rewrite Forall_forall in Hx. by apply Hx, list_elem_of_In.
Qed.
Lemma filter_idem {A} (p q : A → bool) l : List.filter p (List.filter q l) = List.filter (λ x, q x && p x) l.
Proof. induction l as [|x l IH]; [done|]. cbn [List.filter]. destruct (q x); cbn [List.filter andb]; [destruct (p x)|]; by rewrite IH. Qed.
Lemma serial_ids l : StronglySorted (λ x y, (ev_id x < ev_id y)%nat) l → StronglySorted (λ x y, Z.of_nat (ev_id x) <= Z.of_nat (ev_id y)) l.
Proof. induction 1 as [|x l Hl IH Hx]; constructor; [done|]. eapply Forall_impl; [exact Hx|]. cbn. lia. Qed.

(** What comes after the last event of a page is what the page left. *)
Lemma after_last l k e : StronglySorted (λ x y, (ev_id x < ev_id y)%nat) l → last (take k l) = Some e →
  List.filter (λ x, Z.of_nat (ev_id e) <? Z.of_nat (ev_id x)) l = drop k l.
Proof.
  intros Hs He. rewrite <- (take_drop k l) in Hs at 1. rewrite <- (take_drop k l) at 1. apply last_Some in He as [l' He].
  rewrite He in *. rewrite List.filter_app. apply StronglySorted_app in Hs as (Hcross & Hl & _). rewrite filtered_none, filtered_all; [done| |].
  - apply Forall_forall. intros x Hx. apply Z.ltb_lt. specialize (Hcross e x ltac:(set_solver) Hx). lia.
  - apply StronglySorted_app in Hl as (Hle & _ & _). apply Forall_forall. intros x Hx. apply Z.ltb_ge.
    apply elem_of_app in Hx as [Hx|Hx%elem_of_cons]; [|destruct Hx as [->|Hx%elem_of_nil]; [lia|done]]. specialize (Hle x e Hx ltac:(set_solver)). lia.
Qed.
Lemma ListEvents_page s after : serial (d_events s) → 0 <= after →
  let r := ListEvents sid after 1000 s in
  d_events r.2 = d_events s ∧ d_faults r.2 = tail (d_faults s)
  ∧ (r.1 = Ok (map event_of (take 1000 (after_events after (d_events s)))) ∨ d_faults s ≠ [] ∧ is_err r.1 = true).
Proof.
  intros [Hpos Hs] Ha r. subst r. unfold ListEvents. rewrite (bool_decide_false _ Hsid), (proj2 (Z.ltb_ge after 0)) by done.
  unfold bind, wrap_err, select_events, statement. rewrite Hu. cbn [d_events].
  change (page_size 1000) with 1000. rewrite order_by_sorted by by apply serial_ids, serial_filter.
  change (Z.to_nat 1000) with 1000%nat. fold (after_events after (d_events s)).
  destruct (d_faults s) as [|[[e|e]|] fs]; cbn [head tail mjoin option_join]; cbn; split_and!; try done; (left; done) || (right; done).
Qed.
Lemma all_events_reads fuel : ∀ s after, serial (d_events s) → 0 <= after →
  (length (after_events after (d_events s)) < fuel)%nat →
  let r := all_events fuel sid after s in
  d_events r.2 = d_events s ∧ (d_faults s = [] → d_faults r.2 = []) ∧
  (r.1 = Ok (map event_of (after_events after (d_events s))) ∨ d_faults s ≠ [] ∧ is_err r.1 = true).
Proof.
  induction fuel as [|fuel IH]; intros s after Hser Ha Hlen r; [lia|]. subst r. cbn [all_events]. unfold bind.
  destruct (ListEvents_page s after Hser Ha) as (Hev & Hf & Hpage). destruct (ListEvents sid after 1000 s) as [o s1]. cbn [fst snd] in *.
  destruct Hpage as [->|[Hne Herr]].
  2: { destruct o; try done. cbn. split_and!; [done|intros E; by rewrite Hf, E|by right]. }
  set (rest := after_events after (d_events s)) in *. rewrite (fmap_last event_of (take 1000 rest)).
  destruct (last (take 1000 rest)) as [e|] eqn:Elast; cbn [fmap option_fmap option_map].
  2: { apply last_None in Elast. cbn. split_and!; [done|intros E; by rewrite Hf, E|left]. clearbody rest. destruct rest; [done|discriminate]. }
  assert (Hsorted : StronglySorted (λ x y, (ev_id x < ev_id y)%nat) rest) by by apply serial_filter, Hser.
  assert (Hin : e ∈ rest) by (apply last_Some in Elast as [l' El]; rewrite <- (take_drop 1000 rest), El; set_solver).
  assert (Hnext : after_events (Z.of_nat (ev_id e)) (d_events s) = drop 1000 rest).
  { rewrite <- (after_last rest 1000 e) by done. unfold rest, after_events. rewrite filter_idem.
    apply list_elem_of_In, filter_In in Hin as [Hin Hp]. destruct Hser as [Hpos _]. rewrite Forall_forall in Hpos.
    specialize (Hpos e ltac:(by apply list_elem_of_In)). gobool. apply filter_ext. intros x. rewrite (proj2 (Z.leb_gt _ _)) by lia. cbn [orb].
    destruct (bool_decide (ev_session x = u)); cbn [andb]; [|done].
    destruct (Z.of_nat (ev_id e) <? Z.of_nat (ev_id x)) eqn:El; [|by rewrite andb_false_r]. rewrite andb_true_r. symmetry. gobool.
    apply orb_true_iff. rewrite Z.leb_le, Z.ltb_lt in *. lia. }
  cbn [se_ID event_of]. assert (Hlt : (length (drop 1000 rest) < fuel)%nat).
  { rewrite length_drop. destruct rest; [by apply elem_of_nil in Hin|]. cbn [length] in *. lia. }
  destruct (IH s1 (Z.of_nat (ev_id e))) as (Hev' & Hf' & Hres); [by rewrite Hev|lia|by rewrite Hev, Hnext|].
  change (se_ID (event_of e)) with (ev_id e). destruct (all_events fuel sid (Z.of_nat (ev_id e)) s1) as [o s2]. cbn [fst snd] in *.
  rewrite Hev, Hnext in Hres. destruct Hres as [->|[Hne Herr]].
  - cbn. split_and!; [congruence|intros E; apply Hf'; by rewrite Hf, E|left]. by rewrite <- map_app, take_drop.
  - destruct o; try done. cbn. split_and!; [congruence|intros E; apply Hf'; by rewrite Hf, E|right]. split; [|done]. intros E. apply Hne. by rewrite Hf, E.
Qed.
End Exports.

(** ** Who may look *)

(** Reading leaves the tables alone. *)
Definition same_tables (s s' : db) : Prop :=
  d_users s' = d_users s ∧ d_assets s' = d_assets s ∧ d_sessions s' = d_sessions s ∧ d_events s' = d_events s ∧ d_audit s' = d_audit s.
(** A call, and a part of a handler, that only reads: whatever fails, what it
    returns has [Q], and it answers nothing but errors by itself. *)
Definition reads {A} (s0 : db) (m : M db A) (Q : A → Prop) : Prop := ∀ s, same_tables s0 s →
  match m s with
  | (Ok a, s') => same_tables s0 s' ∧ Q a
  | (Err _, s') => same_tables s0 s'
  | _ => False
  end.
Definition looks {R A} (s0 : db) (m : part db R A) (Q : A → Prop) : Prop := ∀ s, same_tables s0 s →
  match m s with
  | (Ok (inl a), s') => same_tables s0 s' ∧ Q a
  | (Ok (inr (ReplyError _ _)), s') => same_tables s0 s'
  | _ => False
  end.
(** A handler that answers an error or something with [Q], and only reads. *)
Definition shows {R} (m : M db (reply R)) (s : db) (Q : R → Prop) : Prop :=
  match m s with
  | (Ok (Reply _ x), s') => same_tables s s' ∧ Q x
  | (Ok (ReplyError _ _), s') => same_tables s s'
  | _ => False
  end.

Section Reading.
Context {R : Type} (s0 : db).

Lemma looks_then {A B} (m : part db R A) (k : A → part db R B) (Q : A → Prop) (Q' : B → Prop) :
  looks s0 m Q → (∀ a, Q a → looks s0 (k a) Q') → looks s0 (and_then m k) Q'.
Proof.
  intros Hm Hk s Hs. unfold and_then, bind. specialize (Hm s Hs). destruct (m s) as [[[a|[|]]| | |] s1]; try done.
  destruct Hm as [Hs1 Hq]. exact (Hk a Hq s1 Hs1).
Qed.
Lemma looks_go_on {A} (a : A) (Q : A → Prop) : Q a → looks (R:=R) s0 (go_on a) Q.
Proof. intros Hq s Hs. by split. Qed.
Lemma looks_need {A} (o : option A) code msg (Q : A → Prop) : (∀ a, o = Some a → Q a) → looks (R:=R) s0 (need o code msg) Q.
Proof. intros Hq s Hs. destruct o as [a|]; [split; auto|done]. Qed.
Lemma looks_require b code msg : looks (R:=R) s0 (require b code msg) (λ _, b = true).
Proof. intros s Hs. by destruct b. Qed.
Lemma looks_attempt {A} (m : M db A) (h : error → reply R) (Q : A → Prop) :
  (∀ e, match h e with ReplyError _ _ => true | Reply _ _ => false end = true) → reads s0 m Q → looks s0 (attempt m h) Q.
Proof.
  intros Hh Hm s Hs. unfold attempt, bind, try. specialize (Hm s Hs). destruct (m s) as [[a|e| |] s1]; cbn; try done.
  specialize (Hh e). by destruct (h e).
Qed.
Lemma looks_or_500 {A} (m : M db A) msg (Q : A → Prop) : reads s0 m Q → looks (R:=R) s0 (or_500 m msg) Q.
Proof. by apply looks_attempt. Qed.
Lemma looks_or_bad_request {A} (r : A + error) (Q : A → Prop) : (∀ a, r = inl a → Q a) → looks (R:=R) s0 (or_bad_request r) Q.
Proof. intros Hq s Hs. destruct r; [split; auto|done]. Qed.
Lemma handler_shows (m : part db R (reply R)) (Q : R → Prop) :
  looks s0 m (λ p, match p with Reply _ x => Q x | ReplyError _ _ => True end) → shows (handler m) s0 Q.
Proof.
  intros Hm. specialize (Hm s0 ltac:(by repeat split)). unfold shows, handler, bind. destruct (m s0) as [[[[|]|[|]]| | |] s1]; cbn; try done. by destruct Hm.
Qed.
Lemma reads_bind {A B} (m : M db A) (k : A → M db B) (Q : A → Prop) (Q' : B → Prop) :
  reads s0 m Q → (∀ a, Q a → reads s0 (k a) Q') → reads s0 (bind m k) Q'.
Proof.
  intros Hm Hk s Hs. unfold bind. specialize (Hm s Hs). destruct (m s) as [[a|e| |] s1]; try done. destruct Hm as [Hs1 Hq]. exact (Hk a Hq s1 Hs1).
Qed.
Lemma reads_ret {A} (a : A) (Q : A → Prop) : Q a → reads s0 (ret a) Q.
Proof. intros Hq s Hs. by split. Qed.
Lemma reads_fail {A} e (Q : A → Prop) : reads s0 (fail e) Q.
Proof. by intros s Hs. Qed.
Lemma reads_wrap_err {A} msg (m : M db A) (Q : A → Prop) : reads s0 m Q → reads s0 (wrap_err msg m) Q.
Proof. intros Hm s Hs. unfold wrap_err. specialize (Hm s Hs). by destruct (m s) as [[]?]. Qed.
Lemma reads_statement `{Postgres} {A} (q : Z → nat → db → (A * db) + error) (Q : A → Prop) :
  (∀ now n s, same_tables s0 s → match q now n s with inl (a, s') => s' = s ∧ Q a | inr _ => True end) → reads s0 (statement q) Q.
Proof.
  intros Hq s Hs. unfold statement. set (s1 := Db _ _ _ _ _ _ _). assert (Hs1 : same_tables s0 s1) by exact Hs.
  specialize (Hq (pg_now (d_steps s)) (d_steps s) s1 Hs1).
  destruct (mjoin (head (d_faults s))) as [[e|e]|]; [done| |]; (destruct (q _ _ s1) as [[a s2]|e2]; [|done]); destruct Hq as [-> Hq]; done.
Qed.
End Reading.

(** [sid] names a session that [user] may look at: one of their own, or any for
    administrators and auditors. *)
Definition may_view `{Postgres} (s : db) (user : option CurrentUser) (sid : bytes) : Prop :=
  ∃ cu u r, user = Some cu ∧ pg_uuid (TrimSpace sid) = Some u ∧ d_sessions s !! u = Some r ∧
    (cu_ID cu = s_user r ∨ HasRole cu §"admin" = true ∨ HasRole cu §"auditor" = true).
(** An item of a list is a session of the user [u]. *)
Definition of_user (s : db) (u : bytes) (i : sessionSummaryResponse) : Prop :=
  su_ID (sr_User i) = u ∧ ∃ r, d_sessions s !! sr_SessionID i = Some r ∧ s_user r = u.

Lemma insert_by_perm {A} (key : A → Z) x l : insert_by key x l ≡ₚ x :: l.
Proof. induction l as [|y l IH]; [done|]. cbn [insert_by]. destruct (key x <? key y); [done|]. rewrite IH. apply Permutation_swap. Qed.
Lemma order_by_perm {A} (key : A → Z) l : order_by key l ≡ₚ l.
Proof.
  unfold order_by. change l with ([] ++ l) at 2. generalize (@nil A) as sorted. induction l as [|x l IH]; intros sorted; [by rewrite app_nil_r|].
  cbn [fold_left]. rewrite IH, insert_by_perm. apply Permutation_middle.
Qed.
Lemma in_page {A} (key : A → Z) n l x : x ∈ take n (order_by key l) → x ∈ l.
Proof. intros Hx%elem_of_take. destruct Hx as (i & Hi & _). rewrite <- (order_by_perm key l). by eapply list_elem_of_lookup_2. Qed.

Section Views.
Context `{Unicode, Postgres, FloatText, Columns} (s0 : db).

Lemma GetDetail_reads sid : reads s0 (GetDetail sid)
  (λ item, ∃ u r, pg_uuid (TrimSpace sid) = Some u ∧ d_sessions s0 !! u = Some r ∧ ss_UserID (sd_summary item) = s_user r).
Proof.
  unfold GetDetail. case_bool_decide; [apply reads_fail|].
  apply (reads_bind _ _ _ (λ row, ∀ item, row = Some item → ∃ u r, pg_uuid (TrimSpace sid) = Some u ∧ d_sessions s0 !! u = Some r
    ∧ ss_UserID (sd_summary item) = s_user r)).
  - apply reads_wrap_err, reads_statement. intros now n s (_ & Ha & Hs & _). destruct (pg_uuid (TrimSpace sid)) as [u|]; [|done]. split; [done|].
    intros item. rewrite Hs. destruct (d_sessions s0 !! u) as [r|] eqn:Er; [|done]. destruct (d_assets s !! s_asset r); [|done].
    case_bool_decide; [|done]. intros [= <-]. by exists u, r.
  - intros [item|] Hitem; [by apply reads_ret, Hitem|apply reads_fail].
Qed.
Lemma viewed_session_looks {R} user sid : looks (R:=R) s0 (viewed_session user sid) (λ p, p.1 = TrimSpace sid ∧ TrimSpace sid ≠ [] ∧ may_view s0 user sid).
Proof.
  unfold viewed_session. eapply looks_then; [by apply looks_need with (Q := λ cu, user = Some cu)|]. intros cu Huser. cbv zeta.
  eapply looks_then; [apply looks_require|]. intros [] Hne. gobool. eapply looks_then.
  { apply looks_attempt; [|apply GetDetail_reads]. intros e. by case_bool_decide. }
  intros item (u & r & Hu & Hr & Hid). eapply looks_then; [apply looks_require|]. intros [] Hview. apply looks_go_on. split_and!; [done|done|].
  rewrite TrimSpace_idem in Hu. exists cu, u, r. split_and!; [done|done|done|]. unfold canViewSession in Hview. rewrite Hid in Hview.
  apply orb_true_iff in Hview as [Hown|Hrole]; [left; by gobool|right]. by apply orb_true_iff in Hrole.
Qed.
Lemma GetLifecycleSummary_reads sid : reads s0 (GetLifecycleSummary sid)
  (λ l, ∀ u, pg_uuid (TrimSpace sid) = Some u → sm_EventCount l = length (List.filter (λ e, bool_decide (ev_session e = u)) (d_events s0))).
Proof.
  unfold GetLifecycleSummary. case_bool_decide; [apply reads_fail|]. apply reads_wrap_err, reads_statement. intros now n s (_ & _ & _ & He & _).
  destruct (pg_uuid (TrimSpace sid)) as [u|]; [|done]. split; [done|]. intros u' [= <-]. cbn [sm_EventCount]. by rewrite He.
Qed.
Lemma select_events_reads id types after limit : reads s0 (select_events id types after limit) (λ _, True).
Proof. apply reads_statement. intros now n s _. by destruct (pg_uuid id). Qed.
Lemma ListEvents_reads sid after limit : reads s0 (ListEvents sid after limit) (λ _, True).
Proof.
  unfold ListEvents. case_bool_decide; [apply reads_fail|]. destruct (after <? 0); [apply reads_fail|].
  eapply reads_bind; [apply reads_wrap_err, select_events_reads|]. intros rows _. by apply reads_ret.
Qed.
Lemma ListReplayChunks_reads sid after limit : reads s0 (ListReplayChunks sid after limit) (λ _, True).
Proof.
  unfold ListReplayChunks. case_bool_decide; [apply reads_fail|]. destruct (after <? 0); [apply reads_fail|].
  eapply reads_bind; [apply reads_wrap_err, select_events_reads|]. intros rows _. by apply reads_ret.
Qed.
Lemma listSessions_reads f : reads s0 (listSessions f) (λ items, Forall (λ i, ∃ r, d_sessions s0 !! ss_SessionID i = Some r ∧ s_user r = ss_UserID i ∧
  ∀ t, nonblank (sf_UserID f) = Some t → pg_uuid t = Some (s_user r)) items).
Proof.
  unfold listSessions. cbv zeta. do 3 match goal with |- reads _ (match ?x with _ => _ end) _ => destruct x; [apply reads_fail|] end.
  destruct (after_to _ _); [apply reads_fail|]. apply reads_wrap_err, reads_statement. intros now n s (_ & Ha & Hs & _).
  unfold uuid_condition at 1. destruct (nonblank (sf_UserID f)) as [t|] eqn:Et.
  - destruct (pg_uuid t) as [w|] eqn:Ew; [|done]. destruct (uuid_condition _); [|done]. split; [done|]. apply Forall_forall. intros i Hi%in_page.
    apply list_elem_of_omap in Hi as ((u & r) & Hin & Hi). rewrite elem_of_map_to_list, Hs in Hin. destruct (d_assets s !! s_asset r); [|done].
    destruct (_ && _) eqn:E in Hi; [|done]. injection Hi as <-. gobool. cbn [equals] in *. gobool. exists r. split_and!; [done|done|].
    intros t' [= <-]. congruence.
  - destruct (uuid_condition _); [|done]. split; [done|]. apply Forall_forall. intros i Hi%in_page.
    apply list_elem_of_omap in Hi as ((u & r) & Hin & Hi). rewrite elem_of_map_to_list, Hs in Hin. destruct (d_assets s !! s_asset r); [|done].
    destruct (_ && _) eqn:E in Hi; [|done]. injection Hi as <-. exists r. by split_and!.
Qed.
Lemma page_parameters_looks {R} query : looks (R:=R) s0 (page_parameters query) (λ _, True).
Proof. do 2 (eapply looks_then; [by apply looks_need with (Q := λ _, True)|intros ? _]). by apply looks_go_on. Qed.
Lemma all_events_tables fuel sid : ∀ after s, same_tables s0 s → same_tables s0 (all_events fuel sid after s).2.
Proof.
  induction fuel as [|fuel IH]; intros after s Hs; [done|]. cbn [all_events]. unfold bind. pose proof (ListEvents_reads sid after 1000 s Hs) as Hpage.
  destruct (ListEvents sid after 1000 s) as [[page|e| |] s1]; try done. destruct Hpage as [Hs1 _]. destruct (last page) as [e|]; [|done].
  specialize (IH (Z.of_nat (se_ID e)) s1 Hs1). by destruct (all_events fuel sid _ s1) as [[]?].
Qed.
End Views.

(** C9.  Only the user of a session, administrators and auditors are shown it:
    the detail, the events and the replay of a session, and a list of one's own,
    change no table, whatever the request and whatever fails, and answer an
    error unless the session is the caller's or the caller has one of the two
    roles; the list has only sessions of the caller. *)
Theorem sessions_are_shown_to_their_user_or_an_auditor `{Unicode, Postgres, FloatText, Columns} s user sid query :
  shows (Detail user sid) s (λ _, may_view s user sid) ∧
  shows (Events user sid query) s (λ _, may_view s user sid) ∧
  shows (Replay user sid query) s (λ _, may_view s user sid) ∧
  shows (MySessions user query) s (Forall (λ i, ∃ cu, user = Some cu ∧
    pg_uuid (TrimSpace (cu_ID cu)) = Some (su_ID (sr_User i)) ∧ of_user s (su_ID (sr_User i)) i)).
Proof.
  split_and!; apply handler_shows.
  - eapply looks_then; [apply viewed_session_looks|]. intros [sid' item] (_ & _ & Hview).
    eapply looks_then; [apply looks_or_500, GetLifecycleSummary_reads|]. intros l _. by apply looks_go_on.
  - eapply looks_then; [apply viewed_session_looks|]. intros [sid' item] (_ & _ & Hview).
    eapply looks_then; [apply page_parameters_looks|]. intros [limit after] _.
    eapply looks_then; [by apply looks_attempt, ListEvents_reads|]. intros l _. by apply looks_go_on.
  - eapply looks_then; [apply viewed_session_looks|]. intros [sid' item] (_ & _ & Hview).
    eapply looks_then; [apply page_parameters_looks|]. intros [limit after] _. destruct (negb _); [by apply looks_go_on|].
    eapply looks_then; [by apply looks_attempt, ListReplayChunks_reads|]. intros l _. by apply looks_go_on.
  - eapply looks_then; [by apply looks_need with (Q := λ cu, user = Some cu)|]. intros cu ->.
    eapply looks_then; [by apply looks_or_bad_request with (Q := λ _, True)|]. intros f _.
    eapply looks_then; [apply looks_attempt; [done|]|intros items Hitems; apply looks_go_on, Forall_map; exact Hitems].
    intros s1 Hs1. unfold ListForUser. case_bool_decide as Hne; [by apply reads_fail|].
    pose proof (listSessions_reads s (MkFilter (TrimSpace (cu_ID cu)) (sf_AssetID f) (sf_Status f) (sf_Action f) (sf_AssetType f) (sf_From f) (sf_To f) (sf_Limit f)) s1 Hs1) as Hl.
    destruct (listSessions _ s1) as [[items| | |] s2]; try done. destruct Hl as [Hs2 Hl]. split; [done|]. eapply Forall_impl; [exact Hl|].
    intros i (r & Hr & Huser & Hid). cbn. exists cu. rewrite <- Huser. split_and!; [done| |split; [done|by exists r]].
    apply Hid. cbn [sf_UserID]. unfold nonblank. by rewrite TrimSpace_idem, bool_decide_false.
Qed.

(** C10.  An export is complete: the loop over the pages ends, whatever fails,
    within as many turns as there are events and one, and a transcript or a
    summary is only answered to who may view the session, with the rows, the
    counts and the number of all its events, however many pages they fill. *)
Theorem exports_read_every_event `{Unicode, Postgres, FloatText, Columns} s user sid u now fuel :
  pg_uuid (TrimSpace sid) = Some u → serial (d_events s) → (length (d_events s) < fuel)%nat →
  let events := List.filter (λ e, bool_decide (ev_session e = u)) (d_events s) in
  shows (ExportSessionTranscript fuel now user sid) s (λ x, may_view s user sid ∧
    ∃ item, x.2 = transcript_text item now (normalizeTranscriptRows (map event_of events))) ∧
  shows (ExportSessionSummary fuel user sid) s (λ x, may_view s user sid ∧
    xs_counts x = event_type_counts (map event_of events) ∧ xs_event_count x = length events).
Proof.
  intros Hu Hser Hfuel events.
  assert (Hall : TrimSpace sid ≠ [] → reads s (all_events fuel (TrimSpace sid) 0) (λ l, l = map event_of events)).
  { intros Hne s1 Hs1. pose proof (all_events_tables s fuel (TrimSpace sid) 0 s1 Hs1) as Htables. destruct Hs1 as (_ & _ & _ & He & _).
    destruct (all_events_reads (TrimSpace sid) u ltac:(by rewrite TrimSpace_idem) ltac:(by rewrite TrimSpace_idem) fuel s1 0) as (_ & _ & Hres);
      [by rewrite He|done|rewrite He; pose proof (filter_length_le (λ e, bool_decide (ev_session e = u) && true && ((0 <=? 0) || (0 <? Z.of_nat (ev_id e)))) (d_events s)) as Hl; unfold after_events; lia|].
    destruct (all_events fuel _ 0 s1) as [o s2]. cbn [fst snd] in *. destruct Hres as [->|[_ Herr]]; [|by destruct o].
    split; [done|]. f_equal. rewrite He. apply filter_ext. intros e. cbn. by rewrite !andb_true_r. }
  split; apply handler_shows; (eapply looks_then; [apply viewed_session_looks|]; intros [sid' item] (Hsid & Hne & Hview); cbn in Hsid; subst sid').
  - eapply looks_then; [apply looks_require|]. intros [] _. eapply looks_then; [by apply looks_or_500, Hall|]. intros l ->.
    apply looks_go_on. split; [done|]. by exists item.
  - eapply looks_then; [apply looks_or_500, GetLifecycleSummary_reads|]. intros l Hl.
    eapply looks_then; [by apply looks_or_500, Hall|]. intros evs ->. apply looks_go_on. split_and!; [done|done|]. cbn. apply Hl. by rewrite TrimSpace_idem.
Qed.

(** ** CSV *)

(** A reader of RFC 4180 whose records end with a line feed: where it stands in
    a field, the field and the record so far. *)
Inductive csv_place := Fresh | Plain | Quoted | Closed.
#[export] Instance csv_place_dec : EqDecision csv_place.
Proof. solve_decision. Defined.



(** ** What a transcript leaves out *)

Lemma osc_front s t : bel_byte ∉ s → osc_match (esc_byte :: "]"%byte :: s ++ bel_byte :: t) = Some (3 + length s)%nat.
Proof. intros Hs. unfold osc_match. rewrite !bool_decide_true by done. cbn [andb]. by rewrite IndexByte_app_notin. Qed.
Lemma remove_skip find s t : remove_matches find (length s) (s ++ t) = remove_matches find 0 t.
Proof. induction s as [|c s IH]; [done|]. exact IH. Qed.
Lemma remove_match find c t n : find (c :: t) = Some n → remove_matches find 0 (c :: t) = remove_matches find (n - 1) t.
Proof. intros E. cbn [remove_matches]. by rewrite E. Qed.
Lemma stripANSI_osc s : bel_byte ∉ s → stripANSI (esc_byte :: "]"%byte :: s ++ [bel_byte]) = [].
Proof.
  intros Hs. unfold stripANSI. rewrite (remove_match _ _ _ _ (osc_front s [] Hs)).
  replace (3 + length s - 1)%nat with (length ("]"%byte :: s ++ [bel_byte])) by (cbn [length]; rewrite length_app; cbn [length]; lia).
  pose proof (remove_skip osc_match ("]"%byte :: s ++ [bel_byte]) []) as Hskip. rewrite app_nil_r in Hskip. by rewrite Hskip.
Qed.

(** C20.  A transcript leaves out what an escape sequence encloses: a chunk that
    is ESC ], any text without BEL, and BEL, typed or printed, adds no row and
    changes none, line breaks in the text included. *)
Theorem transcripts_leave_out_what_an_escape_encloses before after item s :
  bel_byte ∉ s → event_data item = Some (esc_byte :: "]"%byte :: s ++ [bel_byte]) →
  normalizeTranscriptRows (before ++ item :: after) = normalizeTranscriptRows (before ++ after).
Proof.
  intros Hs Hd. unfold normalizeTranscriptRows. rewrite !fold_left_app. cbn [fold_left]. f_equal. f_equal.
  generalize (fold_left transcript_item before (MkTranscript [] [] [])) as t. intros [rows echoes input]. unfold transcript_item. rewrite Hd. case_bool_decide.
  - unfold consumeInputChunk. by rewrite stripANSI_osc.
  - unfold normalizeOutputChunk. by rewrite stripANSI_osc.
Qed.

(** A line of output whose break is cut between two chunks is lost. *)
Example line_cut_at_its_break :
  normalizeOutputChunk (§"done" ++ cr_lf) = [§"done"]
  ∧ concat (map normalizeOutputChunk [§"done" ++ ["013"%byte]; ["010"%byte]]) = [].
Proof. by vm_compute. Qed.
(** A row of the audit trail that cannot be read is reported as missing. *)
Lemma unread_audit_row_is_missing `{Unicode, Postgres, Columns} id s e : 0 < id → mjoin (head (d_faults s)) = Some (LostAfter e) →
  (GetAuditEventByID id s).1 = Err ErrAuditEventNotFound.
Proof. intros Hid Hf. unfold GetAuditEventByID. rewrite (proj2 (Z.leb_gt id 0)) by lia. unfold bind, wrap_err, first_row. by rewrite Hf. Qed.

(** ** At concrete inputs *)

#[local] Existing Instance ascii_tables.
#[local] Existing Instance sample_pg.
Definition sample_floats : FloatText := {| float_text _ := §"0"; parse_fraction _ := of_Z 0 |}.
Definition sample_columns : Columns := {| username_of u := u; text_le := bytes_le |}.
#[local] Existing Instance sample_floats.
#[local] Existing Instance sample_columns.
Definition history_store (events : list event_row) : db :=
  Db {[§"u1"]} {[§"a1" := Asset §"web1" §"linux_vm" §"10.0.0.1" 22]}
     {[§"s1" := SessionRow §"u1" §"a1" §"ssh" §"active" (Some §"action:shell") None (Some 0) None 0]} events [] 5 [].
Definition not_utf8 : bytes := map z2b [255].
Definition sample_chunks : list data_event :=
  [DataEvent EventDataIn §"stdin" §"ls" (of_Z 1); DataEvent EventDataIn §"stdin" (§"rm" ++ [nul]) (of_Z 2);
   DataEvent EventDataOut §"stdout" not_utf8 (of_Z 3); DataEvent EventDataOut §"stdout" §"file" (of_Z 4)].
Lemma replay_shows_the_clean_chunks_witness :
  ∃ chunks s', (do! record_all §"s1" sample_chunks in ListReplayChunks §"s1" 0 0) (history_store []) = (Ok chunks, s')
    ∧ map shown_of chunks = omap expected sample_chunks.
Proof.
  apply (replay_shows_the_clean_chunks §"s1" §"s1" ltac:(by vm_compute) ltac:(by vm_compute) sample_chunks (history_store []) 0 eq_refl).
  - by eexists.
  - constructor.
  - repeat constructor; (apply (bool_decide_unpack _); by vm_compute) || by vm_compute.
  - by vm_compute.
Defined.
Example replay_of_sample : omap expected sample_chunks = [(§"in", §"stdin", §"ls"); (§"out", §"stdout", §"file")].
Proof. by vm_compute. Qed.

Definition chunk_row (id : nat) (type chunk : bytes) : event_row :=
  EventRow id §"s1" type (Z.of_nat id) None (data_payload §"tty" chunk §"i" (of_Z 0)).
(** A line typed in two chunks around a line of output. *)
Definition typed_rows : list event_row :=
  [chunk_row 1 EventDataIn (§"lz" ++ ["127"%byte]); chunk_row 2 EventDataOut (§"noise" ++ cr_lf); chunk_row 3 EventDataIn (§"s" ++ cr_lf)].
Lemma typed_rows_are_the_lines_of_the_input_witness :
  inward (normalizeTranscriptRows (map event_of typed_rows)) = typed_texts (concat (omap input_data (map event_of typed_rows))).
Proof.
  apply (typed_rows_are_the_lines_of_the_input (map event_of typed_rows)).
  repeat constructor; intros s Hs; vm_compute in Hs; (discriminate Hs || injection Hs as <-); apply (bool_decide_unpack _); by vm_compute.
Defined.
Example typed_sample : typed_texts (concat (omap input_data (map event_of typed_rows))) = [§"ls"].
Proof. by vm_compute. Qed.

Definition viewer (id : bytes) (roles : list bytes) : CurrentUser := MkCurrentUser id [] [] [] [] roles.
Lemma exports_read_every_event_witness :
  let events := List.filter (λ e, bool_decide (ev_session e = §"s1")) (d_events (history_store typed_rows)) in
  shows (ExportSessionTranscript 9 0 (Some (viewer §"u1" [])) §"s1") (history_store typed_rows) (λ x,
    may_view (history_store typed_rows) (Some (viewer §"u1" [])) §"s1" ∧
    ∃ item, x.2 = transcript_text item 0 (normalizeTranscriptRows (map event_of events))) ∧
  shows (ExportSessionSummary 9 (Some (viewer §"u1" [])) §"s1") (history_store typed_rows) (λ x,
    may_view (history_store typed_rows) (Some (viewer §"u1" [])) §"s1" ∧
    xs_counts x = event_type_counts (map event_of events) ∧ xs_event_count x = length events).
Proof.
  apply (exports_read_every_event (history_store typed_rows) (Some (viewer §"u1" [])) §"s1" §"s1" 0 9 ltac:(by vm_compute)).
  - split; repeat constructor.
  - repeat constructor.
Defined.

Definition enclosed : bytes := §"0;" ++ ["013"%byte] ++ §"rm -rf /" ++ ["013"%byte].
Lemma transcripts_leave_out_what_an_escape_encloses_witness :
  normalizeTranscriptRows ([] ++ event_of (chunk_row 1 EventDataIn (esc_byte :: "]"%byte :: enclosed ++ [bel_byte])) :: map event_of typed_rows)
  = normalizeTranscriptRows ([] ++ map event_of typed_rows).
Proof.
  apply (transcripts_leave_out_what_an_escape_encloses [] (map event_of typed_rows) _ enclosed).
  - apply (bool_decide_unpack _). by vm_compute.
  - by vm_compute.
Defined.

(** A page of chunks that cannot be shown has no [next_after_id], although the next one can. *)
Definition unshown_rows : list event_row := [chunk_row 1 EventDataOut not_utf8; chunk_row 2 EventDataOut §"ok"].
Example replay_ends_at_an_unshown_page :
  (Replay (Some (viewer §"u1" [])) §"s1" §"limit=1" (history_store unshown_rows)).1 = Ok (Reply StatusOK (true, [], None))
  ∧ match (Replay (Some (viewer §"u1" [])) §"s1" §"limit=2" (history_store unshown_rows)).1 with
    | Ok (Reply _ (_, items, next)) => (map rr_Text items, next) = ([§"ok"], Some 2%nat)
    | _ => False
    end.
Proof. by vm_compute. Qed.
(** Strangers are refused. *)
Example strangers_are_refused :
  (Events (Some (viewer §"u2" [§"operator"])) §"s1" [] (history_store typed_rows)).1 = Ok (ReplyError StatusForbidden §"forbidden").
Proof. by vm_compute. Qed.
